(* ===== verification/_CoqProject ===== *)
-Q . S2P
Prelude.v
Ordering.v
Encoding.v
Error.v
Text.v
Net.v
Base64.v
Primitives.v
Replay.v
Stealth.v
Framing.v
SessionCrypto.v
Cookie.v
Obfuscation.v
PhantomOne.v
TcpTransport.v
FrameLink.v
Handshake.v
TcpIo.v
HelloJson.v
Dialogue.v
TcpHandshake.v
Socks.v
Spool.v
SpoolSession.v
OfflineMesh.v
DataMule.v
RateLimiter.v
AcceptLoop.v
IdentityRecord.v
Discovery.v
Galois.v
Shamir.v
Binary64.v
Histogram.v
Shroud2.v
Batching.v
Workload.v
Shroud3.v
QuicShim.v
Cover.v
Mt19937.v
SnapProfile.v
SnapPlan.v
Capability.v
EdgeConfig.v
FrontDoor.v
EdgeSocks.v
Relay.v
Tunnel.v
EnvelopePolicy.v
NegotiatedTcp.v
PolicyExchange.v
