(* ===== verification/Prelude.v ===== *)
(** * SHPH verification library

    A model of the protocol core of SHPH (a Rust workspace) and the theorems
    that make it correct.  The definitions are translated from the Rust source,
    operation by operation, and evaluate; the names are the source's where Rocq
    allows.

    ** The program and its parts

    Two peers know each other's long-term keys ([IdentityKeyPair], [PeerPin]).
    They run an authenticated hybrid key exchange ([Handshake]) over a TCP
    connection ([TcpHandshake]), where a server first asks strangers for a
    stateless cookie ([Cookie]).  The keys feed one [SendCipher] and one
    [ReceiveCipher] per direction ([SessionCrypto], [Replay]).  Payloads are
    padded ([Obfuscation]), optionally framed by Phantom One ([PhantomOne]) or
    shaped into Shroud cells ([Framing], [Stealth]), encrypted, and moved over
    TCP ([TcpTransport]) or over the datagram shim ([QuicShim]).  Two peers may
    agree on an envelope policy inside the session ([EnvelopePolicy],
    [PolicyExchange]) and then exchange payloads and cover traffic under its budgets ([NegotiatedTcp],
    [Cover]), over anything that moves whole frames ([FrameLink]).  Shroud 2.0
    ([Shroud2], [Histogram], [Batching]) shapes datagrams independently.  Peers
    are found through self-certifying records ([IdentityRecord]) collected from
    untrusted providers ([Discovery]).  A listener limits how often an address
    may connect ([RateLimiter]) and runs its handshakes on worker threads
    ([AcceptLoop]).  Shroud 3.0 ([Shroud3]) adapts size and delay jointly to the
    workload.  A client chooses among transports by a signed-off path profile
    ([SnapProfile]) turned into a plan of attempts ([SnapPlan], with Python's
    shuffle in [Mt19937]).  An edge ([EdgeConfig], [FrontDoor]) lets a client
    through to its relay for a capability that works once ([Capability]); the
    client side of the edge is a local SOCKS5 server with a pool of connections
    ([EdgeSocks]), which the transport reaches with its own SOCKS5 client
    ([Socks]).  Once a stream is admitted, copying loops with idle timers and a
    cancellation token ([Relay]) join the local socket, the HTTP/2 stream and the
    backend ([Tunnel]).  Without a network two peers exchange the same encrypted frames
    as files, in a shared directory ([OfflineMesh]) or carried by couriers
    ([DataMule]), over the operations of [Spool] and the receive loop of
    [SpoolSession].  Recovery secrets are split among guardians ([Shamir],
    over [Galois]).

    ** Files and what they model

    - [Prelude], [Ordering], [Encoding], [Error], [Text], [Net], [Base64]: machine
      integers with their overflow behaviour, byte strings, three-way
      comparisons and canonical sorting, injective encodings, the outcome type
      (value, [ShphError], panic) with its binds, Rust string functions, the
      standard library's address parser and shph-core/src/net.rs.
    - [Primitives]: the third-party code as type classes (AEAD, hashes, X25519,
      Ed25519, ML-KEM, base64, generators) with documented laws, and executable
      instances ([Primitives.Toy]) on which every witness computes.
    - [Replay]: shph-core/src/crypto.rs [ReplayWindow]; the [AntiReplay] class is
      the specification every replay filter implements (also [SessionCrypto]'s
      two receivers and [PhantomOne]'s decoder).
    - [Stealth], [Framing], [SessionCrypto], [Cookie], [Handshake], [Shamir]:
      stealth.rs, framing.rs, crypto.rs, cookie.rs, handshake.rs with pqc.rs, and
      the sharing part of roadmap.rs, all of shph-core/src.
    - [Obfuscation]: shph-obfuscation/src/lib.rs.
    - [IdentityRecord], [Discovery]: shph-identity/src/lib.rs.
    - [PhantomOne], [Cover], [EnvelopePolicy], [NegotiatedTcp], [PolicyExchange]:
      the files of the same names in shph-transport/src (envelope_policy.rs for
      the last three).
    - [Histogram], [Shroud2], [Batching]: shph-transport/src/shroud2/mod.rs, on
      the IEEE operations of [Binary64]; [Workload]: shroud2/workload.rs;
      [Shroud3]: shroud3.rs.
    - [RateLimiter], [AcceptLoop]: the connection limiter and the accept loop of
      shph-transport/src/lib.rs; the loop and its threads are an interleaving of
      atomic actions.
    - [SnapProfile], [SnapPlan], [Mt19937]: shph-snap/src/lib.rs.
    - [Capability], [EdgeConfig], [FrontDoor], [EdgeSocks]: capability.rs,
      config.rs, frontdoor.rs with the request handling of carrier.rs, and the
      SOCKS5 server and connection pool of carrier.rs, all of shph-edge/src.
    - [Relay], [Tunnel]: shph-edge/src/relay.rs, and the copying tasks of an
      HTTP/2 stream on both sides with the idle clock of a connection, of
      carrier.rs.  A loop is a state machine; the wake-ups of the loops, the
      clock and the token are interleaved in any order.
    - [TcpTransport], [FrameLink], [TcpIo], [TcpHandshake], [QuicShim], [Socks],
      [Spool], [SpoolSession], [OfflineMesh], [DataMule]: shph-transport/src/lib.rs
      (the envelopes and path names of the last four from roadmap.rs of
      shph-core).  A directory is a finite map and carries the list of changes
      that other processes make before each access.
    - [Dialogue]: blocking computations on a connection followed step by step, and
      the rounds of two programs that answer each other; the handshake and the
      policy exchange are proved with it.
    - [HelloJson]: serde_json on hellos, an interface with an instance.

    A Rust value is a Rocq value of the same shape: integers are [Z] at their
    width, [Vec<u8>] is a list of [Z], an enum an [Inductive], a struct a
    [Record].  A [&mut self] method returns its outcome and the state after it,
    on errors too.  A socket is a pair of byte queues (or a log of datagrams) with
    a schedule of events, one per system call, that says how much it moves or
    how it fails; clocks and random draws are arguments.  The theorems quantify
    over all schedules, clocks and draws.

    ** What the theorems show

    - Key exchange: honest pinned peers agree; success implies freshness,
      authenticity and the required post-quantum material; the transcript and the
      signed payload determine what they cover; over TCP the exchange completes
      under any segmentation, and no stranger's hello is processed before a valid
      cookie.
    - Sessions: in every mode the receiver hands over exactly what was sent, in
      order, once, whatever the schedule; no nonce is used twice; the replay
      filters refine the full-history specification; no input panics a decoder.
    - Codecs: each decoder accepts exactly the encoder's image and inverts it.
    - Policies: negotiation is symmetric and within both offers; the exchange on
      the socket completes between honest peers and otherwise proves what the
      peer agreed to; budgets are kept against any peer and any clock.
    - Identities: a verified record and the pin taken from it come from the
      owner of the root key; the signed payload determines the content; an
      identity never moves backwards at a resolver.
    - Listening: the connection limiter refines a log of admissions whatever the
      order of its map; the accept loop never has more than its workers in flight
      and hands over only sessions of connections it let through.
    - Paths: the fallback check accepts exactly the acyclic profiles; plans hold
      exactly the eligible candidates in canonical order; the seeded shuffle
      permutes and ends.
    - Capabilities: the replay cache refines the history of its insertions; an
      admitted token was signed for this edge and is admitted once.
    - Edges: the lock-free limiter keeps its rate under any interleaving; a front
      door with a valid configuration never runs out of room for capabilities it
      verified; the pool keeps its limits; the SOCKS5 client and server complete
      their exchange; a pipe whose sockets answer in time ends well with both
      directions whole; a tunnel hands over prefixes always, and everything the
      local side sent once the server's task returns its totals and the client's
      producer ended well.
    - Offline: the two ends of an offline mesh are a queue while the sender's
      clock does not go back; receivers are safe whatever the files are and
      whoever changes them.
    - Secret sharing: any [threshold] shares recover, fewer say nothing.
    - Loops: every loop of the source is a structural recursion or carries fuel
      that is proved enough (lengths of the input for parsers, eight events for a
      receive call of the shim, [x + 1] rounds for the extended Euclid of [x]);
      rejection sampling carries the number of draws it may take, and the
      theorems say when that is enough (the Mersenne Twister's sampling ends
      within 20000 draws, since 19968 consecutive rejections would make its
      linear state zero; the depth-first search of a fallback graph gets one
      level more than there are nodes).

    ** Bounds

    Widths and limits are the source's constants.  Arithmetic that Rust checks
    (overflow, slices, [expect]) is the outcome [Panic], and the theorems show it
    is not reached.

    ** Not modelled

    - Operating-system glue: sockets beyond reads and writes, deadlines as wall
      clock, files and their permissions (keystore.rs, the file provider, the
      journal), TUN devices and firewalls, processes, signals, printing.
    - Code that drives third-party stacks (quinn, rustls, tokio): standards_quic,
      standards_tun, onion, the SNAP adapter, the TLS, HTTP/2 and HTTP/3
      sessions of the edge carrier.
    - The handshake that the offline mesh and the data mule run over their
      directories before the sessions modelled here.
    - Zeroising of buffers, which no pure model observes.
    - The command line, the TUI, benchmarks and fuzz targets. *)

From stdpp Require Export base tactics numbers list list_numbers sets strings pretty.

#[global] Open Scope Z_scope.

(** ** Notation scope of the development *)

Declare Scope shph_scope.
Delimit Scope shph_scope with shph.
#[global] Open Scope shph_scope.

(** ** Machine integers

    A [w]-bit unsigned integer is a [Z] in [0, 2^w).  [usize] is the 64-bit
    one.  The operations below are the Rust operations of the same names. *)

Definition u8_max : Z := 255.
Definition u16_max : Z := 65535.
Definition u32_max : Z := 4294967295.
Definition u64_max : Z := 18446744073709551615.
Definition u128_max : Z := 340282366920938463463374607431768211455.
Definition usize_max : Z := u64_max.

(** [x as uN] of a wider unsigned value. *)
Definition cast (w : Z) (x : Z) : Z := x mod 2 ^ w.

Definition checked_add (max a b : Z) : option Z :=
  if a + b <=? max then Some (a + b) else None.
Definition checked_sub (a b : Z) : option Z :=
  if b <=? a then Some (a - b) else None.
Definition checked_mul (max a b : Z) : option Z :=
  if a * b <=? max then Some (a * b) else None.
Definition saturating_add (max a b : Z) : Z := Z.min max (a + b).
Definition saturating_sub (a b : Z) : Z := Z.max 0 (a - b).
(** [uN::try_from x] of a wider unsigned value. *)
Definition try_from (max x : Z) : option Z :=
  if x <=? max then Some x else None.
Definition div_ceil (a b : Z) : Z := (a + b - 1) / b.
Definition abs_diff (a b : Z) : Z := Z.abs (a - b).
(** [(lo..=hi).contains(&x)] *)
Definition in_range (lo hi x : Z) : bool := (lo <=? x) && (x <=? hi).
Definition u64_shl (x n : Z) : Z := Z.land (Z.shiftl x n) u64_max.

(** ** Byte strings *)

Abbreviation bytes := (list Z).

Definition zlen {A} (l : list A) : Z := Z.of_nat (length l).

Definition is_byte (b : Z) : Prop := 0 <= b < 256.
Definition bytes_ok (l : bytes) : Prop := Forall is_byte l.

#[export] Instance is_byte_dec b : Decision (is_byte b).
Proof. unfold is_byte. apply _. Defined.
#[export] Instance bytes_ok_dec l : Decision (bytes_ok l).
Proof. unfold bytes_ok. apply _. Defined.

Definition zreplicate {A} (n : Z) (x : A) : list A := replicate (Z.to_nat n) x.
Definition ztake {A} (n : Z) (l : list A) : list A := take (Z.to_nat n) l.
Definition zdrop {A} (n : Z) (l : list A) : list A := drop (Z.to_nat n) l.

(** [x.to_be_bytes()] of an [n]-byte integer, and [uN::from_be_bytes]. *)
Fixpoint be_bytes (n : nat) (x : Z) : bytes :=
  match n with
  | O => []
  | S n' => (x / 256 ^ Z.of_nat n') mod 256 :: be_bytes n' x
  end.
Definition be_val (l : bytes) : Z := fold_left (fun a b => a * 256 + b) l 0.

(** The ASCII bytes of a Rust byte-string literal. *)
Definition str_bytes (s : string) : bytes :=
  map (fun c => Z.of_N (Ascii.N_of_ascii c)) (String.list_ascii_of_string s).

Definition bytes_eqb (a b : bytes) : bool := bool_decide (a = b).

(** [<=] on byte strings: lexicographic, as on Rust arrays, slices and vectors. *)
Fixpoint bytes_leb (a b : bytes) : bool :=
  match a, b with
  | [], _ => true
  | _ :: _, [] => false
  | x :: a', y :: b' => (x <? y) || ((x =? y) && bytes_leb a' b')
  end.

(** ** Lemmas: lengths *)

Create Rewrite HintDb zlen.

Lemma zlen_nil {A} : zlen (@nil A) = 0.
Proof. done. Qed.

Lemma zlen_cons {A} (x : A) l : zlen (x :: l) = 1 + zlen l.
Proof. unfold zlen. simpl. lia. Qed.

Lemma zlen_app {A} (l k : list A) : zlen (l ++ k) = zlen l + zlen k.
Proof. unfold zlen. rewrite length_app. lia. Qed.

Lemma zlen_nonneg {A} (l : list A) : 0 <= zlen l.
Proof. unfold zlen. lia. Qed.

Lemma zlen_zreplicate {A} n (x : A) : zlen (zreplicate n x) = Z.max 0 n.
Proof. unfold zlen, zreplicate. rewrite length_replicate. lia. Qed.

Lemma zlen_ztake {A} n (l : list A) : zlen (ztake n l) = Z.max 0 (Z.min n (zlen l)).
Proof. unfold zlen, ztake. rewrite length_take. lia. Qed.

Lemma zlen_zdrop {A} n (l : list A) : zlen (zdrop n l) = zlen l - Z.max 0 (Z.min n (zlen l)).
Proof. unfold zlen, zdrop. rewrite length_drop. lia. Qed.

Lemma zlen_be_bytes n x : zlen (be_bytes n x) = Z.of_nat n.
Proof. unfold zlen. f_equal. induction n; simpl; congruence. Qed.

Lemma length_be_bytes n x : length (be_bytes n x) = n.
Proof. induction n; simpl; congruence. Qed.

Lemma zlen_0_inv {A} (l : list A) : zlen l = 0 -> l = [].
Proof. destruct l; [done|]. rewrite zlen_cons. pose proof (zlen_nonneg l). lia. Qed.

Lemma zlen_insert {A} i (x : A) l : zlen (<[i:=x]> l) = zlen l.
Proof. unfold zlen. by rewrite length_insert. Qed.

#[export] Hint Rewrite @zlen_nil @zlen_cons @zlen_app @zlen_zreplicate @zlen_ztake
  @zlen_zdrop zlen_be_bytes @zlen_insert : zlen.

(** [zl]: normalise lengths and close linear goals about them, knowing that
    lengths are not negative. *)
Ltac zlen_pos :=
  repeat match goal with
  | |- context [zlen ?l] => lazymatch goal with
      | _ : 0 <= zlen l |- _ => fail
      | _ => pose proof (zlen_nonneg l) end
  | _ : context [zlen ?l] |- _ => lazymatch goal with
      | _ : 0 <= zlen l |- _ => fail
      | _ => pose proof (zlen_nonneg l) end
  end.
Ltac zl := autorewrite with zlen in *; zlen_pos; lia.

(** ** Lemmas: take and drop at an [app] boundary *)

Lemma ztake_app {A} n (l k : list A) : zlen l = n -> ztake n (l ++ k) = l.
Proof. unfold zlen, ztake. intros <-. rewrite Nat2Z.id. by apply take_app_length. Qed.

Lemma zdrop_app {A} n (l k : list A) : zlen l = n -> zdrop n (l ++ k) = k.
Proof. unfold zlen, zdrop. intros <-. rewrite Nat2Z.id. by apply drop_app_length. Qed.

Lemma ztake_zdrop {A} n (l : list A) : ztake n l ++ zdrop n l = l.
Proof. apply take_drop. Qed.

Lemma ztake_all {A} n (l : list A) : zlen l <= n -> ztake n l = l.
Proof. unfold zlen, ztake. intros. apply take_ge. lia. Qed.

Lemma zdrop_zdrop {A} n m (l : list A) :
  0 <= n -> 0 <= m -> zdrop n (zdrop m l) = zdrop (m + n) l.
Proof. unfold zdrop. intros. rewrite drop_drop. f_equal. lia. Qed.

Lemma zdrop_0 {A} (l : list A) : zdrop 0 l = l.
Proof. done. Qed.

Lemma ztake_0 {A} (l : list A) : ztake 0 l = [].
Proof. done. Qed.

Lemma zdrop_zreplicate {A} n m (x : A) :
  0 <= n -> zdrop n (zreplicate m x) = zreplicate (m - n) x.
Proof. unfold zdrop, zreplicate. intros. rewrite drop_replicate. f_equal. lia. Qed.

(** ** Lemmas: big-endian integers *)

Lemma be_val_app_acc l acc : fold_left (fun a b => a * 256 + b) l acc
  = acc * 256 ^ zlen l + be_val l.
Proof.
  revert acc. induction l as [|b l IH]; intros acc.
  - rewrite zlen_nil. unfold be_val. simpl. lia.
  - unfold be_val. cbn [fold_left].
    rewrite (IH (acc * 256 + b)), (IH (0 * 256 + b)), zlen_cons, Z.pow_add_r by zl.
    lia.
Qed.

Lemma be_val_cons b l : be_val (b :: l) = b * 256 ^ zlen l + be_val l.
Proof. unfold be_val at 1. cbn [fold_left]. rewrite be_val_app_acc. lia. Qed.

Lemma be_val_nil : be_val [] = 0.
Proof. done. Qed.

Lemma be_val_bound l : bytes_ok l -> 0 <= be_val l < 256 ^ zlen l.
Proof.
  induction 1 as [|b l Hb Hl IH]; [done|].
  rewrite be_val_cons, zlen_cons, Z.pow_add_r by zl.
  unfold is_byte in Hb. nia.
Qed.

Lemma be_bytes_mod n x : 0 < 256 ^ Z.of_nat n /\ be_val (be_bytes n x) = x mod 256 ^ Z.of_nat n.
Proof.
  induction n as [|n [Hp IH]]; simpl be_bytes; [split; [done|by rewrite Z.mod_1_r]|].
  rewrite be_val_cons, IH, zlen_be_bytes, Nat2Z.inj_succ, Z.pow_succ_r by lia.
  split; [lia|]. rewrite (Z.mul_comm 256), Z.rem_mul_r by lia. lia.
Qed.

Lemma be_val_be_bytes n x : 0 <= x < 256 ^ Z.of_nat n -> be_val (be_bytes n x) = x.
Proof. intros. rewrite (proj2 (be_bytes_mod n x)). by apply Z.mod_small. Qed.

Lemma be_bytes_ok n x : bytes_ok (be_bytes n x).
Proof.
  induction n; simpl; constructor; [|done]. red. apply Z.mod_pos_bound. lia.
Qed.

Lemma be_bytes_ext n x y :
  x mod 256 ^ Z.of_nat n = y mod 256 ^ Z.of_nat n -> be_bytes n x = be_bytes n y.
Proof.
  induction n as [|n IH]; [done|]. intros H. simpl be_bytes.
  destruct (be_bytes_mod n 0) as [Hp _].
  rewrite Nat2Z.inj_succ, Z.pow_succ_r, (Z.mul_comm 256) in H by lia.
  rewrite !Z.rem_mul_r in H by lia.
  pose proof (Z.mod_pos_bound x _ Hp). pose proof (Z.mod_pos_bound y _ Hp).
  set (P := 256 ^ Z.of_nat n) in *. set (qa := (x / P) mod 256) in *.
  set (qb := (y / P) mod 256) in *. clearbody P qa qb.
  assert (qa = qb) as ->.
  { assert (P * (qa - qb) < P /\ - P < P * (qa - qb)) by nia. nia. }
  f_equal. apply IH. lia.
Qed.

Lemma be_bytes_be_val l : bytes_ok l -> be_bytes (length l) (be_val l) = l.
Proof.
  induction 1 as [|b l Hb Hl IH]; [done|]. simpl length. simpl be_bytes.
  pose proof (be_val_bound l Hl) as Hv. unfold is_byte in Hb.
  rewrite be_val_cons. fold (zlen l).
  rewrite Z.div_add_l, Z.div_small, Z.add_0_r, Z.mod_small by lia.
  f_equal. etransitivity; [|exact IH]. apply be_bytes_ext.
  fold (zlen l). by rewrite Z.add_comm, Z.mod_add by lia.
Qed.

Lemma be_bytes_inj n x y :
  0 <= x < 256 ^ Z.of_nat n -> 0 <= y < 256 ^ Z.of_nat n ->
  be_bytes n x = be_bytes n y -> x = y.
Proof. intros Hx Hy H%(f_equal be_val). by rewrite !be_val_be_bytes in H. Qed.

Lemma bytes_ok_app l k : bytes_ok (l ++ k) <-> bytes_ok l /\ bytes_ok k.
Proof. apply Forall_app. Qed.

Lemma bytes_ok_zdrop n l : bytes_ok l -> bytes_ok (zdrop n l).
Proof. apply Forall_drop. Qed.

Lemma bytes_ok_ztake n l : bytes_ok l -> bytes_ok (ztake n l).
Proof. apply Forall_take. Qed.

Create HintDb bytes.
#[export] Hint Resolve be_bytes_ok bytes_ok_zdrop bytes_ok_ztake : bytes.

Lemma bytes_eqb_eq a b : bytes_eqb a b = true <-> a = b.
Proof. unfold bytes_eqb. by rewrite bool_decide_eq_true. Qed.

Lemma bytes_eqb_refl a : bytes_eqb a a = true.
Proof. by apply bytes_eqb_eq. Qed.

Lemma bytes_leb_total a b : bytes_leb a b = false -> bytes_leb b a = true.
Proof.
  revert b. induction a as [|x a IH]; intros [|y b] H; simpl in *; try done.
  destruct (Z.ltb_spec x y), (Z.eqb_spec x y), (Z.ltb_spec y x), (Z.eqb_spec y x);
    simpl in *; try done; try lia. auto.
Qed.

Lemma bytes_leb_antisym a b : bytes_leb a b = true -> bytes_leb b a = true -> a = b.
Proof.
  revert b. induction a as [|x a IH]; intros [|y b] H1 H2; simpl in *; try done.
  destruct (Z.ltb_spec x y), (Z.eqb_spec x y), (Z.ltb_spec y x), (Z.eqb_spec y x);
    simpl in *; try done; try lia. f_equal; auto.
Qed.

#[global] Arguments be_bytes : simpl never.
#[global] Arguments be_val : simpl never.

(** A 16-bit integer as its two bytes. *)
Lemma be_bytes_2 x : 0 <= x < 65536 ->
  exists a b, be_bytes 2 x = [a; b] /\ be_val [a; b] = x.
Proof.
  intros Hx. exists ((x / 256) mod 256), ((x / 1) mod 256).
  split; [done|]. change [_; _] with (be_bytes 2 x). by apply be_val_be_bytes.
Qed.

Lemma be_pair a b : is_byte a -> is_byte b -> 0 <= be_val [a; b] <= u16_max /\ be_bytes 2 (be_val [a; b]) = [a; b].
Proof.
  intros Ha Hb. assert (bytes_ok [a; b]) as Hab by (apply Forall_cons_2; [done|apply Forall_singleton; done]).
  pose proof (be_val_bound _ Hab) as Hv. change (256 ^ zlen [a; b]) with 65536 in Hv.
  split; [unfold u16_max; lia|]. exact (be_bytes_be_val _ Hab).
Qed.

Lemma bytes_ok_cons b l : bytes_ok (b :: l) <-> is_byte b /\ bytes_ok l.
Proof. apply Forall_cons. Qed.

(** Lists with a known number of leading elements. *)
Lemma list_5 {A} (l : list A) :
  5 <= zlen l -> exists a b c d e r, l = [a; b; c; d; e] ++ r.
Proof.
  intros H. do 5 (destruct l as [|? l]; [unfold zlen in H; simpl in H; lia|]). eauto 8.
Qed.

Lemma list_7 {A} (l : list A) :
  7 <= zlen l -> exists a b c d e f g r, l = [a; b; c; d; e; f; g] ++ r.
Proof.
  intros H. do 7 (destruct l as [|? l]; [unfold zlen in H; simpl in H; lia|]). eauto 10.
Qed.

(** Discharge a closed decidable proposition by computation. *)
Ltac by_compute := apply (bool_decide_unpack _); vm_compute; exact I.
