(* ===== verification/Ordering.v ===== *)
(** Three-way comparisons ([std::cmp::Ordering], [cmp], [then_with]) and the
    stable sort that uses them, with the laws that make sorting canonical. *)
From stdpp Require Import sorting.
From S2P Require Import Prelude.

(** ** Comparisons *)

(** [Ordering::then_with] *)
Definition then_with (o next : comparison) : comparison :=
  match o with Eq => next | _ => o end.

(** [cmp] of byte strings and of strings, lexicographic on the bytes. *)
Fixpoint cmp_bytes (a b : bytes) : comparison :=
  match a, b with
  | [], [] => Eq
  | [], _ :: _ => Lt
  | _ :: _, [] => Gt
  | x :: a', y :: b' => then_with (x ?= y) (cmp_bytes a' b')
  end.

Definition cmp_string (a b : string) : comparison := cmp_bytes (str_bytes a) (str_bytes b).

(** [slice::sort_by]: stable. *)
Definition sort_by {A} (cmp : A -> A -> comparison) (l : list A) : list A :=
  merge_sort (fun a b => cmp a b <> Gt) l.

(** ** Laws *)

Class CmpLaws {A} (cmp : A -> A -> comparison) := {
  cmp_opp a b : cmp b a = CompOpp (cmp a b);
  cmp_trans a b c : cmp a b = Lt -> cmp b c = Lt -> cmp a c = Lt;
  cmp_eq a b c : cmp a b = Eq -> cmp a c = cmp b c
}.

#[export] Instance cmp_Z_laws : CmpLaws Z.compare.
Proof.
  split.
  - intros. apply Z.compare_antisym.
  - intros a b c. rewrite !Z.compare_lt_iff. lia.
  - intros a b c. rewrite Z.compare_eq_iff. congruence.
Qed.

Lemma cmp_bytes_eq a b : cmp_bytes a b = Eq <-> a = b.
Proof.
  revert b. induction a as [|x a IH]; intros [|y b]; try done. cbn [cmp_bytes]. unfold then_with.
  destruct (Z.compare_spec x y); try (split; [done|intros [=]; lia]). rewrite IH. subst y. naive_solver.
Qed.

#[export] Instance cmp_bytes_laws : CmpLaws cmp_bytes.
Proof.
  split.
  - induction a as [|x a IH]; intros [|y b]; try done. cbn [cmp_bytes]. rewrite (cmp_opp x y), IH.
    by destruct (x ?= y).
  - induction a as [|x a IH]; intros [|y b] [|z c]; try done. cbn [cmp_bytes]. unfold then_with.
    destruct (Z.compare_spec x y) as [->|Hxy|]; [| |done]; destruct (Z.compare_spec y z) as [->|Hyz|]; try done.
    + apply IH.
    + by rewrite (proj2 (Z.compare_lt_iff x z)) by lia.
    + by rewrite (proj2 (Z.compare_lt_iff x z)) by lia.
  - intros a b c Hab%cmp_bytes_eq. by subst.
Qed.

#[export] Instance cmp_string_laws : CmpLaws cmp_string.
Proof.
  unfold cmp_string. split; intros.
  - apply cmp_opp.
  - by eapply cmp_trans.
  - by apply cmp_eq.
Qed.

Section Combinators.
Context {A B : Type}.

(** Comparing by a field. *)
Definition cmp_by (f : A -> B) (cmp : B -> B -> comparison) : A -> A -> comparison := fun a b => cmp (f a) (f b).
Definition cmp_then (c1 c2 : A -> A -> comparison) : A -> A -> comparison := fun a b => then_with (c1 a b) (c2 a b).

#[export] Instance cmp_by_laws f cmp `{!CmpLaws cmp} : CmpLaws (cmp_by f cmp).
Proof.
  unfold cmp_by. split; intros.
  - apply cmp_opp.
  - by eapply cmp_trans.
  - by apply cmp_eq.
Qed.

#[export] Instance cmp_then_laws c1 c2 `{!CmpLaws c1, !CmpLaws c2} : CmpLaws (cmp_then c1 c2).
Proof.
  unfold cmp_then, then_with. split.
  - intros a b. rewrite (cmp_opp (cmp:=c1) a b). destruct (c1 a b); cbn; [apply cmp_opp|done..].
  - intros a b c. destruct (c1 a b) eqn:E1; try done.
    + rewrite (cmp_eq (cmp:=c1) a b c E1). destruct (c1 b c); try done. apply cmp_trans.
    + intros _. destruct (c1 b c) eqn:E2; try done.
      * intros _. rewrite (cmp_opp (cmp:=c1) c a). rewrite (cmp_eq (cmp:=c1) c b a); [by rewrite (cmp_opp (cmp:=c1) a b), E1|].
        by rewrite (cmp_opp (cmp:=c1) b c), E2.
      * intros _. by rewrite (cmp_trans (cmp:=c1) a b c).
  - intros a b c. destruct (c1 a b) eqn:E1; try done. intros E2. rewrite (cmp_eq (cmp:=c1) a b c E1).
    destruct (c1 b c); try done. by apply cmp_eq.
Qed.
End Combinators.

(** ** Sorting *)

Section Sort.
Context {A : Type} (cmp : A -> A -> comparison) `{!CmpLaws cmp}.

Notation le := (fun a b => cmp a b <> Gt).

Lemma cmp_refl a : cmp a a = Eq.
Proof. pose proof (cmp_opp (cmp:=cmp) a a). by destruct (cmp a a). Qed.

#[local] Instance le_trans : Transitive le.
Proof.
  intros a b c Hab Hbc. destruct (cmp a b) eqn:E1; [by rewrite (cmp_eq a b c)| |done].
  destruct (cmp b c) eqn:E2; [|by rewrite (cmp_trans a b c)|done].
  rewrite (cmp_opp (cmp:=cmp) c a), (cmp_eq (cmp:=cmp) c b a); [by rewrite (cmp_opp (cmp:=cmp) a b), E1|].
  by rewrite (cmp_opp (cmp:=cmp) b c), E2.
Qed.

#[local] Instance le_total : Total le.
Proof. intros a b. rewrite (cmp_opp (cmp:=cmp) a b). by destruct (cmp a b); [left|left|right]. Qed.

Lemma sort_by_perm l : sort_by cmp l ≡ₚ l.
Proof. apply merge_sort_Permutation. Qed.

Lemma sort_by_sorted l : StronglySorted le (sort_by cmp l).
Proof. by apply StronglySorted_merge_sort; try apply _. Qed.

(** Sorting forgets the order of elements the comparison can tell apart. *)
Lemma sort_by_unique l k :
  (forall x y, x ∈ l -> y ∈ l -> cmp x y = Eq -> x = y) -> l ≡ₚ k -> StronglySorted le k -> sort_by cmp l = k.
Proof.
  intros Hu Hp Hk. apply (StronglySorted_unique_strong le); [|by apply sort_by_sorted|done|by rewrite sort_by_perm].
  intros x y Hx Hy Hxy Hyx. rewrite sort_by_perm in Hx. rewrite <- Hp in Hy. apply Hu; try done.
  rewrite (cmp_opp (cmp:=cmp) x y) in Hyx. by destruct (cmp x y).
Qed.

Lemma sort_by_canonical l k :
  (forall x y, x ∈ l -> y ∈ l -> cmp x y = Eq -> x = y) -> l ≡ₚ k -> sort_by cmp l = sort_by cmp k.
Proof. intros Hu Hp. apply sort_by_unique; [done|by rewrite sort_by_perm|apply sort_by_sorted]. Qed.
End Sort.
