(* ===== verification/Encoding.v ===== *)
(** Injective encodings: byte strings that determine what they encode, also
    when more follows.  Lengths and counts are 32-bit big-endian prefixes. *)
From S2P Require Import Prelude.

(** [enc] of two good values followed by anything: the values are the same and
    so is what follows. *)
Class PrefixInj {A} (enc : A -> bytes) (good : A -> Prop) :=
  prefix_inj x y r r' : good x -> good y -> enc x ++ r = enc y ++ r' -> x = y /\ r = r'.

Lemma app_inj_len {A} (l1 l2 k1 k2 : list A) : zlen l1 = zlen l2 -> l1 ++ k1 = l2 ++ k2 -> l1 = l2 /\ k1 = k2.
Proof. intros Hl. apply app_inj_1. unfold zlen in Hl. lia. Qed.

(** A fixed-width integer. *)
Lemma be_bytes_prefix n x y r r' :
  0 <= x < 256 ^ Z.of_nat n -> 0 <= y < 256 ^ Z.of_nat n ->
  be_bytes n x ++ r = be_bytes n y ++ r' -> x = y /\ r = r'.
Proof.
  intros Hx Hy E. apply app_inj_len in E as [E ->]; [|by rewrite !zlen_be_bytes]. by apply be_bytes_inj in E.
Qed.

(** A fixed number of bytes. *)
Lemma fixed_prefix n (x y r r' : bytes) : zlen x = n -> zlen y = n -> x ++ r = y ++ r' -> x = y /\ r = r'.
Proof. intros Hx Hy. apply app_inj_len. lia. Qed.

(** [append_bytes_vec]: a length and the bytes. *)
Definition put_bytes (b : bytes) : bytes := be_bytes 4 (cast 32 (zlen b)) ++ b.

Definition short (b : bytes) : Prop := zlen b < 2 ^ 32.

Lemma cast_short b : short b -> cast 32 (zlen b) = zlen b.
Proof. intros Hb. unfold cast. apply Z.mod_small. unfold short in Hb. pose proof (zlen_nonneg b). lia. Qed.

#[export] Instance put_bytes_inj : PrefixInj put_bytes short.
Proof.
  intros x y r r' Hx Hy E. unfold put_bytes in E. rewrite !cast_short, <- !app_assoc in E by done.
  apply be_bytes_prefix in E as [E1 E2].
  - by apply app_inj_len in E2.
  - unfold short in Hx. change (256 ^ Z.of_nat 4) with (2 ^ 32). pose proof (zlen_nonneg x). lia.
  - unfold short in Hy. change (256 ^ Z.of_nat 4) with (2 ^ 32). pose proof (zlen_nonneg y). lia.
Qed.

(** An optional fixed-size value behind a flag byte. *)
Definition put_option (o : option bytes) : bytes := match o with Some h => 1 :: h | None => [0] end.

Lemma put_option_inj n (x y : option bytes) r r' :
  zlen (default (zreplicate n 0) x) = n -> zlen (default (zreplicate n 0) y) = n ->
  put_option x ++ r = put_option y ++ r' -> x = y /\ r = r'.
Proof.
  intros Hx Hy E. destruct x as [x|], y as [y|]; cbn [put_option app default id] in *; injection E as E; try done.
  destruct (fixed_prefix n x y r r') as [-> ->]; done.
Qed.

(** A counted sequence. *)
Definition put_list {A} (enc : A -> bytes) (l : list A) : bytes :=
  be_bytes 4 (cast 32 (zlen l)) ++ flat_map enc l.

Lemma flat_map_prefix {A} (enc : A -> bytes) good `{!PrefixInj enc good} l k r r' :
  Forall good l -> Forall good k -> length l = length k ->
  flat_map enc l ++ r = flat_map enc k ++ r' -> l = k /\ r = r'.
Proof.
  intros Hl. revert k. induction Hl as [|x l Hx Hl IH]; intros k Hk Hlen E.
  - by destruct k.
  - destruct k as [|y k]; [done|]. apply Forall_cons in Hk as [Hy Hk]. cbn [flat_map] in E. rewrite <- !app_assoc in E.
    apply (prefix_inj (enc:=enc)) in E as [-> E]; [|done..]. apply IH in E as [-> ->]; [done..|]. cbn in Hlen. lia.
Qed.

#[export] Instance put_list_inj {A} (enc : A -> bytes) good `{!PrefixInj enc good} :
  PrefixInj (put_list enc) (fun l => Forall good l /\ zlen l < 2 ^ 32).
Proof.
  intros l k r r' [Hl Hll] [Hk Hlk] E. unfold put_list in E. rewrite <- !app_assoc in E.
  assert (forall m : list A, zlen m < 2 ^ 32 -> cast 32 (zlen m) = zlen m) as Hc.
  { intros m Hm. unfold cast. apply Z.mod_small. pose proof (zlen_nonneg m). lia. }
  rewrite !Hc in E by done. pose proof (zlen_nonneg l). pose proof (zlen_nonneg k).
  apply be_bytes_prefix in E as [E1 E2]; [|change (256 ^ Z.of_nat 4) with (2 ^ 32); lia..].
  apply (flat_map_prefix enc good) in E2; [done..|]. unfold zlen in E1. lia.
Qed.
