(* ===== verification/Error.v ===== *)
(** Outcomes of Rust functions: the crate's error type [ShphError]
    (shph-core/src/error.rs), the three-way outcome of a fallible function
    (a value, an error, a panic), its bind notations, and the partial
    operations on slices, which panic out of range as in Rust. *)
From S2P Require Import Prelude.

(** [ShphError]: the payload of each constructor is its message.  [Io] and
    [Serialization] wrap errors of the standard library and of serde_json,
    represented by their printed form. *)
Inductive ShphError :=
  | Io (e : string)
  | Config (msg : string)
  | Crypto (msg : string)
  | Protocol (msg : string)
  | Handshake (msg : string)
  | Auth (msg : string)
  | KeyStore (msg : string)
  | Tun (msg : string)
  | Transport (msg : string)
  | Obfuscation (msg : string)
  | Stealth (msg : string)
  | Serialization (e : string)
  | InvalidArgument (msg : string)
  | NotConnected
  | AlreadyConnected
  | ConnectionClosed
  | Timeout
  | ResourceExhausted (msg : string)
  | PermissionDenied (msg : string)
  | Unsupported (msg : string)
  | Internal (msg : string).

#[export] Instance ShphError_eq_dec : EqDecision ShphError.
Proof. solve_decision. Defined.

(** The outcome of a call: [Panic] stands for a Rust panic (slice index out of
    range, empty sampling range, ...). *)
Inductive result (A : Type) :=
  | Ok (a : A)
  | Err (e : ShphError)
  | Panic.
Arguments Ok {A} a.
Arguments Err {A} e.
Arguments Panic {A}.

#[export] Instance result_eq_dec {A} `{EqDecision A} : EqDecision (result A).
Proof. solve_decision. Defined.

Definition rbind {A B} (m : result A) (k : A -> result B) : result B :=
  match m with
  | Ok a => k a
  | Err e => Err e
  | Panic => Panic
  end.

(** [let? x := e in k] is Rust's [let x = e?; k]. *)
Notation "'let?' x ':=' m 'in' k" := (rbind m (fun x => k))
  (at level 10, x name, m at level 100, k at level 200) : shph_scope.
Notation "'let?' ' p ':=' m 'in' k" := (rbind m (fun x => match x with p => k end))
  (at level 10, p pattern, m at level 100, k at level 200) : shph_scope.
Notation "'do?' m ';' k" := (rbind m (fun _ : unit => k))
  (at level 10, m at level 100, k at level 200) : shph_scope.

(** A call on [&mut self] returns its outcome and the receiver afterwards,
    also when it fails. *)
Definition sbind {A B S} (m : result A * S) (k : A -> S -> result B * S) : result B * S :=
  match m with
  | (Ok a, s) => k a s
  | (Err e, s) => (Err e, s)
  | (Panic, s) => (Panic, s)
  end.
Notation "'let!' x ',' s ':=' m 'in' k" := (sbind m (fun x s => k))
  (at level 10, x name, s name, m at level 100, k at level 200) : shph_scope.

(** [o.ok_or_else(|| e)?] *)
Definition ok_or {A} (o : option A) (e : ShphError) : result A :=
  match o with Some a => Ok a | None => Err e end.

Definition is_ok {A} (r : result A) : bool :=
  match r with Ok _ => true | _ => false end.
Definition is_err {A} (r : result A) : bool :=
  match r with Err _ => true | _ => false end.
Definition no_panic {A} (r : result A) : Prop := r <> Panic.

(** A sequence of calls on the same receiver: all the outcomes, and the
    receiver at the end. *)
Fixpoint run {A B S} (f : A -> S -> result B * S) (l : list A) (s : S)
  : list (result B) * S :=
  match l with
  | [] => ([], s)
  | a :: l' =>
      let '(r, s1) := f a s in
      let '(rs, s2) := run f l' s1 in
      (r :: rs, s2)
  end.

(** The values of the calls that succeeded, in order. *)
Definition oks {A} (rs : list (result A)) : list A :=
  flat_map (fun r => match r with Ok a => [a] | _ => [] end) rs.

(** The arguments of the calls that succeeded, in order. *)
Definition sent {A B} (ms : list A) (rs : list (result B)) : list A :=
  flat_map (fun '(m, r) => if is_ok r then [m] else []) (zip ms rs).

(** The result of a crate with an error type [E] of its own: [inl] is an error. *)
Definition try_bind {E A B} (m : E + A) (k : A -> E + B) : E + B :=
  match m with inr a => k a | inl e => inl e end.
Notation "'let#' x ':=' m 'in' k" := (try_bind m (fun x => k))
  (at level 10, x name, m at level 100, k at level 200) : shph_scope.
Notation "'do#' m ';' k" := (try_bind m (fun _ : unit => k))
  (at level 10, m at level 100, k at level 200) : shph_scope.

(** [if !ok { return Err(e); }] and [o.ok_or(e)?] *)
Definition check_or {E} (ok : bool) (e : E) : E + unit := if ok then inr () else inl e.
Definition some_or {E A} (o : option A) (e : E) : E + A := match o with Some a => inr a | None => inl e end.

(** ** Slices and indexing *)

(** [l[i]] *)
Definition index {A} (l : list A) (i : Z) : result A :=
  if i <? 0 then Panic
  else match l !! Z.to_nat i with Some x => Ok x | None => Panic end.

(** [&l[a..b]] *)
Definition slice {A} (l : list A) (a b : Z) : result (list A) :=
  if (0 <=? a) && (a <=? b) && (b <=? zlen l)
  then Ok (ztake (b - a) (zdrop a l)) else Panic.

(** [&l[a..]] *)
Definition slice_from {A} (l : list A) (a : Z) : result (list A) :=
  slice l a (zlen l).

(** [l.get(a..b)] *)
Definition get_range {A} (l : list A) (a b : Z) : option (list A) :=
  if (0 <=? a) && (a <=? b) && (b <=? zlen l)
  then Some (ztake (b - a) (zdrop a l)) else None.

(** [l[a..b].copy_from_slice(src)] *)
Definition copy_into {A} (l : list A) (a b : Z) (src : list A) : result (list A) :=
  if (0 <=? a) && (a <=? b) && (b <=? zlen l) && (zlen src =? b - a)
  then Ok (ztake a l ++ src ++ zdrop b l) else Panic.

(** [l[i] = x] *)
Definition store {A} (l : list A) (i : Z) (x : A) : result (list A) :=
  copy_into l i (i + 1) [x].

(** [l.resize(n, x)] *)
Definition resize {A} (l : list A) (n : Z) (x : A) : list A :=
  ztake n l ++ zreplicate (n - zlen l) x.

(** [l.copy_within(a..b, 0)] *)
Definition copy_within_front {A} (l : list A) (a b : Z) : result (list A) :=
  let? src := slice l a b in copy_into l 0 (b - a) src.

(** [l[n..].zeroize(); l.truncate(n)] *)
Definition wipe_truncate (l : bytes) (n : Z) : result bytes :=
  let? tail := slice_from l n in
  let? wiped := copy_into l n (zlen l) (zreplicate (zlen tail) 0) in
  Ok (ztake n wiped).

(** ** Lemmas *)

Lemma slice_app {A} a b (l k r : list A) :
  zlen l = a -> zlen k = b - a -> slice (l ++ k ++ r) a b = Ok k.
Proof.
  intros Ha Hb. unfold slice.
  replace (_ && _) with true; last first.
  { symmetry. rewrite !andb_true_iff, !Z.leb_le. zl. }
  by rewrite zdrop_app, ztake_app.
Qed.

Lemma slice_ok {A} a b (l : list A) :
  0 <= a -> a <= b -> b <= zlen l -> slice l a b = Ok (ztake (b - a) (zdrop a l)).
Proof.
  intros. unfold slice.
  by rewrite !(proj2 (Z.leb_le _ _)) by lia.
Qed.

Lemma slice_from_ok {A} a (l : list A) :
  0 <= a <= zlen l -> slice_from l a = Ok (zdrop a l).
Proof.
  intros. unfold slice_from. rewrite slice_ok by lia.
  rewrite ztake_all; [done|]. zl.
Qed.

Lemma index_ok {A} (l : list A) i :
  0 <= i < zlen l -> exists x, index l i = Ok x /\ l !! Z.to_nat i = Some x.
Proof.
  intros Hi. unfold index. rewrite (proj2 (Z.ltb_ge _ _)) by lia.
  destruct (lookup_lt_is_Some_2 l (Z.to_nat i)) as [x Hx]; [unfold zlen in Hi; lia|].
  rewrite Hx. eauto.
Qed.

Lemma index_app_r {A} (l k : list A) i :
  zlen l <= i -> index (l ++ k) i = index k (i - zlen l).
Proof.
  intros Hi. pose proof (zlen_nonneg l). unfold index.
  rewrite !(proj2 (Z.ltb_ge _ _)) by lia.
  rewrite lookup_app_r by (unfold zlen in *; lia).
  by replace (Z.to_nat i - length l)%nat with (Z.to_nat (i - zlen l)) by (unfold zlen; lia).
Qed.

Lemma index_app_l {A} (l k : list A) i :
  i < zlen l -> index (l ++ k) i = index l i.
Proof.
  intros Hi. unfold index. destruct (i <? 0) eqn:E; [done|].
  apply Z.ltb_ge in E. rewrite lookup_app_l by (unfold zlen in *; lia). done.
Qed.

Lemma index_cons_0 {A} (x : A) l : index (x :: l) 0 = Ok x.
Proof. done. Qed.

Lemma index_cons {A} (x : A) l i : 0 < i -> index (x :: l) i = index l (i - 1).
Proof.
  intros Hi. change (x :: l) with ([x] ++ l).
  rewrite index_app_r by (unfold zlen; simpl; lia). done.
Qed.

Lemma copy_into_app {A} a b (pre src rest : list A) :
  zlen pre = a -> zlen src = b - a -> b - a <= zlen rest ->
  copy_into (pre ++ rest) a b src = Ok (pre ++ src ++ zdrop (b - a) rest).
Proof.
  intros Ha Hs Hr. unfold copy_into.
  replace (_ && _ && _ && _) with true; last first.
  { symmetry. rewrite !andb_true_iff, !Z.leb_le, Z.eqb_eq. zl. }
  rewrite ztake_app by done. do 3 f_equal.
  replace b with (a + (b - a)) at 1 by lia.
  rewrite <- zdrop_zdrop by zl. by rewrite zdrop_app.
Qed.

(** Filling a zeroed buffer from the front. *)
Lemma copy_into_zeros a b m (pre src : bytes) :
  zlen pre = a -> zlen src = b - a -> b - a <= m ->
  copy_into (pre ++ zreplicate m 0) a b src = Ok ((pre ++ src) ++ zreplicate (m - (b - a)) 0).
Proof.
  intros Hp Hs Hm. rewrite copy_into_app by zl.
  rewrite zdrop_zreplicate by zl. by rewrite app_assoc.
Qed.

Lemma store_zeros i m (pre : bytes) x :
  zlen pre = i -> 1 <= m ->
  store (pre ++ zreplicate m 0) i x = Ok ((pre ++ [x]) ++ zreplicate (m - 1) 0).
Proof.
  intros Hp Hm. unfold store. rewrite copy_into_zeros by zl.
  by replace (i + 1 - i) with 1 by lia.
Qed.

Lemma resize_nil (n x : Z) : resize [] n x = zreplicate n x.
Proof. unfold resize, ztake. rewrite take_nil. by rewrite zlen_nil, Z.sub_0_r. Qed.

(** Replacing the zeroed tail of a buffer. *)
Lemma copy_into_tail a m (pre src : bytes) :
  zlen pre = a -> zlen src = m ->
  copy_into (pre ++ zreplicate m 0) a (a + m) src = Ok (pre ++ src).
Proof.
  intros Hp Hs. rewrite copy_into_zeros by zl.
  replace (m - (a + m - a)) with 0 by lia. by rewrite app_nil_r.
Qed.

Lemma store_app {A} i (pre : list A) x y rest :
  zlen pre = i -> store (pre ++ y :: rest) i x = Ok (pre ++ x :: rest).
Proof.
  intros Hi. unfold store. rewrite copy_into_app; [|done|zl|zl].
  by replace (i + 1 - i) with 1 by lia.
Qed.

Lemma store_insert {A} (l : list A) i x : 0 <= i < zlen l -> store l i x = Ok (<[Z.to_nat i := x]> l).
Proof.
  intros Hi. destruct (lookup_lt_is_Some_2 l (Z.to_nat i)) as [y Hy]; [unfold zlen in Hi; lia|].
  rewrite <- (take_drop_middle l (Z.to_nat i) y Hy) at 1.
  rewrite (store_app i); [|unfold zlen in *; rewrite length_take; lia].
  by rewrite insert_take_drop by (unfold zlen in Hi; lia).
Qed.

Lemma copy_within_front_ok {A} a b (l : list A) :
  0 <= a -> a <= b -> b <= zlen l ->
  copy_within_front l a b = Ok (ztake (b - a) (zdrop a l) ++ zdrop (b - a) l).
Proof.
  intros. unfold copy_within_front. rewrite slice_ok by done. simpl.
  pose proof (copy_into_app 0 (b - a) [] (ztake (b - a) (zdrop a l)) l) as E.
  rewrite Z.sub_0_r in E. apply E; [done|zl|zl].
Qed.

Lemma wipe_truncate_ok (l : bytes) n :
  0 <= n <= zlen l -> wipe_truncate l n = Ok (ztake n l).
Proof.
  intros Hn. unfold wipe_truncate. rewrite slice_from_ok by done. simpl.
  unfold copy_into.
  replace (_ && _ && _ && _) with true; last first.
  { symmetry. rewrite !andb_true_iff, !Z.leb_le, Z.eqb_eq. zl. }
  simpl. by rewrite ztake_app by zl.
Qed.

(** Moving a payload to the front and truncating keeps exactly the payload. *)
Lemma copy_within_front_wipe a b (l : bytes) :
  0 <= a -> a <= b -> b <= zlen l ->
  rbind (copy_within_front l a b) (fun d => wipe_truncate d (b - a))
  = Ok (ztake (b - a) (zdrop a l)).
Proof.
  intros. rewrite copy_within_front_ok by done. simpl.
  rewrite wipe_truncate_ok by zl. by rewrite ztake_app by zl.
Qed.

Lemma rbind_ok {A B} (m : result A) (k : A -> result B) b :
  rbind m k = Ok b <-> exists a, m = Ok a /\ k a = Ok b.
Proof. destruct m; simpl; naive_solver. Qed.

Lemma rbind_no_panic {A B} (m : result A) (k : A -> result B) :
  no_panic m -> (forall a, m = Ok a -> no_panic (k a)) -> no_panic (rbind m k).
Proof. unfold no_panic. destruct m; simpl; eauto; congruence. Qed.

Lemma ok_or_ok {A} (o : option A) e a : ok_or o e = Ok a <-> o = Some a.
Proof. destruct o; simpl; naive_solver. Qed.

Lemma ok_or_no_panic {A} (o : option A) e : no_panic (ok_or o e).
Proof. by destruct o. Qed.

Lemma run_cons {A B S} (f : A -> S -> result B * S) a l s :
  run f (a :: l) s
  = ((f a s).1 :: (run f l (f a s).2).1, (run f l (f a s).2).2).
Proof. simpl. destruct (f a s) as [r s1]. simpl. by destruct (run f l s1). Qed.

Lemma oks_cons_ok {A} (a : A) rs : oks (Ok a :: rs) = a :: oks rs.
Proof. done. Qed.

Lemma oks_cons_err {A} e (rs : list (result A)) : oks (Err e :: rs) = oks rs.
Proof. done. Qed.

Lemma sent_cons {A B} (m : A) ms (r : result B) rs :
  sent (m :: ms) (r :: rs) = (if is_ok r then [m] else []) ++ sent ms rs.
Proof. done. Qed.

Lemma oks_map {A} (l : list A) : oks (map Ok l) = l.
Proof. induction l; [done|]. simpl map. by rewrite oks_cons_ok, IHl. Qed.

Lemma oks_app {A} (l k : list (result A)) : oks (l ++ k) = oks l ++ oks k.
Proof. apply flat_map_app. Qed.

Lemma run_app_fst {A B S} (f : A -> S -> result B * S) l k s :
  (run f (l ++ k) s).1 = (run f l s).1 ++ (run f k (run f l s).2).1.
Proof.
  revert s. induction l as [|a l IH]; intros s; [done|]. cbn [app]. rewrite !run_cons.
  cbn [fst snd]. by rewrite IH.
Qed.

Lemma run_app_snd {A B S} (f : A -> S -> result B * S) l k s :
  (run f (l ++ k) s).2 = (run f k (run f l s).2).2.
Proof.
  revert s. induction l as [|a l IH]; intros s; [done|]. cbn [app]. rewrite !run_cons.
  cbn [fst snd]. by rewrite IH.
Qed.

(** Two step functions related step by step have the same outcomes. *)
Lemma run_refines {A B S T} (P : A -> Prop) (R : S -> T -> Prop)
    (f : A -> S -> result B * S) (g : A -> T -> result B * T) :
  (forall a s t, P a -> R s t -> (f a s).1 = (g a t).1 /\ R (f a s).2 (g a t).2) ->
  forall l s t, Forall P l -> R s t ->
  (run f l s).1 = (run g l t).1 /\ R (run f l s).2 (run g l t).2.
Proof.
  intros Hstep l. induction l as [|a l IH]; intros s t HP HR; simpl; [done|].
  apply Forall_cons in HP as [Ha HP]. destruct (Hstep a s t Ha HR) as [H1 H2].
  destruct (f a s) as [r s1], (g a t) as [r' t1]. simpl in *.
  destruct (IH s1 t1 HP H2) as [H3 H4].
  destruct (run f l s1), (run g l t1). simpl in *. by subst.
Qed.

(** An invariant of each call is an invariant of a sequence of calls. *)
Lemma run_invariant {A B S} (P : A -> Prop) (I : S -> Prop) (Q : result B -> Prop)
    (f : A -> S -> result B * S) :
  (forall a s, P a -> I s -> Q (f a s).1 /\ I (f a s).2) ->
  forall l s, Forall P l -> I s -> Forall Q (run f l s).1 /\ I (run f l s).2.
Proof.
  intros Hstep l. induction l as [|a l IH]; intros s HP HI; simpl; [done|].
  apply Forall_cons in HP as [Ha HP]. destruct (Hstep a s Ha HI) as [H1 H2].
  destruct (f a s) as [r s1]. simpl in *. destruct (IH s1 HP H2) as [H3 H4].
  destruct (run f l s1). simpl in *. auto.
Qed.

(** ** Tactics *)

(** Case split on the conditions of [if]s and on the outcome of binds in the
    hypotheses and the goal, discarding the impossible branches. *)
Ltac case_if :=
  match goal with
  | H : context [if ?b then _ else _] |- _ => destruct b eqn:?; try discriminate H
  | |- context [if ?b then _ else _] => destruct b eqn:?
  end.

(** Turn boolean comparisons among the hypotheses into propositions. *)
Ltac bool_prop :=
  repeat match goal with
  | H : _ && _ = true |- _ => apply andb_true_iff in H as [? ?]
  | H : _ || _ = false |- _ => apply orb_false_iff in H as [? ?]
  | H : negb _ = true |- _ => apply negb_true_iff in H
  | H : negb _ = false |- _ => apply negb_false_iff in H
  | H : (_ <=? _) = true |- _ => apply Z.leb_le in H
  | H : (_ <=? _) = false |- _ => apply Z.leb_gt in H
  | H : (_ <? _) = true |- _ => apply Z.ltb_lt in H
  | H : (_ <? _) = false |- _ => apply Z.ltb_ge in H
  | H : (_ =? _) = true |- _ => apply Z.eqb_eq in H
  | H : (_ =? _) = false |- _ => apply Z.eqb_neq in H
  | H : bool_decide _ = true |- _ => apply bool_decide_eq_true in H
  | H : bool_decide _ = false |- _ => apply bool_decide_eq_false in H
  | H : bytes_eqb _ _ = true |- _ => apply bytes_eqb_eq in H
  end.

(** Invert [let?] chains that ended in [Ok]. *)
Ltac inv_ok :=
  repeat match goal with
  | H : rbind _ _ = Ok _ |- _ => apply rbind_ok in H as (? & ? & H)
  | H : Ok _ = Ok _ |- _ => injection H as H; subst
  | H : Err _ = Ok _ |- _ => discriminate H
  | H : Panic = Ok _ |- _ => discriminate H
  | H : ok_or _ _ = Ok _ |- _ => apply ok_or_ok in H
  end.

(** Read the elements of a literal prefix: [index [a; b; ...] k] with literal
    [k]. *)
Ltac idx :=
  cbn [app];
  repeat match goal with
    | |- context [index ?l ?k] =>
        let E := fresh in
        eassert (E : index l k = Ok _) by reflexivity; rewrite E; clear E; cbn [rbind sbind]
    end.

(** As [idx], in a hypothesis. *)
Ltac idx_in H := revert H; idx; intros H.

(** [guards H]: pass the guards of a call that returned [Ok], keeping their
    conditions as hypotheses. *)
Ltac pass_guard H :=
  match type of H with
  | (if ?b then Err _ else _) = Ok _ => destruct b eqn:?; [discriminate H|]
  | (if ?b then _ else Err _) = Ok _ => destruct b eqn:?; [|discriminate H]
  | rbind (ok_or ?o _) _ = Ok _ =>
      destruct o eqn:?; [cbn [ok_or rbind] in H|discriminate H]
  | rbind (Ok _) _ = Ok _ => cbn [rbind] in H
  | rbind ?m _ = Ok _ => destruct m eqn:?; cbn [rbind] in H; try discriminate H
  end.
Ltac guards H := repeat (pass_guard H); bool_prop.

(** Walk a computation that cannot panic; leaves the calls that have no lemma
    in [panics]. *)
Create HintDb panics.
#[export] Hint Resolve ok_or_no_panic : panics.
Ltac walk :=
  repeat first
    [ discriminate | solve [auto with panics]
    | apply rbind_no_panic; [|intros ? ?]
    | match goal with
      | |- no_panic (if ?b then _ else _) => destruct b eqn:?
      | |- no_panic (match ?x with _ => _ end) => destruct x eqn:?
      end ].

Lemma try_bind_ok {E B} (m : E + unit) (k : unit -> E + B) r : try_bind m k = inr r <-> m = inr () /\ k () = inr r.
Proof. destruct m as [|[]]; cbn; naive_solver. Qed.

Lemma try_bind_some {E A B} (m : E + A) (k : A -> E + B) r : try_bind m k = inr r <-> exists a, m = inr a /\ k a = inr r.
Proof. destruct m; cbn; naive_solver. Qed.

Lemma check_or_ok {E} ok (e : E) : check_or ok e = inr () <-> ok = true.
Proof. by destruct ok. Qed.

Lemma some_or_ok {E A} (o : option A) (e : E) a : some_or o e = inr a <-> o = Some a.
Proof. destruct o; cbn; naive_solver. Qed.

Lemma sbind_no_panic {A B S} (m : result A * S) (k : A -> S -> result B * S) :
  no_panic m.1 -> (forall a s, no_panic (k a s).1) -> no_panic (sbind m k).1.
Proof. intros Hm Hk. destruct m as [[a|e|] s]; [apply Hk|done|by destruct Hm]. Qed.
