(* ===== verification/Text.v ===== *)
(** Rust string operations on UTF-8 strings, as [string]s of bytes:
    [str::trim], [to_ascii_lowercase], hexadecimal printing and the formatting
    of numbers in messages. *)
From S2P Require Import Prelude Error.

(** ** Bytes of a string *)

Definition bytes_str (l : bytes) : string :=
  String.string_of_list_ascii (map (fun b => Ascii.ascii_of_N (Z.to_N b)) l).

Lemma bytes_str_bytes s : bytes_str (str_bytes s) = s.
Proof.
  unfold bytes_str, str_bytes. rewrite map_map.
  rewrite <- (String.string_of_list_ascii_of_string s) at 2. f_equal.
  induction (String.list_ascii_of_string s) as [|c l IH]; [done|].
  simpl. by rewrite N2Z.id, Ascii.ascii_N_embedding, IH.
Qed.

Lemma str_bytes_ok s : bytes_ok (str_bytes s).
Proof.
  unfold str_bytes. induction (String.list_ascii_of_string s) as [|c l IH]; constructor; [|done].
  red. pose proof (Ascii.N_ascii_bounded c). lia.
Qed.

Lemma str_bytes_str l : bytes_ok l -> str_bytes (bytes_str l) = l.
Proof.
  unfold str_bytes, bytes_str. rewrite String.list_ascii_of_string_of_list_ascii, map_map.
  induction 1 as [|b l Hb Hl IH]; [done|]. simpl. rewrite IH. f_equal.
  unfold is_byte in Hb. rewrite Ascii.N_ascii_embedding by lia. lia.
Qed.

Lemma str_bytes_inj s t : str_bytes s = str_bytes t -> s = t.
Proof. intros H. by rewrite <- (bytes_str_bytes s), H, bytes_str_bytes. Qed.

Lemma str_bytes_app s t : str_bytes (s +:+ t) = str_bytes s ++ str_bytes t.
Proof. unfold str_bytes. induction s as [|c s IH]; [done|]. change (String c s +:+ t) with (String c (s +:+ t)). cbn [String.list_ascii_of_string map app]. f_equal. exact IH. Qed.

(** ** [str::trim] *)

(** The UTF-8 encodings of the characters with property White_Space. *)
Definition white_space : list bytes :=
  [[9]; [10]; [11]; [12]; [13]; [32]; [194; 133]; [194; 160]; [225; 154; 128]]
  ++ map (fun b => [226; 128; b]) (map Z.of_nat (seq 128 11) ++ [168; 169; 175])
  ++ [[226; 129; 159]; [227; 128; 128]].

Fixpoint strip_prefix (p l : bytes) : option bytes :=
  match p, l with
  | [], _ => Some l
  | a :: p', b :: l' => if a =? b then strip_prefix p' l' else None
  | _ :: _, [] => None
  end.

Fixpoint strip_any (ps : list bytes) (l : bytes) : option bytes :=
  match ps with
  | [] => None
  | p :: ps' => match strip_prefix p l with Some r => Some r | None => strip_any ps' l end
  end.

(** Each round removes at least a byte, so the length is enough fuel. *)
Fixpoint trim_start (ps : list bytes) (fuel : nat) (l : bytes) : bytes :=
  match fuel with
  | O => l
  | S fuel' => match strip_any ps l with Some r => trim_start ps fuel' r | None => l end
  end.

Definition trim_bytes (l : bytes) : bytes :=
  let l := trim_start white_space (length l) l in
  rev (trim_start (map (@rev Z) white_space) (length l) (rev l)).

Definition trim (s : string) : string := bytes_str (trim_bytes (str_bytes s)).

(** ** Classes of characters *)

(** [value.chars().any(char::is_control)] on UTF-8: U+0000 to U+001F and U+007F
    to U+009F. *)
Fixpoint has_control (l : bytes) : bool :=
  match l with
  | [] => false
  | b :: l' =>
      (b <? 32) || (b =? 127)
      || ((b =? 194) && match l' with c :: _ => in_range 128 159 c | [] => false end)
      || has_control l'
  end.

(** [value.chars().any(char::is_whitespace)]: in UTF-8 the encoding of a
    character occurs only where the character does. *)
Fixpoint has_white_space (l : bytes) : bool :=
  match l with
  | [] => false
  | _ :: l' => match strip_any white_space l with Some _ => true | None => has_white_space l' end
  end.

(** ** [to_ascii_lowercase], [to_lowercase] on ASCII *)

Definition ascii_lower (b : Z) : Z := if in_range 65 90 b then b + 32 else b.
Definition to_ascii_lowercase (s : string) : string :=
  bytes_str (map ascii_lower (str_bytes s)).

(** [s.eq_ignore_ascii_case(t)] *)
Definition eq_ignore_ascii_case (s t : string) : bool :=
  bool_decide (to_ascii_lowercase s = to_ascii_lowercase t).

(** ** Hexadecimal *)

Definition hex_digit (d : Z) : Z := if d <? 10 then 48 + d else 87 + d.

(** [format!("{b:02x}")] over a byte string, and [hex::encode]. *)
Definition hex_encode (l : bytes) : string :=
  bytes_str (flat_map (fun b => [hex_digit (b / 16); hex_digit (b mod 16)]) l).

(** [char::to_digit(16)] *)
Definition hex_value (c : Z) : option Z :=
  if in_range 48 57 c then Some (c - 48)
  else if in_range 97 102 c then Some (c - 87)
  else if in_range 65 70 c then Some (c - 55)
  else None.

(** [format!("{n}")] of an integer. *)
Definition show (n : Z) : string := pretty n.

Definition show_bool (b : bool) : string := if b then "true" else "false".

(** ** [std::str::from_utf8]

    Well-formed byte sequences of the Unicode standard (table 3-7). *)

Definition utf8_cont (b : Z) : bool := in_range 128 191 b.

Fixpoint utf8_valid (l : bytes) : bool :=
  match l with
  | [] => true
  | a :: l =>
      if a <? 128 then utf8_valid l
      else
        match l with
        | [] => false
        | b :: l =>
            if in_range 194 223 a then utf8_cont b && utf8_valid l
            else
              match l with
              | [] => false
              | c :: l =>
                  if in_range 224 239 a then
                    (if a =? 224 then in_range 160 191 b
                     else if a =? 237 then in_range 128 159 b else utf8_cont b)
                    && utf8_cont c && utf8_valid l
                  else
                    match l with
                    | [] => false
                    | d :: l =>
                        in_range 240 244 a
                        && (if a =? 240 then in_range 144 191 b
                            else if a =? 244 then in_range 128 143 b else utf8_cont b)
                        && utf8_cont c && utf8_cont d && utf8_valid l
                    end
              end
        end
  end.

Lemma utf8_ascii l : Forall (fun b => b < 128) l -> utf8_valid l = true.
Proof. induction 1 as [|b l Hb Hl IH]; [done|]. cbn [utf8_valid]. by rewrite (proj2 (Z.ltb_lt _ _)). Qed.

(** ** Lemmas: hexadecimal *)

Lemma hex_digit_value x : 0 <= x < 16 -> hex_value (hex_digit x) = Some x /\ hex_digit x <> 43 /\ hex_digit x < 127.
Proof.
  intros Hx. assert (In x (map Z.of_nat (seq 0 16))) as Hin.
  { apply in_map_iff. exists (Z.to_nat x). split; [lia|]. apply in_seq. lia. }
  assert (forallb (fun x => bool_decide (hex_value (hex_digit x) = Some x) && negb (hex_digit x =? 43) && (hex_digit x <? 127))
    (map Z.of_nat (seq 0 16)) = true) as E by (vm_compute; reflexivity).
  rewrite forallb_forall in E. specialize (E x Hin). bool_prop. done.
Qed.

Definition hex_pair (b : Z) : bytes := [hex_digit (b / 16); hex_digit (b mod 16)].

Lemma hex_digits b : is_byte b -> 0 <= b / 16 < 16 /\ 0 <= b mod 16 < 16 /\ b = 16 * (b / 16) + b mod 16.
Proof.
  intros [H0 H1]. split; [split; [apply Z.div_pos; lia|apply Z.div_lt_upper_bound; lia]|].
  split; [by apply Z.mod_pos_bound|by apply Z.div_mod].
Qed.

Lemma hex_digit_nonneg d v : hex_value d = Some v -> 48 <= d.
Proof.
  unfold hex_value, in_range.
  repeat match goal with |- context [if ?b then _ else _] => destruct b eqn:? end; try done; intros _;
    rewrite ?andb_true_iff, ?Z.leb_le in *; lia.
Qed.

Lemma zlen_hex_pairs l : zlen (flat_map hex_pair l) = 2 * zlen l.
Proof.
  induction l as [|x l IH]; [done|]. cbn [flat_map]. rewrite zlen_app, IH, zlen_cons.
  change (zlen (hex_pair x)) with 2. lia.
Qed.

(** The text of a byte string has printable ASCII bytes only. *)
Lemma hex_pairs_ascii l : bytes_ok l -> Forall (fun c => 48 <= c < 127) (flat_map hex_pair l).
Proof.
  induction 1 as [|b l Hb Hl IH]; [constructor|]. cbn [flat_map].
  destruct (hex_digits b Hb) as (Hq & Hr & _).
  destruct (hex_digit_value _ Hq) as (V1 & _ & A1), (hex_digit_value _ Hr) as (V2 & _ & A2).
  apply hex_digit_nonneg in V1, V2. apply Forall_app. split; [|done].
  constructor; [lia|]. constructor; [lia|constructor].
Qed.

Lemma hex_pairs_bytes l : bytes_ok l -> bytes_ok (flat_map hex_pair l).
Proof. intros Hl. eapply Forall_impl; [by apply hex_pairs_ascii|]. unfold is_byte. cbn. lia. Qed.

Lemma hex_encode_bytes l : bytes_ok l -> str_bytes (hex_encode l) = flat_map hex_pair l.
Proof. intros Hl. unfold hex_encode. fold hex_pair. apply str_bytes_str. by apply hex_pairs_bytes. Qed.

(** [hex::decode] of an even number of digits. *)
Fixpoint unhex (l : bytes) : option bytes :=
  match l with
  | [] => Some []
  | a :: b :: l =>
      match hex_value a, hex_value b, unhex l with
      | Some x, Some y, Some r => Some (16 * x + y :: r)
      | _, _, _ => None
      end
  | [_] => None
  end.

Lemma unhex_pairs l : bytes_ok l -> unhex (flat_map hex_pair l) = Some l.
Proof.
  induction 1 as [|b l Hb Hl IH]; [done|]. cbn [flat_map hex_pair app unhex].
  destruct (hex_digits b Hb) as (Hq & Hr & Eb).
  rewrite (proj1 (hex_digit_value _ Hq)), (proj1 (hex_digit_value _ Hr)), IH. by rewrite <- Eb.
Qed.

(** A number is printed as at least one digit, and numbers are printed apart. *)
Definition digit (b : Z) : Prop := 48 <= b <= 57.

Lemma pretty_digit x : (x < 10)%N -> digit (Z.of_N (Ascii.N_of_ascii (pretty_N_char x))).
Proof.
  intros Hx. assert (x = 0 \/ x = 1 \/ x = 2 \/ x = 3 \/ x = 4 \/ x = 5 \/ x = 6 \/ x = 7 \/ x = 8 \/ x = 9)%N as Hc by lia.
  unfold digit. repeat destruct Hc as [->|Hc]; [by vm_compute; split..|]. by subst x; vm_compute; split.
Qed.

Lemma pretty_go_digits x : forall s, Forall digit (str_bytes s) -> Forall digit (str_bytes (pretty_N_go x s)) /\
  ((0 < x)%N \/ s <> ""%string -> pretty_N_go x s <> ""%string).
Proof.
  induction x as [x IH] using (well_founded_induction N.lt_wf_0). intros s Hs.
  assert (x = 0 \/ 0 < x)%N as [->|Hx] by lia.
  { rewrite pretty_N_go_0. split; [done|]. intros [?|?]; [lia|done]. }
  rewrite pretty_N_go_step by done. pose proof (N.div_lt x 10 Hx eq_refl) as Hd. pose proof (N.mod_lt x 10 ltac:(lia)) as Hm.
  destruct (IH _ Hd (String (pretty_N_char (x mod 10)) s)) as [H1 H2].
  - change (str_bytes (String ?c ?s)) with (Z.of_N (Ascii.N_of_ascii c) :: str_bytes s). constructor; [by apply pretty_digit|done].
  - split; [done|]. intros _. apply H2. by right.
Qed.

Lemma show_digits n : 0 <= n -> Forall digit (str_bytes (show n)) /\ str_bytes (show n) <> [].
Proof.
  assert (forall s, s <> ""%string -> str_bytes s <> []) as Hne by (intros [|c s]; done).
  intros Hn. destruct n as [|p|p]; [| |lia].
  - change (str_bytes (show 0)) with [48]. split; [|done]. apply Forall_cons; split; [by split|by apply Forall_nil].
  - change (show (Z.pos p)) with (pretty_N_go (N.pos p) ""). destruct (pretty_go_digits (N.pos p) "") as [H1 H2]; [constructor|].
    split; [done|]. apply Hne, H2. left. lia.
Qed.

Lemma pretty_go_len k x s : (x < 10 ^ N.of_nat k)%N -> zlen (str_bytes (pretty_N_go x s)) <= Z.of_nat k + zlen (str_bytes s).
Proof.
  revert x s. induction k as [|k IH]; intros x s Hx; [assert (x = 0)%N as -> by (cbn in Hx; lia)|assert (x = 0 \/ 0 < x)%N as [->|Hp] by lia];
    [rewrite pretty_N_go_0; lia..|].
  rewrite pretty_N_go_step by done. etrans; [apply IH|].
  - apply N.Div0.div_lt_upper_bound. rewrite Nat2N.inj_succ, N.pow_succ_r' in Hx. lia.
  - change (str_bytes (String ?c ?s)) with (Z.of_N (Ascii.N_of_ascii c) :: str_bytes s). rewrite zlen_cons. lia.
Qed.

Lemma show_u64_len n : 0 <= n <= u64_max -> zlen (str_bytes (show n)) <= 20.
Proof.
  unfold u64_max. intros Hn. destruct n as [|p|p]; [by vm_compute| |lia]. change (show (Z.pos p)) with (pretty_N_go (N.pos p) "").
  pose proof (pretty_go_len 20 (N.pos p) "") as Hl. change (str_bytes "") with (@nil Z) in Hl. rewrite zlen_nil in Hl.
  change (10 ^ N.of_nat 20)%N with 100000000000000000000%N in Hl. lia.
Qed.

Lemma show_inj a b : show a = show b -> a = b.
Proof. apply (inj (pretty : Z -> string)). Qed.

(** Splitting at the first character outside of two prefixes. *)
Lemma split_at_first {A} (x : A) a a' b b' : x ∉ a -> x ∉ a' -> a ++ x :: b = a' ++ x :: b' -> a = a' /\ b = b'.
Proof.
  revert a'. induction a as [|y a IH]; intros [|y' a'] Ha Ha' E; cbn in E; [by injection E|..].
  - injection E as -> _. by destruct Ha'; left.
  - injection E as -> _. by destruct Ha; left.
  - injection E as -> E. destruct (IH a') as [-> ->]; [by intros ?; apply Ha; right|by intros ?; apply Ha'; right|done|done].
Qed.
