(* ===== verification/Net.v ===== *)
(** Names and addresses of peers: integers and IP addresses as the standard
    library parses them, and [Endpoint] (shph-core/src/net.rs). *)
From S2P Require Import Prelude Error Text.

(** ** Integers *)

(** [char::to_digit] *)
Definition to_digit (radix : Z) (c : Z) : option Z :=
  match hex_value c with Some d => if d <? radix then Some d else None | None => None end.

Definition invalid_digit : string := "invalid digit found in string".
Definition pos_overflow : string := "number too large to fit in target type".

(** An invalid digit is reported before the overflow it would cause. *)
Fixpoint parse_digits (radix max : Z) (digits : bytes) (acc : Z) : string + Z :=
  match digits with
  | [] => inr acc
  | c :: digits =>
      match to_digit radix c, checked_mul max acc radix with
      | None, _ => inl invalid_digit
      | Some _, None => inl pos_overflow
      | Some d, Some acc =>
          match checked_add max acc d with
          | Some acc => parse_digits radix max digits acc
          | None => inl pos_overflow
          end
      end
  end.

(** [from_str_radix] of an unsigned type up to [max]: a leading plus sign is
    skipped. *)
Definition parse_int (radix max : Z) (src : bytes) : string + Z :=
  match src with
  | [] => inl "cannot parse integer from empty string"
  | [43] | [45] => inl invalid_digit
  | 43 :: digits => parse_digits radix max digits 0
  | _ => parse_digits radix max src 0
  end.

(** ** IP addresses ([std::net::parser]) *)

Inductive IpAddr := IpV4 (octets : bytes) | IpV6 (octets : bytes).
Record SocketAddr := mkSocketAddr { ip : IpAddr; port : Z }.

#[export] Instance IpAddr_eq_dec : EqDecision IpAddr.
Proof. solve_decision. Defined.

(** A parser: the value and what is left, or a failure that consumes nothing. *)
Definition Parser (A : Type) : Type := bytes -> option (A * bytes).

Definition read_given_char (c : Z) (l : bytes) : option bytes :=
  match l with b :: l => if b =? c then Some l else None | [] => None end.

(** [read_separator] *)
Definition read_separator {A} (sep : Z) (index : nat) (inner : Parser A) : Parser A := fun l =>
  match index with
  | O => inner l
  | S _ => match read_given_char sep l with Some l => inner l | None => None end
  end.

(** The digits of [read_number]: their value and count. *)
Fixpoint read_digits (radix : Z) (l : bytes) (result count : Z) : Z * Z * bytes :=
  match l with
  | c :: l' =>
      match to_digit radix c with
      | Some d => read_digits radix l' (result * radix + d) (count + 1)
      | None => (result, count, l)
      end
  | [] => (result, count, l)
  end.

(** [read_number(radix, Some(max_digits), allow_zero_prefix)] up to [max]. *)
Definition read_number (radix max_digits : Z) (allow_zero_prefix : bool) (max : Z) : Parser Z := fun l =>
  let '(result, count, rest) := read_digits radix l 0 0 in
  let has_leading_zero := match l with c :: _ => c =? 48 | [] => false end in
  if (max_digits <? count) || (count =? 0) || (negb allow_zero_prefix && has_leading_zero && (1 <? count)) || (max <? result)
  then None else Some (result, rest).

Fixpoint read_octets (n index : nat) : Parser bytes := fun l =>
  match n with
  | O => Some ([], l)
  | S n =>
      match read_separator 46 index (read_number 10 3 false u8_max) l with
      | Some (octet, l) => match read_octets n (S index) l with Some (rest, l) => Some (octet :: rest, l) | None => None end
      | None => None
      end
  end.

Definition read_ipv4_addr : Parser bytes := read_octets 4 0.

(** [read_groups] with [n] slots left of [limit]: the groups, whether an
    embedded IPv4 address ended them, and the rest. *)
Fixpoint read_groups (n index : nat) (l : bytes) : list Z * bool * bytes :=
  match n with
  | O => ([], false, l)
  | S n' =>
      match (if (1 <? Z.of_nat n) then read_separator 58 index read_ipv4_addr l else None) with
      | Some (octets, l) => ([be_val (ztake 2 octets); be_val (zdrop 2 octets)], true, l)
      | None =>
          match read_separator 58 index (read_number 16 4 true u16_max) l with
          | Some (group, l) => let '(rest, v4, l) := read_groups n' (S index) l in (group :: rest, v4, l)
          | None => ([], false, l)
          end
      end
  end.

Definition read_ipv6_addr : Parser bytes := fun l =>
  let '(head, head_ipv4, l) := read_groups 8 0 l in
  if zlen head =? 8 then Some (flat_map (be_bytes 2) head, l)
  else if head_ipv4 then None
  else
    match read_given_char 58 l with
    | Some l =>
        match read_given_char 58 l with
        | Some l =>
            let '(tail, _, l) := read_groups (8 - (length head + 1)) 0 l in
            Some (flat_map (be_bytes 2) (head ++ zreplicate (8 - zlen head - zlen tail) 0 ++ tail), l)
        | None => None
        end
    | None => None
    end.

(** [str::parse::<IpAddr>]: nothing may be left. *)
Definition parse_ip (s : string) : option IpAddr :=
  match read_ipv4_addr (str_bytes s) with
  | Some (octets, rest) => if bool_decide (rest = []) then Some (IpV4 octets) else None
  | None =>
      match read_ipv6_addr (str_bytes s) with
      | Some (octets, rest) => if bool_decide (rest = []) then Some (IpV6 octets) else None
      | None => None
      end
  end.

Definition is_ip (s : string) : bool := bool_decide (is_Some (parse_ip s)).

Definition is_loopback (a : IpAddr) : bool :=
  match a with
  | IpV4 octets => match octets with o :: _ => o =? 127 | [] => false end
  | IpV6 octets => bool_decide (octets = zreplicate 15 0 ++ [1])
  end.

Example parse_ip_examples :
  map parse_ip ["192.0.2.1"; "1.2.3.256"; "01.2.3.4"; "1.2.3.4."; "::"; "2001:db8::1"; "::ffff:1.2.3.4"; "1:2:3:4:5:6:7:8"; "1::2::3"; "1:2:3:4:5:6:7::"; ""]
  = [Some (IpV4 [192; 0; 2; 1]); None; None; None; Some (IpV6 (zreplicate 16 0));
     Some (IpV6 ([32; 1; 13; 184] ++ zreplicate 11 0 ++ [1])); Some (IpV6 (zreplicate 10 0 ++ [255; 255; 1; 2; 3; 4]));
     Some (IpV6 [0; 1; 0; 2; 0; 3; 0; 4; 0; 5; 0; 6; 0; 7; 0; 8]); None;
     Some (IpV6 [0; 1; 0; 2; 0; 3; 0; 4; 0; 5; 0; 6; 0; 7; 0; 0]); None].
Proof. vm_compute. reflexivity. Qed.

(** [str::parse::<SocketAddr>]; the scope id of an IPv6 address is read and
    dropped. *)
Definition read_port : Parser Z := fun l =>
  match read_given_char 58 l with Some l => read_number 10 usize_max true u16_max l | None => None end.

Definition read_scope_id (l : bytes) : bytes :=
  match read_given_char 37 l with
  | Some l' => match read_number 10 usize_max true u32_max l' with Some (_, l') => l' | None => l end
  | None => l
  end.

Definition read_socket_addr_v4 : Parser SocketAddr := fun l =>
  match read_ipv4_addr l with
  | Some (octets, l) => match read_port l with Some (p, l) => Some (mkSocketAddr (IpV4 octets) p, l) | None => None end
  | None => None
  end.

Definition read_socket_addr_v6 : Parser SocketAddr := fun l =>
  match read_given_char 91 l with
  | Some l =>
      match read_ipv6_addr l with
      | Some (octets, l) =>
          match read_given_char 93 (read_scope_id l) with
          | Some l => match read_port l with Some (p, l) => Some (mkSocketAddr (IpV6 octets) p, l) | None => None end
          | None => None
          end
      | None => None
      end
  | None => None
  end.

Definition parse_socket_addr (s : string) : option SocketAddr :=
  match (match read_socket_addr_v4 (str_bytes s) with Some r => Some r | None => read_socket_addr_v6 (str_bytes s) end) with
  | Some (addr, rest) => if bool_decide (rest = []) then Some addr else None
  | None => None
  end.

(** ** Endpoints *)

(** [str::split_once] of a two-byte pattern, and [str::rsplit_once] of a byte. *)
Fixpoint split_pair (a b : Z) (l : bytes) : option (bytes * bytes) :=
  match l with
  | [] => None
  | x :: l' =>
      match l' with
      | y :: l'' =>
          if (x =? a) && (y =? b) then Some ([], l'')
          else match split_pair a b l' with Some (p, r) => Some (x :: p, r) | None => None end
      | [] => None
      end
  end.

Fixpoint rsplit_once (c : Z) (l : bytes) : option (bytes * bytes) :=
  match l with
  | [] => None
  | x :: l =>
      match rsplit_once c l with
      | Some (p, r) => Some (x :: p, r)
      | None => if x =? c then Some ([], l) else None
      end
  end.

Record Endpoint := mkEndpoint { host : string; endpoint_port : Z }.

Definition Endpoint_parse (addr : string) : string + Endpoint :=
  let l := str_bytes addr in
  let invalid := "invalid endpoint: " +:+ addr in
  let# parts := some_or (match strip_prefix [91] l with
                         | Some stripped => split_pair 93 58 stripped
                         | None => rsplit_once 58 l
                         end) invalid in
  let# port := parse_int 10 u16_max parts.2 in
  do# check_or (negb (bool_decide (trim_bytes parts.1 = []) || (port =? 0))) invalid ;
  inr (mkEndpoint (bytes_str parts.1) port).

(** ** Lemmas: parsers stop at a delimiter

    [stops c p]: [p] reads the same before a byte [c] as at the end. *)

Definition stops {A} (c : Z) (p : Parser A) : Prop :=
  forall l x, p (l ++ c :: x) = match p l with Some (v, r) => Some (v, r ++ c :: x) | None => None end.

Lemma read_digits_stop radix c l x r n : to_digit radix c = None ->
  read_digits radix (l ++ c :: x) r n = let '(a, b, rest) := read_digits radix l r n in (a, b, rest ++ c :: x).
Proof.
  intros Hc. revert r n. induction l as [|b l IH]; intros r n; cbn [app read_digits]; [by rewrite Hc|].
  destruct (to_digit radix b); [apply IH|done].
Qed.

Lemma stops_number radix digits zero max c : to_digit radix c = None -> stops c (read_number radix digits zero max).
Proof.
  intros Hc l x. unfold read_number. rewrite read_digits_stop by done. destruct l as [|b l]; cbn [app read_digits].
  - rewrite orb_true_r. done.
  - destruct (to_digit radix b) as [d|].
    + destruct (read_digits radix l _ _) as [[a n] rest]. by destruct (_ || _).
    + rewrite orb_true_r. done.
Qed.

Lemma stops_separator {A} sep index (p : Parser A) c : c <> sep -> stops c p -> stops c (read_separator sep index p).
Proof.
  intros Hne Hp l x. unfold read_separator. destruct index; [apply Hp|]. destruct l as [|b l]; cbn [app read_given_char].
  - by rewrite (proj2 (Z.eqb_neq _ _)).
  - destruct (b =? sep); [apply Hp|done].
Qed.

Lemma stops_octets c n index : to_digit 10 c = None -> c <> 46 -> stops c (read_octets n index).
Proof.
  intros Hc Hne. revert index. induction n as [|n IH]; intros index l x; cbn [read_octets]; [done|].
  rewrite (stops_separator _ _ _ c Hne (stops_number _ _ _ _ c Hc)).
  destruct (read_separator _ _ _ _) as [[o l']|]; [|done]. rewrite IH. by destruct (read_octets n _ l') as [[os l'']|].
Qed.

Lemma stops_groups n index l x : let '(gs, v4, r) := read_groups n index l in
  read_groups n index (l ++ 93 :: x) = (gs, v4, r ++ 93 :: x).
Proof.
  revert index l. induction n as [|n IH]; intros index l; cbn [read_groups]; [done|].
  rewrite (stops_separator _ _ read_ipv4_addr 93) by (done || by apply stops_octets).
  rewrite (stops_separator _ _ (read_number 16 4 true u16_max) 93) by (done || by apply stops_number).
  assert ((if 1 <? Z.of_nat (S n) then match read_separator 58 index read_ipv4_addr l with Some (v, r) => Some (v, r ++ 93 :: x) | None => None end else None)
    = match (if 1 <? Z.of_nat (S n) then read_separator 58 index read_ipv4_addr l else None) with Some (v, r) => Some (v, r ++ 93 :: x) | None => None end) as ->
    by (by destruct (1 <? _)).
  destruct (if 1 <? Z.of_nat (S n) then _ else _) as [[o l']|]; [done|].
  destruct (read_separator _ _ (read_number _ _ _ _) l) as [[g l']|]; [|done].
  specialize (IH (S index) l'). destruct (read_groups n _ l') as [[gs v4] r]. by rewrite IH.
Qed.

Lemma stops_ipv6 : stops 93 read_ipv6_addr.
Proof.
  intros l x. unfold read_ipv6_addr. pose proof (stops_groups 8 0 l x) as Hg.
  destruct (read_groups 8 0 l) as [[head v4] r]. rewrite Hg. destruct (zlen head =? 8); [done|]. destruct v4; [done|].
  destruct r as [|b r]; cbn [app read_given_char]; [done|]. destruct (b =? 58); [|done].
  destruct r as [|b2 r]; cbn [app read_given_char]; [done|]. destruct (b2 =? 58); [|done].
  pose proof (stops_groups (8 - (length head + 1)) 0 r x) as Hg2. destruct (read_groups _ 0 r) as [[tl v] r2]. by rewrite Hg2.
Qed.

(** An IPv4 literal has no colon, an IPv6 literal has one. *)
Lemma read_digits_takes radix l r n a b rest : read_digits radix l r n = (a, b, rest) ->
  exists pre, l = pre ++ rest /\ Forall (fun c => to_digit radix c <> None) pre.
Proof.
  revert r n. induction l as [|c l IH]; intros r n; cbn [read_digits]; [intros [= _ _ <-]; by exists []|].
  destruct (to_digit radix c) as [d|] eqn:E; [|intros [= _ _ <-]; by exists []].
  intros (pre & -> & Hp)%IH. exists (c :: pre). split; [done|]. constructor; [by rewrite E|done].
Qed.

Lemma read_octets_takes n index l o rest : read_octets n index l = Some (o, rest) ->
  exists pre, l = pre ++ rest /\ 58 ∉ pre.
Proof.
  assert (forall k v r, read_number 10 3 false u8_max k = Some (v, r) -> exists pre, k = pre ++ r /\ 58 ∉ pre) as Hn.
  { intros k v r. unfold read_number. destruct (read_digits 10 k 0 0) as [[a b] r'] eqn:E. case_if; [done|]. intros [= _ <-].
    apply read_digits_takes in E as (pre & -> & Hp). exists pre. split; [done|]. intros Hin. rewrite Forall_forall in Hp. by apply (Hp 58). }
  revert index l o. induction n as [|n IH]; intros index l o; cbn [read_octets]; [intros [= _ <-]; exists []; split; [done|apply not_elem_of_nil]|].
  destruct (read_separator _ _ _ _) as [[v l']|] eqn:E; [|done]. destruct (read_octets n _ l') as [[os l'']|] eqn:E2; [|done].
  intros [= _ <-]. apply IH in E2 as (p2 & -> & H2). destruct index; cbn [read_separator] in E.
  - apply Hn in E as (p1 & -> & H1). exists (p1 ++ p2). rewrite app_assoc. split; [done|]. rewrite elem_of_app. tauto.
  - destruct l as [|b l]; cbn [read_given_char] in E; [done|]. destruct (Z.eqb_spec b 46) as [->|]; [|done].
    apply Hn in E as (p1 & -> & H1). exists (46 :: p1 ++ p2). split; [cbn [app]; by rewrite <- app_assoc|].
    rewrite elem_of_cons, elem_of_app. intros [?|?]; [done|tauto].
Qed.

Lemma ipv6_colon l o rest : read_ipv6_addr l = Some (o, rest) -> 58 ∈ l.
Proof.
  intros E. destruct (decide (58 ∈ l)) as [|Hn]; [done|]. exfalso.
  assert (forall {A} (p : Parser A) k, (exists pre, l = pre ++ k) -> forall i, read_separator 58 (S i) p k = None) as Hsep.
  { intros A p k [pre Ek] i. destruct k as [|b k]; [done|]. cbn [read_separator read_given_char].
    rewrite (proj2 (Z.eqb_neq b 58)); [done|]. intros ->. apply Hn. rewrite Ek, elem_of_app, elem_of_cons. tauto. }
  revert E. unfold read_ipv6_addr. cbn [read_groups]. change (1 <? Z.of_nat 8) with true. change (@read_separator ?A 58 0 ?p ?k) with (p k). cbv iota.
  destruct (read_ipv4_addr l) as [[v r]|]; [done|]. destruct (read_number 16 4 true u16_max l) as [[g r]|] eqn:En.
  - assert (exists pre, l = pre ++ r) as Hpre.
    { revert En. unfold read_number. destruct (read_digits 16 l 0 0) as [[a b] r'] eqn:E. case_if; [done|]. intros [= _ <-].
      apply read_digits_takes in E as (pre & -> & _). by exists pre. }
    change (1 <? Z.of_nat 7) with true. rewrite !(Hsep _ _ _ Hpre). destruct Hpre as [pre ->].
    destruct r as [|b r]; cbn; [done|]. destruct (Z.eqb_spec b 58) as [->|]; [|done].
    exfalso. apply Hn. rewrite elem_of_app, elem_of_cons. tauto.
  - destruct l as [|b l]; cbn; [done|]. destruct (Z.eqb_spec b 58) as [->|]; [|done]. exfalso. apply Hn. rewrite elem_of_cons. tauto.
Qed.

(** Numbers are printed as they are parsed. *)
Lemma to_digit_pretty x : (x < 10)%N -> to_digit 10 (Z.of_N (Ascii.N_of_ascii (pretty_N_char x))) = Some (Z.of_N x).
Proof.
  intros Hx. assert (x = 0 \/ x = 1 \/ x = 2 \/ x = 3 \/ x = 4 \/ x = 5 \/ x = 6 \/ x = 7 \/ x = 8 \/ x = 9)%N as Hc by lia.
  repeat destruct Hc as [->|Hc]; [reflexivity..|by subst x].
Qed.

Lemma read_digits_go x : forall s r n, exists k, 0 <= k <= Z.of_N x /\ ((0 < x)%N -> 1 <= k) /\
  read_digits 10 (str_bytes (pretty_N_go x s)) r n = read_digits 10 (str_bytes s) (r * 10 ^ k + Z.of_N x) (n + k).
Proof.
  induction x as [x IH] using (well_founded_induction N.lt_wf_0). intros s r n.
  assert (x = 0 \/ 0 < x)%N as [->|Hx] by lia.
  { exists 0. rewrite pretty_N_go_0. split; [lia|]. split; [lia|]. f_equal; lia. }
  rewrite pretty_N_go_step by done. pose proof (N.div_lt x 10 Hx eq_refl) as Hd. pose proof (N.mod_lt x 10 ltac:(lia)) as Hm.
  pose proof (N.div_mod x 10 ltac:(lia)) as Ex.
  destruct (IH (x / 10)%N Hd (String (pretty_N_char (x mod 10)) s) r n) as (k & Hk & _ & ->).
  exists (k + 1). split; [lia|]. split; [lia|].
  change (str_bytes (String ?c ?s)) with (Z.of_N (Ascii.N_of_ascii c) :: str_bytes s).
  cbn [read_digits]. rewrite to_digit_pretty by done. f_equal; [|lia]. rewrite Z.pow_add_r by lia. lia.
Qed.

Lemma read_port_show p : 0 < p <= u16_max -> read_port (58 :: str_bytes (show p)) = Some (p, []).
Proof.
  intros Hp. unfold u16_max in *. destruct p as [|p|p]; [lia| |lia]. unfold read_port. cbn [read_given_char Z.eqb Pos.eqb].
  change (show (Z.pos p)) with (pretty_N_go (N.pos p) ""). unfold read_number.
  destruct (read_digits_go (N.pos p) "" 0 0) as (k & Hk & Hk1 & ->). specialize (Hk1 ltac:(lia)).
  change (str_bytes "") with (@nil Z). cbn [read_digits]. unfold usize_max, u64_max, u16_max.
  match goal with |- (if ?b then _ else _) = _ => assert (b = false) as -> end.
  { cbn [negb andb]. rewrite orb_false_r, !orb_false_iff, Z.mul_0_l, Z.ltb_ge, Z.eqb_neq, Z.ltb_ge. lia. }
  done.
Qed.

(** A literal address with a port is a socket address. *)
Lemma parse_socket_literal host a p : parse_ip host = Some a -> 0 < p <= u16_max ->
  parse_socket_addr (if bool_decide (58 ∈ str_bytes host) then "[" +:+ host +:+ "]:" +:+ show p else host +:+ ":" +:+ show p)
  = Some (mkSocketAddr a p).
Proof.
  intros Ha Hp. unfold parse_ip in Ha. unfold parse_socket_addr. destruct (read_ipv4_addr (str_bytes host)) as [[o r]|] eqn:E4.
  - case_bool_decide as Hr; [|done]. injection Ha as <-. subst r. pose proof E4 as (pre & Epre & Hno)%read_octets_takes.
    rewrite app_nil_r in Epre. rewrite bool_decide_eq_false_2 by (by rewrite Epre).
    rewrite !str_bytes_app. unfold read_socket_addr_v4. change (str_bytes ":" ++ ?x) with (58 :: x).
    rewrite (stops_octets 58 4 0) by done. unfold read_ipv4_addr in E4. rewrite E4. cbn [app]. by rewrite read_port_show.
  - destruct (read_ipv6_addr (str_bytes host)) as [[o r]|] eqn:E6; [|done]. case_bool_decide as Hr; [|done]. injection Ha as <-. subst r.
    rewrite bool_decide_eq_true_2 by (by eapply ipv6_colon).
    rewrite !str_bytes_app. change (str_bytes "[" ++ ?x) with (91 :: x). change (str_bytes "]:" ++ ?x) with (93 :: 58 :: x).
    unfold read_socket_addr_v4, read_ipv4_addr, read_octets, read_separator, read_number. cbn [read_digits].
    change (to_digit 10 91) with (@None Z). cbv beta iota zeta. cbn [Z.ltb Z.compare Z.eqb orb andb negb Pos.compare Pos.compare_cont].
    unfold read_socket_addr_v6. cbn [read_given_char Z.eqb Pos.eqb]. rewrite stops_ipv6, E6. cbn [app].
    unfold read_scope_id. cbn [read_given_char Z.eqb Pos.eqb]. by rewrite read_port_show.
Qed.
