(* ===== verification/Base64.v ===== *)
(** Base64 of RFC 4648 with padding, the concrete function behind the executable
    instance of the base64 interface ([Primitives.Toy]). *)
From S2P Require Import Prelude Error Text.

Definition b64_char (v : Z) : Z :=
  if v <? 26 then 65 + v else if v <? 52 then 71 + v else if v <? 62 then v - 4 else if v =? 62 then 43 else 47.

Definition b64_value (c : Z) : option Z :=
  if in_range 65 90 c then Some (c - 65) else if in_range 97 122 c then Some (c - 71)
  else if in_range 48 57 c then Some (c + 4) else if c =? 43 then Some 62 else if c =? 47 then Some 63 else None.

Fixpoint b64_enc (l : bytes) : bytes :=
  match l with
  | a :: b :: c :: l =>
      b64_char (a / 4) :: b64_char (a mod 4 * 16 + b / 16) :: b64_char (b mod 16 * 4 + c / 64) :: b64_char (c mod 64) :: b64_enc l
  | [a; b] => [b64_char (a / 4); b64_char (a mod 4 * 16 + b / 16); b64_char (b mod 16 * 4); 61]
  | [a] => [b64_char (a / 4); b64_char (a mod 4 * 16); 61; 61]
  | [] => []
  end.

Fixpoint b64_dec (l : bytes) : option bytes :=
  match l with
  | [] => Some []
  | p :: q :: r :: s :: l' =>
      match b64_value p, b64_value q with
      | Some x, Some y =>
          if s =? 61 then
            match l' with
            | _ :: _ => None
            | [] =>
                if r =? 61 then Some [x * 4 + y / 16]
                else match b64_value r with Some z => Some [x * 4 + y / 16; y mod 16 * 16 + z / 4] | None => None end
            end
          else
            match b64_value r, b64_value s, b64_dec l' with
            | Some z, Some w, Some rest => Some (x * 4 + y / 16 :: y mod 16 * 16 + z / 4 :: z mod 4 * 64 + w :: rest)
            | _, _, _ => None
            end
      | _, _ => None
      end
  | _ => None
  end.

Lemma list_ind3 {A} (P : list A -> Prop) :
  P [] -> (forall a, P [a]) -> (forall a b, P [a; b]) -> (forall a b c l, P l -> P (a :: b :: c :: l)) -> forall l, P l.
Proof.
  intros H0 H1 H2 H3. assert (forall n l, (length l <= n)%nat -> P l) as HP; [|by intros l; apply (HP (length l))].
  induction n as [|n IH]; intros [|a [|b [|c l]]] Hl; cbn in Hl; try done; try lia. apply H3, IH. lia.
Qed.

Lemma b64_value_char v : 0 <= v < 64 -> b64_value (b64_char v) = Some v /\ 32 < b64_char v < 127 /\ b64_char v <> 61.
Proof.
  intros Hv. unfold b64_char.
  destruct (Z.ltb_spec v 26); [|destruct (Z.ltb_spec v 52); [|destruct (Z.ltb_spec v 62); [|destruct (Z.eqb_spec v 62)]]];
    unfold b64_value, in_range; repeat case_if; bool_prop; try lia; (split; [f_equal; lia|lia]).
Qed.

Ltac six := unfold is_byte in *;
  repeat match goal with |- context [b64_char ?v] =>
    let E := fresh in let R := fresh in let N := fresh in
    destruct (b64_value_char v) as (E & R & N); [Z.div_mod_to_equations; lia|];
    generalize dependent (b64_char v); intros
  end.

Lemma b64_dec_enc l : bytes_ok l -> b64_dec (b64_enc l) = Some l.
Proof.
  induction l as [|a|a b|a b c l IH] using list_ind3; intros Hl; cbn [b64_enc b64_dec].
  - done.
  - apply Forall_cons in Hl as [Ha _]. six. simplify_option_eq. do 2 f_equal. Z.div_mod_to_equations; lia.
  - apply Forall_cons in Hl as [Ha Hl]. apply Forall_cons in Hl as [Hb _]. six. simplify_option_eq.
    repeat case_if; bool_prop; try done. do 2 f_equal; [|f_equal]; Z.div_mod_to_equations; lia.
  - apply Forall_cons in Hl as [Ha Hl]. apply Forall_cons in Hl as [Hb Hl]. apply Forall_cons in Hl as [Hc Hl].
    specialize (IH Hl). six. simplify_option_eq. repeat case_if; bool_prop; try done.
    do 2 f_equal; [|f_equal; [|f_equal]]; Z.div_mod_to_equations; lia.
Qed.

Lemma b64_enc_text l : bytes_ok l -> Forall (fun c => 32 < c < 127) (b64_enc l).
Proof.
  induction l as [|a|a b|a b c l IH] using list_ind3; intros Hl; cbn [b64_enc].
  - constructor.
  - apply Forall_cons in Hl as [Ha _]. six. repeat constructor; lia.
  - apply Forall_cons in Hl as [Ha Hl]. apply Forall_cons in Hl as [Hb _]. six. repeat constructor; lia.
  - apply Forall_cons in Hl as [Ha Hl]. apply Forall_cons in Hl as [Hb Hl]. apply Forall_cons in Hl as [Hc Hl].
    specialize (IH Hl). six. repeat (constructor; [lia|]). done.
Qed.

Lemma zlen_b64_enc l : zlen (b64_enc l) = 4 * ((zlen l + 2) / 3).
Proof.
  induction l as [|a|a b|a b c l IH] using list_ind3; cbn [b64_enc]; [done..|].
  rewrite !zlen_cons, IH. pose proof (zlen_nonneg l). Z.div_mod_to_equations; lia.
Qed.

Lemma b64_value_bound c v : b64_value c = Some v -> 0 <= v < 64.
Proof. unfold b64_value, in_range. repeat case_if; intros [= <-]; bool_prop; lia. Qed.

Lemma b64_dec_ok l b : b64_dec l = Some b -> bytes_ok b.
Proof.
  assert (forall n l b, (length l <= n)%nat -> b64_dec l = Some b -> bytes_ok b) as HP; [|by apply (HP (length l))].
  induction n as [|n IH]; intros [|p [|q [|r [|s k]]]] c Hl; cbn in Hl; try done; try lia; cbn [b64_dec].
  - intros [= <-]. constructor.
  - intros [= <-]. constructor.
  - destruct (b64_value p) as [x|] eqn:Ex; [|done]. destruct (b64_value q) as [y|] eqn:Ey; [|done].
    apply b64_value_bound in Ex, Ey. case_if.
    + destruct k; [|done]. case_if; [intros [= <-]; constructor; [red; Z.div_mod_to_equations; lia|constructor]|].
      destruct (b64_value r) as [z|] eqn:Ez; [|done]. apply b64_value_bound in Ez. intros [= <-].
      repeat (constructor; [red; Z.div_mod_to_equations; lia|]). constructor.
    + destruct (b64_value r) as [z|] eqn:Ez; [|done]. destruct (b64_value s) as [w|] eqn:Ew; [|done].
      destruct (b64_dec k) as [rest|] eqn:Ek; [|done]. apply b64_value_bound in Ez, Ew.
      apply IH in Ek; [|lia]. intros [= <-]. repeat (constructor; [red; Z.div_mod_to_equations; lia|]). done.
Qed.

(** No character of the alphabet is a quote or a backslash. *)
Lemma b64_char_plain v : 0 <= v < 64 -> b64_char v <> 34 /\ b64_char v <> 92.
Proof. intros Hv. unfold b64_char. repeat case_if; bool_prop; lia. Qed.

Lemma b64_enc_plain l : bytes_ok l -> Forall (fun c => c <> 34 /\ c <> 92) (b64_enc l).
Proof.
  induction l as [|a|a b|a b c l IH] using list_ind3; intros Hl; cbn [b64_enc]; [constructor|..];
    apply Forall_cons in Hl as [Ha Hl]; [|apply Forall_cons in Hl as [Hb Hl]..]; [| |apply Forall_cons in Hl as [Hc Hl]];
    unfold is_byte in *; repeat (constructor; [first [apply b64_char_plain; Z.div_mod_to_equations; lia|lia]|]); [constructor..|by apply IH].
Qed.
