(* ===== verification/Primitives.v ===== *)
(** Interfaces of the third-party code SHPH calls: the [rand] generators, the
    AEAD, the hash and signature crates and base64.  Each is a class of
    operations with the documented behaviour the code relies on as laws, and a
    small executable instance (module [Toy]) that shows the laws can hold and
    lets the witnesses compute. *)
From Stdlib Require Import SpecFloat.
From S2P Require Import Prelude Error Text Base64.

(** ** Random number generators ([rand::Rng], [rand::RngCore])

    A generator state is a value of [R]; every call returns the next state. *)
Class RngOps (R : Type) := {
  rng_range : Z -> Z -> R -> Z * R;            (* gen_range(lo..hi) *)
  rng_next_u32 : R -> Z * R;                   (* next_u32() *)
  rng_fill : Z -> R -> option bytes * R;       (* try_fill_bytes of n bytes *)
  rng_f64 : R -> spec_float * R                (* gen::<f64>() *)
}.

Class RngLaws (R : Type) `{RngOps R} := {
  rng_range_bounds lo hi r : lo < hi -> lo <= (rng_range lo hi r).1 < hi;
  rng_next_u32_bounds r : 0 <= (rng_next_u32 r).1 <= u32_max;
  rng_fill_len n r l : (rng_fill n r).1 = Some l -> zlen l = Z.max 0 n /\ bytes_ok l
}.

(** [rng.gen_range(lo..hi)] panics on an empty range. *)
Definition gen_range {R} `{RngOps R} (lo hi : Z) (r : R) : result Z * R :=
  if lo <? hi then let '(x, r') := rng_range lo hi r in (Ok x, r') else (Panic, r).

Lemma gen_range_ok {R} `{RngLaws R} lo hi r :
  lo < hi -> exists x r', gen_range lo hi r = (Ok x, r') /\ lo <= x < hi.
Proof.
  intros Hlt. unfold gen_range. rewrite (proj2 (Z.ltb_lt _ _)) by done.
  pose proof (rng_range_bounds lo hi r Hlt) as B.
  destruct (rng_range lo hi r) as [x r']. eauto.
Qed.

(** ** ChaCha20-Poly1305 (crate chacha20poly1305) *)
Class AeadOps := {
  aead_seal : bytes -> bytes -> bytes -> option bytes;  (* key nonce plaintext *)
  aead_open : bytes -> bytes -> bytes -> option bytes;  (* key nonce ciphertext *)
  aead_error_text : string;                             (* Display of aead::Error *)
  aead_invalid_length_text : string                     (* Display of InvalidLength *)
}.

Definition AEAD_TAG_BYTES : Z := 16.

Class AeadLaws `{AeadOps} := {
  (* encryption succeeds on every plaintext below the RFC 8439 limit *)
  aead_seal_total k n p : zlen p < 2 ^ 38 - 64 -> is_Some (aead_seal k n p);
  aead_open_seal k n p c : aead_seal k n p = Some c -> aead_open k n c = Some p;
  aead_seal_open k n p c : aead_open k n c = Some p -> aead_seal k n p = Some c;
  aead_seal_len k n p c : aead_seal k n p = Some c -> zlen c = zlen p + AEAD_TAG_BYTES;
  aead_seal_bytes k n p c : bytes_ok p -> aead_seal k n p = Some c -> bytes_ok c;
  aead_open_bytes k n p c : bytes_ok c -> aead_open k n c = Some p -> bytes_ok p
}.

(** ** HKDF-SHA-256 (crate hkdf), SHA-256 (crate sha2), HMAC-SHA-256 (ring) *)
Class HashOps := {
  sha256 : bytes -> bytes;
  hmac_sha256 : bytes -> bytes -> bytes;                 (* key message *)
  hkdf_expand : bytes -> bytes -> Z -> option bytes;     (* salt ikm output length *)
  hkdf_error_text : string                               (* Display of InvalidLength *)
}.

Class HashLaws `{HashOps} := {
  sha256_len m : zlen (sha256 m) = 32;
  sha256_bytes m : bytes_ok (sha256 m);
  hmac_sha256_len k m : zlen (hmac_sha256 k m) = 32;
  hmac_sha256_bytes k m : bytes_ok (hmac_sha256 k m);
  hkdf_expand_len s k n o : hkdf_expand s k n = Some o -> zlen o = Z.max 0 n;
  hkdf_expand_total s k n : 0 <= n <= 255 * 32 -> is_Some (hkdf_expand s k n)
}.

(** ** X25519, Ed25519, ML-KEM-768, base64 *)
Class KexOps := {
  x25519_public : bytes -> bytes;
  x25519_dh : bytes -> bytes -> bytes;                   (* private, peer public *)
  ed25519_public : bytes -> bytes;                       (* of a seed *)
  ed25519_sign : bytes -> bytes -> bytes;                (* seed message *)
  ed25519_verify : bytes -> bytes -> bytes -> bool;      (* public message signature *)
  mlkem_keygen : bytes -> bytes * bytes;                 (* seed: encapsulation key, decapsulation key *)
  mlkem_encap : bytes -> bytes -> option (bytes * bytes); (* randomness, public key: ciphertext, secret *)
  mlkem_decap : bytes -> bytes -> bytes;                 (* decapsulation key, ciphertext *)
  b64_encode : bytes -> string;
  b64_decode : string -> option bytes
}.

Class KexLaws `{KexOps} := {
  x25519_public_len k : zlen k = 32 -> zlen (x25519_public k) = 32 /\ bytes_ok (x25519_public k);
  x25519_dh_comm a b : x25519_dh a (x25519_public b) = x25519_dh b (x25519_public a);
  x25519_dh_len a p : zlen (x25519_dh a p) = 32;
  ed25519_public_len s : zlen s = 32 -> zlen (ed25519_public s) = 32 /\ bytes_ok (ed25519_public s);
  ed25519_sign_verify s m : ed25519_verify (ed25519_public s) m (ed25519_sign s m) = true;
  ed25519_sign_bytes s m : bytes_ok (ed25519_sign s m) /\ zlen (ed25519_sign s m) = 64;
  mlkem_public_len s : zlen (mlkem_keygen s).1 = 1184 /\ bytes_ok (mlkem_keygen s).1;
  mlkem_encap_len r p c s : mlkem_encap r p = Some (c, s) ->
    zlen c = 1088 /\ zlen s = 32 /\ bytes_ok c;
  (* encapsulation to a generated key succeeds *)
  mlkem_encap_total r seed : is_Some (mlkem_encap r (mlkem_keygen seed).1);
  mlkem_roundtrip seed r c s : mlkem_encap r (mlkem_keygen seed).1 = Some (c, s) ->
    mlkem_decap (mlkem_keygen seed).2 c = s;
  mlkem_decap_len k c : zlen c = 1088 -> zlen (mlkem_decap k c) = 32;
  b64_roundtrip b : bytes_ok b -> b64_decode (b64_encode b) = Some b;
  b64_decode_bytes s b : b64_decode s = Some b -> bytes_ok b;
  (* printable characters, four for each group of three bytes *)
  b64_text b : bytes_ok b -> Forall (fun c => 32 < c < 127) (str_bytes (b64_encode b));
  (* nothing that JSON escapes *)
  b64_plain b : bytes_ok b -> Forall (fun c => c <> 34 /\ c <> 92) (str_bytes (b64_encode b));
  b64_size b : bytes_ok b -> zlen (str_bytes (b64_encode b)) = 4 * ((zlen b + 2) / 3)
}.

Lemma b64_len `{KexLaws} b : bytes_ok b -> zlen (str_bytes (b64_encode b)) <= 2 * zlen b + 2.
Proof. intros Hb. rewrite b64_size by done. pose proof (zlen_nonneg b). Z.div_mod_to_equations; lia. Qed.

(** ** Executable instances *)

Module Toy.

(** A counter as a generator. *)
#[export] Instance rng : RngOps Z := {
  rng_range lo hi r := (lo + r mod (hi - lo), r + 1);
  rng_next_u32 r := (r mod 2 ^ 32, r + 1);
  rng_fill n r := (Some (zreplicate n (r mod 256)), r + 1);
  rng_f64 r := (binary_normalize 53 1024 (r mod 16) (-4) false, r + 1)
}.

#[export] Instance rng_laws : RngLaws Z.
Proof.
  split.
  - intros lo hi r Hlt. simpl. pose proof (Z.mod_pos_bound r (hi - lo)). lia.
  - intros r. simpl. pose proof (Z.mod_pos_bound r (2 ^ 32)). unfold u32_max. lia.
  - intros n r l [= <-]. rewrite zlen_zreplicate. split; [done|].
    apply Forall_replicate. apply Z.mod_pos_bound. lia.
Qed.

(** The plaintext followed by sixteen checksum bytes. *)
Definition checksum (l : bytes) : Z := fold_left Z.add l 0 mod 256.
Definition tag (k n p : bytes) : bytes :=
  zreplicate 16 ((checksum k + checksum n + checksum p) mod 256).

#[export] Instance aead : AeadOps := {
  aead_seal k n p := Some (p ++ tag k n p);
  aead_open k n c :=
    let p := ztake (zlen c - 16) c in
    if bytes_eqb (p ++ tag k n p) c then Some p else None;
  aead_error_text := "aead::Error";
  aead_invalid_length_text := "Invalid Length"
}.

Lemma tag_len k n p : zlen (tag k n p) = 16.
Proof. unfold tag. by rewrite zlen_zreplicate. Qed.

#[export] Instance aead_laws : AeadLaws.
Proof.
  split; simpl.
  - eauto.
  - intros k n p c [= <-]. rewrite zlen_app, tag_len, Z.add_simpl_r.
    rewrite ztake_app by done. by rewrite bytes_eqb_refl.
  - intros k n p c H. case_if. injection H as <-. bool_prop. by f_equal.
  - intros k n p c [= <-]. by rewrite zlen_app, tag_len.
  - intros k n p c Hp [= <-]. apply bytes_ok_app. split; [done|].
    apply Forall_replicate. apply Z.mod_pos_bound. lia.
  - intros k n p c Hc E. case_if. injection E as <-. auto with bytes.
Qed.

(** SHA-256 and friends as a polynomial of the input. *)
Definition digest (m : bytes) : Z := fold_left (fun a b => (a * 257 + b + 1) mod 65521) m 0.

#[export] Instance hash : HashOps := {
  sha256 m := be_bytes 32 (digest m);
  hmac_sha256 k m := be_bytes 32 (digest (k ++ m));
  hkdf_expand s k n := Some (be_bytes (Z.to_nat n) (digest (s ++ k)));
  hkdf_error_text := "invalid length"
}.

#[export] Instance hash_laws : HashLaws.
Proof.
  split; simpl.
  - intros m. by rewrite zlen_be_bytes.
  - intros m. apply be_bytes_ok.
  - intros k m. by rewrite zlen_be_bytes.
  - intros k m. apply be_bytes_ok.
  - intros s k n o [= <-]. rewrite zlen_be_bytes. lia.
  - eauto.
Qed.

(** Diffie-Hellman as addition of 256-bit integers, a signature that repeats
    the key and the message, a KEM whose ciphertext carries its randomness, and
    base64 itself. *)
#[export] Instance kex : KexOps := {
  x25519_public k := be_bytes 32 (be_val k);
  x25519_dh a p := be_bytes 32 (be_val a + be_val p);
  ed25519_public s := be_bytes 32 (be_val s);
  ed25519_sign s m := be_bytes 64 (be_val s + digest m);
  ed25519_verify pk m sig := bytes_eqb (ztake 32 (zdrop 32 sig)) (be_bytes 32 (be_val pk + digest m));
  mlkem_keygen seed := (zreplicate 1152 0 ++ be_bytes 32 (be_val seed), be_bytes 32 (be_val seed));
  mlkem_encap r pk := Some (zreplicate 1056 0 ++ be_bytes 32 (be_val r), be_bytes 32 (be_val r));
  mlkem_decap dk c := zdrop 1056 c;
  b64_encode b := bytes_str (b64_enc b);
  b64_decode s := b64_dec (str_bytes s)
}.

Lemma padded_ok n m x : bytes_ok (zreplicate n 0 ++ be_bytes m x).
Proof. apply bytes_ok_app. split; [apply Forall_replicate; red; lia|apply be_bytes_ok]. Qed.

Lemma zdrop_be_bytes (n m : nat) x : zdrop (Z.of_nat n) (be_bytes (n + m) x) = be_bytes m x.
Proof.
  unfold zdrop. rewrite Nat2Z.id. induction n as [|n IH]; [done|]. exact IH.
Qed.

Lemma b64_str_bytes b : bytes_ok b -> str_bytes (bytes_str (b64_enc b)) = b64_enc b.
Proof.
  intros Hb. apply str_bytes_str. eapply Forall_impl; [by apply b64_enc_text|]. unfold is_byte. cbn. lia.
Qed.

#[export] Instance kex_laws : KexLaws.
Proof.
  split; cbn [x25519_public x25519_dh ed25519_public ed25519_sign ed25519_verify mlkem_keygen
    mlkem_encap mlkem_decap b64_encode b64_decode kex fst snd].
  - intros k _. rewrite zlen_be_bytes. auto with bytes.
  - intros a b. apply be_bytes_ext. rewrite !(proj2 (be_bytes_mod 32 _)).
    rewrite !Z.add_mod_idemp_r by done. by rewrite Z.add_comm.
  - intros a p. by rewrite zlen_be_bytes.
  - intros s _. rewrite zlen_be_bytes. auto with bytes.
  - intros s m. apply bytes_eqb_eq. rewrite (zdrop_be_bytes 32 32).
    rewrite ztake_all by (by rewrite zlen_be_bytes). apply be_bytes_ext.
    rewrite (proj2 (be_bytes_mod 32 _)). by rewrite Z.add_mod_idemp_l by done.
  - intros. by rewrite zlen_be_bytes; auto with bytes.
  - intros s. rewrite zlen_app, zlen_be_bytes, zlen_zreplicate. split; [done|by apply padded_ok].
  - intros r p c s HE. apply (inj Some), pair_equal_spec in HE as [<- <-].
    rewrite zlen_app, !zlen_be_bytes, zlen_zreplicate.
    split_and!; [done|done|by apply padded_ok].
  - eauto.
  - intros seed r c s HE. apply (inj Some), pair_equal_spec in HE as [<- <-]. by apply zdrop_app.
  - intros k c Hc. rewrite zlen_zdrop, Hc. done.
  - intros b Hb. rewrite b64_str_bytes by done. by apply b64_dec_enc.
  - intros s b. apply b64_dec_ok.
  - intros b Hb. rewrite b64_str_bytes by done. by apply b64_enc_text.
  - intros b Hb. rewrite b64_str_bytes by done. by apply b64_enc_plain.
  - intros b Hb. rewrite b64_str_bytes by done. apply zlen_b64_enc.
Qed.
End Toy.
