(* ===== verification/Replay.v ===== *)
(** Anti-replay: an abstract specification shared by every replay filter of
    SHPH, the interface a filter implements, and the bitmap window
    [ReplayWindow] of shph-core/src/crypto.rs with its refinement. *)
From stdpp Require Import gmap.
From Stdlib Require Import Sorted.
From S2P Require Import Prelude Error.

(** ** Specification *)

(** What a filter promises, over the whole history of accepted sequence
    numbers: it remembers everything it accepted, accepts every number above
    the highest one, and accepts an older number when it is at most [depth]
    behind the highest and was not accepted before. *)
Record ReplaySpec := mkReplaySpec { sp_highest : option Z; sp_seen : gset Z }.

Definition spec_empty : ReplaySpec := mkReplaySpec None ∅.

Definition spec_accept (depth n : Z) (sp : ReplaySpec) : bool * ReplaySpec :=
  match sp_highest sp with
  | None => (true, mkReplaySpec (Some n) ({[n]} ∪ sp_seen sp))
  | Some h =>
      if h <? n then (true, mkReplaySpec (Some n) ({[n]} ∪ sp_seen sp))
      else if (h - n <=? depth) && bool_decide (n ∉ sp_seen sp)
      then (true, mkReplaySpec (Some h) ({[n]} ∪ sp_seen sp))
      else (false, sp)
  end.

Definition spec_wf (sp : ReplaySpec) : Prop :=
  match sp_highest sp with
  | None => sp_seen sp = ∅
  | Some h => h ∈ sp_seen sp /\ forall x, x ∈ sp_seen sp -> x <= h
  end.

Lemma spec_accept_wf depth n sp : spec_wf sp -> spec_wf (spec_accept depth n sp).2.
Proof.
  unfold spec_wf, spec_accept. destruct sp as [[h|] s]; simpl; [|intros ->; set_solver].
  intros [Hh Hs]. repeat case_if; bool_prop; simpl; split; try set_solver.
  all: intros x Hx; apply elem_of_union in Hx as [Hx%elem_of_singleton|Hx%Hs]; lia.
Qed.

(** An accepted number was not accepted before, and is remembered. *)
Lemma spec_accept_fresh depth n sp :
  spec_wf sp -> (spec_accept depth n sp).1 = true ->
  n ∉ sp_seen sp /\ sp_seen (spec_accept depth n sp).2 = {[n]} ∪ sp_seen sp.
Proof.
  unfold spec_wf, spec_accept. destruct sp as [[h|] s]; simpl; [|intros ->; set_solver].
  intros [Hh Hs]. repeat case_if; bool_prop; simpl; try done.
  intros _. split; [|done]. intros Hn%Hs. lia.
Qed.

Lemma spec_accept_reject depth n sp :
  (spec_accept depth n sp).1 = false -> (spec_accept depth n sp).2 = sp.
Proof. unfold spec_accept. destruct (sp_highest sp); [repeat case_if|]; done. Qed.

(** ** Runs of a filter *)

Section Runs.
Context {S : Type} (accept : Z -> S -> bool * S).

(** The numbers a filter accepts out of a received sequence, in order. *)
Fixpoint accepted (ns : list Z) (s : S) : list Z :=
  match ns with
  | [] => []
  | n :: ns' => let '(b, s') := accept n s in
                (if b then [n] else []) ++ accepted ns' s'
  end.
End Runs.

(** ** Interface *)

(** [AntiReplay accept R]: the filter [accept] refines [spec_accept] through
    the abstraction relation [R depth]. *)
Class AntiReplay {S : Type} (accept : Z -> S -> bool * S)
    (R : Z -> S -> ReplaySpec -> Prop) := {
  ar_wf d s sp : R d s sp -> spec_wf sp;
  ar_refines d s sp n : R d s sp -> 0 <= n <= u64_max ->
    (accept n s).1 = (spec_accept d n sp).1 /\
    R d (accept n s).2 (spec_accept d n sp).2;
}.

Section Client.
Context {S : Type} {accept : Z -> S -> bool * S} {R : Z -> S -> ReplaySpec -> Prop}.
Context `{!AntiReplay accept R}.

Lemma accepted_fresh d ns s sp :
  R d s sp -> Forall (fun n => 0 <= n <= u64_max) ns ->
  NoDup (accepted accept ns s) /\
  forall n, n ∈ accepted accept ns s -> n ∉ sp_seen sp.
Proof.
  intros HR Hns. revert s sp HR.
  induction Hns as [|n ns Hn Hns IH]; intros s sp HR; simpl; [by split; [constructor|set_solver]|].
  destruct (ar_refines d s sp n HR Hn) as [Hb HR'].
  destruct (accept n s) as [b s'] eqn:E; simpl in *.
  destruct (IH s' _ HR') as [IH1 IH2]. destruct b; simpl.
  - destruct (spec_accept_fresh d n sp (ar_wf _ _ _ HR) (eq_sym Hb)) as [Hf Hs].
    rewrite Hs in IH2. split; [constructor; [|done]|]; set_solver.
  - rewrite spec_accept_reject in IH2 by done. done.
Qed.
End Client.

(** ** The bitmap window *)

(** Words of 64 bits; bit [i] of a bitmap. *)
Definition getbit (l : list Z) (i : Z) : bool :=
  Z.testbit (l !!! Z.to_nat (i / 64)) (i mod 64).

(** [bits[word] |= mask], a panic out of range. *)
Definition bits_or (l : list Z) (word mask : Z) : result (list Z) :=
  if (0 <=? word) && (word <? zlen l)
  then Ok (alter (fun w => Z.lor w mask) (Z.to_nat word) l) else Panic.

(** Bit [i] of the bitmap, counted down from the top, stands for the number
    [highest - 1 - i]. *)
Record ReplayWindow := mkReplayWindow {
  highest : option Z; (* Option<u64> *)
  bits : list Z;      (* Vec<u64> *)
  size : Z            (* usize *)
}.

Definition MAX_REPLAY_WINDOW_SIZE : Z := 64 * 1024.

Definition ReplayWindow_new (size : Z) : ReplayWindow :=
  let size := Z.min (Z.max size 64) MAX_REPLAY_WINDOW_SIZE in
  let words := div_ceil size 64 in
  {| highest := None; bits := zreplicate words 0; size := words * 64 |}.

(** One iteration of each of the two loops of [shift_down]. *)
Definition shift_word_step (bits : list Z) (word_shift words : nat) (out : list Z) (i : nat)
  : list Z :=
  if decide (i + word_shift < words)%nat
  then <[(i + word_shift)%nat := bits !!! i]> out else out.

Definition shift_bit_step (bits : list Z) (word_shift words : nat) (bit_shift : Z)
    (out : list Z) (i : nat) : list Z :=
  let lo := u64_shl (bits !!! i) bit_shift in
  let out := if decide (i + word_shift < words)%nat
             then alter (fun w => Z.lor w lo) (i + word_shift)%nat out else out in
  let hi := Z.shiftr (bits !!! i) (64 - bit_shift) in
  if decide (i + word_shift + 1 < words)%nat
  then alter (fun w => Z.lor w hi) (i + word_shift + 1)%nat out else out.

Definition shift_down (bits : list Z) (gap : Z) : list Z :=
  let word_shift := Z.to_nat (gap / 64) in
  let bit_shift := gap mod 64 in
  let words := length bits in
  let out := replicate words 0 in
  if bit_shift =? 0
  then fold_left (shift_word_step bits word_shift words) (seq 0 words) out
  else fold_left (shift_bit_step bits word_shift words bit_shift) (seq 0 words) out.

Definition check_and_insert (nonce : Z) (w : ReplayWindow) : result (bool * ReplayWindow) :=
  match highest w with
  | None => Ok (true, mkReplayWindow (Some nonce) (bits w) (size w))
  | Some h =>
      if h <? nonce then
        let gap := nonce - h in
        let? bits' :=
          if size w <? gap then Ok (map (fun _ => 0) (bits w))
          else if gap =? size w then
            bits_or (map (fun _ => 0) (bits w)) (zlen (bits w) - 1) (Z.shiftl 1 63)
          else
            let shifted := shift_down (bits w) gap in
            let bit_index := gap - 1 in
            bits_or shifted (bit_index / 64) (Z.shiftl 1 (bit_index mod 64)) in
        Ok (true, mkReplayWindow (Some nonce) bits' (size w))
      else
        let offset := h - nonce in
        if (offset =? 0) || (size w <? offset) then Ok (false, w)
        else
          let bit_index := offset - 1 in
          let word := bit_index / 64 in
          let mask := Z.shiftl 1 (bit_index mod 64) in
          let? old := index (bits w) word in
          if negb (Z.land old mask =? 0) then Ok (false, w)
          else
            let? bits' := bits_or (bits w) word mask in
            Ok (true, mkReplayWindow (Some h) bits' (size w))
  end.

(** ** Bitmap lemmas *)

Definition words_ok (l : list Z) : Prop := Forall (fun w => 0 <= w < 2 ^ 64) l.

Lemma words_ok_lookup l i : words_ok l -> 0 <= l !!! i < 2 ^ 64.
Proof.
  intros Hl. destruct (l !! i) as [w|] eqn:E.
  - rewrite (list_lookup_total_correct _ _ _ E). by eapply Forall_lookup_1 in Hl.
  - rewrite list_lookup_total_alt, E. simpl. lia.
Qed.

Lemma testbit_high w m : 0 <= w < 2 ^ 64 -> 64 <= m -> Z.testbit w m = false.
Proof.
  intros Hw Hm. apply Z.bits_above_log2; [lia|].
  destruct (decide (w = 0)) as [->|]; [simpl; lia|].
  assert (Z.log2 w < 64) by (apply Z.log2_lt_pow2; lia); lia.
Qed.

Lemma bounded_by_bits w :
  0 <= w -> (forall m, 64 <= m -> Z.testbit w m = false) -> w < 2 ^ 64.
Proof.
  intros Hw Hb. destruct (decide (w = 0)) as [->|]; [lia|].
  apply Z.log2_lt_pow2; [lia|].
  destruct (Z.lt_ge_cases (Z.log2 w) 64) as [|H]; [done|].
  specialize (Hb _ H). by rewrite Z.bit_log2 in Hb by lia.
Qed.

Lemma lor_bound a b : 0 <= a < 2 ^ 64 -> 0 <= b < 2 ^ 64 -> 0 <= Z.lor a b < 2 ^ 64.
Proof.
  intros Ha Hb. split; [apply Z.lor_nonneg; lia|].
  apply bounded_by_bits; [apply Z.lor_nonneg; lia|].
  intros m Hm. by rewrite Z.lor_spec, !testbit_high.
Qed.

Lemma u64_shl_bit x n m :
  0 <= n -> 0 <= m < 64 ->
  Z.testbit (u64_shl x n) m = (n <=? m) && Z.testbit x (m - n).
Proof.
  intros Hn Hm. unfold u64_shl.
  change u64_max with (Z.ones 64). rewrite Z.land_spec, Z.shiftl_spec by lia.
  rewrite Z.ones_spec_low, andb_true_r by lia.
  destruct (Z.leb_spec n m); [done|]. by rewrite Z.testbit_neg_r by lia.
Qed.

Lemma u64_shl_bound x n : 0 <= u64_shl x n < 2 ^ 64.
Proof.
  unfold u64_shl. change u64_max with (Z.ones 64).
  rewrite Z.land_ones by lia. by apply Z.mod_pos_bound.
Qed.

Lemma shiftr_bound x n : 0 <= n -> 0 <= x < 2 ^ 64 -> 0 <= Z.shiftr x n < 2 ^ 64.
Proof.
  intros Hn Hx. split; [apply Z.shiftr_nonneg; lia|].
  rewrite Z.shiftr_div_pow2 by lia. assert (0 < 2 ^ n) by lia.
  apply Z.div_lt_upper_bound; nia.
Qed.

Lemma mask_bit k m : 0 <= k < 64 -> 0 <= m -> Z.testbit (Z.shiftl 1 k) m = (m =? k).
Proof.
  intros Hk Hm. rewrite Z.shiftl_1_l, Z.pow2_bits_eqb by lia.
  destruct (Z.eqb_spec k m), (Z.eqb_spec m k); lia || done.
Qed.

Lemma mask_bound k : 0 <= k < 64 -> 0 <= Z.shiftl 1 k < 2 ^ 64.
Proof.
  intros. rewrite Z.shiftl_1_l. split; [lia|]. apply Z.pow_lt_mono_r; lia.
Qed.

Lemma mask_test w k :
  0 <= k < 64 -> negb (Z.land w (Z.shiftl 1 k) =? 0) = Z.testbit w k.
Proof.
  intros Hk. destruct (Z.testbit w k) eqn:E.
  - apply negb_true_iff, Z.eqb_neq. intros H0.
    apply (f_equal (fun z => Z.testbit z k)) in H0.
    rewrite Z.land_spec, mask_bit, E, Z.eqb_refl, Z.bits_0 in H0 by lia. done.
  - apply negb_false_iff, Z.eqb_eq. apply Z.bits_inj'. intros m Hm.
    rewrite Z.land_spec, mask_bit, Z.bits_0 by lia.
    destruct (Z.eqb_spec m k) as [->|]; [by rewrite E|by rewrite andb_false_r].
Qed.

(** Writing bit [i] of a bitmap changes that bit only. *)
Lemma bits_or_spec l i :
  words_ok l -> 0 <= i < 64 * zlen l ->
  exists l', bits_or l (i / 64) (Z.shiftl 1 (i mod 64)) = Ok l' /\
    zlen l' = zlen l /\ words_ok l' /\
    forall j, 0 <= j -> getbit l' j = (j =? i) || getbit l j.
Proof.
  intros Hl Hi. pose proof (Z.mod_pos_bound i 64 ltac:(lia)) as Hm.
  assert (0 <= i / 64 < zlen l) as Hw by (split; [apply Z.div_pos|apply Z.div_lt_upper_bound]; lia).
  unfold bits_or. rewrite !(proj2 (Z.leb_le _ _)), (proj2 (Z.ltb_lt _ _)) by lia. simpl.
  eexists. split; [done|]. split; [|split].
  - unfold zlen. by rewrite length_alter.
  - apply Forall_alter; [done|]. intros x _ Hx. by apply lor_bound, mask_bound.
  - intros j Hj. unfold getbit. rewrite list_lookup_total_alt.
    pose proof (Z.mod_pos_bound j 64 ltac:(lia)) as Hmj.
    assert (0 <= j / 64) by (apply Z.div_pos; lia).
    destruct (decide (j / 64 = i / 64)) as [E|E].
    + rewrite E, list_lookup_alter_eq.
      destruct (lookup_lt_is_Some_2 l (Z.to_nat (i / 64))) as [w Ew]; [unfold zlen in Hw; lia|].
      rewrite (list_lookup_total_correct _ _ _ Ew), Ew. simpl.
      rewrite Z.lor_spec, mask_bit, orb_comm by lia. f_equal.
      pose proof (Z.div_mod i 64 ltac:(lia)). pose proof (Z.div_mod j 64 ltac:(lia)).
      destruct (Z.eqb_spec (j mod 64) (i mod 64)), (Z.eqb_spec j i); try done; lia.
    + rewrite list_lookup_alter_ne, <- list_lookup_total_alt by lia.
      destruct (Z.eqb_spec j i); [by subst|done].
Qed.

(** ** [shift_down] *)

Section Shift.
Context (l : list Z) (Hl : words_ok l) (ws : nat) (bs : Z) (Hbs : 0 < bs < 64).

(** Contents of word [k] of the output after the first [n] iterations. *)
Definition lo_part (n k : nat) : Z :=
  if decide (ws <= k < n + ws)%nat then u64_shl (l !!! (k - ws)%nat) bs else 0.
Definition hi_part (n k : nat) : Z :=
  if decide (ws + 1 <= k < n + ws + 1)%nat
  then Z.shiftr (l !!! (k - ws - 1)%nat) (64 - bs) else 0.

Lemma alter_total (o : list Z) f i k :
  (k < length o)%nat ->
  alter f i o !!! k = if decide (i = k) then f (o !!! k) else o !!! k.
Proof.
  intros Hk. rewrite !list_lookup_total_alt. case_decide as E.
  - subst i. rewrite list_lookup_alter_eq.
    destruct (lookup_lt_is_Some_2 o k) as [w ->]; done.
  - by rewrite list_lookup_alter_ne.
Qed.

Lemma shift_bit_loop n :
  (n <= length l)%nat ->
  let out := fold_left (shift_bit_step l ws (length l) bs) (seq 0 n)
               (replicate (length l) 0) in
  length out = length l /\
  forall k, (k < length l)%nat -> out !!! k = Z.lor (lo_part n k) (hi_part n k).
Proof.
  induction n as [|n IH]; intros Hn.
  - simpl. rewrite length_replicate. split; [done|]. intros k Hk.
    rewrite lookup_total_replicate_2 by done.
    unfold lo_part, hi_part. rewrite !decide_False by lia. done.
  - destruct IH as [IHlen IHk]; [lia|].
    rewrite seq_S, fold_left_app, Nat.add_0_l. cbn [fold_left].
    set (o := fold_left _ _ _) in *. clearbody o.
    assert (Hlen : length (shift_bit_step l ws (length l) bs o n) = length l).
    { unfold shift_bit_step. repeat case_decide; rewrite ?length_alter; done. }
    split; [done|]. intros k Hk.
    assert (Hstep : shift_bit_step l ws (length l) bs o n !!! k =
      Z.lor (Z.lor (o !!! k) (if decide (n + ws = k)%nat then u64_shl (l !!! n) bs else 0))
        (if decide (n + ws + 1 = k)%nat then Z.shiftr (l !!! n) (64 - bs) else 0)).
    { unfold shift_bit_step. repeat case_decide; rewrite ?alter_total by (rewrite ?length_alter; lia);
        repeat case_decide; try lia; by rewrite ?Z.lor_0_r. }
    rewrite Hstep, IHk by done. unfold lo_part, hi_part.
    repeat case_decide; subst; try lia; rewrite ?Z.lor_0_r, ?Z.lor_0_l; try done.
    all: first [solve [repeat (f_equal; try lia)]
               |rewrite Z.lor_comm; solve [repeat (f_equal; try lia)]].
Qed.
End Shift.

Lemma shift_word_loop (l : list Z) ws n :
  (n <= length l)%nat ->
  let out := fold_left (shift_word_step l ws (length l)) (seq 0 n)
               (replicate (length l) 0) in
  length out = length l /\
  forall k, (k < length l)%nat ->
    out !!! k = if decide (ws <= k < n + ws)%nat then l !!! (k - ws)%nat else 0.
Proof.
  induction n as [|n IH]; intros Hn.
  - simpl. rewrite length_replicate. split; [done|]. intros k Hk.
    rewrite lookup_total_replicate_2 by done. by rewrite decide_False by lia.
  - destruct IH as [IHlen IHk]; [lia|].
    rewrite seq_S, fold_left_app, Nat.add_0_l. cbn [fold_left].
    set (o := fold_left _ _ _) in *. clearbody o.
    unfold shift_word_step. split; [case_decide; by rewrite ?length_insert|].
    intros k Hk. case_decide.
    + rewrite list_lookup_total_insert by lia. repeat case_decide; subst; try lia.
      * f_equal. lia.
      * by rewrite IHk, decide_True by lia.
      * by rewrite IHk, decide_False by lia.
    + rewrite IHk by done. repeat case_decide; lia || done.
Qed.

(** Position of bit [j - gap] relative to the position of bit [j]. *)
Lemma sub_div_mod j gap (d := gap / 64) (m := gap mod 64) :
  (m <= j mod 64 /\ (j - gap) / 64 = j / 64 - d /\ (j - gap) mod 64 = j mod 64 - m) \/
  (j mod 64 < m /\ (j - gap) / 64 = j / 64 - d - 1 /\
   (j - gap) mod 64 = j mod 64 + 64 - m).
Proof.
  pose proof (Z.div_mod gap 64 ltac:(lia)). pose proof (Z.mod_pos_bound gap 64 ltac:(lia)).
  pose proof (Z.div_mod j 64 ltac:(lia)). pose proof (Z.mod_pos_bound j 64 ltac:(lia)).
  subst d m.
  destruct (Z.le_gt_cases (gap mod 64) (j mod 64)); [left|right]; (split; [done|]).
  - split; symmetry.
    + apply (Z.div_unique_pos _ _ _ (j mod 64 - gap mod 64)); lia.
    + apply (Z.mod_unique_pos _ _ (j / 64 - gap / 64)); lia.
  - split; symmetry.
    + apply (Z.div_unique_pos _ _ _ (j mod 64 + 64 - gap mod 64)); lia.
    + apply (Z.mod_unique_pos _ _ (j / 64 - gap / 64 - 1)); lia.
Qed.

Lemma div_mod_64 j : j = 64 * (j / 64) + j mod 64 /\ 0 <= j mod 64 < 64.
Proof. split; [apply Z.div_mod|apply Z.mod_pos_bound]; lia. Qed.

Lemma words_ok_total (o : list Z) :
  (forall k, (k < length o)%nat -> 0 <= o !!! k < 2 ^ 64) -> words_ok o.
Proof.
  intros H. apply Forall_lookup. intros k w Hw.
  rewrite <- (list_lookup_total_correct _ _ _ Hw). apply H. by eapply lookup_lt_Some.
Qed.

Lemma getbit_words (o l : list Z) gap ws :
  Z.of_nat ws = gap / 64 -> gap mod 64 = 0 -> length o = length l ->
  (forall k, (k < length l)%nat ->
    o !!! k = if decide (ws <= k < length l + ws)%nat then l !!! (k - ws)%nat else 0) ->
  forall j, 0 <= j < 64 * zlen l -> getbit o j = (gap <=? j) && getbit l (j - gap).
Proof.
  intros Hws E0 Hlen Hk j Hj. unfold getbit, zlen in *.
  destruct (div_mod_64 j), (div_mod_64 gap).
  destruct (sub_div_mod j gap) as [(_ & -> & ->)|(? & _)]; [|lia].
  rewrite Hk by lia. case_decide; destruct (Z.leb_spec gap j); try lia.
  - simpl. f_equal; [f_equal|]; lia.
  - by rewrite Z.bits_0.
Qed.

Lemma getbit_bits (o l : list Z) gap ws :
  Z.of_nat ws = gap / 64 -> 0 < gap mod 64 -> words_ok l -> length o = length l ->
  (forall k, (k < length l)%nat ->
    o !!! k = Z.lor (lo_part l ws (gap mod 64) (length l) k)
                    (hi_part l ws (gap mod 64) (length l) k)) ->
  forall j, 0 <= j < 64 * zlen l -> getbit o j = (gap <=? j) && getbit l (j - gap).
Proof.
  intros Hws Hb Hl Hlen Hk j Hj. unfold getbit, zlen in *.
  destruct (div_mod_64 j), (div_mod_64 gap).
  rewrite Hk, Z.lor_spec by lia. unfold lo_part, hi_part.
  destruct (sub_div_mod j gap) as [(? & -> & ->)|(? & -> & ->)].
  - replace (Z.testbit (if decide _ then Z.shiftr _ _ else 0) (j mod 64)) with false; last first.
    { case_decide; [|by rewrite Z.bits_0].
      rewrite Z.shiftr_spec, testbit_high; [done|by apply words_ok_lookup|lia|lia]. }
    rewrite orb_false_r. case_decide; destruct (Z.leb_spec gap j); try lia.
    + rewrite u64_shl_bit, (proj2 (Z.leb_le _ _)) by lia. simpl. do 2 f_equal; lia.
    + by rewrite Z.bits_0.
  - replace (Z.testbit (if decide _ then u64_shl _ _ else 0) (j mod 64)) with false; last first.
    { case_decide; [|by rewrite Z.bits_0].
      by rewrite u64_shl_bit, (proj2 (Z.leb_gt _ _)) by lia. }
    rewrite orb_false_l. case_decide; destruct (Z.leb_spec gap j); try lia.
    + rewrite Z.shiftr_spec by lia. simpl. f_equal; [f_equal|]; lia.
    + by rewrite Z.bits_0.
Qed.

(** The shifted bitmap is the bitmap moved up by [gap] bits. *)
Lemma shift_down_spec l gap :
  words_ok l -> 0 < gap ->
  length (shift_down l gap) = length l /\ words_ok (shift_down l gap) /\
  forall j, 0 <= j < 64 * zlen l ->
    getbit (shift_down l gap) j = (gap <=? j) && getbit l (j - gap).
Proof.
  intros Hl Hgap. unfold shift_down.
  assert (Hws : Z.of_nat (Z.to_nat (gap / 64)) = gap / 64).
  { apply Z2Nat.id, Z.div_pos; lia. }
  pose proof (div_mod_64 gap) as [_ Hb].
  revert Hws. generalize (Z.to_nat (gap / 64)). intros ws Hws.
  destruct (Z.eqb_spec (gap mod 64) 0) as [E0|E0].
  - destruct (shift_word_loop l ws (length l) ltac:(lia)) as [Hlen Hk].
    split; [done|]. split; [|by eapply getbit_words].
    apply words_ok_total. intros k Hkl. rewrite Hk by lia.
    case_decide; [by apply words_ok_lookup|lia].
  - destruct (shift_bit_loop l ws (gap mod 64) (length l) ltac:(lia)) as [Hlen Hk].
    split; [done|]. split; [|eapply getbit_bits; [done|lia|done..]].
    apply words_ok_total. intros k Hkl. rewrite Hk by lia.
    unfold lo_part, hi_part. apply lor_bound; case_decide; try lia.
    + apply u64_shl_bound.
    + apply shiftr_bound; [lia|by apply words_ok_lookup].
Qed.

(** ** Refinement *)

(** The bitmap of [w] describes exactly the accepted numbers of the window. *)
Definition window_wf (w : ReplayWindow) : Prop :=
  size w = 64 * zlen (bits w) /\ 64 <= size w <= MAX_REPLAY_WINDOW_SIZE /\ words_ok (bits w).

Definition window_rel (depth : Z) (w : ReplayWindow) (sp : ReplaySpec) : Prop :=
  depth = size w /\ window_wf w /\ spec_wf sp /\ highest w = sp_highest sp /\
  forall i, 0 <= i < size w ->
    getbit (bits w) i = match highest w with
                        | Some h => bool_decide (h - 1 - i ∈ sp_seen sp)
                        | None => false
                        end.

Lemma getbit_zero l i :
  Forall (fun w => w = 0) l -> 0 <= i < 64 * zlen l -> getbit l i = false.
Proof.
  intros Hl Hi. unfold getbit. pose proof (div_mod_64 i).
  destruct (lookup_lt_is_Some_2 l (Z.to_nat (i / 64))) as [w E]; [unfold zlen in Hi; lia|].
  rewrite (list_lookup_total_correct _ _ _ E).
  eapply Forall_lookup_1 in Hl as ->; [|done]. apply Z.bits_0.
Qed.

Lemma zero_words l : Forall (fun w => w = 0) (map (fun _ : Z => 0) l).
Proof. by induction l; constructor. Qed.

Lemma zero_words_ok l : Forall (fun w => w = 0) l -> words_ok l.
Proof. intros. eapply Forall_impl; [done|]. intros ? ->. lia. Qed.

Lemma ReplayWindow_new_rel sz :
  0 <= sz -> window_rel (size (ReplayWindow_new sz)) (ReplayWindow_new sz) spec_empty.
Proof.
  intros Hsz. unfold ReplayWindow_new.
  set (s := Z.min _ _). assert (64 <= s <= 65536) by (unfold s, MAX_REPLAY_WINDOW_SIZE; lia).
  clearbody s. assert (1 <= div_ceil s 64 <= 1024).
  { unfold div_ceil. split; [apply Z.div_le_lower_bound|apply Z.lt_succ_r, Z.div_lt_upper_bound]; lia. }
  unfold window_rel, window_wf, MAX_REPLAY_WINDOW_SIZE; simpl.
  assert (Forall (fun w => w = 0) (zreplicate (div_ceil s 64) 0)) as Hz by (by apply Forall_replicate).
  split; [done|]. split; [split; [|split]|split; [done|split; [done|]]].
  - zl.
  - lia.
  - by apply zero_words_ok.
  - intros. apply getbit_zero; [done|zl].
Qed.

Lemma ReplayWindow_new_size sz : 64 <= size (ReplayWindow_new sz) <= 65536.
Proof.
  unfold ReplayWindow_new, div_ceil, MAX_REPLAY_WINDOW_SIZE. simpl.
  set (s := Z.min _ _). assert (64 <= s <= 65536) by (unfold s; lia). clearbody s.
  pose proof (Z.div_mod (s + 64 - 1) 64 ltac:(lia)). pose proof (Z.mod_pos_bound (s + 64 - 1) 64).
  lia.
Qed.

Lemma map_zlen {A B} (f : A -> B) l : zlen (map f l) = zlen l.
Proof. unfold zlen. by rewrite length_map. Qed.

(** The bitmap after the window moves up by [gap]. *)
Definition moved_bits (w : ReplayWindow) (gap : Z) : result (list Z) :=
  if size w <? gap then Ok (map (fun _ => 0) (bits w))
  else if gap =? size w then
    bits_or (map (fun _ => 0) (bits w)) (zlen (bits w) - 1) (Z.shiftl 1 63)
  else bits_or (shift_down (bits w) gap) ((gap - 1) / 64) (Z.shiftl 1 ((gap - 1) mod 64)).

Lemma moved_bits_spec w gap :
  window_wf w -> 0 < gap ->
  exists l', moved_bits w gap = Ok l' /\ zlen l' = zlen (bits w) /\ words_ok l' /\
    forall j, 0 <= j < size w ->
      getbit l' j = (j =? gap - 1) || ((gap <=? j) && getbit (bits w) (j - gap)).
Proof.
  intros (Hs & Hb & Hw) Hgap. unfold moved_bits.
  pose proof (zero_words (bits w)) as Hz. pose proof (zero_words_ok _ Hz).
  destruct (Z.ltb_spec (size w) gap); [|destruct (Z.eqb_spec gap (size w)) as [E|E]].
  - eexists. split; [done|]. rewrite map_zlen. split; [done|split; [done|]].
    intros j Hj. rewrite getbit_zero by (done || rewrite map_zlen; lia).
    by rewrite (proj2 (Z.eqb_neq _ _)), (proj2 (Z.leb_gt _ _)) by lia.
  - destruct (bits_or_spec (map (fun _ => 0) (bits w)) (size w - 1)) as (l' & Hl' & Hlen & Hok & Hbit);
      [done|rewrite map_zlen; lia|].
    replace ((size w - 1) / 64) with (zlen (bits w) - 1) in Hl' by (apply (Z.div_unique_pos _ _ _ 63); lia).
    replace ((size w - 1) mod 64) with 63 in Hl' by (apply (Z.mod_unique_pos _ _ (zlen (bits w) - 1)); lia).
    exists l'. rewrite map_zlen in Hlen. split; [done|split; [done|split; [done|]]].
    intros j Hj. rewrite Hbit, getbit_zero, E by (lia || done || rewrite map_zlen; lia).
    by rewrite (proj2 (Z.leb_gt (size w) j)) by lia.
  - destruct (shift_down_spec (bits w) gap Hw Hgap) as (Slen & Sok & Sbit).
    assert (zlen (shift_down (bits w) gap) = zlen (bits w)) as Sz by (unfold zlen; lia).
    destruct (bits_or_spec (shift_down (bits w) gap) (gap - 1)) as (l' & Hl' & Hlen & Hok & Hbit);
      [done|lia|].
    exists l'. split; [done|split; [lia|split; [done|]]].
    intros j Hj. rewrite Hbit, Sbit by lia. done.
Qed.

Lemma check_and_insert_above w h n :
  highest w = Some h -> h < n ->
  check_and_insert n w =
  rbind (moved_bits w (n - h)) (fun b => Ok (true, mkReplayWindow (Some n) b (size w))).
Proof. intros Hh Hn. unfold check_and_insert. by rewrite Hh, (proj2 (Z.ltb_lt _ _)) by lia. Qed.

(** Membership in the history of a number [i] below the new highest [n]. *)
Lemma seen_below n h i seen :
  h < n -> h ∈ seen -> (forall x, x ∈ seen -> x <= h) -> 0 <= i ->
  bool_decide (n - 1 - i ∈ ({[n]} ∪ seen : gset Z)) =
  (i =? n - h - 1) || ((n - h <=? i) && bool_decide (h - 1 - (i - (n - h)) ∈ seen)).
Proof.
  intros Hn Hh Hs Hi. replace (h - 1 - (i - (n - h))) with (n - 1 - i) by lia.
  rewrite (bool_decide_ext _ (n - 1 - i ∈ seen)) by (rewrite elem_of_union, elem_of_singleton; intuition lia).
  destruct (Z.eqb_spec i (n - h - 1)) as [->|].
  - apply bool_decide_eq_true. by replace (n - 1 - (n - h - 1)) with h by lia.
  - destruct (Z.leb_spec (n - h) i); [done|].
    apply bool_decide_eq_false. intros Hx%Hs. lia.
Qed.

Lemma check_and_insert_first d w sp n :
  window_rel d w sp -> highest w = None ->
  exists w', check_and_insert n w = Ok ((spec_accept d n sp).1, w') /\
             window_rel d w' (spec_accept d n sp).2.
Proof.
  intros (-> & Hwf & Hsp & Hhi & Hbit) Hnone.
  pose proof (spec_accept_wf (size w) n sp Hsp) as Hsp'.
  destruct sp as [hi seen]. simpl in Hhi, Hbit. rewrite Hnone in Hhi. subst hi.
  unfold check_and_insert. rewrite Hnone. eexists. split; [done|].
  unfold spec_accept, window_rel in *. simpl in *.
  split; [done|split; [done|split; [done|split; [done|]]]].
  intros i Hi. rewrite Hbit, Hnone by done. symmetry. apply bool_decide_eq_false.
  unfold spec_wf in Hsp. simpl in Hsp. subst. set_solver by lia.
Qed.

Lemma check_and_insert_newer d w sp n h :
  window_rel d w sp -> highest w = Some h -> h < n ->
  exists w', check_and_insert n w = Ok ((spec_accept d n sp).1, w') /\
             window_rel d w' (spec_accept d n sp).2.
Proof.
  intros (-> & Hwf & Hsp & Hhi & Hbit) Hsome Hn.
  pose proof (spec_accept_wf (size w) n sp Hsp) as Hsp'.
  destruct sp as [hi seen]. simpl in Hhi, Hbit. rewrite Hsome in Hhi. subst hi.
  destruct Hsp as [Hh Hs]. simpl in Hh, Hs.
  rewrite (check_and_insert_above _ h) by done.
  destruct (moved_bits_spec w (n - h) Hwf) as (l' & -> & Hlen & Hok & Hmoved); [lia|].
  unfold spec_accept in *. simpl in *. rewrite (proj2 (Z.ltb_lt _ _) Hn) in *.
  eexists. split; [done|]. unfold window_rel, window_wf in *. simpl.
  split; [done|split; [intuition lia|split; [done|split; [done|]]]].
  intros i Hi. rewrite Hmoved by lia. rewrite seen_below with (h := h) by (done || lia).
  destruct (Z.leb_spec (n - h) i); [|done]. rewrite Hbit, Hsome by lia. done.
Qed.

Lemma check_and_insert_older d w sp n h :
  window_rel d w sp -> highest w = Some h -> n <= h ->
  exists w', check_and_insert n w = Ok ((spec_accept d n sp).1, w') /\
             window_rel d w' (spec_accept d n sp).2.
Proof.
  intros (-> & Hwf & Hsp & Hhi & Hbit) Hsome Hn.
  pose proof (spec_accept_wf (size w) n sp Hsp) as Hsp'.
  destruct sp as [hi seen]. simpl in Hhi, Hbit. rewrite Hsome in Hhi. subst hi.
  pose proof Hsp as [Hh Hs]. simpl in Hh, Hs.
  unfold check_and_insert, spec_accept in *. rewrite Hsome. simpl in *.
  rewrite (proj2 (Z.ltb_ge _ _) Hn) in *.
  destruct (Z.eqb_spec (h - n) 0) as [E0|E0]; simpl.
  { replace n with h in * by lia.
    rewrite (bool_decide_eq_false_2 (h ∉ seen)), andb_false_r by set_solver. exists w. done. }
  destruct (Z.ltb_spec (size w) (h - n)) as [Hd|Hd].
  { rewrite (proj2 (Z.leb_gt _ _)) by lia. exists w. done. }
  rewrite (proj2 (Z.leb_le _ _)) in * by lia. simpl in *.
  destruct Hwf as (Hsz & Hb & Hw). pose proof (div_mod_64 (h - n - 1)) as [? ?].
  destruct (index_ok (bits w) ((h - n - 1) / 64)) as (old & Hold & Hlk); [lia|].
  rewrite Hold. simpl. rewrite mask_test by lia.
  assert (Z.testbit old ((h - n - 1) mod 64) = getbit (bits w) (h - n - 1)) as ->.
  { unfold getbit. by rewrite (list_lookup_total_correct _ _ _ Hlk). }
  rewrite Hbit, Hsome by lia. replace (h - 1 - (h - n - 1)) with n by lia.
  destruct (bool_decide_reflect (n ∈ seen)) as [Hin|Hin].
  { rewrite bool_decide_eq_false_2 in * by set_solver. exists w. done. }
  rewrite bool_decide_eq_true_2 in * by done.
  destruct (bits_or_spec (bits w) (h - n - 1)) as (l' & -> & Hlen & Hok & Hb'); [done|lia|].
  simpl in *. eexists. split; [done|]. unfold window_rel, window_wf. simpl.
  split; [done|split; [split; [lia|split; [lia|done]]|split; [done|split; [done|]]]].
  intros i Hi. rewrite Hb', Hbit, Hsome by lia.
  destruct (Z.eqb_spec i (h - n - 1)) as [->|]; simpl.
  - symmetry. apply bool_decide_eq_true. set_solver by lia.
  - apply bool_decide_ext. rewrite elem_of_union, elem_of_singleton. intuition lia.
Qed.

Lemma check_and_insert_refines d w sp n :
  window_rel d w sp ->
  exists w', check_and_insert n w = Ok ((spec_accept d n sp).1, w') /\
             window_rel d w' (spec_accept d n sp).2.
Proof.
  intros HR. destruct (highest w) as [h|] eqn:E; [|by apply check_and_insert_first].
  destruct (Z.lt_ge_cases h n).
  - by eapply check_and_insert_newer.
  - by eapply check_and_insert_older.
Qed.

(** The window as a total filter: the panic outcome is unreachable. *)
Definition window_accept (n : Z) (w : ReplayWindow) : bool * ReplayWindow :=
  match check_and_insert n w with Ok p => p | _ => (false, w) end.

#[export] Instance window_anti_replay : AntiReplay window_accept window_rel.
Proof.
  split; [by intros d s sp (_ & _ & ? & _)|]. intros d s sp n HR _.
  destruct (check_and_insert_refines d s sp n HR) as (w' & E & HR').
  unfold window_accept. by rewrite E.
Qed.

(** Feeding a sequence of numbers to the window, and to the specification. *)
Fixpoint window_run (ns : list Z) (w : ReplayWindow) : result (list bool * ReplayWindow) :=
  match ns with
  | [] => Ok ([], w)
  | n :: ns' =>
      let? '(b, w1) := check_and_insert n w in
      let? '(bs, w2) := window_run ns' w1 in
      Ok (b :: bs, w2)
  end.

Fixpoint spec_run (depth : Z) (ns : list Z) (sp : ReplaySpec) : list bool * ReplaySpec :=
  match ns with
  | [] => ([], sp)
  | n :: ns' =>
      let '(b, sp1) := spec_accept depth n sp in
      let '(bs, sp2) := spec_run depth ns' sp1 in
      (b :: bs, sp2)
  end.

Lemma window_run_refines d ns w sp :
  window_rel d w sp ->
  exists w', window_run ns w = Ok ((spec_run d ns sp).1, w') /\
             window_rel d w' (spec_run d ns sp).2.
Proof.
  revert w sp. induction ns as [|n ns IH]; intros w sp HR; simpl; [eauto|].
  destruct (check_and_insert_refines d w sp n HR) as (w1 & -> & HR1). simpl.
  destruct (spec_accept d n sp) as [b sp1]. simpl in *.
  destruct (IH w1 sp1 HR1) as (w2 & -> & HR2). simpl.
  destruct (spec_run d ns sp1) as [bs sp2]. eauto.
Qed.

(** Numbers that are pairwise distinct, each at most [d] behind every earlier
    one, are all accepted. *)
Definition in_window (d : Z) : list Z -> Prop :=
  StronglySorted (fun a b => a <> b /\ a - b <= d).

Lemma spec_run_all d ns sp :
  0 <= d -> spec_wf sp -> in_window d ns ->
  (forall x n, x ∈ sp_seen sp -> n ∈ ns -> x <> n /\ x - n <= d) ->
  (spec_run d ns sp).1 = map (fun _ => true) ns.
Proof.
  intros Hd. revert sp. induction ns as [|n ns IH]; intros sp Hwf Hs Hseen; [done|].
  apply StronglySorted_inv in Hs as [Hs Hn]. rewrite Forall_forall in Hn. simpl.
  assert ((spec_accept d n sp).1 = true) as Ha.
  { unfold spec_accept. destruct sp as [[h|] seen]; [|done]. simpl in *.
    destruct Hwf as [Hh Hmax]. simpl in *.
    destruct (Hseen h n Hh ltac:(set_solver)) as [? ?].
    destruct (Z.ltb_spec h n); [done|]. rewrite (proj2 (Z.leb_le _ _)) by lia.
    rewrite bool_decide_eq_true_2; [done|]. intros Hin.
    by destruct (Hseen n n Hin ltac:(set_solver)). }
  destruct (spec_accept_fresh d n sp Hwf Ha) as [_ Hseen'].
  pose proof (spec_accept_wf d n sp Hwf) as Hwf'.
  destruct (spec_accept d n sp) as [b sp1]. simpl in *. subst b.
  specialize (IH sp1 Hwf' Hs). destruct (spec_run d ns sp1) as [bs sp2]. simpl in *.
  rewrite IH; [done|]. intros x m. rewrite Hseen', elem_of_union, elem_of_singleton.
  intros [->|Hx] Hm; [by apply Hn|]. by apply Hseen; [|right].
Qed.

(** ** Properties *)

(** C9: the bitmap window refines the replay specification.  Whatever sequence
    of nonces arrives at a freshly created window, every call returns without
    an out-of-range panic, and the accept/reject decisions are those of the
    specification that remembers the whole history: accept every nonce above
    the highest, and an older one exactly when it is at most [size] behind and
    was never accepted. *)
Theorem replay_window_refines_history sz ns :
  0 <= sz ->
  exists w', window_run ns (ReplayWindow_new sz)
             = Ok ((spec_run (size (ReplayWindow_new sz)) ns spec_empty).1, w') /\
             highest w' = sp_highest (spec_run (size (ReplayWindow_new sz)) ns spec_empty).2.
Proof.
  intros Hsz. destruct (window_run_refines _ ns _ _ (ReplayWindow_new_rel sz Hsz))
    as (w' & -> & HR). exists w'. split; [done|]. by destruct HR as (_ & _ & _ & ? & _).
Qed.

Lemma replay_window_refines_history_witness :
  exists w', window_run [5; 3; 5; 200; 100; 136; 136] (ReplayWindow_new 64)
             = Ok ([true; true; false; true; false; true; false], w').
Proof.
  destruct (replay_window_refines_history 64 [5; 3; 5; 200; 100; 136; 136] ltac:(lia))
    as (w' & H & _).
  exists w'. exact H.
Defined.

(** No nonce is accepted twice by a replay window, over any sequence of
    64-bit nonces and any requested width. *)
Theorem replay_window_never_accepts_twice sz ns :
  0 <= sz -> Forall (fun n => 0 <= n <= u64_max) ns ->
  NoDup (accepted window_accept ns (ReplayWindow_new sz)).
Proof.
  intros Hsz Hns.
  exact (proj1 (accepted_fresh _ ns _ _ (ReplayWindow_new_rel sz Hsz) Hns)).
Qed.

Lemma replay_window_never_accepts_twice_witness :
  NoDup (accepted window_accept [7; 9; 7; 8; 9; 8] (ReplayWindow_new 64)).
Proof.
  apply (replay_window_never_accepts_twice 64 [7; 9; 7; 8; 9; 8]); [lia|].
  repeat constructor; unfold u64_max; lia.
Defined.
