(* ===== verification/Stealth.v ===== *)
(** Traffic-shaping profiles (shph-core/src/stealth.rs): the record of a
    Shroud profile with its validity predicate, the built-in profiles and
    their lookup by name and by user selection.  Durations are nanoseconds. *)
From S2P Require Import Prelude Error Text.

Definition from_millis (ms : Z) : Z := ms * 1000000.
Definition from_secs (s : Z) : Z := s * 1000000000.

Record ShroudProfile := mkShroudProfile {
  shroud_name : string;
  cell_size : Z;
  send_interval : Z;
  chaff_interval : Z;
  max_payload_chunk : Z;
  deterministic_padding : bool;
  adaptive_chunking : bool
}.

#[export] Instance ShroudProfile_eq_dec : EqDecision ShroudProfile.
Proof. solve_decision. Defined.

Definition payload_capacity (p : ShroudProfile) : Z := saturating_sub (cell_size p) 5.

Definition is_tuned (p : ShroudProfile) : bool :=
  bool_decide (shroud_name p ∈ ["tuned-low"; "tuned-medium"; "tuned-high"]).

Definition shroud_is_valid (p : ShroudProfile) : bool :=
  (64 <=? cell_size p)
  && (cell_size p <=? 16 * 1024)
  && (0 <? max_payload_chunk p)
  && (max_payload_chunk p <=? payload_capacity p)
  && negb (send_interval p =? 0)
  && negb (chaff_interval p =? 0).

Definition BALANCED : ShroudProfile :=
  mkShroudProfile "balanced" 1024 (from_millis 25) (from_millis 250) 768 true true.
Definition LOW_LATENCY : ShroudProfile :=
  mkShroudProfile "low-latency" 512 (from_millis 5) (from_millis 100) 384 true true.
Definition BULK : ShroudProfile :=
  mkShroudProfile "bulk" 4096 (from_millis 10) (from_millis 500) 3072 true true.
Definition RANDOMIZED_LAB : ShroudProfile :=
  mkShroudProfile "randomized-lab" 1024 (from_millis 25) (from_millis 250) 768 false true.
Definition EXTREME_LAB : ShroudProfile :=
  mkShroudProfile "extreme-lab" 8192 (from_millis 20) (from_secs 1) 6144 false true.
Definition TUNED_LOW : ShroudProfile :=
  mkShroudProfile "tuned-low" 256 (from_millis 3) (from_millis 150) 192 false true.
Definition TUNED_MEDIUM : ShroudProfile :=
  mkShroudProfile "tuned-medium" 768 (from_millis 10) (from_millis 350) 700 false true.
Definition TUNED_HIGH : ShroudProfile :=
  mkShroudProfile "tuned-high" 1360 (from_millis 5) (from_millis 500) 1200 false true.

Inductive TlsCamouflage := Balanced | BrowserBlend | Http11Favor | BrowserStrict | H3Camouflage.
Inductive ChunkDistribution := Uniform | FrontLoaded | TailLoaded.

Record MorphProfile := mkMorphProfile {
  chunk_distribution : ChunkDistribution;
  padding_probability_pct : Z;
  burst_probability_pct : Z;
  idle_chaff_probability_pct : Z;
  cell_size_classes : list Z
}.

Record StealthProfile := mkStealthProfile {
  stealth_name : string;
  tls_camouflage : TlsCamouflage;
  handshake_jitter_floor : Z;
  handshake_jitter_ceil : Z;
  morph : MorphProfile;
  quic_candidate : bool
}.

Definition STEADY : StealthProfile :=
  mkStealthProfile "steady" Balanced (from_millis 5) (from_millis 40)
    (mkMorphProfile Uniform 18 22 35 [1024; 1280]) false.
Definition CAMOUFLAGE : StealthProfile :=
  mkStealthProfile "camouflage" BrowserBlend (from_millis 12) (from_millis 90)
    (mkMorphProfile FrontLoaded 30 38 45 [768; 1024; 1280]) true.
Definition MIMICRY_LAB : StealthProfile :=
  mkStealthProfile "mimicry-lab" Http11Favor (from_millis 20) (from_millis 140)
    (mkMorphProfile TailLoaded 44 53 58 [512; 768; 1024; 1536]) true.

Definition profiles : list ShroudProfile :=
  [BALANCED; LOW_LATENCY; BULK; RANDOMIZED_LAB; EXTREME_LAB; TUNED_LOW; TUNED_MEDIUM; TUNED_HIGH].

Definition stealth_profiles : list StealthProfile := [STEADY; CAMOUFLAGE; MIMICRY_LAB].

Definition shroud_profile_by_name (name : string) : option ShroudProfile :=
  find (fun p => bool_decide (shroud_name p = name)) profiles.

Definition shroud_profile_by_selection (name : string) : option (option ShroudProfile) :=
  let s := to_ascii_lowercase (trim name) in
  let among l := bool_decide (s ∈ (l : list string)) in
  if among ["off"; "none"; "disabled"] then Some None
  else if among ["low"; "low-latency"] then Some (Some LOW_LATENCY)
  else if among ["medium"; "balanced"] then Some (Some BALANCED)
  else if among ["high"; "bulk"] then Some (Some BULK)
  else if among ["extreme"; "extreme-lab"] then Some (Some EXTREME_LAB)
  else if among ["randomized-lab"] then Some (Some RANDOMIZED_LAB)
  else if among ["tuned"; "optimized"; "tuned-medium"; "optimized-medium"] then Some (Some TUNED_MEDIUM)
  else if among ["tuned-low"; "optimized-low"] then Some (Some TUNED_LOW)
  else if among ["tuned-high"; "optimized-high"] then Some (Some TUNED_HIGH)
  else None.

Definition stealth_profile_by_name (name : string) : option StealthProfile :=
  find (fun p => bool_decide (stealth_name p = name)) stealth_profiles.

(** ** Lemmas *)

Lemma shroud_valid_bounds p :
  shroud_is_valid p = true ->
  64 <= cell_size p <= 16384 /\ payload_capacity p = cell_size p - 5 /\
  0 < max_payload_chunk p <= payload_capacity p.
Proof.
  unfold shroud_is_valid, payload_capacity, saturating_sub. intros H. bool_prop. lia.
Qed.

Lemma profiles_valid : Forall (fun p => shroud_is_valid p = true) profiles.
Proof. by_compute. Qed.

Lemma find_by_name_in n p : shroud_profile_by_name n = Some p -> p ∈ profiles /\ shroud_name p = n.
Proof.
  intros [Hin Hn]%find_some. apply list_elem_of_In in Hin. bool_prop. done.
Qed.

(** Each built-in profile is found under its own name: names are unique. *)
Lemma profile_names_unique : Forall (fun p => shroud_profile_by_name (shroud_name p) = Some p) profiles.
Proof. by_compute. Qed.

(** ** Properties *)

(** Every profile a user can obtain, by exact name or by a free-form
    selection string, is one of the built-in profiles, is valid, and is found
    again under its own name; and the profile names are themselves accepted
    selections that give the same profile. *)
Theorem selected_profiles_valid :
  (forall s p, shroud_profile_by_name s = Some p \/ shroud_profile_by_selection s = Some (Some p) ->
     p ∈ profiles /\ shroud_is_valid p = true /\ shroud_profile_by_name (shroud_name p) = Some p) /\
  Forall (fun p => shroud_profile_by_selection (shroud_name p) = Some (Some p)) profiles.
Proof.
  split; [|by_compute]. intros s p Hp.
  assert (p ∈ profiles) as Hin.
  { destruct Hp as [[Hp _]%find_by_name_in|Hp]; [done|].
    unfold shroud_profile_by_selection in Hp. cbv zeta beta in Hp.
    repeat case_if; injection Hp as <-; by_compute. }
  split; [done|].
  pose proof profiles_valid as V. pose proof profile_names_unique as U.
  rewrite Forall_forall in V, U. by split; [apply V|apply U].
Qed.
