(* ===== verification/Framing.v ===== *)
(** Shroud cells (shph-core/src/framing.rs): fixed-size cells with a two-byte
    header, a type, a 16-bit length, the payload and zero padding. *)
From S2P Require Import Prelude Error Stealth.

Definition SHROUD_FRAME_HEADER : bytes := str_bytes "SD".
Definition SHROUD_FRAME_DATA : Z := 1.
Definition SHROUD_FRAME_CHAFF : Z := 2.

(** [ShroudCell::new]: the cell's bytes. *)
Definition ShroudCell_new (profile : ShroudProfile) (frame_type : Z) (payload : bytes)
  : result bytes :=
  if negb (shroud_is_valid profile) then Err (Protocol "invalid cell size")
  else if negb ((frame_type =? SHROUD_FRAME_DATA) || (frame_type =? SHROUD_FRAME_CHAFF))
  then Err (Protocol "unsupported frame type")
  else if payload_capacity profile <? zlen payload
  then Err (Protocol "payload exceeds cell capacity")
  else
    let cell := SHROUD_FRAME_HEADER ++ [frame_type] ++ be_bytes 2 (cast 16 (zlen payload))
                ++ payload in
    Ok (resize cell (cell_size profile) 0).

Definition encode_cell (profile : ShroudProfile) (frame_type : Z) (payload : bytes)
  : result bytes := ShroudCell_new profile frame_type payload.

Definition encode_data_cell (profile : ShroudProfile) (payload : bytes) : result bytes :=
  if max_payload_chunk profile <? zlen payload
  then Err (Protocol "payload exceeds profile capacity")
  else encode_cell profile SHROUD_FRAME_DATA payload.

Definition encode_chaff_cell (profile : ShroudProfile) (payload : bytes) : result bytes :=
  encode_cell profile SHROUD_FRAME_CHAFF payload.

Definition decode_cell_payload (profile : ShroudProfile) (cell : bytes) : result (option bytes) :=
  if negb (shroud_is_valid profile) then Err (Protocol "invalid cell size")
  else if negb (zlen cell =? cell_size profile) then Err (Protocol "cell size mismatch")
  else
    let? header := slice cell 0 2 in
    if negb (bytes_eqb header SHROUD_FRAME_HEADER) then Err (Protocol "frame header mismatch")
    else
      let? frame_type := index cell 2 in
      let? b3 := index cell 3 in
      let? b4 := index cell 4 in
      let payload_len := be_val [b3; b4] in
      if payload_capacity profile <? payload_len
      then Err (Protocol "payload length exceeds cell capacity")
      else
        let? padding := slice_from cell (5 + payload_len) in
        if existsb (fun b => negb (b =? 0)) padding
        then Err (Protocol "non-canonical cell padding")
        else if frame_type =? SHROUD_FRAME_DATA then
          let? payload := slice cell 5 (5 + payload_len) in Ok (Some payload)
        else if frame_type =? SHROUD_FRAME_CHAFF then Ok None
        else Err (Protocol "unsupported frame type").

(** [decode_cell] copies the borrowed payload. *)
Definition decode_cell (profile : ShroudProfile) (cell : bytes) : result (option bytes) :=
  decode_cell_payload profile cell.

(** ** Lemmas *)

(** The layout of a cell: what [encode_cell] writes. *)
Definition cell_layout (profile : ShroudProfile) (frame_type : Z) (payload : bytes) : bytes :=
  [83; 68] ++ [frame_type] ++ be_bytes 2 (zlen payload) ++ payload
  ++ zreplicate (cell_size profile - 5 - zlen payload) 0.

Lemma resize_pad {A} (l : list A) n x : zlen l <= n -> resize l n x = l ++ zreplicate (n - zlen l) x.
Proof. intros. unfold resize. by rewrite ztake_all. Qed.

Lemma encode_cell_ok profile frame_type payload cell :
  encode_cell profile frame_type payload = Ok cell <->
  shroud_is_valid profile = true /\
  (frame_type = SHROUD_FRAME_DATA \/ frame_type = SHROUD_FRAME_CHAFF) /\
  zlen payload <= payload_capacity profile /\
  cell = cell_layout profile frame_type payload.
Proof.
  unfold encode_cell, ShroudCell_new.
  destruct (shroud_is_valid profile) eqn:Hv; cbn [negb]; [|intuition congruence].
  pose proof (shroud_valid_bounds _ Hv) as (Hc & Hcap & _).
  destruct (_ || _) eqn:Ht; cbn [negb]; bool_prop.
  2: { split; [done|]. intros (_ & [?|?] & _); lia. }
  assert (frame_type = SHROUD_FRAME_DATA \/ frame_type = SHROUD_FRAME_CHAFF) as Hf.
  { apply orb_true_iff in Ht as [?|?]; bool_prop; auto. }
  destruct (Z.ltb_spec (payload_capacity profile) (zlen payload)); [intuition (congruence || lia)|].
  assert (resize (SHROUD_FRAME_HEADER ++ [frame_type] ++ be_bytes 2 (cast 16 (zlen payload))
                ++ payload) (cell_size profile) 0 = cell_layout profile frame_type payload) as Hl.
  { rewrite resize_pad by (change SHROUD_FRAME_HEADER with [83; 68]; zl).
    unfold cell_layout, cast. change SHROUD_FRAME_HEADER with [83; 68].
    rewrite Z.mod_small by zl. rewrite <- !app_assoc. do 5 f_equal. zl. }
  cbv zeta. rewrite Hl. intuition congruence.
Qed.

Lemma zlen_cell_layout profile frame_type payload :
  64 <= cell_size profile -> zlen payload <= cell_size profile - 5 ->
  zlen (cell_layout profile frame_type payload) = cell_size profile.
Proof. intros. unfold cell_layout. zl. Qed.


Lemma existsb_zero n : existsb (fun b => negb (b =? 0)) (zreplicate n 0) = false.
Proof. unfold zreplicate. induction (Z.to_nat n); done. Qed.

Lemma existsb_nonzero l :
  existsb (fun b => negb (b =? 0)) l = false -> l = zreplicate (zlen l) 0.
Proof.
  intros H. unfold zreplicate, zlen. rewrite Nat2Z.id.
  induction l as [|b l IH]; simpl in *; [done|].
  bool_prop. subst. f_equal. auto.
Qed.

Lemma decode_layout profile frame_type payload :
  shroud_is_valid profile = true -> zlen payload <= payload_capacity profile ->
  frame_type = SHROUD_FRAME_DATA \/ frame_type = SHROUD_FRAME_CHAFF ->
  decode_cell profile (cell_layout profile frame_type payload)
  = Ok (if frame_type =? SHROUD_FRAME_DATA then Some payload else None).
Proof.
  intros Hv Hp Hf. pose proof (shroud_valid_bounds _ Hv) as (Hc & Hcap & _).
  unfold decode_cell, decode_cell_payload. rewrite Hv. cbn [negb]; cbv iota.
  rewrite zlen_cell_layout, Z.eqb_refl by lia. cbn [negb]; cbv iota.
  assert (0 <= zlen payload < 65536) as (a & b & Hab & Hval)%be_bytes_2 by zl.
  unfold cell_layout. rewrite Hab.
  set (pad := zreplicate _ _).
  change ([83; 68] ++ [frame_type] ++ [a; b] ++ payload ++ pad)
    with ([83; 68; frame_type; a; b] ++ payload ++ pad).
  change ([83; 68; frame_type; a; b] ++ payload ++ pad)
    with ([] ++ [83; 68] ++ ([frame_type; a; b] ++ payload ++ pad)) at 1.
  rewrite slice_app by done. cbn [rbind bytes_eqb]. rewrite bytes_eqb_refl. cbn [negb]; cbv iota.
  idx. rewrite Hval.
  rewrite (proj2 (Z.ltb_ge _ _)) by lia.
  change (83 :: 68 :: frame_type :: a :: b :: payload ++ pad)
    with ([83; 68; frame_type; a; b] ++ payload ++ pad).
  rewrite slice_from_ok by zl. cbn [rbind].
  rewrite app_assoc, zdrop_app by zl. unfold pad at 1. rewrite existsb_zero.
  rewrite <- app_assoc, slice_app by (done || lia). simpl.
  by destruct Hf as [-> | ->].
Qed.


(** A cell that decodes has the layout of its payload. *)
Lemma decode_inv profile cell o :
  bytes_ok cell -> decode_cell profile cell = Ok o ->
  exists frame_type payload,
    shroud_is_valid profile = true /\
    (frame_type = SHROUD_FRAME_DATA \/ frame_type = SHROUD_FRAME_CHAFF) /\
    zlen payload <= payload_capacity profile /\
    cell = cell_layout profile frame_type payload.
Proof.
  intros Hb. unfold decode_cell, decode_cell_payload.
  destruct (shroud_is_valid profile) eqn:Hv; [|done].
  destruct (zlen cell =? cell_size profile) eqn:Hlen; [|done].
  cbn [negb]; cbv iota. bool_prop.
  pose proof (shroud_valid_bounds _ Hv) as (Hc & Hcap & _).
  destruct (list_5 cell) as (c0 & c1 & ft & a & b & r & ->); [lia|].
  assert (bytes_ok [a; b]) as Hab
    by (by apply (bytes_ok_app [c0; c1; ft]), proj2, (bytes_ok_app [a; b]), proj1 in Hb).
  change ([c0; c1; ft; a; b] ++ r) with ([] ++ [c0; c1] ++ ([ft; a; b] ++ r)) at 1.
  rewrite slice_app by done. cbn [rbind].
  destruct (bytes_eqb _ _) eqn:Hh; [|done]. bool_prop. change SHROUD_FRAME_HEADER with [83; 68] in Hh.
  assert (c0 = 83 /\ c1 = 68) as [-> ->] by (by injection Hh).
  cbn [negb]; cbv iota. idx. case_if; [done|]. bool_prop.
  pose proof (be_val_bound _ Hab) as Hn. simpl in Hn. set (n := be_val [a; b]) in *.
  change (83 :: 68 :: ft :: a :: b :: r) with ([83; 68; ft; a; b] ++ r).
  rewrite slice_from_ok by zl. cbn [rbind].
  destruct (existsb _ _) eqn:Hz0; [done|]. apply existsb_nonzero in Hz0. intros Hr.
  exists ft, (ztake n r).
  assert (zlen (ztake n r) = n) as Hz by zl.
  split; [done|split; [|split; [lia|]]].
  { repeat case_if; bool_prop; auto. }
  unfold cell_layout. rewrite Hz.
  rewrite <- (be_bytes_be_val [a; b] Hab) in |- *. fold n. simpl length.
  rewrite (ltac:(rewrite <- zdrop_zdrop by lia; f_equal; by rewrite zdrop_app) :
    zdrop (5 + n) ([83; 68; ft; a; b] ++ r) = zdrop n r) in Hz0.
  replace (cell_size profile - 5 - n) with (zlen (zdrop n r)) by zl.
  rewrite <- Hz0, ztake_zdrop. done.
Qed.

Lemma decode_cell_no_panic profile cell : bytes_ok cell -> no_panic (decode_cell profile cell).
Proof.
  intros Hb. unfold decode_cell, decode_cell_payload, no_panic.
  destruct (shroud_is_valid profile) eqn:Hv; [|done].
  destruct (zlen cell =? cell_size profile) eqn:Hlen; [|done].
  cbn [negb]; cbv iota. bool_prop.
  pose proof (shroud_valid_bounds _ Hv) as (Hc & Hcap & _).
  destruct (list_5 cell) as (c0 & c1 & ft & a & b & r & ->); [lia|].
  assert (bytes_ok [a; b]) as Hab
    by (by apply (bytes_ok_app [c0; c1; ft]), proj2, (bytes_ok_app [a; b]), proj1 in Hb).
  rewrite slice_ok by zl. cbn [rbind]. case_if; [done|].
  idx. case_if; [done|]. bool_prop.
  pose proof (be_val_bound _ Hab) as Hn. simpl in Hn. set (n := be_val [a; b]) in *.
  change (c0 :: c1 :: ft :: a :: b :: r) with ([c0; c1; ft; a; b] ++ r).
  rewrite slice_from_ok, slice_ok by zl. simpl. by repeat case_if.
Qed.

(** Decoding any bytes: no panic, and a payload of bytes. *)
Lemma decode_cell_payload_any profile cell :
  bytes_ok cell ->
  no_panic (decode_cell_payload profile cell) /\
  forall p, decode_cell_payload profile cell = Ok (Some p) -> bytes_ok p.
Proof.
  intros Hb. split; [by apply decode_cell_no_panic|]. intros p E. pose proof E as E'.
  apply decode_inv in E' as (ft & payload & Hv & Hf & Hl & ->); [|done].
  change (decode_cell profile (cell_layout profile ft payload) = Ok (Some p)) in E.
  rewrite decode_layout in E by done. case_if. injection E as <-.
  unfold cell_layout in Hb. rewrite !bytes_ok_app in Hb. tauto.
Qed.

(** ** Properties *)

(** C11: decoding is the exact inverse of encoding, for every profile and every
    received byte string: a cell decodes to a payload exactly when it is the
    encoding of that payload as data, decodes to "chaff" exactly when it is the
    encoding of some chaff, everything else is rejected with an error, and no
    input makes the decoder panic.  In particular a cell has one payload and
    one padding. *)
Theorem decode_cell_exact profile cell :
  bytes_ok cell ->
  (forall payload, decode_cell profile cell = Ok (Some payload) <->
     encode_cell profile SHROUD_FRAME_DATA payload = Ok cell) /\
  (decode_cell profile cell = Ok None <->
     exists payload, encode_chaff_cell profile payload = Ok cell) /\
  no_panic (decode_cell profile cell).
Proof.
  intros Hb. split; [|split; [|by apply decode_cell_no_panic]].
  - intros payload. rewrite encode_cell_ok. split.
    + intros Hd. pose proof Hd as (ft & pl & Hv & Hf & Hp & ->)%decode_inv; [|done].
      rewrite decode_layout in Hd by done.
      destruct Hf as [-> | ->]; simpl in Hd; [|done]. injection Hd as ->. auto.
    + intros (Hv & Hf & Hp & ->). by rewrite decode_layout.
  - unfold encode_chaff_cell. setoid_rewrite encode_cell_ok. split.
    + intros Hd. pose proof Hd as (ft & pl & Hv & Hf & Hp & ->)%decode_inv; [|done].
      rewrite decode_layout in Hd by done.
      destruct Hf as [-> | ->]; simpl in Hd; [done|]. eauto 6.
    + intros (pl & Hv & Hf & Hp & ->). by rewrite decode_layout.
Qed.

Lemma decode_cell_exact_witness :
  decode_cell LOW_LATENCY ([83; 68; 1; 0; 3; 7; 8; 9] ++ zreplicate 504 0) = Ok (Some [7; 8; 9]).
Proof.
  destruct (decode_cell_exact LOW_LATENCY ([83; 68; 1; 0; 3; 7; 8; 9] ++ zreplicate 504 0))
    as (H & _ & _).
  - apply bytes_ok_app. split; [repeat constructor; done|apply Forall_replicate; done].
  - apply H. reflexivity.
Defined.
