(* ===== verification/SessionCrypto.v ===== *)
(** Session cryptography (shph-core/src/crypto.rs): identity key pairs,
    constant-time comparison, HKDF with its two buffer strategies, the sending
    cipher with its nonce counter and limit, and the receiving cipher with its
    two anti-replay modes, which both implement the [AntiReplay] interface. *)
From stdpp Require Import gmap.
From Stdlib Require Import Sorted.
From S2P Require Import Prelude Error Text Primitives Replay.

(** ** Constant-time comparison *)

Definition constant_time_eq (a b : bytes) : bool :=
  if negb (zlen a =? zlen b) then
    (* the walk over the longer input computes a value that is dropped *)
    let longest := if zlen b <? zlen a then a else b in
    let _sink := fold_left Z.lor longest 0 in
    false
  else fold_left (fun diff '(x, y) => Z.lor diff (Z.lxor x y)) (zip a b) 0 =? 0.

Lemma lor_fold_zero (l : list (Z * Z)) d :
  fold_left (fun diff '(x, y) => Z.lor diff (Z.lxor x y)) l d = 0 <->
  d = 0 /\ Forall (fun p => p.1 = p.2) l.
Proof.
  revert d. induction l as [|[x y] l IH]; intros d; simpl; [intuition|].
  rewrite IH, Z.lor_eq_0_iff, Z.lxor_eq_0_iff, Forall_cons. intuition.
Qed.

Lemma zip_equal (a b : bytes) :
  length a = length b -> Forall (fun p => p.1 = p.2) (zip a b) <-> a = b.
Proof.
  revert b. induction a as [|x a IH]; intros [|y b] Hl; simpl in *; try done.
  rewrite Forall_cons, IH by lia. simpl. split; [intros [-> ->]|intros [= -> ->]]; done.
Qed.

Lemma constant_time_eq_spec a b : constant_time_eq a b = true <-> a = b.
Proof.
  unfold constant_time_eq. destruct (Z.eqb_spec (zlen a) (zlen b)) as [Hl|Hl]; cbn [negb]; cbv iota.
  - rewrite Z.eqb_eq, lor_fold_zero, zip_equal by (unfold zlen in Hl; lia). intuition.
  - split; [done|]. by intros ->.
Qed.

(** ** HKDF *)

Definition MAX_HKDF_OUTPUT_BYTES : Z := 255 * 32.
Definition MAX_HKDF_CONTEXT_BYTES : Z := 256 * 1024.
Definition STACK_SALT_BYTES : Z := 256.

Section Hkdf.
Context `{HashOps}.

(** [info.iter().try_fold(0, |total, part| total.checked_add(part.len()))] *)
Fixpoint salt_total (info : list bytes) (total : Z) : option Z :=
  match info with
  | [] => Some total
  | part :: rest =>
      match checked_add usize_max total (zlen part) with
      | Some t => salt_total rest t
      | None => None
      end
  end.

(** The loop that copies the parts into the fixed salt buffer. *)
Fixpoint fill_salt (info : list bytes) (salt : bytes) (offset : Z) : result bytes :=
  match info with
  | [] => Ok salt
  | part :: rest =>
      let? salt := copy_into salt offset (offset + zlen part) part in
      fill_salt rest salt (offset + zlen part)
  end.

Definition hkdf_expand_into (salt input_key : bytes) (output_len : Z) : result bytes :=
  ok_or (hkdf_expand salt input_key output_len) (Crypto hkdf_error_text).

(** The output buffer is represented by its length, the bytes written to it by
    the returned value. *)
Definition hkdf_sha256_into (input_key : bytes) (info : list bytes) (output_len : Z)
  : result bytes :=
  if MAX_HKDF_OUTPUT_BYTES <? output_len
  then Err (Crypto "HKDF output exceeds the SHA-256 expansion limit")
  else
    let? salt_len := ok_or (salt_total info 0) (Crypto "HKDF context length overflow") in
    if MAX_HKDF_CONTEXT_BYTES <? salt_len
    then Err (Crypto "HKDF context exceeds the 256 KiB safety limit")
    else if salt_len <=? STACK_SALT_BYTES then
      let? salt := fill_salt info (zreplicate STACK_SALT_BYTES 0) 0 in
      let? used := slice salt 0 salt_len in
      hkdf_expand_into used input_key output_len
    else
      let salt := fold_left (fun salt part => salt ++ part) info [] in
      hkdf_expand_into salt input_key output_len.

Definition hkdf_sha256 (input_key : bytes) (info : list bytes) (output_len : Z) : result bytes :=
  if MAX_HKDF_OUTPUT_BYTES <? output_len
  then Err (Crypto "HKDF output exceeds the SHA-256 expansion limit")
  else hkdf_sha256_into input_key info output_len.

Lemma salt_total_ok info total :
  0 <= total -> total + zlen (concat info) <= usize_max ->
  salt_total info total = Some (total + zlen (concat info)).
Proof.
  revert total. induction info as [|p info IH]; intros total Ht Hb; simpl in *;
    [by rewrite zlen_nil, Z.add_0_r|].
  rewrite zlen_app in *. unfold checked_add.
  pose proof (zlen_nonneg p). pose proof (zlen_nonneg (concat info)).
  rewrite (proj2 (Z.leb_le _ _)) by lia. rewrite IH by lia. f_equal. lia.
Qed.

Lemma fill_salt_ok info pre rest :
  zlen (concat info) <= zlen rest ->
  fill_salt info (pre ++ rest) (zlen pre)
  = Ok (pre ++ concat info ++ zdrop (zlen (concat info)) rest).
Proof.
  revert pre rest. induction info as [|p info IH]; intros pre rest Hr; simpl in *.
  - by rewrite zlen_nil, zdrop_0.
  - rewrite zlen_app in Hr. pose proof (zlen_nonneg p). pose proof (zlen_nonneg (concat info)).
    rewrite copy_into_app by (done || lia). simpl.
    replace (zlen pre + zlen p - zlen pre) with (zlen p) by lia.
    rewrite app_assoc. rewrite <- zlen_app, IH by zl.
    rewrite <- !app_assoc, zlen_app. by rewrite zdrop_zdrop by lia.
Qed.

Lemma concat_fold (info : list bytes) acc :
  fold_left (fun salt part => salt ++ part) info acc = acc ++ concat info.
Proof.
  revert acc. induction info as [|p info IH]; intros acc; simpl; [by rewrite app_nil_r|].
  by rewrite IH, app_assoc.
Qed.

(** Whatever the buffer used, the salt is the concatenation of the parts. *)
Lemma hkdf_into_spec key info n :
  n <= MAX_HKDF_OUTPUT_BYTES -> zlen (concat info) <= MAX_HKDF_CONTEXT_BYTES ->
  hkdf_sha256_into key info n = hkdf_expand_into (concat info) key n.
Proof.
  intros Hn Hc. unfold hkdf_sha256_into. rewrite (proj2 (Z.ltb_ge _ _)) by lia.
  pose proof (zlen_nonneg (concat info)).
  rewrite salt_total_ok, Z.add_0_l by (unfold MAX_HKDF_CONTEXT_BYTES, usize_max, u64_max in *; lia).
  cbn [ok_or rbind]. rewrite (proj2 (Z.ltb_ge _ _)) by lia.
  case_if; [|by rewrite concat_fold]. bool_prop. unfold STACK_SALT_BYTES in *.
  pose proof (fill_salt_ok info [] (zreplicate 256 0)) as E.
  rewrite zlen_zreplicate in E. specialize (E ltac:(lia)).
  change (zlen (@nil Z)) with 0 in E. rewrite !app_nil_l in E. rewrite E. cbn [rbind].
  rewrite slice_ok by zl. cbn [rbind]. by rewrite zdrop_0, Z.sub_0_r, ztake_app.
Qed.

Lemma hkdf_into_long key info n :
  MAX_HKDF_CONTEXT_BYTES < zlen (concat info) <= usize_max -> n <= MAX_HKDF_OUTPUT_BYTES ->
  hkdf_sha256_into key info n = Err (Crypto "HKDF context exceeds the 256 KiB safety limit").
Proof.
  intros Hc Hn. unfold hkdf_sha256_into. rewrite (proj2 (Z.ltb_ge _ _)) by lia.
  rewrite salt_total_ok, Z.add_0_l by lia. cbn [ok_or rbind].
  by rewrite (proj2 (Z.ltb_lt _ _)) by lia.
Qed.
End Hkdf.

(** ** Identity key pairs *)

Record IdentityKeyPair := mkIdentityKeyPair {
  private : bytes;
  public : bytes;
  signing_public : bytes;
  sign_seed : bytes
}.

Section Identity.
Context `{HashOps, KexOps}.

(** compute_fingerprint_hex of keystore.rs *)
Definition compute_fingerprint_hex (public_key_raw : bytes) : string :=
  hex_encode (sha256 (str_bytes "shph-fingerprint-v1" ++ public_key_raw)).

Definition from_seeds (dh_seed sign_seed : bytes) : IdentityKeyPair :=
  {| private := dh_seed; public := x25519_public dh_seed;
     signing_public := ed25519_public sign_seed; sign_seed := sign_seed |}.

Definition from_private_key (private_bytes : bytes) : IdentityKeyPair :=
  from_seeds private_bytes private_bytes.

(** [SystemRandom::fill], with the conversion of ring's error. *)
Definition sys_fill {R} `{RngOps R} (n : Z) (r : R) : result bytes * R :=
  let '(o, r) := rng_fill n r in (ok_or o (Crypto "ring operation failed"), r).

Definition generate {R} `{RngOps R} (r : R) : result IdentityKeyPair * R :=
  let! private_bytes, r := sys_fill 32 r in
  let! sign_seed, r := sys_fill 32 r in
  (Ok (from_seeds private_bytes sign_seed), r).

Definition signing_seed_b64 (k : IdentityKeyPair) : string := b64_encode (sign_seed k).
Definition private_key_b64 (k : IdentityKeyPair) : string := b64_encode (private k).
Definition public_key_b64 (k : IdentityKeyPair) : string := b64_encode (public k).
Definition signing_public_b64 (k : IdentityKeyPair) : string := b64_encode (signing_public k).
Definition fingerprint_hex (k : IdentityKeyPair) : string := compute_fingerprint_hex (public k).

Definition from_base64 (private_b64 : string) (public_b64 : option string)
  : result IdentityKeyPair :=
  let? private_raw := ok_or (b64_decode private_b64) (Crypto "invalid private key base64") in
  if negb (zlen private_raw =? 32) then Err (Crypto "private key must be 32 bytes")
  else
    let pair := from_private_key private_raw in
    match public_b64 with
    | None => Ok pair
    | Some public_b64 =>
        let? expected := ok_or (b64_decode public_b64) (Crypto "invalid public key base64") in
        if negb (bytes_eqb expected (public pair))
        then Err (Crypto "public key does not match private key")
        else Ok pair
    end.

Definition derive_shared (k : IdentityKeyPair) (peer_public : bytes) : bytes :=
  x25519_dh (private k) peer_public.

Definition sign_handshake (k : IdentityKeyPair) (transcript : bytes) : string :=
  b64_encode (ed25519_sign (sign_seed k) transcript).

(** The receiver [&self] is not used. *)
Definition verify_handshake_signature (transcript : bytes) (signature_b64 : string)
    (peer_sign_public : bytes) : result unit :=
  let? sig := ok_or (b64_decode signature_b64) (Handshake "invalid signature encoding") in
  if ed25519_verify peer_sign_public transcript sig then Ok ()
  else Err (Handshake "signature verification failed").

Definition zeroize_secrets (k : IdentityKeyPair) : IdentityKeyPair :=
  {| private := zreplicate 32 0; public := public k; signing_public := signing_public k;
     sign_seed := map (fun _ => 0) (sign_seed k) |}.

Lemma sign_verify `{!KexLaws} dh seed t :
  verify_handshake_signature t (sign_handshake (from_seeds dh seed) t)
    (signing_public (from_seeds dh seed)) = Ok ().
Proof.
  unfold verify_handshake_signature, sign_handshake. simpl.
  rewrite b64_roundtrip by apply (ed25519_sign_bytes seed t). simpl.
  by rewrite ed25519_sign_verify.
Qed.
End Identity.

(** ** Sending cipher *)

Record SessionKeys := mkSessionKeys {
  send_nonce : Z; recv_nonce : Z; send_key : bytes; recv_key : bytes
}.

Definition AEAD_NONCE_LIMIT : Z := 2 ^ 32 - 1.

Record SendCipher := mkSendCipher { sc_key : bytes; sc_nonce : Z }.

Definition SendCipher_new (key : bytes) : SendCipher := mkSendCipher key 0.

(** The 12-byte nonce of a counter. *)
Definition nonce_bytes (n : Z) : result bytes :=
  copy_into (zreplicate 12 0) 4 12 (be_bytes 8 n).

Section Ciphers.
Context `{AeadOps}.

(** [ChaCha20Poly1305::new_from_slice(&key)] *)
Definition new_from_slice (key : bytes) : result bytes :=
  if zlen key =? 32 then Ok key else Err (Crypto aead_invalid_length_text).

Definition encrypt (plaintext : bytes) (c : SendCipher) : result bytes * SendCipher :=
  if AEAD_NONCE_LIMIT <=? sc_nonce c
  then (Err (Crypto "AEAD nonce limit reached; rekey required to avoid nonce reuse"), c)
  else
    let! cipher, c := (new_from_slice (sc_key c), c) in
    let! nonce, c := (nonce_bytes (sc_nonce c), c) in
    let! ciphertext, c := (ok_or (aead_seal cipher nonce plaintext) (Crypto aead_error_text), c) in
    (Ok (nonce ++ ciphertext), mkSendCipher (sc_key c) (sc_nonce c + 1)).

(** ** Receiving cipher *)

Inductive ReplayState := Strict (last : option Z) | Window (w : ReplayWindow).

Record ReceiveCipher := mkReceiveCipher { rc_key : bytes; rc_replay : ReplayState }.

Definition ReceiveCipher_new (key : bytes) : ReceiveCipher := mkReceiveCipher key (Strict None).
Definition new_with_replay_window (key : bytes) (size : Z) : ReceiveCipher :=
  mkReceiveCipher key (Window (ReplayWindow_new size)).

Definition nonce_counter (nonce : bytes) : result Z :=
  if zlen nonce <? 12 then Err (Crypto "nonce too short")
  else
    let? prefix := slice nonce 0 4 in
    if negb (bytes_eqb prefix (zreplicate 4 0))
    then Err (Crypto "nonce prefix is not in canonical SHPH form")
    else
      let? buf := slice nonce 4 12 in
      Ok (be_val buf).

Definition decrypt (ciphertext : bytes) (c : ReceiveCipher) : result bytes * ReceiveCipher :=
  let! cipher, c := (new_from_slice (rc_key c), c) in
  if zlen ciphertext <? 12 then (Err (Crypto "ciphertext too short"), c)
  else
    let nonce := ztake 12 ciphertext in
    let ciphertext_only := zdrop 12 ciphertext in
    let! counter, c := (nonce_counter nonce, c) in
    let! candidate, c :=
      (match rc_replay c with
       | Strict last =>
           if match last with Some last => counter <=? last | None => false end
           then Err (Crypto "replay or stale nonce rejected") else Ok None
       | Window window =>
           let? '(fresh, candidate) := check_and_insert counter window in
           if negb fresh then Err (Crypto "replay or stale nonce rejected")
           else Ok (Some candidate)
       end, c) in
    let! plaintext, c :=
      (ok_or (aead_open cipher nonce ciphertext_only) (Crypto aead_error_text), c) in
    match rc_replay c, candidate with
    | Strict _, None => (Ok plaintext, mkReceiveCipher (rc_key c) (Strict (Some counter)))
    | Window _, Some next => (Ok plaintext, mkReceiveCipher (rc_key c) (Window next))
    | _, _ => (Panic, c)
    end.
End Ciphers.

(** ** Lemmas: nonces *)

Definition nonce12 (n : Z) : bytes := zreplicate 4 0 ++ be_bytes 8 n.

Lemma nonce_bytes_ok n : nonce_bytes n = Ok (nonce12 n).
Proof.
  unfold nonce_bytes, nonce12. change (zreplicate 12 0) with (zreplicate 4 0 ++ zreplicate 8 0).
  rewrite copy_into_app by zl. by rewrite zdrop_zreplicate by lia.
Qed.

Lemma zlen_nonce12 n : zlen (nonce12 n) = 12.
Proof. unfold nonce12. zl. Qed.

Lemma nonce12_ok n : bytes_ok (nonce12 n).
Proof.
  apply bytes_ok_app. split; [by apply Forall_replicate|apply be_bytes_ok].
Qed.

Lemma nonce12_inj n m :
  0 <= n <= u64_max -> 0 <= m <= u64_max -> nonce12 n = nonce12 m -> n = m.
Proof.
  unfold u64_max. intros Hn Hm H. apply (app_inv_head (zreplicate 4 0)) in H.
  apply (be_bytes_inj 8); [simpl; lia..|done].
Qed.

(** The counter a received nonce stands for; [None] when it is not canonical. *)
Definition frame_counter (frame : bytes) : option Z :=
  if bytes_eqb (ztake 4 frame) (zreplicate 4 0)
  then Some (be_val (ztake 8 (zdrop 4 frame))) else None.

Lemma frame_counter_bound frame n :
  bytes_ok frame -> 12 <= zlen frame -> frame_counter frame = Some n -> 0 <= n <= u64_max.
Proof.
  intros Hb Hl. unfold frame_counter. case_if; [|done]. intros [= <-].
  pose proof (be_val_bound (ztake 8 (zdrop 4 frame))) as B.
  rewrite zlen_ztake, zlen_zdrop in B.
  replace (Z.max 0 (Z.min 8 (zlen frame - Z.max 0 (Z.min 4 (zlen frame))))) with 8 in B by lia.
  unfold u64_max. specialize (B ltac:(auto with bytes)). lia.
Qed.

Lemma ztake_ztake {A} n m (l : list A) : 0 <= n <= m -> ztake n (ztake m l) = ztake n l.
Proof. unfold ztake. intros. rewrite take_take. f_equal. lia. Qed.

Lemma ztake_zdrop_comm {A} n m (l : list A) :
  0 <= n -> 0 <= m -> ztake n (zdrop m (ztake (m + n) l)) = ztake n (zdrop m l).
Proof.
  unfold ztake, zdrop. intros. rewrite skipn_firstn_comm, take_take. f_equal. lia.
Qed.

Lemma nonce_counter_spec frame :
  12 <= zlen frame ->
  nonce_counter (ztake 12 frame) =
  ok_or (frame_counter frame) (Crypto "nonce prefix is not in canonical SHPH form").
Proof.
  intros Hl. unfold nonce_counter, frame_counter.
  rewrite (proj2 (Z.ltb_ge _ _)) by zl. rewrite slice_ok by zl. cbn [rbind].
  rewrite zdrop_0, ztake_ztake by lia. destruct (bytes_eqb _ _); [|done]. cbn [negb]; cbv iota.
  rewrite slice_ok by zl. cbn [rbind ok_or]. do 2 f_equal. exact (ztake_zdrop_comm 8 4 _ ltac:(lia) ltac:(lia)).
Qed.

Lemma frame_counter_nonce12 n ct :
  0 <= n <= u64_max -> frame_counter (nonce12 n ++ ct) = Some n.
Proof.
  intros Hn. unfold frame_counter, nonce12. rewrite <- app_assoc.
  rewrite ztake_app, bytes_eqb_refl, zdrop_app, ztake_app by zl.
  rewrite be_val_be_bytes; [done|]. unfold u64_max in Hn. simpl. lia.
Qed.

#[global] Opaque nonce12.

(** ** Lemmas: sending *)

Section Send.
Context `{AeadOps}.

Lemma encrypt_cases p c :
  zlen (sc_key c) = 32 ->
  (exists e, encrypt p c = (Err e, c)) \/
  (exists ct, sc_nonce c < AEAD_NONCE_LIMIT /\
     aead_seal (sc_key c) (nonce12 (sc_nonce c)) p = Some ct /\
     encrypt p c = (Ok (nonce12 (sc_nonce c) ++ ct), mkSendCipher (sc_key c) (sc_nonce c + 1))).
Proof.
  intros Hk. unfold encrypt, new_from_slice. rewrite Hk, Z.eqb_refl.
  case_if; bool_prop; [eauto|]. cbn [sbind]. rewrite nonce_bytes_ok. cbn [sbind].
  destruct (aead_seal _ _ _) as [ct|]; cbn [ok_or sbind]; eauto 6.
Qed.

Lemma encrypt_ok `{!AeadLaws} p c :
  zlen (sc_key c) = 32 -> sc_nonce c < AEAD_NONCE_LIMIT -> zlen p < 2 ^ 38 - 64 ->
  exists ct, aead_seal (sc_key c) (nonce12 (sc_nonce c)) p = Some ct /\
    encrypt p c = (Ok (nonce12 (sc_nonce c) ++ ct), mkSendCipher (sc_key c) (sc_nonce c + 1)).
Proof.
  intros Hk Hn Hp. destruct (aead_seal_total (sc_key c) (nonce12 (sc_nonce c)) p Hp) as [ct Hct].
  exists ct. split; [done|]. unfold encrypt, new_from_slice.
  rewrite (proj2 (Z.leb_gt _ _)) by lia. rewrite Hk, Z.eqb_refl.
  cbn [sbind]. rewrite nonce_bytes_ok. cbn [sbind]. by rewrite Hct.
Qed.

(** The frames of a sequence of encryptions carry consecutive counters. *)
Lemma encrypt_run_nonces ps c :
  zlen (sc_key c) = 32 ->
  let rs := oks (run encrypt ps c).1 in
  map (ztake 12) rs = map (fun i => nonce12 (sc_nonce c + Z.of_nat i)) (seq 0 (length rs)) /\
  (sc_nonce (run encrypt ps c).2 = sc_nonce c + zlen rs) /\
  (sc_nonce c <= AEAD_NONCE_LIMIT -> sc_nonce c + zlen rs <= AEAD_NONCE_LIMIT) /\
  Forall (fun f => exists p, p ∈ ps /\ aead_seal (sc_key c) (ztake 12 f) p = Some (zdrop 12 f)) rs.
Proof.
  revert c. induction ps as [|p ps IH]; intros c Hk; simpl.
  { rewrite zlen_nil. repeat split; (lia || constructor). }
  destruct (encrypt_cases p c Hk) as [[e E]|(ct & Hn & Hct & E)]; rewrite E.
  - specialize (IH c Hk). destruct (run encrypt ps c) as [rs c']. simpl in *.
    destruct IH as (I1 & I2 & I3 & I4). repeat split; try done.
    eapply Forall_impl; [exact I4|]. intros f (q & Hq & ?). exists q. by split; [right|].
  - specialize (IH (mkSendCipher (sc_key c) (sc_nonce c + 1)) Hk).
    destruct (run encrypt ps _) as [rs c']. simpl in *. destruct IH as (I1 & I2 & I3 & I4).
    fold (oks rs). rewrite zlen_cons, I1, I2, ztake_app by apply zlen_nonce12.
    repeat split; try lia.
    + f_equal; [f_equal; lia|]. rewrite <- seq_shift, map_map.
      apply map_ext. intros i. f_equal. lia.
    + constructor.
      * exists p. rewrite ztake_app, zdrop_app by apply zlen_nonce12. by split; [left|].
      * eapply Forall_impl; [exact I4|]. intros f (q & Hq & ?). exists q. by split; [right|].
Qed.
End Send.

(** ** Receiving: specification and refinement *)

(** What a receiver promises: a frame is accepted when its counter is
    canonical, acceptable to the replay specification, and its ciphertext
    authentic; only then is the counter remembered. *)
Definition recv_spec `{AeadOps} (depth : Z) (key frame : bytes) (sp : ReplaySpec)
  : result bytes * ReplaySpec :=
  if zlen frame <? 12 then (Err (Crypto "ciphertext too short"), sp)
  else
    match frame_counter frame with
    | None => (Err (Crypto "nonce prefix is not in canonical SHPH form"), sp)
    | Some n =>
        let '(fresh, sp') := spec_accept depth n sp in
        if fresh then
          match aead_open key (ztake 12 frame) (zdrop 12 frame) with
          | Some p => (Ok p, sp')
          | None => (Err (Crypto aead_error_text), sp)
          end
        else (Err (Crypto "replay or stale nonce rejected"), sp)
    end.

Definition replay_rel (depth : Z) (r : ReplayState) (sp : ReplaySpec) : Prop :=
  match r with
  | Strict last => depth = 0 /\ spec_wf sp /\ sp_highest sp = last
  | Window w => window_rel depth w sp
  end.

Definition cipher_rel (depth : Z) (key : bytes) (c : ReceiveCipher) (sp : ReplaySpec) : Prop :=
  rc_key c = key /\ replay_rel depth (rc_replay c) sp.

(** The replay part of [decrypt] as a filter of counters. *)
Definition replay_accept (n : Z) (r : ReplayState) : bool * ReplayState :=
  match r with
  | Strict last =>
      if match last with Some last => n <=? last | None => false end
      then (false, r) else (true, Strict (Some n))
  | Window w => let '(b, w') := window_accept n w in (b, Window w')
  end.

#[export] Instance replay_state_anti_replay : AntiReplay replay_accept replay_rel.
Proof.
  split.
  - intros d [last|w] sp; simpl; [tauto|]. by intros (_ & _ & ? & _).
  - intros d [last|w] sp n HR Hn; simpl in *.
    + destruct HR as (-> & Hwf & Hl). pose proof (spec_accept_wf 0 n sp Hwf) as Hwf'.
      unfold spec_accept in *. rewrite Hl in *. destruct last as [h|]; [|done].
      destruct (Z.leb_spec n h); [|destruct (Z.ltb_spec h n); [|lia]; simpl in *; done].
      rewrite (proj2 (Z.ltb_ge _ _)) in * by lia.
      destruct (Z.leb_spec (h - n) 0); [|done]. assert (n = h) as -> by lia.
      assert (h ∈ sp_seen sp) as Hin by (unfold spec_wf in Hwf; rewrite Hl in Hwf; tauto).
      rewrite bool_decide_eq_false_2 by tauto. done.
    + pose proof (ar_refines d w sp n HR Hn) as [E1 E2].
      destruct (window_accept n w) as [b w']. done.
Qed.

Section Receive.
Context `{AeadOps}.

Lemma decrypt_refines depth key frame c sp :
  zlen key = 32 -> bytes_ok frame -> cipher_rel depth key c sp ->
  (decrypt frame c).1 = (recv_spec depth key frame sp).1 /\
  cipher_rel depth key (decrypt frame c).2 (recv_spec depth key frame sp).2.
Proof.
  intros Hk Hb [Hkey HR]. unfold decrypt, recv_spec, new_from_slice.
  rewrite Hkey, Hk, Z.eqb_refl. cbn [sbind].
  destruct (Z.ltb_spec (zlen frame) 12); [done|].
  rewrite nonce_counter_spec by done.
  destruct (frame_counter frame) as [n|] eqn:En; cbn [ok_or sbind]; [|done].
  pose proof (frame_counter_bound _ _ Hb ltac:(lia) En) as Hn.
  destruct c as [k r]. simpl in *. subst k.
  pose proof (ar_refines depth r sp n HR Hn) as [E1 E2].
  destruct (spec_accept depth n sp) as [fresh sp']. simpl in E1, E2. subst fresh.
  destruct r as [last|w]; unfold replay_accept in *.
  - destruct (match last with Some last => n <=? last | None => false end); [done|].
    cbn [sbind]. destruct (aead_open _ _ _); done.
  - destruct (check_and_insert_refines depth w sp n HR) as (w' & Ew & _).
    unfold window_accept in *. rewrite Ew in *. simpl in *.
    destruct (spec_accept depth n sp).1; [|done]. cbn. destruct (aead_open _ _ _); done.
Qed.

Lemma receiver_new_rel key : cipher_rel 0 key (ReceiveCipher_new key) spec_empty.
Proof. done. Qed.

Lemma receiver_window_rel key sz :
  0 <= sz ->
  cipher_rel (size (ReplayWindow_new sz)) key (new_with_replay_window key sz) spec_empty.
Proof. intros. split; [done|]. by apply ReplayWindow_new_rel. Qed.

Lemma decrypt_run_refines depth key frames c sp :
  zlen key = 32 -> Forall bytes_ok frames -> cipher_rel depth key c sp ->
  (run decrypt frames c).1 = (run (recv_spec depth key) frames sp).1.
Proof.
  intros Hk Hf HR. eapply (run_refines bytes_ok (cipher_rel depth key)); [|done|done].
  intros. by apply decrypt_refines.
Qed.
End Receive.

(** ** Delivery *)

Section Delivery.
Context `{AeadOps, !AeadLaws}.

(** Plaintexts the AEAD accepts. *)
Definition sendable (p : bytes) : Prop := bytes_ok p /\ zlen p < 2 ^ 38 - 64.
#[export] Instance sendable_dec p : Decision (sendable p).
Proof. unfold sendable. apply _. Defined.

Lemma encrypt_run_ok ps c :
  zlen (sc_key c) = 32 -> Forall sendable ps -> sc_nonce c + zlen ps <= AEAD_NONCE_LIMIT ->
  exists frames, (run encrypt ps c).1 = map Ok frames /\ length frames = length ps /\
    forall i p, ps !! i = Some p ->
      exists ct, frames !! i = Some (nonce12 (sc_nonce c + Z.of_nat i) ++ ct) /\
        aead_seal (sc_key c) (nonce12 (sc_nonce c + Z.of_nat i)) p = Some ct.
Proof.
  intros Hk Hps. revert c Hk. induction Hps as [|p ps [Hp1 Hp2] Hps IH]; intros c Hk Hn.
  { exists []. done. }
  rewrite zlen_cons in Hn. pose proof (zlen_nonneg ps).
  destruct (encrypt_ok p c Hk ltac:(lia) Hp2) as (ct & Hct & E).
  destruct (IH (mkSendCipher (sc_key c) (sc_nonce c + 1)) Hk ltac:(simpl; lia))
    as (fs & Hfs & Hlen & Hlook).
  exists ((nonce12 (sc_nonce c) ++ ct) :: fs). simpl. rewrite E.
  destruct (run encrypt ps _) as [rs c']. simpl in *. subst rs.
  split; [done|split; [lia|]]. intros [|i] q Hq; simpl in *.
  - injection Hq as <-. rewrite Z.add_0_r. eauto.
  - destruct (Hlook i q Hq) as (ct' & Hf & Hs).
    replace (sc_nonce c + Z.of_nat (S i)) with (sc_nonce c + 1 + Z.of_nat i) by lia. eauto.
Qed.

Definition replay_error : ShphError := Crypto "replay or stale nonce rejected".

Lemma recv_spec_frame d key n p ct sp :
  0 <= n <= u64_max -> aead_seal key (nonce12 n) p = Some ct ->
  recv_spec d key (nonce12 n ++ ct) sp
  = (if (spec_accept d n sp).1 then Ok p else Err replay_error, (spec_accept d n sp).2).
Proof.
  intros Hn Hct. unfold recv_spec. rewrite zlen_app, zlen_nonce12.
  pose proof (zlen_nonneg ct). rewrite (proj2 (Z.ltb_ge _ _)) by lia.
  rewrite frame_counter_nonce12, ztake_app, zdrop_app by (done || apply zlen_nonce12).
  pose proof (spec_accept_reject d n sp) as Hrej.
  destruct (spec_accept d n sp) as [[|] sp']; simpl in *.
  - by rewrite (aead_open_seal _ _ _ _ Hct).
  - by rewrite Hrej.
Qed.

Lemma recv_run_frames d key ps (frames : list bytes) (idxs : list nat) sp :
  (forall i p, ps !! i = Some p ->
     exists ct, frames !! i = Some (nonce12 (Z.of_nat i) ++ ct) /\
       aead_seal key (nonce12 (Z.of_nat i)) p = Some ct) ->
  Forall (fun i => (i < length ps)%nat /\ Z.of_nat i <= u64_max) idxs ->
  (run (recv_spec d key) (map (fun i => frames !!! i) idxs) sp).1
  = zip_with (fun (ok : bool) i => if ok then Ok (ps !!! i) else Err replay_error)
      (spec_run d (map Z.of_nat idxs) sp).1 idxs.
Proof.
  intros Hf. revert sp. induction idxs as [|i idxs IH]; intros sp Hi; [done|].
  apply Forall_cons in Hi as [[Hi Hmax] Hidxs].
  destruct (lookup_lt_is_Some_2 ps i Hi) as [p Hp].
  destruct (Hf i p Hp) as (ct & Hfi & Hct). simpl.
  rewrite (list_lookup_total_correct _ _ _ Hfi), (recv_spec_frame d key _ p) by (done || lia).
  destruct (spec_accept d (Z.of_nat i) sp) as [b sp1]. simpl.
  specialize (IH sp1 Hidxs). destruct (run (recv_spec d key) _ sp1) as [rs sp2].
  destruct (spec_run d _ sp1) as [bs sp3]. simpl in *. rewrite IH.
  by rewrite (list_lookup_total_correct _ _ _ Hp).
Qed.

(** Frames a sender produced, delivered as any sequence of indices. *)
Definition delivered (key : bytes) (ps : list bytes) (idxs : list nat) (c : ReceiveCipher)
  : list (result bytes) :=
  let frames := oks (run encrypt ps (SendCipher_new key)).1 in
  (run decrypt (map (fun i => frames !!! i) idxs) c).1.

Lemma delivered_spec d key ps idxs c :
  zlen key = 32 -> Forall sendable ps -> zlen ps <= AEAD_NONCE_LIMIT ->
  Forall (fun i => (i < length ps)%nat) idxs -> cipher_rel d key c spec_empty ->
  delivered key ps idxs c
  = zip_with (fun (ok : bool) i => if ok then Ok (ps !!! i) else Err replay_error)
      (spec_run d (map Z.of_nat idxs) spec_empty).1 idxs.
Proof.
  intros Hk Hps Hn Hi HR. unfold delivered.
  destruct (encrypt_run_ok ps (SendCipher_new key) Hk Hps Hn) as (fs & Hfs & Hlen & Hlook).
  simpl in Hlook. rewrite Hfs, oks_map. rewrite <- (recv_run_frames d key ps fs) by
    (done || (eapply Forall_impl; [exact Hi|]; intros i Hlt;
      unfold AEAD_NONCE_LIMIT, u64_max, zlen in *; lia)).
  apply decrypt_run_refines; [done| |done]. apply Forall_map.
  eapply Forall_impl; [exact Hi|]. intros i Hlt. simpl.
  destruct (lookup_lt_is_Some_2 ps i Hlt) as [p Hp]. destruct (Hlook i p Hp) as (ct & Hfi & Hct).
  rewrite (list_lookup_total_correct _ _ _ Hfi). apply bytes_ok_app. split.
  - apply nonce12_ok.
  - eapply aead_seal_bytes; [|exact Hct]. rewrite Forall_forall in Hps.
    apply Hps. by eapply list_elem_of_lookup_2.
Qed.

(** The next frame of a strict session. *)
Lemma decrypt_strict_next key last n p ct :
  zlen key = 32 -> 0 <= n <= u64_max -> (forall l, last = Some l -> l < n) ->
  aead_seal key (nonce12 n) p = Some ct ->
  decrypt (nonce12 n ++ ct) (mkReceiveCipher key (Strict last))
  = (Ok p, mkReceiveCipher key (Strict (Some n))).
Proof.
  intros Hk Hn Hl Hct. unfold decrypt, new_from_slice. cbn [rc_key rc_replay].
  rewrite Hk, Z.eqb_refl. cbn [sbind]. rewrite zlen_app, zlen_nonce12.
  pose proof (zlen_nonneg ct). rewrite (proj2 (Z.ltb_ge _ 12)) by lia.
  rewrite nonce_counter_spec by (rewrite zlen_app, zlen_nonce12; lia).
  rewrite frame_counter_nonce12 by done. cbn [ok_or sbind rc_replay].
  assert (match last with Some l => n <=? l | None => false end = false) as ->.
  { destruct last as [l|]; [|done]. apply Z.leb_gt. auto. }
  cbn [sbind]. rewrite ztake_app, zdrop_app by apply zlen_nonce12.
  by rewrite (aead_open_seal _ _ _ _ Hct).
Qed.

(** A frame that opens under a key to a plaintext, with its counter. *)
Definition opens_to (key frame : bytes) (n : Z) (p : bytes) : Prop :=
  frame_counter frame = Some n /\ aead_open key (ztake 12 frame) (zdrop 12 frame) = Some p.

(** What an in-order receiver does with any bytes. *)
Lemma decrypt_strict_cases key last frame : zlen key = 32 -> bytes_ok frame ->
  (exists e, decrypt frame (mkReceiveCipher key (Strict last)) = (Err e, mkReceiveCipher key (Strict last))) \/
  (exists n p, (forall l, last = Some l -> l < n) /\ opens_to key frame n p /\
    decrypt frame (mkReceiveCipher key (Strict last)) = (Ok p, mkReceiveCipher key (Strict (Some n)))).
Proof.
  intros Hk Hb. unfold decrypt, new_from_slice, opens_to. cbn [rc_key rc_replay]. rewrite Hk, Z.eqb_refl. cbn [sbind].
  destruct (Z.ltb_spec (zlen frame) 12); [by left; eexists|]. rewrite nonce_counter_spec by done.
  destruct (frame_counter frame) as [n|] eqn:En; cbn [ok_or sbind]; [|by left; eexists]. cbn [rc_replay].
  destruct (match last with Some last => n <=? last | None => false end) eqn:El; cbn [sbind]; [by left; eexists|].
  destruct (aead_open _ _ _) as [p|] eqn:Ep; cbn [ok_or sbind rc_replay rc_key]; [|by left; eexists].
  right. exists n, p. split; [|done]. intros l ->. by apply Z.leb_gt in El.
Qed.

Lemma zip_with_true {B} (f : nat -> B) (g : nat -> B) idxs :
  zip_with (fun (ok : bool) i => if ok then f i else g i) (map (fun _ => true) idxs) idxs = map f idxs.
Proof. induction idxs; simpl; congruence. Qed.
End Delivery.

(** ** Properties *)

(** C7: nonces are never reused.  Whatever a sender is asked to encrypt, the
    frames it emits carry pairwise distinct 12-byte nonces, each frame is
    sealed under the nonce it carries, the counter equals the number of frames,
    and at most [AEAD_NONCE_LIMIT] frames are emitted under one key: past the
    limit every call fails. *)
Theorem send_nonces_never_reused `{AeadOps} key ps :
  zlen key = 32 ->
  let rs := oks (run encrypt ps (SendCipher_new key)).1 in
  NoDup (map (ztake 12) rs) /\
  Forall (fun f => exists p, p ∈ ps /\ aead_seal key (ztake 12 f) p = Some (zdrop 12 f)) rs /\
  sc_nonce (run encrypt ps (SendCipher_new key)).2 = zlen rs /\
  zlen rs <= AEAD_NONCE_LIMIT /\
  (forall p c, AEAD_NONCE_LIMIT <= sc_nonce c ->
     exists e, encrypt p c = (Err e, c)).
Proof.
  intros Hk. pose proof (encrypt_run_nonces ps (SendCipher_new key) Hk) as (N1 & N2 & N3 & N4).
  simpl in *. set (rs := oks _) in *.
  specialize (N3 ltac:(unfold AEAD_NONCE_LIMIT; lia)). unfold AEAD_NONCE_LIMIT in *.
  split; [|split; [done|split; [lia|split; [lia|]]]].
  - rewrite N1. apply NoDup_fmap_2_strong; [|apply NoDup_seq].
    intros i j Hi%elem_of_seq Hj%elem_of_seq E. unfold zlen in N3.
    apply nonce12_inj in E; unfold u64_max; lia.
  - intros p c Hc. unfold encrypt, AEAD_NONCE_LIMIT. rewrite (proj2 (Z.leb_le _ _)) by lia. eauto.
Qed.

(** C6: the receiver refines its specification in both replay modes.  For any
    sequence of byte strings an adversary may deliver, the outcomes are those
    of [recv_spec], which remembers the counters of all authenticated frames:
    a short or non-canonical frame, a counter outside the depth or already
    accepted, or a forged ciphertext is rejected with the corresponding error,
    none of them changes what is accepted later, and there is no panic. *)
Theorem receiver_refines_spec `{AeadOps} key frames :
  zlen key = 32 -> Forall bytes_ok frames ->
  (run decrypt frames (ReceiveCipher_new key)).1 = (run (recv_spec 0 key) frames spec_empty).1 /\
  forall sz, 0 <= sz ->
    (run decrypt frames (new_with_replay_window key sz)).1
    = (run (recv_spec (size (ReplayWindow_new sz)) key) frames spec_empty).1.
Proof.
  intros Hk Hf. split.
  - apply decrypt_run_refines; [done..|apply receiver_new_rel].
  - intros sz Hsz. apply decrypt_run_refines; [done..|by apply receiver_window_rel].
Qed.

(** end-to-end delivery.  For any messages sent under one key and any
    sequence of deliveries of their frames (loss, duplication, reordering), a
    receiver hands over the original message at each position where the replay
    specification accepts, and rejects exactly the others; when the deliveries
    are pairwise distinct and each is at most the window behind every earlier
    one (for the strict receiver: in increasing order), all of them are handed
    over unchanged. *)
Theorem session_delivery `{AeadOps, !AeadLaws} key ps (idxs : list nat) :
  zlen key = 32 -> Forall sendable ps -> zlen ps <= AEAD_NONCE_LIMIT ->
  Forall (fun i => (i < length ps)%nat) idxs ->
  forall d c, (c = ReceiveCipher_new key /\ d = 0 \/
    exists sz, 0 <= sz /\ c = new_with_replay_window key sz /\ d = size (ReplayWindow_new sz)) ->
  delivered key ps idxs c
    = zip_with (fun (ok : bool) i => if ok then Ok (ps !!! i) else Err replay_error)
        (spec_run d (map Z.of_nat idxs) spec_empty).1 idxs /\
  (in_window d (map Z.of_nat idxs) -> delivered key ps idxs c = map (fun i => Ok (ps !!! i)) idxs).
Proof.
  intros Hk Hps Hn Hi d c Hc.
  assert (0 <= d /\ cipher_rel d key c spec_empty) as [Hd HR].
  { destruct Hc as [[-> ->]|(sz & Hsz & -> & ->)]; [by split; [|apply receiver_new_rel]|].
    pose proof (ReplayWindow_new_size sz). split; [lia|by apply receiver_window_rel]. }
  split; [by apply delivered_spec|]. intros Hw. rewrite (delivered_spec d) by done.
  rewrite spec_run_all; [|done|done|done|intros x n Hx; simpl in Hx; set_solver].
  rewrite map_map. apply zip_with_true.
Qed.

(** HKDF does not depend on which salt buffer is used.  Within the
    documented limits the result is HKDF of the concatenated context parts,
    whether they fit the 256-byte stack buffer or not; beyond the 256 KiB
    limit the call fails without deriving anything. *)
Theorem hkdf_context_is_concatenated `{HashOps} key info n :
  n <= MAX_HKDF_OUTPUT_BYTES -> zlen (concat info) <= usize_max ->
  hkdf_sha256_into key info n =
  (if zlen (concat info) <=? MAX_HKDF_CONTEXT_BYTES
   then ok_or (hkdf_expand (concat info) key n) (Crypto hkdf_error_text)
   else Err (Crypto "HKDF context exceeds the 256 KiB safety limit")) /\
  hkdf_sha256 key info n = hkdf_sha256_into key info n.
Proof.
  intros Hn Hc. split.
  - case_if; bool_prop; [by apply hkdf_into_spec|by apply hkdf_into_long].
  - unfold hkdf_sha256. by rewrite (proj2 (Z.ltb_ge _ _)) by lia.
Qed.

(** ** Witnesses: the properties at concrete inputs *)
Module Witnesses.
Import Toy.

Lemma send_nonces_never_reused_witness :
  NoDup (map (ztake 12) (oks (run encrypt [[1]; [2]; []] (SendCipher_new (zreplicate 32 7))).1)).
Proof. apply (send_nonces_never_reused (zreplicate 32 7) [[1]; [2]; []]). reflexivity. Defined.

Lemma receiver_refines_spec_witness :
  (run decrypt [[1]; zreplicate 40 0; zreplicate 40 9] (ReceiveCipher_new (zreplicate 32 7))).1
  = [Err (Crypto "ciphertext too short"); Err (Crypto "aead::Error");
     Err (Crypto "nonce prefix is not in canonical SHPH form")].
Proof.
  destruct (receiver_refines_spec (zreplicate 32 7) [[1]; zreplicate 40 0; zreplicate 40 9])
    as [-> _]; [reflexivity| |vm_compute; reflexivity].
  by_compute.
Defined.

Lemma session_delivery_witness :
  delivered (zreplicate 32 7) [[10]; [20]; [30]] [2%nat; 0%nat; 1%nat; 0%nat]
    (new_with_replay_window (zreplicate 32 7) 64)
  = [Ok [30]; Ok [10]; Ok [20]; Err replay_error].
Proof.
  destruct (session_delivery (zreplicate 32 7) [[10]; [20]; [30]] [2%nat; 0%nat; 1%nat; 0%nat]
    eq_refl) with (d := 64) (c := new_with_replay_window (zreplicate 32 7) 64) as [-> _].
  - by_compute.
  - vm_compute. discriminate.
  - repeat constructor.
  - right. exists 64. split; [lia|]. split; reflexivity.
  - vm_compute. reflexivity.
Defined.

Lemma hkdf_context_is_concatenated_witness :
  hkdf_sha256 [1] [[2; 3]; zreplicate 300 4] 16
  = ok_or (hkdf_expand ([2; 3] ++ zreplicate 300 4) [1] 16) (Crypto hkdf_error_text).
Proof.
  destruct (hkdf_context_is_concatenated [1] [[2; 3]; zreplicate 300 4] 16) as [E1 E2].
  - vm_compute. discriminate.
  - vm_compute. discriminate.
  - rewrite E2, E1. vm_compute. reflexivity.
Defined.

End Witnesses.
