(* ===== verification/Cookie.v ===== *)
(** Stateless pre-authentication cookies (shph-core/src/cookie.rs): the rotating
    authority, the cookie of an address in an epoch, and verification. *)
From S2P Require Import Net.
From S2P Require Import Prelude Error Primitives SessionCrypto.

Definition COOKIE_EPOCH_SECS : Z := 30.
Definition COOKIE_SECRET_BYTES : Z := 32.
Definition COOKIE_TAG_BYTES : Z := 32.
Definition COOKIE_DOMAIN : bytes := str_bytes "shph-preauth-cookie-v1".

Record StatelessCookieAuthority := mkAuthority {
  current_secret : bytes;
  previous_secret : bytes;
  authority_epoch : Z
}.

(** [current_epoch]: the clock is the seconds since the Unix epoch, or nothing
    when it is before. *)
Definition current_epoch (now : option Z) : result Z :=
  let? secs := ok_or now (Crypto "system clock before unix epoch") in
  Ok (secs / COOKIE_EPOCH_SECS).

Definition constant_time_diff (left right : bytes) : Z :=
  fold_left (fun diff '(a, b) => Z.lor diff (Z.lxor a b)) (zip left right)
    (if zlen left =? zlen right then 0 else 1).

Section Authority.
Context {R : Type} `{RngOps R, HashOps}.

(** The message [mac] assembles in its fixed buffer. *)
Definition mac_message (peer : SocketAddr) (epoch : Z) : result bytes :=
  let size := zlen COOKIE_DOMAIN + 16 + 2 + 8 + 1 in
  let? message := copy_into (zreplicate size 0) 0 (zlen COOKIE_DOMAIN) COOKIE_DOMAIN in
  let offset := zlen COOKIE_DOMAIN in
  let? ' (message, offset) :=
    match ip peer with
    | IpV4 octets =>
        let? message := store message offset 4 in
        let offset := offset + 1 in
        let? message := copy_into message offset (offset + 4) octets in
        Ok (message, offset + 4)
    | IpV6 octets =>
        let? message := store message offset 6 in
        let offset := offset + 1 in
        let? message := copy_into message offset (offset + 16) octets in
        Ok (message, offset + 16)
    end in
  let? message := copy_into message offset (offset + 2) (be_bytes 2 (port peer)) in
  let offset := offset + 2 in
  let? message := copy_into message offset (offset + 8) (be_bytes 8 epoch) in
  slice message 0 (offset + 8).

Definition mac (secret : bytes) (peer : SocketAddr) (epoch : Z) : result bytes :=
  let? message := mac_message peer epoch in
  copy_into (zreplicate COOKIE_TAG_BYTES 0) 0 COOKIE_TAG_BYTES (hmac_sha256 secret message).

Definition authority_new (now : option Z) (r : R) : result StatelessCookieAuthority * R :=
  let! current, r := sys_fill COOKIE_SECRET_BYTES r in
  let! previous, r := sys_fill COOKIE_SECRET_BYTES r in
  let! epoch, r := (current_epoch now, r) in
  (Ok (mkAuthority current previous epoch), r).

Definition rotate_to (epoch : Z) (s : StatelessCookieAuthority * R)
  : result unit * (StatelessCookieAuthority * R) :=
  let '(a, r) := s in
  if epoch <=? authority_epoch a then (Ok (), (a, r))
  else
    match sys_fill COOKIE_SECRET_BYTES r with
    | (Ok next_secret, r) => (Ok (), (mkAuthority next_secret (current_secret a) epoch, r))
    | (Err e, r) => (Err e, (a, r))
    | (Panic, r) => (Panic, (a, r))
    end.

Definition issue (now : option Z) (peer : SocketAddr) (s : StatelessCookieAuthority * R)
  : result bytes * (StatelessCookieAuthority * R) :=
  let! epoch, s := (current_epoch now, s) in
  let! _ok, s := rotate_to epoch s in
  (mac (current_secret s.1) peer epoch, s).

(** One round of the inner loop of [verify]. *)
Definition match_candidate (cookie : bytes) (peer : SocketAddr) (secret : bytes) (epoch matches : Z) : result Z :=
  let? expected := mac secret peer epoch in
  Ok (Z.lor matches (if constant_time_diff cookie expected =? 0 then 1 else 0)).

Definition verify (now : option Z) (peer : SocketAddr) (cookie : bytes) (s : StatelessCookieAuthority * R)
  : result bool * (StatelessCookieAuthority * R) :=
  if negb (zlen cookie =? COOKIE_TAG_BYTES) then (Ok false, s)
  else
    let! epoch, s := (current_epoch now, s) in
    let! _ok, s := rotate_to epoch s in
    let a := s.1 in
    (let? m := match_candidate cookie peer (current_secret a) epoch 0 in
     let? m := match_candidate cookie peer (current_secret a) (saturating_sub epoch 1) m in
     let? m := match_candidate cookie peer (previous_secret a) epoch m in
     let? m := match_candidate cookie peer (previous_secret a) (saturating_sub epoch 1) m in
     Ok (negb (m =? 0)), s).
End Authority.

(** ** Lemmas *)

Definition addr_ok (p : SocketAddr) : Prop :=
  match ip p with
  | IpV4 o => zlen o = 4 /\ bytes_ok o
  | IpV6 o => zlen o = 16 /\ bytes_ok o
  end /\ 0 <= port p <= u16_max.

#[export] Instance addr_ok_dec p : Decision (addr_ok p).
Proof. unfold addr_ok. destruct (ip p); apply _. Defined.

(** The hashed bytes. *)
Definition cookie_message (peer : SocketAddr) (epoch : Z) : bytes :=
  COOKIE_DOMAIN ++ match ip peer with IpV4 o => 4 :: o | IpV6 o => 6 :: o end
  ++ be_bytes 2 (port peer) ++ be_bytes 8 epoch.

Lemma mac_message_eq peer epoch : addr_ok peer -> mac_message peer epoch = Ok (cookie_message peer epoch).
Proof.
  intros [Hip _]. unfold mac_message, cookie_message.
  assert (zlen COOKIE_DOMAIN = 22) as HD by done.
  set (D := COOKIE_DOMAIN) in *. clearbody D. rewrite HD.
  pose proof (copy_into_zeros 0 22 49 [] D) as E. cbn [app] in E.
  change (22 + 16 + 2 + 8 + 1) with 49. rewrite E by (rewrite ?zlen_nil; lia). clear E. cbn [rbind].
  change (49 - (22 - 0)) with 27.
  destruct (ip peer) as [o|o]; destruct Hip as [Ho _].
  - rewrite store_zeros by lia. cbn [rbind]. rewrite copy_into_zeros by zl. cbn [rbind].
    rewrite copy_into_zeros by (autorewrite with zlen; lia). cbn [rbind].
    rewrite copy_into_zeros by (autorewrite with zlen; lia). cbn [rbind].
    rewrite slice_ok by (autorewrite with zlen; lia). rewrite zdrop_0, Z.sub_0_r, ztake_app by (autorewrite with zlen; lia).
    by rewrite <- !app_assoc.
  - rewrite store_zeros by lia. cbn [rbind]. rewrite copy_into_zeros by zl. cbn [rbind].
    rewrite copy_into_zeros by (autorewrite with zlen; lia). cbn [rbind].
    rewrite copy_into_zeros by (autorewrite with zlen; lia). cbn [rbind].
    rewrite slice_ok by (autorewrite with zlen; lia). rewrite zdrop_0, Z.sub_0_r, ztake_app by (autorewrite with zlen; lia).
    by rewrite <- !app_assoc.
Qed.

(** The cookie is bound to the address, the port and the epoch. *)
Lemma cookie_message_inj p q e f :
  addr_ok p -> addr_ok q -> 0 <= e <= u64_max -> 0 <= f <= u64_max ->
  cookie_message p e = cookie_message q f -> p = q /\ e = f.
Proof.
  intros [Hp Hpp] [Hq Hqp] He Hf E. unfold u16_max, u64_max in *. destruct p as [ipp pp], q as [ipq pq].
  unfold cookie_message in E. cbn [ip port] in *. apply app_inv_head in E.
  assert (forall o o', zlen o = zlen o' -> o ++ be_bytes 2 pp ++ be_bytes 8 e = o' ++ be_bytes 2 pq ++ be_bytes 8 f ->
    o = o' /\ pp = pq /\ e = f) as Hinj.
  { intros o o' Hl Ho. apply app_inj_1 in Ho as [-> Ho]; [|unfold zlen in Hl; lia].
    apply app_inj_1 in Ho as [Hpq Hef]; [|by rewrite !length_be_bytes].
    split; [done|]. split; apply be_bytes_inj in Hpq; try apply be_bytes_inj in Hef; cbn; lia. }
  destruct ipp as [o|o], ipq as [o'|o']; cbn [app] in E; injection E as E; try done;
    destruct (Hinj o o') as (-> & -> & ->); (done || lia).
Qed.

Lemma constant_time_diff_0 a b : zlen a = zlen b -> (constant_time_diff a b =? 0) = bool_decide (a = b).
Proof.
  intros Hl. unfold constant_time_diff. rewrite Hl, Z.eqb_refl. apply eq_iff_eq_true.
  rewrite Z.eqb_eq, lor_fold_zero, zip_equal, bool_decide_eq_true by (unfold zlen in Hl; lia). intuition.
Qed.

Section Verified.
Context {R : Type} `{RngOps R, HashOps, !HashLaws}.

Notation authority := (StatelessCookieAuthority * R)%type.

Lemma mac_eq secret peer epoch : addr_ok peer ->
  mac secret peer epoch = Ok (hmac_sha256 secret (cookie_message peer epoch)).
Proof.
  intros Hp. unfold mac. rewrite mac_message_eq by done. cbn [rbind].
  pose proof (hmac_sha256_len secret (cookie_message peer epoch)) as Hl. unfold COOKIE_TAG_BYTES.
  pose proof (copy_into_zeros 0 32 32 [] (hmac_sha256 secret (cookie_message peer epoch))) as E. cbn [app] in E.
  rewrite E by (rewrite ?zlen_nil; lia). by rewrite app_nil_r.
Qed.

(** The cookies an authority accepts in an epoch. *)
Definition candidates (a : StatelessCookieAuthority) (peer : SocketAddr) (epoch : Z) : list bytes :=
  [hmac_sha256 (current_secret a) (cookie_message peer epoch);
   hmac_sha256 (current_secret a) (cookie_message peer (saturating_sub epoch 1));
   hmac_sha256 (previous_secret a) (cookie_message peer epoch);
   hmac_sha256 (previous_secret a) (cookie_message peer (saturating_sub epoch 1))].

Lemma match_candidate_eq cookie peer secret epoch m : addr_ok peer -> zlen cookie = 32 ->
  match_candidate cookie peer secret epoch m
  = Ok (Z.lor m (if bool_decide (cookie = hmac_sha256 secret (cookie_message peer epoch)) then 1 else 0)).
Proof.
  intros Hp Hc. unfold match_candidate. rewrite mac_eq by done. cbn [rbind].
  by rewrite constant_time_diff_0 by by rewrite hmac_sha256_len.
Qed.

Lemma verify_eq now peer cookie (s : authority) : addr_ok peer -> zlen cookie = 32 ->
  verify now peer cookie s =
  let! epoch, s := (current_epoch now, s) in
  let! _ok, s := rotate_to epoch s in
  (Ok (bool_decide (cookie ∈ candidates s.1 peer epoch)), s).
Proof.
  intros Hp Hc. unfold verify. rewrite Hc. cbn [negb Z.eqb COOKIE_TAG_BYTES Pos.eqb].
  destruct (current_epoch now) as [epoch|e|]; cbn [sbind]; [|done..].
  destruct (rotate_to epoch s) as [[[]|e|] s']; cbn [sbind]; [|done..].
  rewrite !match_candidate_eq by done. cbn [rbind]. rewrite !match_candidate_eq by done. cbn [rbind].
  rewrite !match_candidate_eq by done. cbn [rbind]. rewrite !match_candidate_eq by done. cbn [rbind].
  do 2 f_equal. unfold candidates. apply eq_iff_eq_true.
  rewrite bool_decide_eq_true, !elem_of_cons, negb_true_iff, Z.eqb_neq, !Z.lor_eq_0_iff.
  repeat case_bool_decide; rewrite ?elem_of_nil; intuition congruence.
Qed.

Lemma rotate_to_cases epoch (s : authority) :
  (epoch <= authority_epoch s.1 /\ rotate_to epoch s = (Ok (), s)) \/
  (authority_epoch s.1 < epoch /\
   ((exists s', rotate_to epoch s = (Ok (), s') /\ previous_secret s'.1 = current_secret s.1 /\
       authority_epoch s'.1 = epoch) \/
    (exists s', rotate_to epoch s = (Err (Crypto "ring operation failed"), s') /\ s'.1 = s.1))).
Proof.
  destruct s as [a r]. unfold rotate_to. cbn [fst].
  destruct (Z.leb_spec epoch (authority_epoch a)); [by left|right]. split; [done|].
  unfold sys_fill. destruct (rng_fill COOKIE_SECRET_BYTES r) as [[b|] r']; cbn [ok_or].
  - left. by eexists.
  - right. by eexists.
Qed.

(** ** Lemmas: availability of an issued cookie *)

(** The key [k] is in use since epoch [e]: it is the current one, or was
    replaced in a later epoch. *)
Definition holds_key (e : Z) (k : bytes) (s : authority) : Prop :=
  e <= authority_epoch s.1 /\
  (current_secret s.1 = k \/ previous_secret s.1 = k /\ e + 1 <= authority_epoch s.1).

Lemma rotate_keeps e k epoch (s : authority) :
  holds_key e k s -> epoch <= e + 1 -> holds_key e k (rotate_to epoch s).2.
Proof.
  intros [He Hk] Hle. destruct (rotate_to_cases epoch s) as [[_ ->]|[Hlt [(s' & -> & Hp & Ha)|(s' & -> & Ha)]]]; cbn [snd].
  - done.
  - unfold holds_key. rewrite Ha. split; [lia|]. destruct Hk as [<-|[_ ?]]; [right|lia]. split; [done|lia].
  - unfold holds_key. by rewrite Ha.
Qed.

(** Any other call on the authority. *)
Inductive CookieOp := OpIssue (now : option Z) (peer : SocketAddr) | OpVerify (now : option Z) (peer : SocketAddr) (cookie : bytes).

Definition cookie_op (op : CookieOp) (s : authority) : result unit * authority :=
  match op with
  | OpIssue now peer => let! _cookie, s := issue now peer s in (Ok (), s)
  | OpVerify now peer cookie => let! _valid, s := verify now peer cookie s in (Ok (), s)
  end.

(** The clock reads an epoch up to [e], or fails. *)
Definition op_until (e : Z) (op : CookieOp) : Prop :=
  match op with
  | OpIssue now peer | OpVerify now peer _ => forall n, current_epoch now = Ok n -> n <= e
  end.

Lemma sbind_snd {A B S} (m : result A * S) (f : A -> result B) :
  (sbind m (fun a s => (f a, s))).2 = m.2.
Proof. by destruct m as [[a|e|] s]. Qed.

Lemma cookie_op_state op (s : authority) :
  (cookie_op op s).2 = s \/
  exists now epoch, (match op with OpIssue n _ | OpVerify n _ _ => n end) = now /\ current_epoch now = Ok epoch /\
    (cookie_op op s).2 = (rotate_to epoch s).2.
Proof.
  destruct op as [now peer|now peer cookie]; cbn [cookie_op]; rewrite (sbind_snd _ (fun _ => Ok ())).
  - unfold issue. destruct (current_epoch now) as [epoch|e|] eqn:E; cbn [sbind]; [|by left..].
    right. exists now, epoch. split; [done|]. split; [done|]. by destruct (rotate_to epoch s) as [[[]|e|] s'].
  - unfold verify. case_if; [by left|]. destruct (current_epoch now) as [epoch|e|] eqn:E; cbn [sbind]; [|by left..].
    right. exists now, epoch. split; [done|]. split; [done|]. by destruct (rotate_to epoch s) as [[[]|e|] s'].
Qed.

Lemma cookie_ops_keep e k ops (s : authority) :
  Forall (op_until (e + 1)) ops -> holds_key e k s -> holds_key e k (run cookie_op ops s).2.
Proof.
  intros Hops. revert s. induction Hops as [|op ops Hop Hops IH]; intros s Hs; [done|].
  rewrite run_cons. cbn [snd]. apply IH. destruct (cookie_op_state op s) as [->|(now & epoch & Hnow & He & ->)]; [done|].
  apply rotate_keeps; [done|]. destruct op; cbn in *; subst; by apply Hop.
Qed.
(** An issued cookie survives a rotation. *)
Lemma issued_stays_valid issued_at checked_at e peer cookie
    (s s1 : authority) ops :
  addr_ok peer -> issued_at = Some e -> 0 <= e ->
  issue issued_at peer s = (Ok cookie, s1) ->
  let epoch := e / COOKIE_EPOCH_SECS in
  Forall (op_until (epoch + 1)) ops ->
  current_epoch checked_at = Ok epoch \/ current_epoch checked_at = Ok (epoch + 1) ->
  let out := verify checked_at peer cookie (run cookie_op ops s1).2 in
  out.1 = Ok true \/ out.1 = Err (Crypto "ring operation failed").
Proof.
  intros Hp -> He Hissue epoch Hops Hck out. unfold issue in Hissue. cbn [current_epoch ok_or rbind sbind] in Hissue.
  fold epoch in Hissue. assert (0 <= epoch) as Hep by (by apply Z.div_pos).
  assert (holds_key epoch (current_secret s1.1) s1 /\ cookie = hmac_sha256 (current_secret s1.1) (cookie_message peer epoch)) as [Hk ->].
  { destruct (rotate_to_cases epoch s) as [[Hle E]|[Hlt [(s' & E & _ & Ha)|(s' & E & _)]]]; rewrite E in Hissue; cbn [sbind] in Hissue;
      [..|done]; rewrite mac_eq in Hissue by done; injection Hissue as <- <-;
      (split; [split; [lia|by left]|done]). }
  set (s2 := (run cookie_op ops s1).2) in *. assert (holds_key epoch (current_secret s1.1) s2) as Hk2 by by apply cookie_ops_keep.
  unfold out. rewrite verify_eq by (done || by rewrite hmac_sha256_len).
  assert (exists n, current_epoch checked_at = Ok n /\ n <= epoch + 1 /\ (n = epoch \/ saturating_sub n 1 = epoch)) as (n & -> & Hn & Hcase).
  { destruct Hck as [->| ->]; eexists; (split; [done|]); unfold saturating_sub; lia. }
  cbn [sbind]. pose proof (rotate_keeps _ _ n s2 Hk2 Hn) as [_ Hk3].
  destruct (rotate_to_cases n s2) as [[_ E]|[_ [(s3 & E & _)|(s3 & E & _)]]]; rewrite E in *; cbn [sbind fst snd] in *;
    [left..|by right]; f_equal; apply bool_decide_eq_true; unfold candidates;
    destruct Hk3 as [->|[-> _]], Hcase as [->| ->]; set_solver.
Qed.
End Verified.

(** ** Properties *)

(** an issued cookie stays valid across a rotation.  A cookie issued to an
    address at one clock reading, then any other calls of the authority, then a
    verification for that address in the same or the next epoch: it is accepted,
    unless the operating system's generator fails during the rotation itself. *)
Theorem cookie_available {R} `{RngOps R, HashOps, !HashLaws} issued_at checked_at e peer cookie
    (s s1 : StatelessCookieAuthority * R) ops :
  addr_ok peer -> issued_at = Some e -> 0 <= e ->
  issue issued_at peer s = (Ok cookie, s1) ->
  let epoch := e / COOKIE_EPOCH_SECS in
  Forall (op_until (epoch + 1)) ops ->
  current_epoch checked_at = Ok epoch \/ current_epoch checked_at = Ok (epoch + 1) ->
  let out := verify checked_at peer cookie (run cookie_op ops s1).2 in
  out.1 = Ok true \/ out.1 = Err (Crypto "ring operation failed").
Proof. apply issued_stays_valid. Qed.

(** verification is exact and bound to the address.  On any bytes it never
    panics; it accepts exactly the four MACs of the current and the previous
    secret over the current and the previous epoch, comparing all of them; and
    the authenticated message determines the address, the port and the epoch. *)
Theorem cookie_exact {R} `{RngOps R, HashOps, !HashLaws} now peer cookie (s : StatelessCookieAuthority * R) :
  addr_ok peer ->
  no_panic (verify now peer cookie s).1 /\
  (forall b s', verify now peer cookie s = (Ok b, s') ->
     b = true <-> zlen cookie = 32 /\ exists n, current_epoch now = Ok n /\ cookie ∈ candidates s'.1 peer n) /\
  (forall other e f, addr_ok other -> 0 <= e <= u64_max -> 0 <= f <= u64_max ->
     cookie_message peer e = cookie_message other f -> peer = other /\ e = f).
Proof.
  intros Hp. split; [|split; [|intros other e f Ho He Hf; by apply cookie_message_inj]].
  - destruct (decide (zlen cookie = 32)) as [Hc|Hc].
    + rewrite verify_eq by done. unfold current_epoch. destruct now as [n|]; cbn [ok_or rbind sbind]; [|done].
      by destruct (rotate_to_cases (n / COOKIE_EPOCH_SECS) s) as [[_ ->]|[_ [(s' & -> & _)|(s' & -> & _)]]].
    + unfold verify. by rewrite (proj2 (Z.eqb_neq _ _)).
  - intros b s' Hv. destruct (decide (zlen cookie = 32)) as [Hc|Hc].
    + rewrite verify_eq in Hv by done. destruct (current_epoch now) as [n|e|]; cbn [sbind] in Hv; [|done..].
      destruct (rotate_to n s) as [[[]|e|] s2]; cbn [sbind] in Hv; [|done..]. injection Hv as <- <-.
      rewrite bool_decide_eq_true. split; [intros Hin; split; [done|by exists n]|]. by intros (_ & m & [= <-] & Hin).
    + unfold verify in Hv. rewrite (proj2 (Z.eqb_neq _ _)) in Hv by done. injection Hv as <- _.
      split; [done|]. by intros [? _].
Qed.

(** ** Witnesses *)

Module Witnesses.
Import Toy.

Definition client : SocketAddr := mkSocketAddr (IpV4 [192; 0; 2; 10]) 1234.
Definition other : SocketAddr := mkSocketAddr (IpV6 (zreplicate 16 1)) 1234.
Definition fresh_authority : StatelessCookieAuthority * Z := (mkAuthority (zreplicate 32 7) (zreplicate 32 8) 10, 5).
Definition issued : result bytes * (StatelessCookieAuthority * Z) := Eval vm_compute in issue (Some 310) client fresh_authority.
Definition cookie : bytes := Eval vm_compute in match issued.1 with Ok c => c | _ => [] end.

(** The authority rotates between the issue and the check. *)
Lemma cookie_available_witness :
  (verify (Some 331) client cookie (run cookie_op [OpIssue (Some 330) other; OpVerify None client [1]] issued.2).2).1 = Ok true.
Proof.
  destruct (cookie_available (Some 310) (Some 331) 310 client cookie fresh_authority issued.2
    [OpIssue (Some 330) other; OpVerify None client [1]]) as [E|E];
    [by_compute|reflexivity|discriminate|vm_compute; reflexivity| |right; reflexivity|exact E|vm_compute in E; discriminate].
  constructor; [intros n [= <-]; discriminate|]. constructor; [intros n; discriminate|constructor].
Defined.

Lemma cookie_exact_witness :
  no_panic (verify (Some 331) other cookie issued.2).1 /\ (verify (Some 331) other cookie issued.2).1 = Ok false.
Proof.
  split; [|vm_compute; reflexivity].
  exact (proj1 (cookie_exact (Some 331) other cookie issued.2 ltac:(by_compute))).
Defined.
End Witnesses.
