(* ===== verification/Obfuscation.v ===== *)
(** Padding profiles (shph-obfuscation/src/lib.rs): the tiers of canonical
    frame sizes, the padding envelope written before encryption and removed
    after decryption, and the uniform sampler of the jitter.  A buffer passed
    as [&mut Vec<u8>] is returned next to the outcome; the guard
    [WipeBufferOnError] empties it on every error. *)
From S2P Require Import Prelude Error Text Primitives Stealth.

Definition PROFILE_MAGIC : bytes := str_bytes "SPAD".
Definition PROFILE_HEADER_BYTES : Z := 7.
Definition LOW_JITTER_BYTES : Z := 7.

(** [WipeBufferOnError::prepare]: bytes past the target are wiped, then the
    buffer is cleared. *)
Definition prepare (buffer : bytes) (target_len : Z) : bytes :=
  let _wiped := if target_len <? zlen buffer
                then ztake target_len buffer ++ zreplicate (zlen buffer - target_len) 0
                else buffer in
  [].

Record ObfuscationPreset := mkObfuscationPreset { shroud : ShroudProfile; stealth : StealthProfile }.

Inductive ProfileTier := Low | Medium | High | TunedLow | TunedMedium | TunedHigh.

#[export] Instance ProfileTier_eq_dec : EqDecision ProfileTier.
Proof. solve_decision. Defined.

Definition tier_as_str (t : ProfileTier) : string :=
  match t with
  | Low => "low" | Medium => "medium" | High => "high"
  | TunedLow => "tuned-low" | TunedMedium => "tuned-medium" | TunedHigh => "tuned-high"
  end.

Definition tier_id (t : ProfileTier) : Z :=
  match t with
  | Low => 0 | Medium => 1 | High => 2 | TunedLow => 3 | TunedMedium => 4 | TunedHigh => 5
  end.

Definition tier_from_id (id : Z) : option ProfileTier :=
  match id with
  | 0 => Some Low | 1 => Some Medium | 2 => Some High
  | 3 => Some TunedLow | 4 => Some TunedMedium | 5 => Some TunedHigh
  | _ => None
  end.

Definition base_tiers (t : ProfileTier) : list Z :=
  match t with
  | Low => [128; 256]
  | Medium => [128; 256; 512; 1024; 1360]
  | High => [512; 1024; 1360]
  | TunedLow => [64; 96; 128; 192; 256; 512; 768]
  | TunedMedium => [128; 256; 512; 768; 1024; 1360]
  | TunedHigh => [512; 768; 1024; 1280; 1360]
  end.

Definition from_shroud_profile (p : ShroudProfile) : ProfileTier :=
  let among l := bool_decide (shroud_name p ∈ (l : list string)) in
  if among ["tuned-low"] then TunedLow
  else if among ["tuned-medium"] then TunedMedium
  else if among ["tuned-high"] then TunedHigh
  else if among ["low-latency"] then Low
  else if among ["bulk"; "extreme-lab"] then High
  else Medium.

Definition accepts_frame_len (t : ProfileTier) (len : Z) : bool :=
  match t with
  | Low => in_range 128 (128 + LOW_JITTER_BYTES) len || in_range 256 (256 + LOW_JITTER_BYTES) len
  | TunedLow => existsb (fun base => in_range base (base + 3) len) (base_tiers t)
  | Medium | High | TunedMedium | TunedHigh => bool_decide (len ∈ base_tiers t)
  end.

(** [base_tiers()[base_tiers().len() - 1]]; the tables are not empty. *)
Definition largest_base (t : ProfileTier) : Z := List.last (base_tiers t) 0.

Definition max_canonical_frame_len (t : ProfileTier) : Z :=
  largest_base t + match t with Low => LOW_JITTER_BYTES | TunedLow => 3 | _ => 0 end.

Definition max_payload_bytes (t : ProfileTier) : Z :=
  saturating_sub (largest_base t) PROFILE_HEADER_BYTES.

Definition tier_from_str (value : string) : result ProfileTier :=
  let s := to_ascii_lowercase (trim value) in
  let among l := bool_decide (s ∈ (l : list string)) in
  if among ["low"; "low-latency"] then Ok Low
  else if among ["medium"; "balanced"] then Ok Medium
  else if among ["high"; "bulk"; "extreme"; "extreme-lab"] then Ok High
  else if among ["tuned"; "optimized"; "tuned-medium"; "optimized-medium"] then Ok TunedMedium
  else if among ["tuned-low"; "optimized-low"] then Ok TunedLow
  else if among ["tuned-high"; "optimized-high"] then Ok TunedHigh
  else Err (Obfuscation ("unsupported padding profile: " +:+ value)).

Section Padding.
Context {R : Type} `{RngOps R}.

(** The rejection loop of [sample_uniform_below]; running out of [fuel] is the
    outcome [Panic], which the jitter bounds in use never reach. *)
Fixpoint sample_loop (fuel : nat) (upper limit : Z) (r : R) : result Z * R :=
  match fuel with
  | O => (Panic, r)
  | S fuel' =>
      let '(sample, r) := rng_next_u32 r in
      if sample <? limit then (Ok (sample mod upper), r)
      else sample_loop fuel' upper limit r
  end.

Definition sample_uniform_below (fuel : nat) (upper : Z) (r : R) : result Z * R :=
  if upper <=? 1 then (Ok 0, r)
  else
    let range := u32_max + 1 in
    let limit := range - range mod upper in
    sample_loop fuel upper limit r.

(** The bytes [apply_profile_into_with_rng] leaves in the buffer. *)
Definition profile_frame (profile : ProfileTier) (payload framed : bytes) (r : R)
  : result bytes * R :=
  let! minimum, r :=
    (ok_or (checked_add usize_max PROFILE_HEADER_BYTES (zlen payload))
       (Obfuscation "profile payload length overflow"), r) in
  let! base, r :=
    (ok_or (find (fun size => minimum <=? size) (base_tiers profile))
       (Obfuscation (tier_as_str profile +:+ " profile cannot carry a "
          +:+ show (zlen payload) +:+ "-byte payload")), r) in
  let! payload_len, r :=
    (ok_or (try_from u16_max (zlen payload)) (Obfuscation "profile payload exceeds u16"), r) in
  let! jitter, r :=
    match profile with
    | Low => sample_uniform_below 1 (LOW_JITTER_BYTES + 1) r
    | TunedLow => sample_uniform_below 1 (3 + 1) r
    | _ => (Ok 0, r)
    end in
  let! frame_len, r :=
    (ok_or (checked_add usize_max base jitter) (Obfuscation "profile frame length overflow"), r) in
  if u16_max <? frame_len then (Err (Obfuscation "profile frame length exceeds u16"), r)
  else
    let buffer := resize (prepare framed frame_len) frame_len 0 in
    let payload_end := PROFILE_HEADER_BYTES + zlen payload in
    let! buffer, r := (copy_into buffer 0 4 PROFILE_MAGIC, r) in
    let! buffer, r := (store buffer 4 (tier_id profile), r) in
    let! buffer, r := (copy_into buffer 5 7 (be_bytes 2 payload_len), r) in
    let! buffer, r := (copy_into buffer PROFILE_HEADER_BYTES payload_end payload, r) in
    if payload_end <? zlen buffer then
      let! tail, r := (slice_from buffer payload_end, r) in
      let '(filled, r) := rng_fill (zlen tail) r in
      match filled with
      | Some random => (copy_into buffer payload_end (zlen buffer) random, r)
      | None => (Err (Crypto "OS randomness unavailable"), r)
      end
    else (Ok buffer, r).

Definition apply_profile_into_with_rng (profile : ProfileTier) (payload framed : bytes) (r : R)
  : result unit * (bytes * R) :=
  match profile_frame profile payload framed r with
  | (Ok buffer, r) => (Ok (), (buffer, r))
  | (Err e, r) => (Err e, ([], r))
  | (Panic, r) => (Panic, ([], r))
  end.

(** [ProfilePadder]: a tier and a generator. *)
Record ProfilePadder := mkProfilePadder { padder_profile : ProfileTier; padder_rng : R }.

Definition apply_into (payload framed : bytes) (p : ProfilePadder)
  : result unit * (bytes * ProfilePadder) :=
  let '(res, (framed, r)) :=
    apply_profile_into_with_rng (padder_profile p) payload framed (padder_rng p) in
  (res, (framed, mkProfilePadder (padder_profile p) r)).

Definition apply (payload : bytes) (p : ProfilePadder) : result bytes * ProfilePadder :=
  let '(res, (framed, p)) := apply_into payload [] p in
  (rbind res (fun _ => Ok framed), p).

(** [apply_profile]: the operating system's generator is [r]. *)
Definition apply_profile (profile : ProfileTier) (payload : bytes) (r : R) : result bytes * R :=
  let '(res, (framed, r)) := apply_profile_into_with_rng profile payload [] r in
  (rbind res (fun _ => Ok framed), r).
End Padding.

Arguments ProfilePadder R : clear implicits.

(** The payload [remove_profile_in_place] leaves in the buffer. *)
Definition unprofiled (profile : ProfileTier) (buffer : bytes) : result bytes :=
  let? has_magic :=
    (if zlen buffer <? 4 then Ok false
     else let? head := slice buffer 0 4 in Ok (bytes_eqb head PROFILE_MAGIC)) in
  if negb has_magic then Ok buffer
  else if zlen buffer <? PROFILE_HEADER_BYTES
  then Err (Obfuscation "profile envelope is truncated")
  else
    let? tier := index buffer 4 in
    if negb (tier =? tier_id profile) then Err (Obfuscation "profile envelope tier mismatch")
    else if negb (accepts_frame_len profile (zlen buffer))
    then Err (Obfuscation "profile envelope size is not a canonical tier")
    else
      let? b5 := index buffer 5 in
      let? b6 := index buffer 6 in
      let payload_len := be_val [b5; b6] in
      if zlen buffer - PROFILE_HEADER_BYTES <? payload_len
      then Err (Obfuscation "profile envelope payload length exceeds frame")
      else
        let payload_end := PROFILE_HEADER_BYTES + payload_len in
        let? buffer := copy_within_front buffer PROFILE_HEADER_BYTES payload_end in
        wipe_truncate buffer payload_len.

Definition remove_profile_in_place (profile : ProfileTier) (framed : bytes)
  : result unit * bytes :=
  match unprofiled profile framed with
  | Ok buffer => (Ok (), buffer)
  | Err e => (Err e, [])
  | Panic => (Panic, [])
  end.

Definition remove_profile (profile : ProfileTier) (framed : bytes) : result bytes :=
  let '(res, reusable) := remove_profile_in_place profile framed in
  rbind res (fun _ => Ok reusable).

(** ** Lemmas: tiers *)

Lemma tier_from_id_id t : tier_from_id (tier_id t) = Some t.
Proof. by destruct t. Qed.

Lemma tier_id_inj t t' : tier_id t = tier_id t' -> t = t'.
Proof. destruct t, t'; done. Qed.

(** [find] returns an element of the list that satisfies the test, and finds
    one when there is one. *)
Lemma find_le_Some l m b :
  find (fun size => m <=? size) l = Some b -> b ∈ l /\ m <= b.
Proof. intros [Hin Hb]%find_some. apply list_elem_of_In in Hin. bool_prop. done. Qed.

Lemma find_le_ex l m x : x ∈ l -> m <= x -> is_Some (find (fun size => m <=? size) l).
Proof.
  intros Hin Hm. destruct (find _ l) as [b|] eqn:E; [eauto|].
  apply list_elem_of_In in Hin. pose proof (find_none _ _ E x Hin) as F.
  simpl in F. bool_prop. lia.
Qed.

Lemma find_le_None l m : find (fun size => m <=? size) l = None -> Forall (fun x => x < m) l.
Proof.
  intros E. apply Forall_forall. intros x Hin. apply list_elem_of_In in Hin.
  pose proof (find_none _ _ E x Hin) as F. simpl in F. bool_prop. lia.
Qed.

(** Bounds of the jitter a tier adds. *)
Definition jitter_of (t : ProfileTier) (j : Z) : Prop :=
  0 <= j <= match t with Low => LOW_JITTER_BYTES | TunedLow => 3 | _ => 0 end.

Lemma base_tier_bounds t b : b ∈ base_tiers t -> 64 <= b <= largest_base t.
Proof.
  assert (Forall (fun b => 64 <= b <= largest_base t) (base_tiers t)) as H
    by (destruct t; by_compute).
  rewrite Forall_forall in H. auto.
Qed.

Lemma largest_base_in t : largest_base t ∈ base_tiers t /\ largest_base t <= 1360.
Proof. destruct t; split; by_compute || (vm_compute; congruence). Qed.

Lemma accepts_base_jitter t b j :
  b ∈ base_tiers t -> jitter_of t j -> accepts_frame_len t (b + j) = true.
Proof.
  unfold jitter_of, LOW_JITTER_BYTES. intros Hb Hj. destruct t; cbn [accepts_frame_len base_tiers] in *.
  1: { rewrite !elem_of_cons, elem_of_nil in Hb. unfold in_range, LOW_JITTER_BYTES.
       apply orb_true_iff. rewrite !andb_true_iff, !Z.leb_le. lia. }
  3: { apply existsb_exists.
       exists b. split; [by apply list_elem_of_In|].
       unfold in_range. rewrite andb_true_iff, !Z.leb_le. lia. }
  all: replace (b + j) with b by lia; by apply bool_decide_eq_true.
Qed.

Lemma accepts_frame_len_bounds t n :
  accepts_frame_len t n = true -> 64 <= n <= max_canonical_frame_len t.
Proof.
  destruct t; simpl; unfold max_canonical_frame_len, largest_base, in_range, LOW_JITTER_BYTES; simpl.
  1,4: rewrite ?orb_true_iff, ?andb_true_iff, ?Z.leb_le; intuition (lia || done).
  all: intros H; bool_prop; rewrite ?elem_of_cons, ?elem_of_nil in H; intuition lia.
Qed.

(** ** Lemmas: the sampler *)

Section Sampler.
Context {R : Type} `{RngLaws R}.

(** When the bound divides the range, the first sample is used: one unit of
    fuel is enough. *)
Lemma sample_uniform_ok upper r fuel :
  1 < upper -> (upper | u32_max + 1) -> (0 < fuel)%nat ->
  exists j r', sample_uniform_below fuel upper r = (Ok j, r') /\ 0 <= j < upper.
Proof.
  intros Hu Hd Hf. unfold sample_uniform_below. rewrite (proj2 (Z.leb_gt _ _)) by lia.
  destruct fuel as [|fuel]; [lia|]. simpl.
  pose proof (rng_next_u32_bounds r) as B. destruct (rng_next_u32 r) as [x r']. simpl in B.
  apply Z.mod_divide in Hd; [|lia]. rewrite Hd. rewrite (proj2 (Z.ltb_lt _ _)) by lia.
  eexists _, _. split; [done|]. apply Z.mod_pos_bound. lia.
Qed.

(** In general every sampled value is below the bound. *)
Lemma sample_loop_bound fuel upper limit r x :
  0 < upper -> (sample_loop fuel upper limit r).1 = Ok x -> 0 <= x < upper.
Proof.
  intros Hu. revert r. induction fuel as [|fuel IH]; intros r; simpl; [done|].
  destruct (rng_next_u32 r) as [s r']. case_if; [|apply IH].
  intros [= <-]. apply Z.mod_pos_bound. lia.
Qed.

Lemma jitter_ok t r :
  exists j r', match t with
    | Low => sample_uniform_below 1 (LOW_JITTER_BYTES + 1) r
    | TunedLow => sample_uniform_below 1 (3 + 1) r
    | _ => (Ok 0, r)
    end = (Ok j, r') /\ jitter_of t j.
Proof.
  unfold jitter_of, LOW_JITTER_BYTES.
  destruct t; try (eexists _, _; split; [done|lia]).
  - destruct (sample_uniform_ok (7 + 1) r 1) as (j & r' & E & Hj); [lia|by exists 536870912|lia|].
    exists j, r'. split; [done|lia].
  - destruct (sample_uniform_ok (3 + 1) r 1) as (j & r' & E & Hj); [lia|by exists 1073741824|lia|].
    exists j, r'. split; [done|lia].
Qed.

(** ** Lemmas: the envelope *)

Definition profile_layout (t : ProfileTier) (payload tail : bytes) : bytes :=
  PROFILE_MAGIC ++ [tier_id t] ++ be_bytes 2 (zlen payload) ++ payload ++ tail.

Lemma zlen_profile_layout t payload tail :
  zlen (profile_layout t payload tail) = 7 + zlen payload + zlen tail.
Proof. unfold profile_layout. change PROFILE_MAGIC with [83; 80; 65; 68]. zl. Qed.

Lemma profile_frame_ok t payload framed r :
  zlen payload <= max_payload_bytes t ->
  exists r', profile_frame t payload framed r = (Err (Crypto "OS randomness unavailable"), r') \/
  exists tail, profile_frame t payload framed r = (Ok (profile_layout t payload tail), r') /\
    bytes_ok tail /\ accepts_frame_len t (zlen (profile_layout t payload tail)) = true.
Proof.
  intros Hp. pose proof (largest_base_in t) as [Hin Hmax]. pose proof (zlen_nonneg payload) as Hpos.
  unfold max_payload_bytes, saturating_sub, PROFILE_HEADER_BYTES in Hp.
  pose proof (base_tier_bounds t _ Hin).
  unfold profile_frame, checked_add, PROFILE_HEADER_BYTES, usize_max, u64_max.
  rewrite (proj2 (Z.leb_le _ _)) by lia. cbn [ok_or sbind].
  destruct (find_le_ex (base_tiers t) (7 + zlen payload) (largest_base t) Hin ltac:(lia)) as [base Hb].
  rewrite Hb. apply find_le_Some in Hb as [Hb Hle].
  pose proof (base_tier_bounds t base Hb). cbn [ok_or sbind].
  unfold try_from, u16_max. rewrite (proj2 (Z.leb_le _ _)) by lia. cbn [ok_or sbind].
  destruct (jitter_ok t r) as (j & r1 & -> & Hj). cbn [sbind].
  pose proof (accepts_base_jitter t base j Hb Hj) as Hacc.
  assert (0 <= j <= 7) as Hj7 by (unfold jitter_of, LOW_JITTER_BYTES in Hj; destruct t; lia).
  rewrite (proj2 (Z.leb_le _ _)) by lia. cbn [ok_or sbind].
  rewrite (proj2 (Z.ltb_ge _ _)) by lia. unfold prepare. rewrite resize_nil.
  set (n := base + j) in *. cbv zeta.
  rewrite <- (app_nil_l (zreplicate n 0)), copy_into_zeros by (done || lia). cbn [sbind].
  rewrite app_nil_l, store_zeros by (done || lia). cbn [sbind].
  rewrite copy_into_zeros by (done || zl). cbn [sbind].
  rewrite copy_into_zeros by (change PROFILE_MAGIC with [83; 80; 65; 68]; zl). cbn [sbind].
  set (pre := ((PROFILE_MAGIC ++ _) ++ _) ++ payload).
  assert (zlen pre = 7 + zlen payload) as Hpre by (unfold pre; change PROFILE_MAGIC with [83; 80; 65; 68]; zl).
  set (m := _ - _ - _ - _). replace m with (n - 7 - zlen payload) by (unfold m; zl). clear m.
  set (m := n - 7 - zlen payload). assert (zlen (pre ++ zreplicate m 0) = n) as -> by zl.
  assert (forall tail, profile_layout t payload tail = pre ++ tail) as Hlay.
  { intros tail. unfold profile_layout, pre. by rewrite <- !app_assoc. }
  case_if; bool_prop.
  - rewrite slice_from_ok by zl. cbn [sbind]. rewrite zdrop_app by done.
    pose proof (rng_fill_len (zlen (zreplicate m 0)) r1) as Hfill.
    destruct (rng_fill _ r1) as [[random|] r2]; simpl in Hfill; [|eauto].
    destruct (Hfill random eq_refl) as [Hlen Hok]. rewrite zlen_zreplicate in Hlen.
    exists r2. right. exists random. rewrite Hlay, zlen_app.
    replace n with (7 + zlen payload + m) at 1 by lia.
    rewrite copy_into_tail by lia. split; [done|]. split; [done|].
    by replace (zlen pre + zlen random) with n by lia.
  - exists r1. right. exists []. rewrite Hlay. replace m with 0 by lia.
    change (zreplicate 0 0) with (@nil Z). rewrite !app_nil_r, Hpre. split; [done|]. split; [constructor|].
    by replace (7 + zlen payload) with n by lia.
Qed.

Lemma profile_frame_too_long t payload framed r :
  max_payload_bytes t < zlen payload -> zlen payload + 7 <= usize_max ->
  profile_frame t payload framed r =
  (Err (Obfuscation (tier_as_str t +:+ " profile cannot carry a "
          +:+ show (zlen payload) +:+ "-byte payload")), r).
Proof.
  intros Hp Hu. pose proof (largest_base_in t) as [Hin Hmax].
  unfold max_payload_bytes, saturating_sub, PROFILE_HEADER_BYTES in Hp.
  unfold profile_frame, checked_add, PROFILE_HEADER_BYTES.
  rewrite (proj2 (Z.leb_le _ _)) by lia. cbn [ok_or sbind].
  destruct (find _ _) as [b|] eqn:E; [|done].
  apply find_le_Some in E as [Hb Hle]. pose proof (base_tier_bounds t b Hb). lia.
Qed.
End Sampler.

(** ** Lemmas: removal *)

(** What removing a profile does to a buffer with a complete envelope. *)
Lemma unprofiled_layout t payload tail :
  accepts_frame_len t (zlen (profile_layout t payload tail)) = true ->
  zlen payload <= u16_max ->
  unprofiled t (profile_layout t payload tail) = Ok payload.
Proof.
  intros Hacc Hp. pose proof (accepts_frame_len_bounds _ _ Hacc) as [Hlo _].
  rewrite zlen_profile_layout in Hlo. pose proof (zlen_nonneg payload).
  pose proof (zlen_nonneg tail). unfold u16_max in Hp.
  unfold unprofiled. rewrite zlen_profile_layout in *.
  rewrite (proj2 (Z.ltb_ge _ _)) by lia.
  assert (slice (profile_layout t payload tail) 0 4 = Ok PROFILE_MAGIC) as ->.
  { apply (slice_app 0 4 [] PROFILE_MAGIC); done. }
  cbn [rbind]. rewrite bytes_eqb_refl. cbn [negb]; cbv iota.
  unfold PROFILE_HEADER_BYTES. rewrite (proj2 (Z.ltb_ge _ _)) by lia.
  assert (0 <= zlen payload < 65536) as (a & b & Hab & Hval)%be_bytes_2 by lia.
  assert (profile_layout t payload tail = [83; 80; 65; 68; tier_id t; a; b] ++ payload ++ tail) as ->.
  { unfold profile_layout. rewrite Hab. done. }
  idx. rewrite Z.eqb_refl, Hacc. cbn [negb]; cbv iota. idx. rewrite Hval.
  rewrite (proj2 (Z.ltb_ge _ _)) by lia.
  pose proof (copy_within_front_wipe 7 (7 + zlen payload)
    ([83; 80; 65; 68; tier_id t; a; b] ++ payload ++ tail)) as E.
  replace (7 + zlen payload - 7) with (zlen payload) in E by lia.
  cbn [app] in E. rewrite E by zl.
  change (83 :: 80 :: 65 :: 68 :: tier_id t :: a :: b :: payload ++ tail)
    with ([83; 80; 65; 68; tier_id t; a; b] ++ payload ++ tail).
  by rewrite zdrop_app, ztake_app.
Qed.


(** Removal of any buffer: unchanged without the marker, otherwise an error or
    the payload of a complete envelope. *)
Lemma unprofiled_cases t buffer :
  bytes_ok buffer ->
  (unprofiled t buffer = Ok buffer /\ ~ (exists rest, buffer = PROFILE_MAGIC ++ rest)) \/
  (exists rest e, unprofiled t buffer = Err e /\ buffer = PROFILE_MAGIC ++ rest) \/
  (exists payload tail, buffer = profile_layout t payload tail /\ zlen payload <= u16_max /\
     accepts_frame_len t (zlen buffer) = true).
Proof.
  intros Hb. unfold unprofiled.
  destruct (Z.ltb_spec (zlen buffer) 4) as [Hl|Hl].
  { left. split; [done|]. intros [rest ->]. rewrite zlen_app in Hl.
    change (zlen PROFILE_MAGIC) with 4 in Hl. pose proof (zlen_nonneg rest). lia. }
  rewrite slice_ok by lia. cbn [rbind]. rewrite zdrop_0, Z.sub_0_r.
  destruct (bytes_eqb (ztake 4 buffer) PROFILE_MAGIC) eqn:Hm; cbn [negb]; cbv iota; cycle 1.
  { left. split; [done|]. intros [rest ->]. rewrite ztake_app, bytes_eqb_refl in Hm by done. done. }
  right. apply bytes_eqb_eq in Hm.
  assert (buffer = PROFILE_MAGIC ++ zdrop 4 buffer) as Hsplit by (by rewrite <- Hm, ztake_zdrop).
  unfold PROFILE_HEADER_BYTES. destruct (Z.ltb_spec (zlen buffer) 7) as [Hl7|Hl7]; [eauto|].
  destruct (list_7 buffer Hl7) as (b0 & b1 & b2 & b3 & id & a & b & r & ->).
  change PROFILE_MAGIC with [83; 80; 65; 68] in Hm. injection Hm as -> -> -> ->.
  idx. destruct (Z.eqb_spec id (tier_id t)) as [->|]; cbn [negb]; cbv iota; [|eauto].
  destruct (accepts_frame_len _ _) eqn:Hacc; cbn [negb]; cbv iota; [|eauto].
  idx. destruct (Z.ltb_spec (zlen ([83; 80; 65; 68; tier_id t; a; b] ++ r) - 7) (be_val [a; b]))
    as [Hlt|Hge]; [left|right].
  { rewrite (proj2 (Z.ltb_lt _ _)) by exact Hlt. eauto. }
  assert (bytes_ok [a; b]) as Hab.
  { by apply (bytes_ok_app [_; _; _; _; _]), proj2, (bytes_ok_app [a; b]), proj1 in Hb. }
  pose proof (be_val_bound _ Hab) as Hn. change (256 ^ zlen [a; b]) with 65536 in Hn.
  exists (ztake (be_val [a; b]) r), (zdrop (be_val [a; b]) r).
  assert (zlen (ztake (be_val [a; b]) r) = be_val [a; b]) as Hz by zl.
  split; [|split; [unfold u16_max; lia|done]].
  unfold profile_layout. rewrite ztake_zdrop, Hz. change (be_bytes 2) with (be_bytes (length [a; b])).
  by rewrite be_bytes_be_val.
Qed.

Lemma max_canonical_bound t : max_canonical_frame_len t <= 1367.
Proof. destruct t; vm_compute; congruence. Qed.

(** Applying a profile: an error with an empty buffer, or a frame that removal
    inverts. *)
Lemma apply_profile_cases {R} `{RngLaws R} t payload framed r :
  bytes_ok payload -> zlen payload + 7 <= usize_max ->
  (exists e r', apply_profile_into_with_rng t payload framed r = (Err e, ([], r'))) \/
  (exists frame r', apply_profile_into_with_rng t payload framed r = (Ok (), (frame, r')) /\
     zlen payload <= max_payload_bytes t /\
     bytes_ok frame /\ accepts_frame_len t (zlen frame) = true /\
     remove_profile_in_place t frame = (Ok (), payload)).
Proof.
  intros Hb Hu. unfold apply_profile_into_with_rng.
  destruct (Z.leb_spec (zlen payload) (max_payload_bytes t)) as [Hp|Hp];
    [|rewrite profile_frame_too_long by done; eauto].
  destruct (profile_frame_ok t payload framed r Hp) as [r' [->|(tail & -> & Htail & Hacc)]];
    [eauto|right].
  pose proof (largest_base_in t) as [_ Hmax]. pose proof Hp as Hp'.
  unfold max_payload_bytes, saturating_sub, PROFILE_HEADER_BYTES in Hp'.
  eexists _, r'. split; [done|split; [done|split; [|split; [done|]]]].
  - unfold profile_layout. rewrite !bytes_ok_app. repeat split; auto with bytes; [by_compute|].
    destruct t; by_compute.
  - unfold remove_profile_in_place. rewrite unprofiled_layout; [done|done|unfold u16_max; lia].
Qed.

(** ** Properties *)

(** padding round trip.  For every tier and every payload up to the tier's
    maximum, applying the profile to any reused buffer either reports that
    randomness is unavailable, with the buffer emptied, or leaves a frame whose
    length is canonical for the tier and from which removal recovers exactly
    the payload; a longer payload is refused and the buffer emptied.  The
    jitter loop ends and nothing panics. *)
Theorem profile_round_trip {R} `{RngLaws R} t payload framed r :
  bytes_ok payload -> zlen payload + 7 <= usize_max ->
  let '(res, (frame, r')) := apply_profile_into_with_rng t payload framed r in
  if zlen payload <=? max_payload_bytes t then
    (res = Err (Crypto "OS randomness unavailable") /\ frame = []) \/
    (res = Ok () /\ accepts_frame_len t (zlen frame) = true /\ bytes_ok frame /\
     zlen frame <= max_canonical_frame_len t /\
     remove_profile_in_place t frame = (Ok (), payload))
  else is_err res = true /\ frame = [].
Proof.
  intros Hb Hu. destruct (Z.leb_spec (zlen payload) (max_payload_bytes t)) as [Hp|Hp].
  - unfold apply_profile_into_with_rng.
    destruct (profile_frame_ok t payload framed r Hp) as [r' [->|(tail & E & _)]]; [cbv iota beta; by left|].
    destruct (apply_profile_cases t payload framed r Hb Hu)
      as [(e & r2 & Ea)|(frame & r2 & Ea & _ & Hfb & Hacc & Hrm)];
      unfold apply_profile_into_with_rng in Ea; rewrite E in Ea; [done|].
    rewrite E. injection Ea as <- <-. right. split; [done|split; [done|split; [done|split; [|done]]]].
    by apply accepts_frame_len_bounds.
  - unfold apply_profile_into_with_rng. by rewrite profile_frame_too_long.
Qed.

(** C12: removal of a received buffer fails closed.  On any byte string removal
    does not panic; a buffer without the marker is returned unchanged; a buffer
    with the marker is either reduced to the payload of a complete envelope of
    this tier, of canonical length, or rejected with the buffer emptied. *)
Theorem remove_profile_fails_closed t buffer :
  bytes_ok buffer ->
  let '(res, rest_buf) := remove_profile_in_place t buffer in
  (res = Ok () /\ rest_buf = buffer /\ ~ (exists rest, buffer = PROFILE_MAGIC ++ rest)) \/
  (exists e rest, res = Err e /\ rest_buf = [] /\ buffer = PROFILE_MAGIC ++ rest) \/
  (exists tail, res = Ok () /\ buffer = profile_layout t rest_buf tail /\
     zlen rest_buf <= u16_max /\ accepts_frame_len t (zlen buffer) = true).
Proof.
  intros Hb. unfold remove_profile_in_place.
  destruct (unprofiled_cases t buffer Hb) as [[-> Hm]|[(rest & e & -> & Hm)|(payload & tail & -> & Hp & Hacc)]].
  - cbv iota beta. by left.
  - cbv iota beta. right. left. eauto.
  - rewrite unprofiled_layout by done. cbv iota beta. right. right. eauto.
Qed.

(** ** Witnesses: the properties at concrete inputs *)
Module Witnesses.
Import Toy.

Lemma profile_round_trip_witness :
  let '(res, (frame, _)) := apply_profile_into_with_rng TunedLow [1; 2; 3] [9; 9] 6 in
  res = Ok () /\ zlen frame = 66 /\ remove_profile_in_place TunedLow frame = (Ok (), [1; 2; 3]).
Proof.
  pose proof (profile_round_trip TunedLow [1; 2; 3] [9; 9] 6 ltac:(by_compute) ltac:(vm_compute; discriminate)) as H.
  destruct (apply_profile_into_with_rng TunedLow [1; 2; 3] [9; 9] 6) as [res [frame r']] eqn:E.
  vm_compute in E. injection E as <- <- <-. destruct H as [[H _]|(_ & _ & _ & _ & H)]; [discriminate H|].
  split; [reflexivity|]. split; [reflexivity|exact H].
Defined.

Lemma remove_profile_fails_closed_witness :
  remove_profile_in_place Low (str_bytes "SPAD" ++ [9; 0; 0]) =
  (Err (Obfuscation "profile envelope tier mismatch"), []).
Proof.
  pose proof (remove_profile_fails_closed Low (str_bytes "SPAD" ++ [9; 0; 0]) ltac:(by_compute)) as H.
  destruct (remove_profile_in_place _ _) as [res b] eqn:E. vm_compute in E. injection E as <- <-.
  destruct H as [(H & _)|[(e & rest & H & _)|(tail & H & _)]]; [discriminate H|reflexivity|discriminate H].
Defined.

End Witnesses.
