(* ===== verification/PhantomOne.v ===== *)
(** Phantom One framing (shph-transport/src/phantom_one.rs): configuration,
    target-size selection, the encoder with its sequence numbers, metrics and
    padding budget, and the decoder with its replay bitmap, which implements
    the [AntiReplay] interface. *)
From stdpp Require Import gmap.
From S2P Require Import Prelude Error Text Primitives Replay Obfuscation.

Definition PHANTOM_ONE_MAGIC : bytes := [80; 72; 49; 0].
Definition PHANTOM_ONE_VERSION : Z := 1.
Definition PHANTOM_ONE_HEADER_BYTES : Z := 24.
Definition PHANTOM_ONE_MAX_ENVELOPE_BYTES : Z := u16_max.
Definition PHANTOM_ONE_MAX_PAYLOAD_BYTES : Z :=
  PHANTOM_ONE_MAX_ENVELOPE_BYTES - PHANTOM_ONE_HEADER_BYTES.
Definition PHANTOM_ONE_MAX_PADDING_BYTES : Z := 4096.
Definition PHANTOM_ONE_DEFAULT_REPLAY_WINDOW : Z := 64.

Definition MAGIC_END : Z := 4.
Definition VERSION_OFFSET : Z := 4.
Definition PROFILE_OFFSET : Z := 5.
Definition GENERATION_OFFSET : Z := 6.
Definition FRAME_TYPE_OFFSET : Z := 10.
Definition SEQUENCE_OFFSET : Z := 11.
Definition PAYLOAD_LENGTH_OFFSET : Z := 19.
Definition TARGET_LENGTH_OFFSET : Z := 21.
Definition RESERVED_OFFSET : Z := 23.

Definition protocol (message : string) : ShphError := Protocol message.

Inductive PhantomOneFrameType := Data | Control | Keepalive.

Definition frame_type_u8 (t : PhantomOneFrameType) : Z :=
  match t with Data => 1 | Control => 2 | Keepalive => 3 end.

Definition frame_type_try_from (value : Z) : result PhantomOneFrameType :=
  if value =? frame_type_u8 Data then Ok Data
  else if value =? frame_type_u8 Control then Ok Control
  else if value =? frame_type_u8 Keepalive then Ok Keepalive
  else Err (protocol "unsupported Phantom One frame type").

(** ** Configuration *)

Inductive SizeSelection := FirstFit | Weighted (weights : list Z).

Record PhantomOneConfig := mkPhantomOneConfig {
  profile : ProfileTier;
  min_padding : Z;
  max_padding : Z;
  profile_bound : bool;
  selection : SizeSelection;
  padding_budget : option Z
}.

Record EnvelopeMetrics := mkEnvelopeMetrics {
  frames : Z; payload_bytes : Z; header_bytes : Z; padding_bytes : Z
}.
Definition EnvelopeMetrics_default : EnvelopeMetrics := mkEnvelopeMetrics 0 0 0 0.

(** The two halves of [validate]: the class weights, then the padding bounds. *)
Definition validate_selection (c : PhantomOneConfig) : result unit :=
  match selection c with
  | Weighted weights =>
      let count := zlen (base_tiers (profile c)) in
      let? used := slice weights 0 count in
      let? rest := slice_from weights count in
      if negb (profile_bound c)
         || forallb (fun weight => weight =? 0) used
         || existsb (fun weight => negb (weight =? 0)) rest
      then Err (Config "invalid Phantom One class weights") else Ok ()
  | FirstFit => Ok ()
  end.

Definition validate (c : PhantomOneConfig) : result unit :=
  do? validate_selection c;
  if max_padding c <? min_padding c
  then Err (Config "Phantom One minimum padding must not exceed maximum padding")
  else if PHANTOM_ONE_MAX_PADDING_BYTES <? max_padding c
  then Err (Config ("Phantom One maximum padding must not exceed "
                    +:+ show PHANTOM_ONE_MAX_PADDING_BYTES +:+ " bytes"))
  else Ok ().

Definition PhantomOneConfig_new (min_padding max_padding : Z) : result PhantomOneConfig :=
  let config := mkPhantomOneConfig Medium min_padding max_padding false FirstFit None in
  do? validate config; Ok config.

Definition for_profile (profile : ProfileTier) : PhantomOneConfig :=
  mkPhantomOneConfig profile 0 PHANTOM_ONE_MAX_PADDING_BYTES true FirstFit None.

Definition config_with_profile (p : ProfileTier) (c : PhantomOneConfig) : PhantomOneConfig :=
  mkPhantomOneConfig p (min_padding c) (max_padding c) true (selection c) (padding_budget c).

Definition with_selection (sel : SizeSelection) (c : PhantomOneConfig) : result PhantomOneConfig :=
  let c := mkPhantomOneConfig (profile c) (min_padding c) (max_padding c) (profile_bound c)
             sel (padding_budget c) in
  do? validate c; Ok c.

Definition with_padding_budget (bytes : Z) (c : PhantomOneConfig) : PhantomOneConfig :=
  mkPhantomOneConfig (profile c) (min_padding c) (max_padding c) (profile_bound c)
    (selection c) (Some bytes).

Definition PhantomOneConfig_default : PhantomOneConfig :=
  mkPhantomOneConfig Medium 0 64 false FirstFit None.

Definition validate_path_mtu (path_mtu : Z) : result unit :=
  if negb (in_range PHANTOM_ONE_HEADER_BYTES PHANTOM_ONE_MAX_ENVELOPE_BYTES path_mtu)
  then Err (Config ("Phantom One path MTU must be between " +:+ show PHANTOM_ONE_HEADER_BYTES
                    +:+ " and " +:+ show PHANTOM_ONE_MAX_ENVELOPE_BYTES +:+ " bytes"))
  else Ok ().

Definition validate_payload_length (payload_len : Z) : result unit :=
  if (PHANTOM_ONE_MAX_PAYLOAD_BYTES <? payload_len) || (u16_max <? payload_len)
  then Err (protocol "Phantom One payload exceeds the Phantom One length bound")
  else Ok ().

(** ** Encoder *)

Section Encoder.
Context {R : Type} `{RngOps R}.

Record PhantomOneEncoder := mkPhantomOneEncoder {
  enc_generation : Z;
  next_sequence : option Z;
  enc_config : PhantomOneConfig;
  rng : R;
  metrics : EnvelopeMetrics
}.

Definition set_rng (e : PhantomOneEncoder) (r : R) : PhantomOneEncoder :=
  mkPhantomOneEncoder (enc_generation e) (next_sequence e) (enc_config e) r (metrics e).

(** [from_validated_config]; the generator of the given seed is a parameter. *)
Definition from_validated_config (generation : Z) (r : R) (config : PhantomOneConfig)
  : PhantomOneEncoder :=
  mkPhantomOneEncoder generation (Some 0) config r EnvelopeMetrics_default.

Definition encoder_with_config (generation : Z) (r : R) (config : PhantomOneConfig)
  : result PhantomOneEncoder :=
  do? validate config; Ok (from_validated_config generation r config).

Definition from_seed_at (generation sequence : Z) (r : R) : PhantomOneEncoder :=
  mkPhantomOneEncoder generation (Some sequence) PhantomOneConfig_default r EnvelopeMetrics_default.

Definition remaining_padding (e : PhantomOneEncoder) : Z :=
  match padding_budget (enc_config e) with
  | None => usize_max
  | Some budget => default usize_max
      (try_from usize_max (saturating_sub budget (padding_bytes (metrics e))))
  end.

(** The loop over [tiers.iter().zip(weights)] that spends [sample]. *)
Fixpoint pick_weighted (lo hi : Z) (tw : list (Z * Z)) (sample : Z) : result Z :=
  match tw with
  | [] => Panic (* unreachable!() *)
  | (tier, weight) :: tw' =>
      if negb (in_range lo hi tier) then pick_weighted lo hi tw' sample
      else if sample <? weight then Ok tier
      else pick_weighted lo hi tw' (sample - weight)
  end.

Definition weight_total (lo hi : Z) (tw : list (Z * Z)) : Z :=
  fold_right Z.add 0 (map snd (List.filter (fun p => in_range lo hi p.1) tw)).

Definition jitter_bound (t : ProfileTier) : Z :=
  match t with Low => 7 | TunedLow => 3 | _ => 0 end.

Definition target_size (payload_len path_mtu : Z) (e : PhantomOneEncoder)
  : result Z * PhantomOneEncoder :=
  let c := enc_config e in
  let! _ok, e := (validate c, e) in
  let! _ok, e := (validate_path_mtu path_mtu, e) in
  let! _ok, e := (validate_payload_length payload_len, e) in
  let! _seq, e := (ok_or (next_sequence e)
                     (ResourceExhausted "Phantom One sequence space exhausted"), e) in
  let! minimum, e := (ok_or (checked_add usize_max PHANTOM_ONE_HEADER_BYTES payload_len)
                        (protocol "Phantom One payload length overflow"), e) in
  let! minimum_target, e := (ok_or (checked_add usize_max minimum (min_padding c))
                               (protocol "Phantom One target length overflow"), e) in
  if path_mtu <? minimum_target
  then (Err (protocol "Phantom One minimum target exceeds path MTU"), e)
  else
    let! maximum, e :=
      (ok_or (checked_add usize_max minimum (Z.min (max_padding c) (remaining_padding e)))
         (protocol "Phantom One target length overflow"), e) in
    let maximum_target := Z.min maximum path_mtu in
    if maximum_target <? minimum_target
    then (Err (ResourceExhausted "Phantom One padding budget exhausted"), e)
    else
      let tiers := base_tiers (profile c) in
      match selection c with
      | Weighted weights =>
          let tw := zip tiers weights in
          let total := weight_total minimum_target maximum_target tw in
          if total =? 0
          then (Err (protocol "no weighted Phantom One class fits the remaining budget"), e)
          else
            let '(sample, r) := gen_range 0 total (rng e) in
            (rbind sample (pick_weighted minimum_target maximum_target tw), set_rng e r)
      | FirstFit =>
          match find (fun base_target => in_range minimum_target maximum_target base_target) tiers with
          | Some base_target =>
              let available_jitter :=
                Z.min (jitter_bound (profile c)) (maximum_target - base_target) in
              if available_jitter =? 0 then (Ok (base_target + 0), e)
              else
                let '(jitter, r) := gen_range 0 (available_jitter + 1) (rng e) in
                (rbind jitter (fun jitter => Ok (base_target + jitter)), set_rng e r)
          | None =>
              if profile_bound c
              then (Err (protocol "Phantom One payload does not fit the selected profile's canonical size classes"), e)
              else
                let '(target, r) := gen_range minimum_target (maximum_target + 1) (rng e) in
                (target, set_rng e r)
          end
      end.

(** The bytes [encode_with_target_into] writes into the cleared buffer. *)
Definition write_header (c : PhantomOneConfig) (generation sequence : Z)
    (frame_type : PhantomOneFrameType) (payload_u16 target_u16 : Z) (payload buffer : bytes)
  : result bytes :=
  let? buffer := copy_into buffer 0 MAGIC_END PHANTOM_ONE_MAGIC in
  let? buffer := store buffer VERSION_OFFSET PHANTOM_ONE_VERSION in
  let? buffer := store buffer PROFILE_OFFSET (tier_id (profile c)) in
  let? buffer := copy_into buffer GENERATION_OFFSET FRAME_TYPE_OFFSET (be_bytes 4 generation) in
  let? buffer := store buffer FRAME_TYPE_OFFSET (frame_type_u8 frame_type) in
  let? buffer := copy_into buffer SEQUENCE_OFFSET PAYLOAD_LENGTH_OFFSET (be_bytes 8 sequence) in
  let? buffer := copy_into buffer PAYLOAD_LENGTH_OFFSET TARGET_LENGTH_OFFSET (be_bytes 2 payload_u16) in
  let? buffer := copy_into buffer TARGET_LENGTH_OFFSET RESERVED_OFFSET (be_bytes 2 target_u16) in
  let? buffer := copy_into buffer RESERVED_OFFSET PHANTOM_ONE_HEADER_BYTES [0] in
  copy_into buffer PHANTOM_ONE_HEADER_BYTES (PHANTOM_ONE_HEADER_BYTES + zlen payload) payload.

Definition count_frame (m : EnvelopeMetrics) (payload_len padding_len : Z) : EnvelopeMetrics :=
  mkEnvelopeMetrics
    (saturating_add u64_max (frames m) 1)
    (saturating_add u64_max (payload_bytes m) payload_len)
    (saturating_add u64_max (header_bytes m) PHANTOM_ONE_HEADER_BYTES)
    (saturating_add u64_max (padding_bytes m) padding_len).

(** [encode_with_target_into], as a function to the new buffer contents; the
    previous contents are overwritten or, on an error, wiped. *)
Definition encode_with_target (frame_type : PhantomOneFrameType) (payload : bytes)
    (target_len path_mtu : Z) (e : PhantomOneEncoder) : result bytes * PhantomOneEncoder :=
  let c := enc_config e in
  let! _ok, e := (validate c, e) in
  let! _ok, e := (validate_path_mtu path_mtu, e) in
  let! _ok, e := (validate_payload_length (zlen payload), e) in
  let! sequence, e := (ok_or (next_sequence e)
                         (ResourceExhausted "Phantom One sequence space exhausted"), e) in
  let! minimum, e := (ok_or (checked_add usize_max PHANTOM_ONE_HEADER_BYTES (zlen payload))
                        (protocol "Phantom One payload length overflow"), e) in
  let! padding_len, e := (ok_or (checked_sub target_len minimum)
    (protocol "Phantom One target is smaller than the Phantom One header and payload"), e) in
  if (path_mtu <? target_len)
     || (PHANTOM_ONE_MAX_ENVELOPE_BYTES <? target_len)
     || (padding_len <? min_padding c)
     || (max_padding c <? padding_len)
     || (remaining_padding e <? padding_len)
  then (Err (protocol "Phantom One target is outside configured path-MTU bounds"), e)
  else if profile_bound c && negb (accepts_frame_len (profile c) target_len)
  then (Err (protocol "Phantom One target is outside the selected profile's canonical size classes"), e)
  else
    let! target_u16, e := (ok_or (try_from u16_max target_len)
                             (protocol "Phantom One target length overflow"), e) in
    let! payload_u16, e := (ok_or (try_from u16_max (zlen payload))
                              (protocol "Phantom One payload length overflow"), e) in
    let! buffer, e := (write_header c (enc_generation e) sequence frame_type payload_u16 target_u16
                         payload (resize [] target_len 0), e) in
    let! tail, e := (slice_from buffer minimum, e) in
    let '(filled, r) := rng_fill (zlen tail) (rng e) in
    match filled with
    | None => (Err (Crypto "Phantom One padding randomness failed"), set_rng e r)
    | Some padding =>
        let! buffer, e := (copy_into buffer minimum target_len padding, set_rng e r) in
        (Ok buffer,
         mkPhantomOneEncoder (enc_generation e) (checked_add u64_max sequence 1) c (rng e)
           (count_frame (metrics e) (zlen payload) padding_len))
    end.

(** [encode] and [encode_into]. *)
Definition encode (frame_type : PhantomOneFrameType) (payload : bytes) (path_mtu : Z)
    (e : PhantomOneEncoder) : result bytes * PhantomOneEncoder :=
  let! target_len, e := target_size (zlen payload) path_mtu e in
  encode_with_target frame_type payload target_len path_mtu e.

(** [encode_into]: the caller's buffer is replaced, or emptied on an error. *)
Definition encode_into (frame_type : PhantomOneFrameType) (payload : bytes) (path_mtu : Z)
    (envelope : bytes) (e : PhantomOneEncoder) : result unit * (bytes * PhantomOneEncoder) :=
  match encode frame_type payload path_mtu e with
  | (Ok buffer, e) => (Ok (), (buffer, e))
  | (Err err, e) => (Err err, ([], e))
  | (Panic, e) => (Panic, ([], e))
  end.
End Encoder.

Arguments PhantomOneEncoder R : clear implicits.

(** ** Decoder *)

Record PhantomOneFrame := mkPhantomOneFrame {
  fr_profile : ProfileTier;
  fr_generation : Z;
  fr_frame_type : PhantomOneFrameType;
  fr_sequence : Z;
  fr_payload : bytes;
  fr_target_len : Z;
  fr_padding_len : Z
}.

Record PhantomOneDecoder := mkPhantomOneDecoder {
  dec_generation : Z;
  window_size : Z;
  dec_config : PhantomOneConfig;
  highest_sequence : option Z;
  seen_bitmap : Z;
  padding_bytes_used : Z
}.

Definition with_config_and_window (generation : Z) (config : PhantomOneConfig) (window_size : Z)
  : result PhantomOneDecoder :=
  do? validate config;
  if negb (in_range 1 PHANTOM_ONE_DEFAULT_REPLAY_WINDOW window_size)
  then Err (Config ("Phantom One replay window must be between 1 and "
                    +:+ show PHANTOM_ONE_DEFAULT_REPLAY_WINDOW))
  else Ok (mkPhantomOneDecoder generation window_size config None 0 0).

Definition decoder_new (generation : Z) : PhantomOneDecoder :=
  mkPhantomOneDecoder generation PHANTOM_ONE_DEFAULT_REPLAY_WINDOW PhantomOneConfig_default None 0 0.

Definition reset (d : PhantomOneDecoder) : PhantomOneDecoder :=
  mkPhantomOneDecoder (dec_generation d) (window_size d) (dec_config d) None 0
    (padding_bytes_used d).

Record DecodedPhantomOneParts := mkParts {
  p_profile : ProfileTier;
  p_generation : Z;
  p_frame_type : PhantomOneFrameType;
  p_sequence : Z;
  p_payload_len : Z;
  p_target_len : Z;
  p_padding_len : Z;
  p_payload_end : Z
}.

Definition to_frame (p : DecodedPhantomOneParts) (datagram : bytes) : result PhantomOneFrame :=
  let? payload := slice datagram PHANTOM_ONE_HEADER_BYTES (p_payload_end p) in
  Ok (mkPhantomOneFrame (p_profile p) (p_generation p) (p_frame_type p) (p_sequence p) payload
        (p_target_len p) (p_padding_len p)).

(** [uN::from_be_bytes([d[o], d[o + 1], ...])] of [n] bytes. *)
Fixpoint index_bytes (d : bytes) (o : Z) (n : nat) : result bytes :=
  match n with
  | O => Ok []
  | S n' => let? b := index d o in let? r := index_bytes d (o + 1) n' in Ok (b :: r)
  end.
Definition be_at (d : bytes) (o : Z) (n : nat) : result Z :=
  let? b := index_bytes d o n in Ok (be_val b).

Definition decode_parts (datagram : bytes) (expected_generation path_mtu : Z)
    (config : PhantomOneConfig) : result DecodedPhantomOneParts :=
  do? validate config;
  do? validate_path_mtu path_mtu;
  if (zlen datagram <? PHANTOM_ONE_HEADER_BYTES) || (path_mtu <? zlen datagram)
  then Err (protocol "Phantom One datagram length is outside path-MTU bounds")
  else
    let? magic := slice datagram 0 MAGIC_END in
    if negb (bytes_eqb magic PHANTOM_ONE_MAGIC)
    then Err (protocol "Phantom One magic mismatch")
    else
      let? version := index datagram VERSION_OFFSET in
      if negb (version =? PHANTOM_ONE_VERSION)
      then Err (protocol "Phantom One version mismatch")
      else
        let? id := index datagram PROFILE_OFFSET in
        let? prof := ok_or (tier_from_id id)
                       (protocol "Phantom One profile identifier is unsupported") in
        if negb (bool_decide (prof = profile config))
        then Err (protocol "Phantom One profile does not match session policy")
        else
          let? generation := be_at datagram GENERATION_OFFSET 4 in
          if negb (generation =? expected_generation)
          then Err (protocol "Phantom One generation mismatch")
          else
            let? ft := index datagram FRAME_TYPE_OFFSET in
            let? frame_type := frame_type_try_from ft in
            let? sequence := be_at datagram SEQUENCE_OFFSET 8 in
            let? payload_len := be_at datagram PAYLOAD_LENGTH_OFFSET 2 in
            let? target_len := be_at datagram TARGET_LENGTH_OFFSET 2 in
            let? reserved := slice datagram RESERVED_OFFSET PHANTOM_ONE_HEADER_BYTES in
            if existsb (fun byte => negb (byte =? 0)) reserved
            then Err (protocol "Phantom One reserved header bytes are non-canonical")
            else if negb (target_len =? zlen datagram)
            then Err (protocol "Phantom One target length does not match datagram length")
            else if path_mtu <? target_len
            then Err (protocol "Phantom One target length exceeds path MTU")
            else
              do? validate_payload_length payload_len;
              let? payload_end := ok_or (checked_add usize_max PHANTOM_ONE_HEADER_BYTES payload_len)
                                    (protocol "Phantom One payload length overflow") in
              if target_len <? payload_end
              then Err (protocol "Phantom One payload is truncated by target length")
              else
                let padding_len := target_len - payload_end in
                if (padding_len <? min_padding config) || (max_padding config <? padding_len)
                then Err (protocol "Phantom One padding is outside the configured bounds")
                else if profile_bound config && negb (accepts_frame_len prof target_len)
                then Err (protocol "Phantom One target is outside the selected profile's canonical size classes")
                else Ok (mkParts prof generation frame_type sequence payload_len target_len
                           padding_len payload_end).

Definition next_padding_bytes (padding_len : Z) (d : PhantomOneDecoder) : result Z :=
  let? next := ok_or (checked_add u64_max (padding_bytes_used d) padding_len)
                 (protocol "Phantom One session padding counter overflow") in
  if match padding_budget (dec_config d) with Some budget => budget <? next | None => false end
  then Err (protocol "Phantom One session padding budget exceeded")
  else Ok next.

Definition window_mask (d : PhantomOneDecoder) : Z :=
  if window_size d =? 64 then u64_max else Z.shiftl 1 (window_size d) - 1.

Definition set_replay (d : PhantomOneDecoder) (h : option Z) (bitmap : Z) : PhantomOneDecoder :=
  mkPhantomOneDecoder (dec_generation d) (window_size d) (dec_config d) h bitmap
    (padding_bytes_used d).

Definition accept_sequence (sequence : Z) (d : PhantomOneDecoder) : result unit * PhantomOneDecoder :=
  match highest_sequence d with
  | None => (Ok (), set_replay d (Some sequence) 1)
  | Some highest =>
      if highest <? sequence then
        let shift := sequence - highest in
        let bitmap :=
          if window_size d <=? shift then 1
          else Z.land (Z.lor (u64_shl (seen_bitmap d) shift) 1) (window_mask d) in
        (Ok (), set_replay d (Some sequence) bitmap)
      else
        let distance := highest - sequence in
        if window_size d <=? distance
        then (Err (protocol "Phantom One sequence is outside replay window"), d)
        else
          let bit := Z.shiftl 1 distance in
          if negb (Z.land (seen_bitmap d) bit =? 0)
          then (Err (protocol "Phantom One replay detected"), d)
          else (Ok (), set_replay d (Some highest) (Z.lor (seen_bitmap d) bit))
  end.

Definition set_padding_used (d : PhantomOneDecoder) (n : Z) : PhantomOneDecoder :=
  mkPhantomOneDecoder (dec_generation d) (window_size d) (dec_config d) (highest_sequence d)
    (seen_bitmap d) n.

(** The part that [decode] and [decode_in_place] share. *)
Definition admit_parts (datagram : bytes) (path_mtu : Z) (d : PhantomOneDecoder)
  : result DecodedPhantomOneParts * PhantomOneDecoder :=
  let! parts, d := (decode_parts datagram (dec_generation d) path_mtu (dec_config d), d) in
  let! next, d := (next_padding_bytes (p_padding_len parts) d, d) in
  let! _ok, d := accept_sequence (p_sequence parts) d in
  (Ok parts, set_padding_used d next).

Definition decode (datagram : bytes) (path_mtu : Z) (d : PhantomOneDecoder)
  : result PhantomOneFrame * PhantomOneDecoder :=
  let! parts, d := admit_parts datagram path_mtu d in
  (to_frame parts datagram, d).

(** [decode_in_place]: the datagram buffer is left as it was on an error. *)
Definition decode_in_place (datagram : bytes) (path_mtu : Z) (d : PhantomOneDecoder)
  : result bytes * PhantomOneDecoder :=
  let! parts, d := admit_parts datagram path_mtu d in
  (let? moved := copy_within_front datagram PHANTOM_ONE_HEADER_BYTES (p_payload_end parts) in
   wipe_truncate moved (p_payload_len parts), d).

(** The stateless [decode] function of the module. *)
Definition decode_stateless (datagram : bytes) (expected_generation path_mtu : Z)
  : result PhantomOneFrame :=
  let? prof := ok_or (match datagram !! Z.to_nat PROFILE_OFFSET with
                      | Some id => tier_from_id id | None => None end)
                 (protocol "Phantom One profile identifier is unsupported") in
  let? parts := decode_parts datagram expected_generation path_mtu
    (mkPhantomOneConfig prof 0 PHANTOM_ONE_MAX_PADDING_BYTES false FirstFit None) in
  to_frame parts datagram.

(** ** Lemmas: well-formed configurations *)

(** The values the field types of the source can hold. *)
Definition config_wf (c : PhantomOneConfig) : Prop :=
  0 <= min_padding c /\
  match selection c with
  | Weighted ws => zlen ws = 7 /\ Forall (fun w => 0 <= w <= u16_max) ws
  | FirstFit => True
  end /\
  match padding_budget c with Some b => 0 <= b <= u64_max | None => True end.

Lemma base_tiers_len t : 0 < zlen (base_tiers t) <= 7.
Proof. by destruct t. Qed.

Lemma validate_selection_cases c :
  config_wf c ->
  (exists e, validate_selection c = Err e) \/
  (validate_selection c = Ok () /\ forall ws, selection c = Weighted ws -> profile_bound c = true).
Proof.
  intros (_ & Hw & _). unfold validate_selection.
  destruct (selection c) as [|ws]; [by right|]. destruct Hw as [Hlen _].
  pose proof (base_tiers_len (profile c)). rewrite slice_ok, slice_from_ok by lia.
  cbn [rbind]. case_if; [eauto|]. bool_prop. right. done.
Qed.

Lemma validate_cases c :
  config_wf c ->
  (exists e, validate c = Err e) \/
  (validate c = Ok () /\ min_padding c <= max_padding c <= PHANTOM_ONE_MAX_PADDING_BYTES /\
   (forall ws, selection c = Weighted ws -> profile_bound c = true)).
Proof.
  intros Hwf. unfold validate.
  destruct (validate_selection_cases c Hwf) as [[e ->]|[-> Hs]]; cbn [rbind]; [eauto|].
  repeat case_if; bool_prop; eauto.
Qed.

Lemma validate_path_mtu_ok mtu :
  validate_path_mtu mtu = Ok () <-> PHANTOM_ONE_HEADER_BYTES <= mtu <= PHANTOM_ONE_MAX_ENVELOPE_BYTES.
Proof.
  unfold validate_path_mtu. destruct (in_range _ _ mtu) eqn:E; cbn [negb]; cbv iota;
    unfold in_range in E; bool_prop.
  - split; [intros _; lia|done].
  - split; [done|]. intros [H1 H2]. apply andb_false_iff in E as [E|E]; bool_prop; lia.
Qed.

Lemma validate_path_mtu_cases mtu :
  (exists e, validate_path_mtu mtu = Err e) \/
  (validate_path_mtu mtu = Ok () /\ PHANTOM_ONE_HEADER_BYTES <= mtu <= PHANTOM_ONE_MAX_ENVELOPE_BYTES).
Proof.
  destruct (validate_path_mtu mtu) as [[]|e|] eqn:E; [right|left; eauto|].
  - split; [done|]. by apply validate_path_mtu_ok.
  - unfold validate_path_mtu in E. by case_if.
Qed.

Lemma validate_payload_length_cases n :
  (exists e, validate_payload_length n = Err e) \/
  (validate_payload_length n = Ok () /\ n <= PHANTOM_ONE_MAX_PAYLOAD_BYTES).
Proof. unfold validate_payload_length. case_if; [eauto|]. bool_prop. auto. Qed.

(** ** Lemmas: target selection *)

Lemma pick_weighted_ok lo hi tw sample :
  Forall (fun p => 0 <= p.2) tw -> 0 <= sample < weight_total lo hi tw ->
  exists t, pick_weighted lo hi tw sample = Ok t /\ t ∈ map fst tw /\ lo <= t <= hi.
Proof.
  intros Hw. revert sample. induction Hw as [|[t w] tw Hw0 Hw IH]; intros sample Hs.
  { unfold weight_total in Hs. simpl in Hs. lia. }
  unfold weight_total in Hs. simpl in *.
  destruct (in_range lo hi t) eqn:Hr; cbn [negb]; cbv iota.
  - cbn [map fold_right snd] in Hs. fold (weight_total lo hi tw) in Hs.
    destruct (Z.ltb_spec sample w).
    + exists t. unfold in_range in Hr. bool_prop. split; [done|]. split; [left|lia].
    + destruct (IH (sample - w)) as (t' & E & Hin & Hb); [lia|].
      exists t'. split; [done|]. split; [by right|done].
  - fold (weight_total lo hi tw) in Hs.
    destruct (IH sample Hs) as (t' & E & Hin & Hb). exists t'. split; [done|]. split; [by right|done].
Qed.

Lemma zip_fst_in {A B} (l : list A) (k : list B) x : x ∈ map fst (zip l k) -> x ∈ l.
Proof.
  revert k. induction l as [|a l IH]; intros [|b k]; simpl; try set_solver.
Qed.

Lemma zip_snd_Forall {A B} (P : B -> Prop) (l : list A) (k : list B) :
  Forall P k -> Forall (fun p => P p.2) (zip l k).
Proof.
  intros HP. revert l. induction HP as [|b k Hb Hk IH]; intros [|a l]; simpl; constructor; auto.
Qed.

Section Target.
Context {R : Type} `{RngLaws R}.

Definition target_fits (e : PhantomOneEncoder R) (payload_len path_mtu t : Z) : Prop :=
  let c := enc_config e in
  let minimum := PHANTOM_ONE_HEADER_BYTES + payload_len in
  minimum + min_padding c <= t <= path_mtu /\
  t <= minimum + Z.min (max_padding c) (remaining_padding e) /\
  (profile_bound c = true -> accepts_frame_len (profile c) t = true).

Lemma remaining_padding_nonneg (e : PhantomOneEncoder R) :
  config_wf (enc_config e) -> 0 <= remaining_padding e <= usize_max.
Proof.
  intros (_ & _ & Hb). unfold remaining_padding, try_from, saturating_sub.
  destruct (padding_budget (enc_config e)); [|unfold usize_max, u64_max; lia].
  case_if; simpl; bool_prop; unfold usize_max, u64_max in *; lia.
Qed.

(** The three ways of choosing a target between [lo] and [hi]. *)
Lemma weighted_target_ok e ws lo hi :
  config_wf (enc_config e) -> selection (enc_config e) = Weighted ws ->
  let tw := zip (base_tiers (profile (enc_config e))) ws in
  weight_total lo hi tw <> 0 ->
  exists t r', (let '(sample, r) := gen_range 0 (weight_total lo hi tw) (rng e) in
      (rbind sample (pick_weighted lo hi tw), set_rng e r)) = (Ok t, set_rng e r') /\
    lo <= t <= hi /\ accepts_frame_len (profile (enc_config e)) t = true.
Proof.
  intros (_ & Hw & _) Hsel tw Ht. rewrite Hsel in Hw. destruct Hw as [_ Hw].
  assert (Forall (fun p => 0 <= p.2) tw) as Hnn.
  { apply (zip_snd_Forall (fun w => 0 <= w)). eapply Forall_impl; [exact Hw|]. simpl. lia. }
  assert (0 <= weight_total lo hi tw).
  { unfold weight_total. clear - Hnn. induction Hnn as [|[t w] tw Hw0 Hw IH]; [simpl; lia|].
    simpl in *. case_if; simpl in *; lia. }
  destruct (gen_range_ok 0 (weight_total lo hi tw) (rng e)) as (x & r' & -> & Hx); [lia|].
  destruct (pick_weighted_ok lo hi tw x Hnn Hx) as (t & E & Hin & Hb).
  exists t, r'. cbn [rbind]. rewrite E. split; [done|]. split; [done|].
  apply zip_fst_in in Hin. replace t with (t + 0) by lia.
  apply accepts_base_jitter; [done|]. unfold jitter_of, LOW_JITTER_BYTES.
  destruct (profile (enc_config e)); lia.
Qed.

Lemma first_fit_target_ok e base hi :
  base ∈ base_tiers (profile (enc_config e)) -> base <= hi ->
  exists t r', (let available_jitter := Z.min (jitter_bound (profile (enc_config e))) (hi - base) in
      if available_jitter =? 0 then (Ok (base + 0), e)
      else
        let '(jitter, r) := gen_range 0 (available_jitter + 1) (rng e) in
        (rbind jitter (fun jitter => Ok (base + jitter)), set_rng e r)) = (Ok t, set_rng e r') /\
    base <= t <= hi /\ accepts_frame_len (profile (enc_config e)) t = true.
Proof.
  intros Hin Hb. cbv zeta. set (j := Z.min _ _).
  assert (0 <= j /\ j <= hi - base /\ j <= jitter_bound (profile (enc_config e))) as (Hj0 & Hj1 & Hj2).
  { unfold j, jitter_bound. destruct (profile (enc_config e)); lia. }
  assert (forall x, 0 <= x <= j -> accepts_frame_len (profile (enc_config e)) (base + x) = true) as Hacc.
  { intros x Hx. apply accepts_base_jitter; [done|].
    unfold jitter_of, LOW_JITTER_BYTES, jitter_bound in *. destruct (profile (enc_config e)); lia. }
  destruct (Z.eqb_spec j 0).
  - exists (base + 0), (rng e). split; [by destruct e|]. split; [lia|]. apply Hacc. lia.
  - destruct (gen_range_ok 0 (j + 1) (rng e)) as (x & r' & -> & Hx); [lia|].
    exists (base + x), r'. split; [done|]. split; [lia|]. apply Hacc. lia.
Qed.

Lemma target_size_cases e payload_len path_mtu :
  config_wf (enc_config e) -> 0 <= payload_len ->
  (exists err, target_size payload_len path_mtu e = (Err err, e)) \/
  (exists t r', target_size payload_len path_mtu e = (Ok t, set_rng e r') /\
     target_fits e payload_len path_mtu t).
Proof.
  intros Hwf Hlen. unfold target_size.
  destruct (validate_cases _ Hwf) as [[err ->]|(-> & Hpad & Hwb)]; cbn [sbind]; [eauto|].
  destruct (validate_path_mtu_cases path_mtu) as [[err ->]|(-> & Hmtu)]; cbn [sbind]; [eauto|].
  destruct (validate_payload_length_cases payload_len) as [[err ->]|(-> & Hpl)]; cbn [sbind]; [eauto|].
  destruct (next_sequence e) as [seq|]; cbn [ok_or sbind]; [|eauto].
  pose proof (remaining_padding_nonneg e Hwf) as Hrem. pose proof (proj1 Hwf) as Hmin.
  unfold PHANTOM_ONE_MAX_PAYLOAD_BYTES, PHANTOM_ONE_MAX_ENVELOPE_BYTES, u16_max,
    PHANTOM_ONE_MAX_PADDING_BYTES in *.
  unfold checked_add, usize_max, u64_max, target_fits, PHANTOM_ONE_HEADER_BYTES in *.
  rewrite (proj2 (Z.leb_le (24 + payload_len) _)) by lia. cbn [ok_or sbind].
  rewrite (proj2 (Z.leb_le (24 + payload_len + min_padding (enc_config e)) _)) by lia. cbn [ok_or sbind].
  destruct (Z.ltb_spec path_mtu (24 + payload_len + min_padding (enc_config e))); [eauto|].
  rewrite (proj2 (Z.leb_le (24 + payload_len + Z.min _ _) _)) by lia. cbn [ok_or sbind].
  set (lo := 24 + payload_len + min_padding (enc_config e)) in *.
  set (hi := Z.min (24 + payload_len + _) path_mtu).
  assert (hi <= path_mtu /\ hi <= 24 + payload_len + Z.min (max_padding (enc_config e)) (remaining_padding e))
    as [Hhi1 Hhi2] by (unfold hi; lia).
  destruct (Z.ltb_spec hi lo); [eauto|]. cbv zeta.
  destruct (selection (enc_config e)) as [|ws] eqn:Hsel.
  - destruct (find _ _) as [base|] eqn:Hf.
    + apply find_some in Hf as [Hin Hr]. apply list_elem_of_In in Hin.
      unfold in_range in Hr. bool_prop.
      destruct (first_fit_target_ok e base hi Hin) as (t & r' & E & Hb & Hacc); [lia|].
      right. exists t, r'. split; [exact E|]. split; [lia|]. split; [lia|done].
    + case_if; [eauto|]. destruct (gen_range_ok lo (hi + 1) (rng e)) as (x & r' & -> & Hx); [lia|].
      right. exists x, r'. split; [done|]. split; [lia|]. split; [lia|done].
  - case_if; bool_prop; [eauto|].
    destruct (weighted_target_ok e ws lo hi Hwf Hsel) as (t & r' & E & Hb & Hacc); [done|].
    right. exists t, r'. split; [exact E|]. split; [lia|]. split; [lia|done].
Qed.
End Target.

(** ** Lemmas: the wire format *)

Definition phantom_header (id generation ft sequence payload_len target_len : Z) : bytes :=
  PHANTOM_ONE_MAGIC ++ [PHANTOM_ONE_VERSION] ++ [id] ++ be_bytes 4 generation ++ [ft]
  ++ be_bytes 8 sequence ++ be_bytes 2 payload_len ++ be_bytes 2 target_len ++ [0].

Definition phantom_layout (id generation ft sequence : Z) (payload padding : bytes) : bytes :=
  phantom_header id generation ft sequence (zlen payload) (24 + zlen payload + zlen padding)
  ++ payload ++ padding.

Lemma zlen_PHANTOM_ONE_MAGIC : zlen PHANTOM_ONE_MAGIC = 4.
Proof. done. Qed.
#[export] Hint Rewrite zlen_PHANTOM_ONE_MAGIC : zlen.

Lemma zlen_phantom_header id g ft s p t : zlen (phantom_header id g ft s p t) = 24.
Proof. unfold phantom_header. zl. Qed.

Lemma zlen_phantom_layout id g ft s payload padding :
  zlen (phantom_layout id g ft s payload padding) = 24 + zlen payload + zlen padding.
Proof. unfold phantom_layout. rewrite !zlen_app, zlen_phantom_header. lia. Qed.

Lemma phantom_layout_bytes t g ft s payload padding :
  bytes_ok payload -> bytes_ok padding ->
  bytes_ok (phantom_layout (tier_id t) g (frame_type_u8 ft) s payload padding).
Proof.
  intros H1 H2. unfold phantom_layout, phantom_header. rewrite !bytes_ok_app.
  repeat split; auto with bytes; try by_compute; [destruct t|destruct ft]; by_compute.
Qed.

Lemma write_header_ok c generation sequence ft payload n :
  24 + zlen payload <= n ->
  write_header c generation sequence ft (zlen payload) n payload (zreplicate n 0)
  = Ok (phantom_header (tier_id (profile c)) generation (frame_type_u8 ft) sequence (zlen payload) n
        ++ payload ++ zreplicate (n - 24 - zlen payload) 0).
Proof.
  intros Hn. pose proof (zlen_nonneg payload).
  unfold write_header, MAGIC_END, VERSION_OFFSET, PROFILE_OFFSET, GENERATION_OFFSET,
    FRAME_TYPE_OFFSET, SEQUENCE_OFFSET, PAYLOAD_LENGTH_OFFSET, TARGET_LENGTH_OFFSET,
    RESERVED_OFFSET, PHANTOM_ONE_HEADER_BYTES.
  rewrite <- (app_nil_l (zreplicate n 0)), copy_into_zeros by (done || lia). cbn [rbind].
  rewrite app_nil_l.
  repeat (first [rewrite store_zeros by zl | rewrite copy_into_zeros by zl]; cbn [rbind]).
  f_equal. unfold phantom_header. rewrite <- !app_assoc. do 11 f_equal. lia.
Qed.

(** *** Encoding *)

Section Encode.
Context {R : Type} `{RngLaws R}.

Definition after_frame (e : PhantomOneEncoder R) (r : R) (sequence plen padlen : Z)
  : PhantomOneEncoder R :=
  mkPhantomOneEncoder (enc_generation e) (checked_add u64_max sequence 1) (enc_config e) r
    (count_frame (metrics e) plen padlen).

Lemma encode_with_target_cases e ft payload target_len path_mtu :
  config_wf (enc_config e) ->
  (exists err r, encode_with_target ft payload target_len path_mtu e = (Err err, set_rng e r)) \/
  (exists sequence padding r,
     encode_with_target ft payload target_len path_mtu e
     = (Ok (phantom_layout (tier_id (profile (enc_config e))) (enc_generation e)
              (frame_type_u8 ft) sequence payload padding),
        after_frame e r sequence (zlen payload) (zlen padding)) /\
     next_sequence e = Some sequence /\ bytes_ok padding /\
     zlen padding = target_len - 24 - zlen payload /\
     validate (enc_config e) = Ok () /\ validate_path_mtu path_mtu = Ok () /\
     target_len <= path_mtu /\ zlen payload <= PHANTOM_ONE_MAX_PAYLOAD_BYTES /\
     min_padding (enc_config e) <= zlen padding <= max_padding (enc_config e) /\
     zlen padding <= remaining_padding e /\
     (profile_bound (enc_config e) = true ->
        accepts_frame_len (profile (enc_config e)) target_len = true)).
Proof.
  intros Hwf.
  assert (forall err, exists err' r, (@Err bytes err, e) = (Err err', set_rng e r)) as Herr
    by (intros err; exists err, (rng e); by destruct e).
  unfold encode_with_target.
  destruct (validate_cases _ Hwf) as [[err ->]|(Hval & Hpad & _)]; cbn [sbind]; [eauto|].
  rewrite Hval. cbn [sbind].
  destruct (validate_path_mtu_cases path_mtu) as [[err ->]|(Hm & Hmtu)]; cbn [sbind]; [eauto|].
  rewrite Hm. cbn [sbind].
  destruct (validate_payload_length_cases (zlen payload)) as [[err ->]|(-> & Hpl)]; cbn [sbind]; [eauto|].
  destruct (next_sequence e) as [seq|]; cbn [ok_or sbind]; [|eauto].
  pose proof (zlen_nonneg payload).
  unfold PHANTOM_ONE_MAX_PAYLOAD_BYTES, PHANTOM_ONE_MAX_ENVELOPE_BYTES, u16_max,
    PHANTOM_ONE_HEADER_BYTES, PHANTOM_ONE_MAX_PADDING_BYTES, checked_add, checked_sub, try_from,
    usize_max, u64_max in *.
  rewrite (proj2 (Z.leb_le (24 + zlen payload) _)) by lia. cbn [ok_or sbind].
  destruct (Z.leb_spec (24 + zlen payload) target_len); cbn [ok_or sbind]; [|eauto].
  case_if; [eauto|]. bool_prop.
  destruct (profile_bound (enc_config e) && _) eqn:Hcanon; [eauto|].
  rewrite (proj2 (Z.leb_le target_len _)) by lia. cbn [ok_or sbind].
  rewrite (proj2 (Z.leb_le (zlen payload) _)) by lia. cbn [ok_or sbind].
  rewrite resize_nil, write_header_ok by lia. cbn [sbind]. rewrite app_assoc.
  set (pre := phantom_header _ _ _ _ _ _ ++ payload).
  assert (zlen pre = 24 + zlen payload) as Hpre by (unfold pre; rewrite zlen_app, zlen_phantom_header; lia).
  set (m := target_len - 24 - zlen payload).
  rewrite slice_from_ok by zl. cbn [sbind]. rewrite zdrop_app by done.
  pose proof (rng_fill_len (zlen (zreplicate m 0)) (rng e)) as Hfill.
  destruct (rng_fill _ (rng e)) as [[padding|] r]; simpl in Hfill; [|eauto].
  destruct (Hfill padding eq_refl) as [Hlen Hok]. rewrite zlen_zreplicate in Hlen.
  right. exists seq, padding, r. replace target_len with (24 + zlen payload + m) at 1 by lia.
  rewrite copy_into_tail by lia. cbn [sbind].
  assert (zlen padding = m) as Hm' by lia.
  split; [|repeat split; (done || lia || (intros Hb; rewrite Hb in Hcanon; simpl in Hcanon; by bool_prop))].
  unfold phantom_layout, after_frame, pre, set_rng. cbn [rng enc_generation metrics].
  rewrite Hm'. replace (24 + zlen payload + m) with target_len by lia.
  replace (target_len - (24 + zlen payload)) with m by lia. rewrite <- app_assoc. unfold checked_add, u64_max. reflexivity.
Qed.

(** A selected target is encodable: after [target_size] only randomness can
    fail. *)
Lemma encode_cases e ft payload path_mtu :
  config_wf (enc_config e) ->
  (exists err r, encode ft payload path_mtu e = (Err err, set_rng e r)) \/
  (exists sequence padding r,
     encode ft payload path_mtu e
     = (Ok (phantom_layout (tier_id (profile (enc_config e))) (enc_generation e)
              (frame_type_u8 ft) sequence payload padding),
        after_frame e r sequence (zlen payload) (zlen padding)) /\
     next_sequence e = Some sequence /\ bytes_ok padding /\
     validate (enc_config e) = Ok () /\ validate_path_mtu path_mtu = Ok () /\
     24 + zlen payload + zlen padding <= path_mtu /\
     zlen payload <= PHANTOM_ONE_MAX_PAYLOAD_BYTES /\
     min_padding (enc_config e) <= zlen padding <= max_padding (enc_config e) /\
     zlen padding <= remaining_padding e /\
     (profile_bound (enc_config e) = true ->
        accepts_frame_len (profile (enc_config e)) (24 + zlen payload + zlen padding) = true)).
Proof.
  intros Hwf. unfold encode.
  destruct (target_size_cases e (zlen payload) path_mtu Hwf (zlen_nonneg payload))
    as [[err ->]|(t & r1 & -> & Ht)]; cbn [sbind].
  { left. exists err, (rng e). by destruct e. }
  destruct (encode_with_target_cases (set_rng e r1) ft payload t path_mtu Hwf)
    as [(err & r & ->)|(seq & padding & r & -> & Hs)]; [left; by exists err, r|].
  right. exists seq, padding, r. split; [done|]. cbn [set_rng next_sequence enc_config] in Hs.
  destruct Hs as (Hn & Hb & Hl & Hv & Hm & Hmtu & Hp & Hpad & Hrem & Hc).
  replace t with (24 + zlen payload + zlen padding) in * by lia.
  repeat split; (done || lia).
Qed.
End Encode.

(** *** Decoding *)

(** What [decode_parts] checks of a header whose fields have been read. *)
Definition check_fields (c : PhantomOneConfig) (expected_generation path_mtu len : Z)
    (magic : bytes) (version id generation ft sequence payload_len target_len reserved : Z)
  : result DecodedPhantomOneParts :=
  if negb (bytes_eqb magic PHANTOM_ONE_MAGIC) then Err (protocol "Phantom One magic mismatch")
  else if negb (version =? PHANTOM_ONE_VERSION) then Err (protocol "Phantom One version mismatch")
  else
    let? prof := ok_or (tier_from_id id)
                   (protocol "Phantom One profile identifier is unsupported") in
    if negb (bool_decide (prof = profile c))
    then Err (protocol "Phantom One profile does not match session policy")
    else if negb (generation =? expected_generation)
    then Err (protocol "Phantom One generation mismatch")
    else
      let? frame_type := frame_type_try_from ft in
      if negb (reserved =? 0) || false
      then Err (protocol "Phantom One reserved header bytes are non-canonical")
      else if negb (target_len =? len)
      then Err (protocol "Phantom One target length does not match datagram length")
      else if path_mtu <? target_len
      then Err (protocol "Phantom One target length exceeds path MTU")
      else
        do? validate_payload_length payload_len;
        let? payload_end := ok_or (checked_add usize_max PHANTOM_ONE_HEADER_BYTES payload_len)
                              (protocol "Phantom One payload length overflow") in
        if target_len <? payload_end
        then Err (protocol "Phantom One payload is truncated by target length")
        else
          let padding_len := target_len - payload_end in
          if (padding_len <? min_padding c) || (max_padding c <? padding_len)
          then Err (protocol "Phantom One padding is outside the configured bounds")
          else if profile_bound c && negb (accepts_frame_len prof target_len)
          then Err (protocol "Phantom One target is outside the selected profile's canonical size classes")
          else Ok (mkParts prof generation frame_type sequence payload_len target_len
                     padding_len payload_end).

Lemma list_24 {A} (l : list A) :
  24 <= zlen l ->
  exists a0 a1 a2 a3 a4 a5 a6 a7 a8 a9 a10 a11 a12 a13 a14 a15 a16 a17 a18 a19 a20 a21 a22 a23 r,
    l = [a0; a1; a2; a3; a4; a5; a6; a7; a8; a9; a10; a11; a12; a13; a14; a15; a16; a17; a18;
         a19; a20; a21; a22; a23] ++ r.
Proof.
  intros H. do 24 (destruct l as [|? l]; [unfold zlen in H; simpl in H; lia|]).
  repeat eexists.
Qed.

(** Decoding a datagram long enough to hold a header: the fields are read from
    fixed positions, without panics. *)
Lemma decode_parts_fields d g mtu c :
  validate c = Ok () -> validate_path_mtu mtu = Ok () -> 24 <= zlen d <= mtu ->
  exists magic version id generation ft sequence plen tlen reserved rest,
    d = magic ++ [version] ++ [id] ++ generation ++ [ft] ++ sequence ++ plen ++ tlen
        ++ [reserved] ++ rest /\
    length magic = 4%nat /\ length generation = 4%nat /\ length sequence = 8%nat /\
    length plen = 2%nat /\ length tlen = 2%nat /\
    decode_parts d g mtu c
    = check_fields c g mtu (zlen d) magic version id (be_val generation) ft (be_val sequence)
        (be_val plen) (be_val tlen) reserved.
Proof.
  intros Hv Hm [Hlo Hhi].
  assert (E : decode_parts d g mtu c =
    (let? magic := slice d 0 MAGIC_END in
     let? version := index d VERSION_OFFSET in
     let? id := index d PROFILE_OFFSET in
     let? generation := be_at d GENERATION_OFFSET 4 in
     let? ft := index d FRAME_TYPE_OFFSET in
     let? sequence := be_at d SEQUENCE_OFFSET 8 in
     let? plen := be_at d PAYLOAD_LENGTH_OFFSET 2 in
     let? tlen := be_at d TARGET_LENGTH_OFFSET 2 in
     let? reserved := index d RESERVED_OFFSET in
     check_fields c g mtu (zlen d) magic version id generation ft sequence plen tlen reserved)).
  { destruct (list_24 d Hlo) as (a0 & a1 & a2 & a3 & a4 & a5 & a6 & a7 & a8 & a9 & a10 & a11 & a12
      & a13 & a14 & a15 & a16 & a17 & a18 & a19 & a20 & a21 & a22 & a23 & r & ->).
    unfold decode_parts. rewrite Hv, Hm. cbn [rbind].
    unfold PHANTOM_ONE_HEADER_BYTES at 1. rewrite (proj2 (Z.ltb_ge _ 24)) by lia.
    rewrite (proj2 (Z.ltb_ge mtu _)) by lia. cbn [orb]; cbv iota.
    rewrite !slice_ok by (unfold MAGIC_END, RESERVED_OFFSET, PHANTOM_ONE_HEADER_BYTES; lia).
    cbn [app]. reflexivity. }
  destruct (list_24 d Hlo) as (a0 & a1 & a2 & a3 & a4 & a5 & a6 & a7 & a8 & a9 & a10 & a11 & a12
      & a13 & a14 & a15 & a16 & a17 & a18 & a19 & a20 & a21 & a22 & a23 & r & ->).
  exists [a0; a1; a2; a3], a4, a5, [a6; a7; a8; a9], a10, [a11; a12; a13; a14; a15; a16; a17; a18],
    [a19; a20], [a21; a22], a23, r.
  repeat (split; [reflexivity|]). rewrite E.
  rewrite slice_ok by (unfold MAGIC_END; lia). reflexivity.
Qed.

Lemma frame_type_round_trip ft : frame_type_try_from (frame_type_u8 ft) = Ok ft.
Proof. by destruct ft. Qed.

Lemma frame_type_inv v ft : frame_type_try_from v = Ok ft -> v = frame_type_u8 ft.
Proof. unfold frame_type_try_from. repeat case_if; bool_prop; intros [= <-]; done. Qed.

Lemma tier_from_id_inv id t : tier_from_id id = Some t -> id = tier_id t.
Proof. unfold tier_from_id. intros H. repeat case_match; simplify_eq; done. Qed.

(** The conditions [decode_parts] imposes on the lengths and on the policy. *)
Definition sizes_ok (c : PhantomOneConfig) (mtu plen padlen : Z) : Prop :=
  24 + plen + padlen <= mtu /\ plen <= PHANTOM_ONE_MAX_PAYLOAD_BYTES /\
  min_padding c <= padlen <= max_padding c /\
  (profile_bound c = true -> accepts_frame_len (profile c) (24 + plen + padlen) = true).

Lemma check_fields_ok c g mtu len magic version id generation ft sequence plen tlen reserved parts :
  0 <= plen -> 0 <= min_padding c -> len <= mtu ->
  check_fields c g mtu len magic version id generation ft sequence plen tlen reserved = Ok parts <->
  exists frame_type padlen,
    magic = PHANTOM_ONE_MAGIC /\ version = PHANTOM_ONE_VERSION /\ id = tier_id (profile c) /\
    generation = g /\ ft = frame_type_u8 frame_type /\ reserved = 0 /\ tlen = len /\
    len = 24 + plen + padlen /\ sizes_ok c mtu plen padlen /\
    parts = mkParts (profile c) g frame_type sequence plen len padlen (24 + plen).
Proof.
  intros Hp Hmin Hlen. unfold sizes_ok, check_fields.
  unfold validate_payload_length, checked_add, PHANTOM_ONE_HEADER_BYTES. split.
  - intros H. guards H. injection H as <-.
    repeat match goal with
    | E : tier_from_id _ = Some _ |- _ => apply tier_from_id_inv in E
    | E : frame_type_try_from _ = Ok _ |- _ => apply frame_type_inv in E
    end.
    guards Heqr0. destruct (_ <=? usize_max); [|done]. injection Heqo0 as <-. subst. exists a, (len - (24 + plen)).
    repeat (split; [done || lia|]). split; [|f_equal; lia].
    repeat (split; [done || lia|]). intros Hb.
    replace (24 + plen + (len - (24 + plen))) with len by lia.
    destruct (accepts_frame_len _ len); [done|]. rewrite Hb in *. done.
  - intros (ftype & padlen & -> & -> & -> & -> & -> & -> & -> & Hl & (Hmtu & Hmax & Hpad & Hacc) & ->).
    unfold PHANTOM_ONE_MAX_PAYLOAD_BYTES, PHANTOM_ONE_MAX_ENVELOPE_BYTES, u16_max,
      PHANTOM_ONE_HEADER_BYTES in *.
    rewrite bytes_eqb_refl, Z.eqb_refl, tier_from_id_id. cbn [negb ok_or rbind].
    rewrite bool_decide_eq_true_2, Z.eqb_refl, frame_type_round_trip, Z.eqb_refl by done.
    cbn [negb orb rbind]. rewrite Z.eqb_refl. cbn [negb].
    rewrite !(proj2 (Z.ltb_ge _ _)) by lia. cbn [orb rbind].
    rewrite (proj2 (Z.leb_le (24 + plen) _)) by (unfold usize_max, u64_max; lia). cbn [ok_or rbind].
    rewrite !(proj2 (Z.ltb_ge _ _)) by lia. cbn [orb].
    replace (len - (24 + plen)) with padlen by lia.
    destruct (profile_bound c); [|done]. rewrite Hl, Hacc by done. done.
Qed.

Lemma check_fields_no_panic c g mtu len magic version id generation ft sequence plen tlen reserved :
  no_panic (check_fields c g mtu len magic version id generation ft sequence plen tlen reserved).
Proof.
  unfold check_fields, no_panic, frame_type_try_from, validate_payload_length.
  repeat (case_if; [done|]; cbn [rbind]) || idtac.
  repeat first [ progress cbn [rbind ok_or] | case_if; try done
               | match goal with |- context [ok_or ?o _] => destruct o end; try done ].
Qed.

Lemma validate_total c : config_wf c -> no_panic (validate c).
Proof.
  intros Hwf. unfold no_panic. destruct (validate_cases c Hwf) as [[e ->]|(-> & _)]; done.
Qed.

Lemma decode_parts_bounds d g mtu c parts :
  decode_parts d g mtu c = Ok parts ->
  validate c = Ok () /\ validate_path_mtu mtu = Ok () /\ 24 <= zlen d <= mtu.
Proof.
  unfold decode_parts. intros H.
  destruct (validate c) as [[]|e|]; cbn [rbind] in H; [|done..].
  destruct (validate_path_mtu mtu) as [[]|e|]; cbn [rbind] in H; [|done..].
  unfold PHANTOM_ONE_HEADER_BYTES in H at 1. case_if. bool_prop. done.
Qed.

Lemma decode_parts_no_panic d g mtu c : config_wf c -> no_panic (decode_parts d g mtu c).
Proof.
  intros Hwf. pose proof (validate_total c Hwf) as Hv. unfold no_panic in *.
  destruct (validate c) as [[]|e|] eqn:Ev; [| |done].
  2: { unfold decode_parts. by rewrite Ev. }
  destruct (validate_path_mtu_cases mtu) as [[e Em]|[Em _]].
  { unfold decode_parts. by rewrite Ev, Em. }
  destruct (decide (24 <= zlen d <= mtu)) as [Hd|Hd].
  - destruct (decode_parts_fields d g mtu c Ev Em Hd)
      as (? & ? & ? & ? & ? & ? & ? & ? & ? & ? & _ & _ & _ & _ & _ & _ & ->).
    apply check_fields_no_panic.
  - unfold decode_parts. rewrite Ev, Em. cbn [rbind].
    unfold PHANTOM_ONE_HEADER_BYTES at 1.
    destruct (Z.ltb_spec (zlen d) 24); [done|]. rewrite (proj2 (Z.ltb_lt mtu _)) by lia. done.
Qed.

Lemma be_chunk n (l : bytes) x :
  length l = n -> bytes_ok l -> be_val l = x -> be_bytes n x = l.
Proof. intros <- Hl <-. by apply be_bytes_be_val. Qed.

(** A datagram decodes exactly when it has the layout of a frame of this
    generation and policy. *)
Lemma decode_parts_ok d g mtu c parts :
  bytes_ok d -> config_wf c -> 0 <= g <= u32_max ->
  decode_parts d g mtu c = Ok parts <->
  validate c = Ok () /\ validate_path_mtu mtu = Ok () /\
  exists ft seq payload padding,
    0 <= seq <= u64_max /\
    d = phantom_layout (tier_id (profile c)) g (frame_type_u8 ft) seq payload padding /\
    sizes_ok c mtu (zlen payload) (zlen padding) /\
    parts = mkParts (profile c) g ft seq (zlen payload) (zlen d) (zlen padding) (24 + zlen payload).
Proof.
  intros Hb Hwf Hg. pose proof (proj1 Hwf) as Hmin. split.
  - intros H. pose proof (decode_parts_bounds _ _ _ _ _ H) as (Hv & Hm & Hd).
    split; [done|split; [done|]].
    destruct (decode_parts_fields d g mtu c Hv Hm Hd)
      as (magic & ver & id & gen & ft & sq & pl & tl & rs & rest & Hsplit & L1 & L2 & L3 & L4 & L5 & E).
    rewrite E in H. clear E. rewrite Hsplit, !bytes_ok_app in Hb.
    destruct Hb as (_ & _ & _ & Bg & _ & Bs & Bp & Bt & _ & Br).
    pose proof (be_val_bound pl Bp) as Vp. pose proof (be_val_bound sq Bs) as Vs.
    unfold zlen in Vp, Vs. rewrite L4 in Vp. rewrite L3 in Vs.
    apply check_fields_ok in H as (ftype & padlen & -> & -> & -> & Eg & -> & -> & Et & El & Hs & ->);
      [|lia..].
    set (plen := be_val pl) in *. exists ftype, (be_val sq), (ztake plen rest), (zdrop plen rest).
    assert (zlen rest = plen + padlen) as Hrest.
    { rewrite Hsplit in El. rewrite !zlen_app in El. unfold zlen in El at 4 6 7 8.
      rewrite L2, L3, L4, L5 in El. autorewrite with zlen in El. lia. }
    destruct Hs as (S1 & S2 & S3 & S4).
    assert (zlen (ztake plen rest) = plen) as Hz1 by zl.
    assert (zlen (zdrop plen rest) = padlen) as Hz2 by zl.
    split; [unfold u64_max; lia|]. rewrite Hz1, Hz2. split; [|done].
    rewrite Hsplit. unfold phantom_layout, phantom_header. rewrite Hz1, Hz2, ztake_zdrop, <- El, <- Et.
    rewrite (be_chunk 4 gen g), (be_chunk 8 sq _), (be_chunk 2 pl plen), (be_chunk 2 tl _) by done.
    by rewrite <- !app_assoc.
  - intros (Hv & Hm & ft & seq & payload & padding & Hseq & Hd & Hs & ->).
    pose proof (zlen_nonneg payload). pose proof (zlen_nonneg padding).
    assert (zlen d = 24 + zlen payload + zlen padding) as Hlen by (rewrite Hd; apply zlen_phantom_layout).
    destruct (decode_parts_fields d g mtu c Hv Hm ltac:(unfold sizes_ok in Hs; lia))
      as (magic & ver & id & gen & fty & sq & pl & tl & rs & rest & Hsplit & L1 & L2 & L3 & L4 & L5 & ->).
    unfold sizes_ok, PHANTOM_ONE_MAX_PAYLOAD_BYTES, PHANTOM_ONE_MAX_ENVELOPE_BYTES,
      PHANTOM_ONE_HEADER_BYTES, u16_max, u64_max, u32_max in *.
    apply validate_path_mtu_ok in Hm.
    unfold PHANTOM_ONE_MAX_ENVELOPE_BYTES, PHANTOM_ONE_HEADER_BYTES, u16_max in Hm.
    unfold phantom_layout, phantom_header in Hd. rewrite Hd, <- !app_assoc in Hsplit.
    repeat (apply app_inj_1 in Hsplit as [? Hsplit]; [|by rewrite ?length_be_bytes]).
    simplify_eq.
    rewrite !be_val_be_bytes by (simpl; lia). apply check_fields_ok; [lia..|].
    exists ft, (zlen padding). repeat split; try done; try lia; apply Hs.
Qed.

Lemma decode_parts_layout c g mtu ft seq payload padding :
  config_wf c -> validate c = Ok () -> validate_path_mtu mtu = Ok () ->
  0 <= g <= u32_max -> 0 <= seq <= u64_max -> bytes_ok payload -> bytes_ok padding ->
  sizes_ok c mtu (zlen payload) (zlen padding) ->
  let d := phantom_layout (tier_id (profile c)) g (frame_type_u8 ft) seq payload padding in
  decode_parts d g mtu c
  = Ok (mkParts (profile c) g ft seq (zlen payload) (zlen d) (zlen padding) (24 + zlen payload)).
Proof.
  intros Hwf Hv Hm Hg Hs Hb1 Hb2 Hsz d. apply decode_parts_ok; [|done..|].
  - by apply phantom_layout_bytes.
  - split; [done|split; [done|]]. exists ft, seq, payload, padding. done.
Qed.

Lemma to_frame_layout id g ft seq payload padding p :
  p_payload_end p = 24 + zlen payload ->
  to_frame p (phantom_layout id g ft seq payload padding)
  = Ok (mkPhantomOneFrame (p_profile p) (p_generation p) (p_frame_type p) (p_sequence p) payload
          (p_target_len p) (p_padding_len p)).
Proof.
  intros He. unfold to_frame, PHANTOM_ONE_HEADER_BYTES. rewrite He.
  unfold phantom_layout. rewrite slice_app; [done|apply zlen_phantom_header|lia].
Qed.

(** ** Lemmas: the decoder's replay bitmap *)

Definition phantom_accept (n : Z) (d : PhantomOneDecoder) : bool * PhantomOneDecoder :=
  let '(r, d') := accept_sequence n d in (is_ok r, d').

(** Bit [i] of the bitmap stands for [highest - i]. *)
Definition phantom_rel (depth : Z) (d : PhantomOneDecoder) (sp : ReplaySpec) : Prop :=
  depth = window_size d - 1 /\ 1 <= window_size d <= 64 /\ spec_wf sp /\
  sp_highest sp = highest_sequence d /\
  forall h, highest_sequence d = Some h -> forall i, 0 <= i < window_size d ->
    Z.testbit (seen_bitmap d) i = bool_decide (h - i ∈ sp_seen sp).

Lemma window_mask_bit d i :
  1 <= window_size d <= 64 -> 0 <= i < window_size d -> Z.testbit (window_mask d) i = true.
Proof.
  intros Hw Hi. unfold window_mask. case_if.
  - bool_prop. change u64_max with (Z.ones 64). apply Z.ones_spec_low. lia.
  - rewrite Z.shiftl_1_l, Z.sub_1_r, <- Z.ones_equiv. apply Z.ones_spec_low. lia.
Qed.

Lemma testbit_1 i : 0 <= i -> Z.testbit 1 i = (i =? 0).
Proof. intros Hi. exact (mask_bit 0 i ltac:(lia) Hi). Qed.

(** The bitmap after the window moves up to [n]. *)
Lemma shifted_bitmap_spec d sp h n i :
  phantom_rel (window_size d - 1) d sp -> highest_sequence d = Some h -> h < n ->
  0 <= i < window_size d ->
  Z.testbit (if window_size d <=? n - h then 1
             else Z.land (Z.lor (u64_shl (seen_bitmap d) (n - h)) 1) (window_mask d)) i
  = bool_decide (n - i ∈ ({[n]} ∪ sp_seen sp : gset Z)).
Proof.
  intros (_ & Hw & Hsp & Hhi & Hbit) Hh Hn Hi. destruct sp as [hi seen]. simpl in *.
  rewrite Hh in Hhi. subst hi. destruct Hsp as [Hin Hmax]. simpl in *.
  assert (bool_decide (n - i ∈ ({[n]} ∪ seen : gset Z)) = (i =? 0) || bool_decide (n - i ∈ seen)) as ->.
  { destruct (Z.eqb_spec i 0); simpl.
    - apply bool_decide_eq_true. set_solver by lia.
    - apply bool_decide_ext. rewrite elem_of_union, elem_of_singleton. intuition lia. }
  destruct (Z.leb_spec (window_size d) (n - h)).
  - rewrite testbit_1 by lia. rewrite (bool_decide_eq_false_2 (n - i ∈ seen)), orb_false_r; [done|].
    intros Hx%Hmax. lia.
  - rewrite Z.land_spec, window_mask_bit, andb_true_r, Z.lor_spec, u64_shl_bit, testbit_1, orb_comm by lia.
    f_equal. destruct (Z.leb_spec (n - h) i); simpl.
    + rewrite (Hbit h Hh) by lia. by replace (h - (i - (n - h))) with (n - i) by lia.
    + symmetry. apply bool_decide_eq_false. intros Hx%Hmax. lia.
Qed.

Lemma accept_sequence_refines depth d sp n :
  phantom_rel depth d sp ->
  (phantom_accept n d).1 = (spec_accept depth n sp).1 /\
  phantom_rel depth (phantom_accept n d).2 (spec_accept depth n sp).2.
Proof.
  intros HR. pose proof HR as (-> & Hw & Hsp & Hhi & Hbit).
  pose proof (spec_accept_wf (window_size d - 1) n sp Hsp) as Hsp'.
  unfold phantom_accept, accept_sequence, spec_accept in *. rewrite Hhi in *.
  destruct (highest_sequence d) as [h|] eqn:Hh.
  2: { split; [done|]. unfold phantom_rel. simpl. split; [done|split; [done|split; [done|split; [done|]]]].
       intros ? [= <-] i Hi. rewrite testbit_1 by lia. unfold spec_wf in Hsp. rewrite Hhi in Hsp. rewrite Hsp.
       destruct (Z.eqb_spec i 0); symmetry; [apply bool_decide_eq_true|apply bool_decide_eq_false];
         set_solver by lia. }
  destruct (Z.ltb_spec h n) as [Hn|Hn].
  { split; [done|]. unfold phantom_rel. simpl.
    split; [done|split; [done|split; [done|split; [done|]]]]. intros ? [= <-] i Hi.
    by apply shifted_bitmap_spec. }
  destruct (Z.leb_spec (window_size d) (h - n)) as [Hd|Hd].
  { rewrite (proj2 (Z.leb_gt _ _)) in * by lia. split; [done|]. exact HR. }
  rewrite (proj2 (Z.leb_le (h - n) _)) in * by lia. cbn [andb] in *.
  rewrite mask_test, (Hbit h eq_refl) by lia. replace (h - (h - n)) with n by lia.
  destruct (bool_decide_reflect (n ∈ sp_seen sp)) as [Hin|Hin].
  { rewrite bool_decide_eq_false_2 in * by set_solver. split; [done|]. exact HR. }
  rewrite bool_decide_eq_true_2 in * by done. split; [done|]. unfold phantom_rel. simpl.
  split; [done|split; [done|split; [done|split; [done|]]]]. intros ? [= <-] i Hi.
  rewrite Z.lor_spec, mask_bit, (Hbit h eq_refl) by lia.
  destruct (Z.eqb_spec i (h - n)) as [->|]; simpl.
  - rewrite orb_true_r. symmetry. apply bool_decide_eq_true. set_solver by lia.
  - rewrite orb_false_r. apply bool_decide_ext. rewrite elem_of_union, elem_of_singleton. intuition lia.
Qed.

#[export] Instance phantom_anti_replay : AntiReplay phantom_accept phantom_rel.
Proof.
  split; [by intros d s sp (_ & _ & ? & _)|]. intros d s sp n HR _. by apply accept_sequence_refines.
Qed.

(** ** Lemmas: one received datagram *)

Definition decoder_wf (d : PhantomOneDecoder) : Prop :=
  config_wf (dec_config d) /\ 0 <= dec_generation d <= u32_max /\ 0 <= padding_bytes_used d.

Definition within_budget (d : PhantomOneDecoder) (n : Z) : Prop :=
  match padding_budget (dec_config d) with Some b => n <= b | None => True end.

Definition frame_of (d : PhantomOneDecoder) ft seq (payload padding : bytes) : PhantomOneFrame :=
  mkPhantomOneFrame (profile (dec_config d)) (dec_generation d) ft seq payload
    (24 + zlen payload + zlen padding) (zlen padding).

Definition layout_of (d : PhantomOneDecoder) ft seq (payload padding : bytes) : bytes :=
  phantom_layout (tier_id (profile (dec_config d))) (dec_generation d) (frame_type_u8 ft) seq
    payload padding.

Lemma phantom_accept_keeps n d :
  dec_generation (phantom_accept n d).2 = dec_generation d /\
  dec_config (phantom_accept n d).2 = dec_config d /\
  padding_bytes_used (phantom_accept n d).2 = padding_bytes_used d /\
  window_size (phantom_accept n d).2 = window_size d.
Proof.
  unfold phantom_accept, accept_sequence. destruct (highest_sequence d); repeat case_if; done.
Qed.

Lemma accept_sequence_rejects n d :
  (phantom_accept n d).1 = false -> exists e, accept_sequence n d = (Err e, d).
Proof.
  unfold phantom_accept, accept_sequence. destruct (highest_sequence d); repeat case_if; simpl; eauto; done.
Qed.

Lemma accept_sequence_accepts n d :
  (phantom_accept n d).1 = true -> accept_sequence n d = (Ok (), (phantom_accept n d).2).
Proof.
  unfold phantom_accept, accept_sequence. destruct (highest_sequence d); repeat case_if; simpl; done.
Qed.

(** The outcomes of receiving one datagram. *)
Lemma decode_cases dg mtu d :
  bytes_ok dg -> decoder_wf d ->
  (exists e, decode dg mtu d = (Err e, d)) \/
  (exists ft seq payload padding,
     dg = layout_of d ft seq payload padding /\ 0 <= seq <= u64_max /\
     (phantom_accept seq d).1 = true /\
     padding_bytes_used d + zlen padding <= u64_max /\
     within_budget d (padding_bytes_used d + zlen padding) /\
     decode dg mtu d = (Ok (frame_of d ft seq payload padding),
       set_padding_used (phantom_accept seq d).2 (padding_bytes_used d + zlen padding))).
Proof.
  intros Hb (Hwf & Hg & Hu). unfold decode, admit_parts.
  destruct (decode_parts dg (dec_generation d) mtu (dec_config d)) as [parts|e|] eqn:Ed;
    [|left; by exists e|by apply decode_parts_no_panic in Ed].
  apply decode_parts_ok in Ed as (_ & _ & ft & seq & payload & padding & Hseq & -> & Hs & ->); [|done..].
  cbn [sbind p_padding_len p_sequence]. unfold next_padding_bytes, checked_add.
  destruct (Z.leb_spec (padding_bytes_used d + zlen padding) u64_max); cbn [ok_or rbind sbind]; [|eauto].
  destruct (match padding_budget (dec_config d) with Some b => _ | None => false end) eqn:Eb;
    cbn [sbind]; [eauto|].
  destruct (phantom_accept seq d).1 eqn:Ea.
  2: { apply accept_sequence_rejects in Ea as [e ->]. eauto. }
  rewrite accept_sequence_accepts by done. cbn [sbind]. right.
  exists ft, seq, payload, padding. split; [done|]. split; [done|]. split; [done|]. split; [done|].
  split. { unfold within_budget. destruct (padding_budget _); [by bool_prop|done]. }
  rewrite to_frame_layout, zlen_phantom_layout by done. done.
Qed.

Definition receive (mtu : Z) (dg : bytes) (d : PhantomOneDecoder) := decode dg mtu d.

Definition total_padding (fs : list PhantomOneFrame) : Z :=
  fold_right Z.add 0 (map fr_padding_len fs).

(** Over any datagrams: no panic, fresh sequence numbers, padding accounted. *)
Lemma receive_run_safe depth mtu dgs d sp :
  Forall bytes_ok dgs -> decoder_wf d -> phantom_rel depth d sp ->
  let rs := (run (receive mtu) dgs d).1 in
  let d' := (run (receive mtu) dgs d).2 in
  Forall no_panic rs /\ NoDup (map fr_sequence (oks rs)) /\
  (forall n, n ∈ map fr_sequence (oks rs) -> n ∉ sp_seen sp) /\
  padding_bytes_used d' = padding_bytes_used d + total_padding (oks rs) /\
  (within_budget d (padding_bytes_used d) -> within_budget d (padding_bytes_used d')).
Proof.
  intros Hb. revert d sp. induction Hb as [|dg dgs Hdg Hb IH]; intros d sp Hwf HR.
  { cbn. repeat split; try constructor; try done; [set_solver|lia]. }
  cbv zeta. rewrite run_cons. change (receive mtu dg d) with (decode dg mtu d).
  destruct (decode_cases dg mtu d Hdg Hwf)
    as [[e ->]|(ft & sq & payload & padding & -> & Hseq & Ha & Hmax & Hbud & ->)]; cbn [fst snd].
  { rewrite oks_cons_err. destruct (IH d sp Hwf HR) as (I1 & I2). split; [by constructor|done]. }
  pose proof (phantom_accept_keeps sq d) as (K1 & K2 & K3 & K4).
  destruct (accept_sequence_refines depth d sp sq HR) as [E1 HR1]. rewrite Ha in E1.
  pose proof HR as (_ & _ & Hsp & _).
  destruct (spec_accept_fresh depth sq sp Hsp (eq_sym E1)) as [Hfresh Hseen].
  set (d1 := (phantom_accept sq d).2) in *. set (used := padding_bytes_used d + zlen padding) in *.
  destruct Hwf as (Hwf & Hg & Hu). pose proof (zlen_nonneg padding).
  destruct (IH (set_padding_used d1 used) (spec_accept depth sq sp).2) as (I1 & I2 & I3 & I4 & I5).
  { unfold decoder_wf. cbn. rewrite K1, K2. split; [done|split; [done|unfold used; lia]]. }
  { exact HR1. }
  rewrite oks_cons_ok. rewrite Hseen in I3. cbn [map fr_sequence frame_of].
  split; [by constructor|]. split; [|split; [|split]].
  - constructor; [|done]. intros Hin%I3. set_solver.
  - set_solver.
  - rewrite I4. unfold used, total_padding. cbn. lia.
  - intros _. unfold within_budget in *. cbn in I5. rewrite K2 in I5. by apply I5.
Qed.

(** ** Lemmas: a session *)

Section Session.
Context {R : Type} `{RngLaws R}.

Definition send (mtu : Z) (m : PhantomOneFrameType * bytes) (e : PhantomOneEncoder R) :=
  encode m.1 m.2 mtu e.

(** A sender and a receiver in step: everything the receiver has accepted is
    behind the sender's next number and accounted for in its budget. *)
Definition in_step (e : PhantomOneEncoder R) (d : PhantomOneDecoder) : Prop :=
  config_wf (enc_config e) /\ dec_config d = enc_config e /\
  dec_generation d = enc_generation e /\ 0 <= enc_generation e <= u32_max /\
  0 <= padding_bytes_used d <= padding_bytes (metrics e) /\
  within_budget d (padding_bytes_used d) /\
  (forall s, next_sequence e = Some s ->
     0 <= s <= u64_max /\ forall h, highest_sequence d = Some h -> h < s).

Lemma phantom_accept_newer d s :
  (forall h, highest_sequence d = Some h -> h < s) ->
  (phantom_accept s d).1 = true /\ highest_sequence (phantom_accept s d).2 = Some s.
Proof.
  intros Hh. unfold phantom_accept, accept_sequence.
  destruct (highest_sequence d) as [h|]; [|done].
  rewrite (proj2 (Z.ltb_lt _ _)) by auto. done.
Qed.

(** A frame that was admitted decodes, in either form of the decoder. *)
Definition parts_of (d : PhantomOneDecoder) ft seq (payload padding : bytes) : DecodedPhantomOneParts :=
  mkParts (profile (dec_config d)) (dec_generation d) ft seq (zlen payload)
    (24 + zlen payload + zlen padding) (zlen padding) (24 + zlen payload).

Lemma decode_admitted mtu ft seq payload padding d d' :
  admit_parts (layout_of d ft seq payload padding) mtu d = (Ok (parts_of d ft seq payload padding), d') ->
  decode (layout_of d ft seq payload padding) mtu d = (Ok (frame_of d ft seq payload padding), d') /\
  decode_in_place (layout_of d ft seq payload padding) mtu d = (Ok payload, d').
Proof.
  intros E. unfold decode, decode_in_place. rewrite E. cbn [sbind]. split.
  - unfold layout_of. by rewrite to_frame_layout.
  - unfold parts_of, PHANTOM_ONE_HEADER_BYTES. cbn [p_payload_end p_payload_len]. f_equal.
    pose proof (zlen_nonneg payload). pose proof (zlen_nonneg padding).
    pose proof (copy_within_front_wipe 24 (24 + zlen payload) (layout_of d ft seq payload padding)) as W.
    replace (24 + zlen payload - 24) with (zlen payload) in W by lia.
    unfold layout_of in *. rewrite zlen_phantom_layout in W. rewrite W by lia.
    unfold phantom_layout. rewrite zdrop_app by apply zlen_phantom_header. by rewrite ztake_app.
Qed.

(** A frame that an encoder in step may produce, and what follows from it. *)
Definition frame_fits (e : PhantomOneEncoder R) (mtu plen padlen : Z) : Prop :=
  validate (enc_config e) = Ok () /\ validate_path_mtu mtu = Ok () /\
  24 + plen + padlen <= mtu /\ plen <= PHANTOM_ONE_MAX_PAYLOAD_BYTES /\
  min_padding (enc_config e) <= padlen <= max_padding (enc_config e) /\
  padlen <= remaining_padding e /\
  (profile_bound (enc_config e) = true ->
     accepts_frame_len (profile (enc_config e)) (24 + plen + padlen) = true).

Definition frame_received (mtu : Z) ft s (payload padding : bytes) (e' : PhantomOneEncoder R)
    (d d' : PhantomOneDecoder) : Prop :=
  admit_parts (layout_of d ft s payload padding) mtu d = (Ok (parts_of d ft s payload padding), d') /\
  bytes_ok (layout_of d ft s payload padding) /\
  zlen (layout_of d ft s payload padding) <= mtu /\
  in_step e' d' /\ in_step e' d /\
  (forall s', next_sequence e' = Some s' -> s' = s + 1) /\
  padding_bytes_used d <= padding_bytes_used d' <= padding_bytes_used d + PHANTOM_ONE_MAX_PADDING_BYTES.

Lemma frame_step mtu ft s payload padding r e d :
  in_step e d -> bytes_ok payload -> bytes_ok padding ->
  padding_bytes_used d + PHANTOM_ONE_MAX_PADDING_BYTES <= u64_max ->
  next_sequence e = Some s -> frame_fits e mtu (zlen payload) (zlen padding) ->
  exists d', frame_received mtu ft s payload padding
               (after_frame e r s (zlen payload) (zlen padding)) d d'.
Proof.
  intros (Hwf & Hc & Hg & Hgb & Hu & Hin & Hn) Hb Hpb Hmax Hs (Hv & Hmtu & Hle & Hpl & Hpad & Hrem & Hacc).
  destruct (Hn s Hs) as [Hsb Hh]. pose proof (zlen_nonneg padding).
  destruct (validate_cases _ Hwf) as [[? Ev]|(_ & Hpm & _)]; [by rewrite Hv in Ev|].
  destruct (phantom_accept_newer d s Hh) as [Ha Hhi].
  pose proof (phantom_accept_keeps s d) as (K1 & K2 & K3 & K4).
  assert (within_budget d (padding_bytes_used d + zlen padding)) as Hbud.
  { unfold within_budget in *. rewrite Hc in *.
    unfold remaining_padding, try_from, saturating_sub in Hrem.
    destruct Hwf as (_ & _ & Hbud). destruct (padding_budget (enc_config e)) as [b|]; [|done].
    unfold usize_max in Hrem.
    rewrite (proj2 (Z.leb_le _ _)) in Hrem by lia. simpl in Hrem. lia. }
  exists (set_padding_used (phantom_accept s d).2 (padding_bytes_used d + zlen padding)).
  assert (bytes_ok (layout_of d ft s payload padding)) as Hlay by (by apply phantom_layout_bytes).
  assert (zlen (layout_of d ft s payload padding) <= mtu) as Hlen
    by (unfold layout_of; rewrite zlen_phantom_layout; lia).
  revert Hlay Hlen. unfold frame_received, layout_of, parts_of. rewrite Hc, Hg. intros Hlay Hlen.
  split; [|split; [done|split; [done|]]].
  - unfold admit_parts. rewrite Hc, Hg, decode_parts_layout by (done || by split).
    cbn [sbind p_padding_len p_sequence]. unfold next_padding_bytes, checked_add.
    rewrite (proj2 (Z.leb_le _ _)) by lia. cbn [ok_or rbind].
    assert (match padding_budget (dec_config d) with
            | Some b => b <? padding_bytes_used d + zlen padding | None => false end = false) as ->.
    { unfold within_budget in Hbud. destruct (padding_budget _); [by apply Z.ltb_ge|done]. }
    cbn [sbind]. rewrite accept_sequence_accepts by done. cbn [sbind].
    by rewrite zlen_phantom_layout.
  - split; [|split; [|split]].
    + unfold in_step. cbn. rewrite K1, K2. repeat (split; [done || lia|]). split.
      * unfold count_frame. cbn. unfold saturating_add. lia.
      * split; [unfold within_budget in *; cbn; by rewrite K2|]. intros s'. unfold checked_add. case_if; [|done]. intros [= <-]. bool_prop.
        split; [lia|]. intros h. rewrite Hhi. intros [= <-]. lia.
    + unfold in_step. cbn. unfold saturating_add. repeat (split; [done || lia|]).
      intros s'. unfold checked_add. case_if; [|done]. intros [= <-]. bool_prop.
      split; [lia|]. intros h Hd. specialize (Hh h Hd). lia.
    + intros s'. cbn. unfold checked_add. case_if; [|done]. by intros [= <-].
    + cbn. lia.
Qed.

(** The wire layout, seen from either side. *)
Lemma layout_in_step ft s payload padding e d : in_step e d ->
  phantom_layout (tier_id (profile (enc_config e))) (enc_generation e) (frame_type_u8 ft) s payload padding
  = layout_of d ft s payload padding.
Proof. intros (_ & Hc & Hg & _). unfold layout_of. by rewrite Hc, Hg. Qed.

Lemma in_step_rng e d r : in_step e d -> in_step (set_rng e r) d.
Proof. done. Qed.

(** One message sent and received, with a selected or a given target. *)
Lemma session_step mtu ft payload e d :
  in_step e d -> bytes_ok payload ->
  padding_bytes_used d + PHANTOM_ONE_MAX_PADDING_BYTES <= u64_max ->
  (exists err e', encode ft payload mtu e = (Err err, e') /\ in_step e' d /\
     next_sequence e' = next_sequence e) \/
  (exists s padding e' d',
     encode ft payload mtu e = (Ok (layout_of d ft s payload padding), e') /\
     next_sequence e = Some s /\ frame_received mtu ft s payload padding e' d d').
Proof.
  intros HS Hb Hmax. destruct (encode_cases e ft payload mtu (proj1 HS))
    as [(err & r & ->)|(s & padding & r & -> & Hs & Hpb & Hfits)].
  { left. exists err, (set_rng e r). by repeat (split; [done|]). }
  right. destruct (frame_step mtu ft s payload padding r e d HS Hb Hpb Hmax Hs Hfits) as [d' Hr].
  rewrite (layout_in_step _ _ _ _ e d HS). eexists _, _, _, _. split; [done|]. by split.
Qed.

Lemma target_step mtu ft payload target e d :
  in_step e d -> bytes_ok payload ->
  padding_bytes_used d + PHANTOM_ONE_MAX_PADDING_BYTES <= u64_max ->
  (exists err r, encode_with_target ft payload target mtu e = (Err err, set_rng e r)) \/
  (exists s padding e' d',
     encode_with_target ft payload target mtu e = (Ok (layout_of d ft s payload padding), e') /\
     next_sequence e = Some s /\ zlen (layout_of d ft s payload padding) = target /\
     frame_received mtu ft s payload padding e' d d').
Proof.
  intros HS Hb Hmax. destruct (encode_with_target_cases e ft payload target mtu (proj1 HS))
    as [?|(s & padding & r & -> & Hs & Hpb & Hlen & Hv & Hm & Ht & Hp & Hpad & Hrem & Hacc)]; [by left|right].
  replace target with (24 + zlen payload + zlen padding) in * by lia.
  destruct (frame_step mtu ft s payload padding r e d HS Hb Hpb Hmax Hs) as [d' Hr]; [by repeat (split; [done|])|].
  rewrite (layout_in_step _ _ _ _ e d HS). eexists _, _, _, _. split; [done|].
  split; [done|]. split; [unfold layout_of; by rewrite zlen_phantom_layout|done].
Qed.

Lemma session_run mtu ms e d :
  in_step e d -> Forall (fun m => bytes_ok m.2) ms ->
  padding_bytes_used d + zlen ms * PHANTOM_ONE_MAX_PADDING_BYTES <= u64_max ->
  let rs := (run (send mtu) ms e).1 in
  exists fs, (run (receive mtu) (oks rs) d).1 = map Ok fs /\
    map (fun f => (fr_frame_type f, fr_payload f)) fs = sent ms rs /\
    match next_sequence e with
    | Some s => map fr_sequence fs = map (fun i => s + Z.of_nat i) (seq 0 (length fs))
    | None => fs = []
    end.
Proof.
  intros HS Hb. revert e d HS. induction Hb as [|[ft payload] ms Hm Hb IH]; intros e d HS Hmax.
  { exists []. cbn. by destruct (next_sequence e). }
  rewrite zlen_cons in Hmax. pose proof (zlen_nonneg ms).
  assert (0 <= PHANTOM_ONE_MAX_PADDING_BYTES) by done.
  cbv zeta. rewrite run_cons. change (send mtu (ft, payload) e) with (encode ft payload mtu e).
  destruct (session_step mtu ft payload e d HS Hm ltac:(nia))
    as [(err & e' & -> & HS' & Hnext)|(s & padding & e' & d' & -> & Hs & Hadm & _ & _ & HS' & _ & Hnext & Hu)];
    cbn [fst snd].
  - destruct (IH e' d HS' ltac:(nia)) as (fs & F1 & F2 & F3).
    exists fs. rewrite oks_cons_err, <- Hnext. done.
  - destruct (IH e' d' HS' ltac:(nia)) as (fs & F1 & F2 & F3).
    exists (frame_of d ft s payload padding :: fs).
    rewrite oks_cons_ok, run_cons.
    change (receive mtu ?dg d) with (decode dg mtu d).
    rewrite (proj1 (decode_admitted _ _ _ _ _ _ _ Hadm)). cbn [fst snd].
    rewrite F1. split; [done|]. split; [rewrite sent_cons; cbn; by rewrite F2|].
    rewrite Hs. cbn [map length seq]. f_equal; [cbn; lia|]. rewrite <- seq_shift, map_map.
    destruct (next_sequence e') as [s'|] eqn:En; [|by subst fs].
    rewrite F3, (Hnext s' eq_refl). apply map_ext. intros i. lia.
Qed.
End Session.

(** ** Properties *)

(** target selection is total and sound.  For every well-formed
    configuration, in all three selection modes, selecting a target never
    panics (no empty sampling range, and the weighted draw always ends on an
    eligible class); a selected target holds the header, the payload and the
    minimum padding, fits the path MTU, the padding bound and the remaining
    lifetime budget, and is canonical for a profile-bound encoder; only the
    generator changes. *)
Theorem phantom_target_size_sound {R} `{RngLaws R} (e : PhantomOneEncoder R) payload_len path_mtu :
  config_wf (enc_config e) -> 0 <= payload_len ->
  no_panic (target_size payload_len path_mtu e).1 /\
  (exists r, (target_size payload_len path_mtu e).2 = set_rng e r) /\
  forall t, (target_size payload_len path_mtu e).1 = Ok t -> target_fits e payload_len path_mtu t.
Proof.
  intros Hwf Hlen. destruct (target_size_cases e payload_len path_mtu Hwf Hlen)
    as [[err ->]|(t & r & -> & Ht)]; cbn [fst snd].
  - split; [done|]. split; [exists (rng e); by destruct e|done].
  - split; [done|]. split; [by exists r|]. by intros ? [= <-].
Qed.

(** the decoder accepts exactly the frames of its session.  A datagram
    passes [decode_parts] exactly when it is the wire layout of a frame of this
    generation and profile whose sizes satisfy the MTU, the padding bounds and,
    when bound, the canonical classes; the decoded fields are those of the
    layout; and no byte string makes it panic. *)
Theorem phantom_decode_exact d g mtu c :
  bytes_ok d -> config_wf c -> 0 <= g <= u32_max ->
  no_panic (decode_parts d g mtu c) /\
  forall parts, decode_parts d g mtu c = Ok parts <->
    validate c = Ok () /\ validate_path_mtu mtu = Ok () /\
    exists ft seq payload padding,
      0 <= seq <= u64_max /\
      d = phantom_layout (tier_id (profile c)) g (frame_type_u8 ft) seq payload padding /\
      sizes_ok c mtu (zlen payload) (zlen padding) /\
      parts = mkParts (profile c) g ft seq (zlen payload) (zlen d) (zlen padding) (24 + zlen payload).
Proof.
  intros Hb Hwf Hg. split; [by apply decode_parts_no_panic|]. intros parts. by apply decode_parts_ok.
Qed.

(** C8: a Phantom One receiver is safe against any input.  Over any sequence of
    datagrams, a decoder created with a valid configuration and window never
    panics, never returns two frames with the same sequence number, keeps an
    exact account of the padding it accepted, and never exceeds the configured
    lifetime padding budget. *)
Theorem phantom_decoder_safe g c w d mtu dgs :
  with_config_and_window g c w = Ok d -> config_wf c -> 0 <= g <= u32_max ->
  Forall bytes_ok dgs ->
  let rs := (run (receive mtu) dgs d).1 in
  let d' := (run (receive mtu) dgs d).2 in
  Forall no_panic rs /\ NoDup (map fr_sequence (oks rs)) /\
  padding_bytes_used d' = total_padding (oks rs) /\
  match padding_budget c with Some b => total_padding (oks rs) <= b | None => True end.
Proof.
  intros Hd Hwf Hg Hb. unfold with_config_and_window, in_range in Hd. guards Hd.
  injection Hd as <-. unfold PHANTOM_ONE_DEFAULT_REPLAY_WINDOW in *.
  destruct (receive_run_safe (w - 1) mtu dgs (mkPhantomOneDecoder g w c None 0 0) spec_empty)
    as (S1 & S2 & _ & S4 & S5); [done|done|done|].
  cbv zeta. split; [done|split; [done|]]. cbn in S4. split; [done|].
  unfold within_budget in S5. cbn [dec_config] in S5. rewrite S4 in S5.
  destruct Hwf as (_ & _ & Hbud). destruct (padding_budget c); [|done]. cbn in S5. apply S5. lia.
Qed.

(** a Phantom One session delivers.  Whatever messages an encoder with a
    fresh sequence space is asked to send, the frames it produces (within its
    budget, classes and MTU) are all accepted, in order, by a fresh decoder of
    the same generation and configuration: the decoder returns exactly the
    messages whose encoding succeeded, with their types, under consecutive
    sequence numbers from zero. *)
Theorem phantom_session_delivers {R} `{RngLaws R} g c w (r : R) d mtu ms :
  with_config_and_window g c w = Ok d -> config_wf c -> 0 <= g <= u32_max ->
  Forall (fun m => bytes_ok m.2) ms -> zlen ms * PHANTOM_ONE_MAX_PADDING_BYTES <= u64_max ->
  let rs := (run (send mtu) ms (from_validated_config g r c)).1 in
  exists fs, (run (receive mtu) (oks rs) d).1 = map Ok fs /\
    map (fun f => (fr_frame_type f, fr_payload f)) fs = sent ms rs /\
    map fr_sequence fs = map Z.of_nat (seq 0 (length fs)).
Proof.
  intros Hd Hwf Hg Hb Hn. unfold with_config_and_window in Hd. guards Hd. injection Hd as <-.
  destruct (session_run mtu ms (from_validated_config g r c) (mkPhantomOneDecoder g w c None 0 0))
    as (fs & F1 & F2 & F3); [|done|cbn; lia|].
  - unfold in_step, within_budget. cbn. repeat (split; [done || lia|]). split.
    + destruct Hwf as (_ & _ & Hbud). by destruct (padding_budget c); [lia|].
    + intros s [= <-]. split; [unfold u64_max; lia|done].
  - exists fs. split; [done|split; [done|]]. cbn in F3. rewrite F3. by apply map_ext.
Qed.

(** ** Witnesses: the properties at concrete inputs *)
Module Witnesses.
Import Toy.

Definition weighted_config : PhantomOneConfig :=
  mkPhantomOneConfig Low 0 4096 true (Weighted [1; 3; 0; 0; 0; 0; 0]) (Some 500).

Lemma phantom_target_size_sound_witness :
  let e := mkPhantomOneEncoder 1 (Some 5) weighted_config 2 EnvelopeMetrics_default in
  (target_size 50 1200 e).1 = Ok 256 /\ target_fits e 50 1200 256.
Proof.
  assert (config_wf weighted_config) as Hwf.
  { split; [vm_compute; discriminate|]. split; [split; [reflexivity|by_compute]|].
    split; vm_compute; discriminate. }
  split; [vm_compute; reflexivity|].
  apply (phantom_target_size_sound
    (mkPhantomOneEncoder 1 (Some 5) weighted_config 2 EnvelopeMetrics_default) 50 1200 Hwf);
    [vm_compute; discriminate|vm_compute; reflexivity].
Defined.

Lemma phantom_decode_exact_witness :
  let d := phantom_layout 1 7 1 3 [10; 20] (zreplicate 5 9) in
  decode_parts d 7 1200 PhantomOneConfig_default
  = Ok (mkParts Medium 7 Data 3 2 31 5 26).
Proof.
  apply (phantom_decode_exact (phantom_layout 1 7 1 3 [10; 20] (zreplicate 5 9)) 7 1200
    PhantomOneConfig_default); [by_compute|by_compute|by_compute|].
  split; [vm_compute; reflexivity|]. split; [vm_compute; reflexivity|].
  exists Data, 3, [10; 20], (zreplicate 5 9). split; [by_compute|]. split; [reflexivity|].
  split; [|reflexivity]. split; [by_compute|]. split; [by_compute|]. split; [by_compute|discriminate].
Defined.

Lemma phantom_decoder_safe_witness :
  let d := phantom_layout 1 7 1 3 [10; 20] (zreplicate 5 9) in
  NoDup (map fr_sequence (oks (run (receive 1200) [d; [1]; d] (decoder_new 7)).1)).
Proof.
  apply (phantom_decoder_safe 7 PhantomOneConfig_default 64 (decoder_new 7) 1200
    [phantom_layout 1 7 1 3 [10; 20] (zreplicate 5 9); [1];
     phantom_layout 1 7 1 3 [10; 20] (zreplicate 5 9)]);
    [reflexivity|by_compute|by_compute|by_compute].
Defined.

Lemma phantom_session_delivers_witness :
  exists fs,
    (run (receive 1200) (oks (run (send 1200) [(Data, [1; 2]); (Control, []); (Data, zreplicate 2000 1)]
       (from_validated_config 7 0 PhantomOneConfig_default)).1) (decoder_new 7)).1 = map Ok fs /\
    map (fun f => (fr_frame_type f, fr_payload f)) fs = [(Data, [1; 2]); (Control, [])].
Proof.
  destruct (phantom_session_delivers 7 PhantomOneConfig_default 64 0 (decoder_new 7) 1200
    [(Data, [1; 2]); (Control, []); (Data, zreplicate 2000 1)]) as (fs & F1 & F2 & _);
    [reflexivity|by_compute|by_compute|by_compute|by_compute|].
  exists fs. split; [exact F1|]. rewrite F2. vm_compute. reflexivity.
Defined.
End Witnesses.
