(* ===== verification/TcpTransport.v ===== *)
(** Encrypted framing over TCP (shph-transport/src/lib.rs): the sender that
    pads, encrypts and length-prefixes a payload, the incremental
    [TcpFrameReader] that survives short reads and timeouts, and the receiver
    that undoes the layers.  The socket is a byte queue in each direction with
    an explicit schedule of read and write events. *)
From S2P Require Import Prelude Error Text Primitives Replay Obfuscation SessionCrypto PhantomOne.

Definition MAX_FRAME_BYTES : Z := 64 * 1024.
Definition SHROUD_AEAD_OVERHEAD : Z := 12 + 16.
Definition MAX_TCP_PAYLOAD_BYTES : Z := MAX_FRAME_BYTES - SHROUD_AEAD_OVERHEAD.
Definition PHANTOM_ONE_TCP_PATH_MTU : Z := MAX_TCP_PAYLOAD_BYTES.

(** ** The socket *)

Inductive IoErrorKind :=
  | IoTimedOut | IoWouldBlock | IoUnexpectedEof | IoBrokenPipe | IoConnectionAborted
  | IoConnectionReset | IoNotConnected | IoOther (text : string).

Definition map_io_error (kind : IoErrorKind) : ShphError :=
  match kind with
  | IoTimedOut | IoWouldBlock => Timeout
  | IoUnexpectedEof | IoBrokenPipe | IoConnectionAborted | IoConnectionReset
  | IoNotConnected => ConnectionClosed
  | IoOther text => Io text
  end.

(** What the next [read] of the receiving half does: deliver up to [k] of the
    bytes in flight (none at the end of the stream), be interrupted, or fail. *)
Inductive ReadEvent := Deliver (k : Z) | Interrupted | Failed (kind : IoErrorKind).

Record RxStream := mkRxStream { rx : bytes; rx_events : list ReadEvent }.

(** What the next [write_all] or [flush] does: succeed, or fail after [n]
    bytes.  An exhausted schedule succeeds. *)
Inductive WriteEvent := Written | Broken (n : Z) (kind : IoErrorKind).

Record TxStream := mkTxStream { tx : bytes; tx_events : list WriteEvent }.

Definition write_tcp_all_or_closed (payload : bytes) (s : TxStream) : result unit * TxStream :=
  match tx_events s with
  | [] => (Ok (), mkTxStream (tx s ++ payload) [])
  | Written :: evs => (Ok (), mkTxStream (tx s ++ payload) evs)
  | Broken n kind :: evs => (Err (map_io_error kind), mkTxStream (tx s ++ ztake n payload) evs)
  end.

(** ** Sending *)

Section Sender.
Context {R : Type} `{RngOps R, AeadOps}.

(** [os_rng] is the operating system's generator. *)
Record SecureTcpSender := mkSecureTcpSender {
  s_stream : TxStream;
  s_cipher : SendCipher;
  s_padding_profile : option ProfileTier;
  s_padding_padder : option (ProfilePadder R);
  s_padding_buffer : bytes;
  s_phantom_one_encoder : option (PhantomOneEncoder R);
  os_rng : R
}.

Definition validate_tcp_payload (payload : bytes) : result unit :=
  if MAX_TCP_PAYLOAD_BYTES <? zlen payload
  then Err (Protocol ("TCP payload exceeds the " +:+ show MAX_TCP_PAYLOAD_BYTES +:+ "-byte frame capacity"))
  else Ok ().

(** The padding stage: the framed payload and the sender's generators after it. *)
Definition frame_payload (payload : bytes) (s : SecureTcpSender) : result bytes * SecureTcpSender :=
  match s_padding_profile s, s_padding_padder s with
  | Some _, Some padder =>
      let '(res, (buffer, padder)) := apply_into payload (s_padding_buffer s) padder in
      (rbind res (fun _ => Ok buffer),
       mkSecureTcpSender (s_stream s) (s_cipher s) (s_padding_profile s) (Some padder) buffer
         (s_phantom_one_encoder s) (os_rng s))
  | Some profile, None =>
      let '(res, (buffer, r)) :=
        apply_profile_into_with_rng profile payload (s_padding_buffer s) (os_rng s) in
      (rbind res (fun _ => Ok buffer),
       mkSecureTcpSender (s_stream s) (s_cipher s) (s_padding_profile s) None buffer
         (s_phantom_one_encoder s) r)
  | None, padder =>
      match s_phantom_one_encoder s with
      | Some encoder =>
          let '(res, (buffer, encoder)) :=
            encode_into Data payload PHANTOM_ONE_TCP_PATH_MTU (s_padding_buffer s) encoder in
          (rbind res (fun _ => Ok buffer),
           mkSecureTcpSender (s_stream s) (s_cipher s) None padder buffer (Some encoder) (os_rng s))
      | None => (Ok payload, s)
      end
  end.

Definition with_cipher (c : SendCipher) (s : SecureTcpSender) : SecureTcpSender :=
  mkSecureTcpSender (s_stream s) c (s_padding_profile s) (s_padding_padder s)
    (s_padding_buffer s) (s_phantom_one_encoder s) (os_rng s).
Definition with_stream (t : TxStream) (s : SecureTcpSender) : SecureTcpSender :=
  mkSecureTcpSender t (s_cipher s) (s_padding_profile s) (s_padding_padder s)
    (s_padding_buffer s) (s_phantom_one_encoder s) (os_rng s).
(** [ZeroizeOnDrop] empties the padding buffer when the call returns. *)
Definition drop_padding (s : SecureTcpSender) : SecureTcpSender :=
  mkSecureTcpSender (s_stream s) (s_cipher s) (s_padding_profile s) (s_padding_padder s)
    [] (s_phantom_one_encoder s) (os_rng s).

Definition on_cipher (framed : bytes) (s : SecureTcpSender) : result bytes * SecureTcpSender :=
  let '(res, c) := encrypt framed (s_cipher s) in (res, with_cipher c s).
Definition on_stream (data : bytes) (s : SecureTcpSender) : result unit * SecureTcpSender :=
  let '(res, t) := write_tcp_all_or_closed data (s_stream s) in (res, with_stream t s).

Definition write_encrypted_tcp_frame (payload : bytes) (s : SecureTcpSender)
  : result unit * SecureTcpSender :=
  let '(res, s) :=
    (let! _ok, s := (validate_tcp_payload payload, s) in
     if bool_decide (is_Some (s_phantom_one_encoder s))
        && (bool_decide (is_Some (s_padding_profile s)) || bool_decide (is_Some (s_padding_padder s)))
     then (Err (Protocol "Phantom One cannot be combined with the legacy TCP padding profile"), s)
     else
       let! framed, s := frame_payload payload s in
       let! encrypted, s := on_cipher framed s in
       let! len, s := (ok_or (try_from u32_max (zlen encrypted))
                         (Protocol "encrypted frame length overflows u32"), s) in
       let! _ok, s := on_stream (be_bytes 4 len) s in
       let! _ok, s := on_stream encrypted s in
       on_stream [] s (* flush *)) in
  (res, drop_padding s).

(** [SecureTcpSender::send_frame] *)
Definition send_frame (payload : bytes) (s : SecureTcpSender) : result unit * SecureTcpSender :=
  write_encrypted_tcp_frame payload s.
End Sender.

Arguments SecureTcpSender R : clear implicits.

(** ** Receiving *)

Record TcpFrameReader := mkTcpFrameReader { wire : bytes; expected_wire_len : option Z }.
Definition TcpFrameReader_default : TcpFrameReader := mkTcpFrameReader [] None.

(** The first [if] of the receive loop: read the length prefix. *)
Definition parse_length (rd : TcpFrameReader) : result unit * TcpFrameReader :=
  if negb (bool_decide (is_Some (expected_wire_len rd))) && (4 <=? zlen (wire rd)) then
    let! b0, rd := (index (wire rd) 0, rd) in
    let! b1, rd := (index (wire rd) 1, rd) in
    let! b2, rd := (index (wire rd) 2, rd) in
    let! b3, rd := (index (wire rd) 3, rd) in
    let len := be_val [b0; b1; b2; b3] in
    if (len =? 0) || (MAX_FRAME_BYTES <? len)
    then (Err (Protocol "encrypted frame length invalid"), mkTcpFrameReader [] None)
    else (Ok (), mkTcpFrameReader (wire rd) (Some (4 + len)))
  else (Ok (), rd).

Definition needed (rd : TcpFrameReader) : Z :=
  match expected_wire_len rd with
  | Some expected => saturating_sub expected (zlen (wire rd))
  | None => saturating_sub 4 (zlen (wire rd))
  end.

(** The receive loop up to a complete frame, by recursion on the schedule of
    read events.  [None]: the call is still blocked in [read] when the schedule
    ends. *)
Fixpoint recv_wire (events : list ReadEvent) (inflight : bytes) (rd : TcpFrameReader)
  : option (result bytes) * (RxStream * TcpFrameReader) :=
  match parse_length rd with
  | (Err e, rd) => (Some (Err e), (mkRxStream inflight events, rd))
  | (Panic, rd) => (Some Panic, (mkRxStream inflight events, rd))
  | (Ok _, rd) =>
      let blocked_read :=
        match events with
        | [] => (None, (mkRxStream inflight [], rd))
        | Interrupted :: events => recv_wire events inflight rd
        | Failed kind :: events =>
            (Some (Err (map_io_error kind)), (mkRxStream inflight events, rd))
        | Deliver k :: events =>
            let read_len := Z.min (needed rd) 8192 in
            let chunk := ztake (Z.min k read_len) inflight in
            if zlen chunk =? 0
            then (Some (Err ConnectionClosed), (mkRxStream inflight events, rd))
            else recv_wire events (zdrop (zlen chunk) inflight)
                   (mkTcpFrameReader (wire rd ++ chunk) (expected_wire_len rd))
        end in
      match expected_wire_len rd with
      | Some expected =>
          if expected <=? zlen (wire rd)
          then (Some (slice (wire rd) 4 expected),
                (mkRxStream inflight events, TcpFrameReader_default))
          else blocked_read
      | None => blocked_read
      end
  end.

Section Receiver.
Context `{AeadOps}.

(** Decryption of a complete frame and removal of its padding profile. *)
Definition open_frame (encrypted : bytes) (padding_profile : option ProfileTier)
    (cipher : ReceiveCipher) : result bytes * ReceiveCipher :=
  let! framed, cipher := decrypt encrypted cipher in
  match padding_profile with
  | Some profile =>
      let '(res, framed) := remove_profile_in_place profile framed in
      (rbind res (fun _ => Ok framed), cipher)
  | None => (Ok framed, cipher)
  end.

(** [TcpFrameReader::recv_frame] *)
Definition reader_recv_frame (stream : RxStream) (cipher : ReceiveCipher)
    (padding_profile : option ProfileTier) (rd : TcpFrameReader)
  : option (result bytes) * (RxStream * ReceiveCipher * TcpFrameReader) :=
  match recv_wire (rx_events stream) (rx stream) rd with
  | (Some (Ok encrypted), (stream, rd)) =>
      let '(res, cipher) := open_frame encrypted padding_profile cipher in
      (Some res, (stream, cipher, rd))
  | (res, (stream, rd)) => (res, (stream, cipher, rd))
  end.

Record SecureTcpReceiver := mkSecureTcpReceiver {
  r_stream : RxStream;
  r_cipher : ReceiveCipher;
  r_padding_profile : option ProfileTier;
  r_phantom_one_decoder : option PhantomOneDecoder;
  r_frame_reader : TcpFrameReader
}.

(** Removal of the Phantom One envelope, when there is one. *)
Definition unwrap_phantom (framed : bytes) (decoder : option PhantomOneDecoder)
  : result bytes * option PhantomOneDecoder :=
  match decoder with
  | Some decoder =>
      let '(res, decoder) := decode_in_place framed PHANTOM_ONE_TCP_PATH_MTU decoder in
      (res, Some decoder)
  | None => (Ok framed, None)
  end.

(** [read_encrypted_tcp_frame], and [SecureTcpReceiver::recv_frame]. *)
Definition read_encrypted_tcp_frame (r : SecureTcpReceiver)
  : option (result bytes) * SecureTcpReceiver :=
  if bool_decide (is_Some (r_phantom_one_decoder r)) && bool_decide (is_Some (r_padding_profile r))
  then (Some (Err (Protocol "Phantom One cannot be combined with the legacy TCP padding profile")), r)
  else
    match reader_recv_frame (r_stream r) (r_cipher r) (r_padding_profile r) (r_frame_reader r) with
    | (Some (Ok framed), (stream, cipher, rd)) =>
        let '(res, decoder) := unwrap_phantom framed (r_phantom_one_decoder r) in
        (Some res, mkSecureTcpReceiver stream cipher (r_padding_profile r) decoder rd)
    | (res, (stream, cipher, rd)) =>
        (res, mkSecureTcpReceiver stream cipher (r_padding_profile r) (r_phantom_one_decoder r) rd)
    end.

Definition recv_frame (r : SecureTcpReceiver) : option (result bytes) * SecureTcpReceiver :=
  read_encrypted_tcp_frame r.

(** A sequence of receive calls, up to one that is still blocked. *)
Fixpoint recv_calls (n : nat) (r : SecureTcpReceiver) : list (result bytes) * SecureTcpReceiver :=
  match n with
  | O => ([], r)
  | S n' =>
      match recv_frame r with
      | (Some res, r) => let '(rs, r) := recv_calls n' r in (res :: rs, r)
      | (None, r) => ([], r)
      end
  end.
End Receiver.

(** ** Sessions *)

Section Sessions.
Context {R : Type} `{RngOps R, AeadOps}.

(** [SecureTcpSession::new] and [into_split]: the two halves of a session. *)
Definition tcp_session (tx_stream : TxStream) (rx_stream : RxStream) (send_key recv_key : bytes)
    (os : R) : SecureTcpSender R * SecureTcpReceiver :=
  (mkSecureTcpSender tx_stream (SendCipher_new send_key) None None [] None os,
   mkSecureTcpReceiver rx_stream (ReceiveCipher_new recv_key) None None TcpFrameReader_default).

(** [with_padding_profile]; the padder's generator is [seeded]. *)
Definition with_padding_profile (profile : ProfileTier) (seeded : R)
    (p : SecureTcpSender R * SecureTcpReceiver) : SecureTcpSender R * SecureTcpReceiver :=
  let '(s, r) := p in
  (mkSecureTcpSender (s_stream s) (s_cipher s) (Some profile) (Some (mkProfilePadder profile seeded))
     [] (s_phantom_one_encoder s) (os_rng s),
   mkSecureTcpReceiver (r_stream r) (r_cipher r) (Some profile) (r_phantom_one_decoder r)
     (r_frame_reader r)).

(** [with_phantom_one_generation_and_profile] on a TCP session. *)
Definition with_phantom_one (generation : Z) (profile : ProfileTier) (seeded : R)
    (p : SecureTcpSender R * SecureTcpReceiver) : result (SecureTcpSender R * SecureTcpReceiver) :=
  let '(s, r) := p in
  let encoder := from_validated_config generation seeded (for_profile profile) in
  let? decoder := with_config_and_window generation (for_profile profile)
                    PHANTOM_ONE_DEFAULT_REPLAY_WINDOW in
  Ok (mkSecureTcpSender (s_stream s) (s_cipher s) None None [] (Some encoder) (os_rng s),
      mkSecureTcpReceiver (r_stream r) (r_cipher r) None (Some decoder) (r_frame_reader r)).
End Sessions.

(** ** Lemmas: the incremental reader *)

(** A frame on the wire. *)
Definition wire_frame (encrypted : bytes) : bytes := be_bytes 4 (zlen encrypted) ++ encrypted.

Definition frame_len_ok (encrypted : bytes) : Prop := 0 < zlen encrypted <= MAX_FRAME_BYTES.

Definition event_ok (e : ReadEvent) : Prop := match e with Deliver k => 1 <= k | _ => True end.

Definition delivers (evs : list ReadEvent) : Z :=
  zlen (List.filter (fun e => match e with Deliver _ => true | _ => false end) evs).

Definition failures (evs : list ReadEvent) : list ShphError :=
  flat_map (fun e => match e with Failed k => [map_io_error k] | _ => [] end) evs.

Lemma zlen_wire_frame e : zlen (wire_frame e) = 4 + zlen e.
Proof. unfold wire_frame. zl. Qed.

(** The reader holds a prefix of the frame and, once four bytes are there, may
    have noted its length. *)
Definition reader_at (rd : TcpFrameReader) (encrypted : bytes) : Prop :=
  zlen (wire rd) <= 4 + zlen encrypted /\
  (expected_wire_len rd = None \/
   4 <= zlen (wire rd) /\ expected_wire_len rd = Some (4 + zlen encrypted)).

Lemma list_4 {A} (l : list A) : 4 <= zlen l -> exists a b c d r, l = [a; b; c; d] ++ r.
Proof.
  intros H. do 4 (destruct l as [|? l]; [unfold zlen in H; simpl in H; lia|]). eauto 6.
Qed.

(** Reading the length prefix of a well-formed frame notes its length. *)
Lemma parse_length_ok rd encrypted inflight rest :
  frame_len_ok encrypted -> reader_at rd encrypted ->
  wire rd ++ inflight = wire_frame encrypted ++ rest ->
  exists rd', parse_length rd = (Ok (), rd') /\ wire rd' = wire rd /\ reader_at rd' encrypted /\
    expected_wire_len rd' = (if 4 <=? zlen (wire rd) then Some (4 + zlen encrypted) else None).
Proof.
  intros Hf [Hl He] Hw. unfold parse_length. destruct rd as [w ex].
  cbn [wire expected_wire_len] in *.
  destruct He as [->|[H4 ->]].
  2: { rewrite bool_decide_eq_true_2 by eauto. cbn [negb andb]; cbv iota. eexists. split; [done|].
       cbn. rewrite (proj2 (Z.leb_le _ _)) by lia. split; [done|split; [|done]].
       split; [done|by right]. }
  rewrite bool_decide_eq_false_2 by (by intros []). cbn [negb andb].
  destruct (Z.leb_spec 4 (zlen w)) as [H4|H4].
  2: { eexists. split; [done|]. cbn. split; [done|split; [|done]]. split; [done|by left]. }
  destruct (list_4 w H4) as (a & b & c & d & r & ->). idx.
  unfold frame_len_ok, MAX_FRAME_BYTES in *.
  assert (be_val [a; b; c; d] = zlen encrypted) as ->.
  { unfold wire_frame in Hw. rewrite <- !app_assoc in Hw.
    apply app_inj_1 in Hw as [-> _]; [|by rewrite length_be_bytes].
    apply be_val_be_bytes. simpl. lia. }
  rewrite (proj2 (Z.eqb_neq _ _)), (proj2 (Z.ltb_ge _ _)) by lia. cbn [orb].
  eexists. split; [done|]. cbn. split; [done|split; [|done]]. split; [done|by right].
Qed.

(** One receive loop over a frame that is partly buffered and partly in
    flight: it returns exactly that frame, or fails with a scheduled error or
    blocks, having lost nothing. *)
Definition recv_outcome (evs : list ReadEvent) (rd : TcpFrameReader) (encrypted rest : bytes)
    (out : option (result bytes) * (RxStream * TcpFrameReader)) : Prop :=
  let missing := 4 + zlen encrypted - zlen (wire rd) in
  match out with
  | (Some (Ok e), (st, rd')) =>
      e = encrypted /\ rd' = TcpFrameReader_default /\ rx st = rest /\
      delivers evs <= delivers (rx_events st) + missing /\
      (forall x, x ∈ failures (rx_events st) -> x ∈ failures evs)
  | (Some (Err e), (st, rd')) =>
      reader_at rd' encrypted /\ wire rd' ++ rx st = wire_frame encrypted ++ rest /\
      e ∈ failures evs /\ (forall x, x ∈ failures (rx_events st) -> x ∈ failures evs)
  | (None, (st, rd')) =>
      reader_at rd' encrypted /\ wire rd' ++ rx st = wire_frame encrypted ++ rest /\
      rx_events st = [] /\ delivers evs < missing
  | (Some Panic, _) => False
  end.

Lemma chunk_split {A} n (l : list A) : ztake n l ++ zdrop (zlen (ztake n l)) l = l.
Proof.
  unfold ztake, zdrop, zlen. rewrite Nat2Z.id, length_take.
  destruct (decide (Z.to_nat n <= length l)%nat).
  - rewrite Nat.min_l by lia. apply take_drop.
  - rewrite Nat.min_r, take_ge, drop_all, app_nil_r by lia. done.
Qed.

Lemma wire_split rd encrypted inflight rest :
  reader_at rd encrypted -> wire rd ++ inflight = wire_frame encrypted ++ rest ->
  zlen (wire rd) = 4 + zlen encrypted -> wire rd = wire_frame encrypted /\ inflight = rest.
Proof.
  intros _ Hw Hl. apply app_inj_1; [|done].
  pose proof (zlen_wire_frame encrypted). unfold zlen in *. lia.
Qed.

Lemma recv_wire_full encrypted rest evs inflight rd :
  frame_len_ok encrypted -> reader_at rd encrypted ->
  wire rd ++ inflight = wire_frame encrypted ++ rest ->
  zlen (wire rd) = 4 + zlen encrypted ->
  recv_wire evs inflight rd = (Some (Ok encrypted), (mkRxStream rest evs, TcpFrameReader_default)).
Proof.
  intros Hf Hrd Hw Hl.
  destruct (parse_length_ok rd encrypted inflight rest Hf Hrd Hw) as (rd' & Hp & Hwire & _ & Hexp).
  destruct (wire_split _ _ _ _ Hrd Hw Hl) as [Hwf ->]. pose proof (zlen_nonneg encrypted).
  assert (slice (wire_frame encrypted) 4 (4 + zlen encrypted) = Ok encrypted) as Hs.
  { rewrite slice_ok by (rewrite ?zlen_wire_frame; lia). unfold wire_frame.
    rewrite zdrop_app, ztake_all by zl. done. }
  destruct evs; cbn [recv_wire]; rewrite Hp, Hexp, (proj2 (Z.leb_le 4 _)), Hwire, Hl, Z.leb_refl by lia;
    by rewrite Hwf, Hs.
Qed.

(** What a call does next when the frame is incomplete. *)
Lemma recv_wire_part encrypted rest evs inflight rd :
  frame_len_ok encrypted -> reader_at rd encrypted ->
  wire rd ++ inflight = wire_frame encrypted ++ rest ->
  zlen (wire rd) < 4 + zlen encrypted ->
  exists rd', wire rd' = wire rd /\ reader_at rd' encrypted /\
    recv_wire evs inflight rd =
    match evs with
    | [] => (None, (mkRxStream inflight [], rd'))
    | Interrupted :: evs => recv_wire evs inflight rd'
    | Failed kind :: evs => (Some (Err (map_io_error kind)), (mkRxStream inflight evs, rd'))
    | Deliver k :: evs =>
        let chunk := ztake (Z.min k (Z.min (needed rd') 8192)) inflight in
        if zlen chunk =? 0
        then (Some (Err ConnectionClosed), (mkRxStream inflight evs, rd'))
        else recv_wire evs (zdrop (zlen chunk) inflight)
               (mkTcpFrameReader (wire rd' ++ chunk) (expected_wire_len rd'))
    end /\
    0 < needed rd' <= 4 + zlen encrypted - zlen (wire rd).
Proof.
  intros Hf Hrd Hw Hl.
  destruct (parse_length_ok rd encrypted inflight rest Hf Hrd Hw) as (rd' & Hp & Hwire & Hrd' & Hexp).
  exists rd'. split; [done|split; [done|]]. pose proof (zlen_nonneg encrypted). split.
  - destruct evs as [|ev evs]; cbn [recv_wire]; rewrite Hp; [|destruct ev];
      rewrite Hexp; destruct (4 <=? zlen (wire rd)); rewrite ?Hwire;
      rewrite ?(proj2 (Z.leb_gt (4 + zlen encrypted) _)) by lia; done.
  - unfold needed, saturating_sub. rewrite Hexp, Hwire.
    destruct (Z.leb_spec 4 (zlen (wire rd))); lia.
Qed.

Lemma delivers_cons ev evs :
  delivers (ev :: evs) = (match ev with Deliver _ => 1 | _ => 0 end) + delivers evs.
Proof. unfold delivers. destruct ev; cbn [List.filter]; rewrite ?zlen_cons; lia. Qed.

Lemma delivers_nonneg evs : 0 <= delivers evs.
Proof. apply zlen_nonneg. Qed.

Lemma recv_wire_spec encrypted rest evs inflight rd :
  frame_len_ok encrypted -> Forall event_ok evs -> reader_at rd encrypted ->
  wire rd ++ inflight = wire_frame encrypted ++ rest ->
  recv_outcome evs rd encrypted rest (recv_wire evs inflight rd).
Proof.
  intros Hf Hevs. revert inflight rd.
  induction Hevs as [|ev evs Hev Hevs IH]; intros inflight rd Hrd Hw;
    (destruct (decide (zlen (wire rd) = 4 + zlen encrypted)) as [Hfull|Hpart];
      [rewrite (recv_wire_full encrypted rest) by done; unfold recv_outcome; cbn [rx rx_events];
        repeat split; auto; lia|]);
    (assert (zlen (wire rd) < 4 + zlen encrypted) as Hlt by (destruct Hrd; lia)).
  - destruct (recv_wire_part encrypted rest [] inflight rd Hf Hrd Hw Hlt)
      as (rd' & Hw' & Hrd' & -> & Hn).
    unfold recv_outcome. cbn [rx rx_events]. rewrite Hw'.
    change (delivers []) with 0. split_and!; auto; lia.
  - destruct (recv_wire_part encrypted rest (ev :: evs) inflight rd Hf Hrd Hw Hlt)
      as (rd' & Hw' & Hrd' & -> & Hn).
    destruct ev as [k| |kind]; cbv zeta; unfold recv_outcome; rewrite ?delivers_cons.
    + assert (4 + zlen encrypted - zlen (wire rd) <= zlen inflight) as Hin.
      { apply (f_equal zlen) in Hw. rewrite !zlen_app, zlen_wire_frame in Hw.
        pose proof (zlen_nonneg rest). lia. }
      set (n := Z.min k _). assert (1 <= n <= needed rd') as Hnk by (simpl in Hev; unfold n; lia).
      assert (zlen (ztake n inflight) = n) as Hz by zl.
      rewrite Hz, (proj2 (Z.eqb_neq n 0)) by lia.
      specialize (IH (zdrop n inflight)
        (mkTcpFrameReader (wire rd' ++ ztake n inflight) (expected_wire_len rd'))).
      cbn [wire expected_wire_len] in IH. pose proof (chunk_split n inflight) as Hc. rewrite Hz in Hc.
      rewrite <- app_assoc, Hc, Hw' in IH.
      assert (reader_at (mkTcpFrameReader (wire rd ++ ztake n inflight) (expected_wire_len rd')) encrypted) as HR.
      { unfold reader_at in *. cbn. rewrite Hw' in Hrd'. rewrite zlen_app, Hz.
        split; [lia|]. destruct Hrd' as [_ [He|[? He]]]; [by left|right]. split; [lia|done]. }
      specialize (IH HR Hw). unfold recv_outcome in IH. cbn [wire] in IH.
      rewrite zlen_app, Hz in IH. rewrite Hw'.
      destruct (recv_wire evs _ _) as [[[e|err|]|] [st rd2]]; cbn [failures flat_map app]; intuition lia.
    + specialize (IH inflight rd' Hrd' ltac:(by rewrite Hw')). unfold recv_outcome in IH. rewrite Hw' in IH.
      destruct (recv_wire evs _ _) as [[[e|err|]|] [st rd2]]; cbn [failures flat_map app]; intuition lia.
    + rewrite Hw'. split; [done|]. split; [done|]. split; [left|]. intros x Hx. by right.
Qed.

(** At the end of the stream a call reports it, or fails as scheduled. *)
Lemma recv_wire_end evs :
  Forall event_ok evs ->
  exists out st, recv_wire evs [] TcpFrameReader_default = (out, (st, TcpFrameReader_default)) /\
    rx st = [] /\ (forall x, x ∈ failures (rx_events st) -> x ∈ failures evs) /\
    match out with
    | Some (Err e) => e = ConnectionClosed \/ e ∈ failures evs
    | None => rx_events st = []
    | _ => False
    end.
Proof.
  induction 1 as [|ev evs Hev Hevs IH]; [by eexists _, _|].
  destruct ev as [k| |kind]; cbn [recv_wire].
  - change (parse_length TcpFrameReader_default) with (Ok (), TcpFrameReader_default).
    cbv iota beta zeta. change (expected_wire_len TcpFrameReader_default) with (@None Z).
    cbv iota beta. unfold ztake. rewrite take_nil. eexists _, _. split; [done|]. cbn. auto.
  - exact IH.
  - eexists _, _. split; [reflexivity|]. cbn. split; [done|]. split; [intros x Hx; by right|].
    right. by left.
Qed.

(** ** Lemmas: one message through the layers *)

Section Layers.
Context {R : Type} `{RngLaws R, AeadOps, !AeadLaws}.

(** Everything a receiver does to a complete frame. *)
Definition open_all (profile : option ProfileTier) (encrypted : bytes)
    (s : ReceiveCipher * option PhantomOneDecoder)
  : result bytes * (ReceiveCipher * option PhantomOneDecoder) :=
  let '(c, d) := s in
  match open_frame encrypted profile c with
  | (Ok framed, c) => let '(res, d) := unwrap_phantom framed d in (res, (c, d))
  | (res, c) => (res, (c, d))
  end.

Definition dec_used (d : option PhantomOneDecoder) : Z :=
  match d with Some d => padding_bytes_used d | None => 0 end.

(** The receiver's layers are configured like the sender's. *)
Definition layers_linked (s : SecureTcpSender R) (profile : option ProfileTier)
    (d : option PhantomOneDecoder) : Prop :=
  s_padding_profile s = profile /\
  (forall p, s_padding_padder s = Some p -> s_padding_profile s = Some (padder_profile p)) /\
  match s_phantom_one_encoder s, d with
  | Some e, Some d => s_padding_profile s = None /\ s_padding_padder s = None /\ in_step e d
  | None, None => True
  | _, _ => False
  end.

(** The receiver's cipher has seen only counters below the sender's. *)
Definition ciphers_linked (sc : SendCipher) (rc : ReceiveCipher) : Prop :=
  zlen (sc_key sc) = 32 /\ 0 <= sc_nonce sc <= AEAD_NONCE_LIMIT /\
  exists last, rc = mkReceiveCipher (sc_key sc) (Strict last) /\
    forall l, last = Some l -> l < sc_nonce sc.

Definition linked (s : SecureTcpSender R) (profile : option ProfileTier)
    (r : ReceiveCipher * option PhantomOneDecoder) : Prop :=
  tx_events (s_stream s) = [] /\ ciphers_linked (s_cipher s) r.1 /\ layers_linked s profile r.2.

Lemma encrypt_linked sc rc p :
  ciphers_linked sc rc -> bytes_ok p -> zlen p <= MAX_TCP_PAYLOAD_BYTES ->
  (exists e, encrypt p sc = (Err e, sc)) \/
  (exists enc sc' rc', encrypt p sc = (Ok enc, sc') /\ decrypt enc rc = (Ok p, rc') /\
     ciphers_linked sc' rc' /\ frame_len_ok enc).
Proof.
  intros (Hk & Hn & last & -> & Hl) Hb Hp.
  destruct (encrypt_cases p sc Hk) as [?|(ct & Hlim & Hct & E)]; [by left|right].
  pose proof (aead_seal_len _ _ _ _ Hct) as Hlen. pose proof (zlen_nonneg p).
  exists (nonce12 (sc_nonce sc) ++ ct), (mkSendCipher (sc_key sc) (sc_nonce sc + 1)),
    (mkReceiveCipher (sc_key sc) (Strict (Some (sc_nonce sc)))).
  split; [done|]. split.
  { apply decrypt_strict_next; [done|unfold AEAD_NONCE_LIMIT, u64_max in *; lia|done|done]. }
  split.
  - split; [done|]. split; [cbn; lia|]. eexists. split; [done|]. cbn. intros l [= <-]. lia.
  - unfold frame_len_ok, MAX_TCP_PAYLOAD_BYTES, MAX_FRAME_BYTES, SHROUD_AEAD_OVERHEAD, AEAD_TAG_BYTES in *.
    rewrite zlen_app, zlen_nonce12. lia.
Qed.

Definition keeps (s s' : SecureTcpSender R) : Prop :=
  s_stream s' = s_stream s /\ s_cipher s' = s_cipher s.

(** What the receiver's layers do to a frame whose decryption is [framed]. *)
Definition opens (profile : option ProfileTier) (framed p : bytes) (d d' : option PhantomOneDecoder)
  : Prop :=
  forall c enc c', decrypt enc c = (Ok framed, c') ->
    open_all profile enc (c, d) = (Ok p, (c', d')).

Lemma opens_profile t framed p :
  remove_profile_in_place t framed = (Ok (), p) -> opens (Some t) framed p None None.
Proof.
  intros Hr c enc c' Hd. unfold open_all, open_frame. rewrite Hd. cbn [sbind]. by rewrite Hr.
Qed.

Lemma opens_raw p : opens None p p None None.
Proof. intros c enc c' Hd. unfold open_all, open_frame. by rewrite Hd. Qed.

Lemma opens_phantom framed p d d' :
  decode_in_place framed PHANTOM_ONE_TCP_PATH_MTU d = (Ok p, d') ->
  opens None framed p (Some d) (Some d').
Proof.
  intros Hr c enc c' Hd. unfold open_all, open_frame. rewrite Hd. cbn [sbind unwrap_phantom].
  by rewrite Hr.
Qed.

Definition framed_ok (framed : bytes) : Prop :=
  bytes_ok framed /\ zlen framed <= MAX_TCP_PAYLOAD_BYTES.

(** The padding stage: it fails, leaving the two sides linked, or produces a
    frame that the receiver's layers undo; either way the sender may go on
    whether or not the frame reaches the receiver. *)
Definition padding_outcome (s : SecureTcpSender R) profile d p
    (out : result bytes * SecureTcpSender R) : Prop :=
  keeps s out.2 /\ layers_linked out.2 profile d /\
  ((exists e, out.1 = Err e) \/
   (exists framed d', out.1 = Ok framed /\ framed_ok framed /\ layers_linked out.2 profile d' /\
      dec_used d <= dec_used d' <= dec_used d + PHANTOM_ONE_MAX_PADDING_BYTES /\
      opens profile framed p d d')).

Lemma frame_with_profile t p framed r d :
  bytes_ok p -> zlen p <= MAX_TCP_PAYLOAD_BYTES -> d = None ->
  exists res buf r', apply_profile_into_with_rng t p framed r = (res, (buf, r')) /\
    ((exists e, rbind res (fun _ => Ok buf) = Err e) \/
     (rbind res (fun _ => Ok buf) = Ok buf /\ framed_ok buf /\ opens (Some t) buf p d d)).
Proof.
  intros Hb Hp ->.
  unfold MAX_TCP_PAYLOAD_BYTES, MAX_FRAME_BYTES, SHROUD_AEAD_OVERHEAD in *.
  destruct (apply_profile_cases t p framed r Hb) as [(e & r' & ->)|(buf & r' & -> & _ & Hfb & Hacc & Hrm)].
  - unfold usize_max, u64_max. lia.
  - eexists _, _, _. split; [done|]. left. by exists e.
  - eexists _, _, _. split; [done|]. right. split; [done|]. split; [|by apply opens_profile].
    split; [done|]. apply accepts_frame_len_bounds in Hacc. pose proof (max_canonical_bound t).
    unfold MAX_TCP_PAYLOAD_BYTES, MAX_FRAME_BYTES, SHROUD_AEAD_OVERHEAD. lia.
Qed.

Lemma frame_payload_profile s t d p :
  layers_linked s (Some t) d -> bytes_ok p -> zlen p <= MAX_TCP_PAYLOAD_BYTES ->
  padding_outcome s (Some t) d p (frame_payload p s).
Proof.
  intros (Hpr & Hpad & Hph) Hb Hp. unfold frame_payload. rewrite Hpr.
  assert (s_phantom_one_encoder s = None /\ d = None) as [He ->].
  { destruct (s_phantom_one_encoder s), d; try done. destruct Hph as [? _]. congruence. }
  destruct (s_padding_padder s) as [pd|] eqn:Epd.
  - specialize (Hpad pd eq_refl). assert (padder_profile pd = t) as Ht by congruence.
    unfold apply_into. rewrite Ht.
    destruct (frame_with_profile t p (s_padding_buffer s) (padder_rng pd) None Hb Hp eq_refl)
      as (res & buf & r' & -> & Hcase).
    split; [done|]. unfold layers_linked. cbn. rewrite He.
    split; [split; [done|split; [|done]]; by intros ? [= <-]|].
    destruct Hcase as [[e He']|(He' & Hok & Hop)]; [left; by exists e|right].
    exists buf, None. split; [done|split; [done|split; [|split; [|done]]]];
      [|cbn; unfold PHANTOM_ONE_MAX_PADDING_BYTES; lia].
    split; [done|split; [|done]]. by intros ? [= <-].
  - destruct (frame_with_profile t p (s_padding_buffer s) (os_rng s) None Hb Hp eq_refl)
      as (res & buf & r' & -> & Hcase).
    split; [done|]. unfold layers_linked. cbn. rewrite He.
    split; [done|]. destruct Hcase as [[e He']|(He' & Hok & Hop)]; [left; by exists e|right].
    exists buf, None. split; [done|split; [done|split; [done|split; [|done]]]].
    cbn. unfold PHANTOM_ONE_MAX_PADDING_BYTES. lia.
Qed.

Lemma frame_payload_phantom s e dec p :
  layers_linked s None (Some dec) -> s_phantom_one_encoder s = Some e ->
  bytes_ok p -> padding_bytes_used dec + PHANTOM_ONE_MAX_PADDING_BYTES <= u64_max ->
  padding_outcome s None (Some dec) p (frame_payload p s).
Proof.
  intros (Hpr & Hpad & Hph) He Hb Hu. unfold frame_payload. rewrite Hpr, He in *.
  destruct Hph as (_ & Hpd & Hstep). rewrite Hpd. unfold encode_into.
  destruct (session_step PHANTOM_ONE_TCP_PATH_MTU Data p e dec Hstep Hb Hu)
    as [(err & e' & -> & HS' & _)
       |(n & padding & e' & dec' & -> & _ & Hadm & Hlb & Hlen & HS' & HS2 & _ & Hused)].
  - split; [done|]. split; [|left; by exists err]. split; [done|]. done.
  - split; [done|]. split; [split; [done|]; done|]. right.
    eexists _, (Some dec'). split; [done|]. split; [by split|].
    split; [split; [done|]; done|]. split; [done|].
    apply opens_phantom. by apply (decode_admitted _ _ _ _ _ _ _ Hadm).
Qed.

Lemma frame_payload_linked s profile d p :
  layers_linked s profile d -> bytes_ok p -> zlen p <= MAX_TCP_PAYLOAD_BYTES ->
  dec_used d + PHANTOM_ONE_MAX_PADDING_BYTES <= u64_max ->
  padding_outcome s profile d p (frame_payload p s).
Proof.
  intros HL Hb Hp Hu. destruct profile as [t|]; [by apply frame_payload_profile|].
  pose proof HL as (Hpr & Hpad & Hph).
  destruct (s_phantom_one_encoder s) as [e|] eqn:He, d as [dec|]; try done.
  - by eapply frame_payload_phantom.
  - unfold frame_payload. rewrite Hpr, He. split; [done|]. split; [done|]. right.
    exists p, None. split; [done|split; [done|split; [done|split; [|by apply opens_raw]]]].
    cbn. unfold PHANTOM_ONE_MAX_PADDING_BYTES. lia.
Qed.

(** One call to [send_frame]: an error that leaves the stream as it was, or one
    frame on the stream that the receiver opens to the payload. *)
Lemma send_step s profile r p :
  linked s profile r -> bytes_ok p ->
  dec_used r.2 + PHANTOM_ONE_MAX_PADDING_BYTES <= u64_max ->
  (exists e s', send_frame p s = (Err e, s') /\ s_stream s' = s_stream s /\ linked s' profile r) \/
  (exists enc s' r', send_frame p s = (Ok (), s') /\ frame_len_ok enc /\
     tx (s_stream s') = tx (s_stream s) ++ wire_frame enc /\
     open_all profile enc r = (Ok p, r') /\ linked s' profile r' /\
     dec_used r'.2 <= dec_used r.2 + PHANTOM_ONE_MAX_PADDING_BYTES).
Proof.
  intros (Htx & Hc & HL) Hb Hu. destruct r as [rc d]. cbn [fst snd] in *.
  assert (forall s' e, s_stream s' = s_stream s -> s_cipher s' = s_cipher s ->
    layers_linked s' profile d -> exists e0 s0, (@Err unit e, drop_padding s') = (Err e0, s0) /\
      s_stream s0 = s_stream s /\ linked s0 profile (rc, d)) as Herr.
  { intros s' e E1 E2 E3. eexists _, _. split; [done|]. split; [done|].
    unfold linked. cbn. rewrite E1, E2. done. }
  unfold send_frame, write_encrypted_tcp_frame, validate_tcp_payload.
  destruct (Z.ltb_spec MAX_TCP_PAYLOAD_BYTES (zlen p)); cbn [sbind]; [left; by apply Herr|].
  case_if; [left; by apply Herr|].
  destruct (frame_payload_linked s profile d p HL Hb ltac:(lia) Hu) as ([K1 K2] & HL1 & Hcase).
  destruct (frame_payload p s) as [res s1]. cbn [fst snd] in *.
  destruct Hcase as [[e ->]|(framed & d' & -> & [Hfb Hfl] & HL2 & Hd & Hop)]; cbn [sbind];
    [left; by apply Herr|].
  unfold on_cipher. rewrite K2.
  destruct (encrypt_linked (s_cipher s) rc framed Hc Hfb Hfl)
    as [[e ->]|(enc & sc' & rc' & -> & Hdec & Hc' & Hlen)]; cbn [sbind]; [left; by apply Herr|].
  right. unfold frame_len_ok, MAX_FRAME_BYTES in Hlen. unfold try_from, u32_max.
  rewrite (proj2 (Z.leb_le (zlen enc) _)) by lia. cbn [ok_or sbind].
  unfold on_stream, write_tcp_all_or_closed. cbn [s_stream with_cipher]. rewrite K1, Htx.
  cbn [sbind s_stream with_stream tx tx_events].
  eexists enc, _, (rc', d'). split; [done|]. split; [done|]. split.
  { cbn. unfold wire_frame. by rewrite app_nil_r, app_assoc. }
  split; [by apply Hop|]. split; [|cbn; lia]. split; [done|]. split; [done|]. exact HL2.
Qed.

(** ** Lemmas: a sequence of sends *)

Lemma send_run profile ms s r :
  linked s profile r -> Forall bytes_ok ms ->
  dec_used r.2 + zlen ms * PHANTOM_ONE_MAX_PADDING_BYTES <= u64_max ->
  exists encs, Forall frame_len_ok encs /\
    tx (s_stream (run send_frame ms s).2) = tx (s_stream s) ++ concat (map wire_frame encs) /\
    (run (open_all profile) encs r).1 = map Ok (sent ms (run send_frame ms s).1).
Proof.
  intros HL Hb. revert s r HL. induction Hb as [|p ms Hp Hb IH]; intros s r HL Hu.
  { exists []. cbn. by rewrite app_nil_r. }
  rewrite zlen_cons in Hu. pose proof (zlen_nonneg ms).
  assert (0 <= PHANTOM_ONE_MAX_PADDING_BYTES) by done. rewrite run_cons. cbn [fst snd].
  destruct (send_step s profile r p HL Hp ltac:(nia))
    as [(e & s' & -> & Hst & HL')|(enc & s' & r' & -> & Hlen & Htx & Hop & HL' & Hu')]; cbn [fst snd].
  - destruct (IH s' r HL' ltac:(nia)) as (encs & F1 & F2 & F3).
    exists encs. rewrite F2, Hst. done.
  - destruct (IH s' r' HL' ltac:(nia)) as (encs & F1 & F2 & F3).
    exists (enc :: encs). split; [by constructor|]. rewrite F2, Htx, run_cons, Hop. cbn [map concat fst snd].
    rewrite F3, sent_cons. split; [by rewrite <- app_assoc|done].
Qed.
End Layers.

(** ** Lemmas: a sequence of receives *)

Section Receives.
Context `{AeadOps}.

(** A receiver with the frames [encs] still to come, which will open to the
    payloads [ps]. *)
Definition recv_at (r : SecureTcpReceiver) (encs ps : list bytes) : Prop :=
  Forall event_ok (rx_events (r_stream r)) /\ Forall frame_len_ok encs /\
  (r_phantom_one_decoder r = None \/ r_padding_profile r = None) /\
  wire (r_frame_reader r) ++ rx (r_stream r) = concat (map wire_frame encs) /\
  match encs with
  | [] => r_frame_reader r = TcpFrameReader_default
  | enc :: _ => reader_at (r_frame_reader r) enc
  end /\
  (run (open_all (r_padding_profile r)) encs (r_cipher r, r_phantom_one_decoder r)).1 = map Ok ps.

Definition missing_bytes (r : SecureTcpReceiver) : Z := zlen (rx (r_stream r)).
Definition events_left (r : SecureTcpReceiver) : list ReadEvent := rx_events (r_stream r).

Lemma reader_default_at encs :
  match encs with [] => TcpFrameReader_default = TcpFrameReader_default
                | enc :: _ => reader_at TcpFrameReader_default enc end.
Proof.
  destruct encs as [|enc encs]; [done|]. unfold reader_at. cbn.
  pose proof (zlen_nonneg enc). split; [rewrite zlen_nil; lia|by left].
Qed.

(** The suffix of a schedule. *)
Definition suffix_events (evs evs' : list ReadEvent) : Prop := exists pre, evs = pre ++ evs'.

Lemma recv_wire_suffix evs inflight rd :
  suffix_events evs (rx_events (recv_wire evs inflight rd).2.1).
Proof.
  revert inflight rd. induction evs as [|ev evs IH]; intros inflight rd; cbn [recv_wire].
  all: destruct (parse_length rd) as [[[]|e|] rd']; try (by exists []).
  all: destruct (expected_wire_len rd') as [x|]; try (destruct (x <=? zlen (wire rd'))); try (by exists []).
  all: destruct ev as [k| |kind]; cbv zeta; try (by exists [Failed kind]).
  all: try (destruct (zlen _ =? 0); [by exists [Deliver k]|]).
  all: match goal with |- suffix_events (?e :: _) (rx_events (recv_wire _ ?i ?d).2.1) =>
         destruct (IH i d) as [pre Hpre]; exists (e :: pre); cbn; by rewrite <- Hpre end.
Qed.

Lemma recv_events_suffix r : suffix_events (events_left r) (events_left (recv_frame r).2).
Proof.
  unfold recv_frame, read_encrypted_tcp_frame, reader_recv_frame, events_left. case_if; [by exists []|].
  pose proof (recv_wire_suffix (rx_events (r_stream r)) (rx (r_stream r)) (r_frame_reader r)) as Hs.
  destruct (recv_wire _ _ _) as [[[e|e|]|] [st rd]]; cbn in *; try done.
  destruct (open_frame _ _ _) as [[framed|e0|] c]; try done.
  destruct (unwrap_phantom _ _) as [res d]. done.
Qed.

(** One call of [recv_frame]. *)
Lemma recv_step r encs ps :
  recv_at r encs ps ->
  match recv_frame r with
  | (Some (Ok p), r') =>
      exists enc encs' ps', encs = enc :: encs' /\ ps = p :: ps' /\ recv_at r' encs' ps' /\
        suffix_events (events_left r) (events_left r') /\
        (forall x, x ∈ failures (events_left r') -> x ∈ failures (events_left r)) /\
        delivers (events_left r) - missing_bytes r <= delivers (events_left r') - missing_bytes r'
  | (Some (Err e), r') =>
      recv_at r' encs ps /\ (e ∈ failures (events_left r) \/ e = ConnectionClosed /\ ps = []) /\
      (forall x, x ∈ failures (events_left r') -> x ∈ failures (events_left r))
  | (Some Panic, _) => False
  | (None, r') => recv_at r' encs ps /\ (encs <> [] -> delivers (events_left r) < missing_bytes r)
  end.
Proof.
  intros (Hev & Hf & Hx & Hw & Hrd & Hrun). destruct r as [st c prof dec rd]. cbn in *.
  unfold recv_frame, read_encrypted_tcp_frame, reader_recv_frame, missing_bytes, events_left. cbn.
  rewrite (proj2 (andb_false_iff _ _)).
  2: { destruct Hx as [-> | ->]; [left|right]; by apply bool_decide_eq_false_2; intros []. }
  pose proof (recv_wire_suffix (rx_events st) (rx st) rd) as Hsuf.
  assert (forall st', suffix_events (rx_events st) (rx_events st') -> Forall event_ok (rx_events st')) as Hok'.
  { intros st' [pre Hpre]. rewrite Hpre in Hev. by apply Forall_app in Hev as [_ ?]. }
  destruct encs as [|enc encs].
  - subst rd. cbn in Hw. rewrite Hw in *. destruct ps; [|done].
    destruct (recv_wire_end (rx_events st) Hev) as (out & st' & E & Hrx & Hfs & Hout).
    rewrite E in *. cbn in Hsuf. destruct out as [[e|e|]|]; try done.
    + split; [|split; [|done]]; [unfold recv_at; cbn; rewrite Hrx; auto 10|].
      destruct Hout; auto.
    + split; [unfold recv_at; cbn; rewrite Hrx; auto 10|done].
  - apply Forall_cons in Hf as [Hfe Hf]. cbn [map concat] in Hw.
    pose proof (recv_wire_spec enc (concat (map wire_frame encs)) (rx_events st) (rx st) rd Hfe Hev Hrd Hw) as HS.
    pose proof Hrun as Hrun0.
    rewrite run_cons in Hrun. destruct ps as [|p ps]; [done|]. cbn [map] in Hrun.
    injection Hrun as Hopen Hrun.
    assert (4 + zlen enc - zlen (wire rd) + zlen (concat (map wire_frame encs)) = zlen (rx st)) as Hmiss.
    { apply (f_equal zlen) in Hw. rewrite !zlen_app, zlen_wire_frame in Hw. lia. }
    pose proof (zlen_nonneg (concat (map wire_frame encs))).
    destruct (recv_wire _ _ _) as [[[e|e|]|] [st' rd']]; unfold recv_outcome in HS; cbn [fst snd] in Hsuf.
    + destruct HS as (-> & -> & Hrx & Hdel & Hfs).
      unfold open_all in Hopen, Hrun.
      destruct (open_frame enc prof c) as [[framed|?|] c']; [|done..].
      destruct (unwrap_phantom framed dec) as [res d'] eqn:Eu. cbn [fst snd] in *. subst res.
      exists enc, encs, ps. split; [done|split; [done|]]. split; [|split; [done|split; [done|]]].
      * split; [by apply Hok'|]. split; [done|]. split.
        { destruct Hx as [Hx|Hx]; [left|by right]. cbn. rewrite Hx in Eu. by injection Eu as _ <-. }
        split; [exact Hrx|]. split; [apply reader_default_at|exact Hrun].
      * cbn. rewrite Hrx. lia.
    + destruct HS as (Hrd' & Hw' & He & Hfs). split; [|split; [by left|done]].
      split; [by apply Hok'|]. split; [by constructor|]. split; [done|]. split; [exact Hw'|].
      split; [done|exact Hrun0].
    + done.
    + destruct HS as (Hrd' & Hw' & He & Hdel). split; [|intros _; lia].
      split; [by apply Hok'|]. split; [by constructor|]. split; [done|]. split; [exact Hw'|].
      split; [done|exact Hrun0].
Qed.
End Receives.

Section Calls.
Context `{AeadOps}.

(** Any number of receive calls. *)
Lemma recv_calls_prefix n r encs ps :
  recv_at r encs ps ->
  let outs := (recv_calls n r).1 in
  (exists k, oks outs = take k ps) /\ Forall no_panic outs /\
  forall e, Err e ∈ outs -> e ∈ failures (events_left r) \/ e = ConnectionClosed /\ oks outs = ps.
Proof.
  revert r encs ps. induction n as [|n IH]; intros r encs ps HR; cbn [recv_calls].
  { split; [by exists 0%nat|]. split; [constructor|]. cbn. set_solver. }
  pose proof (recv_step r encs ps HR) as HS.
  destruct (recv_frame r) as [[[p|e|]|] r']; [..|done|].
  - destruct HS as (enc & encs' & ps' & -> & -> & HR' & _ & Hfs & _).
    destruct (IH r' encs' ps' HR') as ((k & Hk) & Hnp & He).
    destruct (recv_calls n r') as [rs r2]. cbn [fst] in *.
    rewrite oks_cons_ok. split; [exists (S k); cbn; by rewrite Hk|]. split; [by constructor|].
    intros x [Hx|Hx]%elem_of_cons; [done|]. destruct (He x Hx) as [?|[-> ->]]; auto.
  - destruct HS as (HR' & Hcause & Hfs). destruct (IH r' encs ps HR') as ((k & Hk) & Hnp & He).
    destruct (recv_calls n r') as [rs r2]. cbn [fst] in *.
    rewrite oks_cons_err. split; [by exists k|]. split; [by constructor|].
    intros x [[= ->]|Hx]%elem_of_cons; [|destruct (He x Hx) as [?|?]; auto].
    destruct Hcause as [?|[-> ->]]; [by left|right]. split; [done|]. rewrite Hk. by destruct k.
  - split; [by exists 0%nat|]. split; [constructor|]. cbn. set_solver.
Qed.

(** With enough read events and no failures every call returns a frame. *)
Lemma recv_calls_live r encs ps :
  recv_at r encs ps -> failures (events_left r) = [] ->
  missing_bytes r <= delivers (events_left r) ->
  (recv_calls (length ps) r).1 = map Ok ps.
Proof.
  revert r encs. induction ps as [|p ps IH]; intros r encs HR Hf Hd; [done|]. cbn [length recv_calls].
  assert (encs <> []) as Hne by (intros ->; destruct HR as (_ & _ & _ & _ & _ & Hrun); done).
  pose proof (recv_step r encs (p :: ps) HR) as HS.
  destruct (recv_frame r) as [[[q|e|]|] r'].
  - destruct HS as (enc & encs' & ps' & -> & [= -> ->] & HR' & _ & Hfs & Hdel).
    assert (failures (events_left r') = []) as Hf'.
    { rewrite Hf in Hfs. destruct (failures (events_left r')) as [|x l]; [done|].
      exfalso. eapply not_elem_of_nil, (Hfs x). left. }
    specialize (IH r' encs' HR' Hf' ltac:(lia)).
    destruct (recv_calls (length ps') r') as [rs r2]. cbn [fst] in *. by rewrite IH.
  - destruct HS as (_ & [He|[_ ?]] & _); [|done]. rewrite Hf in He. by apply not_elem_of_nil in He.
  - done.
  - destruct HS as [_ Hlt]. specialize (Hlt Hne). lia.
Qed.
End Calls.

(** ** Lemmas: opening a session *)

Section Open.
Context {R : Type} `{RngLaws R, AeadOps, !AeadLaws}.

(** The three ways a TCP session is configured. *)
Inductive session_mode :=
  | RawFrames
  | PaddedFrames (t : ProfileTier)
  | PhantomFrames (generation : Z) (t : ProfileTier).

Definition mode_ok (m : session_mode) : Prop :=
  match m with PhantomFrames g _ => 0 <= g <= u32_max | _ => True end.

Definition open_session (m : session_mode) (seeded : R) (p : SecureTcpSender R * SecureTcpReceiver)
  : result (SecureTcpSender R * SecureTcpReceiver) :=
  match m with
  | RawFrames => Ok p
  | PaddedFrames t => Ok (with_padding_profile t seeded p)
  | PhantomFrames g t => with_phantom_one g t seeded p
  end.

Lemma for_profile_wf t : config_wf (for_profile t).
Proof. destruct t; by_compute. Qed.

Lemma phantom_decoder_open g t :
  with_config_and_window g (for_profile t) PHANTOM_ONE_DEFAULT_REPLAY_WINDOW
  = Ok (mkPhantomOneDecoder g 64 (for_profile t) None 0 0).
Proof. by destruct t. Qed.

(** The receiving side of a freshly opened session. *)
Definition mode_profile (m : session_mode) : option ProfileTier :=
  match m with PaddedFrames t => Some t | _ => None end.
Definition mode_decoder (m : session_mode) : option PhantomOneDecoder :=
  match m with
  | PhantomFrames g t => Some (mkPhantomOneDecoder g 64 (for_profile t) None 0 0)
  | _ => None
  end.

Lemma open_session_receiver m seeded tx_stream rx_stream ks kr os s r :
  open_session m seeded (tcp_session tx_stream rx_stream ks kr os) = Ok (s, r) ->
  r = mkSecureTcpReceiver rx_stream (ReceiveCipher_new kr) (mode_profile m) (mode_decoder m)
        TcpFrameReader_default.
Proof.
  destruct m as [|t|g t]; [by intros [= _ <-]..|].
  unfold open_session, with_phantom_one, tcp_session.
  rewrite phantom_decoder_open. by intros [= _ <-].
Qed.

Lemma open_session_linked m seeded tx_stream rx_stream ks kr os s r :
  mode_ok m -> zlen ks = 32 -> tx_events tx_stream = [] ->
  open_session m seeded (tcp_session tx_stream rx_stream ks kr os) = Ok (s, r) ->
  s_stream s = tx_stream /\ linked s (mode_profile m) (ReceiveCipher_new ks, mode_decoder m).
Proof.
  intros Hm Hk Htx Hopen.
  assert (s_stream s = tx_stream /\ s_cipher s = SendCipher_new ks /\
          layers_linked s (mode_profile m) (mode_decoder m)) as (Hst & Hc & HL).
  { destruct m as [|t|g t]; unfold open_session, with_padding_profile, with_phantom_one, tcp_session in Hopen.
    - by injection Hopen as <- _.
    - injection Hopen as <- _. split; [done|split; [done|]]. split; [done|].
      split; [by intros ? [= <-]|done].
    - rewrite phantom_decoder_open in Hopen. injection Hopen as <- _.
      split; [done|split; [done|]]. split; [done|]. split; [done|]. split; [done|split; [done|]].
      unfold in_step. cbn. split; [apply for_profile_wf|]. split; [done|split; [done|split; [done|]]].
      split; [lia|]. split; [done|]. intros x [= <-]. split; [unfold u64_max; lia|done]. }
  split; [done|]. split; [by rewrite Hst|]. split; [|done]. rewrite Hc. split; [done|].
  split; [cbn; unfold AEAD_NONCE_LIMIT; lia|]. by exists None.
Qed.

(** What one side sends, seen by a receiver opened in the same mode. *)
Lemma session_recv_at m seeded rx_stream kr os s r ms evs seeded2 tx2 ks2 os2 s2 r2 ks :
  mode_ok m -> zlen ks = 32 -> Forall bytes_ok ms ->
  zlen ms * PHANTOM_ONE_MAX_PADDING_BYTES <= u64_max -> Forall event_ok evs ->
  open_session m seeded (tcp_session (mkTxStream [] []) rx_stream ks kr os) = Ok (s, r) ->
  open_session m seeded2 (tcp_session tx2
    (mkRxStream (tx (s_stream (run send_frame ms s).2)) evs) ks2 ks os2) = Ok (s2, r2) ->
  exists encs, recv_at r2 encs (sent ms (run send_frame ms s).1).
Proof.
  intros Hm Hk Hb Hn Hev Ho1 Ho2. apply open_session_receiver in Ho2.
  destruct (open_session_linked m seeded (mkTxStream [] []) rx_stream ks kr os s r Hm Hk eq_refl Ho1) as [Hst HL].
  assert (dec_used (mode_decoder m) = 0) as Hu0 by (by destruct m).
  destruct (send_run (mode_profile m) ms s (ReceiveCipher_new ks, mode_decoder m) HL Hb)
    as (encs & F1 & F2 & F3); [cbn [snd]; lia|].
  exists encs. rewrite Ho2. split; [done|]. split; [done|].
  split; [destruct m; auto|]. cbn [r_frame_reader r_stream wire rx TcpFrameReader_default app].
  split; [by rewrite F2, Hst|]. split; [apply reader_default_at|done].
Qed.
End Open.

(** ** Properties *)

(** C5: end-to-end TCP delivery under any segmentation.  Two sessions are opened
    in the same mode (raw, padded with a tier, or Phantom One) on mirrored keys;
    one side is asked to send any payloads; the other makes any number of
    receive calls under any schedule of short reads, interruptions, timeouts
    and other read errors.  What it returns is a prefix of the payloads whose
    send succeeded, in order and unchanged; every error it reports is a read
    error of the schedule, or the end of the stream once everything was
    returned: a timeout in the middle of a frame loses nothing, and there is no
    panic, no decryption failure and no misalignment. *)
Theorem tcp_session_delivers {R} `{RngLaws R, AeadOps, !AeadLaws}
    m (seeded : R) rx_stream kr (os : R) s r ms evs (seeded2 : R) tx2 ks2 (os2 : R) s2 r2 ks n :
  mode_ok m -> zlen ks = 32 -> Forall bytes_ok ms ->
  zlen ms * PHANTOM_ONE_MAX_PADDING_BYTES <= u64_max -> Forall event_ok evs ->
  open_session m seeded (tcp_session (mkTxStream [] []) rx_stream ks kr os) = Ok (s, r) ->
  open_session m seeded2 (tcp_session tx2
    (mkRxStream (tx (s_stream (run send_frame ms s).2)) evs) ks2 ks os2) = Ok (s2, r2) ->
  let ps := sent ms (run send_frame ms s).1 in
  let outs := (recv_calls n r2).1 in
  (exists k, oks outs = take k ps) /\ Forall no_panic outs /\
  forall e, Err e ∈ outs -> e ∈ failures evs \/ e = ConnectionClosed /\ oks outs = ps.
Proof.
  intros Hm Hk Hb Hn Hev Ho1 Ho2.
  destruct (session_recv_at _ _ _ _ _ _ _ _ _ _ _ _ _ _ _ _ Hm Hk Hb Hn Hev Ho1 Ho2) as [encs HR].
  pose proof (recv_calls_prefix n r2 encs _ HR) as HP.
  replace (events_left r2) with evs in HP by (by apply open_session_receiver in Ho2 as ->).
  exact HP.
Qed.

(** TCP delivery is live.  If the read schedule has no errors and at least
    as many read events as there are bytes on the wire (every read delivers at
    least one byte), then one receive call per sent payload returns all of
    them. *)
Theorem tcp_session_live {R} `{RngLaws R, AeadOps, !AeadLaws}
    m (seeded : R) rx_stream kr (os : R) s r ms evs (seeded2 : R) tx2 ks2 (os2 : R) s2 r2 ks :
  mode_ok m -> zlen ks = 32 -> Forall bytes_ok ms ->
  zlen ms * PHANTOM_ONE_MAX_PADDING_BYTES <= u64_max -> Forall event_ok evs ->
  failures evs = [] -> zlen (tx (s_stream (run send_frame ms s).2)) <= delivers evs ->
  open_session m seeded (tcp_session (mkTxStream [] []) rx_stream ks kr os) = Ok (s, r) ->
  open_session m seeded2 (tcp_session tx2
    (mkRxStream (tx (s_stream (run send_frame ms s).2)) evs) ks2 ks os2) = Ok (s2, r2) ->
  let ps := sent ms (run send_frame ms s).1 in
  (recv_calls (length ps) r2).1 = map Ok ps.
Proof.
  intros Hm Hk Hb Hn Hev Hf Hd Ho1 Ho2.
  destruct (session_recv_at _ _ _ _ _ _ _ _ _ _ _ _ _ _ _ _ Hm Hk Hb Hn Hev Ho1 Ho2) as [encs HR].
  apply (recv_calls_live _ encs); [done|..]; apply open_session_receiver in Ho2;
    unfold events_left, missing_bytes; by rewrite Ho2.
Qed.

(** ** Witnesses *)

Module Witnesses.
Import Toy.

Definition key : bytes := zreplicate 32 5.
Definition opened (m : session_mode) (stream : RxStream) : result (SecureTcpSender Z * SecureTcpReceiver) :=
  open_session m 3 (tcp_session (mkTxStream [] []) stream key key 7).
Definition payloads : list bytes := [[1; 2; 3]; []; [9]].

(** What the first side put on the wire. *)
Definition wire_of (m : session_mode) : bytes :=
  match opened m (mkRxStream [] []) with
  | Ok (s, _) => tx (s_stream (run send_frame payloads s).2)
  | _ => []
  end.

Definition bumpy : list ReadEvent :=
  [Deliver 3; Failed IoTimedOut; Interrupted; Deliver 40; Failed (IoOther "reset");
   Deliver 100; Deliver 2000; Deliver 2000; Deliver 2000].

Definition smooth : list ReadEvent := replicate 700 (Deliver 3).

Definition phantom : session_mode := PhantomFrames 4 Low.
Definition outcome {A} (d : A) (x : result A) : A := match x with Ok a => a | _ => d end.
Definition spare : SecureTcpSender Z * SecureTcpReceiver :=
  tcp_session (mkTxStream [] []) (mkRxStream [] []) key key 7.
Definition sender_of (m : session_mode) : SecureTcpSender Z :=
  (outcome spare (opened m (mkRxStream [] []))).1.
Definition receiver_of (m : session_mode) (evs : list ReadEvent) : SecureTcpReceiver :=
  (outcome spare (opened m (mkRxStream (wire_of m) evs))).2.

Lemma tcp_session_delivers_witness :
  (recv_calls 7 (receiver_of phantom bumpy)).1
  = [Err Timeout; Err (Io "reset"); Ok [1; 2; 3]; Ok []] /\
  Forall no_panic (recv_calls 7 (receiver_of phantom bumpy)).1.
Proof.
  split; [vm_compute; reflexivity|].
  apply (tcp_session_delivers phantom 3 (mkRxStream [] []) key 7 (sender_of phantom)
    (outcome spare (opened phantom (mkRxStream [] []))).2 payloads bumpy
    3 (mkTxStream [] []) key 7 (outcome spare (opened phantom (mkRxStream (wire_of phantom) bumpy))).1
    (receiver_of phantom bumpy) key 7).
  - split; vm_compute; discriminate.
  - vm_compute; reflexivity.
  - by_compute.
  - vm_compute; discriminate.
  - repeat constructor; vm_compute; discriminate.
  - vm_compute; reflexivity.
  - vm_compute; reflexivity.
Defined.

Lemma tcp_session_live_witness :
  let ps := sent payloads (run send_frame payloads (sender_of phantom)).1 in
  ps = payloads /\ (recv_calls (length ps) (receiver_of phantom smooth)).1 = map Ok ps.
Proof.
  split; [vm_compute; reflexivity|].
  apply (tcp_session_live phantom 3 (mkRxStream [] []) key 7 (sender_of phantom)
    (outcome spare (opened phantom (mkRxStream [] []))).2 payloads smooth
    3 (mkTxStream [] []) key 7 (outcome spare (opened phantom (mkRxStream (wire_of phantom) smooth))).1
    (receiver_of phantom smooth) key).
  - split; vm_compute; discriminate.
  - vm_compute; reflexivity.
  - by_compute.
  - vm_compute; discriminate.
  - apply Forall_replicate. vm_compute; discriminate.
  - vm_compute; reflexivity.
  - vm_compute; discriminate.
  - vm_compute; reflexivity.
  - vm_compute; reflexivity.
Defined.
End Witnesses.
