(* ===== verification/FrameLink.v ===== *)
(** The interface of an established session that moves whole frames
    ([SecureSession::send_frame] and [recv_frame], shph-transport/src/lib.rs) and
    its implementation by the encrypted TCP framing.  Layers above are proved
    against the interface. *)
From S2P Require Import Prelude Error Text Primitives Replay Obfuscation SessionCrypto PhantomOne TcpTransport.

(** ** The interface *)

Class FrameTx (S : Type) := link_send : bytes -> S -> result unit * S.

(** [None]: the call is still blocked. *)
Class FrameRx (T : Type) := link_recv : T -> option (result bytes) * T.

(** [tx_state ps s]: the sending half [s] has accepted exactly the frames [ps]. *)
Class FrameTxLaws (S : Type) `{FrameTx S} := {
  tx_state : list bytes -> S -> Prop;
  tx_send ps s p : tx_state ps s -> bytes_ok p ->
    match link_send p s with
    | (Ok _, s') => tx_state (ps ++ [p]) s'
    | (Err _, s') => tx_state ps s'
    | (Panic, _) => False
    end
}.

(** [rx_state ps t]: the receiving half [t] has exactly the frames [ps] still to
    deliver.  [rx_error t e]: the medium may still fail with [e].  [rx_ready t]:
    the medium will not fail before everything is delivered. *)
Class FrameRxLaws (T : Type) `{FrameRx T} := {
  rx_state : list bytes -> T -> Prop;
  rx_error : T -> ShphError -> Prop;
  rx_ready : T -> Prop;
  rx_recv ps t : rx_state ps t ->
    match link_recv t with
    | (Some (Ok p), t') => exists ps', ps = p :: ps' /\ rx_state ps' t' /\ (forall e, rx_error t' e -> rx_error t e)
    | (Some (Err e), t') => rx_state ps t' /\ rx_error t e /\ (forall e, rx_error t' e -> rx_error t e)
    | (Some Panic, _) => False
    | (None, t') => rx_state ps t' /\ (forall e, rx_error t' e -> rx_error t e)
    end;
  rx_live p ps t : rx_state (p :: ps) t -> rx_ready t ->
    exists t', link_recv t = (Some (Ok p), t') /\ rx_state ps t' /\ rx_ready t'
}.

(** ** Raw encrypted TCP sessions implement it *)

Section Tcp.
Context {R : Type} `{RngOps R, AeadOps}.

(** [SecureSession::send_frame] and [recv_frame] on a TCP session. *)
Definition session_send_frame (payload : bytes) (s : SecureTcpSender R) : result unit * SecureTcpSender R :=
  send_frame payload s.
Definition session_recv_frame (r : SecureTcpReceiver) : option (result bytes) * SecureTcpReceiver := recv_frame r.

#[export] Instance tcp_frame_tx : FrameTx (SecureTcpSender R) := session_send_frame.
#[export] Instance tcp_frame_rx : FrameRx SecureTcpReceiver := session_recv_frame.
End Tcp.

Section TcpLaws.
Context {R : Type} `{RngLaws R, AeadOps, !AeadLaws}.

(** The sender wrote the frames [encs], which a receiver that starts with the
    layers [start] opens to [ps]. *)
Definition tcp_tx_state (start : ReceiveCipher * option PhantomOneDecoder) (ps : list bytes)
    (s : SecureTcpSender R) : Prop :=
  exists encs, Forall frame_len_ok encs /\ tx (s_stream s) = concat (map wire_frame encs) /\
    (run (open_all None) encs start).1 = map Ok ps /\
    linked s None (run (open_all None) encs start).2 /\ s_phantom_one_encoder s = None.

Lemma raw_decoder (s : SecureTcpSender R) rc d : linked s None (rc, d) -> s_phantom_one_encoder s = None -> d = None.
Proof. intros (_ & _ & _ & _ & Hl) E. cbn [snd] in Hl. rewrite E in Hl. by destruct d. Qed.

Lemma drop_padding_encoder (m : result unit * SecureTcpSender R) :
  s_phantom_one_encoder (let '(res, s) := m in (res, drop_padding s)).2 = s_phantom_one_encoder m.2.
Proof. by destruct m. Qed.

Lemma sbind_encoder {A B} (m : result A * SecureTcpSender R) k :
  s_phantom_one_encoder m.2 = None ->
  (forall a s, s_phantom_one_encoder s = None -> s_phantom_one_encoder (k a s : result B * _).2 = None) ->
  s_phantom_one_encoder (sbind m k).2 = None.
Proof. intros Hm Hk. destruct m as [[a|e|] s]; cbn in *; auto. Qed.

(** A raw session stays raw. *)
Lemma send_frame_raw p (s : SecureTcpSender R) :
  s_phantom_one_encoder s = None -> s_padding_profile s = None ->
  s_phantom_one_encoder (send_frame p s).2 = None.
Proof.
  intros E Ep. unfold send_frame, write_encrypted_tcp_frame. rewrite drop_padding_encoder.
  apply sbind_encoder; [done|]. clear s E Ep. intros _ s E. case_if; [done|].
  apply sbind_encoder.
  { unfold frame_payload. destruct (s_padding_profile s) as [t|], (s_padding_padder s) as [q|]; cbn; rewrite ?E; try done.
    - destruct (apply_into _ _ _) as [? [? ?]]. done.
    - destruct (apply_profile_into_with_rng _ _ _ _) as [? [? ?]]. done. }
  clear s E Heqb. intros framed s E. apply sbind_encoder.
  { unfold on_cipher. destruct (encrypt _ _). done. }
  clear s E. intros enc s E. apply sbind_encoder; [done|]. clear s E. intros len s E.
  apply sbind_encoder; [unfold on_stream; destruct (write_tcp_all_or_closed _ _); done|].
  clear s E. intros _ s E. apply sbind_encoder; [unfold on_stream; destruct (write_tcp_all_or_closed _ _); done|].
  clear s E. intros _ s E. unfold on_stream. destruct (write_tcp_all_or_closed _ _). done.
Qed.

Lemma tcp_tx_send start ps s p :
  tcp_tx_state start ps s -> bytes_ok p ->
  match send_frame p s with
  | (Ok _, s') => tcp_tx_state start (ps ++ [p]) s'
  | (Err _, s') => tcp_tx_state start ps s'
  | (Panic, _) => False
  end.
Proof.
  intros (encs & Hf & Htx & Hrun & Hl & Hraw) Hp.
  pose proof Hl as (_ & _ & Hprof & _).
  pose proof (send_frame_raw p s Hraw Hprof) as Hraw'.
  destruct (run (open_all None) encs start) as [outs [rc d]] eqn:Er. cbn [fst snd] in *.
  pose proof (raw_decoder s rc d Hl Hraw) as ->.
  destruct (send_step s None (rc, None) p Hl Hp) as
    [(e & s' & E & Hst & Hl')|(enc & s' & r' & E & Hlen & Ht & Hop & Hl' & _)]; [by vm_compute|..];
    rewrite E in *; cbn [snd] in Hraw'.
  - exists encs. rewrite Hst, Er. by split_and!.
  - exists (encs ++ [enc]).
    rewrite run_app_fst, run_app_snd, Er, Ht, Htx, map_app, map_app, concat_app. cbn [fst snd map concat].
    rewrite run_cons, Hop, app_nil_r. cbn [fst snd run]. split; [apply Forall_app; by split; [|constructor]|].
    split; [done|]. rewrite Hrun. by split_and!.
Qed.

Definition tcp_tx_laws (start : ReceiveCipher * option PhantomOneDecoder) : FrameTxLaws (SecureTcpSender R) := {|
  tx_state := tcp_tx_state start;
  tx_send := tcp_tx_send start
|}.

Definition tcp_rx_state (ps : list bytes) (r : SecureTcpReceiver) : Prop := exists encs, recv_at r encs ps.

Definition tcp_rx_error (r : SecureTcpReceiver) (e : ShphError) : Prop :=
  e ∈ failures (events_left r) \/ e = ConnectionClosed.

(** The schedule has no failures and as many reads as there are bytes. *)
Definition tcp_rx_ready (r : SecureTcpReceiver) : Prop :=
  failures (events_left r) = [] /\ missing_bytes r <= delivers (events_left r).

Lemma tcp_rx_recv ps r : tcp_rx_state ps r ->
  match recv_frame r with
  | (Some (Ok p), r') => exists ps', ps = p :: ps' /\ tcp_rx_state ps' r' /\
      (forall e, tcp_rx_error r' e -> tcp_rx_error r e)
  | (Some (Err e), r') => tcp_rx_state ps r' /\ tcp_rx_error r e /\
      (forall e, tcp_rx_error r' e -> tcp_rx_error r e)
  | (Some Panic, _) => False
  | (None, r') => tcp_rx_state ps r' /\ (forall e, tcp_rx_error r' e -> tcp_rx_error r e)
  end.
Proof.
  intros [encs HR]. pose proof (recv_step r encs ps HR) as HS. pose proof (recv_events_suffix r) as Hsuf.
  assert (forall e, tcp_rx_error (recv_frame r).2 e -> tcp_rx_error r e) as Herr.
  { destruct Hsuf as [pre Hpre]. unfold tcp_rx_error, failures. rewrite Hpre, flat_map_app. set_solver. }
  destruct (recv_frame r) as [[[p|e|]|] r']; cbn [snd] in Herr.
  - destruct HS as (enc & encs' & ps' & -> & -> & HR' & _). exists ps'. split; [done|]. split; [by exists encs'|done].
  - destruct HS as (HR' & Hc & _). split; [by exists encs|]. split; [|done]. destruct Hc as [?|[-> _]]; [by left|by right].
  - done.
  - destruct HS as [HR' _]. split; [by exists encs|done].
Qed.

Lemma tcp_rx_live p ps r : tcp_rx_state (p :: ps) r -> tcp_rx_ready r ->
  exists r', recv_frame r = (Some (Ok p), r') /\ tcp_rx_state ps r' /\ tcp_rx_ready r'.
Proof.
  intros [encs HR] [Hf Hd].
  assert (encs <> []) as Hne by (intros ->; by destruct HR as (_ & _ & _ & _ & _ & ?)).
  pose proof (recv_step r encs (p :: ps) HR) as HS.
  destruct (recv_frame r) as [[[q|e|]|] r'].
  - destruct HS as (enc & encs' & ps' & -> & [= -> ->] & HR' & _ & Hfs & Hdel).
    exists r'. split; [done|]. split; [by exists encs'|]. split; [|lia].
    rewrite Hf in Hfs. destruct (failures (events_left r')) as [|x l]; [done|].
    exfalso. eapply not_elem_of_nil, (Hfs x). left.
  - destruct HS as (_ & [He|[_ ?]] & _); [|done]. rewrite Hf in He. by apply not_elem_of_nil in He.
  - done.
  - destruct HS as [_ Hlt]. specialize (Hlt Hne). lia.
Qed.

#[export] Instance tcp_rx_laws : FrameRxLaws SecureTcpReceiver := {
  rx_state := tcp_rx_state;
  rx_error := tcp_rx_error;
  rx_ready := tcp_rx_ready;
  rx_recv := tcp_rx_recv;
  rx_live := tcp_rx_live
}.

(** The network: what a sender wrote, delivered under any schedule to a receiver
    with the layers it started with. *)
Lemma tcp_network start ps (s : SecureTcpSender R) evs :
  tcp_tx_state start ps s -> Forall event_ok evs ->
  tcp_rx_state ps (mkSecureTcpReceiver (mkRxStream (tx (s_stream s)) evs) start.1 None start.2 TcpFrameReader_default).
Proof.
  intros (encs & Hf & Htx & Hrun & _) Hev. exists encs. unfold recv_at. cbn.
  destruct start as [rc d]. split_and!; try done; [by right|apply reader_default_at].
Qed.

(** A session whose ciphers are linked and that has written nothing. *)
Lemma tcp_tx_start start (s : SecureTcpSender R) :
  linked s None start -> s_phantom_one_encoder s = None -> tx (s_stream s) = [] -> tcp_tx_state start [] s.
Proof. intros Hl Hraw Htx. exists []. by split_and!. Qed.
End TcpLaws.
