(* ===== verification/Handshake.v ===== *)
(** The authenticated key exchange (shph-core/src/handshake.rs and pqc.rs):
    handshake profiles, hello messages and their signed payload, peer pins and
    policies, the ML-KEM-768 exchange layered on X25519, the transcript hash and
    the derivation of the directional session keys; and the two drivers that
    run it over a connection (shph-transport/src/lib.rs). *)
From S2P Require Import Prelude Error Text Primitives SessionCrypto.

Definition HANDSHAKE_VERSION : Z := 5.
Definition MAX_SIGNED_PAYLOAD_BYTES : Z := 1400.
Definition MAX_HANDSHAKE_FRAME_TAIL_BYTES : Z := 64.
Definition MAX_PEER_PINS : Z := 4096.
Definition ML_KEM_768_CIPHERTEXT_BYTES : Z := 1088.
Definition ML_KEM_768_PUBLIC_KEY_BYTES : Z := 1184.

(** ** Profiles *)

Inductive HandshakeProfile := SecureDefault | ClassicalLab.

#[export] Instance HandshakeProfile_eq_dec : EqDecision HandshakeProfile.
Proof. solve_decision. Defined.

Definition HandshakeProfile_default : HandshakeProfile := SecureDefault.

Definition profile_as_str (p : HandshakeProfile) : string :=
  match p with SecureDefault => "secure-default" | ClassicalLab => "classical-lab" end.

Definition protocol_tag (p : HandshakeProfile) : string :=
  match p with SecureDefault => "shph/5/secure-default" | ClassicalLab => "shph/5/classical-lab" end.

Definition uses_pqc (p : HandshakeProfile) : bool :=
  match p with SecureDefault => true | ClassicalLab => false end.

Definition profile_from_str (value : string) : result HandshakeProfile :=
  let v := to_ascii_lowercase (trim value) in
  if bool_decide (v ∈ ["secure-default"; "secure_default"; "secure"]) then Ok SecureDefault
  else if bool_decide (v ∈ ["classical-lab"; "classical_lab"; "classical"]) then Ok ClassicalLab
  else Err (InvalidArgument ("unsupported handshake profile: " +:+ value)).

(** ** Messages and state *)

Record Hello := mkHello {
  proto : string;
  profile : HandshakeProfile;
  identity_pub_b64 : string;
  sign_pub_b64 : string;
  pqc_pub_b64 : option string;
  pqc_ct_b64 : option string;
  ephemeral_pub_b64 : string;
  nonce_b64 : string;
  timestamp_secs : Z;
  sig : string
}.

Inductive HandshakeVersion := V2.
Definition version_as_u8 (v : HandshakeVersion) : Z := match v with V2 => HANDSHAKE_VERSION end.

Record PqcKeypair := mkPqcKeypair { encap_key : bytes; decap_key : bytes }.

Record HandshakeMaterial := mkHandshakeMaterial {
  local_ephemeral : IdentityKeyPair;
  local_nonce : bytes;
  m_profile : HandshakeProfile;
  local_pqc : option PqcKeypair;
  local_hello : Hello;
  pq_shared : option bytes;
  pq_ciphertext : option bytes
}.

Record HandshakeState := mkHandshakeState {
  peer_fingerprint_hex : string;
  peer_identity_pubkey_b64 : string;
  peer_signing_pubkey_b64 : string;
  session_keys : SessionKeys;
  transcript_hash_hex : string
}.

(** ** Roles, pins and policies *)

Inductive HandshakeRole := Initiator | Responder.

Definition deterministic_role (local_identity peer_identity : bytes) : HandshakeRole :=
  if bytes_leb local_identity peer_identity then Initiator else Responder.

Record PeerPin := mkPeerPin { identity_public : bytes; pin_signing_public : bytes }.

Definition pin_for_identity (k : IdentityKeyPair) : PeerPin :=
  mkPeerPin (public k) (signing_public k).

Record PeerPolicy := mkPeerPolicy { pins : list PeerPin }.

Definition PeerPolicy_new (pins : list PeerPin) : result PeerPolicy :=
  if zlen pins =? 0 then Err (Auth "peer policy cannot be empty")
  else if MAX_PEER_PINS <? zlen pins
  then Err (Auth ("peer policy exceeds the " +:+ show MAX_PEER_PINS +:+ "-pin safety limit"))
  else Ok (mkPeerPolicy pins).

Definition PeerPolicy_single (pin : PeerPin) : PeerPolicy := mkPeerPolicy [pin].

Definition allows (identity signing : bytes) (p : PeerPolicy) : bool :=
  existsb (fun pin => constant_time_eq (identity_public pin) identity
                      && constant_time_eq (pin_signing_public pin) signing) (pins p).

(** ** ML-KEM-768 *)

Section Pqc.
Context {R : Type} `{RngOps R, KexOps}.

Definition pqc_generate (r : R) : result PqcKeypair * R :=
  let! seed_bytes, r := sys_fill 64 r in
  let '(encap, decap) := mlkem_keygen seed_bytes in
  (Ok (mkPqcKeypair encap decap), r).

Definition encap_public_bytes (k : PqcKeypair) : bytes := encap_key k.

Definition decapsulate (ciphertext : bytes) (k : PqcKeypair) : result bytes :=
  if negb (zlen ciphertext =? ML_KEM_768_CIPHERTEXT_BYTES)
  then Err (Crypto "invalid ML-KEM ciphertext length")
  else copy_into (zreplicate 32 0) 0 32 (mlkem_decap (decap_key k) ciphertext).

(** [coins] is the randomness the ml-kem crate draws for the encapsulation. *)
Definition encapsulate_against (peer_encap_pub coins : bytes) : result (bytes * bytes) :=
  if negb (zlen peer_encap_pub =? ML_KEM_768_PUBLIC_KEY_BYTES)
  then Err (Crypto "invalid ML-KEM peer public key length")
  else
    let? ' (ct, shared) := ok_or (mlkem_encap coins peer_encap_pub)
                             (Crypto "invalid ML-KEM peer public key") in
    let? ss := copy_into (zreplicate 32 0) 0 32 shared in
    Ok (ct, ss).
End Pqc.

(** ** Encodings *)

(** [append_signed_part(&mut buffer, &mut length, part)] *)
Definition append_signed_part (part : bytes) (buffer : bytes * Z) : result (bytes * Z) :=
  let '(buf, length) := buffer in
  let? end_ := ok_or (checked_add usize_max length (zlen part))
                 (Handshake "signed payload length overflow") in
  if zlen buf <? end_ then Err (Handshake "signed payload exceeds handshake limit")
  else
    let? buf := copy_into buf length end_ part in
    Ok (buf, end_).

(** The payload a hello's signature covers: the block of [append_signed_part]
    calls repeated in the builder and in the three verifiers. *)
Definition signed_payload (p : HandshakeProfile) (identity sign_pub : bytes)
    (pqc_pub : option bytes) (ephemeral nonce : bytes) (timestamp : Z) : result bytes :=
  let? b := append_signed_part (str_bytes (protocol_tag p))
              (zreplicate MAX_SIGNED_PAYLOAD_BYTES 0, 0) in
  let? b := append_signed_part identity b in
  let? b := append_signed_part sign_pub b in
  let? b := match pqc_pub with Some pqc_pub => append_signed_part pqc_pub b | None => Ok b end in
  let? b := append_signed_part ephemeral b in
  let? b := append_signed_part nonce b in
  let? b := append_signed_part (be_bytes 8 timestamp) b in
  let '(buf, signed_len) := b in
  slice buf 0 signed_len.

(** A hasher is the bytes it was fed. *)
Definition update_transcript_field (label value hasher : bytes) : bytes :=
  hasher ++ be_bytes 4 (cast 32 (zlen label)) ++ label ++ be_bytes 8 (cast 64 (zlen value)) ++ value.

Definition update_transcript_optional_field (label : bytes) (value : option bytes)
    (hasher : bytes) : bytes :=
  let hasher := update_transcript_field label [if bool_decide (is_Some value) then 1 else 0] hasher in
  match value with
  | Some value => update_transcript_field label value hasher
  | None => hasher
  end.

Definition update_transcript_u64 (label : bytes) (value : Z) (hasher : bytes) : bytes :=
  update_transcript_field label (be_bytes 8 value) hasher.

(** One peer's part of the transcript, in the transcript's order. *)
Record Party := mkParty {
  p_identity : bytes; p_signing : bytes; p_pqc : option bytes;
  p_ephemeral : bytes; p_nonce : bytes; p_timestamp : Z
}.

Definition update_party (labels : list bytes) (p : Party) (hasher : bytes) : bytes :=
  match labels with
  | [identity; signing; pqc; ephemeral; nonce; timestamp] =>
      let hasher := update_transcript_field identity (p_identity p) hasher in
      let hasher := update_transcript_field signing (p_signing p) hasher in
      let hasher := update_transcript_optional_field pqc (p_pqc p) hasher in
      let hasher := update_transcript_field ephemeral (p_ephemeral p) hasher in
      let hasher := update_transcript_field nonce (p_nonce p) hasher in
      update_transcript_u64 timestamp (p_timestamp p) hasher
  | _ => hasher
  end.

Definition peer_a_labels : list bytes :=
  map str_bytes ["peer-a-identity"; "peer-a-signing"; "peer-a-pqc"; "peer-a-ephemeral";
                 "peer-a-nonce"; "peer-a-timestamp"].
Definition peer_b_labels : list bytes :=
  map str_bytes ["peer-b-identity"; "peer-b-signing"; "peer-b-pqc"; "peer-b-ephemeral";
                 "peer-b-nonce"; "peer-b-timestamp"].

(** Everything the transcript hasher is fed. *)
Definition transcript (p : HandshakeProfile) (initiator_identity : bytes) (first second : Party)
    (pq_ciphertext : option bytes) : bytes :=
  let hasher := [] in
  let hasher := update_transcript_field (str_bytes "domain")
                  (str_bytes "shph/handshake-transcript-v2") hasher in
  let hasher := update_transcript_field (str_bytes "protocol") (str_bytes (protocol_tag p)) hasher in
  let hasher := update_transcript_field (str_bytes "profile") (str_bytes (profile_as_str p)) hasher in
  let hasher := update_transcript_field (str_bytes "initiator-identity") initiator_identity hasher in
  let hasher := update_party peer_a_labels first hasher in
  let hasher := update_party peer_b_labels second hasher in
  update_transcript_optional_field (str_bytes "pqc-ciphertext") pq_ciphertext hasher.

(** ** Building a hello *)

(** [b64_decode(input, what)] *)
Definition decode_field `{KexOps} (input_b64 what : string) : result bytes :=
  ok_or (b64_decode input_b64) (Handshake ("invalid " +:+ what +:+ " encoding")).

Definition decode_32 `{KexOps} (input_b64 what : string) : result bytes :=
  let? raw := decode_field input_b64 what in
  if zlen raw =? 32 then Ok raw else Err (Handshake (what +:+ " must be 32 bytes")).

(** [value.map(|v| b64_decode(v, what)).transpose()?] *)
Definition decode_optional `{KexOps} (input_b64 : option string) (what : string)
  : result (option bytes) :=
  match input_b64 with
  | Some v => let? raw := decode_field v what in Ok (Some raw)
  | None => Ok None
  end.

(** A reading of [SystemTime::now().duration_since(UNIX_EPOCH)] in seconds,
    [None] before the epoch. *)
Definition clock_reading : Type := option Z.

Definition read_clock (now : clock_reading) : result Z :=
  ok_or now (Handshake "system clock before unix epoch").

Section Building.
Context {R : Type} `{RngOps R, HashOps, KexOps}.

Definition build_hello_with_profile (local_identity : IdentityKeyPair) (p : HandshakeProfile)
    (now : clock_reading) (r : R) : result HandshakeMaterial * R :=
  let! local_ephemeral, r := generate r in
  let! local_nonce, r := sys_fill 32 r in
  let! timestamp_secs, r := (read_clock now, r) in
  let sign_pub := signing_public local_identity in
  let! local_pqc, r :=
    (if uses_pqc p then let! k, r := pqc_generate r in (Ok (Some k), r) else (Ok None, r)) in
  let pqc_pub := option_map encap_public_bytes local_pqc in
  let! payload, r := (signed_payload p (public local_identity) sign_pub pqc_pub
                        (public local_ephemeral) local_nonce timestamp_secs, r) in
  let local_hello :=
    {| proto := protocol_tag p;
       profile := p;
       identity_pub_b64 := b64_encode (public local_identity);
       sign_pub_b64 := b64_encode sign_pub;
       pqc_pub_b64 := option_map b64_encode pqc_pub;
       pqc_ct_b64 := None;
       ephemeral_pub_b64 := b64_encode (public local_ephemeral);
       nonce_b64 := b64_encode local_nonce;
       timestamp_secs := timestamp_secs;
       sig := sign_handshake local_identity payload |} in
  (Ok {| local_ephemeral := local_ephemeral;
         local_nonce := local_nonce;
         m_profile := p;
         local_pqc := local_pqc;
         local_hello := local_hello;
         pq_shared := None;
         pq_ciphertext := None |}, r).

Definition build_hello (local_identity : IdentityKeyPair) (now : clock_reading) (r : R)
  : result HandshakeMaterial * R :=
  build_hello_with_profile local_identity SecureDefault now r.

(** The outer frame: the JSON encoding and a tail of spaces and tabs.
    [to_vec] is serde_json's encoder. *)
Definition tail_byte (random : Z) : Z := if Z.land random 1 =? 0 then 32 else 9.

Definition serialize_hello_frame_with_padding_len (to_vec : Hello -> result bytes)
    (hello : Hello) (padding_len : Z) (r : R) : result bytes * R :=
  if MAX_HANDSHAKE_FRAME_TAIL_BYTES <? padding_len
  then (Err (Protocol "handshake frame tail exceeds size limit"), r)
  else
    let! payload, r := (to_vec hello, r) in
    if padding_len =? 0 then (Ok payload, r)
    else
      let! random_tail, r := sys_fill MAX_HANDSHAKE_FRAME_TAIL_BYTES r in
      (Ok (payload ++ map tail_byte (ztake padding_len random_tail)), r).

Definition serialize_hello_frame (to_vec : Hello -> result bytes) (hello : Hello) (r : R)
  : result bytes * R :=
  let! random, r := sys_fill 1 r in
  let! first, r := (index random 0, r) in
  let padding_len := first mod (MAX_HANDSHAKE_FRAME_TAIL_BYTES + 1) in
  serialize_hello_frame_with_padding_len to_vec hello padding_len r.
End Building.

(** ** Verification *)

Section Verifying.
Context `{HashOps, KexOps}.

Definition check_hello_profile (p : HandshakeProfile) (h : Hello) (msg : string) : result unit :=
  if negb (bool_decide (profile h = p)) || negb (bool_decide (proto h = protocol_tag p))
  then Err (Handshake msg) else Ok ().

(** [if !constant_time_eq(a, b) { return Err(..) }] *)
Definition require_eq (a b : bytes) (msg : string) : result unit :=
  if negb (constant_time_eq a b) then Err (Handshake msg) else Ok ().

(** The post-quantum part of the local material. *)
Definition validate_local_pqc (m : HandshakeMaterial) : result unit :=
  if uses_pqc (m_profile m) then
    let? local_pqc := ok_or (local_pqc m) (Handshake "missing local PQ keypair") in
    let? encoded_public := ok_or (pqc_pub_b64 (local_hello m))
                             (Handshake "missing local PQ public key") in
    let? local_pqc_public := decode_field encoded_public "local PQ public key" in
    if negb (bool_decide (local_pqc_public = encap_public_bytes local_pqc))
    then Err (Handshake "local hello PQ key does not match handshake material")
    else Ok ()
  else if bool_decide (is_Some (local_pqc m)) || bool_decide (is_Some (pqc_pub_b64 (local_hello m)))
          || bool_decide (is_Some (pq_shared m)) || bool_decide (is_Some (pq_ciphertext m))
          || bool_decide (is_Some (pqc_ct_b64 (local_hello m)))
  then Err (Handshake "classical profile contains post-quantum material")
  else Ok ().

Definition validate_local_material (local_identity : IdentityKeyPair) (m : HandshakeMaterial)
  : result unit :=
  let p := m_profile m in
  let h := local_hello m in
  do? check_hello_profile p h "local protocol profile mismatch" ;
  let? local_identity_raw := decode_32 (identity_pub_b64 h) "local identity" in
  do? require_eq local_identity_raw (public local_identity)
        "local hello identity does not match the configured identity" ;
  let? local_sign_public := decode_32 (sign_pub_b64 h) "local signing key" in
  do? require_eq local_sign_public (signing_public local_identity)
        "local hello signing key does not match the configured identity" ;
  let? local_ephemeral_raw := decode_32 (ephemeral_pub_b64 h) "local ephemeral" in
  do? require_eq local_ephemeral_raw (public (local_ephemeral m))
        "local hello ephemeral key does not match handshake material" ;
  let? nonce := decode_32 (nonce_b64 h) "local nonce" in
  do? require_eq nonce (local_nonce m) "local hello nonce does not match handshake material" ;
  do? validate_local_pqc m ;
  let? local_pqc_public := decode_optional (pqc_pub_b64 h) "local PQ public key" in
  let? payload := signed_payload p local_identity_raw local_sign_public local_pqc_public
                    local_ephemeral_raw nonce (timestamp_secs h) in
  do? verify_handshake_signature payload (sig h) local_sign_public ;
  match pqc_ct_b64 h with
  | Some encoded_ciphertext =>
      let? ciphertext := decode_field encoded_ciphertext "local PQ ciphertext" in
      if negb (bool_decide (pq_ciphertext m = Some ciphertext))
      then Err (Handshake "local hello PQ ciphertext does not match handshake material")
      else Ok ()
  | None => Ok ()
  end.

(** A peer hello, decoded. *)
Record PeerHello := mkPeerHello {
  peer_identity_raw : bytes; peer_ephemeral_raw : bytes; peer_nonce : bytes;
  peer_sign_public : bytes; peer_pqc_pub : option bytes
}.

(** The decoding shared by the verifier and the derivation: fixed-size fields,
    freshness of the timestamp, and a post-quantum key exactly when the profile
    uses one. *)
Definition decode_peer_hello (p : HandshakeProfile) (h : Hello) (now : clock_reading)
  : result PeerHello :=
  let? peer_identity_raw := decode_32 (identity_pub_b64 h) "peer identity" in
  let? peer_ephemeral_raw := decode_32 (ephemeral_pub_b64 h) "peer ephemeral" in
  let? peer_nonce := decode_32 (nonce_b64 h) "peer nonce" in
  let? now := read_clock now in
  if 300 <? abs_diff now (timestamp_secs h)
  then Err (Handshake "peer timestamp out of window")
  else
    let? peer_sign_public := decode_32 (sign_pub_b64 h) "peer signing key" in
    let? peer_pqc_pub := decode_optional (pqc_pub_b64 h) "peer PQ public key" in
    if negb (Bool.eqb (uses_pqc p) (bool_decide (is_Some peer_pqc_pub)))
    then Err (Handshake "peer post-quantum profile material mismatch")
    else Ok (mkPeerHello peer_identity_raw peer_ephemeral_raw peer_nonce peer_sign_public peer_pqc_pub).

Definition check_peer_signature (p : HandshakeProfile) (h : Hello) (d : PeerHello) : result unit :=
  let? payload := signed_payload p (peer_identity_raw d) (peer_sign_public d) (peer_pqc_pub d)
                    (peer_ephemeral_raw d) (peer_nonce d) (timestamp_secs h) in
  verify_handshake_signature payload (sig h) (peer_sign_public d).

Definition check_pqc_pub_len (pqc_pub : option bytes) : result unit :=
  match pqc_pub with
  | Some k => if negb (zlen k =? ML_KEM_768_PUBLIC_KEY_BYTES)
              then Err (Handshake ("peer PQ public key must be "
                                   +:+ show ML_KEM_768_PUBLIC_KEY_BYTES +:+ " bytes"))
              else Ok ()
  | None => Ok ()
  end.

Definition verify_hello_signature (local_identity : IdentityKeyPair) (m : HandshakeMaterial)
    (peer_hello : Hello) (policy : PeerPolicy) (now : clock_reading) : result unit :=
  do? validate_local_material local_identity m ;
  let p := m_profile m in
  do? check_hello_profile p peer_hello "protocol mismatch" ;
  do? check_hello_profile p (local_hello m) "local protocol profile mismatch" ;
  if bool_decide (is_Some (pqc_ct_b64 peer_hello))
  then Err (Handshake "peer PQ ciphertext must be sent as a separate handshake frame")
  else
    let? d := decode_peer_hello p peer_hello now in
    do? check_pqc_pub_len (peer_pqc_pub d) ;
    do? check_peer_signature p peer_hello d ;
    if negb (allows (peer_identity_raw d) (peer_sign_public d) policy)
    then Err (Auth "peer identity and signing key are not pinned")
    else Ok ().

(** ** Key derivation *)

(** The post-quantum secret and ciphertext the profile requires. *)
Definition bind_pq_shared (m : HandshakeMaterial) : result (option bytes) :=
  if uses_pqc (m_profile m) then
    let? ss := ok_or (pq_shared m)
                 (Handshake "missing post-quantum shared secret (downgrade blocked)") in
    Ok (Some ss)
  else if bool_decide (is_Some (pq_shared m))
  then Err (Handshake "classical lab profile cannot carry post-quantum material")
  else Ok None.

Definition bind_pq_ciphertext (m : HandshakeMaterial) : result (option bytes) :=
  if uses_pqc (m_profile m) then
    let? ciphertext := ok_or (pq_ciphertext m)
        (Handshake "missing post-quantum ciphertext binding (downgrade blocked)") in
    if negb (zlen ciphertext =? ML_KEM_768_CIPHERTEXT_BYTES)
    then Err (Handshake "invalid post-quantum ciphertext binding length")
    else Ok (Some ciphertext)
  else Ok None.

(** The 64-byte buffer with the two secrets. *)
Definition combine_shared (ecdh_shared : bytes) (pq_shared : option bytes) : result bytes :=
  let? shared := copy_into (zreplicate 64 0) 0 32 ecdh_shared in
  match pq_shared with
  | Some pq_shared => copy_into shared 32 64 pq_shared
  | None => Ok shared
  end.

(** The local peer's part of the transcript. *)
Definition local_party (m : HandshakeMaterial) : result Party :=
  let h := local_hello m in
  let? local_identity_raw := decode_32 (identity_pub_b64 h) "local identity" in
  let? local_sign_public := decode_32 (sign_pub_b64 h) "local signing key" in
  let? local_ephemeral_raw := decode_32 (ephemeral_pub_b64 h) "local ephemeral" in
  let? local_pqc_pub := decode_optional (pqc_pub_b64 h) "local PQ public key" in
  Ok (mkParty local_identity_raw local_sign_public local_pqc_pub local_ephemeral_raw
        (local_nonce m) (timestamp_secs h)).

Definition peer_party (h : Hello) (d : PeerHello) : Party :=
  mkParty (peer_identity_raw d) (peer_sign_public d) (peer_pqc_pub d) (peer_ephemeral_raw d)
    (peer_nonce d) (timestamp_secs h).

(** Both sides list the peers by increasing identity. *)
Definition order_parties (l p : Party) : Party * Party :=
  if bytes_leb (p_identity l) (p_identity p) then (l, p) else (p, l).

Definition direction (initiator : bool) : bytes * bytes :=
  if initiator then (str_bytes "initiator", str_bytes "responder")
  else (str_bytes "responder", str_bytes "initiator").

Definition session_key (p : HandshakeProfile) (shared transcript_hash role : bytes) : result bytes :=
  let? ikm := slice shared 0 (if uses_pqc p then 64 else 32) in
  hkdf_sha256_into ikm
    [str_bytes "shph-session-v2"; str_bytes (protocol_tag p); transcript_hash; role] 32.

(** The transcript hash and both directional keys. *)
Definition derive_state (p : HandshakeProfile) (initiator : bool) (local peer : Party)
    (pq_ciphertext : option bytes) (shared : bytes) : result HandshakeState :=
  let '(first, second) := order_parties local peer in
  let transcript_hash :=
    sha256 (transcript p (if initiator then p_identity local else p_identity peer)
              first second pq_ciphertext) in
  let? send_key := session_key p shared transcript_hash (fst (direction initiator)) in
  let? recv_key := session_key p shared transcript_hash (snd (direction initiator)) in
  Ok {| peer_fingerprint_hex := compute_fingerprint_hex (p_identity peer);
        peer_identity_pubkey_b64 := b64_encode (p_identity peer);
        peer_signing_pubkey_b64 := b64_encode (p_signing peer);
        session_keys := mkSessionKeys 0 0 send_key recv_key;
        transcript_hash_hex := hex_encode transcript_hash |}.

(** [now] lists the two readings of the clock: by the signature check and by
    the derivation itself. *)
Definition verify_and_derive_with_profile (local_identity : IdentityKeyPair)
    (m : HandshakeMaterial) (peer_hello : Hello) (initiator : bool) (policy : PeerPolicy)
    (now : clock_reading * clock_reading) : result HandshakeState :=
  do? verify_hello_signature local_identity m peer_hello policy (fst now) ;
  let p := m_profile m in
  do? check_hello_profile p peer_hello "protocol mismatch" ;
  do? check_hello_profile p (local_hello m) "local protocol profile mismatch" ;
  let? d := decode_peer_hello p peer_hello (snd now) in
  do? check_peer_signature p peer_hello d ;
  let ecdh_shared := derive_shared (local_ephemeral m) (peer_ephemeral_raw d) in
  if bool_decide (ecdh_shared = zreplicate 32 0)
  then Err (Handshake "peer X25519 public key produced an all-zero shared secret")
  else
    let? pq_shared := bind_pq_shared m in
    let? pq_ciphertext := bind_pq_ciphertext m in
    let? shared := combine_shared ecdh_shared pq_shared in
    let? local := local_party m in
    derive_state p initiator local (peer_party peer_hello d) pq_ciphertext shared.

Definition verify_and_derive (local_identity : IdentityKeyPair) (m : HandshakeMaterial)
    (peer_hello : Hello) (initiator : bool) (policy : PeerPolicy)
    (now : clock_reading * clock_reading) : result HandshakeState :=
  verify_and_derive_with_profile local_identity m peer_hello initiator policy now.

(** ** The post-quantum round trip *)

Definition with_pq (shared ciphertext : bytes) (h : Hello) (m : HandshakeMaterial)
  : HandshakeMaterial :=
  {| local_ephemeral := local_ephemeral m; local_nonce := local_nonce m;
     m_profile := m_profile m; local_pqc := local_pqc m; local_hello := h;
     pq_shared := Some shared; pq_ciphertext := Some ciphertext |}.

Definition with_pqc_ct (ct_b64 : string) (h : Hello) : Hello :=
  {| proto := proto h; profile := profile h; identity_pub_b64 := identity_pub_b64 h;
     sign_pub_b64 := sign_pub_b64 h; pqc_pub_b64 := pqc_pub_b64 h; pqc_ct_b64 := Some ct_b64;
     ephemeral_pub_b64 := ephemeral_pub_b64 h; nonce_b64 := nonce_b64 h;
     timestamp_secs := timestamp_secs h; sig := sig h |}.

Definition finalize_initiator_pq (local_identity : IdentityKeyPair) (peer_hello : Hello)
    (policy : PeerPolicy) (now : clock_reading) (coins : bytes) (m : HandshakeMaterial)
  : result bytes * HandshakeMaterial :=
  if negb (uses_pqc (m_profile m))
  then (Err (Handshake "classical lab profile does not use post-quantum exchange"), m)
  else
    let! _ok, m := (verify_hello_signature local_identity m peer_hello policy now, m) in
    let! encoded, m := (ok_or (pqc_pub_b64 peer_hello) (Handshake "missing peer PQ public key"), m) in
    let! peer_pqc_pub, m := (decode_field encoded "peer PQ public key", m) in
    let! pair, m := (encapsulate_against peer_pqc_pub coins, m) in
    let '(ct, ss) := pair in
    (Ok ct, with_pq ss ct (with_pqc_ct (b64_encode ct) (local_hello m)) m).

Definition absorb_responder_pq_unverified (peer_ct : bytes) (m : HandshakeMaterial)
  : result unit * HandshakeMaterial :=
  if negb (uses_pqc (m_profile m))
  then (Err (Handshake "classical lab profile does not use post-quantum exchange"), m)
  else
    let! keypair, m := (ok_or (local_pqc m) (Handshake "missing local PQ keypair"), m) in
    let! ss, m := (decapsulate peer_ct keypair, m) in
    (Ok (), with_pq ss peer_ct (local_hello m) m).

Definition absorb_responder_pq (local_identity : IdentityKeyPair) (peer_hello : Hello)
    (peer_ct : bytes) (policy : PeerPolicy) (now : clock_reading) (m : HandshakeMaterial)
  : result unit * HandshakeMaterial :=
  let! _ok, m := (verify_hello_signature local_identity m peer_hello policy now, m) in
  absorb_responder_pq_unverified peer_ct m.

(** ** The drivers *)

(** The four readings of the clock of one side of a handshake. *)
Record Readings := mkReadings {
  at_verify : clock_reading; at_pq : clock_reading;
  at_derive : clock_reading * clock_reading
}.

(** [tcp_handshake_on_connected_stream] after the peer hello has arrived: what
    it sends in reply and the state it derives. *)
Definition client_handshake (local_identity : IdentityKeyPair) (policy : PeerPolicy)
    (p : HandshakeProfile) (peer_hello : Hello) (now : Readings) (coins : bytes)
    (m : HandshakeMaterial) : result (option bytes * HandshakeState) :=
  do? verify_hello_signature local_identity m peer_hello policy (at_verify now) ;
  if uses_pqc p then
    match finalize_initiator_pq local_identity peer_hello policy (at_pq now) coins m with
    | (Ok ct, m) =>
        let? state := verify_and_derive local_identity m peer_hello true policy (at_derive now) in
        Ok (Some ct, state)
    | (Err e, _) => Err e
    | (Panic, _) => Panic
    end
  else
    let? state := verify_and_derive local_identity m peer_hello true policy (at_derive now) in
    Ok (None, state).

(** [TcpHandshakeWorker::run] after the cookie exchange; [ct] is the ciphertext
    frame read from the client when the profile has one. *)
Definition server_handshake (local_identity : IdentityKeyPair) (policy : PeerPolicy)
    (p : HandshakeProfile) (peer_hello : Hello) (ct : option bytes) (now : Readings)
    (m : HandshakeMaterial) : result HandshakeState :=
  do? verify_hello_signature local_identity m peer_hello policy (at_verify now) ;
  if uses_pqc p then
    let? ct := ok_or ct ConnectionClosed in
    match absorb_responder_pq local_identity peer_hello ct policy (at_pq now) m with
    | (Ok _, m) => verify_and_derive local_identity m peer_hello false policy (at_derive now)
    | (Err e, _) => Err e
    | (Panic, _) => Panic
    end
  else verify_and_derive local_identity m peer_hello false policy (at_derive now).
End Verifying.

(** ** Lemmas: the order of identities *)

(** Two peers with different identities list themselves in the same order. *)
Lemma order_parties_comm l p :
  p_identity l <> p_identity p -> order_parties l p = order_parties p l.
Proof.
  intros Hne. unfold order_parties.
  destruct (bytes_leb (p_identity l) (p_identity p)) eqn:E1,
    (bytes_leb (p_identity p) (p_identity l)) eqn:E2; try done.
  - destruct Hne. by apply bytes_leb_antisym.
  - apply bytes_leb_total in E1. congruence.
Qed.

(** ** Lemmas: the signed payload *)

(** What the payload consists of. *)
Definition signed_bytes (p : HandshakeProfile) (identity sign_pub : bytes)
    (pqc_pub : option bytes) (ephemeral nonce : bytes) (timestamp : Z) : bytes :=
  str_bytes (protocol_tag p) ++ identity ++ sign_pub ++ default [] pqc_pub
  ++ ephemeral ++ nonce ++ be_bytes 8 timestamp.

(** The buffer holds [pre] in its first bytes. *)
Definition holds (b : bytes * Z) (pre : bytes) : Prop :=
  exists rest, b = (pre ++ rest, zlen pre) /\ zlen (pre ++ rest) = MAX_SIGNED_PAYLOAD_BYTES.

Lemma append_signed_part_cases part b pre :
  holds b pre ->
  (zlen pre + zlen part <= MAX_SIGNED_PAYLOAD_BYTES /\
   exists b', append_signed_part part b = Ok b' /\ holds b' (pre ++ part)) \/
  (MAX_SIGNED_PAYLOAD_BYTES < zlen pre + zlen part /\
   exists e, append_signed_part part b = Err e).
Proof.
  intros (rest & -> & Hl). unfold append_signed_part, checked_add.
  pose proof (zlen_nonneg pre). pose proof (zlen_nonneg part). pose proof (zlen_nonneg rest).
  unfold MAX_SIGNED_PAYLOAD_BYTES in *.
  destruct (Z.leb_spec (zlen pre + zlen part) usize_max); cbn [ok_or rbind];
    [|right; unfold usize_max, u64_max in *; split; [lia|eauto]].
  rewrite Hl. destruct (Z.ltb_spec 1400 (zlen pre + zlen part)); [right; eauto|].
  left. split; [lia|]. rewrite zlen_app in Hl.
  rewrite copy_into_app by (done || lia). cbn [rbind]. eexists. split; [done|].
  exists (zdrop (zlen pre + zlen part - zlen pre) rest). rewrite <- app_assoc. split; [by rewrite zlen_app|].
  unfold MAX_SIGNED_PAYLOAD_BYTES. rewrite !zlen_app, zlen_zdrop. lia.
Qed.

Ltac append_step Hb :=
  let b' := fresh "b" in let Hb' := fresh Hb in
  let Hle := fresh "Hle" in let E := fresh "E" in
  match type of Hb with holds ?b _ =>
  match goal with |- context [append_signed_part ?part b] =>
    destruct (append_signed_part_cases part b _ Hb) as [(Hle & b' & E & Hb')|(Hle & ? & E)];
    rewrite E; cbn [rbind]; clear E Hb; [rename Hb' into Hb|]
  end end.

Lemma holds_slice b pre :
  holds b pre -> (let '(buf, n) := b in slice buf 0 n) = Ok pre.
Proof.
  intros (rest & -> & Hl). pose proof (zlen_nonneg pre).
  rewrite slice_ok by zl. by rewrite zdrop_0, Z.sub_0_r, ztake_app.
Qed.

Lemma signed_payload_cases p i s q e n t :
  signed_payload p i s q e n t = Ok (signed_bytes p i s q e n t) \/
  MAX_SIGNED_PAYLOAD_BYTES < zlen (signed_bytes p i s q e n t) /\
  exists err, signed_payload p i s q e n t = Err err.
Proof.
  unfold signed_payload, signed_bytes.
  assert (holds (zreplicate MAX_SIGNED_PAYLOAD_BYTES 0, 0) []) as Hb by (by eexists).
  destruct q as [q|]; cbn [default id];
    repeat (append_step Hb; [|right; split; [zl|eauto]]); left;
    rewrite (holds_slice _ _ Hb); f_equal; by rewrite <- !app_assoc.
Qed.

Lemma signed_payload_fits p i s q e n t :
  zlen (signed_bytes p i s q e n t) <= MAX_SIGNED_PAYLOAD_BYTES ->
  signed_payload p i s q e n t = Ok (signed_bytes p i s q e n t).
Proof. intros H. destruct (signed_payload_cases p i s q e n t) as [?|[? _]]; [done|lia]. Qed.

Lemma signed_payload_ok p i s q e n t b :
  signed_payload p i s q e n t = Ok b -> b = signed_bytes p i s q e n t.
Proof.
  destruct (signed_payload_cases p i s q e n t) as [->|(_ & ? & ->)]; [by intros [= <-]|done].
Qed.

Lemma signed_payload_no_panic p i s q e n t : no_panic (signed_payload p i s q e n t).
Proof. by destruct (signed_payload_cases p i s q e n t) as [->|(_ & ? & ->)]. Qed.

(** The shape the verifiers enforce before they check a signature. *)
Definition party_ok (p : HandshakeProfile) (x : Party) : Prop :=
  zlen (p_identity x) = 32 /\ zlen (p_signing x) = 32 /\ zlen (p_ephemeral x) = 32 /\
  zlen (p_nonce x) = 32 /\ 0 <= p_timestamp x <= u64_max /\
  match p_pqc x with
  | Some k => uses_pqc p = true /\ zlen k = ML_KEM_768_PUBLIC_KEY_BYTES
  | None => uses_pqc p = false
  end.

Definition party_signed_bytes (p : HandshakeProfile) (x : Party) : bytes :=
  signed_bytes p (p_identity x) (p_signing x) (p_pqc x) (p_ephemeral x) (p_nonce x)
    (p_timestamp x).

Lemma app_inj_zlen {A} (l1 l2 k1 k2 : list A) :
  zlen l1 = zlen k1 -> l1 ++ l2 = k1 ++ k2 -> l1 = k1 /\ l2 = k2.
Proof. unfold zlen. intros. apply app_inj_1; [lia|done]. Qed.

Lemma party_signed_len p x :
  party_ok p x -> zlen (party_signed_bytes p x) <= MAX_SIGNED_PAYLOAD_BYTES.
Proof.
  intros (? & ? & ? & ? & _ & Hq). unfold party_signed_bytes, signed_bytes.
  assert (zlen (default [] (p_pqc x)) <= 1184).
  { destruct (p_pqc x); cbn [default id]; [unfold ML_KEM_768_PUBLIC_KEY_BYTES in Hq; lia|].
    rewrite zlen_nil. lia. }
  assert (zlen (str_bytes (protocol_tag p)) <= 21) by (destruct p; vm_compute; discriminate).
  unfold MAX_SIGNED_PAYLOAD_BYTES. rewrite !zlen_app, zlen_be_bytes. lia.
Qed.

Lemma protocol_tag_prefix p p' r r' :
  str_bytes (protocol_tag p) ++ r = str_bytes (protocol_tag p') ++ r' -> p = p' /\ r = r'.
Proof.
  destruct p, p'; intros H; try discriminate H; (split; [done|]);
    by apply app_inv_head in H.
Qed.

Lemma u64_bytes_inj x y :
  0 <= x <= u64_max -> 0 <= y <= u64_max -> be_bytes 8 x = be_bytes 8 y -> x = y.
Proof.
  intros Hx Hy. apply be_bytes_inj; change (256 ^ Z.of_nat 8) with (u64_max + 1); lia.
Qed.

Lemma party_eq x y :
  p_identity x = p_identity y -> p_signing x = p_signing y -> p_pqc x = p_pqc y ->
  p_ephemeral x = p_ephemeral y -> p_nonce x = p_nonce y -> p_timestamp x = p_timestamp y -> x = y.
Proof. destruct x, y; simpl; congruence. Qed.

(** ** Lemmas: the transcript *)

Definition field (label value : bytes) : bytes :=
  be_bytes 4 (cast 32 (zlen label)) ++ label ++ be_bytes 8 (cast 64 (zlen value)) ++ value.
Definition optional_field (label : bytes) (value : option bytes) : bytes :=
  field label [if bool_decide (is_Some value) then 1 else 0]
  ++ match value with Some v => field label v | None => [] end.

Lemma update_field label value h : update_transcript_field label value h = h ++ field label value.
Proof. done. Qed.

Lemma update_optional_field label value h :
  update_transcript_optional_field label value h = h ++ optional_field label value.
Proof.
  unfold update_transcript_optional_field, optional_field.
  destruct value; rewrite ?update_field, <- ?app_assoc; [done|by rewrite app_nil_r].
Qed.

Lemma field_inj label v v' r r' :
  zlen v <= u64_max -> zlen v' <= u64_max ->
  field label v ++ r = field label v' ++ r' -> v = v' /\ r = r'.
Proof.
  intros Hv Hv' H. unfold field in H. rewrite <- !app_assoc in H.
  apply app_inv_head in H. apply app_inv_head in H.
  apply app_inj_zlen in H as [Hl H]; [|by rewrite !zlen_be_bytes].
  unfold cast in Hl. change (2 ^ 64) with (u64_max + 1) in Hl.
  pose proof (zlen_nonneg v). pose proof (zlen_nonneg v').
  rewrite !Z.mod_small in Hl by lia. apply u64_bytes_inj in Hl; [|lia..].
  by apply app_inj_zlen in H.
Qed.

Definition opt_len (v : option bytes) : Z := zlen (default [] v).

Lemma optional_field_inj label v v' r r' :
  opt_len v <= u64_max -> opt_len v' <= u64_max ->
  optional_field label v ++ r = optional_field label v' ++ r' -> v = v' /\ r = r'.
Proof.
  intros Hv Hv' H. unfold optional_field in H. rewrite <- !app_assoc in H.
  apply field_inj in H as [Hf H]; [|by vm_compute..].
  destruct v as [v|], v' as [v'|]; try discriminate Hf; [|done].
  apply field_inj in H as [-> ->]; done.
Qed.

(** The parts of a transcript fit the 64-bit length fields. *)
Definition party_fits (x : Party) : Prop :=
  zlen (p_identity x) <= u64_max /\ zlen (p_signing x) <= u64_max /\
  opt_len (p_pqc x) <= u64_max /\ zlen (p_ephemeral x) <= u64_max /\
  zlen (p_nonce x) <= u64_max /\ 0 <= p_timestamp x <= u64_max.

Definition party_fields (labels : list bytes) (x : Party) : bytes :=
  match labels with
  | [identity; signing; pqc; ephemeral; nonce; timestamp] =>
      field identity (p_identity x) ++ field signing (p_signing x)
      ++ optional_field pqc (p_pqc x) ++ field ephemeral (p_ephemeral x)
      ++ field nonce (p_nonce x) ++ field timestamp (be_bytes 8 (p_timestamp x))
  | _ => []
  end.

Lemma update_party_fields labels x h : update_party labels x h = h ++ party_fields labels x.
Proof.
  unfold update_party, party_fields, update_transcript_u64.
  do 7 (destruct labels as [|? labels]; [by rewrite ?app_nil_r, ?update_optional_field,
    ?update_field, <- ?app_assoc|]). by rewrite app_nil_r.
Qed.

Lemma party_fields_inj labels x y r r' :
  length labels = 6%nat -> party_fits x -> party_fits y ->
  party_fields labels x ++ r = party_fields labels y ++ r' -> x = y /\ r = r'.
Proof.
  intros Hl (? & ? & ? & ? & ? & ?) (? & ? & ? & ? & ? & ?) HH.
  do 7 (destruct labels as [|? labels]; try discriminate Hl). unfold party_fields in HH.
  rewrite <- !app_assoc in HH.
  apply field_inj in HH as [E1 HH]; [|done..]. apply field_inj in HH as [E2 HH]; [|done..].
  apply optional_field_inj in HH as [E3 HH]; [|done..].
  apply field_inj in HH as [E4 HH]; [|done..]. apply field_inj in HH as [E5 HH]; [|done..].
  apply field_inj in HH as [E6 HH]; [|rewrite zlen_be_bytes; by vm_compute..].
  apply u64_bytes_inj in E6; [|done..]. split; [by apply party_eq|done].
Qed.

Lemma transcript_fields p i x y ct :
  transcript p i x y ct
  = field (str_bytes "domain") (str_bytes "shph/handshake-transcript-v2")
    ++ field (str_bytes "protocol") (str_bytes (protocol_tag p))
    ++ field (str_bytes "profile") (str_bytes (profile_as_str p))
    ++ field (str_bytes "initiator-identity") i
    ++ party_fields peer_a_labels x ++ party_fields peer_b_labels y
    ++ optional_field (str_bytes "pqc-ciphertext") ct.
Proof.
  unfold transcript. rewrite update_optional_field, !update_party_fields, !update_field, app_nil_l.
  by rewrite <- !app_assoc.
Qed.

Lemma transcript_inj p i x y ct p' i' x' y' ct' :
  zlen i <= u64_max -> zlen i' <= u64_max -> party_fits x -> party_fits y ->
  party_fits x' -> party_fits y' -> opt_len ct <= u64_max -> opt_len ct' <= u64_max ->
  transcript p i x y ct = transcript p' i' x' y' ct' ->
  p = p' /\ i = i' /\ x = x' /\ y = y' /\ ct = ct'.
Proof.
  intros Hi Hi' Hx Hy Hx' Hy' Hc Hc'. rewrite !transcript_fields. intros H.
  assert (forall q, zlen (str_bytes (protocol_tag q)) <= u64_max /\
                    zlen (str_bytes (profile_as_str q)) <= u64_max) as Hs
    by (intros []; split; vm_compute; discriminate).
  apply field_inj in H as [_ H]; [|by vm_compute..].
  apply field_inj in H as [Hp H]; [|apply Hs..]. apply field_inj in H as [_ H]; [|apply Hs..].
  apply field_inj in H as [-> H]; [|done..].
  apply party_fields_inj in H as [-> H]; [|done..].
  apply party_fields_inj in H as [-> H]; [|done..].
  rewrite <- (app_nil_r (optional_field _ ct)), <- (app_nil_r (optional_field _ ct')) in H.
  apply optional_field_inj in H as [-> _]; [|done..].
  split; [|done]. apply str_bytes_inj in Hp. destruct p, p'; done.
Qed.

(** ** Lemmas: what an accepted hello satisfies *)

Section Accepted.
Context `{HashOps, KexOps}.

(** A hello whose fields decode to [d]. *)
Definition decodes (h : Hello) (d : PeerHello) : Prop :=
  b64_decode (identity_pub_b64 h) = Some (peer_identity_raw d) /\
  b64_decode (ephemeral_pub_b64 h) = Some (peer_ephemeral_raw d) /\
  b64_decode (nonce_b64 h) = Some (peer_nonce d) /\
  b64_decode (sign_pub_b64 h) = Some (peer_sign_public d) /\
  match pqc_pub_b64 h, peer_pqc_pub d with
  | Some s, Some k => b64_decode s = Some k
  | None, None => True
  | _, _ => False
  end.

Definition fresh (now : clock_reading) (h : Hello) : Prop :=
  exists t, now = Some t /\ abs_diff t (timestamp_secs h) <= 300.

(** Ed25519 accepts the hello's signature under the key it carries, over the
    canonical encoding of its fields. *)
Definition signed_by (p : HandshakeProfile) (h : Hello) (d : PeerHello) : Prop :=
  exists s, b64_decode (sig h) = Some s /\
    ed25519_verify (peer_sign_public d) (party_signed_bytes p (peer_party h d)) s = true.

Lemma decode_32_ok s what b : decode_32 s what = Ok b -> b64_decode s = Some b /\ zlen b = 32.
Proof.
  unfold decode_32, decode_field. intros H1. guards H1. by injection H1 as ->.
Qed.

Lemma decode_optional_ok s what o :
  decode_optional s what = Ok o ->
  match s, o with Some s, Some k => b64_decode s = Some k | None, None => True | _, _ => False end.
Proof.
  unfold decode_optional, decode_field. destruct s as [s|]; [|by intros [= <-]].
  intros H1. guards H1. by injection H1 as <-.
Qed.

Lemma decode_peer_hello_ok p h now d :
  decode_peer_hello p h now = Ok d ->
  decodes h d /\ fresh now h /\ zlen (peer_identity_raw d) = 32 /\
  zlen (peer_ephemeral_raw d) = 32 /\ zlen (peer_nonce d) = 32 /\
  zlen (peer_sign_public d) = 32 /\ uses_pqc p = bool_decide (is_Some (peer_pqc_pub d)).
Proof.
  unfold decode_peer_hello, read_clock. intros H1.
  destruct (decode_32 (identity_pub_b64 h) _) as [i| |] eqn:E1; [|done..]. cbn [rbind] in H1.
  destruct (decode_32 (ephemeral_pub_b64 h) _) as [e| |] eqn:E2; [|done..]. cbn [rbind] in H1.
  destruct (decode_32 (nonce_b64 h) _) as [n| |] eqn:E3; [|done..]. cbn [rbind] in H1.
  destruct now as [t|]; [|done]. cbn [ok_or rbind] in H1. case_if.
  destruct (decode_32 (sign_pub_b64 h) _) as [s| |] eqn:E4; [|done..]. cbn [rbind] in H1.
  destruct (decode_optional (pqc_pub_b64 h) _) as [q| |] eqn:E5; [|done..]. cbn [rbind] in H1.
  case_if. injection H1 as <-.
  apply decode_32_ok in E1 as [? ?], E2 as [? ?], E3 as [? ?], E4 as [? ?].
  apply decode_optional_ok in E5. apply negb_false_iff, eqb_prop in Heqb0.
  split; [done|]. bool_prop. split; [by eexists|]. done.
Qed.

Lemma check_peer_signature_ok p h d : check_peer_signature p h d = Ok () -> signed_by p h d.
Proof.
  unfold check_peer_signature. intros H1.
  destruct (signed_payload _ _ _ _ _ _ _) as [b| |] eqn:E; [|done..].
  apply signed_payload_ok in E as ->. cbn [rbind] in H1.
  unfold verify_handshake_signature in H1. guards H1. by eexists.
Qed.

Lemma allows_spec identity signing policy :
  allows identity signing policy = true <-> mkPeerPin identity signing ∈ pins policy.
Proof.
  unfold allows. rewrite existsb_exists. setoid_rewrite andb_true_iff.
  setoid_rewrite constant_time_eq_spec.
  split; [intros ([i s] & Hin & <- & <-); by apply list_elem_of_In|].
  intros Hin%list_elem_of_In. by eexists.
Qed.

(** The checks of [verify_hello_signature] on the peer. *)
Definition accepted (p : HandshakeProfile) (h : Hello) (policy : PeerPolicy)
    (now : clock_reading) (d : PeerHello) : Prop :=
  profile h = p /\ proto h = protocol_tag p /\ pqc_ct_b64 h = None /\
  decodes h d /\ fresh now h /\ signed_by p h d /\
  mkPeerPin (peer_identity_raw d) (peer_sign_public d) ∈ pins policy.

Lemma check_hello_profile_ok p h msg :
  check_hello_profile p h msg = Ok () <-> profile h = p /\ proto h = protocol_tag p.
Proof.
  unfold check_hello_profile. repeat case_bool_decide; cbn [negb orb]; naive_solver.
Qed.

Lemma verify_hello_signature_ok k m h policy now :
  verify_hello_signature k m h policy now = Ok () ->
  exists d, decode_peer_hello (m_profile m) h now = Ok d /\
    accepted (m_profile m) h policy now d /\ check_pqc_pub_len (peer_pqc_pub d) = Ok ().
Proof.
  unfold verify_hello_signature. intros H1.
  destruct (validate_local_material k m) as [[]| |]; [|done..]. cbn [rbind] in H1.
  destruct (check_hello_profile _ h _) as [[]| |] eqn:E1; [|done..]. cbn [rbind] in H1.
  destruct (check_hello_profile _ (local_hello m) _) as [[]| |]; [|done..]. cbn [rbind] in H1.
  case_if. bool_prop.
  destruct (decode_peer_hello _ _ _) as [d| |] eqn:E2; [|done..]. cbn [rbind] in H1.
  destruct (check_pqc_pub_len _) as [[]| |] eqn:E3; [|done..]. cbn [rbind] in H1.
  destruct (check_peer_signature _ _ _) as [[]| |] eqn:E4; [|done..]. cbn [rbind] in H1.
  case_if. exists d. split; [done|split; [|done]].
  apply check_hello_profile_ok in E1 as [? ?]. apply check_peer_signature_ok in E4.
  apply decode_peer_hello_ok in E2 as (? & ? & _). apply negb_false_iff, allows_spec in Heqb0.
  split_and!; try done. destruct (pqc_ct_b64 h); [|done]. destruct Heqb. by eexists.
Qed.
End Accepted.

(** ** Lemmas: honest peers *)

Section Honest.
Context `{HashOps, KexOps, !HashLaws, !KexLaws}.

Definition identity_of (dh_seed sign_seed : bytes) (k : IdentityKeyPair) : Prop :=
  k = from_seeds dh_seed sign_seed /\ zlen dh_seed = 32 /\ zlen sign_seed = 32.

(** [h] is the hello that the identity [k] signs for the party data [x]. *)
Record honest_hello (k : IdentityKeyPair) (p : HandshakeProfile) (x : Party) (h : Hello) : Prop := {
  hh_identity : exists dh sg, identity_of dh sg k;
  hh_party : party_ok p x;
  hh_bytes : bytes_ok (p_identity x) /\ bytes_ok (p_signing x) /\ bytes_ok (p_ephemeral x) /\
             bytes_ok (p_nonce x) /\ bytes_ok (default [] (p_pqc x));
  hh_keys : p_identity x = public k /\ p_signing x = signing_public k;
  hh_profile : profile h = p /\ proto h = protocol_tag p;
  hh_fields : identity_pub_b64 h = b64_encode (p_identity x) /\
              sign_pub_b64 h = b64_encode (p_signing x) /\
              ephemeral_pub_b64 h = b64_encode (p_ephemeral x) /\
              nonce_b64 h = b64_encode (p_nonce x) /\
              pqc_pub_b64 h = option_map b64_encode (p_pqc x) /\
              timestamp_secs h = p_timestamp x;
  hh_sig : sig h = sign_handshake k (party_signed_bytes p x)
}.

Definition peer_of (x : Party) : PeerHello :=
  mkPeerHello (p_identity x) (p_ephemeral x) (p_nonce x) (p_signing x) (p_pqc x).

Lemma decode_32_encode b what :
  zlen b = 32 -> bytes_ok b -> decode_32 (b64_encode b) what = Ok b.
Proof.
  intros Hl Hb. unfold decode_32, decode_field. rewrite b64_roundtrip by done.
  cbn [ok_or rbind]. by rewrite Hl.
Qed.

Lemma decode_optional_encode o what :
  bytes_ok (default [] o) -> decode_optional (option_map b64_encode o) what = Ok o.
Proof.
  destruct o as [b|]; [|done]. cbn [default id option_map]. intros Hb.
  unfold decode_optional, decode_field. by rewrite b64_roundtrip.
Qed.

Lemma honest_payload p x what :
  party_ok p x ->
  (let? payload := signed_payload p (p_identity x) (p_signing x) (p_pqc x) (p_ephemeral x)
                     (p_nonce x) (p_timestamp x) in what payload)
  = what (party_signed_bytes p x) :> result unit.
Proof. intros Hx. rewrite signed_payload_fits by by apply party_signed_len. done. Qed.

Lemma honest_verify k b :
  (exists dh sg, identity_of dh sg k) ->
  verify_handshake_signature b (sign_handshake k b) (signing_public k) = Ok ().
Proof. intros (dh & sg & -> & _). apply sign_verify. Qed.

Lemma honest_decode k p x h now :
  honest_hello k p x h -> fresh now h -> decode_peer_hello p h now = Ok (peer_of x).
Proof.
  intros [_ (? & ? & ? & ? & _ & Hq) (? & ? & ? & ? & ?) _ _ (Ei & Es & Ee & En & Eq & Et) _]
    (t & -> & Ht).
  unfold decode_peer_hello. rewrite Ei, Ee, En, Es, Eq, !decode_32_encode by done.
  cbn [rbind read_clock ok_or]. rewrite (proj2 (Z.ltb_ge _ _)) by done.
  rewrite decode_optional_encode by done. cbn [rbind].
  unfold peer_of. by destruct (p_pqc x) as [q|]; [destruct Hq as [-> _]|rewrite Hq].
Qed.

Lemma honest_peer_party k p x h : honest_hello k p x h -> peer_party h (peer_of x) = x.
Proof. intros [_ _ _ _ _ (_ & _ & _ & _ & _ & Et) _]. destruct x. unfold peer_party. by rewrite Et. Qed.

Lemma honest_signature k p x h :
  honest_hello k p x h -> check_peer_signature p h (peer_of x) = Ok ().
Proof.
  intros [Hk Hp _ [_ Ek] _ (_ & _ & _ & _ & _ & Et) Es].
  unfold check_peer_signature. simpl. rewrite Et, honest_payload by done.
  rewrite Es, Ek. by apply honest_verify.
Qed.

(** The material of a party that has built its hello, before or after its
    post-quantum step. *)
Record honest_material (k : IdentityKeyPair) (p : HandshakeProfile) (x : Party)
    (m : HandshakeMaterial) : Prop := {
  hm_hello : honest_hello k p x (local_hello m);
  hm_profile : m_profile m = p;
  hm_ephemeral : p_ephemeral x = public (local_ephemeral m);
  hm_nonce : p_nonce x = local_nonce m;
  hm_pqc : p_pqc x = option_map encap_public_bytes (local_pqc m);
  hm_classical : uses_pqc p = false -> pq_shared m = None /\ pq_ciphertext m = None /\
                                       pqc_ct_b64 (local_hello m) = None;
  hm_ct : forall s, pqc_ct_b64 (local_hello m) = Some s ->
          exists c, s = b64_encode c /\ bytes_ok c /\ pq_ciphertext m = Some c
}.

Lemma require_eq_refl a msg : require_eq a a msg = Ok ().
Proof. unfold require_eq. by rewrite (proj2 (constant_time_eq_spec a a)). Qed.

Lemma honest_local_pqc k p x m : honest_material k p x m -> validate_local_pqc m = Ok ().
Proof.
  intros [Hh Hp _ _ Hq Hc _]. unfold validate_local_pqc. rewrite Hp.
  destruct Hh as [_ (_ & _ & _ & _ & _ & Hs) (_ & _ & _ & _ & Hb) _ _ (_ & _ & _ & _ & Eq & _) _].
  destruct (local_pqc m) as [kp|]; cbn [option_map] in Hq; rewrite Hq in *;
    cbn [option_map default id] in *.
  - destruct Hs as [-> _]. rewrite Eq. cbn [ok_or rbind]. unfold decode_field.
    rewrite b64_roundtrip by done. cbn [ok_or rbind].
    by rewrite bool_decide_eq_true_2.
  - rewrite Hs, Eq. destruct (Hc Hs) as (-> & -> & ->). done.
Qed.

Lemma honest_local k p x m : honest_material k p x m -> validate_local_material k m = Ok ().
Proof.
  intros Hm. pose proof (honest_local_pqc _ _ _ _ Hm) as HQ.
  destruct Hm as [Hh Hp He Hn _ _ Hct].
  destruct Hh as [Hk Hx (? & ? & ? & ? & ?) [Ki Ks] [E1 E2] (Ei & Es & Ee & En & Eq & Et) Esig].
  pose proof Hx as (? & ? & ? & ? & _ & _).
  unfold validate_local_material. rewrite Hp.
  rewrite (proj2 (check_hello_profile_ok _ _ _)) by done. cbn [rbind].
  rewrite Ei, Es, Ee, En, Et, !decode_32_encode by done. cbn [rbind].
  rewrite <- Ki, <- Ks, <- He, <- Hn. repeat (rewrite require_eq_refl; cbn [rbind]).
  rewrite HQ. cbn [rbind]. rewrite Eq, decode_optional_encode by done. cbn [rbind].
  rewrite honest_payload, Esig, Ks, honest_verify by done. cbn [rbind].
  destruct (pqc_ct_b64 (local_hello m)) as [s|] eqn:E; [|done].
  destruct (Hct _ eq_refl) as (c & -> & Hc & ->). unfold decode_field.
  rewrite b64_roundtrip by done. cbn [ok_or rbind]. by rewrite bool_decide_eq_true_2.
Qed.

Lemma honest_accept k k' p x y m h policy now :
  honest_material k p x m -> honest_hello k' p y h -> pqc_ct_b64 h = None -> fresh now h ->
  mkPeerPin (public k') (signing_public k') ∈ pins policy ->
  verify_hello_signature k m h policy now = Ok ().
Proof.
  intros Hm Hh Hct Hf Hpin. unfold verify_hello_signature.
  rewrite (honest_local _ _ _ _ Hm), (hm_profile _ _ _ _ Hm). cbn [rbind].
  rewrite (proj2 (check_hello_profile_ok _ _ _)) by apply (hh_profile _ _ _ _ Hh).
  rewrite (proj2 (check_hello_profile_ok _ _ _))
    by apply (hh_profile _ _ _ _ (hm_hello _ _ _ _ Hm)).
  rewrite Hct. cbn [rbind]. rewrite bool_decide_eq_false_2 by (by intros [? ?]).
  rewrite (honest_decode _ _ _ _ _ Hh Hf). cbn [rbind].
  assert (check_pqc_pub_len (peer_pqc_pub (peer_of y)) = Ok ()) as ->.
  { destruct (hh_party _ _ _ _ Hh) as (_ & _ & _ & _ & _ & Hq). simpl.
    destruct (p_pqc y); [|done]. simpl. destruct Hq as [_ ->]. done. }
  cbn [rbind]. rewrite (honest_signature _ _ _ _ Hh). cbn [rbind].
  rewrite (proj2 (allows_spec _ _ _)); [done|].
  destruct (hh_keys _ _ _ _ Hh) as [Ki Ks]. simpl. by rewrite Ki, Ks.
Qed.

Lemma session_key_total p shared th role :
  zlen shared = 64 -> zlen th = 32 -> zlen role = 9 ->
  exists key, session_key p shared th role = Ok key /\ zlen key = 32.
Proof.
  intros Hs Ht Hr. unfold session_key. rewrite slice_ok by (destruct (uses_pqc p); zl).
  cbn [rbind]. rewrite hkdf_into_spec; [|done|].
  - unfold hkdf_expand_into. set (salt := concat _). set (ikm := ztake _ _).
    destruct (hkdf_expand_total salt ikm 32) as [key E]; [done|].
    rewrite E. cbn [ok_or]. exists key. split; [done|].
    by rewrite (hkdf_expand_len _ _ _ _ E).
  - assert (zlen (str_bytes (protocol_tag p)) <= 21) by (destruct p; vm_compute; discriminate).
    cbn [concat]. rewrite !zlen_app, Ht, Hr. unfold MAX_HKDF_CONTEXT_BYTES.
    change (zlen (str_bytes "shph-session-v2")) with 15. rewrite zlen_nil. lia.
Qed.

Definition mirrored (a b : HandshakeState) : Prop :=
  send_key (session_keys a) = recv_key (session_keys b) /\
  recv_key (session_keys a) = send_key (session_keys b) /\
  transcript_hash_hex a = transcript_hash_hex b.

Lemma derive_state_mirrored p x y ct shared :
  zlen shared = 64 -> p_identity x <> p_identity y ->
  exists sx sy, derive_state p true x y ct shared = Ok sx /\
    derive_state p false y x ct shared = Ok sy /\ mirrored sx sy /\
    peer_fingerprint_hex sx = compute_fingerprint_hex (p_identity y) /\
    peer_fingerprint_hex sy = compute_fingerprint_hex (p_identity x).
Proof.
  intros Hs Hne. unfold derive_state. rewrite (order_parties_comm y x) by congruence.
  destruct (order_parties x y) as [a b]. set (th := sha256 _). cbn [direction fst snd].
  destruct (session_key_total p shared th (str_bytes "initiator")) as (k1 & -> & _);
    [done|apply sha256_len|done|].
  destruct (session_key_total p shared th (str_bytes "responder")) as (k2 & -> & _);
    [done|apply sha256_len|done|]. cbn [rbind]. by do 2 eexists.
Qed.

(** The secrets and ciphertext of a party ready to derive. *)
Definition pq_ready (p : HandshakeProfile) (m : HandshakeMaterial) (ss ct : option bytes) : Prop :=
  pq_shared m = ss /\ pq_ciphertext m = ct /\
  match ss, ct with
  | Some s, Some c => uses_pqc p = true /\ zlen s = 32 /\ zlen c = ML_KEM_768_CIPHERTEXT_BYTES
  | None, None => uses_pqc p = false
  | _, _ => False
  end.

Lemma combine_shared_ok e ss :
  zlen e = 32 -> zlen (default (zreplicate 32 0) ss) = 32 ->
  combine_shared e ss = Ok (e ++ default (zreplicate 32 0) ss).
Proof.
  intros He Hs. unfold combine_shared.
  pose proof (copy_into_zeros 0 32 64 [] e) as E. rewrite app_nil_l in E.
  change (64 - 0) with 64 in E. rewrite E by zl. clear E. cbn [rbind app].
  destruct ss as [s|]; [|done]. cbn [default id] in *.
  rewrite copy_into_zeros by zl. change (64 - 64) with 0. by rewrite app_nil_r.
Qed.

Lemma honest_derive k k' p x y m h initiator policy now ss ct :
  honest_material k p x m -> honest_hello k' p y h -> pqc_ct_b64 h = None ->
  fresh (fst now) h -> fresh (snd now) h ->
  mkPeerPin (public k') (signing_public k') ∈ pins policy -> pq_ready p m ss ct ->
  derive_shared (local_ephemeral m) (p_ephemeral y) <> zreplicate 32 0 ->
  verify_and_derive k m h initiator policy now
  = derive_state p initiator x y ct
      (derive_shared (local_ephemeral m) (p_ephemeral y) ++ default (zreplicate 32 0) ss).
Proof.
  intros Hm Hh Hct Hf1 Hf2 Hpin (Hs & Hc & Hpq) Hne.
  unfold verify_and_derive, verify_and_derive_with_profile.
  rewrite (honest_accept k k' p x y) by done. rewrite (hm_profile _ _ _ _ Hm). cbn [rbind].
  rewrite (proj2 (check_hello_profile_ok _ _ _)) by apply (hh_profile _ _ _ _ Hh).
  rewrite (proj2 (check_hello_profile_ok _ _ _))
    by apply (hh_profile _ _ _ _ (hm_hello _ _ _ _ Hm)).
  cbn [rbind]. rewrite (honest_decode _ _ _ _ _ Hh Hf2). cbn [rbind].
  rewrite (honest_signature _ _ _ _ Hh). cbn [rbind].
  change (peer_ephemeral_raw (peer_of y)) with (p_ephemeral y).
  rewrite bool_decide_eq_false_2 by done.
  assert (bind_pq_shared m = Ok ss /\ bind_pq_ciphertext m = Ok ct) as [-> ->].
  { unfold bind_pq_shared, bind_pq_ciphertext. rewrite (hm_profile _ _ _ _ Hm), Hs, Hc.
    destruct ss as [s|], ct as [c|]; try done; [|by rewrite Hpq].
    destruct Hpq as (-> & _ & Hl). cbn [ok_or rbind]. by rewrite (proj2 (Z.eqb_eq _ _) Hl). }
  cbn [rbind]. rewrite combine_shared_ok; [|apply x25519_dh_len|destruct ss as [s|], ct; try done; apply Hpq].
  cbn [rbind].
  assert (local_party m = Ok x) as ->.
  { destruct (hm_hello _ _ _ _ Hm) as [_ Hx (? & ? & ? & ? & ?) _ _ (Ei & Es & Ee & En & Eq & Et) _].
    destruct Hx as (? & ? & ? & ? & _). unfold local_party.
    rewrite Ei, Es, Ee, Eq, Et, !decode_32_encode by done. cbn [rbind].
    rewrite decode_optional_encode by done. cbn [rbind]. rewrite <- (hm_nonce _ _ _ _ Hm).
    by destruct x. }
  cbn [rbind]. by rewrite (honest_peer_party _ _ _ _ Hh).
Qed.
End Honest.

(** ** Lemmas: the drivers on honest peers *)

Section Drivers.
Context {R : Type} `{RngOps R, HashOps, KexOps, !RngLaws R, !HashLaws, !KexLaws}.

Lemma sys_fill_ok n (r : R) b r' : sys_fill n r = (Ok b, r') -> zlen b = Z.max 0 n /\ bytes_ok b.
Proof.
  unfold sys_fill. pose proof (rng_fill_len n r) as Hl. destruct (rng_fill n r) as [o r1].
  intros [= E ->]. apply ok_or_ok in E. subst o. by apply Hl.
Qed.

(** The operating system's generator does not fail. *)
Definition reliable : Prop := forall n (r : R), is_Some (rng_fill n r).1.

Lemma sys_fill_reliable n (r : R) : reliable ->
  exists b r', sys_fill n r = (Ok b, r') /\ zlen b = Z.max 0 n /\ bytes_ok b.
Proof.
  intros Hr. destruct (Hr n r) as [b Hb]. destruct (sys_fill n r) as [o r'] eqn:E. exists b, r'.
  assert (o = Ok b) as ->; [|split; [done|by apply sys_fill_ok in E]].
  unfold sys_fill in E. destruct (rng_fill n r) as [o' r1]. cbn in Hb. subst o'. by injection E as <- _.
Qed.

Lemma sbind_ok {A B S} (m : result A * S) (k : A -> S -> result B * S) b s' :
  sbind m k = (Ok b, s') -> exists a s, m = (Ok a, s) /\ k a s = (Ok b, s').
Proof. destruct m as [[a|e|] s]; cbn [sbind]; [by eauto|done..]. Qed.

Lemma generate_identity (r : R) k r' :
  generate r = (Ok k, r') -> exists dh sg, identity_of dh sg k.
Proof.
  unfold generate. intros (dh & r1 & E1 & HH)%sbind_ok. apply sbind_ok in HH as (sg & r2 & E2 & HH).
  injection HH as <- _. apply sys_fill_ok in E1 as [? _], E2 as [? _]. by exists dh, sg.
Qed.

Lemma identity_bytes dh sg k :
  identity_of dh sg k ->
  zlen (public k) = 32 /\ bytes_ok (public k) /\ zlen (signing_public k) = 32 /\ bytes_ok (signing_public k).
Proof.
  intros (-> & Hd & Hs). cbn [public signing_public from_seeds].
  destruct (x25519_public_len dh Hd), (ed25519_public_len sg Hs). done.
Qed.

(** The local post-quantum key pair comes from the generator exactly in the
    profile that uses one. *)
Definition pqc_generated (p : HandshakeProfile) (o : option PqcKeypair) : Prop :=
  if uses_pqc p then exists seed, o = Some (mkPqcKeypair (mlkem_keygen seed).1 (mlkem_keygen seed).2)
  else o = None.

Lemma build_honest dh sg k p ts (r : R) m r' :
  identity_of dh sg k -> 0 <= ts <= u64_max ->
  build_hello_with_profile k p (Some ts) r = (Ok m, r') ->
  exists x, honest_material k p x m /\ p_timestamp x = ts /\ pqc_ct_b64 (local_hello m) = None /\
    pq_shared m = None /\ pq_ciphertext m = None /\ pqc_generated p (local_pqc m) /\
    exists ed es, identity_of ed es (local_ephemeral m).
Proof.
  intros Hk Hts HB. unfold build_hello_with_profile in HB.
  apply sbind_ok in HB as (eph & r1 & E1 & HB). apply generate_identity in E1 as (ed & es & He).
  apply sbind_ok in HB as (nonce & r2 & E2 & HB). apply sys_fill_ok in E2 as [Hn1 Hn2].
  cbn [read_clock ok_or sbind] in HB. apply sbind_ok in HB as (pqc & r3 & E3 & HB).
  assert (pqc_generated p pqc) as Hq.
  { unfold pqc_generated. destruct (uses_pqc p); [|by injection E3 as <- _].
    apply sbind_ok in E3 as (kp & r4 & E3 & Ek). injection Ek as <- _.
    unfold pqc_generate in E3. apply sbind_ok in E3 as (seed & r5 & _ & E3).
    destruct (mlkem_keygen seed) as [e d] eqn:E. injection E3 as <- _. exists seed. by rewrite E. }
  clear E3. pose proof (identity_bytes _ _ _ Hk) as (K1 & K2 & K3 & K4).
  pose proof (identity_bytes _ _ _ He) as (F1 & F2 & _ & _).
  set (x := mkParty (public k) (signing_public k) (option_map encap_public_bytes pqc)
              (public eph) nonce ts).
  assert (party_ok p x) as Hx.
  { unfold party_ok, x. simpl. rewrite Hn1. split_and!; try done; try apply Hts.
    unfold pqc_generated in Hq. destruct (uses_pqc p); [destruct Hq as [seed ->]|by rewrite Hq].
    simpl. split; [done|]. apply mlkem_public_len. }
  destruct (signed_payload p _ _ _ _ _ _) as [payload| |] eqn:E4; [|done..].
  apply signed_payload_ok in E4 as ->. injection HB as <- _. exists x.
  split_and!; try done; [|by exists ed, es]. split; try done. split; try done; [by exists dh, sg|].
  unfold x; simpl. split_and!; try done.
  unfold pqc_generated in Hq. destruct (uses_pqc p); [destruct Hq as [seed ->]|rewrite Hq; constructor].
  apply mlkem_public_len.
Qed.

(** Building never panics and starts without post-quantum secrets. *)
Lemma sys_fill_no_panic n (r : R) : no_panic (sys_fill n r).1.
Proof. unfold sys_fill. by destruct (rng_fill n r) as [[b|] r']. Qed.

Lemma build_no_panic k p now (r : R) : no_panic (build_hello_with_profile k p now r).1.
Proof.
  unfold build_hello_with_profile, generate.
  apply sbind_no_panic; [apply sbind_no_panic; [apply sys_fill_no_panic|intros a s; apply sbind_no_panic; [apply sys_fill_no_panic|done]]|].
  intros eph r1. apply sbind_no_panic; [apply sys_fill_no_panic|]. intros nonce r2.
  apply sbind_no_panic; [by destruct now|]. intros ts r3.
  apply sbind_no_panic.
  { destruct (uses_pqc p); [|done]. apply sbind_no_panic; [|done]. apply sbind_no_panic; [apply sys_fill_no_panic|].
    intros b s. by destruct (mlkem_keygen b). }
  intros pqc r4. apply sbind_no_panic; [apply signed_payload_no_panic|done].
Qed.

Lemma build_material k p now (r : R) m r' :
  build_hello_with_profile k p now r = (Ok m, r') -> m_profile m = p /\ pq_shared m = None.
Proof.
  unfold build_hello_with_profile. intros HB.
  do 5 (apply sbind_ok in HB as (? & ? & _ & HB)). by injection HB as <- _.
Qed.

(** With a generator that does not fail, a hello can always be built. *)
Lemma build_total dh sg k p ts (r : R) :
  reliable -> identity_of dh sg k -> 0 <= ts <= u64_max ->
  exists m r', build_hello_with_profile k p (Some ts) r = (Ok m, r').
Proof.
  intros Hr Hk Hts. unfold build_hello_with_profile, generate.
  destruct (sys_fill_reliable 32 r Hr) as (ed & r1 & -> & Hed & _). cbn [sbind].
  destruct (sys_fill_reliable 32 r1 Hr) as (es & r2 & -> & Hes & _). cbn [sbind].
  destruct (sys_fill_reliable 32 r2 Hr) as (nonce & r3 & -> & Hn & _). cbn [sbind read_clock ok_or].
  assert (exists pqc r4, (if uses_pqc p then let! k, r := pqc_generate r3 in (Ok (Some k), r) else (Ok None, r3))
    = (Ok pqc, r4) /\ pqc_generated p pqc) as (pqc & r4 & -> & Hq).
  { unfold pqc_generated. destruct (uses_pqc p); [|by exists None, r3]. unfold pqc_generate.
    destruct (sys_fill_reliable 64 r3 Hr) as (seed & r5 & -> & _). cbn [sbind].
    destruct (mlkem_keygen seed) as [e d] eqn:E. cbn [sbind]. do 2 eexists. split; [done|]. exists seed. by rewrite E. }
  cbn [sbind]. destruct (identity_bytes dh sg k Hk) as (K1 & _ & K3 & _).
  assert (identity_of ed es (from_seeds ed es)) as He by done.
  destruct (identity_bytes _ _ _ He) as (F1 & _).
  rewrite signed_payload_fits; [cbn [sbind]; by do 2 eexists|].
  apply (party_signed_len p (mkParty (public k) (signing_public k) (option_map encap_public_bytes pqc)
    (public (from_seeds ed es)) nonce ts)).
  unfold party_ok. cbn [p_identity p_signing p_ephemeral p_nonce p_timestamp p_pqc].
  split_and!; try done; try apply Hts.
  unfold pqc_generated in Hq. destruct (uses_pqc p); [destruct Hq as [seed ->]|by rewrite Hq].
  cbn. split; [done|]. apply mlkem_public_len.
Qed.

Lemma honest_hello_ct k p x h s : honest_hello k p x h -> honest_hello k p x (with_pqc_ct s h).
Proof. intros [? ? ? ? ? ? ?]. by split. Qed.

Lemma honest_encapsulates k k' p x y m h policy now coins seed :
  uses_pqc p = true -> honest_material k p x m -> honest_hello k' p y h ->
  pqc_ct_b64 h = None -> fresh now h -> mkPeerPin (public k') (signing_public k') ∈ pins policy ->
  p_pqc y = Some (mlkem_keygen seed).1 ->
  exists ct ss m', finalize_initiator_pq k h policy now coins m = (Ok ct, m') /\
    honest_material k p x m' /\ pq_ready p m' (Some ss) (Some ct) /\
    local_ephemeral m' = local_ephemeral m /\ mlkem_decap (mlkem_keygen seed).2 ct = ss.
Proof.
  intros Hp Hm Hh Hct Hf Hpin Hy. unfold finalize_initiator_pq.
  rewrite (hm_profile _ _ _ _ Hm), Hp. cbn [negb]; cbv iota.
  rewrite (honest_accept k k' p x y) by done. cbn [sbind].
  destruct (hh_fields _ _ _ _ Hh) as (_ & _ & _ & _ & -> & _). rewrite Hy.
  cbn [option_map ok_or sbind]. unfold decode_field.
  pose proof (mlkem_public_len seed) as [Hl Hb]. rewrite b64_roundtrip by done. cbn [ok_or sbind].
  unfold encapsulate_against. rewrite Hl. cbn [negb]; cbv iota.
  change (1184 =? ML_KEM_768_PUBLIC_KEY_BYTES) with true. cbn [negb]; cbv iota.
  destruct (mlkem_encap_total coins seed) as [[ct ss] E]. rewrite E. cbn [ok_or rbind].
  destruct (mlkem_encap_len _ _ _ _ E) as (Hc & Hs & Hcb).
  pose proof (copy_into_zeros 0 32 32 [] ss) as Ec. rewrite !app_nil_l in Ec.
  rewrite Ec by zl. change (32 - (32 - 0)) with 0. cbn [rbind]. rewrite app_nil_r. cbn [sbind].
  do 3 eexists. split; [done|]. split; [|split; [done|split; [done|]]].
  - destruct Hm as [H5 H6 H7 H8 H9 H10 H11]. split; try done.
    + by apply honest_hello_ct.
    + intros Hf'. congruence.
    + intros s [= <-]. by exists ct.
  - by apply (mlkem_roundtrip seed coins).
Qed.

Lemma honest_decapsulates k k' p x y m h policy now ct ss seed :
  uses_pqc p = true -> honest_material k p x m -> honest_hello k' p y h ->
  pqc_ct_b64 h = None -> fresh now h -> mkPeerPin (public k') (signing_public k') ∈ pins policy ->
  pqc_ct_b64 (local_hello m) = None ->
  local_pqc m = Some (mkPqcKeypair (mlkem_keygen seed).1 (mlkem_keygen seed).2) ->
  mlkem_decap (mlkem_keygen seed).2 ct = ss -> zlen ss = 32 -> zlen ct = ML_KEM_768_CIPHERTEXT_BYTES ->
  exists m', absorb_responder_pq k h ct policy now m = (Ok (), m') /\
    honest_material k p x m' /\ pq_ready p m' (Some ss) (Some ct) /\
    local_ephemeral m' = local_ephemeral m.
Proof.
  intros Hp Hm Hh Hct Hf Hpin Hl Hq Hd Hs Hc. unfold absorb_responder_pq.
  rewrite (honest_accept k k' p x y) by done. cbn [sbind]. unfold absorb_responder_pq_unverified.
  rewrite (hm_profile _ _ _ _ Hm), Hp, Hq. cbn [negb]; cbv iota. cbn [ok_or sbind].
  unfold decapsulate. rewrite Hc. change (ML_KEM_768_CIPHERTEXT_BYTES =? ML_KEM_768_CIPHERTEXT_BYTES) with true.
  cbn [negb]; cbv iota. cbn [decap_key]. rewrite Hd.
  pose proof (copy_into_zeros 0 32 32 [] ss) as Ec. rewrite !app_nil_l in Ec.
  rewrite Ec by zl. change (32 - (32 - 0)) with 0. rewrite app_nil_r. cbn [sbind].
  eexists. split; [done|]. split; [|split; [done|done]].
  destruct Hm as [H5 H6 H7 H8 H9 H10 H11]. split; try done.
  - intros Hf'. congruence.
  - intros s E. cbn [with_pq local_hello] in E. congruence.
Qed.

(** The X25519 secrets of two generated ephemeral keys are the same. *)
Lemma ephemeral_comm a b :
  (exists ed es, identity_of ed es a) -> (exists ed es, identity_of ed es b) ->
  derive_shared a (public b) = derive_shared b (public a) /\
  zlen (derive_shared a (public b)) = 32.
Proof.
  intros (? & ? & -> & _) (? & ? & -> & _). split; [apply x25519_dh_comm|apply x25519_dh_len].
Qed.

Lemma honest_run ki kr p x y mi mr poli polr ci cr coins :
  honest_material ki p x mi -> honest_material kr p y mr -> public ki <> public kr ->
  pqc_ct_b64 (local_hello mi) = None -> pqc_ct_b64 (local_hello mr) = None ->
  pq_shared mi = None -> pq_ciphertext mi = None -> pq_shared mr = None -> pq_ciphertext mr = None ->
  pqc_generated p (local_pqc mr) ->
  (exists ed es, identity_of ed es (local_ephemeral mi)) ->
  (exists ed es, identity_of ed es (local_ephemeral mr)) ->
  pin_for_identity kr ∈ pins poli -> pin_for_identity ki ∈ pins polr ->
  (forall c, c ∈ [at_verify ci; at_pq ci; fst (at_derive ci); snd (at_derive ci)] ->
     fresh c (local_hello mr)) ->
  (forall c, c ∈ [at_verify cr; at_pq cr; fst (at_derive cr); snd (at_derive cr)] ->
     fresh c (local_hello mi)) ->
  derive_shared (local_ephemeral mi) (public (local_ephemeral mr)) <> zreplicate 32 0 ->
  exists ct sti str,
    client_handshake ki poli p (local_hello mr) ci coins mi = Ok (ct, sti) /\
    server_handshake kr polr p (local_hello mi) ct cr mr = Ok str /\
    mirrored sti str /\
    peer_fingerprint_hex sti = fingerprint_hex kr /\ peer_fingerprint_hex str = fingerprint_hex ki.
Proof.
  intros Hmi Hmr Hne Hci Hcr Hsi Hsci Hsr Hscr Hgen Hei Her Hpi Hpr Fi Fr Hnz.
  pose proof (hm_hello _ _ _ _ Hmi) as Hi. pose proof (hm_hello _ _ _ _ Hmr) as Hr.
  destruct (ephemeral_comm _ _ Hei Her) as [Hcomm Hlen].
  assert (p_identity x <> p_identity y) as Hids.
  { by rewrite (proj1 (hh_keys _ _ _ _ Hi)), (proj1 (hh_keys _ _ _ _ Hr)). }
  unfold client_handshake, server_handshake.
  rewrite (honest_accept ki kr p x y) by (try done; apply Fi; set_solver).
  rewrite (honest_accept kr ki p y x) by (try done; apply Fr; set_solver). cbn [rbind].
  assert (forall mi' mr' ss ct, honest_material ki p x mi' -> honest_material kr p y mr' ->
    local_ephemeral mi' = local_ephemeral mi -> local_ephemeral mr' = local_ephemeral mr ->
    pq_ready p mi' ss ct -> pq_ready p mr' ss ct ->
    exists sti str,
      verify_and_derive ki mi' (local_hello mr) true poli (at_derive ci) = Ok sti /\
      verify_and_derive kr mr' (local_hello mi) false polr (at_derive cr) = Ok str /\
      mirrored sti str /\ peer_fingerprint_hex sti = fingerprint_hex kr /\
      peer_fingerprint_hex str = fingerprint_hex ki) as Hderive.
  { intros mi' mr' ss ct Hm1 Hm2 E1 E2 Hq1 Hq2.
    pose proof (hm_ephemeral _ _ _ _ Hmi) as Ex. pose proof (hm_ephemeral _ _ _ _ Hmr) as Ey.
    rewrite (honest_derive ki kr p x y mi' (local_hello mr) true poli (at_derive ci) ss ct)
      by (try done; first [apply Fi; set_solver|by rewrite E1, Ey]).
    rewrite (honest_derive kr ki p y x mr' (local_hello mi) false polr (at_derive cr) ss ct)
      by (try done; first [apply Fr; set_solver|by rewrite E2, Ex, <- Hcomm]).
    rewrite E1, E2, Ex, Ey, <- Hcomm.
    destruct (derive_state_mirrored p x y ct
      (derive_shared (local_ephemeral mi) (public (local_ephemeral mr)) ++ default (zreplicate 32 0) ss))
      as (sx & sy & -> & -> & HM & F1 & F2); [|done|].
    - rewrite zlen_app, Hlen. destruct Hq1 as (_ & _ & Hq1), ss as [ss|], ct; try done.
      cbn [default id]. destruct Hq1 as (_ & -> & _). done.
    - exists sx, sy. split_and!; try done.
      + rewrite F1. unfold fingerprint_hex. by rewrite (proj1 (hh_keys _ _ _ _ Hr)).
      + rewrite F2. unfold fingerprint_hex. by rewrite (proj1 (hh_keys _ _ _ _ Hi)). }
  destruct (uses_pqc p) eqn:Hp.
  - unfold pqc_generated in Hgen. rewrite Hp in Hgen. destruct Hgen as [seed Hseed].
    destruct (honest_encapsulates ki kr p x y mi (local_hello mr) poli (at_pq ci) coins seed)
      as (ct & ss & mi' & -> & Hmi' & Hqi & Ei & Hd); try done.
    { apply Fi; set_solver. }
    { rewrite (hm_pqc _ _ _ _ Hmr), Hseed. done. }
    destruct Hqi as (Hq1 & Hq2 & Hq3). cbn [ok_or rbind].
    destruct (honest_decapsulates kr ki p y x mr (local_hello mi) polr (at_pq cr) ct ss seed)
      as (mr' & E & Hmr' & Hqr & Er); try done; try apply Hq3.
    { apply Fr; set_solver. }
    destruct (Hderive mi' mr' (Some ss) (Some ct)) as (sti & str & E1 & E2 & HM); try done.
    exists (Some ct), sti, str. rewrite E1. cbn [ok_or rbind]. rewrite E. done.
  - destruct (Hderive mi mr None None) as (sti & str & -> & -> & HM); try done.
    by exists None, sti, str.
Qed.
End Drivers.

(** ** Lemmas: derivation from any hello *)

Section Derivation.
Context `{HashOps, KexOps, !HashLaws, !KexLaws}.

Lemma decode_32_no_panic s what : no_panic (decode_32 s what).
Proof. unfold decode_32, decode_field. walk. Qed.
Lemma decode_optional_no_panic s what : no_panic (decode_optional s what).
Proof. unfold decode_optional, decode_field. walk. Qed.
Lemma verify_signature_no_panic b s k : no_panic (verify_handshake_signature b s k).
Proof. unfold verify_handshake_signature. walk. Qed.
Lemma check_profile_no_panic p h msg : no_panic (check_hello_profile p h msg).
Proof. unfold check_hello_profile. walk. Qed.
Lemma require_eq_no_panic a b msg : no_panic (require_eq a b msg).
Proof. unfold require_eq. walk. Qed.
#[local] Hint Resolve signed_payload_no_panic decode_32_no_panic decode_optional_no_panic
  verify_signature_no_panic check_profile_no_panic require_eq_no_panic : panics.

Lemma decode_peer_hello_no_panic p h now : no_panic (decode_peer_hello p h now).
Proof. unfold decode_peer_hello, read_clock. walk. Qed.
Lemma check_peer_signature_no_panic p h d : no_panic (check_peer_signature p h d).
Proof. unfold check_peer_signature. walk. Qed.
Lemma validate_local_no_panic k m : no_panic (validate_local_material k m).
Proof. unfold validate_local_material, validate_local_pqc, decode_field. walk. Qed.
Lemma local_party_no_panic m : no_panic (local_party m).
Proof. unfold local_party. walk. Qed.
#[local] Hint Resolve decode_peer_hello_no_panic check_peer_signature_no_panic
  validate_local_no_panic local_party_no_panic : panics.

Lemma verify_hello_no_panic k m h policy now : no_panic (verify_hello_signature k m h policy now).
Proof. unfold verify_hello_signature, check_pqc_pub_len. walk. Qed.

Lemma bind_pq_shared_no_panic m : no_panic (bind_pq_shared m).
Proof. unfold bind_pq_shared. walk. Qed.
Lemma bind_pq_ciphertext_no_panic m : no_panic (bind_pq_ciphertext m).
Proof. unfold bind_pq_ciphertext. walk. Qed.

Lemma classical_clean k m :
  validate_local_material k m = Ok () -> uses_pqc (m_profile m) = false ->
  pq_shared m = None /\ pq_ciphertext m = None.
Proof.
  intros HV Hp. assert (validate_local_pqc m = Ok ()) as HQ.
  { unfold validate_local_material in HV.
    do 9 (apply rbind_ok in HV as (? & ? & HV)). by destruct (validate_local_pqc m) as [[]| |]. }
  unfold validate_local_pqc in HQ. rewrite Hp in HQ. guards HQ. bool_prop.
  split; [destruct (pq_shared m)|destruct (pq_ciphertext m)]; try done; exfalso; eauto.
Qed.

Lemma verify_hello_local k m h policy now :
  verify_hello_signature k m h policy now = Ok () -> validate_local_material k m = Ok ().
Proof. unfold verify_hello_signature. by destruct (validate_local_material k m) as [[]| |]. Qed.

Lemma decodes_fun h d d' : decodes h d -> decodes h d' -> d = d'.
Proof.
  destruct d, d'. unfold decodes; simpl. intros (? & ? & ? & ? & HQ) (? & ? & ? & ? & HQ').
  destruct (pqc_pub_b64 h); repeat case_match; simplify_eq; try done.
Qed.

Lemma bind_pq_ready m ss ct :
  (forall s, pq_shared m = Some s -> zlen s = 32) ->
  (uses_pqc (m_profile m) = false -> pq_shared m = None /\ pq_ciphertext m = None) ->
  bind_pq_shared m = Ok ss -> bind_pq_ciphertext m = Ok ct -> pq_ready (m_profile m) m ss ct.
Proof.
  intros Hs Hc. unfold bind_pq_shared, bind_pq_ciphertext, pq_ready.
  destruct (uses_pqc (m_profile m)).
  - intros H1' H2'. guards H1'. guards H2'. injection H1' as <-. injection H2' as <-.
    split_and!; try done. by apply Hs.
  - destruct (Hc eq_refl) as [-> ->]. by intros [= <-] [= <-].
Qed.

Lemma derive_state_no_panic p i x y ct shared :
  zlen shared = 64 -> no_panic (derive_state p i x y ct shared).
Proof.
  intros Hs. unfold derive_state. destruct (order_parties x y) as [a b]. set (th := sha256 _).
  destruct (session_key_total p shared th (fst (direction i))) as (k1 & -> & _);
    [done|apply sha256_len|by destruct i|].
  destruct (session_key_total p shared th (snd (direction i))) as (k2 & -> & _);
    [done|apply sha256_len|by destruct i|]. done.
Qed.

Lemma pq_ready_len p m ss ct : pq_ready p m ss ct -> zlen (default (zreplicate 32 0) ss) = 32.
Proof. intros (_ & _ & HH). destruct ss, ct; try done. apply HH. Qed.

(** The derivation is its checks followed by [derive_state]. *)
Lemma derive_cases k m h initiator policy now :
  (forall s, pq_shared m = Some s -> zlen s = 32) ->
  (exists e, verify_and_derive k m h initiator policy now = Err e) \/
  exists d local ss ct,
    accepted (m_profile m) h policy (fst now) d /\ fresh (snd now) h /\
    derive_shared (local_ephemeral m) (peer_ephemeral_raw d) <> zreplicate 32 0 /\
    local_party m = Ok local /\ pq_ready (m_profile m) m ss ct /\
    verify_and_derive k m h initiator policy now
    = derive_state (m_profile m) initiator local (peer_party h d) ct
        (derive_shared (local_ephemeral m) (peer_ephemeral_raw d) ++ default (zreplicate 32 0) ss).
Proof.
  intros Hs. unfold verify_and_derive, verify_and_derive_with_profile.
  pose proof (verify_hello_no_panic k m h policy (fst now)) as N.
  destruct (verify_hello_signature _ _ _ _ _) as [[]|e|] eqn:E1; [|eauto|done].
  pose proof (classical_clean _ _ (verify_hello_local _ _ _ _ _ E1)) as Hl.
  apply verify_hello_signature_ok in E1 as (d1 & Ed1 & Hacc & _). cbn [rbind]. clear N.
  pose proof (check_profile_no_panic (m_profile m) h "protocol mismatch") as N.
  destruct (check_hello_profile _ h _) as [[]|e|]; [|eauto|done]. cbn [rbind]. clear N.
  pose proof (check_profile_no_panic (m_profile m) (local_hello m) "local protocol profile mismatch") as N.
  destruct (check_hello_profile _ (local_hello m) _) as [[]|e|]; [|eauto|done]. cbn [rbind]. clear N.
  pose proof (decode_peer_hello_no_panic (m_profile m) h (snd now)) as N.
  destruct (decode_peer_hello _ h (snd now)) as [d|e|] eqn:Ed; [|eauto|done]. cbn [rbind]. clear N.
  pose proof (check_peer_signature_no_panic (m_profile m) h d) as N.
  destruct (check_peer_signature _ h d) as [[]|e|]; [|eauto|done]. cbn [rbind]. clear N.
  apply decode_peer_hello_ok in Ed as (Hd & Hf & _). apply decode_peer_hello_ok in Ed1 as (Hd1 & _).
  pose proof (decodes_fun _ _ _ Hd Hd1) as <-.
  case_bool_decide as Hz; [eauto|].
  pose proof (bind_pq_ready m) as Hq.
  destruct (bind_pq_shared m) as [ss|e|] eqn:E2; [|eauto|by apply bind_pq_shared_no_panic in E2].
  destruct (bind_pq_ciphertext m) as [ct|e|] eqn:E3; [|eauto|by apply bind_pq_ciphertext_no_panic in E3].
  specialize (Hq ss ct Hs Hl eq_refl eq_refl). cbn [rbind].
  rewrite combine_shared_ok by (apply x25519_dh_len || by eapply pq_ready_len). cbn [rbind].
  pose proof (local_party_no_panic m) as N.
  destruct (local_party m) as [l|e|]; [|eauto|done]. cbn [rbind].
  right. by exists d, l, ss, ct.
Qed.

Lemma derive_no_panic k m h initiator policy now :
  (forall s, pq_shared m = Some s -> zlen s = 32) ->
  no_panic (verify_and_derive k m h initiator policy now).
Proof.
  intros Hs. destruct (derive_cases k m h initiator policy now Hs)
    as [[e ->]|(d & l & ss & ct & _ & _ & _ & _ & Hq & ->)]; [done|].
  apply derive_state_no_panic. rewrite zlen_app, (pq_ready_len _ _ _ _ Hq).
  unfold derive_shared. by rewrite x25519_dh_len.
Qed.
End Derivation.

Lemma party_signed_inj p p' x x' :
  party_ok p x -> party_ok p' x' ->
  party_signed_bytes p x = party_signed_bytes p' x' -> p = p' /\ x = x'.
Proof.
  intros (I1 & S1 & E1 & N1 & T1 & Q1) (I2 & S2 & E2 & N2 & T2 & Q2) HH.
  unfold party_signed_bytes, signed_bytes in HH.
  apply protocol_tag_prefix in HH as [<- HH].
  apply app_inj_zlen in HH as [Ei HH]; [|lia]. apply app_inj_zlen in HH as [Es HH]; [|lia].
  assert (p_pqc x = p_pqc x' /\
    p_ephemeral x ++ p_nonce x ++ be_bytes 8 (p_timestamp x)
    = p_ephemeral x' ++ p_nonce x' ++ be_bytes 8 (p_timestamp x')) as [Eq HH'].
  { destruct (p_pqc x), (p_pqc x'); cbn [default id] in HH;
      [|destruct Q1; congruence|destruct Q2; congruence|done].
    apply app_inj_zlen in HH as [-> HH]; [done|lia]. }
  apply app_inj_zlen in HH' as [Ee HH']; [|lia]. apply app_inj_zlen in HH' as [En HH']; [|lia].
  apply u64_bytes_inj in HH'; [|done..]. split; [done|by apply party_eq].
Qed.

(** ** Lemmas: the outer frame *)

Section Frame.
Context {R : Type} `{RngLaws R}.

Lemma sys_fill_cases n (r : R) :
  (exists b r', sys_fill n r = (Ok b, r') /\ zlen b = Z.max 0 n /\ bytes_ok b) \/
  exists r', sys_fill n r = (Err (Crypto "ring operation failed"), r').
Proof.
  destruct (sys_fill n r) as [[b|e|] r'] eqn:E.
  - left. exists b, r'. split; [done|]. by apply sys_fill_ok in E.
  - unfold sys_fill in E. destruct (rng_fill n r) as [[?|] ?]; [done|].
    injection E as <- <-. by right; eexists.
  - unfold sys_fill in E. by destruct (rng_fill n r) as [[?|] ?].
Qed.

Lemma tail_bytes l : Forall (fun b => b = 32 \/ b = 9) (map tail_byte l).
Proof.
  apply Forall_map, Forall_true. intros x. unfold tail_byte. simpl. case_if; auto.
Qed.

Lemma frame_cases (to_vec : Hello -> result bytes) hello n (r : R) :
  0 <= n <= MAX_HANDSHAKE_FRAME_TAIL_BYTES ->
  exists o r', serialize_hello_frame_with_padding_len to_vec hello n r = (o, r') /\
    match o with
    | Ok f => exists json tail, to_vec hello = Ok json /\ f = json ++ tail /\ zlen tail = n /\
                Forall (fun b => b = 32 \/ b = 9) tail
    | Err e => to_vec hello = Err e \/ e = Crypto "ring operation failed"
    | Panic => to_vec hello = Panic
    end.
Proof.
  intros Hn. unfold serialize_hello_frame_with_padding_len.
  rewrite (proj2 (Z.ltb_ge _ _)) by lia.
  destruct (to_vec hello) as [json|e|]; cbn [sbind]; [|do 2 eexists; (split; [done|]); simpl; auto..].
  destruct (Z.eqb_spec n 0) as [->|].
  { do 2 eexists. split; [done|]. exists json, []. by rewrite app_nil_r. }
  destruct (sys_fill_cases MAX_HANDSHAKE_FRAME_TAIL_BYTES r) as [(b & r1 & -> & Hl & _)|[r1 ->]];
    cbn [sbind]; do 2 eexists; (split; [done|]); [|by right].
  do 2 eexists. split; [done|]. split; [done|]. split; [|apply tail_bytes].
  unfold zlen. rewrite length_map. fold (zlen (ztake n b)). rewrite zlen_ztake, Hl.
  unfold MAX_HANDSHAKE_FRAME_TAIL_BYTES in *. lia.
Qed.
End Frame.

(** ** Properties *)

(** C1: an honest handshake agrees on keys.  Two identities with different
    public keys build hellos in the same profile from any randomness, each
    pinning the other; every clock reading is within 300 seconds of the other
    side's timestamp and the X25519 secret is not zero.  Then the client's
    handshake succeeds, the server's handshake on its hello and ciphertext
    succeeds, each side's sending key is the other's receiving key, both hold
    the same transcript hash and each names the other's fingerprint. *)
Theorem handshake_agreement {R} `{RngLaws R, !HashOps, !KexOps, !HashLaws, !KexLaws}
    di si dr sr ki kr p ti tr (ri rr : R) mi mr ri' rr' poli polr ci cr coins :
  identity_of di si ki -> identity_of dr sr kr -> public ki <> public kr ->
  0 <= ti <= u64_max -> 0 <= tr <= u64_max ->
  build_hello_with_profile ki p (Some ti) ri = (Ok mi, ri') ->
  build_hello_with_profile kr p (Some tr) rr = (Ok mr, rr') ->
  pin_for_identity kr ∈ pins poli -> pin_for_identity ki ∈ pins polr ->
  (forall c, c ∈ [at_verify ci; at_pq ci; fst (at_derive ci); snd (at_derive ci)] ->
     fresh c (local_hello mr)) ->
  (forall c, c ∈ [at_verify cr; at_pq cr; fst (at_derive cr); snd (at_derive cr)] ->
     fresh c (local_hello mi)) ->
  derive_shared (local_ephemeral mi) (public (local_ephemeral mr)) <> zreplicate 32 0 ->
  exists ct sti str,
    client_handshake ki poli p (local_hello mr) ci coins mi = Ok (ct, sti) /\
    server_handshake kr polr p (local_hello mi) ct cr mr = Ok str /\
    mirrored sti str /\
    peer_fingerprint_hex sti = fingerprint_hex kr /\ peer_fingerprint_hex str = fingerprint_hex ki.
Proof.
  intros Hki Hkr Hne Hti Htr Bi Br Hpi Hpr Fi Fr Hnz.
  destruct (build_honest _ _ _ _ _ _ _ _ Hki Hti Bi) as (x & Hx & _ & ? & ? & ? & _ & ?).
  destruct (build_honest _ _ _ _ _ _ _ _ Hkr Htr Br) as (y & Hy & _ & ? & ? & ? & ? & ?).
  by apply (honest_run ki kr p x y).
Qed.

(** C2: key derivation authenticates the peer and cannot be downgraded.  For
    any local material (with its 32-byte arrays) and any received hello,
    [verify_and_derive] does not panic; and if it returns a state then the
    hello is of the local profile, fresh at both clock readings, carries a
    signature that Ed25519 accepts over the canonical encoding of its fields
    under a signing key that is pinned together with the identity, the X25519
    secret is not zero, the post-quantum secret and ciphertext are there
    exactly when the profile requires them, and the returned keys are the
    HKDF outputs over both secrets and the transcript of both hellos. *)
Theorem handshake_authenticates `{HashOps, KexOps, !HashLaws, !KexLaws}
    k m h initiator policy now :
  (forall s, pq_shared m = Some s -> zlen s = 32) ->
  verify_and_derive k m h initiator policy now <> Panic /\
  forall st, verify_and_derive k m h initiator policy now = Ok st ->
  exists d local ss ct,
    accepted (m_profile m) h policy (fst now) d /\ fresh (snd now) h /\
    derive_shared (local_ephemeral m) (peer_ephemeral_raw d) <> zreplicate 32 0 /\
    local_party m = Ok local /\ pq_ready (m_profile m) m ss ct /\
    derive_state (m_profile m) initiator local (peer_party h d) ct
      (derive_shared (local_ephemeral m) (peer_ephemeral_raw d) ++ default (zreplicate 32 0) ss)
    = Ok st.
Proof.
  intros Hs. split; [by apply derive_no_panic|]. intros st HD.
  destruct (derive_cases k m h initiator policy now Hs)
    as [[e E]|(d & l & ss & ct & ? & ? & ? & ? & ? & E)]; [congruence|].
  exists d, l, ss, ct. split_and!; congruence || done.
Qed.

(** a hello signature covers every field.  For parties of the shape the
    verifier enforces (32-byte keys and nonce, a 1184-byte post-quantum key
    exactly in the profile that has one) the signed payload always fits its
    1400-byte buffer, and two parties with the same payload are in the same
    profile with the same identity, signing key, post-quantum key, ephemeral
    key, nonce and timestamp: although the fields are concatenated without
    lengths, no two hellos share a signed payload, also across profiles. *)
Theorem signed_payload_binds p p' x x' :
  party_ok p x -> party_ok p' x' ->
  let payload p x := signed_payload p (p_identity x) (p_signing x) (p_pqc x) (p_ephemeral x)
                       (p_nonce x) (p_timestamp x) in
  exists b b', payload p x = Ok b /\ payload p' x' = Ok b' /\ (b = b' -> p = p' /\ x = x').
Proof.
  intros Hx Hx' payload. exists (party_signed_bytes p x), (party_signed_bytes p' x').
  split_and!; [by apply signed_payload_fits, party_signed_len..|].
  by apply party_signed_inj.
Qed.

(** C10: the transcript binds the whole exchange.  Whatever the parts (as long
    as their lengths fit the 64-bit length fields), equal transcripts have the
    same profile, initiator, parties (identity, signing key, post-quantum key,
    ephemeral key, nonce, timestamp) and post-quantum ciphertext: the hasher is
    fed an injective encoding, so nothing can be moved between fields. *)
Theorem transcript_binds p i x y ct p' i' x' y' ct' :
  zlen i <= u64_max -> zlen i' <= u64_max -> party_fits x -> party_fits y ->
  party_fits x' -> party_fits y' -> opt_len ct <= u64_max -> opt_len ct' <= u64_max ->
  transcript p i x y ct = transcript p' i' x' y' ct' <->
  (p, i, x, y, ct) = (p', i', x', y', ct').
Proof.
  intros. split; [|by intros [= -> -> -> -> ->]].
  intros E. apply transcript_inj in E as (-> & -> & -> & -> & ->); done.
Qed.

(** The outer hello frame.  For any JSON encoder, a successful serialisation
    is the encoder's output followed by at most 64 bytes, each a space or a tab
    (so no line feed is added to the line-delimited transport), it never panics,
    and it fails only where the encoder or the generator does. *)
Theorem hello_frame_tail {R} `{RngLaws R} (to_vec : Hello -> result bytes) hello (r : R) :
  (forall h, no_panic (to_vec h)) ->
  no_panic (serialize_hello_frame to_vec hello r).1 /\
  (forall f, (serialize_hello_frame to_vec hello r).1 = Ok f ->
   exists json tail, to_vec hello = Ok json /\ f = json ++ tail /\
     zlen tail <= MAX_HANDSHAKE_FRAME_TAIL_BYTES /\ Forall (fun b => b = 32 \/ b = 9) tail) /\
  (forall e, (serialize_hello_frame to_vec hello r).1 = Err e ->
   to_vec hello = Err e \/ e = Crypto "ring operation failed").
Proof.
  intros Hj. unfold serialize_hello_frame.
  destruct (sys_fill_cases 1 r) as [(f & r1 & -> & Hf & Hb)|[r1 ->]]; cbn [sbind fst];
    [|split; [done|split; [done|intros e [= <-]; by right]]].
  destruct (index_ok f 0) as (a & -> & _); [lia|]. cbn [sbind].
  destruct (frame_cases to_vec hello (a mod (MAX_HANDSHAKE_FRAME_TAIL_BYTES + 1)) r1)
    as (o & r2 & -> & Ho).
  { unfold MAX_HANDSHAKE_FRAME_TAIL_BYTES. pose proof (Z.mod_pos_bound a (64 + 1)). lia. }
  cbn [fst]. destruct o as [g|e|]; [|split; [done|split; [done|intros ? [= <-]; by apply Ho]]|].
  - split; [done|]. split; [|done]. intros ? [= <-].
    destruct Ho as (json & tail & ? & -> & ? & ?). exists json, tail. split_and!; try done.
    unfold MAX_HANDSHAKE_FRAME_TAIL_BYTES in *. pose proof (Z.mod_pos_bound a (64 + 1)). lia.
  - by destruct (Hj hello).
Qed.

(** ** Witnesses *)

Module Witnesses.
Import Toy.

Definition alice : IdentityKeyPair := from_seeds (zreplicate 32 1) (zreplicate 32 2).
Definition bob : IdentityKeyPair := from_seeds (zreplicate 32 3) (zreplicate 32 4).
Definition no_material : HandshakeMaterial :=
  mkHandshakeMaterial alice [] ClassicalLab None
    (mkHello "" ClassicalLab "" "" None None "" "" 0 "") None None.
Definition built (k : IdentityKeyPair) (ts r : Z) : HandshakeMaterial :=
  match (build_hello_with_profile k SecureDefault (Some ts) r).1 with
  | Ok m => m
  | _ => no_material
  end.
Definition alice_material : HandshakeMaterial := Eval vm_compute in built alice 1000 5.
Definition bob_material : HandshakeMaterial := Eval vm_compute in built bob 1010 50.
Definition at_once : Readings := mkReadings (Some 1020) (Some 1020) (Some 1020, Some 1020).
Definition knows (k : IdentityKeyPair) : PeerPolicy := PeerPolicy_single (pin_for_identity k).

Lemma fresh_at_once m c :
  c ∈ [at_verify at_once; at_pq at_once; fst (at_derive at_once); snd (at_derive at_once)] ->
  abs_diff 1020 (timestamp_secs (local_hello m)) <= 300 -> fresh c (local_hello m).
Proof. intros Hc Hm. exists 1020. split; [simpl in Hc; set_solver|done]. Qed.

Lemma handshake_agreement_witness :
  exists ct sti str,
    client_handshake alice (knows bob) SecureDefault (local_hello bob_material) at_once [9] alice_material
    = Ok (ct, sti) /\
    server_handshake bob (knows alice) SecureDefault (local_hello alice_material) ct at_once bob_material
    = Ok str /\
    mirrored sti str /\
    peer_fingerprint_hex sti = fingerprint_hex bob /\ peer_fingerprint_hex str = fingerprint_hex alice.
Proof.
  apply (handshake_agreement (zreplicate 32 1) (zreplicate 32 2) (zreplicate 32 3) (zreplicate 32 4)
    alice bob SecureDefault 1000 1010 5 50 alice_material bob_material 9 54).
  - split; [reflexivity|split; vm_compute; reflexivity].
  - split; [reflexivity|split; vm_compute; reflexivity].
  - vm_compute; discriminate.
  - split; vm_compute; discriminate.
  - split; vm_compute; discriminate.
  - vm_compute; reflexivity.
  - vm_compute; reflexivity.
  - by left.
  - by left.
  - intros c Hc. apply fresh_at_once; [exact Hc|vm_compute; discriminate].
  - intros c Hc. apply fresh_at_once; [exact Hc|vm_compute; discriminate].
  - vm_compute; discriminate.
Defined.

Definition lab_material (k : IdentityKeyPair) (ts r : Z) : HandshakeMaterial :=
  match (build_hello_with_profile k ClassicalLab (Some ts) r).1 with
  | Ok m => m
  | _ => no_material
  end.

Lemma handshake_authenticates_witness :
  let derived := verify_and_derive alice (lab_material alice 1000 5)
                   (local_hello (lab_material bob 1010 50)) true (knows bob) (Some 1020, Some 1020) in
  is_ok derived = true /\ derived <> Panic.
Proof.
  split; [vm_compute; reflexivity|].
  apply (handshake_authenticates alice (lab_material alice 1000 5)
    (local_hello (lab_material bob 1010 50)) true (knows bob) (Some 1020, Some 1020)).
  discriminate.
Defined.

Definition some_party (n : Z) : Party :=
  mkParty (zreplicate 32 n) (zreplicate 32 2) None (zreplicate 32 3) (zreplicate 32 4) 5.

Lemma signed_payload_binds_witness :
  exists b b',
    signed_payload ClassicalLab (zreplicate 32 1) (zreplicate 32 2) None (zreplicate 32 3) (zreplicate 32 4) 5 = Ok b /\
    signed_payload ClassicalLab (zreplicate 32 7) (zreplicate 32 2) None (zreplicate 32 3) (zreplicate 32 4) 5 = Ok b' /\
    (b = b' -> ClassicalLab = ClassicalLab /\ some_party 1 = some_party 7).
Proof.
  apply (signed_payload_binds ClassicalLab ClassicalLab (some_party 1) (some_party 7));
    (split_and!; first [reflexivity|vm_compute; discriminate]).
Defined.

Lemma transcript_binds_witness :
  transcript ClassicalLab [1] (some_party 1) (some_party 2) None
  = transcript ClassicalLab [1] (some_party 1) (some_party 2) (Some []) <->
  (ClassicalLab, [1], some_party 1, some_party 2, @None bytes)
  = (ClassicalLab, [1], some_party 1, some_party 2, Some []).
Proof.
  apply (transcript_binds ClassicalLab [1] (some_party 1) (some_party 2) None
    ClassicalLab [1] (some_party 1) (some_party 2) (Some []));
    try (vm_compute; discriminate); split_and!; vm_compute; discriminate.
Defined.

Lemma hello_frame_tail_witness :
  let frame := (serialize_hello_frame (fun _ => Ok [123; 125]) (local_hello no_material) 3).1 in
  frame = Ok [123; 125; 32; 32; 32] /\ no_panic frame.
Proof.
  split; [vm_compute; reflexivity|].
  apply (hello_frame_tail (fun _ => Ok [123; 125]) (local_hello no_material) 3).
  intros h. discriminate.
Defined.
End Witnesses.
