(* ===== verification/TcpIo.v ===== *)
(** Deadline-bounded reads and writes on a TCP stream
    (shph-transport/src/lib.rs): whole buffers, lines, cookie lines and
    post-quantum ciphertext frames, as the handshake and the policy exchange use
    them.  A passed deadline is a [Failed IoTimedOut] event of the schedule. *)
From S2P Require Import Prelude Error Text Primitives Replay.
From S2P Require Import Obfuscation SessionCrypto PhantomOne TcpTransport Handshake.

Definition COOKIE_CHALLENGE_PREFIX : bytes := str_bytes "SHPH-COOKIE-CHALLENGE ".
Definition COOKIE_RESPONSE_PREFIX : bytes := str_bytes "SHPH-COOKIE-RESPONSE ".
Definition MAX_COOKIE_LINE_BYTES : Z := 128.
Definition MAX_HELLO_BYTES : Z := 16 * 1024.

(** [map_io_error] of an interrupted system call: these loops do not retry. *)
Definition interrupted_error : ShphError := map_io_error (IoOther "Interrupted system call (os error 4)").

(** ** Reading *)

(** The loop of [read_exact_or_closed_with_deadline] with [buf] read so far.
    [None]: still blocked in [read] when the schedule ends. *)
Fixpoint read_exact_loop (events : list ReadEvent) (inflight buf : bytes) (len : Z)
  : option (result bytes) * RxStream :=
  if len <=? zlen buf then (Some (Ok buf), mkRxStream inflight events)
  else
    match events with
    | [] => (None, mkRxStream inflight [])
    | Interrupted :: events => (Some (Err interrupted_error), mkRxStream inflight events)
    | Failed kind :: events => (Some (Err (map_io_error kind)), mkRxStream inflight events)
    | Deliver k :: events =>
        let chunk := ztake (Z.min k (len - zlen buf)) inflight in
        if zlen chunk =? 0 then (Some (Err ConnectionClosed), mkRxStream inflight events)
        else read_exact_loop events (zdrop (zlen chunk) inflight) (buf ++ chunk) len
    end.

Definition read_exact (len : Z) (s : RxStream) : option (result bytes) * RxStream :=
  read_exact_loop (rx_events s) (rx s) [] len.

(** [while buf.last() is '\n' or '\r' { buf.pop(); }], on the reversed line. *)
Fixpoint strip_eol (rev_line : bytes) : bytes :=
  match rev_line with
  | b :: rest => if (b =? 10) || (b =? 13) then strip_eol rest else rev_line
  | [] => []
  end.

Definition finish_line (buf : bytes) (max_bytes : Z) : result bytes :=
  let line := rev (strip_eol (rev buf)) in
  if max_bytes <? zlen line then Err (Protocol "hello exceeds size limit") else Ok line.

(** The loop of [read_tcp_line_until]: one byte at a time. *)
Fixpoint read_line_loop (events : list ReadEvent) (inflight buf : bytes) (max_bytes : Z)
  : option (result bytes) * RxStream :=
  match events with
  | [] => (None, mkRxStream inflight [])
  | Interrupted :: events => (Some (Err interrupted_error), mkRxStream inflight events)
  | Failed kind :: events => (Some (Err (map_io_error kind)), mkRxStream inflight events)
  | Deliver k :: events =>
      match ztake (Z.min k 1) inflight with
      | [] =>
          (Some (Err (if bool_decide (buf = []) then ConnectionClosed else Protocol "truncated hello")),
           mkRxStream inflight events)
      | byte :: _ =>
          let inflight := zdrop 1 inflight in
          if saturating_add usize_max max_bytes 1 <=? zlen buf
          then (Some (Err (Protocol "hello exceeds size limit")), mkRxStream inflight events)
          else
            let buf := buf ++ [byte] in
            if byte =? 10 then (Some (finish_line buf max_bytes), mkRxStream inflight events)
            else read_line_loop events inflight buf max_bytes
      end
  end.

Definition read_tcp_line (max_bytes : Z) (s : RxStream) : option (result bytes) * RxStream :=
  read_line_loop (rx_events s) (rx s) [] max_bytes.

(** ** Computations on a connection *)

Record Conn := mkConn { c_rx : RxStream; c_tx : TxStream }.

(** A blocking computation on a state; [None]: still blocked. *)
Definition IO (S A : Type) : Type := S -> option (result A) * S.

Definition io_bind {S A B} (m : IO S A) (k : A -> IO S B) : IO S B := fun s =>
  match m s with
  | (Some (Ok a), s) => k a s
  | (Some (Err e), s) => (Some (Err e), s)
  | (Some Panic, s) => (Some Panic, s)
  | (None, s) => (None, s)
  end.
Notation "'let*' x ':=' m 'in' k" := (io_bind m (fun x => k))
  (at level 10, x name, m at level 100, k at level 200) : shph_scope.

Definition io_ret {S A} (r : result A) : IO S A := fun s => (Some r, s).

(** Running on one half of a pair. *)
Definition on_fst {S T A} (m : IO S A) : IO (S * T) A := fun '(s, t) =>
  let '(r, s) := m s in (r, (s, t)).
Definition on_snd {S T A} (f : T -> result A * T) : IO (S * T) A := fun '(s, t) =>
  let '(r, t) := f t in (Some r, (s, t)).

Definition io_read {A} (read : RxStream -> option (result A) * RxStream) : IO Conn A := fun c =>
  let '(r, s) := read (c_rx c) in (r, mkConn s (c_tx c)).

(** [write_tcp_all_or_closed_with_deadline].  Its partial writes are one event
    of the write schedule: all of them succeed, or one fails (with a passed
    deadline as [IoTimedOut] and [Ok(0)] as a closed connection). *)
Definition io_write (data : bytes) : IO Conn unit := fun c =>
  if zlen data <=? 0 then (Some (Ok ()), c)
  else let '(r, s) := write_tcp_all_or_closed data (c_tx c) in (Some r, mkConn (c_rx c) s).

(** [refresh_deadline_timeout] and [flush]. *)
Definition io_flush : IO Conn unit := fun c =>
  let '(r, s) := write_tcp_all_or_closed [] (c_tx c) in (Some r, mkConn (c_rx c) s).

(** ** Lines and frames of the handshake *)

(** [slice::starts_with] and the rest. *)
Definition after_prefix (prefix line : bytes) : option bytes :=
  if bytes_eqb (ztake (zlen prefix) line) prefix then Some (zdrop (zlen prefix) line) else None.

Section Lines.
Context `{KexOps}.

Definition write_tcp_cookie_challenge (cookie : bytes) : IO Conn unit :=
  let* _ok := io_write COOKIE_CHALLENGE_PREFIX in
  let* _ok := io_write (str_bytes (b64_encode cookie)) in
  let* _ok := io_write [10] in
  io_flush.

Definition write_tcp_cookie_response (cookie : bytes) : IO Conn unit :=
  if negb (zlen cookie =? 32) then io_ret (Err (Protocol "cookie response has invalid length"))
  else
    let* _ok := io_write COOKIE_RESPONSE_PREFIX in
    let* _ok := io_write (str_bytes (b64_encode cookie)) in
    let* _ok := io_write [10] in
    io_flush.

Definition decode_cookie (encoded : bytes) (what : string) : result bytes :=
  let? cookie := ok_or (b64_decode (bytes_str encoded)) (Protocol ("invalid cookie " +:+ what +:+ " encoding")) in
  if negb (zlen cookie =? 32) then Err (Protocol ("cookie " +:+ what +:+ " has invalid length")) else Ok cookie.

Definition read_tcp_cookie_response : IO Conn bytes :=
  let* line := io_read (read_tcp_line MAX_COOKIE_LINE_BYTES) in
  match after_prefix COOKIE_RESPONSE_PREFIX line with
  | None => io_ret (Err (Protocol "expected pre-authentication cookie response"))
  | Some encoded => io_ret (decode_cookie encoded "response")
  end.
End Lines.

Definition pq_length_error (what : string) (len : Z) : ShphError :=
  Protocol ("pq ciphertext " +:+ what +:+ " mismatch: expected " +:+ show ML_KEM_768_CIPHERTEXT_BYTES
            +:+ ", got " +:+ show len).

Definition write_tcp_pq_ct (ct : bytes) : IO Conn unit :=
  if negb (zlen ct =? ML_KEM_768_CIPHERTEXT_BYTES) then io_ret (Err (pq_length_error "size" (zlen ct)))
  else
    let* _ok := io_write (be_bytes 4 (cast 32 (zlen ct))) in
    let* _ok := io_write ct in
    io_flush.

Definition read_tcp_pq_ct : IO Conn bytes :=
  let* len_buf := io_read (read_exact 4) in
  let len := be_val len_buf in
  if negb (len =? ML_KEM_768_CIPHERTEXT_BYTES) then io_ret (Err (pq_length_error "length" len))
  else io_read (read_exact len).

(** ** Lemmas: schedules that deliver *)

(** One byte per read. *)
Definition byte_events (inflight : bytes) : list ReadEvent := map (fun _ => Deliver 1) inflight.

Definition delivery (e : ReadEvent) : Prop := match e with Deliver k => 1 <= k | _ => False end.

(** A schedule that delivers all of [inflight], in any segmentation; when
    [exact], one byte per read and no more. *)
Definition feeds (exact : bool) (inflight : bytes) (evs : list ReadEvent) : Prop :=
  Forall delivery evs /\ zlen inflight <= zlen evs /\ (exact = true -> evs = byte_events inflight).

Lemma feeds_bytes exact inflight : feeds exact inflight (byte_events inflight).
Proof.
  split; [|split; [|done]].
  - unfold byte_events. apply Forall_map, Forall_true. cbn. lia.
  - unfold byte_events, zlen. by rewrite length_map.
Qed.

(** One read of at most [m] bytes. *)
Lemma feeds_step exact inflight evs m : 1 <= m -> inflight <> [] -> feeds exact inflight evs ->
  exists k evs', evs = Deliver k :: evs' /\ 1 <= k /\
    let n := zlen (ztake (Z.min k m) inflight) in
    1 <= n /\ n <= m /\ feeds exact (zdrop n inflight) evs'.
Proof.
  intros Hm Hne (Hd & Hl & He). destruct inflight as [|b inflight]; [done|].
  destruct evs as [|e evs]; [zl|]. apply Forall_cons in Hd as [He1 Hd].
  destruct e as [k| |]; cbn [delivery] in He1; [|done..].
  exists k, evs. split; [done|]. split; [done|]. cbv zeta. set (n := zlen _).
  assert (1 <= n /\ n <= m) as [Hn1 Hn2] by (unfold n; zl).
  split; [done|]. split; [done|]. split; [done|]. split; [zl|].
  intros E. specialize (He E). unfold byte_events in He. cbn [map] in He.
  assert (k = 1) as -> by congruence. injection He as ->.
  assert (n = 1) as -> by (unfold n; zl). done.
Qed.

Lemma read_exact_loop_feeds exact evs data rest buf :
  feeds exact (data ++ rest) evs ->
  exists evs', read_exact_loop evs (data ++ rest) buf (zlen buf + zlen data)
    = (Some (Ok (buf ++ data)), mkRxStream rest evs') /\ feeds exact rest evs'.
Proof.
  revert data buf. induction evs as [|e evs IH]; intros data buf Hf.
  - destruct data as [|b data]; [|destruct Hf as (_ & Hl & _); zl].
    exists []. cbn [read_exact_loop]. rewrite zlen_nil, Z.add_0_r, Z.leb_refl, app_nil_r. done.
  - destruct (decide (data = [])) as [->|Hne].
    { exists (e :: evs). cbn [read_exact_loop]. rewrite zlen_nil, Z.add_0_r, Z.leb_refl, app_nil_r. done. }
    assert (1 <= zlen data) as Hd by (destruct data; [done|zl]).
    destruct (feeds_step exact (data ++ rest) (e :: evs) (zlen data)) as (k & evs' & E & Hk & Hn1 & Hn2 & Hf'); [done| |done|].
    { destruct data; done. }
    injection E as -> <-. cbn [read_exact_loop]. rewrite (proj2 (Z.leb_gt _ _)) by lia.
    replace (zlen buf + zlen data - zlen buf) with (zlen data) by lia.
    set (n := zlen (ztake (Z.min k (zlen data)) (data ++ rest))) in *.
    assert (exists d1 d2, data = d1 ++ d2 /\ zlen d1 = n /\ ztake (Z.min k (zlen data)) (data ++ rest) = d1) as (d1 & d2 & -> & Hd1 & Hc).
    { exists (ztake n data), (zdrop n data). rewrite ztake_zdrop. split; [done|]. split; [zl|].
      assert (n = Z.min k (zlen data)) as -> by (unfold n; zl).
      unfold ztake. rewrite take_app_le; [done|]. unfold zlen in *. lia. }
    rewrite Hc, (proj2 (Z.eqb_neq _ _)) by lia. rewrite <- app_assoc in Hf' |- *.
    rewrite zdrop_app in Hf' |- * by done.
    destruct (IH d2 (buf ++ d1) Hf') as (evs'' & E & Hf''). exists evs''. split; [|done].
    rewrite <- app_assoc in E. rewrite <- E. f_equal. zl.
Qed.

Lemma read_exact_feeds exact evs data rest :
  feeds exact (data ++ rest) evs ->
  exists evs', read_exact (zlen data) (mkRxStream (data ++ rest) evs) = (Some (Ok data), mkRxStream rest evs') /\
    feeds exact rest evs'.
Proof. intros Hf. by destruct (read_exact_loop_feeds exact evs data rest [] Hf) as (evs' & E & ?); eauto. Qed.

Lemma read_line_loop_feeds exact evs line rest buf max_bytes :
  0 <= max_bytes < usize_max -> zlen buf + zlen line <= max_bytes -> 10 ∉ line ->
  feeds exact (line ++ 10 :: rest) evs ->
  exists evs', read_line_loop evs (line ++ 10 :: rest) buf max_bytes
    = (Some (finish_line (buf ++ line ++ [10]) max_bytes), mkRxStream rest evs') /\ feeds exact rest evs'.
Proof.
  intros Hmax. revert evs buf. induction line as [|b line IH]; intros evs buf Hl Hin Hf.
  - destruct (feeds_step exact ([] ++ 10 :: rest) evs 1) as (k & evs' & -> & Hk & _ & _ & Hf'); [done..|].
    exists evs'. cbn [app] in *. cbn [read_line_loop]. rewrite Z.min_r in Hf' |- * by done.
    change (ztake 1 (10 :: rest)) with [10] in *. change (zdrop _ (10 :: rest)) with rest in *.
    cbv beta iota zeta. rewrite Z.eqb_refl.
    unfold saturating_add. rewrite (proj2 (Z.leb_gt _ _)) by zl. done.
  - destruct (feeds_step exact ((b :: line) ++ 10 :: rest) evs 1) as (k & evs' & -> & Hk & _ & _ & Hf'); [done..|].
    apply not_elem_of_cons in Hin as [Hb Hin]. cbn [app] in *. cbn [read_line_loop]. rewrite Z.min_r in Hf' |- * by done.
    change (ztake 1 (b :: line ++ 10 :: rest)) with [b] in *.
    change (zdrop 1 (b :: line ++ 10 :: rest)) with (line ++ 10 :: rest).
    change (zdrop _ (b :: line ++ 10 :: rest)) with (line ++ 10 :: rest) in Hf'. cbv beta iota zeta.
    rewrite (proj2 (Z.eqb_neq b 10)) by congruence.
    unfold saturating_add. rewrite (proj2 (Z.leb_gt _ _)) by zl.
    destruct (IH evs' (buf ++ [b])) as (evs'' & -> & Hf''); [zl|done|done|]. exists evs''.
    by rewrite <- app_assoc.
Qed.

(** ** Lemmas: any schedule *)

(** What a reader took from the stream. *)
Definition consumed (taken : bytes) (s s' : RxStream) : Prop :=
  rx s = taken ++ rx s' /\ exists used, rx_events s = used ++ rx_events s'.

Lemma consumed_nil s : consumed [] s s.
Proof. by split; [|exists []]. Qed.

Lemma consumed_event e evs evs' taken chunk l s' :
  consumed taken (mkRxStream l evs) s' -> evs' = e :: evs ->
  consumed (chunk ++ taken) (mkRxStream (chunk ++ l) evs') s'.
Proof.
  intros [Hr [used He]] ->. cbn [rx rx_events] in *. split; cbn [rx rx_events]; [by rewrite Hr, app_assoc|].
  exists (e :: used). by rewrite He.
Qed.

Lemma consumed_one e evs l : consumed [] (mkRxStream l (e :: evs)) (mkRxStream l evs).
Proof. by split; [|exists [e]]. Qed.

(** The three ways a blocking call ends. *)
Definition reads_exactly {A} (out : option (result A) * RxStream) (value : A) (s' : RxStream) : Prop :=
  out = (Some (Ok value), s').
Definition fails_or_blocks {A} (out : option (result A) * RxStream) (s' : RxStream) : Prop :=
  (exists e, out = (Some (Err e), s')) \/ (out = (None, s') /\ rx_events s' = []).

Lemma read_exact_loop_cases evs inflight buf len : zlen buf <= len ->
  exists taken s', consumed taken (mkRxStream inflight evs) s' /\ zlen (buf ++ taken) <= len /\
    (reads_exactly (read_exact_loop evs inflight buf len) (buf ++ taken) s' /\ zlen (buf ++ taken) = len \/
     fails_or_blocks (read_exact_loop evs inflight buf len) s').
Proof.
  unfold reads_exactly, fails_or_blocks.
  revert inflight buf. induction evs as [|ev evs IH]; intros inflight buf Hb; cbn [read_exact_loop];
    destruct (Z.leb_spec len (zlen buf)) as [Hle|Hlt].
  1,3: eexists [], _; split; [apply consumed_nil|]; rewrite app_nil_r; split; [done|left; split; [done|lia]].
  { eexists [], _; split; [apply consumed_nil|]; rewrite app_nil_r; split; [done|by right; right]. }
  destruct ev as [k| |kind];
    [|eexists [], _; split; [apply consumed_one|]; rewrite app_nil_r; split; [done|right; left; by eexists]..].
  pose proof (chunk_split (Z.min k (len - zlen buf)) inflight) as Hc.
  assert (zlen (ztake (Z.min k (len - zlen buf)) inflight) <= len - zlen buf) as Hn by zl.
  set (chunk := ztake _ _) in *. clearbody chunk. destruct (Z.eqb_spec (zlen chunk) 0).
  { eexists [], _; split; [apply consumed_one|]; rewrite app_nil_r; split; [done|right; left; by eexists]. }
  destruct (IH (zdrop (zlen chunk) inflight) (buf ++ chunk)) as (taken & s' & Hs & Hl & HE); [zl|].
  exists (chunk ++ taken), s'. rewrite <- Hc at 1. rewrite <- app_assoc in Hl, HE. split; [|done].
  by eapply consumed_event.
Qed.

Lemma read_exact_cases len s : 0 <= len ->
  exists taken s', consumed taken s s' /\ zlen taken <= len /\
    (reads_exactly (read_exact len s) taken s' /\ zlen taken = len \/ fails_or_blocks (read_exact len s) s').
Proof. destruct s as [inflight evs]. apply (read_exact_loop_cases evs inflight [] len). Qed.

Definition strip_line (l : bytes) : bytes := rev (strip_eol (rev l)).

Lemma strip_eol_le l : zlen (strip_eol l) <= zlen l.
Proof. induction l as [|b l IH]; cbn [strip_eol]; [done|]. case_if; zl. Qed.

Lemma zlen_rev {A} (l : list A) : zlen (rev l) = zlen l.
Proof. unfold zlen. by rewrite length_rev. Qed.

Lemma finish_line_ok line max_bytes : zlen line <= max_bytes ->
  finish_line (line ++ [10]) max_bytes = Ok (strip_line line) /\ zlen (strip_line line) <= max_bytes.
Proof.
  intros Hl. unfold finish_line, strip_line. rewrite rev_unit. cbn [strip_eol Z.eqb Pos.eqb orb].
  assert (zlen (rev (strip_eol (rev line))) <= max_bytes) as H.
  { rewrite zlen_rev. pose proof (strip_eol_le (rev line)) as H. rewrite zlen_rev in H. lia. }
  by rewrite (proj2 (Z.ltb_ge _ _)).
Qed.

Lemma strip_line_id line b : b <> 13 -> b <> 10 -> strip_line (line ++ [b]) = line ++ [b].
Proof.
  intros. unfold strip_line. rewrite rev_unit. cbn [strip_eol].
  rewrite !(proj2 (Z.eqb_neq _ _)) by done. cbn [orb]. by rewrite <- rev_unit, rev_involutive.
Qed.

Lemma read_line_loop_cases evs inflight buf max_bytes :
  0 <= max_bytes < usize_max -> zlen buf <= max_bytes + 1 -> 10 ∉ buf ->
  exists taken s', consumed taken (mkRxStream inflight evs) s' /\ zlen (buf ++ taken) <= max_bytes + 2 /\
    ((exists line, reads_exactly (read_line_loop evs inflight buf max_bytes) (strip_line line) s' /\
        buf ++ taken = line ++ [10] /\ 10 ∉ line /\ zlen line <= max_bytes) \/
     fails_or_blocks (read_line_loop evs inflight buf max_bytes) s').
Proof.
  unfold reads_exactly, fails_or_blocks. intros Hmax.
  revert inflight buf. induction evs as [|ev evs IH]; intros inflight buf Hb Hin; cbn [read_line_loop].
  { eexists [], _; split; [apply consumed_nil|]; rewrite app_nil_r; split; [lia|by right; right]. }
  destruct ev as [k| |kind];
    [|eexists [], _; split; [apply consumed_one|]; rewrite app_nil_r; split; [lia|right; left; by eexists]..].
  destruct (ztake (Z.min k 1) inflight) as [|b c] eqn:Ec.
  { eexists [], _; split; [apply consumed_one|]; rewrite app_nil_r; split; [lia|right; left; by eexists]. }
  assert (inflight = [b] ++ zdrop 1 inflight) as Hs.
  { destruct inflight as [|b' inflight]; [unfold ztake in Ec; by rewrite take_nil in Ec|].
    unfold ztake in Ec. destruct (Z.to_nat (Z.min k 1)); [done|]. by injection Ec as <- _. }
  set (tail := zdrop 1 inflight) in *. clearbody tail. subst inflight.
  unfold saturating_add. rewrite Z.min_r by lia. destruct (Z.leb_spec (max_bytes + 1) (zlen buf)).
  { exists [b]. eexists. split; [rewrite <- (app_nil_r [b]) at 1; eapply consumed_event; [apply consumed_nil|done]|].
    split; [zl|right; left; by eexists]. }
  destruct (Z.eqb_spec b 10) as [->|Hne].
  { exists [10]. eexists. split; [rewrite <- (app_nil_r [10]) at 1; eapply consumed_event; [apply consumed_nil|done]|].
    split; [zl|]. left. exists buf. destruct (finish_line_ok buf max_bytes) as [-> _]; [lia|].
    split; [done|]. split; [done|]. split; [done|lia]. }
  destruct (IH tail (buf ++ [b])) as (taken & s' & Hs & Hl & HE); [zl| |].
  { rewrite elem_of_app, list_elem_of_singleton. intros [?| ?]; congruence. }
  exists ([b] ++ taken), s'. rewrite <- app_assoc in Hl, HE. split; [|done]. by eapply consumed_event.
Qed.

Lemma read_line_cases max_bytes s : 0 <= max_bytes < usize_max ->
  exists taken s', consumed taken s s' /\ zlen taken <= max_bytes + 2 /\
    ((exists line, reads_exactly (read_tcp_line max_bytes s) (strip_line line) s' /\
        taken = line ++ [10] /\ 10 ∉ line /\ zlen line <= max_bytes) \/
     fails_or_blocks (read_tcp_line max_bytes s) s').
Proof.
  intros Hm. destruct s as [inflight evs].
  apply (read_line_loop_cases evs inflight [] max_bytes); [done|zl|set_solver].
Qed.

Lemma read_line_feeds exact evs line rest max_bytes :
  0 <= max_bytes < usize_max -> zlen line <= max_bytes -> 10 ∉ line ->
  feeds exact (line ++ 10 :: rest) evs ->
  exists evs', read_tcp_line max_bytes (mkRxStream (line ++ 10 :: rest) evs)
    = (Some (Ok (strip_line line)), mkRxStream rest evs') /\ feeds exact rest evs'.
Proof.
  intros Hm Hl Hin Hf. destruct (read_line_loop_feeds exact evs line rest [] max_bytes) as (evs' & E & ?); [done|zl|done..|].
  exists evs'. split; [|done]. unfold read_tcp_line. cbn [rx rx_events]. rewrite E. cbn [app].
  by rewrite (proj1 (finish_line_ok line max_bytes Hl)).
Qed.

Lemma after_prefix_app prefix rest : after_prefix prefix (prefix ++ rest) = Some rest.
Proof. unfold after_prefix. by rewrite ztake_app, bytes_eqb_refl, zdrop_app. Qed.

(** ** Properties *)

(** the readers of the handshake are exact under any schedule of segments,
    interruptions and failures.  A line read takes from the stream one line up
    to its line feed and nothing of what a peer pipelines behind it, returns it
    without its trailing line feeds and carriage returns, and takes at most two
    bytes more than the limit; a fixed-size read takes exactly what it returns.
    Neither panics, and a call is only left blocked when the schedule is over.
    When the bytes are delivered, in whatever segments, they succeed. *)
Theorem tcp_readers_exact max_bytes len s : 0 <= max_bytes < usize_max -> 0 <= len ->
  (exists taken s', consumed taken s s' /\ zlen taken <= max_bytes + 2 /\
     ((exists line, reads_exactly (read_tcp_line max_bytes s) (strip_line line) s' /\
         taken = line ++ [10] /\ 10 ∉ line /\ zlen line <= max_bytes) \/
      fails_or_blocks (read_tcp_line max_bytes s) s')) /\
  (exists taken s', consumed taken s s' /\ zlen taken <= len /\
     (reads_exactly (read_exact len s) taken s' /\ zlen taken = len \/
      fails_or_blocks (read_exact len s) s')) /\
  (forall line rest, feeds false (rx s) (rx_events s) -> 10 ∉ line -> zlen line <= max_bytes ->
     rx s = line ++ 10 :: rest -> exists s', reads_exactly (read_tcp_line max_bytes s) (strip_line line) s' /\ rx s' = rest) /\
  (forall data rest, feeds false (rx s) (rx_events s) -> rx s = data ++ rest -> zlen data = len ->
     exists s', reads_exactly (read_exact len s) data s' /\ rx s' = rest).
Proof.
  intros Hm Hlen. split; [by apply read_line_cases|]. split; [by apply read_exact_cases|].
  destruct s as [inflight evs]. cbn [rx rx_events]. split.
  - intros line rest Hf Hin Hl ->. destruct (read_line_feeds false evs line rest max_bytes) as (evs' & -> & _); [done..|].
    by eexists.
  - intros data rest Hf -> <-. destruct (read_exact_feeds false evs data rest Hf) as (evs' & -> & _). by eexists.
Qed.

(** ** Witnesses *)

Module Witnesses.
(** Two lines in odd segments, the first ended by a carriage return. *)
Definition stream : RxStream := mkRxStream ([104; 105; 13; 10] ++ [1; 2; 3]) [Deliver 3; Deliver 7; Deliver 1; Deliver 1; Deliver 9; Deliver 2; Deliver 1].

Lemma tcp_readers_exact_witness :
  read_tcp_line 4 stream = (Some (Ok [104; 105]), mkRxStream [1; 2; 3] [Deliver 9; Deliver 2; Deliver 1]) /\
  exists s', reads_exactly (read_tcp_line 4 stream) (strip_line [104; 105; 13]) s' /\ rx s' = [1; 2; 3].
Proof.
  split; [vm_compute; reflexivity|].
  destruct (tcp_readers_exact 4 3 stream) as (_ & _ & Hline & _); [split; vm_compute; congruence|vm_compute; congruence|].
  apply Hline; [|set_solver|vm_compute; congruence|reflexivity].
  split; [repeat constructor; vm_compute; congruence|]. split; [vm_compute; congruence|discriminate].
Defined.
End Witnesses.
