(* ===== verification/HelloJson.v ===== *)
(** The JSON of a hello (crate serde_json) as an interface, with the documented
    behaviour the handshake relies on, and a small executable instance (module
    [ToyJson]) that satisfies it. *)
From S2P Require Import Prelude Error Text Primitives Handshake TcpIo.

(** ** JSON (crate serde_json) *)

Class JsonOps := {
  hello_to_vec : Hello -> result bytes;
  hello_from_str : bytes -> result Hello   (* its errors as [Protocol] *)
}.

Definition hello_texts (h : Hello) : list string :=
  [proto h; identity_pub_b64 h; sign_pub_b64 h; default "" (pqc_pub_b64 h); default "" (pqc_ct_b64 h);
   ephemeral_pub_b64 h; nonce_b64 h; sig h].

Definition hello_size (h : Hello) : Z := zlen (mjoin (map str_bytes (hello_texts h))).

(** A hello whose texts are printable ASCII. *)
Definition hello_text (h : Hello) : Prop :=
  Forall (fun s => Forall (fun c => 32 < c < 127) (str_bytes s)) (hello_texts h) /\ 0 <= timestamp_secs h <= u64_max.

(** Compact JSON of such a record: an object on one line of printable ASCII,
    whose text fields are at most escaped character by character, and which
    parses back, whatever JSON white space follows. *)
Class JsonLaws `{JsonOps} := {
  json_total h : hello_text h -> exists json, hello_to_vec h = Ok json;
  json_object h json : hello_text h -> hello_to_vec h = Ok json ->
    (exists rest, json = 123 :: rest) /\ Forall (fun b => 32 <= b < 127) json /\ zlen json <= 512 + 2 * hello_size h;
  json_round_trip h json tail : hello_text h -> hello_to_vec h = Ok json ->
    Forall (fun b => b = 32 \/ b = 9) tail -> hello_from_str (json ++ tail) = Ok h;
  json_no_panic h : no_panic (hello_to_vec h);
  json_parse_no_panic l : no_panic (hello_from_str l)
}.

(** ** An executable instance

    Fields separated by spaces after an opening brace. *)

Module ToyJson.

Fixpoint take_field (l : bytes) : option (bytes * bytes) :=
  match l with
  | [] => None
  | b :: l =>
      if b =? 32 then Some ([], l)
      else match take_field l with Some (f, r) => Some (b :: f, r) | None => None end
  end.

Fixpoint take_fields (n : nat) (l : bytes) : option (list bytes) :=
  match n with
  | O => Some []
  | S n =>
      match take_field l with
      | Some (f, r) => match take_fields n r with Some fs => Some (f :: fs) | None => None end
      | None => None
      end
  end.

Definition put_field (f : bytes) : bytes := f ++ [32].

Definition put_option (o : option string) : bytes :=
  match o with Some s => 49 :: str_bytes s | None => [48] end.
Definition get_option (f : bytes) : option string :=
  match f with b :: s => if b =? 49 then Some (bytes_str s) else None | [] => None end.

Definition hello_fields (h : Hello) : list bytes :=
  [str_bytes (proto h); [match profile h with SecureDefault => 83 | ClassicalLab => 67 end];
   str_bytes (identity_pub_b64 h); str_bytes (sign_pub_b64 h); put_option (pqc_pub_b64 h); put_option (pqc_ct_b64 h);
   str_bytes (ephemeral_pub_b64 h); str_bytes (nonce_b64 h); flat_map hex_pair (be_bytes 8 (timestamp_secs h));
   str_bytes (sig h)].

Definition hello_of_fields (fs : list bytes) : option Hello :=
  match fs with
  | [a; p; b; c; d; e; f; g; t; s] =>
      match unhex t with
      | Some ts =>
          Some (mkHello (bytes_str a) (if bytes_eqb p [83] then SecureDefault else ClassicalLab) (bytes_str b) (bytes_str c)
            (get_option d) (get_option e) (bytes_str f) (bytes_str g) (be_val ts) (bytes_str s))
      | None => None
      end
  | _ => None
  end.

#[export] Instance json : JsonOps := {
  hello_to_vec h := Ok (123 :: flat_map put_field (hello_fields h));
  hello_from_str l :=
    let? l := ok_or (after_prefix [123] l) (Protocol "expected value") in
    let? fs := ok_or (take_fields 10 l) (Protocol "missing field") in
    ok_or (hello_of_fields fs) (Protocol "invalid value")
}.

Lemma take_field_put f rest : 32 ∉ f -> take_field (put_field f ++ rest) = Some (f, rest).
Proof.
  unfold put_field. induction f as [|b f IH]; intros Hf; [done|]. apply not_elem_of_cons in Hf as [Hb Hf].
  cbn [app take_field]. rewrite (proj2 (Z.eqb_neq _ _)) by congruence. by rewrite IH.
Qed.

Lemma take_fields_put fs rest : Forall (fun f => 32 ∉ f) fs ->
  take_fields (length fs) (flat_map put_field fs ++ rest) = Some fs.
Proof.
  induction 1 as [|f fs Hf Hfs IH]; [done|]. cbn [length flat_map take_fields].
  by rewrite <- app_assoc, take_field_put, IH.
Qed.

Definition visible (f : bytes) : Prop := Forall (fun c => 32 < c < 127) f.

Lemma visible_no_space f : visible f -> 32 ∉ f.
Proof. intros Hf Hin. unfold visible in Hf. rewrite Forall_forall in Hf. apply Hf in Hin. lia. Qed.

Lemma put_option_visible o : visible (str_bytes (default "" o)) -> visible (put_option o).
Proof. intros Ho. destruct o as [s|]; cbn in *; [constructor; [lia|done]|constructor; [lia|constructor]]. Qed.

Lemma get_put_option o : get_option (put_option o) = o.
Proof. destruct o as [s|]; [|done]. cbn. by rewrite bytes_str_bytes. Qed.

Lemma hello_fields_visible h : hello_text h -> Forall visible (hello_fields h).
Proof.
  intros [Ht Hts]. unfold hello_texts in Ht. rewrite !Forall_cons in Ht. destruct Ht as (H1 & H2 & H3 & H4 & H5 & H6 & H7 & H8 & _).
  assert (visible [match profile h with SecureDefault => 83 | ClassicalLab => 67 end]) as Hp.
  { destruct (profile h); (constructor; [lia|constructor]). }
  assert (visible (flat_map hex_pair (be_bytes 8 (timestamp_secs h)))) as Hx.
  { eapply Forall_impl; [apply hex_pairs_ascii, be_bytes_ok|]. cbn. lia. }
  unfold hello_fields.
  repeat (apply Forall_cons_2; [first [exact Hp|exact Hx|by apply put_option_visible|done]|]). constructor.
Qed.

Lemma hello_of_hello_fields h : 0 <= timestamp_secs h <= u64_max -> hello_of_fields (hello_fields h) = Some h.
Proof.
  intros Hts. unfold hello_fields, hello_of_fields. rewrite unhex_pairs by apply be_bytes_ok.
  rewrite be_val_be_bytes by (unfold u64_max in Hts; cbn; lia). rewrite !bytes_str_bytes, !get_put_option.
  destruct h as [a p b c d e f g t s]. cbn. by destruct p.
Qed.

Lemma zlen_put_option o : zlen (put_option o) = 1 + zlen (str_bytes (default "" o)).
Proof. destruct o as [s|]; [|done]. cbn [put_option default id]. by rewrite zlen_cons. Qed.

#[export] Instance json_laws : JsonLaws.
Proof.
  split; cbn [hello_to_vec hello_from_str json].
  - intros h _. by eexists.
  - intros h j Ht E. assert (j = 123 :: flat_map put_field (hello_fields h)) as -> by congruence. clear E. split; [by eexists|]. split.
    + constructor; [lia|]. pose proof (hello_fields_visible h Ht) as Hv. induction Hv as [|f fs Hf _ IH]; [constructor|].
      cbn [flat_map]. apply Forall_app. split; [|exact IH]. unfold put_field. apply Forall_app.
      split; [eapply Forall_impl; [exact Hf|cbn; lia]|constructor; [lia|constructor]].
    + unfold hello_fields, hello_size, hello_texts, put_field. cbn [flat_map map mjoin list_join].
      rewrite zlen_cons, !zlen_app, !zlen_put_option, zlen_hex_pairs, zlen_be_bytes.
      change (zlen [32]) with 1. change (@zlen Z []) with 0.
      assert (zlen [match profile h with SecureDefault => 83 | ClassicalLab => 67 end] = 1) as -> by done.
      zlen_pos. lia.
  - intros h j tail Ht E _. assert (j = [123] ++ flat_map put_field (hello_fields h)) as -> by (cbn [app]; congruence). rewrite <- app_assoc.
    clear E. pose proof (take_fields_put (hello_fields h) tail) as E. change (length (hello_fields h)) with 10%nat in E.
    rewrite (after_prefix_app [123]). cbn [ok_or rbind]. rewrite E by (eapply Forall_impl; [by apply hello_fields_visible|apply visible_no_space]).
    cbn [ok_or rbind]. by rewrite hello_of_hello_fields by apply Ht.
  - done.
  - intros l. destruct (after_prefix [123] l) as [l'|]; cbn [ok_or rbind]; [|done].
    destruct (take_fields 10 l') as [fs|]; cbn [ok_or rbind]; [|done]. by destruct (hello_of_fields fs).
Qed.
End ToyJson.
