(* ===== verification/Dialogue.v ===== *)
(** Conversations over a connection: blocking computations followed step by
    step under any segmentation of what they read, and the rounds of two
    programs that answer each other. *)
From S2P Require Import Prelude Error Primitives TcpTransport TcpIo.

(** ** Computations step by step

    [steps m f g inp out v]: whatever the segmentation, [m] reads exactly [inp],
    writes [out] and returns [v], going from the states [f c] to [g c'];
    [waits]: it reads all of [inp], writes [out] and blocks. *)

Definition conn_at (inflight : bytes) (evs : list ReadEvent) (tx : bytes) : Conn :=
  mkConn (mkRxStream inflight evs) (mkTxStream tx []).

Definition steps {S A} (m : IO S A) (f g : Conn -> S) (inp out : bytes) (v : A) : Prop :=
  forall exact rest evs tx, feeds exact (inp ++ rest) evs ->
  exists evs', m (f (conn_at (inp ++ rest) evs tx)) = (Some (Ok v), g (conn_at rest evs' (tx ++ out))) /\
    feeds exact rest evs'.

(** States that hold a connection. *)
Class HasConn (S : Type) := conn_of : S -> Conn.
#[export] Instance conn_itself : HasConn Conn := fun c => c.
#[export] Instance conn_beside T : HasConn (Conn * T) := fst.

Definition waits {S A} `{HasConn S} (m : IO S A) (f : Conn -> S) (inp out : bytes) : Prop :=
  forall tx, exists s, m (f (conn_at inp (byte_events inp) tx)) = (None, s) /\ conn_of s = conn_at [] [] (tx ++ out).

Definition beside {T} (t : T) (c : Conn) : Conn * T := (c, t).

Section Steps.
Context {S : Type} `{HasConn S}.
Implicit Types f g h : Conn -> S.

Lemma steps_ret {A} f (v : A) : steps (io_ret (Ok v)) f f [] [] v.
Proof. intros exact rest evs tx Hf. exists evs. by rewrite app_nil_r. Qed.

Lemma steps_ok {A} f (o : result A) v : o = Ok v -> steps (io_ret o) f f [] [] v.
Proof. intros ->. apply steps_ret. Qed.

Lemma steps_bind {A B} (m : IO S A) (k : A -> IO S B) f g h i1 i2 o1 o2 v w :
  steps m f g i1 o1 v -> steps (k v) g h i2 o2 w ->
  steps (io_bind m k) f h (i1 ++ i2) (o1 ++ o2) w.
Proof.
  intros Hm Hk exact rest evs tx Hf. rewrite <- app_assoc in Hf |- *.
  destruct (Hm exact _ _ tx Hf) as (evs1 & E1 & Hf1). destruct (Hk exact _ _ (tx ++ o1) Hf1) as (evs2 & E2 & Hf2).
  exists evs2. unfold io_bind. by rewrite E1, E2, app_assoc.
Qed.

(** A step that reads and writes nothing. *)
Lemma steps_then {A B} (m : IO S A) (k : A -> IO S B) f g h i o v w :
  steps m f g [] [] v -> steps (k v) g h i o w -> steps (io_bind m k) f h i o w.
Proof. apply (steps_bind m k f g h [] i [] o). Qed.

Lemma waits_here {A B} (m : IO S A) (k : A -> IO S B) f i o :
  waits m f i o -> waits (io_bind m k) f i o.
Proof. intros Hm tx. destruct (Hm tx) as (s & E & ?). exists s. unfold io_bind. by rewrite E. Qed.

Lemma waits_bind {A B} (m : IO S A) (k : A -> IO S B) f g i1 i2 o1 o2 v :
  steps m f g i1 o1 v -> waits (k v) g i2 o2 -> waits (io_bind m k) f (i1 ++ i2) (o1 ++ o2).
Proof.
  intros Hm Hk tx.
  destruct (Hm true i2 _ tx (feeds_bytes true _)) as (evs1 & E1 & (_ & _ & Hx)). rewrite (Hx eq_refl) in E1.
  destruct (Hk (tx ++ o1)) as (s & E2 & ?). exists s. unfold io_bind. by rewrite E1, E2, app_assoc.
Qed.

Lemma waits_then {A B} (m : IO S A) (k : A -> IO S B) f g i o v :
  steps m f g [] [] v -> waits (k v) g i o -> waits (io_bind m k) f i o.
Proof. apply (waits_bind m k f g [] i [] o). Qed.
End Steps.

Lemma steps_fst {T A} (m : IO Conn A) (t : T) i o v :
  steps m (fun c => c) (fun c => c) i o v -> steps (on_fst m) (beside t) (beside t) i o v.
Proof.
  intros Hm exact rest evs tx Hf. destruct (Hm exact rest evs tx Hf) as (evs' & E & ?). exists evs'.
  unfold on_fst, beside. by rewrite E.
Qed.

Lemma waits_fst {T A} (m : IO Conn A) (t : T) i o :
  waits m (fun c => c) i o -> waits (on_fst m) (beside t) i o.
Proof.
  intros Hm tx. destruct (Hm tx) as (c & E & ?). exists (c, t). unfold on_fst, beside. by rewrite E.
Qed.

Lemma steps_snd {T A} (f : T -> result A * T) t t' (v : A) :
  f t = (Ok v, t') -> steps (on_snd f) (beside t) (beside t') [] [] v.
Proof. intros E exact rest evs tx Hf. exists evs. unfold on_snd, beside. by rewrite E, app_nil_r. Qed.

(** ** Lemmas: the primitives of a connection *)

Lemma steps_write data : data <> [] -> steps (io_write data) (fun c => c) (fun c => c) [] data ().
Proof.
  intros Hne exact rest evs tx Hf. exists evs. unfold io_write, conn_at. destruct data as [|b data]; [done|].
  rewrite (proj2 (Z.leb_gt _ _)) by zl. done.
Qed.

Lemma steps_flush : steps io_flush (fun c => c) (fun c => c) [] [] ().
Proof. intros exact rest evs tx Hf. by exists evs. Qed.

Lemma steps_line max_bytes line : 0 <= max_bytes < usize_max -> zlen line <= max_bytes -> 10 ∉ line ->
  strip_line line = line ->
  steps (io_read (read_tcp_line max_bytes)) (fun c => c) (fun c => c) (line ++ [10]) [] line.
Proof.
  intros Hm Hl Hin Hs exact rest evs tx Hf. rewrite <- app_assoc in Hf |- *.
  destruct (read_line_feeds exact evs line rest max_bytes) as (evs' & E & ?); [done..|]. exists evs'.
  split; [|done]. unfold io_read, conn_at. cbn [c_rx c_tx app] in *. by rewrite E, Hs, app_nil_r.
Qed.

Lemma steps_exact data : steps (io_read (read_exact (zlen data))) (fun c => c) (fun c => c) data [] data.
Proof.
  intros exact rest evs tx Hf. destruct (read_exact_feeds exact evs data rest Hf) as (evs' & E & ?). exists evs'.
  split; [|done]. unfold io_read, conn_at. cbn [c_rx c_tx]. by rewrite E, app_nil_r.
Qed.

Lemma waits_line max_bytes : waits (io_read (read_tcp_line max_bytes)) (fun c => c) [] [].
Proof. intros tx. eexists. by rewrite app_nil_r. Qed.

Lemma waits_exact len : 0 < len -> waits (io_read (read_exact len)) (fun c => c) [] [].
Proof.
  intros Hl tx. eexists. unfold io_read, read_exact, conn_at. cbn [c_rx rx rx_events byte_events map read_exact_loop].
  rewrite zlen_nil, (proj2 (Z.leb_gt _ _)), app_nil_r by done. done.
Qed.

(** ** The dialogue *)

(** What a program answers to the bytes received so far. *)
Definition outcome_on {T A} (m : IO (Conn * T) A) (t : T) (received : bytes) : option (result A) * bytes :=
  let '(out, (c, _)) := m (beside t (conn_at received (byte_events received) [])) in (out, tx (c_tx c)).

(** One round: the client on what the server has sent, and the server on that. *)
Definition dialogue_round {T U A B} (client : IO (Conn * T) A) (t : T) (worker : IO (Conn * U) B) (u : U)
    (server_sent : bytes) : bytes :=
  (outcome_on worker u (outcome_on client t server_sent).2).2.

Lemma outcome_steps {T A} (m : IO (Conn * T) A) t t' inp out v :
  steps m (beside t) (beside t') inp out v -> outcome_on m t inp = (Some (Ok v), out).
Proof.
  intros Hm. destruct (Hm true [] (byte_events inp) []) as (evs' & E & _); [rewrite app_nil_r; apply feeds_bytes|].
  rewrite app_nil_r in E. unfold outcome_on. by rewrite E.
Qed.

Lemma outcome_waits {T A} (m : IO (Conn * T) A) t inp out :
  waits m (beside t) inp out -> outcome_on m t inp = (None, out).
Proof.
  intros Hm. destruct (Hm []) as ((c & t') & E & Hc). unfold outcome_on. rewrite E.
  unfold conn_of, conn_beside in Hc. cbn [fst] in Hc. by subst c.
Qed.

(** ** Any peer and any schedule

    [keeps m s n Q]: [m] started in [s] does not panic, writes at most [n]
    bytes, and when it returns a value, [Q] holds of it and of the final state. *)

Definition sent_by {S} `{HasConn S} (s : S) : bytes := tx (c_tx (conn_of s)).
Definition received_by {S} `{HasConn S} (s : S) : bytes := rx (c_rx (conn_of s)).

Definition keeps {S A} `{HasConn S} (m : IO S A) (s : S) (n : Z) (Q : A -> S -> Prop) : Prop :=
  (m s).1 <> Some Panic /\
  (exists w, sent_by (m s).2 = sent_by s ++ w /\ zlen w <= n) /\
  forall v, (m s).1 = Some (Ok v) -> Q v (m s).2.

Section Keeps.
Context {S : Type} `{HasConn S}.
Implicit Types s : S.

Lemma keeps_bind {A B} (m : IO S A) (k : A -> IO S B) s n1 n2 P Q :
  0 <= n2 -> keeps m s n1 P -> (forall v s', P v s' -> keeps (k v) s' n2 Q) -> keeps (io_bind m k) s (n1 + n2) Q.
Proof.
  intros Hn (Hp & (w & Hw & Hl) & HP) Hk. unfold keeps, io_bind.
  destruct (m s) as [[[v|e|]|] s1]; cbn [fst snd] in *; [| |done|].
  - destruct (Hk v s1 (HP v eq_refl)) as (Hp2 & (w2 & Hw2 & Hl2) & HQ). split; [done|]. split; [|done].
    exists (w ++ w2). rewrite Hw2, Hw, app_assoc. split; [done|zl].
  - split; [done|]. split; [|done]. exists w. split; [done|lia].
  - split; [done|]. split; [|done]. exists w. split; [done|lia].
Qed.

(** A step that writes nothing. *)
Lemma keeps_then {A B} (m : IO S A) (k : A -> IO S B) s n P Q :
  0 <= n -> keeps m s 0 P -> (forall v s', P v s' -> keeps (k v) s' n Q) -> keeps (io_bind m k) s n Q.
Proof. apply (keeps_bind m k s 0 n). Qed.

Lemma keeps_ret {A} (r : result A) s n (Q : A -> S -> Prop) :
  0 <= n -> no_panic r -> (forall v, r = Ok v -> Q v s) -> keeps (io_ret r) s n Q.
Proof.
  intros Hn Hp HQ. split; [intros [= E]; by destruct Hp|]. split; [exists []; by rewrite app_nil_r|].
  intros v [= E]. by apply HQ.
Qed.

Lemma keeps_weaken {A} (m : IO S A) s n n' (P Q : A -> S -> Prop) :
  keeps m s n P -> n <= n' -> (forall v s', P v s' -> Q v s') -> keeps m s n' Q.
Proof.
  intros (Hp & (w & Hw & Hl) & HP) Hn HQ. split; [done|]. split; [exists w; split; [done|lia]|auto].
Qed.
End Keeps.

Lemma keeps_fst {T A} (m : IO Conn A) c (t : T) n (P : A -> Conn -> Prop) :
  keeps m c n P -> keeps (on_fst m) (c, t) n (fun v s' => P v s'.1 /\ s'.2 = t).
Proof.
  unfold keeps, on_fst, sent_by, conn_of, conn_beside, conn_itself. destruct (m c) as [r c']. cbn [fst snd].
  intros (Hp & Hw & HP). split; [done|]. split; [done|]. intros v ->. split; [by apply HP|done].
Qed.

Lemma keeps_snd {T A} (f : T -> result A * T) c t (Q : A -> T -> Prop) :
  no_panic (f t).1 -> (forall v t', f t = (Ok v, t') -> Q v t') ->
  keeps (on_snd f) (c, t) 0 (fun v s' => s'.1 = c /\ Q v s'.2).
Proof.
  unfold keeps, on_snd. intros Hp HQ. destruct (f t) as [r t']. cbn [fst snd] in *.
  split; [intros [= E]; by destruct Hp|]. split; [exists []; by rewrite app_nil_r|].
  intros v [= ->]. split; [done|by apply HQ].
Qed.

(** Writes leave the unread bytes alone. *)
Lemma keeps_write data c : keeps (io_write data) c (zlen data) (fun _ c' => received_by c' = received_by c).
Proof.
  unfold keeps, io_write, sent_by, received_by, conn_of, conn_itself, write_tcp_all_or_closed.
  case_if; [|destruct (tx_events (c_tx c)) as [|[|n kind] evs]]; cbn [fst snd c_tx c_rx tx rx]; split; try done;
    split; try done; eexists; try done.
  - rewrite app_nil_r. split; [done|]. apply zlen_nonneg.
  - split; [done|]. zl.
Qed.

Lemma keeps_flush c : keeps io_flush c 0 (fun _ c' => received_by c' = received_by c).
Proof.
  unfold keeps, io_flush, sent_by, received_by, conn_of, conn_itself, write_tcp_all_or_closed.
  destruct (tx_events (c_tx c)) as [|[|n kind] evs]; cbn [fst snd c_tx c_rx tx rx]; split; try done;
    split; try done; eexists; (split; [done|]); unfold ztake; rewrite ?take_nil; done.
Qed.

Lemma keeps_line max_bytes c : 0 <= max_bytes < usize_max ->
  keeps (io_read (read_tcp_line max_bytes)) c 0 (fun v c' =>
    exists line, v = strip_line line /\ received_by c = line ++ [10] ++ received_by c' /\ sent_by c' = sent_by c).
Proof.
  intros Hm. unfold keeps, io_read, sent_by, received_by, conn_of, conn_itself.
  destruct (read_line_cases max_bytes (c_rx c) Hm) as (taken & s' & [Hr _] & _ & HE).
  unfold reads_exactly, fails_or_blocks in HE. destruct HE as [(line & -> & -> & _ & _)|[[e ->]|[-> _]]]; cbn [fst snd c_tx c_rx]; (split; [done|]);
    (split; [exists []; by rewrite app_nil_r|]); try done.
  intros v [= <-]. exists line. by rewrite Hr, <- app_assoc.
Qed.

Lemma keeps_exact len c : 0 <= len ->
  keeps (io_read (read_exact len)) c 0 (fun v c' =>
    zlen v = len /\ received_by c = v ++ received_by c' /\ sent_by c' = sent_by c).
Proof.
  intros Hm. unfold keeps, io_read, sent_by, received_by, conn_of, conn_itself.
  destruct (read_exact_cases len (c_rx c) Hm) as (taken & s' & [Hr _] & _ & HE).
  unfold reads_exactly, fails_or_blocks in HE. destruct HE as [[-> Hl]|[[e ->]|[-> _]]]; cbn [fst snd c_tx c_rx]; (split; [done|]);
    (split; [exists []; by rewrite app_nil_r|]); try done. by intros v [= <-].
Qed.
