(* ===== verification/TcpHandshake.v ===== *)
(** The handshake over a TCP stream (shph-transport/src/lib.rs): hello lines,
    the client ([tcp_handshake_on_connected_stream]) and the server's worker
    ([TcpHandshakeWorker::run]) with its cookie challenge.  serde_json is an
    interface; the clock, the cancellation flag and the other workers that
    share the cookie authority are inputs. *)
From S2P Require Import Net.
From S2P Require Import Prelude Error Text Primitives Replay Obfuscation SessionCrypto.
From S2P Require Import PhantomOne TcpTransport Handshake Cookie TcpIo HelloJson Dialogue.

(** ** Hello lines *)

Section Lines.
Context {R : Type} `{RngOps R, KexOps, JsonOps}.

Definition serialize_hello_with_padding (hello : Hello) (r : R) : result bytes * R :=
  serialize_hello_frame hello_to_vec hello r.

Definition write_tcp_hello (hello : Hello) : IO (Conn * R) unit :=
  let* payload := on_snd (serialize_hello_with_padding hello) in
  if MAX_HELLO_BYTES <? zlen payload then io_ret (Err (Protocol "hello exceeds size limit"))
  else
    let* _ok := on_fst (io_write payload) in
    let* _ok := on_fst (io_write [10]) in
    on_fst io_flush.

Definition parse_hello (line : bytes) : result Hello :=
  if utf8_valid line then hello_from_str line else Err (Protocol "hello not utf8").

Definition read_tcp_hello : IO Conn Hello :=
  let* line := io_read (read_tcp_line MAX_HELLO_BYTES) in
  io_ret (parse_hello line).

Definition read_tcp_server_hello : IO Conn Hello :=
  let* line := io_read (read_tcp_line MAX_HELLO_BYTES) in
  match after_prefix COOKIE_CHALLENGE_PREFIX line with
  | Some encoded =>
      let* cookie := io_ret (decode_cookie encoded "challenge") in
      let* _ok := write_tcp_cookie_response cookie in
      read_tcp_hello
  | None => io_ret (parse_hello line)
  end.
End Lines.

(** ** The client *)

(** What the client reads from its environment: the outcomes of the socket
    options, the clock and the coins of the key encapsulation. *)
Record ClientEnv := mkClientEnv {
  ce_refresh : result unit;
  ce_built : clock_reading;
  ce_now : Readings;
  ce_coins : bytes;
  ce_clear : result unit
}.

Section Drivers.
Context {R : Type} `{RngOps R, HashOps, KexOps, JsonOps}.

(** What the client does with the server's hello. *)
Definition client_finish (local_identity : IdentityKeyPair) (policy : PeerPolicy) (p : HandshakeProfile)
    (env : ClientEnv) (material : HandshakeMaterial) (peer_hello : Hello) : IO (Conn * R) HandshakeState :=
  let* _ok := io_ret (verify_hello_signature local_identity material peer_hello policy (at_verify (ce_now env))) in
  let* material :=
    (if uses_pqc p then
       let '(ct, material) :=
         finalize_initiator_pq local_identity peer_hello policy (at_pq (ce_now env)) (ce_coins env) material in
       let* ct := io_ret ct in
       let* _ok := on_fst (write_tcp_pq_ct ct) in
       io_ret (Ok material)
     else io_ret (Ok material)) in
  let* state := io_ret (verify_and_derive local_identity material peer_hello true policy (at_derive (ce_now env))) in
  let* _ok := io_ret (ce_clear env) in
  io_ret (Ok state).

Definition tcp_handshake_on_connected_stream (local_identity : IdentityKeyPair) (policy : PeerPolicy)
    (p : HandshakeProfile) (env : ClientEnv) : IO (Conn * R) HandshakeState :=
  let* _ok := io_ret (ce_refresh env) in
  let* material := on_snd (build_hello_with_profile local_identity p (ce_built env)) in
  let* _ok := write_tcp_hello (local_hello material) in
  let* peer_hello := on_fst read_tcp_server_hello in
  client_finish local_identity policy p env material peer_hello.

(** ** The server's worker *)

(** The worker's environment: the three loads of the cancellation flag, the
    clock of the cookie authority (in seconds) and of the handshake, and what
    the other workers do with the authority between the two locks. *)
Record WorkerEnv := mkWorkerEnv {
  we_cancelled : bool * bool * bool;
  we_refresh : result unit;
  we_issued : option Z;
  we_others : list CookieOp;
  we_checked : option Z;
  we_built : clock_reading;
  we_now : Readings;
  we_clear : result unit
}.

(** The connection; the shared cookie authority with the generator. *)
Notation Server := (Conn * (StatelessCookieAuthority * R))%type.

Definition check_cancelled (cancelled : bool) : IO Server unit :=
  io_ret (if cancelled then Err Timeout else Ok ()).

(** A computation that draws from the generator only. *)
Definition on_rng {A} (m : IO (Conn * R) A) : IO Server A := fun '(c, (a, r)) =>
  let '(out, (c, r)) := m (c, r) in (out, (c, (a, r))).

(** The calls of the other workers; their outcomes are theirs. *)
Definition others_use (ops : list CookieOp) : IO Server unit :=
  on_snd (fun s => (Ok (), (run cookie_op ops s).2)).

Definition cookie_exchange (env : WorkerEnv) (peer_addr : SocketAddr) : IO Server unit :=
  let* cookie := on_snd (issue (we_issued env) peer_addr) in
  let* _ok := on_fst (write_tcp_cookie_challenge cookie) in
  let* response := on_fst read_tcp_cookie_response in
  let* _ok := others_use (we_others env) in
  let* valid := on_snd (verify (we_checked env) peer_addr response) in
  io_ret (if valid then Ok () else Err (Auth "invalid or expired pre-authentication cookie")).

(** [TcpHandshakeWorker::run]: up to the admission of the hello, and the rest. *)
Definition admit_hello (env : WorkerEnv) (peer_addr : SocketAddr) (requires_cookie : bool) : IO Server Hello :=
  let* _ok := check_cancelled (we_cancelled env).1.1 in
  let* _ok := io_ret (we_refresh env) in
  let* peer_hello := on_fst read_tcp_hello in
  let* _ok := check_cancelled (we_cancelled env).1.2 in
  let* _ok := (if requires_cookie then cookie_exchange env peer_addr else io_ret (Ok ())) in
  let* _ok := check_cancelled (we_cancelled env).2 in
  io_ret (Ok peer_hello).

(** The worker after it has sent its own hello. *)
Definition worker_finish (env : WorkerEnv) (local_identity : IdentityKeyPair) (policy : PeerPolicy)
    (p : HandshakeProfile) (material : HandshakeMaterial) (peer_hello : Hello) : IO Server HandshakeState :=
  let* material :=
    (if uses_pqc p then
       let* ct := on_fst read_tcp_pq_ct in
       let '(ok, material) := absorb_responder_pq local_identity peer_hello ct policy (at_pq (we_now env)) material in
       let* _ok := io_ret ok in
       io_ret (Ok material)
     else io_ret (Ok material)) in
  let* state := io_ret (verify_and_derive local_identity material peer_hello false policy (at_derive (we_now env))) in
  let* _ok := io_ret (we_clear env) in
  io_ret (Ok state).

Definition answer_hello (env : WorkerEnv) (local_identity : IdentityKeyPair) (policy : PeerPolicy)
    (p : HandshakeProfile) (peer_hello : Hello) : IO Server HandshakeState :=
  let* material := on_rng (on_snd (build_hello_with_profile local_identity p (we_built env))) in
  let* _ok := io_ret (verify_hello_signature local_identity material peer_hello policy (at_verify (we_now env))) in
  let* _ok := on_rng (write_tcp_hello (local_hello material)) in
  worker_finish env local_identity policy p material peer_hello.

Definition worker_run (env : WorkerEnv) (peer_addr : SocketAddr) (requires_cookie : bool)
    (local_identity : IdentityKeyPair) (policy : PeerPolicy) (p : HandshakeProfile) : IO Server HandshakeState :=
  let* peer_hello := admit_hello env peer_addr requires_cookie in
  answer_hello env local_identity policy p peer_hello.
End Drivers.

(** ** Lemmas: computations with a generator *)

Lemma steps_rng {R A} (m : IO (Conn * R) A) a r r' i o (v : A) :
  steps m (beside r) (beside r') i o v -> steps (on_rng m) (beside (a, r)) (beside (a, r')) i o v.
Proof.
  intros Hm exact rest evs tx Hf. destruct (Hm exact rest evs tx Hf) as (evs' & E & ?). exists evs'.
  unfold on_rng, beside in *. by rewrite E.
Qed.

(** ** Lemmas: text lines *)

(** Printable characters and tabs: a line of them is read as it was written. *)
Definition text_byte (b : Z) : Prop := b = 9 \/ 32 <= b < 127.

Lemma text_line l : Forall text_byte l -> 10 ∉ l /\ strip_line l = l /\ utf8_valid l = true.
Proof.
  intros Hl. split; [|split].
  - intros Hin. rewrite Forall_forall in Hl. apply Hl in Hin. unfold text_byte in Hin. lia.
  - destruct l as [|b l] using rev_ind; [done|]. apply Forall_app in Hl as [_ Hb]. apply Forall_cons in Hb as [Hb _].
    unfold text_byte in Hb. apply strip_line_id; lia.
  - apply utf8_ascii. eapply Forall_impl; [exact Hl|]. unfold text_byte. cbn. lia.
Qed.

Lemma after_prefix_head a prefix b line : a <> b -> after_prefix (a :: prefix) (b :: line) = None.
Proof.
  intros Hne. unfold after_prefix. destruct (bytes_eqb _ _) eqn:E; [|done]. apply bytes_eqb_eq in E.
  rewrite zlen_cons in E. unfold ztake in E. destruct (Z.to_nat (1 + zlen prefix)) eqn:En; [zl|].
  cbn [take] in E. congruence.
Qed.

Section Messages.
Context {R : Type} `{RngOps R, HashOps, KexOps, JsonOps, !RngLaws R, !HashLaws, !KexLaws, !JsonLaws}.

(** ** Lemmas: the messages *)

Definition ct_frame (ct : bytes) : bytes := be_bytes 4 ML_KEM_768_CIPHERTEXT_BYTES ++ ct.

Lemma steps_write_ct ct : zlen ct = ML_KEM_768_CIPHERTEXT_BYTES ->
  steps (write_tcp_pq_ct ct) (fun c => c) (fun c => c) [] (ct_frame ct) ().
Proof.
  intros Hl. unfold write_tcp_pq_ct. rewrite Hl, Z.eqb_refl. cbn [negb]; cbv iota.
  change (cast 32 ML_KEM_768_CIPHERTEXT_BYTES) with ML_KEM_768_CIPHERTEXT_BYTES.
  apply (steps_bind _ _ _ (fun c => c) _ [] [] _ _ ()); [by apply steps_write|].
  rewrite <- (app_nil_r ct) at 2. apply (steps_bind _ _ _ (fun c => c) _ [] [] _ _ ()); [|apply steps_flush].
  apply steps_write. intros ->. done.
Qed.

Lemma steps_read_ct ct : zlen ct = ML_KEM_768_CIPHERTEXT_BYTES ->
  steps read_tcp_pq_ct (fun c => c) (fun c => c) (ct_frame ct) [] ct.
Proof.
  intros Hl. unfold read_tcp_pq_ct. set (k := fun _ => _). unfold ct_frame.
  apply (steps_bind _ _ _ (fun c => c) _ _ _ [] [] (be_bytes 4 ML_KEM_768_CIPHERTEXT_BYTES)); [apply (steps_exact (be_bytes 4 _))|].
  unfold k. rewrite be_val_be_bytes by done. rewrite Z.eqb_refl. cbn [negb]; cbv iota. rewrite <- Hl. apply steps_exact.
Qed.

Lemma waits_read_ct : waits read_tcp_pq_ct (fun c => c) [] [].
Proof. apply waits_here, waits_exact. done. Qed.

Definition cookie_line (prefix cookie : bytes) : bytes := prefix ++ str_bytes (b64_encode cookie).

Definition cookie_ok (cookie : bytes) : Prop := zlen cookie = 32 /\ bytes_ok cookie.

Lemma cookie_line_text prefix cookie : cookie_ok cookie -> Forall text_byte prefix -> zlen prefix <= 22 ->
  Forall text_byte (cookie_line prefix cookie) /\ zlen (cookie_line prefix cookie) <= MAX_COOKIE_LINE_BYTES.
Proof.
  intros [Hl Hb] Hp Hpl. pose proof (b64_len cookie Hb) as Hbl. unfold cookie_line, MAX_COOKIE_LINE_BYTES. split; [|zl].
  apply Forall_app. split; [done|]. eapply Forall_impl; [by apply b64_text|]. unfold text_byte. cbn. lia.
Qed.

Lemma prefix_text prefix : forallb (fun b => (32 <=? b) && (b <? 127)) prefix = true -> Forall text_byte prefix.
Proof.
  rewrite forallb_forall. intros Hp. apply Forall_forall. intros b Hb%list_elem_of_In%Hp.
  apply andb_true_iff in Hb as [?%Z.leb_le ?%Z.ltb_lt]. right. lia.
Qed.

Lemma steps_write_cookie cookie :
  steps (write_tcp_cookie_challenge cookie) (fun c => c) (fun c => c) [] (cookie_line COOKIE_CHALLENGE_PREFIX cookie ++ [10]) () /\
  (cookie_ok cookie ->
   steps (write_tcp_cookie_response cookie) (fun c => c) (fun c => c) [] (cookie_line COOKIE_RESPONSE_PREFIX cookie ++ [10]) ()).
Proof.
  assert (forall prefix, prefix <> [] ->
    steps (let* _ok := io_write prefix in let* _ok := io_write (str_bytes (b64_encode cookie)) in let* _ok := io_write [10] in io_flush)
      (fun c => c) (fun c => c) [] (cookie_line prefix cookie ++ [10]) ()) as Hw.
  { intros prefix Hp. unfold cookie_line. rewrite <- app_assoc.
    apply (steps_bind _ _ _ (fun c => c) _ [] [] _ _ ()); [by apply steps_write|].
    assert (forall data, steps (io_write data) (fun c => c) (fun c => c) [] data ()) as Hd.
    { intros [|b data]; [|by apply steps_write]. intros exact rest evs tx Hf. exists evs. by rewrite app_nil_r. }
    apply (steps_bind _ _ _ (fun c => c) _ [] [] _ _ ()); [apply Hd|].
    apply (steps_bind _ _ _ (fun c => c) _ [] [] [10] [] ()); [by apply steps_write|apply steps_flush]. }
  split; [by apply Hw|]. intros [Hl _]. unfold write_tcp_cookie_response. rewrite Hl. by apply Hw.
Qed.

Lemma decode_cookie_encode cookie what : cookie_ok cookie -> decode_cookie (str_bytes (b64_encode cookie)) what = Ok cookie.
Proof.
  intros [Hl Hb]. unfold decode_cookie. rewrite bytes_str_bytes, b64_roundtrip by done. cbn [ok_or rbind]. by rewrite Hl.
Qed.

Lemma steps_read_response cookie : cookie_ok cookie ->
  steps read_tcp_cookie_response (fun c => c) (fun c => c) (cookie_line COOKIE_RESPONSE_PREFIX cookie ++ [10]) [] cookie.
Proof.
  intros Hc. destruct (cookie_line_text COOKIE_RESPONSE_PREFIX cookie Hc) as [Ht Hl]; [by apply prefix_text|done|].
  destruct (text_line _ Ht) as (Hn & Hs & _). unfold read_tcp_cookie_response.
  rewrite <- (app_nil_r (_ ++ [10])). apply (steps_bind _ _ _ (fun c => c) _ _ [] [] [] (cookie_line COOKIE_RESPONSE_PREFIX cookie)).
  - by apply steps_line.
  - unfold cookie_line. rewrite after_prefix_app, decode_cookie_encode by done. apply steps_ret.
Qed.

Lemma waits_read_response : waits read_tcp_cookie_response (fun c => c) [] [].
Proof. apply waits_here, waits_line. Qed.

(** The line of a hello. *)
Definition hello_line (h : Hello) (line : bytes) : Prop :=
  exists json tail, hello_to_vec h = Ok json /\ line = json ++ tail /\
    Forall (fun b => b = 32 \/ b = 9) tail /\ zlen line <= MAX_HELLO_BYTES.

Lemma hello_line_text h line : hello_text h -> hello_line h line ->
  Forall text_byte line /\ parse_hello line = Ok h /\ after_prefix COOKIE_CHALLENGE_PREFIX line = None.
Proof.
  intros Ht (json & tail & Ej & -> & Htail & _). destruct (json_object h json Ht Ej) as ((rest & E) & Hj & _).
  assert (Forall text_byte (json ++ tail)) as Hl.
  { apply Forall_app. split; eapply Forall_impl; try done; unfold text_byte; cbn; lia. }
  split; [done|]. destruct (text_line _ Hl) as (_ & _ & Hu). unfold parse_hello. rewrite Hu. split.
  - by apply json_round_trip.
  - subst json. by apply after_prefix_head.
Qed.

Lemma steps_read_hello h line : hello_text h -> hello_line h line ->
  steps read_tcp_hello (fun c => c) (fun c => c) (line ++ [10]) [] h.
Proof.
  intros Ht Hl. destruct (hello_line_text h line Ht Hl) as (Hb & Hp & _). destruct (text_line _ Hb) as (Hn & Hs & _).
  unfold read_tcp_hello. rewrite <- (app_nil_r (_ ++ [10])).
  apply (steps_bind _ _ _ (fun c => c) _ _ [] [] [] line); [|rewrite Hp; apply steps_ret].
  apply steps_line; try done. by destruct Hl as (? & ? & _ & _ & _ & Hl).
Qed.

Lemma waits_read_hello : waits read_tcp_hello (fun c => c) [] [].
Proof. apply waits_here, waits_line. Qed.

(** The server's reply, directly or after a challenge. *)
Lemma steps_server_hello h line : hello_text h -> hello_line h line ->
  steps read_tcp_server_hello (fun c => c) (fun c => c) (line ++ [10]) [] h /\
  forall cookie, cookie_ok cookie ->
    steps read_tcp_server_hello (fun c => c) (fun c => c) ((cookie_line COOKIE_CHALLENGE_PREFIX cookie ++ [10]) ++ line ++ [10])
      (cookie_line COOKIE_RESPONSE_PREFIX cookie ++ [10]) h.
Proof.
  intros Ht Hl. destruct (hello_line_text h line Ht Hl) as (Hb & Hp & Ha). destruct (text_line _ Hb) as (Hn & Hs & _).
  unfold read_tcp_server_hello. split.
  - rewrite <- (app_nil_r (_ ++ [10])). apply (steps_bind _ _ _ (fun c => c) _ _ [] [] [] line); [|rewrite Ha, Hp; apply steps_ret].
    apply steps_line; try done. by destruct Hl as (? & ? & _ & _ & _ & Hl).
  - intros cookie Hc. destruct (cookie_line_text COOKIE_CHALLENGE_PREFIX cookie Hc) as [Hct Hcl]; [by apply prefix_text|done|].
    destruct (text_line _ Hct) as (Hcn & Hcs & _). set (k := fun _ => _).
    apply (steps_bind _ k _ (fun c => c) _ _ (line ++ [10]) [] (cookie_line COOKIE_RESPONSE_PREFIX cookie ++ [10]) (cookie_line COOKIE_CHALLENGE_PREFIX cookie)).
    + apply steps_line; try done. unfold MAX_COOKIE_LINE_BYTES, MAX_HELLO_BYTES in *. lia.
    + unfold k, cookie_line at 1. rewrite after_prefix_app, decode_cookie_encode by done.
      apply (steps_then _ _ _ (fun c => c) _ _ _ cookie); [apply steps_ret|].
      rewrite <- (app_nil_r (cookie_line COOKIE_RESPONSE_PREFIX cookie ++ [10])).
      apply (steps_bind _ _ _ (fun c => c) _ [] _ _ [] ()); [by apply steps_write_cookie|by apply steps_read_hello].
Qed.

Lemma waits_server_hello :
  waits read_tcp_server_hello (fun c => c) [] [] /\
  forall cookie, cookie_ok cookie ->
    waits read_tcp_server_hello (fun c => c) (cookie_line COOKIE_CHALLENGE_PREFIX cookie ++ [10])
      (cookie_line COOKIE_RESPONSE_PREFIX cookie ++ [10]).
Proof.
  split; [apply waits_here, waits_line|]. intros cookie Hc.
  destruct (cookie_line_text COOKIE_CHALLENGE_PREFIX cookie Hc) as [Hct Hcl]; [by apply prefix_text|done|].
  destruct (text_line _ Hct) as (Hcn & Hcs & _). unfold read_tcp_server_hello. set (k := fun _ => _).
  rewrite <- (app_nil_r (cookie_line COOKIE_CHALLENGE_PREFIX cookie ++ [10])).
  apply (waits_bind _ k _ (fun c => c) _ [] [] (cookie_line COOKIE_RESPONSE_PREFIX cookie ++ [10]) (cookie_line COOKIE_CHALLENGE_PREFIX cookie)).
  - apply steps_line; try done. unfold MAX_COOKIE_LINE_BYTES, MAX_HELLO_BYTES in *. lia.
  - unfold k, cookie_line at 1. rewrite after_prefix_app, decode_cookie_encode by done.
    apply (waits_then _ _ _ (fun c => c) _ _ cookie); [apply steps_ret|].
    rewrite <- (app_nil_r (cookie_line COOKIE_RESPONSE_PREFIX cookie ++ [10])).
    apply (waits_bind _ _ _ (fun c => c) [] [] _ [] ()); [by apply steps_write_cookie|apply waits_read_hello].
Qed.
End Messages.

Section Runs.
Context {R : Type} `{RngOps R, HashOps, KexOps, JsonOps, !RngLaws R, !HashLaws, !KexLaws, !JsonLaws}.

(** ** Lemmas: writing hellos *)

Lemma b64_ok b : bytes_ok b -> Forall (fun c => 32 < c < 127) (str_bytes (b64_encode b)).
Proof. apply b64_text. Qed.

Lemma honest_hello_text k p x h : honest_hello k p x h -> pqc_ct_b64 h = None -> hello_text h /\ hello_size h <= 3000.
Proof.
  intros Hh Hct. destruct (hh_fields _ _ _ _ Hh) as (E1 & E2 & E3 & E4 & E5 & E6).
  destruct (hh_party _ _ _ _ Hh) as (L1 & L2 & L3 & L4 & L5 & L6). destruct (hh_bytes _ _ _ _ Hh) as (B1 & B2 & B3 & B4 & B5).
  pose proof (hh_sig _ _ _ _ Hh) as Es. destruct (hh_profile _ _ _ _ Hh) as [_ Ep].
  assert (exists sg, sig h = b64_encode sg /\ zlen sg = 64 /\ bytes_ok sg) as (sg & Eg & Ls & Bs) by (rewrite Es; eexists; split; [done|split; apply ed25519_sign_bytes]).
  assert (exists q, default "" (pqc_pub_b64 h) = q /\ Forall (fun c => 32 < c < 127) (str_bytes q) /\ zlen (str_bytes q) <= 2 * 1184 + 2)
    as (q & Eq & Bq & Lq).
  { rewrite E5. destruct (p_pqc x) as [c|]; cbn [option_map default id] in *; eexists; (split; [done|]).
    - destruct L6 as [_ L6]. split; [by apply b64_text|]. pose proof (b64_len c B5). rewrite L6 in *. done.
    - split; [constructor|by vm_compute]. }
  assert (Forall (fun c => 32 < c < 127) (str_bytes (protocol_tag p)) /\ zlen (str_bytes (protocol_tag p)) <= 30) as [Bp Lp].
  { destruct p; (split; [|by vm_compute]); apply Forall_forall; intros b Hb%list_elem_of_In; vm_compute in Hb;
      repeat destruct Hb as [<-|Hb]; lia || done. }
  unfold hello_text, hello_size, hello_texts. rewrite Eq, Hct, Ep, E1, E2, E3, E4, E6, Eg. split; [split; [|done]|].
  - repeat apply Forall_cons_2; try apply Forall_nil_2; try done; by apply b64_text.
  - cbn [map mjoin list_join]. rewrite !zlen_app. cbn [default id].
    pose proof (b64_len _ B1). pose proof (b64_len _ B2). pose proof (b64_len _ B3). pose proof (b64_len _ B4). pose proof (b64_len _ Bs).
    change (zlen (str_bytes "")) with 0. change (@zlen Z []) with 0. lia.
Qed.

Lemma frame_total h (r : R) : reliable (R:=R) -> hello_text h -> hello_size h <= 3000 ->
  exists line r', serialize_hello_frame hello_to_vec h r = (Ok line, r') /\ hello_line h line.
Proof.
  intros Hr Ht Hs. destruct (json_total h Ht) as [json Ej]. destruct (json_object h json Ht Ej) as (_ & _ & Hl).
  unfold serialize_hello_frame. destruct (sys_fill_reliable 1 r Hr) as (b & r1 & -> & Hb & _). cbn [sbind].
  destruct (index_ok b 0) as (x & -> & _); [lia|]. cbn [sbind]. unfold serialize_hello_frame_with_padding_len.
  pose proof (Z.mod_pos_bound x (MAX_HANDSHAKE_FRAME_TAIL_BYTES + 1)) as Hm.
  set (n := x mod _) in *. clearbody n. unfold MAX_HANDSHAKE_FRAME_TAIL_BYTES in *.
  rewrite (proj2 (Z.ltb_ge _ _)) by lia. rewrite Ej. cbn [sbind]. destruct (Z.eqb_spec n 0).
  - exists json, r1. split; [done|]. exists json, []. rewrite app_nil_r. split_and!; try done. unfold MAX_HELLO_BYTES. lia.
  - destruct (sys_fill_reliable 64 r1 Hr) as (t & r2 & -> & Htl & _). cbn [sbind]. do 2 eexists. split; [done|].
    exists json, (map tail_byte (ztake n t)). split; [done|]. split; [done|]. split; [apply tail_bytes|].
    rewrite zlen_app. assert (zlen (map tail_byte (ztake n t)) = zlen (ztake n t)) as -> by (unfold zlen; by rewrite length_map).
    unfold MAX_HELLO_BYTES. zl.
Qed.

Lemma steps_write_hello h line (r r' : R) : hello_text h ->
  serialize_hello_frame hello_to_vec h r = (Ok line, r') -> hello_line h line ->
  steps (write_tcp_hello h) (beside r) (beside r') [] (line ++ [10]) ().
Proof.
  intros Ht Hs (json & tail & Ej & E & _ & Hl). unfold write_tcp_hello.
  apply (steps_then _ _ _ (beside r') _ _ _ line); [by apply steps_snd|]. rewrite (proj2 (Z.ltb_ge _ _)) by done.
  apply (steps_bind _ _ _ (beside r') _ [] [] _ _ ()).
  - apply steps_fst, steps_write. destruct (json_object h json Ht Ej) as ((rest & ->) & _). by rewrite E.
  - apply (steps_bind _ _ _ (beside r') _ [] [] [10] [] ()); [by apply steps_fst, steps_write|by apply steps_fst, steps_flush].
Qed.
(** ** Lemmas: the client *)

Lemma finalize_ct_len k h policy now coins m ct m' :
  finalize_initiator_pq k h policy now coins m = (Ok ct, m') -> zlen ct = ML_KEM_768_CIPHERTEXT_BYTES.
Proof.
  unfold finalize_initiator_pq. case_if; [done|]. intros E.
  apply sbind_ok in E as (? & ? & _ & E). apply sbind_ok in E as (? & ? & _ & E). apply sbind_ok in E as (pk & ? & _ & E).
  apply sbind_ok in E as ([c ss] & ? & Ee & E). injection E as <- _. injection Ee as Ee _.
  unfold encapsulate_against in Ee. case_if; try done.
  destruct (mlkem_encap coins pk) as [[c' ss']|] eqn:Em; cbn [ok_or rbind] in Ee; [|done].
  destruct (copy_into _ _ _ _); cbn [rbind] in Ee; [|done..]. injection Ee as <- _. by apply mlkem_encap_len in Em as [? _].
Qed.

Definition ct_part (ct : option bytes) : bytes := match ct with Some ct => ct_frame ct | None => [] end.

Lemma steps_client_finish k policy p env m h ct st (r : R) :
  client_handshake k policy p h (ce_now env) (ce_coins env) m = Ok (ct, st) -> ce_clear env = Ok () ->
  steps (client_finish k policy p env m h) (beside r) (beside r) [] (ct_part ct) st.
Proof.
  unfold client_handshake, client_finish. intros E Hc.
  destruct (verify_hello_signature k m h policy (at_verify (ce_now env))) as [[]|e|]; cbn [rbind] in E; [|done..].
  apply (steps_then _ _ _ (beside r) _ _ _ ()); [apply steps_ret|]. destruct (uses_pqc p).
  - destruct (finalize_initiator_pq _ _ _ _ _ _) as [[c|e|] m'] eqn:Ef; [|done..].
    destruct (verify_and_derive k m' h true policy (at_derive (ce_now env))) as [st'|e|] eqn:Ev; cbn [rbind] in E; [|done..].
    injection E as <- <-. cbn [ct_part]. rewrite <- (app_nil_r (ct_frame c)).
    apply (steps_bind _ _ _ (beside r) _ [] [] _ _ m').
    + apply (steps_then _ _ _ (beside r) _ _ _ c); [apply steps_ret|]. rewrite <- (app_nil_r (ct_frame c)).
      apply (steps_bind _ _ _ (beside r) _ [] [] _ _ ()); [|apply steps_ret]. apply steps_fst, steps_write_ct. by eapply finalize_ct_len.
    + apply (steps_then _ _ _ (beside r) _ _ _ st'); [by apply steps_ok|].
      apply (steps_then _ _ _ (beside r) _ _ _ ()); [by apply steps_ok|apply steps_ret].
  - destruct (verify_and_derive k m h true policy (at_derive (ce_now env))) as [st'|e|] eqn:Ev; cbn [rbind] in E; [|done..].
    injection E as <- <-. apply (steps_then _ _ _ (beside r) _ _ _ m); [apply steps_ret|].
    apply (steps_then _ _ _ (beside r) _ _ _ st'); [by apply steps_ok|].
    apply (steps_then _ _ _ (beside r) _ _ _ ()); [by apply steps_ok|apply steps_ret].
Qed.

Definition challenge_part (c : option bytes) : bytes :=
  match c with Some c => cookie_line COOKIE_CHALLENGE_PREFIX c ++ [10] | None => [] end.
Definition response_part (c : option bytes) : bytes :=
  match c with Some c => cookie_line COOKIE_RESPONSE_PREFIX c ++ [10] | None => [] end.
Definition cookies_ok (c : option bytes) : Prop := match c with Some c => cookie_ok c | None => True end.

(** The client's behaviour on what the server sends: nothing yet, up to the
    challenge, or all of it. *)
Lemma client_runs k policy p env mi hr li lr c ct st (r r1 r2 : R) :
  ce_refresh env = Ok () -> ce_clear env = Ok () ->
  build_hello_with_profile k p (ce_built env) r = (Ok mi, r1) -> hello_text (local_hello mi) ->
  serialize_hello_frame hello_to_vec (local_hello mi) r1 = (Ok li, r2) -> hello_line (local_hello mi) li ->
  hello_text hr -> hello_line hr lr -> cookies_ok c ->
  client_handshake k policy p hr (ce_now env) (ce_coins env) mi = Ok (ct, st) ->
  let client := tcp_handshake_on_connected_stream k policy p env in
  steps client (beside r) (beside r2) (challenge_part c ++ lr ++ [10]) ((li ++ [10]) ++ response_part c ++ ct_part ct) st /\
  waits client (beside r) (challenge_part c) ((li ++ [10]) ++ response_part c) /\
  waits client (beside r) [] (li ++ [10]).
Proof.
  intros Hre Hcl Hb Ht Hs Hl Htr Hlr Hc HE client.
  destruct (steps_server_hello hr lr Htr Hlr) as [Hd Hcd]. destruct waits_server_hello as [Hw Hcw].
  unfold client, tcp_handshake_on_connected_stream. rewrite Hre.
  assert (forall m' w i o, steps (let* h := on_fst read_tcp_server_hello in client_finish k policy p env m' h) (beside r2) (beside r2) i o w ->
    m' = mi -> steps (tcp_handshake_on_connected_stream k policy p env) (beside r) (beside r2) i ((li ++ [10]) ++ o) w) as Hstart.
  { intros m' w i o Hk ->. unfold tcp_handshake_on_connected_stream. rewrite Hre.
    apply (steps_then _ _ _ (beside r) _ _ _ ()); [apply steps_ret|].
    apply (steps_then _ _ _ (beside r1) _ _ _ mi); [by apply steps_snd|].
    apply (steps_bind _ _ _ (beside r2) _ [] _ _ _ ()); [by apply steps_write_hello|done]. }
  assert (forall i o, waits (on_fst read_tcp_server_hello) (beside r2) i o ->
    waits (tcp_handshake_on_connected_stream k policy p env) (beside r) i ((li ++ [10]) ++ o)) as Hwait.
  { intros i o Hk. unfold tcp_handshake_on_connected_stream. rewrite Hre.
    apply (waits_then _ _ _ (beside r) _ _ ()); [apply steps_ret|].
    apply (waits_then _ _ _ (beside r1) _ _ mi); [by apply steps_snd|].
    apply (waits_bind _ _ _ (beside r2) [] _ _ _ ()); [by apply steps_write_hello|by apply waits_here]. }
  unfold tcp_handshake_on_connected_stream in Hstart, Hwait. rewrite Hre in Hstart, Hwait.
  split; [|split].
  - apply (Hstart mi); [|done]. rewrite <- (app_nil_r (challenge_part c ++ lr ++ [10])).
    apply (steps_bind _ _ _ (beside r2) _ _ _ _ _ hr); [|by apply steps_client_finish].
    apply steps_fst. destruct c as [c|]; [by apply Hcd|exact Hd].
  - apply Hwait. apply waits_fst. destruct c as [c|]; [by apply Hcw|exact Hw].
  - rewrite <- (app_nil_r (li ++ [10])). apply Hwait. by apply waits_fst.
Qed.
(** ** Lemmas: the server's worker *)

Notation server := (StatelessCookieAuthority * R)%type.

(** The cookie round: the cookie issued, and the authority after the check. *)
Definition admitted_with (env : WorkerEnv) (peer : SocketAddr) (requires_cookie : bool) (s : server)
    (c : option bytes) (s' : server) : Prop :=
  if requires_cookie then
    exists cookie s1, c = Some cookie /\ cookie_ok cookie /\ issue (we_issued env) peer s = (Ok cookie, s1) /\
      verify (we_checked env) peer cookie (run cookie_op (we_others env) s1).2 = (Ok true, s')
  else c = None /\ s' = s.

Lemma cookie_exchange_runs env peer (s s' : server) c :
  admitted_with env peer true s c s' ->
  steps (cookie_exchange env peer) (beside s) (beside s') (response_part c) (challenge_part c) () /\
  waits (cookie_exchange env peer) (beside s) [] (challenge_part c).
Proof.
  intros (cookie & s1 & -> & Hc & Hi & Hv). cbn [response_part challenge_part]. unfold cookie_exchange.
  set (ch := cookie_line COOKIE_CHALLENGE_PREFIX cookie ++ [10]). set (re := cookie_line COOKIE_RESPONSE_PREFIX cookie ++ [10]).
  split.
  - apply (steps_then _ _ _ (beside s1) _ _ _ cookie); [by apply steps_snd|].
    rewrite <- (app_nil_r ch). apply (steps_bind _ _ _ (beside s1) _ [] re _ [] ()); [by apply steps_fst, steps_write_cookie|].
    rewrite <- (app_nil_r re). apply (steps_bind _ _ _ (beside s1) _ _ [] [] [] cookie); [by apply steps_fst, steps_read_response|].
    apply (steps_then _ _ _ (beside (run cookie_op (we_others env) s1).2) _ _ _ ()); [by apply steps_snd|].
    apply (steps_then _ _ _ (beside s') _ _ _ true); [by apply steps_snd|]. by apply steps_ok.
  - apply (waits_then _ _ _ (beside s1) _ _ cookie); [by apply steps_snd|].
    rewrite <- (app_nil_r ch). apply (waits_bind _ _ _ (beside s1) [] [] _ [] ()); [by apply steps_fst, steps_write_cookie|].
    by apply waits_here, waits_fst, waits_read_response.
Qed.

(** Nothing stops the worker from outside. *)
Definition undisturbed (env : WorkerEnv) : Prop :=
  we_cancelled env = (false, false, false) /\ we_refresh env = Ok () /\ we_clear env = Ok ().

Lemma admit_runs env peer requires_cookie (s s' : server) c hi li :
  undisturbed env -> hello_text hi -> hello_line hi li -> admitted_with env peer requires_cookie s c s' ->
  steps (admit_hello env peer requires_cookie) (beside s) (beside s') ((li ++ [10]) ++ response_part c) (challenge_part c) hi /\
  (requires_cookie = true -> waits (admit_hello env peer requires_cookie) (beside s) (li ++ [10]) (challenge_part c)).
Proof.
  intros (Hca & Hre & _) Ht Hl Ha. unfold admit_hello. rewrite Hca, Hre. cbn [fst snd].
  set (k := fun h : Hello => let* _ok := check_cancelled false in _).
  assert (steps (k hi) (beside s) (beside s') (response_part c) (challenge_part c) hi /\
    (requires_cookie = true -> waits (k hi) (beside s) [] (challenge_part c))) as [Hk Hkw].
  { unfold k. split.
    - apply (steps_then _ _ _ (beside s) _ _ _ ()); [by apply steps_ok|].
      rewrite <- (app_nil_r (response_part c)), <- (app_nil_r (challenge_part c)).
      apply (steps_bind _ _ _ (beside s') _ _ [] _ [] ()).
      + destruct requires_cookie; [by apply cookie_exchange_runs|]. destruct Ha as [-> ->]. by apply steps_ok.
      + apply (steps_then _ _ _ (beside s') _ _ _ ()); by apply steps_ok.
    - intros ->. apply (waits_then _ _ _ (beside s) _ _ ()); [by apply steps_ok|].
      apply waits_here. by eapply cookie_exchange_runs. }
  split; [|intros Hreq].
  - apply (steps_then _ _ _ (beside s) _ _ _ ()); [by apply steps_ok|].
    apply (steps_then _ _ _ (beside s) _ _ _ ()); [by apply steps_ok|].
    apply (steps_bind _ k _ (beside s) _ _ _ [] _ hi); [by apply steps_fst, steps_read_hello|done].
  - apply (waits_then _ _ _ (beside s) _ _ ()); [by apply steps_ok|].
    apply (waits_then _ _ _ (beside s) _ _ ()); [by apply steps_ok|].
    rewrite <- (app_nil_r (li ++ [10])).
    apply (waits_bind _ k _ (beside s) _ [] [] _ hi); [by apply steps_fst, steps_read_hello|by apply Hkw].
Qed.

(** The ciphertext a client sends in the profile. *)
Definition ct_for (p : HandshakeProfile) (ct : option bytes) : Prop :=
  match ct with
  | Some ct => uses_pqc p = true /\ zlen ct = ML_KEM_768_CIPHERTEXT_BYTES
  | None => uses_pqc p = false
  end.

Lemma client_ct_for k policy p h now coins m ct st :
  client_handshake k policy p h now coins m = Ok (ct, st) -> ct_for p ct.
Proof.
  unfold client_handshake. destruct (verify_hello_signature _ _ _ _ _) as [[]|e|]; cbn [rbind]; [|done..].
  unfold ct_for. destruct (uses_pqc p).
  - destruct (finalize_initiator_pq _ _ _ _ _ _) as [[c|e|] m'] eqn:Ef; [|done..].
    destruct (verify_and_derive _ _ _ _ _ _); cbn [rbind]; [|done..]. intros [= <- _]. split; [done|]. by eapply finalize_ct_len.
  - destruct (verify_and_derive _ _ _ _ _ _); cbn [rbind]; [|done..]. by intros [= <- _].
Qed.

Lemma answer_runs k policy p env (s : server) r1 r2 mr hi lr ct st :
  undisturbed env -> build_hello_with_profile k p (we_built env) s.2 = (Ok mr, r1) ->
  serialize_hello_frame hello_to_vec (local_hello mr) r1 = (Ok lr, r2) -> hello_text (local_hello mr) -> hello_line (local_hello mr) lr ->
  ct_for p ct -> server_handshake k policy p hi ct (we_now env) mr = Ok st ->
  steps (answer_hello env k policy p hi) (beside s) (beside (s.1, r2)) (ct_part ct) (lr ++ [10]) st /\
  (uses_pqc p = true -> waits (answer_hello env k policy p hi) (beside s) [] (lr ++ [10])).
Proof.
  intros (_ & _ & Hcl) Hb Hs Ht Hl Hct HE. destruct s as [a r]. cbn [fst snd] in *.
  unfold server_handshake in HE. unfold answer_hello.
  destruct (verify_hello_signature k mr hi policy (at_verify (we_now env))) as [[]|e|] eqn:Ev; cbn [rbind] in HE; [|done..].
  assert (steps (worker_finish env k policy p mr hi) (beside (a, r2)) (beside (a, r2)) (ct_part ct) [] st) as Hf.
  { unfold worker_finish. rewrite <- (app_nil_r (ct_part ct)). unfold ct_for in Hct. destruct ct as [ct|].
    - destruct Hct as [Hp Hlen]. rewrite Hp in HE |- *. cbn [ok_or rbind] in HE.
      destruct (absorb_responder_pq k hi ct policy (at_pq (we_now env)) mr) as [[[]|e|] m'] eqn:Ea; [|done..].
      apply (steps_bind _ _ _ (beside (a, r2)) _ _ [] [] [] m').
      + cbn [ct_part]. rewrite <- (app_nil_r (ct_frame ct)).
        apply (steps_bind _ _ _ (beside (a, r2)) _ _ [] [] [] ct); [by apply steps_fst, steps_read_ct|]. rewrite Ea.
        apply (steps_then _ _ _ (beside (a, r2)) _ _ _ ()); by apply steps_ok.
      + apply (steps_then _ _ _ (beside (a, r2)) _ _ _ st); [by apply steps_ok|].
        apply (steps_then _ _ _ (beside (a, r2)) _ _ _ ()); by apply steps_ok.
    - rewrite Hct in HE |- *. apply (steps_then _ _ _ (beside (a, r2)) _ _ _ mr); [by apply steps_ok|].
      apply (steps_then _ _ _ (beside (a, r2)) _ _ _ st); [by apply steps_ok|].
      apply (steps_then _ _ _ (beside (a, r2)) _ _ _ ()); by apply steps_ok. }
  split; [|intros Hp].
  - apply (steps_then _ _ _ (beside (a, r1)) _ _ _ mr); [by apply steps_rng, steps_snd|].
    apply (steps_then _ _ _ (beside (a, r1)) _ _ _ ()); [by apply steps_ok|].
    rewrite <- (app_nil_r (lr ++ [10])).
    apply (steps_bind _ _ _ (beside (a, r2)) _ [] _ _ [] ()); [by apply steps_rng, steps_write_hello|done].
  - apply (waits_then _ _ _ (beside (a, r1)) _ _ mr); [by apply steps_rng, steps_snd|].
    apply (waits_then _ _ _ (beside (a, r1)) _ _ ()); [by apply steps_ok|].
    rewrite <- (app_nil_r (lr ++ [10])).
    apply (waits_bind _ _ _ (beside (a, r2)) [] [] _ [] ()); [by apply steps_rng, steps_write_hello|].
    unfold worker_finish. rewrite Hp. apply waits_here, waits_here, waits_fst, waits_read_ct.
Qed.

(** The worker on what the client sends: its hello, the hello and the response,
    or all of it. *)
Lemma worker_runs k policy p env peer requires_cookie (s s' : server) r1 r2 mr hi li lr c ct st :
  undisturbed env -> admitted_with env peer requires_cookie s c s' ->
  build_hello_with_profile k p (we_built env) s'.2 = (Ok mr, r1) ->
  serialize_hello_frame hello_to_vec (local_hello mr) r1 = (Ok lr, r2) -> hello_text (local_hello mr) -> hello_line (local_hello mr) lr ->
  hello_text hi -> hello_line hi li -> ct_for p ct -> server_handshake k policy p hi ct (we_now env) mr = Ok st ->
  let worker := worker_run env peer requires_cookie k policy p in
  steps worker (beside s) (beside (s'.1, r2)) ((li ++ [10]) ++ response_part c ++ ct_part ct) (challenge_part c ++ lr ++ [10]) st /\
  (uses_pqc p = true -> waits worker (beside s) ((li ++ [10]) ++ response_part c) (challenge_part c ++ lr ++ [10])) /\
  (requires_cookie = true -> waits worker (beside s) (li ++ [10]) (challenge_part c)).
Proof.
  intros Hu Ha Hb Hs Ht Hl Hti Hli Hct HE worker. unfold worker, worker_run.
  destruct (admit_runs env peer requires_cookie s s' c hi li Hu Hti Hli Ha) as [Hadm Hadw].
  destruct (answer_runs k policy p env s' r1 r2 mr hi lr ct st) as [Hans Hanw]; [done..|].
  split; [|split].
  - rewrite (app_assoc (li ++ [10])). by apply (steps_bind _ _ _ (beside s') _ _ _ _ _ hi).
  - intros Hp. rewrite <- (app_nil_r ((li ++ [10]) ++ response_part c)).
    apply (waits_bind _ _ _ (beside s') _ [] _ _ hi); [done|by apply Hanw].
  - intros Hreq. by apply waits_here, Hadw.
Qed.
(** ** Lemmas: the cookie round with a generator that does not fail *)

(** The cookie is checked in the epoch of its issue or the next, and so are the
    calls of the other workers in between. *)
Definition cookie_times (env : WorkerEnv) (peer : SocketAddr) : Prop :=
  addr_ok peer /\ exists issued_at, we_issued env = Some issued_at /\ 0 <= issued_at /\
    let epoch := issued_at / COOKIE_EPOCH_SECS in
    Forall (op_until (epoch + 1)) (we_others env) /\
    (current_epoch (we_checked env) = Ok epoch \/ current_epoch (we_checked env) = Ok (epoch + 1)).

Lemma rotate_reliable epoch (s : server) : reliable (R:=R) -> exists s', rotate_to epoch s = (Ok (), s').
Proof.
  intros Hr. destruct s as [a r]. unfold rotate_to. case_if; [by eexists|].
  destruct (sys_fill_reliable COOKIE_SECRET_BYTES r Hr) as (b & r' & -> & _). by eexists.
Qed.

Lemma admitted_in_time env peer requires_cookie (s : server) :
  reliable (R:=R) -> (requires_cookie = true -> cookie_times env peer) ->
  exists c s', admitted_with env peer requires_cookie s c s' /\ cookies_ok c /\ (requires_cookie = true <-> is_Some c).
Proof.
  intros Hr Ht. destruct requires_cookie; cbn [admitted_with]; last first.
  { exists None, s. split; [done|]. split; [done|]. split; [done|]. by intros []. }
  destruct (Ht eq_refl) as (Hp & e & Hi & He & Hops & Hck). clear Ht.
  assert (exists cookie s1, issue (we_issued env) peer s = (Ok cookie, s1) /\ cookie_ok cookie) as (cookie & s1 & Ei & Hc).
  { rewrite Hi. unfold issue. cbn [current_epoch ok_or rbind sbind].
    destruct (rotate_reliable (e / COOKIE_EPOCH_SECS) s Hr) as [s1 ->]. cbn [sbind]. rewrite mac_eq by done.
    do 2 eexists. split; [done|]. split; [apply hmac_sha256_len|apply hmac_sha256_bytes]. }
  assert (exists b s', verify (we_checked env) peer cookie (run cookie_op (we_others env) s1).2 = (Ok b, s')) as (b & s' & Ev).
  { rewrite verify_eq by (done || apply Hc).
    assert (exists n, current_epoch (we_checked env) = Ok n) as [n ->] by (destruct Hck as [->| ->]; by eexists).
    cbn [sbind]. destruct (rotate_reliable n (run cookie_op (we_others env) s1).2 Hr) as [s2 ->]. cbn [sbind]. by do 2 eexists. }
  exists (Some cookie), s'. split; [|by split]. exists cookie, s1. split; [done|]. split; [done|]. split; [done|].
  destruct (issued_stays_valid (we_issued env) (we_checked env) e peer cookie s s1 (we_others env)) as [E|E]; [done..| |];
    rewrite Ev in E; cbn [fst] in E; [|done]. by injection E as ->.
Qed.

Definition in_time (t : Z) (now : Readings) : Prop :=
  forall c, c ∈ [at_verify now; at_pq now; fst (at_derive now); snd (at_derive now)] ->
  exists n, c = Some n /\ abs_diff n t <= 300.

Lemma in_time_fresh t now h : in_time t now -> timestamp_secs h = t ->
  forall c, c ∈ [at_verify now; at_pq now; fst (at_derive now); snd (at_derive now)] -> fresh c h.
Proof. intros Ht <- c Hc. by apply Ht. Qed.

(** The rounds reach the messages of a complete run. *)
Lemma dialogue_converges {A B} (client : IO (Conn * R) A) (r r' : R) (worker : IO (Conn * server) B) (s s' : server)
    p c ct (li lr : bytes) sti str :
  ct_for p ct ->
  steps client (beside r) (beside r') (challenge_part c ++ lr) (li ++ response_part c ++ ct_part ct) sti ->
  waits client (beside r) (challenge_part c) (li ++ response_part c) -> waits client (beside r) [] li ->
  steps worker (beside s) (beside s') (li ++ response_part c ++ ct_part ct) (challenge_part c ++ lr) str ->
  (uses_pqc p = true -> waits worker (beside s) (li ++ response_part c) (challenge_part c ++ lr)) ->
  (is_Some c -> waits worker (beside s) li (challenge_part c)) ->
  Nat.iter 3 (dialogue_round client r worker s) [] = challenge_part c ++ lr.
Proof.
  intros Hct C1 C2 C3 W1 W2 W3.
  assert (dialogue_round client r worker s (challenge_part c ++ lr) = challenge_part c ++ lr) as Hfix.
  { unfold dialogue_round. rewrite (outcome_steps _ _ _ _ _ _ C1). cbn [snd]. by rewrite (outcome_steps _ _ _ _ _ _ W1). }
  assert (dialogue_round client r worker s (challenge_part c) = challenge_part c ++ lr) as Hnext.
  { unfold dialogue_round. rewrite (outcome_waits _ _ _ _ C2). cbn [snd]. unfold ct_for in Hct. destruct ct as [ct|].
    - destruct Hct as [Hp _]. by rewrite (outcome_waits _ _ _ _ (W2 Hp)).
    - cbn [ct_part] in W1. rewrite app_nil_r in W1. by rewrite (outcome_steps _ _ _ _ _ _ W1). }
  set (round := dialogue_round client r worker s) in *. change (Nat.iter 3 round []) with (round (round (round []))).
  destruct c as [cookie|].
  - assert (round [] = challenge_part (Some cookie)) as ->; [|by rewrite Hnext].
    unfold round, dialogue_round. rewrite (outcome_waits _ _ _ _ C3). cbn [snd]. by rewrite (outcome_waits _ _ _ _ (W3 ltac:(by eexists))).
  - cbn [challenge_part app] in *. by rewrite Hnext, !Hfix.
Qed.
End Runs.

(** ** Lemmas: any peer and any schedule *)

Lemma keeps_rng {R A} (m : IO (Conn * R) A) c (a : StatelessCookieAuthority) r n (P : A -> Conn * R -> Prop) :
  keeps m (c, r) n P -> keeps (on_rng m) (c, (a, r)) n (fun v s' => P v (s'.1, s'.2.2) /\ s'.2.1 = a).
Proof.
  unfold keeps, on_rng, sent_by, conn_of, conn_beside. destruct (m (c, r)) as [o [c' r']]. cbn [fst snd].
  intros (Hp & Hw & HP). split; [done|]. split; [done|]. intros v ->. split; [by apply HP|done].
Qed.

Section Gate.
Context {R : Type} `{RngOps R, HashOps, KexOps, JsonOps, !RngLaws R, !HashLaws, !KexLaws, !JsonLaws}.
Notation server := (StatelessCookieAuthority * R)%type.

Lemma after_prefix_some prefix line rest : after_prefix prefix line = Some rest -> line = prefix ++ rest.
Proof.
  unfold after_prefix. destruct (bytes_eqb _ _) eqn:E; [|done]. apply bytes_eqb_eq in E. intros [= <-].
  by rewrite <- E at 1; rewrite ztake_zdrop.
Qed.

Lemma decode_cookie_no_panic enc what : no_panic (decode_cookie enc what).
Proof. unfold decode_cookie. destruct (b64_decode _); cbn [ok_or rbind]; [by case_if|done]. Qed.

Lemma parse_hello_no_panic l : no_panic (parse_hello l).
Proof. unfold parse_hello. case_if; [apply json_parse_no_panic|done]. Qed.

Lemma issue_safe now peer (s : server) : addr_ok peer ->
  no_panic (issue now peer s).1 /\ forall cookie s', issue now peer s = (Ok cookie, s') -> cookie_ok cookie.
Proof.
  intros Hp. unfold issue. destruct (current_epoch now) as [e|er|] eqn:E; cbn [sbind]; [|done|].
  - destruct (rotate_to_cases e s) as [[_ ->]|[_ [(s' & -> & _)|(s' & -> & _)]]]; cbn [sbind fst]; [..|done];
      rewrite mac_eq by done; (split; [done|]); intros cookie s2 [= <- _];
      (split; [apply hmac_sha256_len|apply hmac_sha256_bytes]).
  - by destruct now.
Qed.

Lemma verify_safe now peer cookie (s : server) : addr_ok peer -> no_panic (verify now peer cookie s).1.
Proof.
  intros Hp. destruct (decide (zlen cookie = 32)) as [Hc|Hc].
  - rewrite verify_eq by done. unfold current_epoch. destruct now as [n|]; cbn [ok_or rbind sbind]; [|done].
    by destruct (rotate_to_cases (n / COOKIE_EPOCH_SECS) s) as [[_ ->]|[_ [(s' & -> & _)|(s' & -> & _)]]].
  - unfold verify. by rewrite (proj2 (Z.eqb_neq _ _)).
Qed.

Lemma keeps_write_challenge cookie c : cookie_ok cookie ->
  keeps (write_tcp_cookie_challenge cookie) c 89 (fun _ c' => received_by c' = received_by c).
Proof.
  intros [Hl Hb]. pose proof (b64_len cookie Hb) as Hlen. unfold write_tcp_cookie_challenge.
  change 89 with (22 + (66 + (1 + 0))).
  eapply (keeps_bind (io_write COOKIE_CHALLENGE_PREFIX) _ _ 22); [done|apply keeps_write|]. intros [] c1 Q1.
  eapply (keeps_bind (io_write _) _ _ 66); [done|eapply keeps_weaken; [apply keeps_write|lia|intros v s h; exact h]|]. intros [] c2 Q2.
  eapply (keeps_bind (io_write [10]) _ _ 1); [done|apply keeps_write|]. intros [] c3 Q3.
  eapply keeps_weaken; [apply keeps_flush|done|]. intros [] c4 Q4. cbn in *. congruence.
Qed.

Lemma keeps_read_hello c :
  keeps read_tcp_hello c 0 (fun h c' => exists line, parse_hello (strip_line line) = Ok h /\
    received_by c = line ++ [10] ++ received_by c').
Proof.
  unfold read_tcp_hello. eapply keeps_then; [done|by apply keeps_line|]. intros v c1 (line & -> & Hr & _).
  apply keeps_ret; [done|apply parse_hello_no_panic|]. intros h Hh. by exists line.
Qed.

Lemma keeps_read_response c :
  keeps read_tcp_cookie_response c 0 (fun cookie c' => exists line encoded,
    strip_line line = COOKIE_RESPONSE_PREFIX ++ encoded /\ decode_cookie encoded "response" = Ok cookie /\
    received_by c = line ++ [10] ++ received_by c').
Proof.
  unfold read_tcp_cookie_response. eapply keeps_then; [done|by apply keeps_line|]. intros v c1 (line & -> & Hr & _).
  destruct (after_prefix _ _) as [enc|] eqn:E; [|by apply keeps_ret].
  apply after_prefix_some in E. apply keeps_ret; [done|apply decode_cookie_no_panic|]. intros cookie Hc. by exists line, enc.
Qed.

(** The authority when the worker checks the response. *)
Definition authority_at_check (env : WorkerEnv) (peer : SocketAddr) (s : server) : server :=
  (run cookie_op (we_others env) (issue (we_issued env) peer s).2).2.

(** What the worker has read, and the cookie it has accepted, when it admits a
    hello. *)
Definition admission (env : WorkerEnv) (peer : SocketAddr) (requires_cookie : bool)
    (s : Conn * server) (h : Hello) (s' : Conn * server) : Prop :=
  exists line, parse_hello (strip_line line) = Ok h /\
    if requires_cookie then
      exists response encoded cookie,
        received_by s = line ++ [10] ++ response ++ [10] ++ received_by s' /\
        strip_line response = COOKIE_RESPONSE_PREFIX ++ encoded /\ decode_cookie encoded "response" = Ok cookie /\
        verify (we_checked env) peer cookie (authority_at_check env peer s.2) = (Ok true, s'.2)
    else received_by s = line ++ [10] ++ received_by s' /\ s'.2 = s.2.

Lemma keeps_cookie_exchange env peer c (s : server) : addr_ok peer ->
  keeps (cookie_exchange env peer) (c, s) 89 (fun _ s' => exists response encoded cookie,
    received_by c = response ++ [10] ++ received_by s' /\
    strip_line response = COOKIE_RESPONSE_PREFIX ++ encoded /\ decode_cookie encoded "response" = Ok cookie /\
    verify (we_checked env) peer cookie (authority_at_check env peer s) = (Ok true, s'.2)).
Proof.
  intros Hp. destruct (issue_safe (we_issued env) peer s Hp) as [Hn Hc]. unfold cookie_exchange.
  apply (keeps_then _ _ _ _ (fun cookie s1 => s1 = (c, (issue (we_issued env) peer s).2) /\ cookie_ok cookie)); [done| |].
  { eapply keeps_weaken; [apply (keeps_snd _ c s (fun cookie t => t = (issue (we_issued env) peer s).2 /\ cookie_ok cookie)); [done|]|done|].
    - intros v t' E. rewrite E. split; [done|by eapply Hc].
    - intros v [c1 s1]. cbn [fst snd]. by intros (-> & -> & ?). }
  intros cookie _ [-> Hck]. set (s1 := (issue _ _ _).2).
  change 89 with (89 + 0). eapply keeps_bind; [done|by apply keeps_fst, keeps_write_challenge|].
  intros _ [c2 s2] [Hr2 Hs2]. cbn [fst snd] in *. subst s2.
  eapply keeps_then; [done|apply keeps_fst, keeps_read_response|].
  intros got [c3 s3] [(response & encoded & Hl & Hd & Hr3) Hs3]. cbn [fst snd] in *. subst s3.
  eapply (keeps_then _ _ _ _ (fun _ s' => s' = (c3, authority_at_check env peer s))); [done| |].
  { eapply keeps_weaken; [apply (keeps_snd _ c3 s1 (fun _ t => t = authority_at_check env peer s)); [done|]|done|].
    - by intros v t' [= _ <-].
    - intros v [c4 s4]. cbn [fst snd]. by intros [-> ->]. }
  intros _ _ ->. eapply (keeps_then _ _ _ _ (fun b s' => s'.1 = c3 /\ verify (we_checked env) peer got (authority_at_check env peer s) = (Ok b, s'.2))); [done| |].
  { apply (keeps_snd _ c3 _ (fun b t => verify (we_checked env) peer got (authority_at_check env peer s) = (Ok b, t)));
      [by apply verify_safe|done]. }
  intros b [c5 s5] [Hc5 Hv]. cbn [fst snd] in *. subst c5. apply keeps_ret; [done|by destruct b|]. intros [] Hb. destruct b; [|done].
  exists response, encoded, got. split; [|done]. by rewrite <- Hr2, Hr3.
Qed.

Lemma keeps_cancelled b (s : Conn * server) : keeps (check_cancelled b) s 0 (fun _ s' => s' = s).
Proof.
  split; [by destruct b|]. split; [exists []; by rewrite app_nil_r|]. done.
Qed.

Lemma keeps_admit env peer requires_cookie (s : Conn * server) : addr_ok peer -> no_panic (we_refresh env) ->
  keeps (admit_hello env peer requires_cookie) s (if requires_cookie then 89 else 0) (admission env peer requires_cookie s).
Proof.
  intros Hp Hre. set (n := if requires_cookie then 89 else 0). assert (0 <= n) as Hn by (unfold n; by destruct requires_cookie).
  unfold admit_hello. eapply keeps_then; [done|apply keeps_cancelled|]. intros _ _ ->.
  eapply keeps_then; [done|apply (keeps_ret _ _ _ (fun _ s' => s' = s)); done|]. intros _ _ ->.
  destruct s as [c s]. eapply keeps_then; [done|apply keeps_fst, keeps_read_hello|].
  intros h [c1 s1] [(line & Hh & Hr) Hs1]. cbn [fst snd] in *. subst s1.
  eapply keeps_then; [done|apply keeps_cancelled|]. intros _ _ ->.
  rewrite <- (Z.add_0_r n). eapply (keeps_bind _ _ _ n 0 (fun _ s' => admission env peer requires_cookie (c, s) h s')); [done| |].
  - unfold n, admission. destruct requires_cookie.
    + eapply keeps_weaken; [by apply keeps_cookie_exchange|done|]. intros _ s' (response & encoded & cookie & Hr' & Hrest).
      exists line. split; [done|]. exists response, encoded, cookie. split; [|done].
      unfold received_by, conn_of, conn_itself, conn_beside in *. cbn [fst] in *. by rewrite Hr, Hr'.
    + apply keeps_ret; [done|done|]. intros _ _. by exists line.
  - intros _ s2 Ha. eapply keeps_then; [done|apply keeps_cancelled|]. intros _ _ ->.
    apply keeps_ret; [done|done|]. by intros _ [= <-].
Qed.
(** ** Lemmas: the answer *)

Lemma absorb_cases k h ct policy now m :
  (exists e m', absorb_responder_pq k h ct policy now m = (Err e, m')) \/
  exists m' ss, absorb_responder_pq k h ct policy now m = (Ok (), m') /\
    m_profile m' = m_profile m /\ pq_shared m' = Some ss /\ zlen ss = 32.
Proof.
  unfold absorb_responder_pq, absorb_responder_pq_unverified.
  pose proof (verify_hello_no_panic k m h policy now) as N.
  destruct (verify_hello_signature k m h policy now) as [[]|e|]; cbn [sbind]; [|left; by do 2 eexists|done].
  case_if; [left; by do 2 eexists|]. destruct (local_pqc m) as [kp|]; cbn [ok_or sbind]; [|left; by do 2 eexists].
  unfold decapsulate. destruct (Z.eqb_spec (zlen ct) ML_KEM_768_CIPHERTEXT_BYTES) as [Hl|]; cbn [negb sbind]; [|left; by do 2 eexists].
  pose proof (mlkem_decap_len (decap_key kp) ct Hl) as Hs.
  pose proof (copy_into_zeros 0 32 32 [] (mlkem_decap (decap_key kp) ct)) as Ec. rewrite !app_nil_l in Ec.
  rewrite Ec by zl. cbn [sbind]. right. do 2 eexists. split; [done|]. split; [done|]. split; [done|]. zl.
Qed.

(** What the worker has checked of the hello when it ends with a session. *)
Definition session_with (p : HandshakeProfile) (policy : PeerPolicy) (env : WorkerEnv) (h : Hello) (st : HandshakeState) : Prop :=
  exists d, accepted p h policy (fst (at_derive (we_now env))) d /\ fresh (snd (at_derive (we_now env))) h /\
    peer_fingerprint_hex st = compute_fingerprint_hex (peer_identity_raw d) /\
    peer_signing_pubkey_b64 st = b64_encode (peer_sign_public d).

Lemma derive_session k m h policy env st :
  (forall ss, pq_shared m = Some ss -> zlen ss = 32) ->
  verify_and_derive k m h false policy (at_derive (we_now env)) = Ok st -> session_with (m_profile m) policy env h st.
Proof.
  intros Hs E. destruct (derive_cases k m h false policy (at_derive (we_now env)) Hs) as [[e E2]|(d & l & ss & ct & Ha & Hf & _ & _ & _ & E2)];
    [congruence|]. rewrite E2 in E. exists d. split; [done|]. split; [done|]. unfold derive_state in E.
  destruct (order_parties _ _) as [x y]. destruct (session_key _ _ _ _); cbn [rbind] in E; [|done..].
  destruct (session_key _ _ _ _); cbn [rbind] in E; [|done..]. by injection E as <-.
Qed.

Lemma keeps_write_hello h c (r : R) :
  keeps (write_tcp_hello h) (c, r) (MAX_HELLO_BYTES + 1) (fun _ s' => received_by s' = received_by c).
Proof.
  unfold write_tcp_hello. destruct (hello_frame_tail hello_to_vec h r json_no_panic) as (Hn & _).
  eapply keeps_then; [done|apply (keeps_snd _ c r (fun _ _ => True)); done|].
  intros payload [c1 r1] [Hc _]. cbn [fst] in Hc. subst c1.
  destruct (Z.ltb_spec MAX_HELLO_BYTES (zlen payload)); [by apply keeps_ret|].
  eapply (keeps_bind _ _ _ MAX_HELLO_BYTES); [done|eapply keeps_weaken; [apply keeps_fst, keeps_write|done|intros v s h'; exact h']|].
  intros [] [c2 r2] [Hr2 E2]. cbn [snd] in E2. subst r2. eapply (keeps_bind (on_fst (io_write [10])) _ _ 1 0); [done|apply keeps_fst, keeps_write|].
  intros [] [c3 r3] [Hr3 E3]. cbn [snd] in E3. subst r3. eapply keeps_weaken; [apply keeps_fst, keeps_flush|done|].
  intros [] [c4 r4] [Hr4 _]. unfold received_by, conn_of, conn_itself, conn_beside in *. cbn [fst] in *. congruence.
Qed.

Lemma keeps_read_ct c : keeps read_tcp_pq_ct c 0 (fun _ _ => True).
Proof.
  unfold read_tcp_pq_ct. eapply keeps_then; [done|by apply keeps_exact|]. intros l c1 _. case_if; [by apply keeps_ret|].
  apply negb_false_iff, Z.eqb_eq in Heqb. rewrite Heqb.
  eapply keeps_weaken; [by apply keeps_exact|done|]. by intros v s' [? _].
Qed.

Lemma keeps_worker_finish env k policy p m h (s : Conn * server) :
  no_panic (we_clear env) -> m_profile m = p -> pq_shared m = None ->
  keeps (worker_finish env k policy p m h) s 0 (fun st _ => session_with p policy env h st).
Proof.
  intros Hcl Hm Hq. unfold worker_finish.
  apply (keeps_then _ _ _ _ (fun m' _ => m_profile m' = p /\ forall ss, pq_shared m' = Some ss -> zlen ss = 32)); [done| |].
  { destruct (uses_pqc p); [|apply keeps_ret; [done|done|]; intros _ [= <-]; by rewrite Hq].
    destruct s as [c s]. eapply keeps_then; [done|apply keeps_fst, keeps_read_ct|]. intros ct s1 _.
    destruct (absorb_cases k h ct policy (at_pq (we_now env)) m) as [(e & m' & ->)|(m' & ss & -> & Hp & Hs & Hl)].
    - eapply keeps_then; [done|by apply (keeps_ret _ _ _ (fun _ _ => False))|done].
    - eapply keeps_then; [done|by apply (keeps_ret _ _ _ (fun _ _ => True))|]. intros _ s2 _. apply keeps_ret; [done|done|].
      intros _ [= <-]. split; [congruence|]. intros ss' E. rewrite Hs in E. by injection E as <-. }
  intros m' s1 [Hp Hs]. eapply keeps_then; [done|apply (keeps_ret _ _ _ (fun st _ => session_with p policy env h st)); [done|by apply derive_no_panic|]|].
  - intros st E. rewrite <- Hp. by eapply derive_session.
  - intros st s2 Hst. eapply keeps_then; [done|by apply (keeps_ret _ _ _ (fun _ _ => True))|]. intros _ s3 _.
    apply keeps_ret; [done|done|]. by intros _ [= <-].
Qed.

Lemma keeps_answer env k policy p h (s : Conn * server) : no_panic (we_clear env) ->
  keeps (answer_hello env k policy p h) s (MAX_HELLO_BYTES + 1) (fun st _ => session_with p policy env h st).
Proof.
  intros Hcl. destruct s as [c [a r]]. unfold answer_hello.
  eapply (keeps_then _ _ _ _ (fun m _ => m_profile m = p /\ pq_shared m = None)); [done| |].
  { eapply keeps_weaken; [apply keeps_rng, (keeps_snd _ c r (fun m _ => m_profile m = p /\ pq_shared m = None))|done|].
    - apply build_no_panic.
    - intros m r'. apply build_material.
    - intros m s1. cbn [fst snd]. tauto. }
  intros m s1 [Hp Hq]. eapply keeps_then; [done|apply (keeps_ret _ _ _ (fun _ s' => s' = s1)); [done|apply verify_hello_no_panic|done]|].
  intros _ _ ->. rewrite <- (Z.add_0_r (_ + 1)). destruct s1 as [c1 [a1 r1]].
  eapply keeps_bind; [done|apply keeps_rng, keeps_write_hello|]. intros _ s2 _. by apply keeps_worker_finish.
Qed.
End Gate.

(** ** Properties *)

(** C3: an honest client and a server's worker complete the handshake over a
    TCP connection.  For identities that pin each other, clocks in tolerance, a
    generator that does not fail, and, when the server challenges, a cookie
    that is checked in its epoch or the next (with any calls of other workers
    on the shared authority in between): both sides build their hellos, and
    unless the X25519 secret is zero there are two byte strings such that the
    client, reading the server's in any segmentation, writes exactly its own and
    ends with a session, and the worker, reading the client's in any
    segmentation, writes exactly its own and ends with a session.  Both leave
    nothing unread, the sessions have mirrored keys, the same transcript hash
    and each other's fingerprint.  The exchange cannot deadlock: starting from
    nothing, three rounds of answering what has arrived produce all of it. *)
Theorem tcp_handshake_completes {R}
    `{RngLaws R, !HashOps, !KexOps, !JsonOps, !HashLaws, !KexLaws, !JsonLaws}
    di si dr sr ki kr p ti tr (ri : R) (s : StatelessCookieAuthority * R) poli polr cenv wenv peer requires_cookie :
  reliable (R:=R) -> identity_of di si ki -> identity_of dr sr kr -> public ki <> public kr ->
  0 <= ti <= u64_max -> 0 <= tr <= u64_max ->
  ce_built cenv = Some ti -> we_built wenv = Some tr ->
  in_time tr (ce_now cenv) -> in_time ti (we_now wenv) ->
  pin_for_identity kr ∈ pins poli -> pin_for_identity ki ∈ pins polr ->
  ce_refresh cenv = Ok () -> ce_clear cenv = Ok () -> undisturbed wenv ->
  (requires_cookie = true -> cookie_times wenv peer) ->
  let client := tcp_handshake_on_connected_stream ki poli p cenv in
  let worker := worker_run wenv peer requires_cookie kr polr p in
  exists mi mr,
    (exists r, (build_hello_with_profile ki p (Some ti) ri).1 = Ok mi /\
               (build_hello_with_profile kr p (Some tr) r).1 = Ok mr) /\
    (derive_shared (local_ephemeral mi) (public (local_ephemeral mr)) <> zreplicate 32 0 ->
     exists sti str client_sent server_sent ri' s',
       steps client (beside ri) (beside ri') server_sent client_sent sti /\
       steps worker (beside s) (beside s') client_sent server_sent str /\
       mirrored sti str /\
       peer_fingerprint_hex sti = fingerprint_hex kr /\ peer_fingerprint_hex str = fingerprint_hex ki /\
       Nat.iter 3 (dialogue_round client ri worker s) [] = server_sent).
Proof.
  intros Hr Hki Hkr Hne Hti Htr Bi Br Fi Fr Hpi Hpr Hcr Hcc Hu Hck client worker.
  destruct (admitted_in_time wenv peer requires_cookie s Hr Hck) as (c & s1 & Hadm & Hc & Hreq).
  destruct (build_total di si ki p ti ri Hr Hki Hti) as (mi & r1 & Ei).
  destruct (build_total dr sr kr p tr s1.2 Hr Hkr Htr) as (mr & r2 & Er).
  destruct (build_honest _ _ _ _ _ _ _ _ Hki Hti Ei) as (x & Hx & Tx & Cx & Sx & Kx & _ & Px).
  destruct (build_honest _ _ _ _ _ _ _ _ Hkr Htr Er) as (y & Hy & Ty & Cy & Sy & Ky & Gy & Py).
  exists mi, mr. split; [exists s1.2; by rewrite Ei, Er|]. intros Hnz.
  destruct (honest_hello_text _ _ _ _ (hm_hello _ _ _ _ Hx) Cx) as [Txi Zxi].
  destruct (honest_hello_text _ _ _ _ (hm_hello _ _ _ _ Hy) Cy) as [Tyr Zyr].
  destruct (frame_total (local_hello mi) r1 Hr Txi Zxi) as (li & r1' & Fi1 & Hli).
  destruct (frame_total (local_hello mr) r2 Hr Tyr Zyr) as (lr & r2' & Fr1 & Hlr).
  assert (forall m k z, honest_material k p z m -> timestamp_secs (local_hello m) = p_timestamp z) as Hts.
  { intros m k z Hm. apply (hh_fields _ _ _ _ (hm_hello _ _ _ _ Hm)). }
  destruct (honest_run ki kr p x y mi mr poli polr (ce_now cenv) (we_now wenv) (ce_coins cenv))
    as (ct & sti & str & Hcl & Hsv & HM & F1 & F2); try done.
  { apply (in_time_fresh tr); [done|]. by rewrite (Hts _ _ _ Hy). }
  { apply (in_time_fresh ti); [done|]. by rewrite (Hts _ _ _ Hx). }
  pose proof (client_ct_for _ _ _ _ _ _ _ _ _ Hcl) as Hct.
  rewrite <- Bi in Ei. rewrite <- Br in Er.
  destruct (client_runs ki poli p cenv mi (local_hello mr) li lr c ct sti ri r1 r1') as (C1 & C2 & C3); [done..|].
  destruct (worker_runs kr polr p wenv peer requires_cookie s s1 r2 r2' mr (local_hello mi) li lr c ct str) as (W1 & W2 & W3); [done..|].
  exists sti, str. do 4 eexists. split; [exact C1|]. split; [exact W1|]. split; [done|]. split; [done|]. split; [done|].
  eapply (dialogue_converges client ri r1' worker s _ p c ct); try done. intros Hs. by apply W3, Hreq.
Qed.

(** C4: the server's worker is gated, silent and safe before it admits a peer.
    Against any peer, schedule of reads and writes, clock and cancellation, the
    worker never panics.  Until a hello is admitted it writes at most 89 bytes
    (one challenge line, and nothing when no cookie is required); a worker that
    does not admit one ends there, without a session.  A hello is admitted only
    after its line was read and parsed and, when a cookie is required, after a
    response line whose cookie the shared authority accepts for this peer
    address.  The answer is one hello line, and a session needs an admitted
    hello that is fresh, correctly signed and pinned, whose keys it reports. *)
Theorem worker_admits_then_answers {R}
    `{RngLaws R, !HashOps, !KexOps, !JsonOps, !HashLaws, !KexLaws, !JsonLaws}
    env peer requires_cookie k policy p (s : Conn * (StatelessCookieAuthority * R)) :
  addr_ok peer -> no_panic (we_refresh env) -> no_panic (we_clear env) ->
  let admitted := admit_hello env peer requires_cookie s in
  let ended := worker_run env peer requires_cookie k policy p s in
  ended.1 <> Some Panic /\
  (exists written, sent_by admitted.2 = sent_by s ++ written /\ zlen written <= if requires_cookie then 89 else 0) /\
  (exists written, sent_by ended.2 = sent_by admitted.2 ++ written /\ zlen written <= MAX_HELLO_BYTES + 1) /\
  (forall h, admitted.1 = Some (Ok h) -> admission env peer requires_cookie s h admitted.2) /\
  ((forall h, admitted.1 <> Some (Ok h)) -> ended.2 = admitted.2 /\ forall st, ended.1 <> Some (Ok st)) /\
  (forall st, ended.1 = Some (Ok st) -> exists h, admitted.1 = Some (Ok h) /\ session_with p policy env h st).
Proof.
  intros Hp Hre Hcl admitted ended. destruct (keeps_admit env peer requires_cookie s Hp Hre) as (Hn & Hw & Ha).
  fold admitted in Hn, Hw, Ha. unfold ended, worker_run, io_bind. fold admitted.
  destruct admitted as [[[h|e|]|] s1]; cbn [fst snd] in *; [| |done|];
    [destruct (keeps_answer env k policy p h s1 Hcl) as (Hn2 & Hw2 & Ha2)|..];
    repeat (split; [first [done|(exists []; by rewrite app_nil_r)]|]); try done.
  - split; [intros Hno; by destruct (Hno h)|]. intros st E. exists h. split; [done|by apply Ha2].
Qed.

(** ** Witnesses *)

Module Witnesses.
Import Toy ToyJson Handshake.Witnesses.

Definition client_env : ClientEnv := mkClientEnv (Ok ()) (Some 1000) at_once [9] (Ok ()).
(** Another worker challenges somebody else while this one waits, and the
    cookie is checked in the next epoch. *)
Definition worker_env : WorkerEnv :=
  mkWorkerEnv (false, false, false) (Ok ()) (Some 1010) [OpIssue (Some 1015) Cookie.Witnesses.other] (Some 1025)
    (Some 1010) at_once (Ok ()).
Definition start : StatelessCookieAuthority * Z := (mkAuthority (zreplicate 32 7) (zreplicate 32 8) 33, 50).
Definition the_client := tcp_handshake_on_connected_stream (R:=Z) alice (knows bob) SecureDefault client_env.
Definition the_worker := worker_run (R:=Z) worker_env Cookie.Witnesses.client true bob (knows alice) SecureDefault.

Lemma at_once_in_time t : abs_diff 1020 t <= 300 -> in_time t at_once.
Proof. intros Ht c Hc. exists 1020. split; [simpl in Hc; set_solver|done]. Qed.

(** The bytes of the complete run. *)
Definition dialogue : bytes := Eval vm_compute in Nat.iter 3 (dialogue_round the_client 5 the_worker start) [].
Definition ended_ok {A} (out : option (result A) * bytes) : bool :=
  match out.1 with Some r => is_ok r | None => false end.

Lemma tcp_handshake_completes_witness :
  (ended_ok (outcome_on the_client 5 dialogue) = true /\
   ended_ok (outcome_on the_worker start (outcome_on the_client 5 dialogue).2) = true) /\
  exists mi mr,
    (exists r, (build_hello_with_profile (R:=Z) alice SecureDefault (Some 1000) 5).1 = Ok mi /\
               (build_hello_with_profile (R:=Z) bob SecureDefault (Some 1010) r).1 = Ok mr) /\
    (derive_shared (local_ephemeral mi) (public (local_ephemeral mr)) <> zreplicate 32 0 ->
     exists sti str client_sent server_sent ri' s',
       steps the_client (beside 5) (beside ri') server_sent client_sent sti /\
       steps the_worker (beside start) (beside s') client_sent server_sent str /\
       mirrored sti str /\
       peer_fingerprint_hex sti = fingerprint_hex bob /\ peer_fingerprint_hex str = fingerprint_hex alice /\
       Nat.iter 3 (dialogue_round the_client 5 the_worker start) [] = server_sent).
Proof.
  split; [split; vm_compute; reflexivity|].
  apply (tcp_handshake_completes (zreplicate 32 1) (zreplicate 32 2) (zreplicate 32 3) (zreplicate 32 4)
    alice bob SecureDefault 1000 1010 5 start (knows bob) (knows alice) client_env worker_env Cookie.Witnesses.client true).
  - intros n r. by eexists.
  - split; [reflexivity|split; vm_compute; reflexivity].
  - split; [reflexivity|split; vm_compute; reflexivity].
  - vm_compute; discriminate.
  - split; vm_compute; discriminate.
  - split; vm_compute; discriminate.
  - reflexivity.
  - reflexivity.
  - apply at_once_in_time. vm_compute; discriminate.
  - apply at_once_in_time. vm_compute; discriminate.
  - by left.
  - by left.
  - reflexivity.
  - reflexivity.
  - split; [reflexivity|split; reflexivity].
  - intros _. split; [by_compute|]. exists 1010. split; [reflexivity|]. split; [discriminate|].
    split; [constructor; [intros n [= <-]; vm_compute; discriminate|constructor]|right; vm_compute; reflexivity].
Defined.

(** A client that answers the challenge with a cookie of its own making. *)
Definition forged : bytes :=
  Eval vm_compute in (outcome_on the_client 5 []).2 ++ cookie_line COOKIE_RESPONSE_PREFIX (zreplicate 32 1) ++ [10].
Definition under_attack : Conn * (StatelessCookieAuthority * Z) := beside start (conn_at forged (byte_events forged) []).

Lemma worker_admits_then_answers_witness :
  (the_worker under_attack).1 = Some (Err (Auth "invalid or expired pre-authentication cookie")) /\
  (exists written, sent_by (the_worker under_attack).2
     = sent_by (admit_hello (R:=Z) worker_env Cookie.Witnesses.client true under_attack).2 ++ written /\ zlen written <= MAX_HELLO_BYTES + 1) /\
  (exists written, sent_by (admit_hello (R:=Z) worker_env Cookie.Witnesses.client true under_attack).2 = [] ++ written /\ zlen written <= 89).
Proof.
  destruct (worker_admits_then_answers worker_env Cookie.Witnesses.client true bob (knows alice) SecureDefault under_attack)
    as (_ & Hgate & Hanswer & _); [by_compute|discriminate..|].
  split; [vm_compute; reflexivity|]. split; [exact Hanswer|exact Hgate].
Defined.
End Witnesses.
