(* ===== verification/Socks.v ===== *)
(** The way to a TCP peer (shph-transport/src/lib.rs): the transport mode, the
    underlay (direct, a SOCKS5 proxy, Tor) and the SOCKS5 client, which may be
    cancelled while it waits.  Connecting the socket is an input. *)
From S2P Require Import Net.
From S2P Require Import Prelude Error Text Primitives TcpTransport TcpIo Dialogue.

(** ** Modes and underlays *)

Inductive TransportMode := ModeTcp | ModeQuic | ModeQuicStandard | ModeOfflineMesh | ModeDataMule.

Definition TransportMode_parse (value : string) : result TransportMode :=
  let v := to_ascii_lowercase value in
  if bool_decide (v = "tcp") then Ok ModeTcp
  else if bool_decide (v = "quic") then Ok ModeQuic
  else if bool_decide (v ∈ ["quic-standard"; "quic-std"; "quic-rfc"]) then Ok ModeQuicStandard
  else if bool_decide (v ∈ ["offline-mesh"; "offlinemesh"]) then Ok ModeOfflineMesh
  else if bool_decide (v ∈ ["data-mule"; "data_mule"; "datamule"]) then Ok ModeDataMule
  else Err (InvalidArgument ("unsupported transport mode: " +:+ value)).

Inductive TcpUnderlay := Direct | Socks5 (proxy : string) | Tor (proxy : string).

Definition format_socket_endpoint (host : string) (port : Z) : string :=
  if bool_decide (58 ∈ str_bytes host) then "[" +:+ host +:+ "]:" +:+ show port
  else host +:+ ":" +:+ show port.

Definition SOCKS5_SCHEMES : list bytes := map str_bytes ["socks5://"; "socks5h://"; "tor://"].

Definition TcpUnderlay_parse (value : option string) : result TcpUnderlay :=
  let value := trim_bytes (str_bytes (default "" value)) in
  if bool_decide (value = []) then Ok Direct
  else if eq_ignore_ascii_case (bytes_str value) "direct" then Ok Direct
  else
    let? proxy := ok_or (strip_any SOCKS5_SCHEMES value)
      (InvalidArgument "underlay must be direct, socks5://host:port, socks5h://host:port, or tor://loopback:port") in
    let proxy := trim_bytes proxy in
    if bool_decide (proxy = []) || bool_decide (64 ∈ proxy) || bool_decide (47 ∈ proxy)
       || has_control proxy || has_white_space proxy
    then Err (InvalidArgument "SOCKS5 underlay must be a host:port without credentials or path")
    else
      let? endpoint := match Endpoint_parse (bytes_str proxy) with
                       | inr endpoint => Ok endpoint
                       | inl error => Err (InvalidArgument ("invalid SOCKS5 proxy: " +:+ error))
                       end in
      if endpoint_port endpoint =? 0 then Err (InvalidArgument "SOCKS5 proxy port must be non-zero")
      else
        let formatted := format_socket_endpoint (host endpoint) (endpoint_port endpoint) in
        if bool_decide (is_Some (strip_prefix (str_bytes "tor://") value)) then
          if match parse_ip (host endpoint) with Some ip => is_loopback ip | None => false end
          then Ok (Tor formatted)
          else Err (InvalidArgument "Tor proxy must be a literal loopback address")
        else Ok (Socks5 formatted).

Definition is_direct (u : TcpUnderlay) : bool := match u with Direct => true | _ => false end.

Definition label (u : TcpUnderlay) : string :=
  match u with Direct => "direct" | Socks5 _ => "socks5" | Tor _ => "tor" end.

Definition config_value (u : TcpUnderlay) : option string :=
  match u with
  | Direct => None
  | Socks5 proxy => Some ("socks5://" +:+ proxy)
  | Tor proxy => Some ("tor://" +:+ proxy)
  end.

(** ** Cancellation *)

(** What a setup that may be cancelled reads besides the socket: the answers of
    the cancellation flag and of the deadline check, in order ([false] when the
    list has ended). *)
Record Watch := mkWatch { polls : list bool; late : list bool }.

Definition next_flag (l : list bool) : bool * list bool :=
  match l with b :: l => (b, l) | [] => (false, []) end.

Definition cancelled_error : ShphError := Transport "SOCKS5 setup cancelled".

(** [check_setup_cancellation(Some(cancelled))] *)
Definition poll_cancelled (w : Watch) : result unit * Watch :=
  let '(c, rest) := next_flag (polls w) in
  (if c then Err cancelled_error else Ok (), mkWatch rest (late w)).

Definition check_deadline (w : Watch) : result unit * Watch :=
  let '(l, rest) := next_flag (late w) in
  (if l then Err Timeout else Ok (), mkWatch (polls w) rest).

(** The two checks before a system call and after one that timed out. *)
Definition check_watch (w : Watch) : result unit * Watch :=
  let! _ok, w := poll_cancelled w in check_deadline w.

Definition check_setup_cancellation (cancellation : bool) : IO (Conn * Watch) unit :=
  on_snd (fun w => if cancellation then poll_cancelled w else (Ok (), w)).

Definition timed_out (kind : IoErrorKind) : bool :=
  match kind with IoTimedOut | IoWouldBlock => true | _ => false end.

(** [read_exact_or_closed_with_deadline_and_cancel] with [buf] read so far. *)
Fixpoint read_cancel_loop (events : list ReadEvent) (inflight buf : bytes) (len : Z) (w : Watch)
  : option (result bytes) * (RxStream * Watch) :=
  if len <=? zlen buf then
    let '(ok, w) := poll_cancelled w in
    (Some (let? _ok := ok in Ok buf), (mkRxStream inflight events, w))
  else
    match check_watch w with
    | (Ok _, w) =>
        match events with
        | [] => (None, (mkRxStream inflight [], w))
        | Deliver k :: events =>
            let chunk := ztake (Z.min k (len - zlen buf)) inflight in
            if zlen chunk =? 0 then (Some (Err ConnectionClosed), (mkRxStream inflight events, w))
            else read_cancel_loop events (zdrop (zlen chunk) inflight) (buf ++ chunk) len w
        | Interrupted :: events => (Some (Err interrupted_error), (mkRxStream inflight events, w))
        | Failed kind :: events =>
            if timed_out kind then
              match check_watch w with
              | (Ok _, w) => read_cancel_loop events inflight buf len w
              | (Err e, w) => (Some (Err e), (mkRxStream inflight events, w))
              | (Panic, w) => (Some Panic, (mkRxStream inflight events, w))
              end
            else (Some (Err (map_io_error kind)), (mkRxStream inflight events, w))
        end
    | (Err e, w) => (Some (Err e), (mkRxStream inflight events, w))
    | (Panic, w) => (Some Panic, (mkRxStream inflight events, w))
    end.

(** [write_tcp_all_or_closed_with_deadline_and_cancel] with [payload] left.  A
    [Broken n] event is two calls when [n > 0]: one takes [n] bytes, the next
    fails. *)
Fixpoint write_cancel_loop (events : list WriteEvent) (sent payload : bytes) (w : Watch)
  : result unit * (TxStream * Watch) :=
  if zlen payload <=? 0 then let '(ok, w) := poll_cancelled w in (ok, (mkTxStream sent events, w))
  else
    match check_watch w with
    | (Ok _, w) =>
        match events with
        | [] => let '(ok, w) := poll_cancelled w in (ok, (mkTxStream (sent ++ payload) [], w))
        | Written :: events => let '(ok, w) := poll_cancelled w in (ok, (mkTxStream (sent ++ payload) events, w))
        | Broken n kind :: events =>
            let sent := sent ++ ztake n payload in
            let payload := zdrop n payload in
            match (if 0 <? n then check_watch w else (Ok (), w)) with
            | (Ok _, w) =>
                if timed_out kind then
                  match check_watch w with
                  | (Ok _, w) => write_cancel_loop events sent payload w
                  | (Err e, w) => (Err e, (mkTxStream sent events, w))
                  | (Panic, w) => (Panic, (mkTxStream sent events, w))
                  end
                else (Err (map_io_error kind), (mkTxStream sent events, w))
            | (Err e, w) => (Err e, (mkTxStream sent events, w))
            | (Panic, w) => (Panic, (mkTxStream sent events, w))
            end
        end
    | (Err e, w) => (Err e, (mkTxStream sent events, w))
    | (Panic, w) => (Panic, (mkTxStream sent events, w))
    end.

(** ** The SOCKS5 client *)

Definition write_socks5_bytes (cancellation : bool) (payload : bytes) : IO (Conn * Watch) unit :=
  if cancellation then fun '(c, w) =>
    let '(r, (s, w)) := write_cancel_loop (tx_events (c_tx c)) (tx (c_tx c)) payload w in
    (Some r, (mkConn (c_rx c) s, w))
  else on_fst (io_write payload).

Definition read_socks5_bytes (cancellation : bool) (len : Z) : IO (Conn * Watch) bytes :=
  if cancellation then fun '(c, w) =>
    let '(r, (s, w)) := read_cancel_loop (rx_events (c_rx c)) (rx (c_rx c)) [] len w in
    (r, (mkConn s (c_tx c), w))
  else on_fst (io_read (read_exact len)).

Definition authentication_invalid (authentication : option (bytes * bytes)) : bool :=
  match authentication with
  | Some (user, password) =>
      bool_decide (user = []) || bool_decide (password = []) || (255 <? zlen user) || (255 <? zlen password)
  | None => false
  end.

Definition socks5_authenticate (cancellation : bool) (user password : bytes) : IO (Conn * Watch) unit :=
  let auth := [1; cast 8 (zlen user)] ++ user ++ [cast 8 (zlen password)] ++ password in
  let* _ok := write_socks5_bytes cancellation auth in
  let* response := read_socks5_bytes cancellation 2 in
  if bytes_eqb response [1; 0] then io_ret (Ok ()) else io_ret (Err (Auth "SOCKS authentication failed")).

(** The CONNECT request for a peer. *)
Definition socks5_request (peer : string) : result bytes :=
  let? endpoint := match Endpoint_parse peer with
                   | inr endpoint => Ok endpoint
                   | inl error => Err (InvalidArgument ("invalid SHPH peer: " +:+ error))
                   end in
  let host_bytes := str_bytes (host endpoint) in
  if has_control host_bytes || has_white_space host_bytes
  then Err (InvalidArgument "SHPH peer host contains whitespace or control characters")
  else
    let? address :=
      match parse_ip (host endpoint) with
      | Some (IpV4 octets) => Ok (1 :: octets)
      | Some (IpV6 octets) => Ok (4 :: octets)
      | None =>
          if bool_decide (host_bytes = []) || (u8_max <? zlen host_bytes)
          then Err (InvalidArgument "SOCKS5 destination hostname must be 1-255 bytes")
          else Ok (3 :: cast 8 (zlen host_bytes) :: host_bytes)
      end in
    Ok ([5; 1; 0] ++ address ++ be_bytes 2 (endpoint_port endpoint)).

(** The address the proxy reports, which the client discards. *)
Definition read_bound_address (cancellation : bool) (atyp : Z) : IO (Conn * Watch) unit :=
  if atyp =? 1 then
    let* _address := read_socks5_bytes cancellation 4 in io_ret (Ok ())
  else if atyp =? 3 then
    let* length := read_socks5_bytes cancellation 1 in
    let* length := io_ret (index length 0) in
    let* _address := read_socks5_bytes cancellation length in io_ret (Ok ())
  else if atyp =? 4 then
    let* _address := read_socks5_bytes cancellation 16 in io_ret (Ok ())
  else io_ret (Err (Protocol ("SOCKS5 proxy returned an invalid address type " +:+ show atyp))).

Definition read_socks5_reply (cancellation : bool) : IO (Conn * Watch) unit :=
  let* response_header := read_socks5_bytes cancellation 4 in
  let* version := io_ret (index response_header 0) in
  let* reserved := io_ret (index response_header 2) in
  let* reply := io_ret (index response_header 1) in
  let* atyp := io_ret (index response_header 3) in
  if negb (version =? 5) then io_ret (Err (Protocol "SOCKS5 proxy returned an invalid version"))
  else if negb (reserved =? 0) then io_ret (Err (Protocol "SOCKS5 proxy returned an invalid reserved field"))
  else if negb (reply =? 0) then io_ret (Err (Transport ("SOCKS5 CONNECT failed with reply code " +:+ show reply)))
  else
    let* _ok := read_bound_address cancellation atyp in
    let* _port := read_socks5_bytes cancellation 2 in
    check_setup_cancellation cancellation.

Definition socks5_connect_authenticated_with_cancel (cancellation : bool) (peer : string)
    (authentication : option (bytes * bytes)) : IO (Conn * Watch) unit :=
  let method := match authentication with Some _ => 2 | None => 0 end in
  if authentication_invalid authentication
  then io_ret (Err (Config "SOCKS authentication values must be 1..255 bytes"))
  else
    let* _ok := write_socks5_bytes cancellation [5; 1; method] in
    let* method_response := read_socks5_bytes cancellation 2 in
    if negb (bytes_eqb method_response [5; method])
    then io_ret (Err (Transport "SOCKS5 proxy rejected the required authentication method"))
    else
      let* _ok := match authentication with
                  | Some (user, password) => socks5_authenticate cancellation user password
                  | None => io_ret (Ok ())
                  end in
      let* request := io_ret (socks5_request peer) in
      let* _ok := write_socks5_bytes cancellation request in
      read_socks5_reply cancellation.

(** ** Connecting through an underlay *)

(** [connect] resolves a name and opens a socket; [refresh] are the outcomes of
    setting the deadlines before and after the SOCKS exchange; [credentials] are
    the random user and password of a Tor circuit. *)
Definition connect_tcp_via_underlay_inner (peer : string) (underlay : TcpUnderlay) (cancellation : bool)
    (connect : string -> result Conn) (refresh : result unit * result unit) (credentials : bytes * bytes)
    (w : Watch) : option (result Conn) :=
  let through conn exchange :=
    match exchange (conn, w) with
    | (None, _) => None
    | (Some r, (conn, _)) => Some (let? _ok := r in let? _ok := refresh.2 in Ok conn)
    end in
  match (check_setup_cancellation cancellation) (mkConn (mkRxStream [] []) (mkTxStream [] []), w) with
  | (Some (Ok _), (_, w)) =>
      match underlay with
      | Direct => Some (connect peer)
      | Socks5 proxy =>
          match (let? conn := connect proxy in let? _ok := refresh.1 in Ok conn) with
          | Ok conn => through conn (socks5_connect_authenticated_with_cancel cancellation peer None)
          | Err e => Some (Err e)
          | Panic => Some Panic
          end
      | Tor proxy =>
          match parse_socket_addr proxy with
          | Some address =>
              if negb (is_loopback (ip address)) || (port address =? 0)
              then Some (Err (Config "Tor proxy must be a literal loopback socket"))
              else
                match connect proxy with
                | Ok conn => through conn (socks5_connect_authenticated_with_cancel cancellation peer (Some credentials))
                | Err e => Some (Err e)
                | Panic => Some Panic
                end
          | None => Some (Err (Config "Tor proxy must be a literal loopback socket"))
          end
      end
  | (Some (Err e), _) => Some (Err e)
  | (Some Panic, _) => Some Panic
  | (None, _) => None
  end.

(** ** The protocol as a specification (RFC 1928, RFC 1929) *)

Inductive Destination := DestIp (a : IpAddr) | DestName (name : bytes).

(** How a proxy reads a CONNECT request. *)
Definition socks5_decode (request : bytes) : option (Destination * Z) :=
  match request with
  | 5 :: 1 :: 0 :: 1 :: rest =>
      if zlen rest =? 6 then Some (DestIp (IpV4 (ztake 4 rest)), be_val (zdrop 4 rest)) else None
  | 5 :: 1 :: 0 :: 4 :: rest =>
      if zlen rest =? 18 then Some (DestIp (IpV6 (ztake 16 rest)), be_val (zdrop 16 rest)) else None
  | 5 :: 1 :: 0 :: 3 :: n :: rest =>
      if zlen rest =? n + 2 then Some (DestName (ztake n rest), be_val (zdrop n rest)) else None
  | _ => None
  end.

(** The destination a peer's name stands for. *)
Definition destination (host : string) : Destination :=
  match parse_ip host with Some a => DestIp a | None => DestName (str_bytes host) end.

(** The bound address of a reply, with its type. *)
Definition bound_field (b : bytes) : Prop :=
  exists atyp body, b = atyp :: body /\
    ((atyp = 1 /\ zlen body = 4) \/ (atyp = 4 /\ zlen body = 16) \/
     (atyp = 3 /\ exists n name, body = n :: name /\ zlen name = n)).

Definition method_of (authentication : option (bytes * bytes)) : Z :=
  match authentication with Some _ => 2 | None => 0 end.

Definition greeting (authentication : option (bytes * bytes)) : bytes := [5; 1; method_of authentication].

Definition auth_request (authentication : option (bytes * bytes)) : bytes :=
  match authentication with
  | Some (user, password) => [1; zlen user] ++ user ++ [zlen password] ++ password
  | None => []
  end.

Definition auth_reply (authentication : option (bytes * bytes)) : bytes :=
  match authentication with Some _ => [1; 0] | None => [] end.

(** What an accepting proxy sends. *)
Definition accepting (authentication : option (bytes * bytes)) (bound prt : bytes) : bytes :=
  [5; method_of authentication] ++ auth_reply authentication ++ [5; 0; 0] ++ bound ++ prt.

(** ** Lemmas: a setup that is not cancelled *)

Definition quiet : Watch := mkWatch [] [].

Lemma read_cancel_quiet evs inflight buf len : Forall delivery evs ->
  read_cancel_loop evs inflight buf len quiet =
  let '(r, s) := read_exact_loop evs inflight buf len in (r, (s, quiet)).
Proof.
  intros Hd. revert inflight buf. induction Hd as [|e evs He _ IH]; intros inflight buf; cbn [read_cancel_loop read_exact_loop].
  - by destruct (len <=? zlen buf).
  - destruct (len <=? zlen buf); [done|]. destruct e as [k| |]; [|done..]. change (check_watch quiet) with (Ok (), quiet).
    cbv beta iota zeta. destruct (zlen (ztake _ _) =? 0); [done|]. apply IH.
Qed.

Section Quiet.
Context (cancellation : bool).

Lemma steps_read_socks len data : len = zlen data ->
  steps (read_socks5_bytes cancellation len) (beside quiet) (beside quiet) data [] data.
Proof.
  intros ->. destruct cancellation; [|apply steps_fst, steps_exact]. intros exact rest evs tx Hf.
  destruct (read_exact_loop_feeds exact evs data rest [] Hf) as (evs' & E & ?). exists evs'. split; [|done].
  unfold read_socks5_bytes, beside, conn_at. cbn [c_rx rx rx_events c_tx].
  rewrite zlen_nil, Z.add_0_l in E. rewrite read_cancel_quiet by apply Hf. by rewrite E, app_nil_r.
Qed.

Lemma waits_read_socks len : 0 < len -> waits (read_socks5_bytes cancellation len) (beside quiet) [] [].
Proof.
  intros Hl. destruct cancellation; [|by apply waits_fst, waits_exact]. intros tx. eexists.
  unfold read_socks5_bytes, beside, conn_at. cbn [c_rx rx rx_events byte_events map read_cancel_loop c_tx].
  rewrite zlen_nil, (proj2 (Z.leb_gt _ _)), app_nil_r by done. done.
Qed.

Lemma steps_write_socks data : data <> [] ->
  steps (write_socks5_bytes cancellation data) (beside quiet) (beside quiet) [] data ().
Proof.
  intros Hne. destruct cancellation; [|by apply steps_fst, steps_write]. intros exact rest evs tx Hf. exists evs.
  split; [|done]. unfold write_socks5_bytes, beside, conn_at. cbn [c_tx tx_events TcpTransport.tx c_rx write_cancel_loop].
  destruct data as [|b data]; [done|]. rewrite (proj2 (Z.leb_gt _ _)) by zl. done.
Qed.

Lemma steps_check : steps (check_setup_cancellation cancellation) (beside quiet) (beside quiet) [] [] ().
Proof. apply steps_snd. by destruct cancellation. Qed.
End Quiet.

(** ** Lemmas: requests *)

Lemma read_octets_len n index l octets rest : read_octets n index l = Some (octets, rest) -> zlen octets = Z.of_nat n.
Proof.
  revert index l octets rest. induction n as [|n IH]; intros index l octets rest; cbn [read_octets]; [by intros [= <- _]|].
  destruct (read_separator _ _ _ _) as [[o l']|]; [|done].
  destruct (read_octets n _ l') as [[os l'']|] eqn:E; [|done]. intros [= <- _]. apply IH in E. zl.
Qed.

Lemma read_groups_len n index l groups v4 rest : read_groups n index l = (groups, v4, rest) -> zlen groups <= Z.of_nat n.
Proof.
  revert index l groups v4 rest. induction n as [|n IH]; intros index l groups v4 rest; cbn [read_groups]; [intros E; assert (groups = []) as -> by congruence; done|].
  destruct (if 1 <? Z.of_nat (S n) then _ else _) as [[o l']|] eqn:E4.
  - destruct (Z.ltb_spec 1 (Z.of_nat (S n))); [|done]. intros E. assert (groups = [be_val (ztake 2 o); be_val (zdrop 2 o)]) as -> by congruence. zl.
  - destruct (read_separator _ _ (read_number _ _ _ _) _) as [[g l']|]; [|intros E; assert (groups = []) as -> by congruence; zl].
    destruct (read_groups n _ l') as [[gs v] l2] eqn:E. intros E2. assert (groups = g :: gs) as -> by congruence. apply IH in E. zl.
Qed.

Lemma zlen_groups gs : zlen (flat_map (be_bytes 2) gs) = 2 * zlen gs.
Proof. induction gs as [|g gs IH]; [done|]. cbn [flat_map]. rewrite zlen_app, IH, zlen_be_bytes, zlen_cons. lia. Qed.

Lemma parse_ip_len s a : parse_ip s = Some a ->
  match a with IpV4 octets => zlen octets = 4 | IpV6 octets => zlen octets = 16 end.
Proof.
  unfold parse_ip. destruct (read_ipv4_addr _) as [[o r]|] eqn:E4.
  { case_bool_decide; [|done]. intros [= <-]. exact (read_octets_len 4 0 _ _ _ E4). }
  destruct (read_ipv6_addr _) as [[o r]|] eqn:E6; [|done]. case_bool_decide; [|done]. intros [= <-].
  unfold read_ipv6_addr in E6. destruct (read_groups 8 0 _) as [[head v4] l] eqn:Eh. apply read_groups_len in Eh.
  destruct (Z.eqb_spec (zlen head) 8) as [H8|H8]; [injection E6 as <- _; by rewrite zlen_groups, H8|].
  destruct v4; [done|]. destruct (read_given_char 58 l) as [l1|]; [|done]. destruct (read_given_char 58 l1) as [l2|]; [|done].
  destruct (read_groups _ 0 l2) as [[tail v] l3] eqn:Et. apply read_groups_len in Et. injection E6 as <- _.
  assert (length head = Z.to_nat (zlen head)) as El by (unfold zlen; lia).
  rewrite zlen_groups. zl.
Qed.

Lemma parse_digits_range radix max l acc n : parse_digits radix max l acc = inr n -> 0 < radix -> 0 <= acc <= max -> 0 <= n <= max.
Proof.
  intros E Hr. revert acc E. induction l as [|c l IH]; intros acc E Ha; cbn [parse_digits] in E; [by injection E as <-|].
  unfold to_digit in E. destruct (hex_value c) as [d|] eqn:Ed; [|done]. case_if.
  unfold checked_mul, checked_add in E. destruct (Z.leb_spec (acc * radix) max); [|done].
  destruct (Z.leb_spec (acc * radix + d) max); [|done]. apply (IH _ E).
  assert (0 <= d) by (unfold hex_value, in_range in Ed; repeat case_match; simplify_eq; bool_prop; lia). nia.
Qed.

Lemma parse_int_range radix max l n : parse_int radix max l = inr n -> 0 < radix -> 0 <= max -> 0 <= n <= max.
Proof.
  intros E Hr Hm. assert (exists k, parse_digits radix max k 0 = inr n) as [k Hk].
  { unfold parse_int in E. repeat case_match; try done; by eexists. }
  apply (parse_digits_range _ _ _ _ _ Hk Hr). lia.
Qed.

Lemma endpoint_range addr e : Endpoint_parse addr = inr e -> 0 < endpoint_port e <= u16_max.
Proof.
  unfold Endpoint_parse. intros E. apply try_bind_some in E as (parts & _ & E). apply try_bind_some in E as (p & Ep & E).
  apply try_bind_ok in E as [Ec E]. apply check_or_ok in Ec. injection E as <-. cbn [endpoint_port].
  apply parse_int_range in Ep; [|done..]. bool_prop. lia.
Qed.

(** A request is what a proxy decodes to the peer's destination. *)
Lemma request_decodes peer request : socks5_request peer = Ok request ->
  exists e, Endpoint_parse peer = inr e /\ socks5_decode request = Some (destination (host e), endpoint_port e) /\
    zlen request <= 262 /\ request <> [].
Proof.
  unfold socks5_request, destination. destruct (Endpoint_parse peer) as [er|e] eqn:Ee; cbn [rbind]; [done|].
  case_if; [done|]. intros E. exists e. split; [done|]. apply endpoint_range in Ee.
  assert (be_val (be_bytes 2 (endpoint_port e)) = endpoint_port e) as Hp by (apply be_val_be_bytes; unfold u16_max in *; cbn; lia).
  apply rbind_ok in E as (address & Ea & [= <-]). set (p := be_bytes 2 (endpoint_port e)) in *.
  assert (zlen p = 2) as Hlp by apply zlen_be_bytes. clearbody p.
  destruct (parse_ip (host e)) as [[o|o]|] eqn:Ei.
  - injection Ea as <-. apply parse_ip_len in Ei. cbn [app socks5_decode]. rewrite (proj2 (Z.eqb_eq _ _)) by zl.
    rewrite ztake_app, zdrop_app, Hp by done. split; [done|]. split; [zl|done].
  - injection Ea as <-. apply parse_ip_len in Ei. cbn [app socks5_decode]. rewrite (proj2 (Z.eqb_eq _ _)) by zl.
    rewrite ztake_app, zdrop_app, Hp by done. split; [done|]. split; [zl|done].
  - case_if. injection Ea as <-. bool_prop. unfold u8_max in *. set (h := str_bytes (host e)) in *.
    assert (cast 8 (zlen h) = zlen h) as -> by (apply Z.mod_small; zl). cbn [app socks5_decode].
    rewrite (proj2 (Z.eqb_eq _ _)) by zl. rewrite ztake_app, zdrop_app, Hp by done. split; [done|]. split; [zl|done].
Qed.

Lemma request_no_panic peer : no_panic (socks5_request peer).
Proof.
  unfold socks5_request. destruct (Endpoint_parse peer) as [er|e]; cbn [rbind]; [done|]. case_if; [done|].
  destruct (parse_ip (host e)) as [[o|o]|]; cbn [rbind]; try done. by case_if.
Qed.

(** ** Lemmas: an accepting proxy *)

Section Accepting.
Context (cancellation : bool).
Notation q := (beside quiet).

(** Reading [data] and going on with [o]. *)
Lemma steps_reading {A} len data (k : bytes -> IO (Conn * Watch) A) i o v : len = zlen data ->
  steps (k data) q q i o v -> steps (io_bind (read_socks5_bytes cancellation len) k) q q (data ++ i) o v.
Proof. intros Hl Hk. apply (steps_bind _ k _ q _ data i [] o data); [by apply steps_read_socks|done]. Qed.

Lemma waits_reading {A} len data (k : bytes -> IO (Conn * Watch) A) i o : len = zlen data ->
  waits (k data) q i o -> waits (io_bind (read_socks5_bytes cancellation len) k) q (data ++ i) o.
Proof. intros Hl Hk. apply (waits_bind _ k _ q data i [] o data); [by apply steps_read_socks|done]. Qed.

Lemma steps_writing {A} data (k : unit -> IO (Conn * Watch) A) i o v : data <> [] ->
  steps (k ()) q q i o v -> steps (io_bind (write_socks5_bytes cancellation data) k) q q i (data ++ o) v.
Proof. intros Hl Hk. apply (steps_bind _ k _ q _ [] i data o ()); [by apply steps_write_socks|done]. Qed.

Lemma waits_writing {A} data (k : unit -> IO (Conn * Watch) A) i o : data <> [] ->
  waits (k ()) q i o -> waits (io_bind (write_socks5_bytes cancellation data) k) q i (data ++ o).
Proof. intros Hl Hk. apply (waits_bind _ k _ q [] i data o ()); [by apply steps_write_socks|done]. Qed.

Lemma steps_bound atyp body : bound_field (atyp :: body) -> steps (read_bound_address cancellation atyp) q q body [] ().
Proof.
  intros (t & b & [= <- <-] & Hb). unfold read_bound_address. rewrite <- (app_nil_r body).
  destruct Hb as [[-> Hb]|[[-> Hb]|[-> (n & name & -> & Hn)]]]; cbn [Z.eqb Pos.eqb].
  - apply steps_reading; [done|apply steps_ret].
  - apply steps_reading; [done|apply steps_ret].
  - change (n :: name) with ([n] ++ name). rewrite <- app_assoc. apply steps_reading; [done|].
    eapply steps_then; [by apply steps_ok|]. apply steps_reading; [done|apply steps_ret].
Qed.

Lemma steps_reply bound prt : bound_field bound -> zlen prt = 2 ->
  steps (read_socks5_reply cancellation) q q ([5; 0; 0] ++ bound ++ prt) [] ().
Proof.
  intros Hb Hp. pose proof Hb as (atyp & body & -> & _). unfold read_socks5_reply.
  change ([5; 0; 0] ++ (atyp :: body) ++ prt) with ([5; 0; 0; atyp] ++ body ++ prt). apply steps_reading; [done|].
  do 4 (eapply steps_then; [by apply steps_ok|]). cbn [Z.eqb Pos.eqb negb].
  rewrite <- (app_nil_r (body ++ prt)), <- app_assoc.
  apply (steps_bind _ _ _ q _ body _ [] [] ()); [by apply steps_bound|].
  apply steps_reading; [done|apply steps_check].
Qed.

Lemma auth_bytes user password : authentication_invalid (Some (user, password)) = false ->
  [1; cast 8 (zlen user)] ++ user ++ [cast 8 (zlen password)] ++ password = auth_request (Some (user, password)).
Proof.
  cbn [authentication_invalid]. intros Ha. bool_prop. unfold auth_request.
  assert (cast 8 (zlen user) = zlen user) as -> by (apply Z.mod_small; zl).
  by assert (cast 8 (zlen password) = zlen password) as -> by (apply Z.mod_small; zl).
Qed.

(** The client after its greeting has been accepted. *)
Definition after_method (peer : string) (authentication : option (bytes * bytes)) : IO (Conn * Watch) unit :=
  let* _ok := match authentication with
              | Some (user, password) => socks5_authenticate cancellation user password
              | None => io_ret (Ok ())
              end in
  let* request := io_ret (socks5_request peer) in
  let* _ok := write_socks5_bytes cancellation request in
  read_socks5_reply cancellation.

Lemma socks5_client peer authentication : authentication_invalid authentication = false ->
  socks5_connect_authenticated_with_cancel cancellation peer authentication =
  let* _ok := write_socks5_bytes cancellation (greeting authentication) in
  let* method_response := read_socks5_bytes cancellation 2 in
  if negb (bytes_eqb method_response [5; method_of authentication])
  then io_ret (Err (Transport "SOCKS5 proxy rejected the required authentication method"))
  else after_method peer authentication.
Proof. intros Ha. unfold socks5_connect_authenticated_with_cancel. by rewrite Ha. Qed.

Lemma after_method_runs peer authentication request bound prt :
  authentication_invalid authentication = false -> socks5_request peer = Ok request -> bound_field bound -> zlen prt = 2 ->
  steps (after_method peer authentication) q q (auth_reply authentication ++ [5; 0; 0] ++ bound ++ prt)
    (auth_request authentication ++ request) () /\
  waits (after_method peer authentication) q (auth_reply authentication) (auth_request authentication ++ request) /\
  (authentication <> None -> waits (after_method peer authentication) q [] (auth_request authentication)).
Proof.
  intros Ha Hr Hb Hp. destruct (request_decodes _ _ Hr) as (_ & _ & _ & _ & Hne).
  assert (steps (let* _ok := write_socks5_bytes cancellation request in read_socks5_reply cancellation) q q
            ([5; 0; 0] ++ bound ++ prt) request () /\
          waits (let* _ok := write_socks5_bytes cancellation request in read_socks5_reply cancellation) q [] request) as [Sk Wk].
  { rewrite <- (app_nil_r request) at 2 4. split.
    - apply steps_writing; [done|by apply steps_reply].
    - apply waits_writing; [done|]. by apply waits_here, waits_read_socks. }
  unfold after_method. destruct authentication as [[user password]|]; cbn [auth_reply].
  - pose proof (auth_bytes user password Ha) as Eb. unfold socks5_authenticate. rewrite Eb.
    assert (auth_request (Some (user, password)) <> []) as Hane by done.
    set (a := auth_request (Some (user, password))) in *. clearbody a.
    assert (steps (let* _ok := write_socks5_bytes cancellation a in let* response := read_socks5_bytes cancellation 2 in
      if bytes_eqb response [1; 0] then io_ret (Ok ()) else io_ret (Err (Auth "SOCKS authentication failed"))) q q [1; 0] a ()) as Sa.
    { rewrite <- (app_nil_r a) at 2. apply steps_writing; [done|]. rewrite <- (app_nil_r [1; 0]) at 1.
      apply steps_reading; [done|]. rewrite bytes_eqb_refl. apply steps_ret. }
    split; [|split].
    + eapply steps_bind; [exact Sa|]. eapply steps_then; [by apply steps_ok|exact Sk].
    + rewrite <- (app_nil_r [1; 0]). eapply waits_bind; [exact Sa|]. eapply waits_then; [by apply steps_ok|exact Wk].
    + intros _. rewrite <- (app_nil_r a) at 2. apply waits_here, waits_writing; [done|]. by apply waits_here, waits_read_socks.
  - split; [|split; [|done]].
    + eapply steps_then; [apply steps_ret|]. eapply steps_then; [by apply steps_ok|exact Sk].
    + eapply waits_then; [apply steps_ret|]. eapply waits_then; [by apply steps_ok|exact Wk].
Qed.
End Accepting.

(** ** Lemmas: any proxy, any schedule, any cancellation *)

(** All the flags read between two watches were down. *)
Definition clear (w w' : Watch) : Prop :=
  exists p l, polls w = p ++ polls w' /\ late w = l ++ late w' /\ Forall (eq false) p /\ Forall (eq false) l.

Lemma clear_refl w : clear w w.
Proof. by exists [], []. Qed.

Lemma clear_trans w1 w2 w3 : clear w1 w2 -> clear w2 w3 -> clear w1 w3.
Proof.
  intros (p & l & E1 & E2 & Hp & Hl) (p' & l' & E3 & E4 & Hp' & Hl'). exists (p ++ p'), (l ++ l').
  rewrite E1, E2, E3, E4, <- !app_assoc. split_and!; try done; by apply Forall_app.
Qed.

Lemma poll_cases w w' r : poll_cancelled w = (r, w') -> r = Err cancelled_error \/ r = Ok () /\ clear w w'.
Proof.
  unfold poll_cancelled, clear. destruct w as [[|[] ps] ls]; cbn [polls late next_flag]; intros [= <- <-]; [right|by left|right];
    (split; [done|]); [by exists [], []|]. exists [false], []. by repeat constructor.
Qed.

Lemma check_cases w w' r : check_watch w = (r, w') -> r = Err cancelled_error \/ r = Err Timeout \/ r = Ok () /\ clear w w'.
Proof.
  unfold check_watch. destruct (poll_cancelled w) as [r1 w1] eqn:E1. destruct (poll_cases _ _ _ E1) as [->|[-> H1]]; cbn [sbind].
  { intros [= <- _]. by left. }
  unfold check_deadline. destruct w1 as [ps [|[] ls]]; cbn [polls late next_flag]; intros [= <- <-]; right; [right|by left|right];
    (split; [done|]); [done|]. eapply clear_trans; [exact H1|]. exists [], [false]. by repeat constructor.
Qed.

Lemma read_cancel_cases evs inflight buf len w : zlen buf <= len ->
  let '(r, (s', w')) := read_cancel_loop evs inflight buf len w in
  r <> Some Panic /\ forall v, r = Some (Ok v) ->
    zlen v = len /\ (exists taken, inflight = taken ++ rx s' /\ v = buf ++ taken) /\ clear w w'.
Proof.
  revert inflight buf w. induction evs as [|e evs IH]; intros inflight buf w Hb; cbn [read_cancel_loop];
    (destruct (Z.leb_spec len (zlen buf));
     [destruct (poll_cancelled w) as [r w'] eqn:E; destruct (poll_cases _ _ _ E) as [->|[-> Hc]]; cbn [rbind]; [done|];
      split; [done|]; intros v [= <-]; split; [lia|]; split; [exists []; by rewrite app_nil_r|done]|];
     destruct (check_watch w) as [r w'] eqn:E; destruct (check_cases _ _ _ E) as [->|[->|[-> Hc]]]; [done|done|]).
  - done.
  - destruct e as [k| |kind]; [|done|].
    + set (chunk := ztake _ inflight) in *. destruct (zlen chunk =? 0) eqn:Ez; [done|].
      assert (inflight = chunk ++ zdrop (zlen chunk) inflight) as Hi.
      { rewrite <- (ztake_zdrop (Z.min k (len - zlen buf)) inflight) at 1. f_equal.
        rewrite <- (ztake_zdrop (Z.min k (len - zlen buf)) inflight) at 2. fold chunk. by rewrite zdrop_app. }
      assert (zlen (buf ++ chunk) <= len) as Hl by (unfold chunk; zl). clearbody chunk.
      specialize (IH (zdrop (zlen chunk) inflight) (buf ++ chunk) w' Hl).
      destruct (read_cancel_loop _ _ _ _ _) as [r (s' & w2)]. destruct IH as [Hp HQ]. split; [done|].
      intros v Ev. destruct (HQ v Ev) as (Hv & (taken & Ht & ->) & Hc2). split; [done|]. split; [|by eapply clear_trans].
      exists (chunk ++ taken). split; [|by rewrite app_assoc]. rewrite <- app_assoc, <- Ht. exact Hi.
    + destruct (timed_out kind); [|done]. destruct (check_watch w') as [r2 w2] eqn:E2.
      destruct (check_cases _ _ _ E2) as [->|[->|[-> Hc2]]]; [done|done|].
      specialize (IH inflight buf w2 Hb). destruct (read_cancel_loop _ _ _ _ _) as [r (s' & w3)]. destruct IH as [Hp HQ].
      split; [done|]. intros v Ev. destruct (HQ v Ev) as (Hv & Ht & Hc3). split_and!; [done..|]. eauto using clear_trans.
Qed.

Lemma write_cancel_cases evs sent payload w :
  let '(r, (s', w')) := write_cancel_loop evs sent payload w in
  r <> Panic /\ exists out, tx s' = sent ++ out /\ zlen out <= zlen payload /\ (r = Ok () -> out = payload /\ clear w w').
Proof.
  revert sent payload w. induction evs as [|e evs IH]; intros sent payload w; cbn [write_cancel_loop].
  all: destruct (Z.leb_spec (zlen payload) 0);
     [destruct (poll_cancelled w) as [r w'] eqn:E; destruct (poll_cases _ _ _ E) as [->|[-> Hc]]; cbn [TcpTransport.tx];
      (split; [done|]); exists []; rewrite app_nil_r; (split; [done|]); (split; [zl|]); [done|];
      intros _; split; [symmetry; apply zlen_0_inv; zl|done]|].
  all: destruct (check_watch w) as [r w'] eqn:E; destruct (check_cases _ _ _ E) as [->|[->|[-> Hc]]]; cbn [TcpTransport.tx];
     [split; [done|]; exists []; rewrite app_nil_r; split_and!; [done|zl|done]
     |split; [done|]; exists []; rewrite app_nil_r; split_and!; [done|zl|done]|].
  - destruct (poll_cancelled w') as [r2 w2] eqn:E2; destruct (poll_cases _ _ _ E2) as [->|[-> Hc2]]; cbn [TcpTransport.tx];
      (split; [done|]); exists payload; (split_and!; [done|done|]); [done|]. intros _. eauto using clear_trans.
  - destruct e as [|n kind].
    + destruct (poll_cancelled w') as [r2 w2] eqn:E2; destruct (poll_cases _ _ _ E2) as [->|[-> Hc2]]; cbn [TcpTransport.tx];
      (split; [done|]); exists payload; (split_and!; [done|done|]); [done|]. intros _. eauto using clear_trans.
    + destruct (if 0 <? n then check_watch w' else (Ok (), w')) as [r2 w2] eqn:E2.
      assert (r2 = Err cancelled_error \/ r2 = Err Timeout \/ r2 = Ok () /\ clear w w2) as Hr2.
      { destruct (0 <? n); [|injection E2 as <- <-; by right; right].
        destruct (check_cases _ _ _ E2) as [->|[->|[-> ?]]]; [by left|by right; left|right; right]. eauto using clear_trans. }
      assert (exists out, sent ++ ztake n payload = sent ++ out /\ zlen out <= zlen payload) as Hout by (eexists; split; [done|zl]).
      destruct Hr2 as [->|[->|[-> Hc2]]]; cbn [TcpTransport.tx];
        [split; [done|]; destruct Hout as (out & -> & ?); by exists out
        |split; [done|]; destruct Hout as (out & -> & ?); by exists out|].
      destruct (timed_out kind); [|split; [done|]; destruct Hout as (out & -> & ?); by exists out].
      destruct (check_watch w2) as [r3 w3] eqn:E3. destruct (check_cases _ _ _ E3) as [->|[->|[-> Hc3]]]; cbn [TcpTransport.tx];
        [split; [done|]; destruct Hout as (out & -> & ?); by exists out
        |split; [done|]; destruct Hout as (out & -> & ?); by exists out|].
      specialize (IH (sent ++ ztake n payload) (zdrop n payload) w3).
      destruct (write_cancel_loop _ _ _ _) as [r (s' & w4)]. destruct IH as (Hp & out & Ho & Hl & HQ).
      split; [done|]. exists (ztake n payload ++ out). rewrite Ho, app_assoc. split; [done|]. split; [zl|].
      intros Er. destruct (HQ Er) as [-> ?]. rewrite ztake_zdrop. eauto using clear_trans.
Qed.

Lemma socks_client_runs cancellation peer authentication request bound prt :
  authentication_invalid authentication = false -> socks5_request peer = Ok request ->
  bound_field bound -> zlen prt = 2 ->
  let client := socks5_connect_authenticated_with_cancel cancellation peer authentication in
  let sent := greeting authentication ++ auth_request authentication ++ request in
  steps client (beside quiet) (beside quiet) (accepting authentication bound prt) sent () /\
  waits client (beside quiet) [] (greeting authentication) /\
  waits client (beside quiet) ([5; method_of authentication] ++ auth_reply authentication) sent /\
  (authentication <> None ->
   waits client (beside quiet) [5; method_of authentication] (greeting authentication ++ auth_request authentication)) /\
  exists e, Endpoint_parse peer = inr e /\ socks5_decode request = Some (destination (host e), endpoint_port e).
Proof.
  intros Ha Hr Hb Hp client sent. destruct (request_decodes _ _ Hr) as (e & Ee & Ed & _).
  destruct (after_method_runs cancellation peer authentication request bound prt Ha Hr Hb Hp) as (Hs & Hw & Hw2).
  unfold client. rewrite socks5_client by done.
  assert (greeting authentication <> []) as Hg by done. set (g := greeting authentication) in *.
  assert (zlen [5; method_of authentication] = 2) as Hm by done.
  set (k := fun r => if negb (bytes_eqb r [5; method_of authentication]) then _ else _).
  assert (k [5; method_of authentication] = after_method cancellation peer authentication) as Ek by (unfold k; by rewrite bytes_eqb_refl).
  split_and!.
  - apply steps_writing; [done|]. apply (steps_reading _ _ [5; method_of authentication] k); [done|]. by rewrite Ek.
  - rewrite <- (app_nil_r g) at 2. apply waits_writing; [done|]. by apply waits_here, waits_read_socks.
  - apply waits_writing; [done|]. apply (waits_reading _ _ [5; method_of authentication] k); [done|]. by rewrite Ek.
  - intros Hn. apply waits_writing; [done|]. rewrite <- (app_nil_r [5; method_of authentication]).
    apply (waits_reading _ _ [5; method_of authentication] k); [done|]. rewrite Ek. by apply Hw2.
  - by exists e.
Qed.

(** ** Theorems *)

(** with a proxy that accepts each message, and whatever the segmentation of
    its replies, the client connects: it sends the greeting, the credentials and
    a request that a proxy decodes to the peer's host and port, each as soon as
    the previous reply has arrived, and it consumes the replies and not a byte of
    what follows them; polling for a cancellation that does not come changes
    nothing. *)
Theorem socks5_connects cancellation peer authentication request bound prt :
  authentication_invalid authentication = false -> socks5_request peer = Ok request ->
  bound_field bound -> zlen prt = 2 ->
  let client := socks5_connect_authenticated_with_cancel cancellation peer authentication in
  let sent := greeting authentication ++ auth_request authentication ++ request in
  steps client (beside quiet) (beside quiet) (accepting authentication bound prt) sent () /\
  waits client (beside quiet) [] (greeting authentication) /\
  waits client (beside quiet) ([5; method_of authentication] ++ auth_reply authentication) sent /\
  (authentication <> None ->
   waits client (beside quiet) [5; method_of authentication] (greeting authentication ++ auth_request authentication)) /\
  exists e, Endpoint_parse peer = inr e /\ socks5_decode request = Some (destination (host e), endpoint_port e).
Proof. apply socks_client_runs. Qed.

(** ** Lemmas: the client against any proxy *)

Section AnyProxy.
Context (cancellation : bool).
Abbreviation Setup := (Conn * Watch)%type.

Lemma keeps_read_socks len (s : Setup) : 0 <= len ->
  keeps (read_socks5_bytes cancellation len) s 0 (fun v s' =>
    zlen v = len /\ received_by s = v ++ received_by s' /\ sent_by s' = sent_by s /\ clear s.2 s'.2).
Proof.
  destruct s as [c w]. intros Hl. unfold read_socks5_bytes. destruct cancellation.
  - assert (zlen (@nil Z) <= len) as H0 by zl. pose proof (read_cancel_cases (rx_events (c_rx c)) (rx (c_rx c)) [] len w H0) as Hc.
    unfold keeps. destruct (read_cancel_loop _ _ _ _ _) as [r (s' & w')]. destruct Hc as [Hp HQ].
    split; [done|]. split; [exists []; by rewrite app_nil_r|]. cbn [fst snd]. intros v Ev.
    destruct (HQ v Ev) as (Hv & (taken & Ht & ->) & Hc). done.
  - eapply keeps_weaken; [apply keeps_fst, keeps_exact; lia|done|]. intros v s' ((Hv & Hr & Hs) & Hw).
    rewrite Hw. split_and!; try done. apply clear_refl.
Qed.

Lemma keeps_write_socks data (s : Setup) :
  keeps (write_socks5_bytes cancellation data) s (zlen data) (fun _ s' =>
    received_by s' = received_by s /\ sent_by s' = sent_by s ++ data /\ clear s.2 s'.2).
Proof.
  destruct s as [c w]. unfold write_socks5_bytes. destruct cancellation.
  - pose proof (write_cancel_cases (tx_events (c_tx c)) (tx (c_tx c)) data w) as Hc. unfold keeps.
    destruct (write_cancel_loop _ _ _ _) as [r (s' & w')]. destruct Hc as (Hp & out & Ho & Hl & HQ). cbn [fst snd].
    split; [congruence|]. split; [exists out; done|]. intros [] [= ->]. destruct (HQ eq_refl) as [-> ?]. done.
  - unfold keeps, on_fst, io_write, sent_by, received_by, conn_of, conn_beside, write_tcp_all_or_closed.
    case_if; [|destruct (tx_events (c_tx c)) as [|[|n kind] evs]]; cbn [fst snd c_tx c_rx TcpTransport.tx rx];
      (split; [done|]); (split; [first [exists []; rewrite app_nil_r; split; [done|zl] | eexists; split; [reflexivity|zl]]|]); try done; intros [] _;
      (split; [done|]); (split; [|apply clear_refl]); [|done..].
    bool_prop. assert (data = []) as -> by (apply zlen_0_inv; zl). by rewrite app_nil_r.
Qed.

(** What the client has done since [s]: bytes read and written, flags seen. *)
Definition since (s s' : Setup) (input output : bytes) : Prop :=
  received_by s = input ++ received_by s' /\ sent_by s' = sent_by s ++ output /\ clear s.2 s'.2.

Lemma since_refl s : since s s [] [].
Proof. split; [done|]. split; [by rewrite app_nil_r|apply clear_refl]. Qed.

Lemma since_app s s1 s2 i o i' o' : since s s1 i o -> since s1 s2 i' o' -> since s s2 (i ++ i') (o ++ o').
Proof.
  intros (E1 & E2 & C1) (E3 & E4 & C2). split; [by rewrite E1, E3, app_assoc|]. split; [by rewrite E4, E2, app_assoc|].
  by eapply clear_trans.
Qed.

Lemma keeps_reading {A} len (k : bytes -> IO Setup A) s n (P : bytes -> bytes -> Prop) :
  0 <= len -> 0 <= n ->
  (forall v s1, zlen v = len -> since s s1 v [] ->
     keeps (k v) s1 n (fun _ s' => exists i o, since s1 s' i o /\ P (v ++ i) o)) ->
  keeps (io_bind (read_socks5_bytes cancellation len) k) s n (fun _ s' => exists i o, since s s' i o /\ P i o).
Proof.
  intros Hl Hn Hk. eapply keeps_then; [done|by apply keeps_read_socks|]. intros v s1 (Hv & Hr & Hs & Hc).
  assert (since s s1 v []) as H1 by (split; [done|]; split; [by rewrite app_nil_r|done]).
  eapply keeps_weaken; [by apply Hk|done|]. intros a s' (i & o & H2 & HP). exists (v ++ i), o. split; [|done].
  by apply (since_app _ _ _ v [] i o H1).
Qed.

Lemma keeps_writing {A} data (k : unit -> IO Setup A) s n (P : bytes -> bytes -> Prop) :
  0 <= n ->
  (forall s1, since s s1 [] data -> keeps (k ()) s1 n (fun _ s' => exists i o, since s1 s' i o /\ P i (data ++ o))) ->
  keeps (io_bind (write_socks5_bytes cancellation data) k) s (zlen data + n) (fun _ s' => exists i o, since s s' i o /\ P i o).
Proof.
  intros Hn Hk. eapply keeps_bind; [done|apply keeps_write_socks|]. intros [] s1 (Hr & Hs & Hc).
  assert (since s s1 [] data) as H1 by done.
  eapply keeps_weaken; [by apply Hk|done|]. intros a s' (i & o & H2 & HP). exists i, (data ++ o). split; [|done].
  by apply (since_app _ _ _ [] data i o H1).
Qed.

Lemma keeps_pure {A B} (r : result B) (k : B -> IO Setup A) s n (Q : A -> Setup -> Prop) :
  0 <= n -> no_panic r -> (forall v, r = Ok v -> keeps (k v) s n Q) -> keeps (io_bind (io_ret r) k) s n Q.
Proof.
  intros Hn Hp Hk. eapply keeps_then; [done|apply (keeps_ret r s 0 (fun v s' => r = Ok v /\ s' = s)); [done|done|by intros v ->]|].
  intros v s' [E ->]. by apply Hk.
Qed.

Lemma keeps_done s (P : bytes -> bytes -> Prop) : P [] [] ->
  keeps (io_ret (Ok ())) s 0 (fun _ s' => exists i o, since s s' i o /\ P i o).
Proof. intros HP. apply keeps_ret; [done|done|]. intros [] _. exists [], []. split; [apply since_refl|done]. Qed.

Lemma keeps_fail {A} e s n (Q : A -> Setup -> Prop) : 0 <= n -> keeps (io_ret (Err e)) s n Q.
Proof. intros Hn. by apply keeps_ret. Qed.

Lemma bytes_ok_since s s1 i o : since s s1 i o -> bytes_ok (received_by s) -> bytes_ok i /\ bytes_ok (received_by s1).
Proof. intros (E & _) Hb. rewrite E in Hb. by apply bytes_ok_app. Qed.

Lemma keeps_bound atyp s : bytes_ok (received_by s) ->
  keeps (read_bound_address cancellation atyp) s 0 (fun _ s' => exists i o, since s s' i o /\ (o = [] /\ bound_field (atyp :: i))).
Proof.
  intros Hb. unfold read_bound_address.
  destruct (Z.eqb_spec atyp 1) as [->|_]; [|destruct (Z.eqb_spec atyp 3) as [->|_]; [|destruct (Z.eqb_spec atyp 4) as [->|_]; [|by apply keeps_fail]]].
  - apply (keeps_reading 4 _ _ _ (fun i o => o = [] /\ bound_field (1 :: i))); [done..|]. intros v s1 Hv H1.
    apply (keeps_done s1 (fun i o => o = [] /\ bound_field (1 :: v ++ i))). rewrite app_nil_r. split; [done|]. exists 1, v. split; [done|by left].
  - apply (keeps_reading 1 _ _ _ (fun i o => o = [] /\ bound_field (3 :: i))); [done..|]. intros v s1 Hv H1.
    destruct (bytes_ok_since _ _ _ _ H1 Hb) as [Hvb _]. destruct v as [|n [|? ?]]; [done| |zl].
    apply Forall_cons in Hvb as [Hn _]. unfold is_byte in Hn.
    apply keeps_pure; [done|done|]. intros ? [= <-].
    apply (keeps_reading n _ _ _ (fun i o => o = [] /\ bound_field (3 :: [n] ++ i))); [lia|done|]. intros v2 s2 Hv2 H2.
    apply (keeps_done s2 (fun i o => o = [] /\ bound_field (3 :: [n] ++ v2 ++ i))). rewrite app_nil_r. split; [done|].
    exists 3, (n :: v2). split; [done|]. right; right. split; [done|]. by exists n, v2.
  - apply (keeps_reading 16 _ _ _ (fun i o => o = [] /\ bound_field (4 :: i))); [done..|]. intros v s1 Hv H1.
    apply (keeps_done s1 (fun i o => o = [] /\ bound_field (4 :: v ++ i))). rewrite app_nil_r. split; [done|]. exists 4, v. split; [done|by right; left].
Qed.

Lemma keeps_poll s : keeps (check_setup_cancellation cancellation) s 0 (fun _ s' => exists i o, since s s' i o /\ i = [] /\ o = []).
Proof.
  destruct s as [c w]. unfold check_setup_cancellation.
  destruct (if cancellation then poll_cancelled w else (Ok (), w)) as [r w'] eqn:E.
  assert (r = Err cancelled_error \/ r = Ok () /\ clear w w') as Hr.
  { destruct cancellation; [by apply poll_cases|]. injection E as <- <-. right. split; [done|apply clear_refl]. }
  eapply keeps_weaken; [apply (keeps_snd _ _ _ (fun _ t => clear w t))|done|].
  - rewrite E. by destruct Hr as [->|[-> _]].
  - intros v t'. rewrite E. intros [= -> ->]. by destruct Hr as [|[_ ?]].
  - intros [] s' [Hs Hc]. exists [], []. split; [|done]. unfold since, received_by, sent_by, conn_of, conn_beside.
    cbn [fst snd]. rewrite Hs, app_nil_r. done.
Qed.

Definition good_reply (i : bytes) : Prop :=
  exists bound prt, i = [5; 0; 0] ++ bound ++ prt /\ bound_field bound /\ zlen prt = 2.

Lemma keeps_reply s : bytes_ok (received_by s) ->
  keeps (read_socks5_reply cancellation) s 0 (fun _ s' => exists i o, since s s' i o /\ (o = [] /\ good_reply i)).
Proof.
  intros Hb. unfold read_socks5_reply.
  apply (keeps_reading 4 _ _ _ (fun i o => o = [] /\ good_reply i)); [done..|]. intros v s1 Hv H1.
  destruct (bytes_ok_since _ _ _ _ H1 Hb) as [_ Hb1].
  destruct v as [|b0 [|b1 [|b2 [|b3 [|b4 v]]]]]; try (exfalso; zl).
  do 4 (apply keeps_pure; [done|done|]; intros ? [= <-]).
  destruct (Z.eqb_spec b0 5) as [->|]; cbn [negb]; [|by apply keeps_fail].
  destruct (Z.eqb_spec b2 0) as [->|]; cbn [negb]; [|by apply keeps_fail].
  destruct (Z.eqb_spec b1 0) as [->|]; cbn [negb]; [|by apply keeps_fail].
  eapply keeps_then; [done|by apply keeps_bound|]. intros [] s2 (i & o & H2 & -> & Hi).
  eapply keeps_then; [done|by apply keeps_read_socks|]. intros p s3 (Hp & Hr & Hs & Hc).
  assert (since s2 s3 p []) as H3 by (split; [done|]; split; [by rewrite app_nil_r|done]).
  eapply keeps_weaken; [apply keeps_poll|done|]. intros [] s4 (i4 & o4 & H4 & -> & ->).
  exists (i ++ p), []. split.
  - pose proof (since_app _ _ _ _ _ _ _ (since_app _ _ _ _ _ _ _ H2 H3) H4) as H. by rewrite app_nil_r in H.
  - split; [done|]. exists (b3 :: i), p. split; [|done]. done.
Qed.
End AnyProxy.

Section AnyProxy2.
Context (cancellation : bool) (peer : string) (authentication : option (bytes * bytes)).

(** What has been read and written after the greeting when the client succeeds. *)
Definition connected (i o : bytes) : Prop :=
  exists bound prt request, socks5_request peer = Ok request /\ bound_field bound /\ zlen prt = 2 /\
    i = auth_reply authentication ++ [5; 0; 0] ++ bound ++ prt /\ o = auth_request authentication ++ request.

Lemma keeps_authenticate user password s : authentication_invalid (Some (user, password)) = false ->
  keeps (socks5_authenticate cancellation user password) s 513 (fun _ s' => exists i o, since s s' i o /\
    (i = [1; 0] /\ o = auth_request (Some (user, password)))).
Proof.
  intros Ha. unfold socks5_authenticate. rewrite auth_bytes by done.
  assert (zlen (auth_request (Some (user, password))) + 0 <= 513) as Hl.
  { cbn [authentication_invalid] in Ha. bool_prop. unfold auth_request. zl. }
  set (a := auth_request _) in *. clearbody a.
  eapply keeps_weaken; [apply (keeps_writing cancellation a _ s 0 (fun i o => i = [1; 0] /\ o = a))|exact Hl|done]; [done|].
  intros s1 H1. apply (keeps_reading cancellation 2 _ _ _ (fun i o => i = [1; 0] /\ a ++ o = a)); [done..|]. intros v s2 Hv H2.
  destruct (bytes_eqb v [1; 0]) eqn:E; [|by apply keeps_fail]. apply bytes_eqb_eq in E as ->.
  apply (keeps_done s2 (fun i o => [1; 0] ++ i = [1; 0] /\ a ++ o = a)). by rewrite !app_nil_r.
Qed.

Lemma keeps_after_method s : authentication_invalid authentication = false -> bytes_ok (received_by s) ->
  keeps (after_method cancellation peer authentication) s (513 + 262) (fun _ s' => exists i o, since s s' i o /\ connected i o).
Proof.
  intros Ha Hb. unfold after_method.
  eapply (keeps_bind _ _ s 513 262 (fun _ s' => exists i o, since s s' i o /\ (i = auth_reply authentication /\ o = auth_request authentication))); [done| |].
  { destruct authentication as [[user password]|]; [by apply keeps_authenticate|].
    apply keeps_ret; [done|done|]. intros [] _. exists [], []. split; [apply since_refl|done]. }
  intros [] s1 (i & o & H1 & -> & ->). destruct (bytes_ok_since _ _ _ _ H1 Hb) as [_ Hb1].
  apply keeps_pure; [done|apply request_no_panic|]. intros request Hr.
  destruct (request_decodes _ _ Hr) as (_ & _ & _ & Hl & _).
  eapply keeps_weaken; [apply (keeps_writing cancellation request _ s1 0 (fun i o => good_reply i /\ o = request))|lia|].
  - done.
  - intros s2 H2. destruct (bytes_ok_since _ _ _ _ H2 Hb1) as [_ Hb2].
    eapply keeps_weaken; [by apply keeps_reply|done|]. intros [] s3 (i & o & H3 & -> & Hi). exists i, []. by rewrite app_nil_r.
  - intros [] s3 (i & o & H3 & (bound & prt & -> & Hbf & Hp) & ->). do 2 eexists. split; [exact (since_app _ _ _ _ _ _ _ H1 H3)|].
    by exists bound, prt, request.
Qed.

(** C24: whatever the proxy sends, in whatever pieces and with whatever delays,
    and whenever the setup is cancelled, the client does not panic, writes at
    most 778 bytes, and when it reports success the proxy has accepted the
    method, the credentials and the request, every byte of its replies and
    nothing beyond them has been consumed, the peer has been asked for, and
    every check of the cancellation flag and of the deadline had passed. *)
Theorem socks5_sound s : bytes_ok (received_by s) ->
  keeps (socks5_connect_authenticated_with_cancel cancellation peer authentication) s 778 (fun _ s' =>
    exists bound prt request, socks5_request peer = Ok request /\ bound_field bound /\ zlen prt = 2 /\
      since s s' (accepting authentication bound prt) (greeting authentication ++ auth_request authentication ++ request)).
Proof.
  intros Hb. destruct (authentication_invalid authentication) eqn:Ha.
  { unfold socks5_connect_authenticated_with_cancel. rewrite Ha. by apply keeps_fail. }
  rewrite socks5_client by done. set (m := [5; method_of authentication]).
  eapply keeps_weaken; [apply (keeps_writing cancellation (greeting authentication) _ s (513 + 262)
    (fun i o => exists i' o', connected i' o' /\ i = m ++ i' /\ o = greeting authentication ++ o'))|done|].
  - done.
  - intros s1 H1. destruct (bytes_ok_since _ _ _ _ H1 Hb) as [_ Hb1].
    eapply (keeps_reading cancellation 2 _ s1 _ (fun i o => exists i' o', connected i' o' /\ i = m ++ i' /\ _ ++ o = _ ++ o')); [done..|].
    intros v s2 Hv H2. destruct (bytes_ok_since _ _ _ _ H2 Hb1) as [_ Hb2].
    destruct (bytes_eqb v m) eqn:E; cbn [negb]; [|by apply keeps_fail]. apply bytes_eqb_eq in E as ->.
    eapply keeps_weaken; [by apply keeps_after_method|done|]. intros [] s3 (i & o & H3 & Hc). exists i, o. split; [done|]. by exists i, o.
  - intros [] s' (i & o & Hs & i' & o' & (bound & prt & request & Hr & Hbf & Hp & -> & ->) & -> & ->).
    by exists bound, prt, request.
Qed.
End AnyProxy2.

(** An accepted Tor underlay names a socket address, which the check made when
    connecting accepts: a loopback literal with a port. *)
Theorem tor_proxy_is_loopback value proxy : TcpUnderlay_parse value = Ok (Tor proxy) ->
  exists a p, parse_socket_addr proxy = Some (mkSocketAddr a p) /\ is_loopback a = true /\ 0 < p <= u16_max.
Proof.
  unfold TcpUnderlay_parse. case_if; [done|]. case_if; [done|]. intros E.
  apply rbind_ok in E as (l & _ & E). case_if.
  apply rbind_ok in E as (e & Ee & E). case_if.
  destruct (Endpoint_parse _) as [er|e'] eqn:Ep; [done|]. injection Ee as ->. apply endpoint_range in Ep.
  case_if. destruct (parse_ip (host e)) as [a|] eqn:Ea; [|done]. destruct (is_loopback a) eqn:El; [|done].
  injection E as <-. exists a, (endpoint_port e). split; [|done]. by apply parse_socket_literal.
Qed.

(** ** Witnesses *)

Module Witnesses.

Definition login : option (bytes * bytes) := Some ([97; 98], [99]).
Definition bound : bytes := [3; 2; 120; 121].
Definition request : bytes := Eval vm_compute in match socks5_request "peer.example:443" with Ok r => r | _ => [] end.

Lemma socks5_connects_witness :
  let client := socks5_connect_authenticated_with_cancel true "peer.example:443" login in
  let sent := greeting login ++ auth_request login ++ request in
  steps client (beside quiet) (beside quiet) (accepting login bound [1; 187]) sent () /\
  waits client (beside quiet) [] (greeting login) /\
  waits client (beside quiet) ([5; method_of login] ++ auth_reply login) sent /\
  (login <> None -> waits client (beside quiet) [5; method_of login] (greeting login ++ auth_request login)) /\
  exists e, Endpoint_parse "peer.example:443" = inr e /\ socks5_decode request = Some (destination (host e), endpoint_port e).
Proof.
  apply (socks5_connects true "peer.example:443" login request bound [1; 187]); try (vm_compute; reflexivity).
  exists 3, [2; 120; 121]. split; [reflexivity|]. right; right. split; [reflexivity|]. exists 2, [120; 121]. split; reflexivity.
Defined.

(** A proxy that resets the connection after its first answer, with a slow
    client. *)
Definition hostile : Conn * Watch :=
  (mkConn (mkRxStream [5; 0; 5; 1] [Failed IoTimedOut; Deliver 1; Deliver 7; Failed IoConnectionReset]) (mkTxStream [] []), mkWatch [false; false] [false]).

Lemma socks5_sound_witness :
  keeps (socks5_connect_authenticated_with_cancel true "[2001:db8::1]:443" None) hostile 778 (fun _ s' =>
    exists bound prt request, socks5_request "[2001:db8::1]:443" = Ok request /\ bound_field bound /\ zlen prt = 2 /\
      since hostile s' (accepting None bound prt) (greeting None ++ auth_request None ++ request)).
Proof. apply socks5_sound. by_compute. Defined.
End Witnesses.
