(* ===== verification/Spool.v ===== *)
(** The files behind the two offline transports (shph-transport/src/lib.rs and
    the path helpers of shph-core/src/roadmap.rs): a spool directory that other
    processes change at any time, the claims, rejections and atomic writes made
    in it, the budgets of a scan and the capacity of an envelope.  A directory is
    a finite map; a list of arbitrary changes is what other processes do, one
    before each access.  Disk errors are not modelled. *)
From stdpp Require Import gmap.
From S2P Require Import Prelude Ordering Error Text Primitives TcpTransport TcpIo.

Definition SHROUD_AEAD_OVERHEAD : Z := 12 + 16.
Definition MAX_FILE_ADAPTER_BYTES : Z := 256 * 1024.
Definition MAX_QUEUE_SCAN_ENTRIES : Z := 4096.
Definition MAX_QUEUE_SCAN_DEPTH : Z := 16.
Definition MAX_QUEUE_SCAN_BYTES : Z := 8 * 1024 * 1024.
Definition MAX_QUEUE_CANDIDATE_MEMORY : Z := 4 * 1024 * 1024.
Definition MAX_ADAPTER_METADATA_BYTES : Z := 1024.
Definition MAX_ADAPTER_POLL_INTERVAL_MS : Z := 60000.

(** [Ord::clamp], and durations in nanoseconds. *)
Definition clamp (lo hi x : Z) : Z := Z.max lo (Z.min hi x).
Definition MILLISECOND : Z := 1000000.

(** ** Names and paths *)

(** A path: the components below the spool and the last one. *)
Abbreviation Path := (list string * string)%type.

(** [Path::file_stem] and [Path::extension] of a file name. *)
Fixpoint before_dot (rev_name after : bytes) : option (bytes * bytes) :=
  match rev_name with
  | [] => None
  | b :: l => if b =? 46 then Some (rev l, after) else before_dot l (b :: after)
  end.

Definition split_name (name : string) : string * string :=
  let l := str_bytes name in
  match (if bool_decide (name = "..") then None else before_dot (rev l) []) with
  | Some (stem, ext) => if bool_decide (stem = []) then (name, "") else (bytes_str stem, bytes_str ext)
  | None => (name, "")
  end.

Definition file_stem (name : string) : string := (split_name name).1.
Definition extension (name : string) : string := (split_name name).2.

(** [Path::join] of a relative component. *)
Definition path_join (a b : string) : string :=
  if bool_decide (a = "") || (default 0 (last (str_bytes a)) =? 47) then a +:+ b else a +:+ "/" +:+ b.

Definition path_text (root : string) (p : Path) : string := path_join (fold_left path_join p.1 root) p.2.

Section Components.
Context `{HashOps}.

Definition READABLE_PREFIX_BYTES : Z := 24.
Definition HASH_BYTES : Z := 16.

(** A character of the readable prefix, from its first byte. *)
Definition readable_char (b : Z) : Z :=
  if in_range 48 57 b || in_range 65 90 b || in_range 97 122 b || (b =? 45) || (b =? 95) then b else 95.

Definition readable (input : bytes) : bytes :=
  let prefix := ztake READABLE_PREFIX_BYTES (map readable_char (filter (fun b => utf8_cont b = false) input)) in
  if bool_decide (prefix = []) then [95] else prefix.

Definition safe_path_component (input : string) : string :=
  let l := str_bytes input in
  let digest := sha256 (str_bytes "shph/path-component/v1" ++ [0] ++ be_bytes 8 (zlen l) ++ l) in
  bytes_str (readable l) +:+ "-" +:+ hex_encode (ztake HASH_BYTES digest).

Definition sanitize_component (input : string) : string := safe_path_component input.

Definition offline_session_id (node_a node_b : string) : string :=
  let a := safe_path_component node_a in
  let b := safe_path_component node_b in
  match cmp_string a b with Gt => b +:+ "--" +:+ a | _ => a +:+ "--" +:+ b end.
End Components.

(** ** The budgets of a scan *)

Definition account_scan_entry (scanned : Z) : result Z :=
  let scanned := saturating_add usize_max scanned 1 in
  if MAX_QUEUE_SCAN_ENTRIES <? scanned
  then Err (ResourceExhausted "file adapter queue contains too many entries to scan safely") else Ok scanned.

Definition account_scan_bytes (scanned_bytes bytes : Z) : result Z :=
  let scanned_bytes := saturating_add u64_max scanned_bytes bytes in
  if MAX_QUEUE_SCAN_BYTES <? scanned_bytes
  then Err (ResourceExhausted "file adapter scan byte budget exhausted") else Ok scanned_bytes.

Definition str_len (s : string) : Z := zlen (str_bytes s).

Definition account_candidate_memory (candidate_memory : Z) (path : string) (metadata : list string) : result Z :=
  if existsb (fun value => MAX_ADAPTER_METADATA_BYTES <? str_len value) metadata
  then Err (Protocol "file adapter envelope metadata exceeds safety bounds")
  else
    let total := fold_left (fun n value => n + str_len value) metadata 0 in
    let cost := saturating_add usize_max 128 (saturating_add usize_max (str_len path) total) in
    let candidate_memory := saturating_add usize_max candidate_memory cost in
    if MAX_QUEUE_CANDIDATE_MEMORY <? candidate_memory
    then Err (ResourceExhausted "file adapter candidate memory budget exhausted") else Ok candidate_memory.

(** ** The directory *)

Inductive Node := Regular (contents : bytes) | Directory | Symlink | Special.

Abbreviation Dir := (gmap Path Node).

(** The directory, what other processes do to it, the counter of temporary
    names and the process id. *)
Record Fs := mkFs { dir : Dir; changes : list (Dir -> Dir); TEMP_FILE_COUNTER : Z; process_id : Z }.

Definition set_dir (d : Dir) (f : Fs) : Fs := mkFs d (changes f) (TEMP_FILE_COUNTER f) (process_id f).

(** What happens before an access. *)
Definition next_change (f : Fs) : Fs :=
  match changes f with
  | [] => f
  | g :: gs => mkFs (g (dir f)) gs (TEMP_FILE_COUNTER f) (process_id f)
  end.

(** [TEMP_FILE_COUNTER.fetch_add(1)] *)
Definition fetch_add (f : Fs) : Z * Fs :=
  (TEMP_FILE_COUNTER f, mkFs (dir f) (changes f) (cast 64 (TEMP_FILE_COUNTER f + 1)) (process_id f)).

Definition symlink_error (p : string) : ShphError := Io ("refusing to traverse symlink component '" +:+ p +:+ "'").

(** [fs::symlink_metadata], [None] when there is no such file. *)
Definition symlink_metadata (p : Path) (f : Fs) : option Node * Fs :=
  let f := next_change f in (dir f !! p, f).

(** [ensure_no_reparse_components] of a path whose parent directories are the
    adapter's own. *)
Definition ensure_no_reparse_components (root : string) (p : Path) (f : Fs) : result unit * Fs :=
  let '(node, f) := symlink_metadata p f in
  match node with Some Symlink => (Err (symlink_error (path_text root p)), f) | _ => (Ok (), f) end.

(** The errors of [read_file_bytes]: a [Protocol] error for a file beyond the
    bound, an [Io] error of kind [NotFound], any other [Io] error. *)
Inductive FileError := FileTooLarge | FileMissing | FileRefused (text : string).

Definition file_error (e : FileError) : ShphError :=
  match e with
  | FileTooLarge => Protocol "file envelope exceeds maximum size"
  | FileMissing => Io "No such file or directory (os error 2)"
  | FileRefused text => Io text
  end.

Definition read_file_bytes (p : Path) (max_bytes : Z) (f : Fs) : (FileError + bytes) * Fs :=
  let f := next_change f in
  (match dir f !! p with
   | None => inl FileMissing
   | Some Symlink => inl (FileRefused "refusing to traverse symlink component")
   | Some (Directory | Special) => inl (FileRefused "path must reference a regular file")
   | Some (Regular contents) => if max_bytes <? zlen contents then inl FileTooLarge else inr contents
   end, f).

Inductive RenameError := AlreadyExists | NotFound.

Definition rename_without_replace (p q : Path) (f : Fs) : (RenameError + unit) * Fs :=
  let f := next_change f in
  match dir f !! p with
  | None => (inl NotFound, f)
  | Some node =>
      match dir f !! q with
      | Some _ => (inl AlreadyExists, f)
      | None => (inr (), set_dir (<[q := node]> (delete p (dir f))) f)
      end
  end.

(** [let _ = fs::remove_file(…)] *)
Definition remove_file (p : Path) (f : Fs) : Fs :=
  let f := next_change f in
  match dir f !! p with
  | None | Some Directory => f
  | Some _ => set_dir (delete p (dir f)) f
  end.

(** ** Claims, rejections and atomic writes *)

Record ClaimedFile := mkClaimedFile { original : Path; claimed_path : Path }.

Definition claim_name (name : string) (pid counter attempt : Z) : string :=
  "." +:+ name +:+ ".processing." +:+ show pid +:+ "." +:+ show counter +:+ "." +:+ show attempt.

(** The attempts of [claim_file]: [attempts] are left, of 32. *)
Fixpoint claim_attempts (attempts : nat) (p : Path) (f : Fs) : result (option ClaimedFile) * Fs :=
  match attempts with
  | O => (Err (Io "unable to claim file adapter candidate"), f)
  | S attempts =>
      let '(counter, f) := fetch_add f in
      let claimed := (p.1, claim_name p.2 (process_id f) counter (31 - Z.of_nat attempts)) in
      match rename_without_replace p claimed f with
      | (inr _, f) => (Ok (Some (mkClaimedFile p claimed)), f)
      | (inl AlreadyExists, f) => claim_attempts attempts p f
      | (inl NotFound, f) => (Ok None, f)
      end
  end.

Definition claim_file (root : string) (p : Path) (f : Fs) : result (option ClaimedFile) * Fs :=
  let! _ok, f := ensure_no_reparse_components root p f in
  claim_attempts 32 p f.

(** The names tried for a rejected file: the counter advances for each of the 32
    that follow the first. *)
Definition rejected_name (stem : string) (pid counter attempt : Z) : string :=
  stem +:+ ".rejected." +:+ show pid +:+ "." +:+ show counter +:+ "." +:+ show attempt.

Fixpoint rejected_names (attempts : nat) (stem : string) (f : Fs) : list string * Fs :=
  match attempts with
  | O => ([], f)
  | S attempts =>
      let '(counter, f) := fetch_add f in
      let name := rejected_name stem (process_id f) counter (31 - Z.of_nat attempts) in
      let '(names, f) := rejected_names attempts stem f in
      (name :: names, f)
  end.

Fixpoint reject_as (p : Path) (names : list string) (f : Fs) : Fs :=
  match names with
  | [] => f
  | name :: names =>
      match rename_without_replace p (p.1, name) f with
      | (inl AlreadyExists, f) => reject_as p names f
      | (_, f) => f
      end
  end.

Definition move_file_to_rejected (p original : Path) (f : Fs) : Fs :=
  let stem := file_stem original.2 in
  let '(names, f) := rejected_names 32 stem f in
  reject_as p ((stem +:+ ".rejected") :: names) f.

Definition quarantine_file (p : Path) (f : Fs) : Fs := move_file_to_rejected p p f.
Definition quarantine_claimed_file (c : ClaimedFile) (f : Fs) : Fs := move_file_to_rejected (claimed_path c) (original c) f.

Definition temp_name (filename : string) (pid counter : Z) : string :=
  "." +:+ filename +:+ ".tmp-" +:+ show pid +:+ "-" +:+ show counter.

(** [create_atomic_temp_file], the file still empty. *)
Fixpoint create_atomic_temp_file (attempts : nat) (p : Path) (f : Fs) : result Path * Fs :=
  match attempts with
  | O => (Err (Io "unable to allocate a unique atomic temp file"), f)
  | S attempts =>
      let '(counter, f) := fetch_add f in
      let tmp := (p.1, temp_name p.2 (process_id f) counter) in
      let f := next_change f in
      match dir f !! tmp with
      | Some _ => create_atomic_temp_file attempts p f
      | None => (Ok tmp, set_dir (<[tmp := Regular []]> (dir f)) f)
      end
  end.

(** Writing through the open file: the node it was created as, when it is still
    there. *)
Definition write_all (tmp : Path) (bytes : bytes) (f : Fs) : Fs :=
  match dir f !! tmp with
  | Some (Regular _) => set_dir (<[tmp := Regular bytes]> (dir f)) f
  | _ => f
  end.

(** [fs::rename]: it replaces a file, not a directory. *)
Definition rename (p q : Path) (f : Fs) : result unit * Fs :=
  let f := next_change f in
  match dir f !! p, dir f !! q with
  | None, _ => (Err (file_error FileMissing), f)
  | Some _, Some Directory => (Err (Io "Is a directory (os error 21)"), f)
  | Some node, _ => (Ok (), set_dir (<[q := node]> (delete p (dir f))) f)
  end.

Definition write_file_atomically (root : string) (p : Path) (bytes : bytes) (f : Fs) : result unit * Fs :=
  let! _ok, f := ensure_no_reparse_components root p f in
  let! tmp, f := create_atomic_temp_file 32 p f in
  let f := write_all tmp bytes f in
  let! _ok, f := ensure_no_reparse_components root p f in
  match rename tmp p f with
  | (Ok _, f) => (Ok (), f)
  | (other, f) => (other, remove_file tmp f)
  end.

(** ** The capacity of an envelope *)

Definition base64_encoded_len (bytes : Z) : Z :=
  match checked_add usize_max bytes 2 with
  | Some rounded => match checked_mul usize_max (rounded / 3) 4 with Some n => n | None => usize_max end
  | None => usize_max
  end.

(** The bisection: the interval at least halves at each step, so its width is
    fuel enough. *)
Fixpoint capacity_loop (fuel : nat) (max_file_bytes fixed low high : Z) : Z :=
  match fuel with
  | O => low
  | S fuel =>
      if low <? high then
        let candidate := low + div_ceil (high - low) 2 in
        let encrypted := saturating_add usize_max candidate SHROUD_AEAD_OVERHEAD in
        let total := saturating_add usize_max fixed (base64_encoded_len encrypted) in
        if total <=? max_file_bytes then capacity_loop fuel max_file_bytes fixed candidate high
        else capacity_loop fuel max_file_bytes fixed low (candidate - 1)
      else low
  end.

Definition max_plaintext_for_file_adapter (max_file_bytes fixed_envelope_bytes : Z) : Z :=
  if max_file_bytes <? fixed_envelope_bytes then 0
  else capacity_loop (Z.to_nat max_file_bytes) max_file_bytes fixed_envelope_bytes 0 max_file_bytes.

Definition validate_file_adapter_payload (payload : bytes) (max_payload_bytes max_file_bytes : Z) : result unit :=
  if max_payload_bytes <? zlen payload then
    Err (Protocol ("file-adapter plaintext payload exceeds the " +:+ show max_payload_bytes +:+
      "-byte capacity of the configured " +:+ show max_file_bytes +:+ "-byte envelope bound"))
  else Ok ().

(** ** What an adapter sees

    The directory, the answers of [read_dir], one after the other, which may
    differ from the directory, and the two clocks.  A computation that needs an
    [Instant::now] beyond the last reading has not returned. *)

Inductive Entry := Named (name : string) | EntryFailed (e : ShphError).
Inductive Listing := QueueAbsent | QueueRefused (e : ShphError) | Entries (l : list Entry).

Record World := mkWorld {
  fs : Fs;
  listings : list (Dir -> list string -> Listing);
  clock : list Z;
  unix_clock : list (option Z)
}.

Definition set_fs (f : Fs) (w : World) : World := mkWorld f (listings w) (clock w) (unix_clock w).

Definition on_fs {A} (m : Fs -> A * Fs) (w : World) : A * World :=
  let '(a, f) := m (fs w) in (a, set_fs f w).
Definition change_fs (m : Fs -> Fs) (w : World) : World := set_fs (m (fs w)) w.

(** The files of a directory, as they are. *)
Definition names_in (d : list string) (files : Dir) : list string :=
  map (fun x => x.1.2) (filter (fun x => x.1.1 = d) (map_to_list files)).

(** The checks of a queue directory and [fs::read_dir]. *)
Definition read_dir (d : list string) (w : World) : Listing * World :=
  match listings w with
  | [] => (Entries (map Named (names_in d (dir (fs w)))), w)
  | l :: ls => (l (dir (fs w)) d, mkWorld (fs w) ls (clock w) (unix_clock w))
  end.

(** [Instant::now()] *)
Definition instant_now : IO World Z := fun w =>
  match clock w with
  | [] => (None, w)
  | t :: ts => (Some (Ok t), mkWorld (fs w) (listings w) ts (unix_clock w))
  end.

Definition clock_error : ShphError := Internal "system clock before unix epoch".

(** [now_unix_ms()]; without a reading left the clock is taken to fail. *)
Definition now_unix_ms (w : World) : result Z * World :=
  match unix_clock w with
  | [] => (Err clock_error, w)
  | t :: ts => (ok_or t clock_error, mkWorld (fs w) (listings w) (clock w) ts)
  end.

Definition io_of {A S} (m : S -> result A * S) : IO S A := fun s => let '(r, s) := m s in (Some r, s).

(** ** Lemmas: the capacity *)

Definition fits (max_file_bytes fixed n : Z) : bool :=
  saturating_add usize_max fixed (base64_encoded_len (saturating_add usize_max n SHROUD_AEAD_OVERHEAD)) <=? max_file_bytes.

Lemma base64_encoded_len_small n : 0 <= n <= 2 ^ 32 -> base64_encoded_len n = 4 * ((n + 2) / 3).
Proof.
  intros Hn. unfold base64_encoded_len, checked_add, checked_mul, usize_max, u64_max.
  assert (0 <= (n + 2) / 3 <= 2 ^ 32) by (Z.div_mod_to_equations; lia).
  repeat case_if; bool_prop; lia.
Qed.

Lemma fits_spec max fixed n : 0 <= max <= 2 ^ 31 -> 0 <= fixed <= max -> 0 <= n <= max ->
  fits max fixed n = true <-> fixed + 4 * ((n + SHROUD_AEAD_OVERHEAD + 2) / 3) <= max.
Proof.
  intros Hm Hf Hn. unfold fits, SHROUD_AEAD_OVERHEAD. rewrite Z.leb_le.
  assert (saturating_add usize_max n (12 + 16) = n + 28) as -> by (unfold saturating_add, usize_max, u64_max; lia).
  rewrite base64_encoded_len_small by lia. unfold saturating_add, usize_max, u64_max.
  assert (0 <= (n + 28 + 2) / 3 <= 2 ^ 31 + 28) by (Z.div_mod_to_equations; lia).
  replace (n + (12 + 16) + 2) with (n + 28 + 2) by lia. lia.
Qed.

Lemma fits_mono max fixed n m : 0 <= max <= 2 ^ 31 -> 0 <= fixed <= max -> 0 <= m <= n -> n <= max ->
  fits max fixed n = true -> fits max fixed m = true.
Proof. intros Hmax Hf Hm Hn. rewrite !fits_spec by lia. Z.div_mod_to_equations; lia. Qed.

Lemma capacity_loop_spec fuel max fixed low high : 0 <= max <= 2 ^ 31 -> 0 <= fixed <= max ->
  0 <= low <= high -> high <= max -> high - low <= Z.of_nat fuel ->
  (low = 0 \/ fits max fixed low = true) -> (forall m, high < m <= max -> fits max fixed m = false) ->
  let n := capacity_loop fuel max fixed low high in
  low <= n <= high /\ (n = 0 \/ fits max fixed n = true) /\ (forall m, n < m <= max -> fits max fixed m = false).
Proof.
  intros Hmax Hf. revert low high. induction fuel as [|fuel IH]; intros low high Hlh Hh Hfuel Hlow Hhigh; cbn [capacity_loop].
  { assert (high = low) as -> by lia. split_and!; [lia|lia|done|done]. }
  destruct (Z.ltb_spec low high); [|assert (high = low) as -> by lia; split_and!; [lia|lia|done|done]].
  set (c := low + div_ceil (high - low) 2). assert (low < c <= high) by (unfold c, div_ceil; Z.div_mod_to_equations; lia).
  fold (fits max fixed c). destruct (fits max fixed c) eqn:E.
  - destruct (IH c high) as (? & ? & ?); [lia|lia|lia|by right|done|]. split_and!; [lia|lia|done|done].
  - destruct (IH low (c - 1)) as (? & ? & ?); [lia|lia|lia|done| |split_and!; [lia|lia|done|done]].
    intros m Hm. destruct (Z.leb_spec m high); [|by apply Hhigh; lia].
    destruct (fits max fixed m) eqn:Em; [|done]. rewrite <- E. symmetry. apply (fits_mono max fixed m c); [done|done|lia|lia|done].
Qed.

(** The capacity is the largest plaintext whose envelope fits, or zero. *)
Lemma capacity_exact max fixed : 0 <= max <= 2 ^ 31 -> 0 <= fixed <= max ->
  let n := max_plaintext_for_file_adapter max fixed in
  0 <= n <= max /\ (n = 0 \/ fixed + 4 * ((n + SHROUD_AEAD_OVERHEAD + 2) / 3) <= max) /\
  (forall m, n < m <= max -> max < fixed + 4 * ((m + SHROUD_AEAD_OVERHEAD + 2) / 3)).
Proof.
  intros Hmax Hf. unfold max_plaintext_for_file_adapter. rewrite (proj2 (Z.ltb_ge _ _)) by lia.
  destruct (capacity_loop_spec (Z.to_nat max) max fixed 0 max) as (H1 & H2 & H3); [done|done|lia|lia|lia|by left|lia|].
  split; [done|]. split.
  - destruct H2 as [?|H2]; [by left|right]. by apply fits_spec in H2.
  - intros m Hm. specialize (H3 m Hm). destruct (fits_spec max fixed m) as [_ Hb]; [done|done|lia|].
    destruct (Z.leb_spec (fixed + 4 * ((m + SHROUD_AEAD_OVERHEAD + 2) / 3)) max) as [Hle|]; [|done]. by rewrite Hb in H3.
Qed.

(** ** Lemmas: a directory that nobody else changes *)

Definition fs_of (d : Dir) (c pid : Z) : Fs := mkFs d [] c pid.

Lemma ensure_quiet root d c pid p : d !! p <> Some Symlink -> ensure_no_reparse_components root p (fs_of d c pid) = (Ok (), fs_of d c pid).
Proof. intros Hp. unfold ensure_no_reparse_components, symlink_metadata, fs_of, next_change. cbn [changes dir]. by destruct (d !! p) as [[]|]. Qed.

Lemma claim_quiet root d c pid (p : Path) data :
  d !! p = Some (Regular data) -> (forall n a, d !! (p.1, claim_name p.2 pid n a) = None) ->
  exists q c', claim_file root p (fs_of d c pid) = (Ok (Some (mkClaimedFile p q)), fs_of (<[q := Regular data]> (delete p d)) c' pid) /\
    q.1 = p.1 /\ d !! q = None.
Proof.
  intros Hp Hq. unfold claim_file. rewrite ensure_quiet by (by rewrite Hp).
  cbn [sbind claim_attempts fetch_add fs_of TEMP_FILE_COUNTER dir changes process_id]. unfold rename_without_replace, next_change.
  cbn [changes dir]. rewrite Hp, Hq. eexists _, _. split; [reflexivity|]. by split; [|apply Hq].
Qed.

Lemma create_quiet n d c pid (p : Path) : d !! (p.1, temp_name p.2 pid c) = None ->
  create_atomic_temp_file (S n) p (fs_of d c pid) =
  (Ok (p.1, temp_name p.2 pid c), fs_of (<[(p.1, temp_name p.2 pid c) := Regular []]> d) (cast 64 (c + 1)) pid).
Proof.
  intros Ht. cbn [create_atomic_temp_file fetch_add]. unfold fs_of, next_change. cbn [TEMP_FILE_COUNTER process_id changes dir]. by rewrite Ht.
Qed.

Lemma write_all_quiet d c pid tmp data old : d !! tmp = Some (Regular old) ->
  write_all tmp data (fs_of d c pid) = fs_of (<[tmp := Regular data]> d) c pid.
Proof. intros Ht. unfold write_all, fs_of. cbn [dir]. by rewrite Ht. Qed.

Lemma rename_quiet d c pid p q node : d !! p = Some node -> d !! q <> Some Directory ->
  rename p q (fs_of d c pid) = (Ok (), fs_of (<[q := node]> (delete p d)) c pid).
Proof. intros Hp Hq. unfold rename, fs_of, next_change. cbn [changes dir]. rewrite Hp. by destruct (d !! q) as [[]|]. Qed.

Lemma write_quiet root d c pid (p : Path) data :
  (d !! p = None \/ exists old, d !! p = Some (Regular old)) -> (forall n, d !! (p.1, temp_name p.2 pid n) = None) ->
  (forall n, (p.1, temp_name p.2 pid n) <> p) ->
  exists c', write_file_atomically root p data (fs_of d c pid) = (Ok (), fs_of (<[p := Regular data]> d) c' pid).
Proof.
  intros Hp Ht Hne. specialize (Hne c). specialize (Ht c). exists (cast 64 (c + 1)).
  assert (d !! p <> Some Symlink /\ d !! p <> Some Directory) as [Hs Hd] by (destruct Hp as [->|(old & ->)]; done).
  unfold write_file_atomically. rewrite ensure_quiet by done. cbn [sbind]. rewrite create_quiet by done.
  set (tmp := (p.1, temp_name p.2 pid c)) in *. clearbody tmp. cbn [sbind].
  rewrite (write_all_quiet _ _ _ _ _ []) by apply lookup_insert_eq. rewrite insert_insert_eq.
  rewrite ensure_quiet by (by rewrite lookup_insert_ne). cbn [sbind].
  rewrite (rename_quiet _ _ _ _ _ (Regular data)) by (rewrite ?lookup_insert_eq, ?lookup_insert_ne; done).
  by rewrite delete_insert_id.
Qed.

Lemma remove_quiet d c pid p data : d !! p = Some (Regular data) -> remove_file p (fs_of d c pid) = fs_of (delete p d) c pid.
Proof. intros Hp. unfold remove_file, fs_of, next_change. cbn [changes dir]. by rewrite Hp. Qed.

(** ** Lemmas: nothing panics *)

Lemma ensure_no_panic root p f : no_panic (ensure_no_reparse_components root p f).1.
Proof. unfold ensure_no_reparse_components. destruct (symlink_metadata p f) as [[[]|] f']; done. Qed.

Lemma claim_attempts_no_panic n p f : no_panic (claim_attempts n p f).1.
Proof.
  revert f. induction n as [|n IH]; intros f; cbn [claim_attempts]; [done|]. destruct (fetch_add f) as [c f1].
  destruct (rename_without_replace _ _ f1) as [[[]|] f2]; [apply IH|done|done].
Qed.

Lemma claim_no_panic root p f : no_panic (claim_file root p f).1.
Proof.
  unfold claim_file. pose proof (ensure_no_panic root p f) as Hp. destruct (ensure_no_reparse_components root p f) as [[[]| |] f1]; cbn [sbind]; [|done|done].
  apply claim_attempts_no_panic.
Qed.

Lemma create_temp_no_panic n p f : no_panic (create_atomic_temp_file n p f).1.
Proof.
  revert f. induction n as [|n IH]; intros f; cbn [create_atomic_temp_file]; [done|]. destruct (fetch_add f) as [c f1].
  destruct (dir _ !! _); [apply IH|done].
Qed.

Lemma write_no_panic root p data f : no_panic (write_file_atomically root p data f).1.
Proof.
  unfold write_file_atomically. pose proof (ensure_no_panic root p f) as H1. destruct (ensure_no_reparse_components root p f) as [[[]| |] f1]; cbn [sbind]; [|done..].
  pose proof (create_temp_no_panic 32 p f1) as H2. destruct (create_atomic_temp_file 32 p f1) as [[tmp| |] f2]; cbn [sbind]; [|done..].
  set (f3 := write_all tmp data f2). pose proof (ensure_no_panic root p f3) as H3. destruct (ensure_no_reparse_components root p f3) as [[[]| |] f4]; cbn [sbind]; [|done..].
  unfold rename. destruct (dir (next_change f4) !! tmp) as [node|]; [|done]. by destruct (dir (next_change f4) !! p) as [[]|].
Qed.

Lemma account_no_panic n b m path md :
  no_panic (account_scan_entry n) /\ no_panic (account_scan_bytes n b) /\ no_panic (account_candidate_memory m path md).
Proof. unfold account_scan_entry, account_scan_bytes, account_candidate_memory. split_and!; repeat case_if; done. Qed.

(** ** What has been seen *)

Section Seen.
Context `{Countable K}.

(** The oldest keys go while more than the limit are kept. *)
Fixpoint forget_oldest (limit : Z) (order : list K) (keys : gset K) : list K * gset K :=
  match order with
  | [] => ([], keys)
  | oldest :: rest => if limit <? zlen order then forget_oldest limit rest (keys ∖ {[oldest]}) else (order, keys)
  end.

(** A key is remembered, in the set and at the end of the order. *)
Definition remember (limit : Z) (key : K) (order : list K) (keys : gset K) : list K * gset K :=
  forget_oldest limit (if negb (bool_decide (key ∈ keys)) then order ++ [key] else order) ({[key]} ∪ keys).

Lemma forget_oldest_subset limit order keys : (forget_oldest limit order keys).2 ⊆ keys.
Proof.
  revert keys. induction order as [|k order IH]; intros keys; cbn [forget_oldest]; [done|]. case_if; [|done].
  etrans; [apply IH|]. set_solver.
Qed.

(** The keys are the order without duplicates, within the limit. *)
Definition seen_ok (limit : Z) (order : list K) (keys : gset K) : Prop :=
  keys = list_to_set order /\ NoDup order /\ zlen order <= limit.

Lemma forget_oldest_ok limit order keys : 0 <= limit -> keys = list_to_set order -> NoDup order ->
  let '(order', keys') := forget_oldest limit order keys in seen_ok limit order' keys'.
Proof.
  intros Hl. revert keys. induction order as [|k order IH]; intros keys; cbn [forget_oldest]; [by intros; split_and!; [| |rewrite zlen_nil]|].
  intros -> [Hk Hd]%NoDup_cons. destruct (Z.ltb_spec limit (zlen (k :: order))); [|by split_and!; [|constructor|]].
  apply IH; [|done]. cbn [list_to_set]. apply leibniz_equiv. rewrite difference_union_distr_l_L, difference_diag_L, union_empty_l_L.
  apply difference_disjoint. rewrite disjoint_singleton_r. by rewrite elem_of_list_to_set.
Qed.

Lemma remember_ok limit key order keys : 0 <= limit -> seen_ok limit order keys ->
  let '(order', keys') := remember limit key order keys in seen_ok limit order' keys'.
Proof.
  intros Hl (Hs & Hd & _). apply forget_oldest_ok; [done|..].
  - case_bool_decide as Hin; cbn [negb]; rewrite Hs in *; [set_solver|]. rewrite list_to_set_app_L. cbn. set_solver.
  - case_bool_decide as Hin; cbn [negb]; [done|]. apply NoDup_app. split_and!; [done| |apply NoDup_singleton].
    intros x Hx ->%list_elem_of_singleton. apply Hin. rewrite Hs. by apply elem_of_list_to_set.
Qed.
End Seen.

(** ** Lemmas: computations without a panic *)

Lemma on_fs_no_panic {A} (m : Fs -> result A * Fs) w : (forall f, no_panic (m f).1) -> no_panic (on_fs m w).1.
Proof. intros Hm. unfold on_fs. specialize (Hm (fs w)). by destruct (m (fs w)). Qed.
