(* ===== verification/SpoolSession.v ===== *)
(** Receiving encrypted frames from a spool, for any adapter: the interface of
    an adapter's reader, the loop that decrypts what it finds
    ([receive_decrypted_frame] of both read states in shph-transport/src/lib.rs)
    and what holds of it whatever the spool holds. *)
From stdpp Require Import gmap sorting.
From S2P Require Import Prelude Error Primitives SessionCrypto TcpTransport TcpIo Spool.

(** ** A reader of frames *)

Class FrameSource (R F : Type) := {
  source_receive : Z -> IO (World * R) F;              (* a frame, within a timeout *)
  source_payload : F -> bytes;
  source_commit : F -> World * R -> World * R;         (* the frame was accepted *)
  source_reject : F -> World -> World                  (* the frame is moved away *)
}.

Section Loop.
Context `{FrameSource R F, AeadOps}.

Abbreviation Receiving := (World * (R * ReceiveCipher))%type.

(** Running the reader beside the cipher. *)
Definition beside_cipher {A} (m : IO (World * R) A) : IO Receiving A := fun '(w, (r, c)) =>
  let '(v, (w, r)) := m (w, r) in (v, (w, (r, c))).

(** [Instant::now()] beside a state. *)
Definition now_beside {T} : IO (World * T) Z := fun '(w, t) => let '(v, w) := instant_now w in (v, (w, t)).

Fixpoint decrypt_until (fuel : nat) (deadline : Z) : IO Receiving bytes := fun s =>
  match fuel with
  | O => (None, s)
  | S fuel =>
      (let* now := now_beside in
       let* frame := beside_cipher (source_receive (saturating_sub deadline now)) in
       fun '(w, (r, c)) =>
         match decrypt (source_payload frame) c with
         | (Ok plaintext, c) => let '(w, r) := source_commit frame (w, r) in (Some (Ok plaintext), (w, (r, c)))
         | (Err e, c) =>
             (let* now := now_beside in
              if deadline <=? now then io_ret (Err e) else decrypt_until fuel deadline) (source_reject frame w, (r, c))
         | (Panic, c) => (Some Panic, (w, (r, c)))
         end) s
  end.

(** Each round reads the clock at least once, so its readings are fuel enough. *)
Definition receive_decrypted_frame (timeout : Z) : IO Receiving bytes :=
  let* start := now_beside in
  fun '(w, s) => decrypt_until (S (length (clock w))) (start + timeout) (w, s).

(** Calls of a receiver, one after the other, each with whatever files, changes,
    listings and clocks it meets. *)
Fixpoint recv_calls (timeout : Z) (ws : list World) (r : R) (c : ReceiveCipher) : list (option (result bytes)) * R :=
  match ws with
  | [] => ([], r)
  | w :: ws =>
      let '(v, (_, (r, c))) := receive_decrypted_frame timeout (w, (r, c)) in
      let '(vs, r) := recv_calls timeout ws r c in (v :: vs, r)
  end.
End Loop.

(** ** What a reader promises, and what follows for the loop *)

Class FrameSourceLaws (R F : Type) `{FrameSource R F} (inv : R -> Prop) := {
  source_safe timeout w r : inv r ->
    let '(v, (_, r')) := source_receive timeout (w, r) in
    v <> Some Panic /\ inv r' /\ forall f, v = Some (Ok f) -> bytes_ok (source_payload f);
  source_commit_inv f w r : inv r -> inv (source_commit f (w, r)).2
}.

Definition delivered (vs : list (option (result bytes))) : list bytes :=
  omap (fun v => match v with Some (Ok p) => Some p | _ => None end) vs.

Section Safe.
Context `{AeadOps}.

Context `{FrameSourceLaws R F inv} (key : bytes) (Hkey : zlen key = 32).

(** What a call may do to a receiver. *)
Definition call_ok (last : option Z) (v : option (result bytes)) (r : R) (c : ReceiveCipher) : Prop :=
  v <> Some Panic /\ inv r /\
  match v with
  | Some (Ok p) => exists frame n, (forall l, last = Some l -> l < n) /\ opens_to key frame n p /\ c = mkReceiveCipher key (Strict (Some n))
  | _ => c = mkReceiveCipher key (Strict last)
  end.

Lemma decrypt_until_ok fuel deadline last w r : inv r ->
  let '(v, (_, (r', c'))) := decrypt_until fuel deadline (w, (r, mkReceiveCipher key (Strict last))) in call_ok last v r' c'.
Proof.
  intros Hr. revert w r Hr. induction fuel as [|fuel IH]; intros w r Hr; cbn [decrypt_until]; [done|]. unfold io_bind, now_beside at 1, instant_now at 1.
  destruct w as [f ls [|now cl] u]; cbn [clock fs listings unix_clock]; [done|]. unfold beside_cipher.
  set (w := mkWorld f ls cl u). set (d := saturating_sub deadline now). pose proof (source_safe d w r Hr) as Hs.
  destruct (source_receive d (w, r)) as [v (w1 & r1)]. destruct Hs as (Hp & Hr1 & Hf). destruct v as [[frame|e|]|]; [|done..].
  specialize (Hf frame eq_refl).
  destruct (decrypt_strict_cases key last (source_payload frame) Hkey Hf) as [(e & ->)|(n & p & Hn & Ho & ->)].
  - unfold now_beside, instant_now. destruct (source_reject frame w1) as [f2 ls2 [|now2 cl2] u2]; cbn [clock fs listings unix_clock]; [done|].
    case_if; [done|]. by apply IH.
  - pose proof (source_commit_inv frame w1 r1 Hr1) as Hi. destruct (source_commit frame (w1, r1)) as [w2 r2]. split_and!; [done|done|].
    by exists (source_payload frame), n.
Qed.

Lemma receive_ok timeout last w r : inv r ->
  let '(v, (_, (r', c'))) := receive_decrypted_frame timeout (w, (r, mkReceiveCipher key (Strict last))) in call_ok last v r' c'.
Proof.
  intros Hr. unfold receive_decrypted_frame, io_bind, now_beside, instant_now. destruct w as [f ls [|t cl] u]; cbn [clock]; [done|].
  by apply decrypt_until_ok.
Qed.

(** Whatever the worlds, no call panics, and what the calls return was sealed
    under the key with increasing counters. *)
Lemma recv_calls_ok timeout ws last r : inv r ->
  let '(vs, r') := recv_calls timeout ws r (mkReceiveCipher key (Strict last)) in
  Forall (fun v => v <> Some Panic) vs /\ inv r' /\
  exists frames, Forall2 (fun p fn => opens_to key fn.1 fn.2 p) (delivered vs) frames /\
    StronglySorted Z.lt (map snd frames) /\ forall l, last = Some l -> Forall (fun n => l < n) (map snd frames).
Proof.
  revert last r. induction ws as [|w ws IH]; intros last r Hr; cbn [recv_calls].
  { split_and!; [constructor|done|]. exists []. split_and!; [constructor|constructor|]. intros. constructor. }
  pose proof (receive_ok timeout last w r Hr) as Hc. destruct (receive_decrypted_frame _ _) as [v (w' & r1 & c1)]. destruct Hc as (Hp & Hr1 & Hc).
  assert (exists last1, c1 = mkReceiveCipher key (Strict last1)) as (last1 & Ec1).
  { destruct v as [[p|e|]|]; [destruct Hc as (frame & n & _ & _ & ->)|..]; eauto. }
  subst c1. specialize (IH last1 r1 Hr1). destruct (recv_calls timeout ws r1 _) as [vs r2]. destruct IH as (I1 & I2 & frames & F1 & F2 & F3).
  split_and!; [by constructor|done|]. destruct v as [[p|e|]|]; cbn [delivered omap list_omap]; [|injection Hc as ->; by exists frames..].
  destruct Hc as (frame & n & Hn & Ho & [= ->]). specialize (F3 n eq_refl). exists ((frame, n) :: frames). split_and!.
  - by constructor.
  - cbn [map snd]. by constructor.
  - intros l Hl. cbn [map snd]. specialize (Hn l Hl). constructor; [done|]. eapply Forall_impl; [exact F3|]. cbn. lia.
Qed.
End Safe.
