(* ===== verification/OfflineMesh.v ===== *)
(** The offline mesh (shph-transport/src/lib.rs): envelopes as files in a spool
    directory, its writer and reader states, and a session that encrypts and
    decrypts what it passes through them.  serde_json is an interface. *)
From stdpp Require Import gmap sorting.
From S2P Require Import Prelude Ordering Error Text Primitives Replay SessionCrypto TcpTransport TcpIo Spool SpoolSession.

Record OfflineMeshConfig := mkOfflineMeshConfig {
  node_id : string; peer_id : string; spool_dir : string; poll_interval_ms : Z; max_idle_entries : Z }.

Record OfflineMeshEnvelope := mkOfflineMeshEnvelope {
  session_id : string; from_node : string; to_node : string;
  created_at_unix_ms : Z; sequence : Z; ciphertext_b64 : string }.

Definition envelope_ok (e : OfflineMeshEnvelope) : Prop :=
  Forall (fun s => utf8_valid (str_bytes s) = true) [session_id e; from_node e; to_node e; ciphertext_b64 e] /\
  0 <= created_at_unix_ms e <= u64_max /\ 0 <= sequence e <= u64_max.

(** The JSON of an envelope (crate serde_json): it can be written and parses
    back; numbers are printed in decimal, and a text without characters that
    JSON escapes is copied. *)
Class MeshJson := {
  mesh_to_json : OfflineMeshEnvelope -> result bytes;
  mesh_of_json : bytes -> option OfflineMeshEnvelope }.

Class MeshJsonLaws `{MeshJson} := {
  mesh_json_round_trip e : envelope_ok e -> exists json, mesh_to_json e = Ok json /\ mesh_of_json json = Some e;
  mesh_json_no_panic e : no_panic (mesh_to_json e);
  mesh_json_size e json json' : envelope_ok e -> Forall (fun c => 32 < c < 127 /\ c <> 34 /\ c <> 92) (str_bytes (ciphertext_b64 e)) ->
    mesh_to_json e = Ok json ->
    mesh_to_json (mkOfflineMeshEnvelope (session_id e) (from_node e) (to_node e) u64_max u64_max "") = Ok json' ->
    zlen json <= zlen json' + str_len (ciphertext_b64 e) }.

Section Mesh.
Context `{HashOps, KexOps, MeshJson}.

(** ** Writing *)

Record OfflineMeshWriteState := mkWriteState {
  w_spool_dir : string; w_local_node : string; w_peer_node : string;
  next_sequence : Z; w_max_file_bytes : Z; max_payload_bytes : Z }.

Definition offline_mesh_payload_capacity (max_file_bytes : Z) (local_node peer_node : string) : Z :=
  match mesh_to_json (mkOfflineMeshEnvelope (offline_session_id local_node peer_node) local_node peer_node u64_max u64_max "") with
  | Ok bytes => max_plaintext_for_file_adapter max_file_bytes (zlen bytes)
  | _ => 0
  end.

Definition OfflineMeshWriteState_new (cfg : OfflineMeshConfig) (local_node peer_node : string) : OfflineMeshWriteState :=
  mkWriteState (spool_dir cfg) local_node peer_node 0 MAX_FILE_ADAPTER_BYTES
    (offline_mesh_payload_capacity MAX_FILE_ADAPTER_BYTES local_node peer_node).

Definition queue_dir (spool session from to : string) : string :=
  path_join (path_join (path_join (path_join spool session) "out") (sanitize_component from)) (sanitize_component to).

Definition out_dir (s : OfflineMeshWriteState) : string :=
  queue_dir (w_spool_dir s) (offline_session_id (w_local_node s) (w_peer_node s)) (w_local_node s) (w_peer_node s).

Definition envelope_file (created_at sequence : Z) : string := show created_at +:+ "-" +:+ show sequence +:+ ".json".

(** The queue directory exists: creating it is taken to succeed. *)
Definition send_payload (payload : bytes) : OfflineMeshWriteState * World -> result unit * (OfflineMeshWriteState * World) :=
  fun '(s, w) =>
  let session := offline_session_id (w_local_node s) (w_peer_node s) in
  match now_unix_ms w with
  | (Ok created_at, w) =>
      let envelope := mkOfflineMeshEnvelope session (w_local_node s) (w_peer_node s) created_at (next_sequence s) (b64_encode payload) in
      let s := mkWriteState (w_spool_dir s) (w_local_node s) (w_peer_node s) (saturating_add u64_max (next_sequence s) 1)
                 (w_max_file_bytes s) (max_payload_bytes s) in
      match mesh_to_json envelope with
      | Ok bytes =>
          if w_max_file_bytes s <? zlen bytes then (Err (Protocol "offline mesh envelope too large"), (s, w))
          else
            let p := ([], envelope_file created_at (sequence envelope)) in
            let '(r, f) := write_file_atomically (out_dir s) p bytes (fs w) in (r, (s, set_fs f w))
      | Err e => (Err e, (s, w))
      | Panic => (Panic, (s, w))
      end
  | (Err e, w) => (Err e, (s, w))
  | (Panic, w) => (Panic, (s, w))
  end.

(** ** Reading *)

Record OfflineMeshReadState := mkReadState {
  r_spool_dir : string; r_local_node : string; r_peer_node : string; poll_interval : Z;
  seen_frames : gset (Z * Z); seen_order : list (Z * Z); max_seen : Z; r_max_file_bytes : Z }.

Definition OfflineMeshReadState_new (cfg : OfflineMeshConfig) (local_node peer_node : string) : OfflineMeshReadState :=
  mkReadState (spool_dir cfg) local_node peer_node (clamp 1 MAX_ADAPTER_POLL_INTERVAL_MS (poll_interval_ms cfg) * MILLISECOND)
    ∅ [] (clamp 1 65536 (max_idle_entries cfg)) MAX_FILE_ADAPTER_BYTES.

Definition inbound_queue_dir (r : OfflineMeshReadState) : string :=
  queue_dir (r_spool_dir r) (offline_session_id (r_local_node r) (r_peer_node r)) (r_peer_node r) (r_local_node r).

Record OfflineMeshCandidate := mkCandidate { c_path : Path; c_created_at : Z; c_sequence : Z }.

Record OfflineMeshFrame := mkFrame { payload : bytes; claimed : ClaimedFile; f_created_at : Z; f_sequence : Z }.

(** The budgets used and the candidates found, in the order of the listing. *)
Record Scan := mkScan { scanned : Z; scanned_bytes : Z; candidate_memory : Z; candidates : list OfflineMeshCandidate }.

Definition for_me (r : OfflineMeshReadState) (e : OfflineMeshEnvelope) : bool :=
  bool_decide (session_id e = offline_session_id (r_local_node r) (r_peer_node r)) &&
  bool_decide (from_node e = r_peer_node r) && bool_decide (to_node e = r_local_node r) &&
  negb (bool_decide ((created_at_unix_ms e, sequence e) ∈ seen_frames r)).

(** A file of the right size and extension. *)
Definition scan_file (r : OfflineMeshReadState) (p : Path) (size : Z) (s : Scan) (w : World) : result Scan * World :=
  let! total, w := (account_scan_bytes (scanned_bytes s) size, w) in
  let s := mkScan (scanned s) total (candidate_memory s) (candidates s) in
  match on_fs (read_file_bytes p (r_max_file_bytes r)) w with
  | (inl FileTooLarge, w) => (Ok s, change_fs (quarantine_file p) w)
  | (inl e, w) => (Err (file_error e), w)
  | (inr bytes, w) =>
      match mesh_of_json bytes with
      | None => (Ok s, change_fs (quarantine_file p) w)
      | Some e =>
          if negb (for_me r e) then (Ok s, w)
          else
            match account_candidate_memory (candidate_memory s) (path_text (inbound_queue_dir r) p)
                    [session_id e; from_node e; to_node e] with
            | Ok memory =>
                (Ok (mkScan (scanned s) (scanned_bytes s) memory
                  (candidates s ++ [mkCandidate p (created_at_unix_ms e) (sequence e)])), w)
            | Err (Protocol _) => (Ok s, change_fs (quarantine_file p) w)
            | Err e => (Err e, w)
            | Panic => (Panic, w)
            end
      end
  end.

Definition scan_entry (r : OfflineMeshReadState) (entry : Entry) (s : Scan) (w : World) : result Scan * World :=
  let! n, w := (account_scan_entry (scanned s), w) in
  let s := mkScan n (scanned_bytes s) (candidate_memory s) (candidates s) in
  match entry with
  | EntryFailed e => (Err e, w)
  | Named name =>
      let p := ([], name) in
      let! _ok, w := on_fs (ensure_no_reparse_components (inbound_queue_dir r) p) w in
      match on_fs (symlink_metadata p) w with
      | (Some (Regular contents), w) =>
          if negb (bool_decide (extension name = "json")) then (Ok s, w)
          else if r_max_file_bytes r <? zlen contents then (Ok s, change_fs (quarantine_file p) w)
          else scan_file r p (zlen contents) s w
      | (_, w) => (Ok s, w)
      end
  end.

Fixpoint scan_entries (r : OfflineMeshReadState) (entries : list Entry) (s : Scan) (w : World) : result Scan * World :=
  match entries with
  | [] => (Ok s, w)
  | e :: entries => let! s, w := scan_entry r e s w in scan_entries r entries s w
  end.

Definition cmp_candidates : OfflineMeshCandidate -> OfflineMeshCandidate -> comparison :=
  cmp_then (cmp_by c_created_at Z.compare) (cmp_by c_sequence Z.compare).

(** A claimed file that still is the candidate. *)
Definition open_claimed (r : OfflineMeshReadState) (c : OfflineMeshCandidate) (claimed : ClaimedFile) (w : World)
    : result (option OfflineMeshFrame) * World :=
  match on_fs (read_file_bytes (claimed_path claimed) (r_max_file_bytes r)) w with
  | (inl FileTooLarge, w) => (Ok None, change_fs (quarantine_claimed_file claimed) w)
  | (inl FileMissing, w) => (Ok None, w)
  | (inl e, w) => (Err (file_error e), w)
  | (inr bytes, w) =>
      match mesh_of_json bytes with
      | None => (Ok None, change_fs (quarantine_claimed_file claimed) w)
      | Some e =>
          if negb (for_me r e && (created_at_unix_ms e =? c_created_at c) && (sequence e =? c_sequence c))
          then (Ok None, change_fs (quarantine_claimed_file claimed) w)
          else
            match b64_decode (ciphertext_b64 e) with
            | Some payload => (Ok (Some (mkFrame payload claimed (created_at_unix_ms e) (sequence e))), w)
            | None => (Ok None, change_fs (quarantine_claimed_file claimed) w)
            end
      end
  end.

Fixpoint first_frame (r : OfflineMeshReadState) (cs : list OfflineMeshCandidate) (w : World)
    : result (option OfflineMeshFrame) * World :=
  match cs with
  | [] => (Ok None, w)
  | c :: cs =>
      let! claim, w := on_fs (claim_file (inbound_queue_dir r) (c_path c)) w in
      match claim with
      | None => first_frame r cs w
      | Some claimed =>
          let! frame, w := open_claimed r c claimed w in
          match frame with Some f => (Ok (Some f), w) | None => first_frame r cs w end
      end
  end.

Definition poll_inbound (r : OfflineMeshReadState) (w : World) : result (option OfflineMeshFrame) * World :=
  match read_dir [] w with
  | (QueueAbsent, w) => (Ok None, w)
  | (QueueRefused e, w) => (Err e, w)
  | (Entries entries, w) =>
      let! s, w := scan_entries r entries (mkScan 0 0 0 []) w in
      first_frame r (sort_by cmp_candidates (candidates s)) w
  end.

Definition mark_seen (created_at sequence : Z) (r : OfflineMeshReadState) : OfflineMeshReadState :=
  let '(order, frames) := remember (Z.max 1 (max_seen r)) (created_at, sequence) (seen_order r) (seen_frames r) in
  mkReadState (r_spool_dir r) (r_local_node r) (r_peer_node r) (poll_interval r) frames order (max_seen r) (r_max_file_bytes r).

Definition commit_frame (f : OfflineMeshFrame) : World * OfflineMeshReadState -> World * OfflineMeshReadState :=
  fun '(w, r) => (change_fs (remove_file (claimed_path (claimed f))) w, mark_seen (f_created_at f) (f_sequence f) r).

(** Polling until a frame or the deadline.  Each round reads the clock once. *)
Fixpoint poll_until (fuel : nat) (deadline : Z) (r : OfflineMeshReadState) : IO World OfflineMeshFrame := fun w =>
  match fuel with
  | O => (None, w)
  | S fuel =>
      (let* found := io_of (poll_inbound r) in
       match found with
       | Some frame => io_ret (Ok frame)
       | None =>
           let* now := instant_now in
           if deadline <=? now then io_ret (Err Timeout) else poll_until fuel deadline r
       end) w
  end.

Definition receive_raw_payload (timeout : Z) (r : OfflineMeshReadState) : IO World OfflineMeshFrame :=
  let* start := instant_now in
  fun w => poll_until (S (length (clock w))) (start + timeout) r w.

#[export] Instance mesh_source : FrameSource OfflineMeshReadState OfflineMeshFrame := {
  source_receive timeout := fun '(w, r) => let '(v, w) := receive_raw_payload timeout r w in (v, (w, r));
  source_payload := payload;
  source_commit := commit_frame;
  source_reject f := change_fs (quarantine_claimed_file (claimed f)) }.

Context `{AeadOps}.

(** ** Sessions *)

Record OfflineMeshSession := mkSession {
  send_state : OfflineMeshWriteState; recv_state : OfflineMeshReadState;
  send_cipher : SendCipher; recv_cipher : ReceiveCipher }.

Definition OfflineMeshSession_new (cfg : OfflineMeshConfig) (send_key recv_key : bytes) : OfflineMeshSession :=
  mkSession (OfflineMeshWriteState_new cfg (node_id cfg) (peer_id cfg)) (OfflineMeshReadState_new cfg (node_id cfg) (peer_id cfg))
    (SendCipher_new send_key) (ReceiveCipher_new recv_key).

Definition send_frame (plaintext : bytes) : OfflineMeshWriteState * SendCipher * World -> result unit * (OfflineMeshWriteState * SendCipher * World) :=
  fun '(s, c, w) =>
  let! _ok, st := (validate_file_adapter_payload plaintext (max_payload_bytes s) (w_max_file_bytes s), (s, c, w)) in
  let '(s, c, w) := st in
  match encrypt plaintext c with
  | (Ok ciphertext, c) => let '(r, (s, w)) := send_payload ciphertext (s, w) in (r, (s, c, w))
  | (Err e, c) => (Err e, (s, c, w))
  | (Panic, c) => (Panic, (s, c, w))
  end.

Definition recv_frame : IO (World * (OfflineMeshReadState * ReceiveCipher)) bytes := fun '(w, (r, c)) => receive_decrypted_frame (poll_interval r) (w, (r, c)).

Definition session_send (plaintext : bytes) : OfflineMeshSession * World -> result unit * (OfflineMeshSession * World) :=
  fun '(x, w) =>
  let '(r, (s, c, w)) := send_frame plaintext (send_state x, send_cipher x, w) in
  (r, (mkSession s (recv_state x) c (recv_cipher x), w)).

Definition session_recv : IO (OfflineMeshSession * World) bytes := fun '(x, w) =>
  let '(v, (w, (r, c))) := recv_frame (w, (recv_state x, recv_cipher x)) in
  (v, (mkSession (send_state x) r (send_cipher x) c, w)).

End Mesh.

(** ** Lemmas: names *)

Lemma envelope_file_bytes t n : str_bytes (envelope_file t n) =
  str_bytes (show t) ++ 45 :: str_bytes (show n) ++ [46; 106; 115; 111; 110].
Proof. unfold envelope_file. by rewrite !str_bytes_app. Qed.

Lemma no_dash l : Forall digit l -> 45 ∉ l.
Proof. unfold digit. rewrite Forall_forall. intros Hl H45%Hl. lia. Qed.

Lemma no_dot l : Forall digit l -> 46 ∉ l.
Proof. unfold digit. rewrite Forall_forall. intros Hl H46%Hl. lia. Qed.

Lemma envelope_file_inj t n t' n' : 0 <= t -> 0 <= n -> 0 <= t' -> 0 <= n' ->
  envelope_file t n = envelope_file t' n' -> t = t' /\ n = n'.
Proof.
  intros Ht Hn Ht' Hn' E%(f_equal str_bytes). rewrite !envelope_file_bytes in E.
  apply split_at_first in E as [E1 E2]; [|by apply no_dash, show_digits..].
  apply split_at_first in E2 as [E2 _]; [|by apply no_dot, show_digits..].
  by split; apply show_inj, str_bytes_inj.
Qed.

Lemma envelope_file_head t n : 0 <= t -> exists b l, str_bytes (envelope_file t n) = b :: l /\ digit b.
Proof.
  intros Ht. rewrite envelope_file_bytes. destruct (show_digits t Ht) as [Hd Hne].
  destruct (str_bytes (show t)) as [|b l]; [done|]. apply Forall_cons in Hd as [Hb _]. by eexists _, _.
Qed.

Lemma envelope_file_extension t n : 0 <= t -> extension (envelope_file t n) = "json".
Proof.
  intros Ht. unfold extension, split_name. destruct (envelope_file_head t n Ht) as (b & l & E & Hb).
  rewrite bool_decide_eq_false_2; [|intros E2; rewrite E2 in E; injection E as <- _; unfold digit in Hb; lia].
  destruct (show_digits t Ht) as [_ Hne]. rewrite envelope_file_bytes.
  set (stem := str_bytes (show t) ++ 45 :: str_bytes (show n)).
  assert (str_bytes (show t) ++ 45 :: str_bytes (show n) ++ [46; 106; 115; 111; 110] = stem ++ [46; 106; 115; 111; 110]) as ->
    by (unfold stem; by rewrite <- app_assoc).
  rewrite rev_app_distr. change (rev [46; 106; 115; 111; 110]) with [110; 111; 115; 106; 46].
  cbn [app before_dot Z.eqb Pos.eqb]. rewrite rev_involutive. rewrite bool_decide_eq_false_2; [reflexivity|].
  unfold stem. by destruct (str_bytes (show t)).
Qed.

Lemma envelope_file_len t n : 0 <= t <= u64_max -> 0 <= n <= u64_max -> str_len (envelope_file t n) <= 46.
Proof.
  intros Ht Hn. unfold str_len. rewrite envelope_file_bytes. pose proof (show_u64_len t Ht). pose proof (show_u64_len n Hn). zl.
Qed.

(** Names this process makes up are never those of envelopes. *)
Lemma dotted_not_envelope s t n : 0 <= t -> "." +:+ s <> envelope_file t n.
Proof.
  intros Ht E%(f_equal str_bytes). destruct (envelope_file_head t n Ht) as (b & l & E' & Hb). rewrite E' in E.
  injection E as <- _. unfold digit in Hb. lia.
Qed.

Section Names.
Context `{HashLaws}.

Lemma readable_ascii l : Forall (fun b => 0 <= b < 128) (readable l) /\ zlen (readable l) <= 24.
Proof.
  unfold readable. case_bool_decide as E; [split; [by repeat constructor; lia|done]|]. split.
  - apply Forall_take, Forall_map, Forall_forall. intros b _. unfold readable_char, in_range. case_if; bool_prop; [|lia]. 
    repeat match goal with H : _ || _ = true |- _ => apply orb_true_iff in H as [H|H] end; bool_prop; lia.
  - unfold ztake, READABLE_PREFIX_BYTES, zlen. rewrite length_take. lia.
Qed.

Lemma component_ascii s : Forall (fun b => 0 <= b < 128) (str_bytes (safe_path_component s)) /\ str_len (safe_path_component s) <= 57.
Proof.
  unfold safe_path_component, str_len. set (digest := sha256 _). destruct (readable_ascii (str_bytes s)) as [Ha Hl].
  rewrite !str_bytes_app, str_bytes_str by (eapply Forall_impl; [exact Ha|unfold is_byte; cbn; lia]).
  assert (bytes_ok (ztake HASH_BYTES digest)) as Hb by (apply Forall_take, sha256_bytes).
  rewrite hex_encode_bytes by done. change (str_bytes "-") with [45]. split.
  - rewrite !Forall_app. split; [done|]. split; [by repeat constructor; lia|].
    eapply Forall_impl; [by apply hex_pairs_ascii|]. cbn. lia.
  - rewrite !zlen_app, zlen_hex_pairs. unfold ztake, HASH_BYTES. pose proof (length_take digest (Z.to_nat 16)). unfold zlen in *. cbn. lia.
Qed.

Lemma session_id_comm a b : offline_session_id a b = offline_session_id b a.
Proof.
  unfold offline_session_id. rewrite (cmp_opp (cmp:=cmp_string) (safe_path_component a)).
  destruct (cmp_string _ _) eqn:E; [|done..]. apply cmp_bytes_eq, str_bytes_inj in E. by rewrite E.
Qed.

Lemma session_id_ascii a b : Forall (fun c => 0 <= c < 128) (str_bytes (offline_session_id a b)) /\ str_len (offline_session_id a b) <= 116.
Proof.
  unfold offline_session_id, str_len. destruct (component_ascii a) as [Ha La]. destruct (component_ascii b) as [Hb Lb]. unfold str_len in *.
  destruct (cmp_string _ _); rewrite !str_bytes_app, !Forall_app, !zlen_app; change (str_bytes "--") with [45; 45];
    (split; [split_and!; try done; repeat constructor; lia|change (zlen [45; 45]) with 2; lia]).
Qed.
End Names.

(** ** Lemmas: what has been seen *)

Lemma mark_seen_below base t r : (forall k, k ∈ seen_frames r -> k.2 < base) ->
  forall k, k ∈ seen_frames (mark_seen t base r) -> k.2 < base + 1.
Proof.
  intros Hs k. unfold mark_seen, remember. set (order := if negb _ then _ else _).
  pose proof (forget_oldest_subset (Z.max 1 (max_seen r)) order ({[(t, base)]} ∪ seen_frames r)) as Hsub.
  destruct (forget_oldest _ _ _) as [o f]. cbn [seen_frames snd] in *. intros Hk%Hsub.
  apply elem_of_union in Hk as [->%elem_of_singleton|Hk%Hs]; cbn; lia.
Qed.

(** ** Lemmas: a queue that holds the frames of a sender *)

(** A frame in the queue: when it was written, its number, its plaintext, the
    sealed text and the contents of its file. *)
Record Item := mkItem { it_time : Z; it_number : Z; it_plain : bytes; it_sealed : bytes; it_json : bytes }.

Definition item_name (it : Item) : string := envelope_file (it_time it) (it_number it).
Definition item_path (it : Item) : Path := ([], item_name it).
Definition item_file (it : Item) : Path * Node := (item_path it, Regular (it_json it)).
Definition item_candidate (it : Item) : OfflineMeshCandidate := mkCandidate (item_path it) (it_time it) (it_number it).
Definition files (q : list Item) : Dir := list_to_map (map item_file q).

Section Queue.
Context `{HashLaws, KexLaws, MeshJsonLaws, AeadLaws}.
Context (key : bytes) (spool from to : string).

Definition frame_of (it : Item) : bytes := nonce12 (it_number it) ++ it_sealed it.

Definition item_envelope (it : Item) : OfflineMeshEnvelope :=
  mkOfflineMeshEnvelope (offline_session_id from to) from to (it_time it) (it_number it) (b64_encode (frame_of it)).

Record item_ok (it : Item) : Prop := {
  item_range : 0 <= it_time it <= u64_max /\ 0 <= it_number it <= u64_max;
  item_parses : mesh_of_json (it_json it) = Some (item_envelope it);
  item_size : zlen (it_json it) <= MAX_FILE_ADAPTER_BYTES;
  item_seals : aead_seal key (nonce12 (it_number it)) (it_plain it) = Some (it_sealed it);
  item_bytes : bytes_ok (it_sealed it) }.

(** The items are numbered one after the other from [base], and their times do
    not decrease. *)
Fixpoint numbered (base : Z) (q : list Item) : Prop :=
  match q with [] => True | it :: q => it_number it = base /\ Forall (fun it' => it_time it <= it_time it') q /\ numbered (base + 1) q end.

Lemma numbered_above base q : numbered base q -> Forall (fun it => base <= it_number it) q.
Proof.
  revert base. induction q as [|it q IH]; intros base; [constructor|]. intros (E & _ & Hq). constructor; [lia|].
  eapply Forall_impl; [by apply IH|]. cbn. lia.
Qed.

Lemma numbered_snoc base q it : numbered base q -> it_number it = base + zlen q ->
  Forall (fun it' => it_time it' <= it_time it) q -> numbered base (q ++ [it]).
Proof.
  revert base. induction q as [|x q IH]; intros base Hq Hn Ht.
  - cbn. split_and!; [zl|constructor|done].
  - destruct Hq as (E & Hx & Hq). apply Forall_cons in Ht as [Ht1 Ht]. rewrite zlen_cons in Hn. cbn [app numbered]. split; [done|].
    split; [by rewrite Forall_app, Forall_singleton|]. apply IH; [done|lia|done].
Qed.

Lemma item_path_inj it it' : item_ok it -> item_ok it' -> item_path it = item_path it' ->
  it_time it = it_time it' /\ it_number it = it_number it'.
Proof. intros [[? ?] _ _ _ _] [[? ?] _ _ _ _] [= E]. apply envelope_file_inj in E; [done|lia..]. Qed.

Lemma numbered_nodup base q : Forall item_ok q -> numbered base q -> NoDup (map item_path q).
Proof.
  intros Hq. revert base. induction Hq as [|it q Hit Hq IH]; intros base; [constructor|]. intros (E & _ & Hn). cbn [map]. constructor; [|by eapply IH].
  intros (it' & Ep & Hin)%list_elem_of_fmap. apply numbered_above in Hn. rewrite Forall_forall in Hn, Hq.
  specialize (Hn _ Hin). destruct (item_path_inj it it' Hit (Hq _ Hin) Ep). lia.
Qed.

Lemma files_keys q : (map item_file q).*1 = map item_path q.
Proof. rewrite <- list_fmap_compose. done. Qed.

Lemma files_lookup q it : NoDup (map item_path q) -> it ∈ q -> files q !! item_path it = Some (Regular (it_json it)).
Proof.
  intros Hd Hin. apply elem_of_list_to_map_1; [by rewrite files_keys|]. apply list_elem_of_fmap. by exists it.
Qed.

Lemma files_none q p : p ∉ map item_path q -> files q !! p = None.
Proof. intros Hp. apply not_elem_of_list_to_map_1. by rewrite files_keys. Qed.

Lemma files_dotted q d s : Forall item_ok q -> files q !! (d, "." +:+ s) = None.
Proof.
  intros Hq. apply files_none. intros (it & Ep & Hin)%list_elem_of_fmap. rewrite Forall_forall in Hq.
  destruct (Hq _ Hin) as [[? _] _ _ _ _]. injection Ep as _ E. by apply dotted_not_envelope in E; [|lia].
Qed.

Lemma files_snoc q it : item_path it ∉ map item_path q -> files (q ++ [it]) = <[item_path it := Regular (it_json it)]> (files q).
Proof.
  intros Hn. unfold files. rewrite map_app, list_to_map_app. cbn [map list_to_map foldr].
  rewrite <- insert_union_r by (by apply files_none). by rewrite map_union_empty.
Qed.

Lemma files_tail it q : item_path it ∉ map item_path q -> delete (item_path it) (files (it :: q)) = files q.
Proof. intros Hn. apply delete_insert_id. by apply files_none. Qed.

(** Whatever the order in which a directory is listed. *)
Definition honest (l : Dir -> list string -> Listing) : Prop :=
  forall d at_dir, exists names, l d at_dir = Entries (map Named names) /\ names ≡ₚ names_in at_dir d.

Lemma names_in_files q : NoDup (map item_path q) -> names_in [] (files q) ≡ₚ map item_name q.
Proof.
  intros Hd. unfold names_in. assert (map_to_list (files q) ≡ₚ map item_file q) as -> by (apply map_to_list_to_map; by rewrite files_keys).
  clear Hd. apply reflexive_eq. induction q as [|it q IH]; [done|]. cbn [map]. rewrite filter_cons_True by done. cbn [map]. by rewrite IH.
Qed.

Lemma read_dir_files w q : dir (fs w) = files q -> NoDup (map item_path q) -> Forall honest (listings w) ->
  exists l w', read_dir [] w = (Entries (map Named (map item_name l)), w') /\ l ≡ₚ q /\
    fs w' = fs w /\ clock w' = clock w /\ unix_clock w' = unix_clock w /\ Forall honest (listings w').
Proof.
  intros Hw Hd Hl. destruct w as [f ls c u]. cbn [listings fs clock unix_clock] in *. pose proof (names_in_files q Hd) as Hp. rewrite <- Hw in Hp.
  assert (exists names w', read_dir [] (mkWorld f ls c u) = (Entries (map Named names), w') /\ names ≡ₚ names_in [] (dir f) /\
    fs w' = f /\ clock w' = c /\ unix_clock w' = u /\ Forall honest (listings w')) as (names & w' & E & Hn & Hw').
  { unfold read_dir. cbn [listings fs clock unix_clock]. destruct Hl as [|l ls Hl Hls]; [by eexists _, _|].
    destruct (Hl (dir f) []) as (names & -> & Hn). eexists _, _. split; [done|]. by split. }
  rewrite <- Hn in Hp. apply Permutation_map_inv in Hp as (l & -> & Hp). by exists l, w'.
Qed.

(** ** Lemmas: scanning such a queue *)

Context (Hfrom : str_len from <= 1024) (Hto : str_len to <= 1024)
  (Hdir : str_len (queue_dir spool (offline_session_id from to) from to) <= 65536).

Record reads_from (r : OfflineMeshReadState) : Prop := {
  rf_spool : r_spool_dir r = spool; rf_local : r_local_node r = to; rf_peer : r_peer_node r = from;
  rf_bound : r_max_file_bytes r = MAX_FILE_ADAPTER_BYTES }.

Lemma on_fs_same {A} (m : Fs -> A * Fs) (w : World) a : m (fs w) = (a, fs w) -> on_fs m w = (a, w).
Proof. intros E. unfold on_fs. rewrite E. by destruct w. Qed.

(** What a candidate may cost. *)
Definition CANDIDATE_COST : Z := 131072.

Lemma str_len_nonneg s : 0 <= str_len s.
Proof. unfold str_len. zl. Qed.

Lemma path_join_len a b : str_len (path_join a b) <= str_len a + 1 + str_len b.
Proof.
  unfold path_join, str_len. case_if; rewrite !str_bytes_app; [|change (str_bytes "/") with [47]]; zl.
Qed.

Lemma candidate_memory_ok m it root : item_ok it -> str_len root <= 65536 -> 0 <= m -> m + CANDIDATE_COST <= MAX_QUEUE_CANDIDATE_MEMORY ->
  exists m', account_candidate_memory m (path_text root (item_path it)) [offline_session_id from to; from; to] = Ok m' /\ 0 <= m' <= m + CANDIDATE_COST.
Proof.
  intros [[? ?] _ _ _ _] Hr Hm Hb. unfold account_candidate_memory, CANDIDATE_COST, MAX_QUEUE_CANDIDATE_MEMORY, MAX_ADAPTER_METADATA_BYTES in *.
  destruct (session_id_ascii from to) as [_ Hs]. cbn [existsb fold_left].
  rewrite !(proj2 (Z.ltb_ge 1024 _)) by lia. cbn [orb].
  assert (str_len (path_text root (item_path it)) <= 65536 + 1 + 46) as Hpath.
  { unfold path_text. cbn [item_path fst snd fold_left]. etrans; [apply path_join_len|]. unfold item_name.
    pose proof (envelope_file_len (it_time it) (it_number it)). lia. }
  pose proof (str_len_nonneg (path_text root (item_path it))). pose proof (str_len_nonneg (offline_session_id from to)).
  pose proof (str_len_nonneg from). pose proof (str_len_nonneg to).
  set (path := str_len (path_text _ _)) in *. clearbody path.
  unfold saturating_add, usize_max, u64_max. rewrite !Z.min_r by lia. rewrite (proj2 (Z.ltb_ge _ _)) by lia. eexists; split; [done|lia].
Qed.

Lemma for_me_item r it : reads_from r -> (it_time it, it_number it) ∉ seen_frames r -> for_me r (item_envelope it) = true.
Proof.
  intros [_ Hl Hp _] Hs. unfold for_me, item_envelope. cbn [session_id from_node to_node created_at_unix_ms sequence].
  rewrite Hl, Hp, (session_id_comm to from). rewrite (bool_decide_eq_false_2 (_ ∈ _)) by done.
  by rewrite !bool_decide_eq_true_2.
Qed.

Definition with_room (n : Z) (s : Scan) : Prop :=
  0 <= scanned s /\ scanned s + n <= MAX_QUEUE_SCAN_ENTRIES /\
  0 <= scanned_bytes s /\ scanned_bytes s + n * MAX_FILE_ADAPTER_BYTES <= MAX_QUEUE_SCAN_BYTES /\
  0 <= candidate_memory s /\ candidate_memory s + n * CANDIDATE_COST <= MAX_QUEUE_CANDIDATE_MEMORY.

Lemma scan_item r it s n w d c pid : reads_from r -> item_ok it -> fs w = fs_of d c pid ->
  d !! item_path it = Some (Regular (it_json it)) -> (it_time it, it_number it) ∉ seen_frames r -> 0 <= n -> with_room (n + 1) s ->
  exists s', scan_entry r (Named (item_name it)) s w = (Ok s', w) /\ with_room n s' /\ candidates s' = candidates s ++ [item_candidate it].
Proof.
  intros Hr Hit Hw Hd Hseen Hn (P1 & P2 & P3 & P4 & P5 & P6). pose proof (for_me_item r it Hr Hseen) as Hme. destruct Hr as [R1 R2 R3 R4].
  destruct (Hit) as [[? ?] Hparse Hsize _ _]. pose proof (zlen_nonneg (it_json it)).
  unfold MAX_QUEUE_SCAN_ENTRIES, MAX_QUEUE_SCAN_BYTES, MAX_FILE_ADAPTER_BYTES, CANDIDATE_COST, MAX_QUEUE_CANDIDATE_MEMORY in *.
  unfold scan_entry, account_scan_entry, saturating_add, usize_max, u64_max, MAX_QUEUE_SCAN_ENTRIES. rewrite Z.min_r by lia.
  rewrite (proj2 (Z.ltb_ge _ _)) by lia. cbn [sbind]. cbv zeta. change ([], item_name it) with (item_path it).
  rewrite (on_fs_same _ w (Ok ())) by (rewrite Hw; apply ensure_quiet; by rewrite Hd). cbn [sbind].
  rewrite (on_fs_same _ w (Some (Regular (it_json it)))) by (rewrite Hw; unfold symlink_metadata, next_change; cbn [changes fs_of dir]; by rewrite Hd).
  assert (extension (item_name it) = "json") as -> by (apply envelope_file_extension; lia). rewrite bool_decide_eq_true_2 by done. cbn [negb].
  rewrite R4, (proj2 (Z.ltb_ge _ _)) by done. unfold scan_file, account_scan_bytes, saturating_add, u64_max, MAX_QUEUE_SCAN_BYTES.
  cbn [scanned_bytes scanned candidate_memory candidates]. rewrite Z.min_r by lia. rewrite (proj2 (Z.ltb_ge _ _)) by lia. cbn [sbind].
  rewrite (on_fs_same _ w (inr (it_json it))).
  2: { rewrite Hw, R4. unfold read_file_bytes, next_change. cbn [changes fs_of dir]. rewrite Hd. by rewrite (proj2 (Z.ltb_ge _ _)). }
  rewrite Hparse, Hme. cbn [negb item_envelope session_id from_node to_node created_at_unix_ms sequence].
  destruct (candidate_memory_ok (candidate_memory s) it (inbound_queue_dir r) Hit) as (m' & -> & Hm').
  { unfold inbound_queue_dir. by rewrite R1, R2, R3, (session_id_comm to from). }
  { lia. } { unfold CANDIDATE_COST, MAX_QUEUE_CANDIDATE_MEMORY. lia. }
  unfold CANDIDATE_COST in *. eexists. split; [reflexivity|]. split; [|done]. unfold with_room. cbn [scanned scanned_bytes candidate_memory].
  unfold MAX_QUEUE_SCAN_ENTRIES, MAX_QUEUE_SCAN_BYTES, MAX_FILE_ADAPTER_BYTES, CANDIDATE_COST, MAX_QUEUE_CANDIDATE_MEMORY. lia.
Qed.

Lemma scan_items r l s n w d c pid : reads_from r -> fs w = fs_of d c pid -> 0 <= n -> with_room (n + zlen l) s ->
  Forall (fun it => item_ok it /\ d !! item_path it = Some (Regular (it_json it)) /\ (it_time it, it_number it) ∉ seen_frames r) l ->
  exists s', scan_entries r (map Named (map item_name l)) s w = (Ok s', w) /\ candidates s' = candidates s ++ map item_candidate l.
Proof.
  intros Hr Hw Hn Hroom Hl. revert s Hroom. induction Hl as [|it l (P1 & P2 & P3) Hl IH]; intros s Hroom.
  - exists s. by rewrite app_nil_r.
  - rewrite zlen_cons in Hroom. cbn [map scan_entries].
    destruct (scan_item r it s (n + zlen l) w d c pid Hr P1 Hw P2 P3) as (s1 & -> & Hr1 & Ec); [zl|by replace (n + zlen l + 1) with (n + (1 + zlen l)) by lia|].
    cbn [sbind]. destruct (IH s1 Hr1) as (s2 & -> & Ec2). exists s2. split; [done|]. by rewrite Ec2, Ec, <- app_assoc.
Qed.

(** The candidates of a queue, sorted, are in the order of the queue. *)
Lemma sorted_items q l base : Forall item_ok q -> numbered base q -> l ≡ₚ q ->
  sort_by cmp_candidates (map item_candidate l) = map item_candidate q.
Proof.
  intros Hq Hn Hl. assert (CmpLaws cmp_candidates) by apply _. apply (sort_by_unique cmp_candidates); [|by rewrite Hl|].
  - intros x y (a & -> & Ha)%list_elem_of_fmap (b & -> & Hb)%list_elem_of_fmap. unfold cmp_candidates, cmp_then, cmp_by, then_with.
    cbn [item_candidate c_created_at c_sequence]. destruct (Z.compare_spec (it_time a) (it_time b)) as [Et| |]; [|done..].
    intros En%Z.compare_eq. unfold item_candidate, item_path, item_name. by rewrite Et, En.
  - clear Hl. revert base Hn. induction Hq as [|it q _ Hq IH]; intros base; [constructor|]. intros (E & Ht & Hn).
    cbn [map]. constructor; [by eapply IH|]. apply Forall_map. apply numbered_above in Hn. rewrite Forall_forall in Ht, Hn |- *.
    intros x Hx. specialize (Ht _ Hx). specialize (Hn _ Hx). unfold cmp_candidates, cmp_then, cmp_by, then_with.
    cbn [item_candidate c_created_at c_sequence]. destruct (Z.compare_spec (it_time it) (it_time x)); [|done|lia].
    rewrite Z.compare_gt_iff. lia.
Qed.

(** ** Lemmas: receiving from such a queue *)

Definition same_clocks (w w' : World) : Prop := clock w' = clock w /\ unix_clock w' = unix_clock w /\ Forall honest (listings w').

Lemma claim_item r it q w c pid base : reads_from r -> Forall item_ok (it :: q) -> numbered base (it :: q) ->
  fs w = fs_of (files (it :: q)) c pid -> (it_time it, it_number it) ∉ seen_frames r ->
  exists claim c', on_fs (claim_file (inbound_queue_dir r) (item_path it)) w =
      (Ok (Some claim), set_fs (fs_of (<[claimed_path claim := Regular (it_json it)]> (files q)) c' pid) w) /\
    files q !! claimed_path claim = None /\
    forall w', fs w' = fs_of (<[claimed_path claim := Regular (it_json it)]> (files q)) c' pid ->
      open_claimed r (item_candidate it) claim w' = (Ok (Some (mkFrame (frame_of it) claim (it_time it) (it_number it))), w').
Proof.
  intros Hr Hq Hn Hw Hseen. pose proof (numbered_nodup _ _ Hq Hn) as Hd. apply Forall_cons in Hq as [Hit Hq].
  assert (files (it :: q) !! item_path it = Some (Regular (it_json it))) as Hl by (apply files_lookup; [done|left]).
  destruct (claim_quiet (inbound_queue_dir r) (files (it :: q)) c pid (item_path it) (it_json it) Hl) as (p & c' & Ec & Hp & Hnone).
  { intros n a. apply (files_dotted (it :: q)). by constructor. }
  apply NoDup_cons in Hd as [Hnin Hd]. rewrite files_tail in Ec by done. exists (mkClaimedFile (item_path it) p), c'. cbn [claimed_path].
  split_and!.
  - unfold on_fs. by rewrite Hw, Ec.
  - change (files (it :: q)) with (<[item_path it := Regular (it_json it)]> (files q)) in Hnone.
    by apply lookup_insert_None in Hnone as [? _].
  - intros w' Hw'. unfold open_claimed. cbn [claimed_path]. rewrite (on_fs_same _ w' (inr (it_json it))).
    2: { rewrite Hw'. unfold read_file_bytes, next_change. cbn [changes fs_of dir]. rewrite lookup_insert_eq, (rf_bound _ Hr).
         by rewrite (proj2 (Z.ltb_ge _ _)) by (by apply item_size). }
    rewrite (item_parses _ Hit), for_me_item by done.
    cbn [item_envelope item_candidate c_created_at c_sequence created_at_unix_ms sequence ciphertext_b64]. rewrite !Z.eqb_refl. cbn [andb negb].
    rewrite b64_roundtrip; [done|]. apply bytes_ok_app. split; [apply nonce12_ok|by apply item_bytes].
Qed.

Lemma poll_items r it q w c pid base : reads_from r -> Forall item_ok (it :: q) -> numbered base (it :: q) -> zlen (it :: q) <= 32 ->
  fs w = fs_of (files (it :: q)) c pid -> Forall honest (listings w) -> (forall k, k ∈ seen_frames r -> k.2 < base) ->
  exists claim c' w', poll_inbound r w = (Ok (Some (mkFrame (frame_of it) claim (it_time it) (it_number it))), w') /\
    files q !! claimed_path claim = None /\ fs w' = fs_of (<[claimed_path claim := Regular (it_json it)]> (files q)) c' pid /\ same_clocks w w'.
Proof.
  intros Hr Hq Hn Hlen Hw Hl Hseen. pose proof (numbered_nodup _ _ Hq Hn) as Hd. unfold poll_inbound.
  destruct (read_dir_files w (it :: q)) as (l & w1 & -> & Hperm & Hf1 & Hc1 & Hu1 & Hl1); [by rewrite Hw|done|done|].
  assert (forall x, x ∈ it :: q -> (it_time x, it_number x) ∉ seen_frames r) as Hunseen.
  { intros x Hx Hin%Hseen. cbn in Hin. apply numbered_above in Hn. rewrite Forall_forall in Hn. specialize (Hn _ Hx). lia. }
  destruct (scan_items r l (mkScan 0 0 0 []) 0 w1 (files (it :: q)) c pid Hr) as (s & -> & Es); [by rewrite Hf1|done| | |].
  - assert (zlen l = zlen (it :: q)) as -> by (unfold zlen; by rewrite Hperm). unfold with_room. cbn [scanned scanned_bytes candidate_memory].
    unfold MAX_QUEUE_SCAN_ENTRIES, MAX_QUEUE_SCAN_BYTES, MAX_FILE_ADAPTER_BYTES, CANDIDATE_COST, MAX_QUEUE_CANDIDATE_MEMORY. lia.
  - apply Forall_forall. intros x Hx. rewrite Hperm in Hx. split_and!; [|by apply files_lookup|by apply Hunseen].
    rewrite Forall_forall in Hq. by apply Hq.
  - cbn [sbind]. rewrite Es. cbn [candidates app]. rewrite (sorted_items (it :: q) l base) by done. cbn [map first_frame item_candidate c_path].
    destruct (claim_item r it q w1 c pid base Hr Hq Hn) as (claim & c' & -> & Hnone & Hopen); [by rewrite Hf1|by apply Hunseen; left|].
    cbn [sbind]. change (mkCandidate (item_path it) (it_time it) (it_number it)) with (item_candidate it).
    rewrite Hopen by done. cbn [sbind]. eexists claim, c', _. split; [reflexivity|]. split_and!; [done|done|]. by split.
Qed.

Lemma poll_nothing r w c pid : fs w = fs_of ∅ c pid -> Forall honest (listings w) ->
  exists w', poll_inbound r w = (Ok None, w') /\ fs w' = fs w /\ same_clocks w w'.
Proof.
  intros Hw Hl. unfold poll_inbound. destruct (read_dir_files w []) as (l & w1 & -> & Hperm & Hf1 & Hc1 & Hu1 & Hl1);
    [by rewrite Hw|constructor|done|].
  apply Permutation_nil_r in Hperm as ->. exists w1. cbn. by split_and!.
Qed.

Lemma mark_seen_reads t n r : reads_from r -> reads_from (mark_seen t n r).
Proof. intros [? ? ? ?]. unfold mark_seen. destruct (remember _ _ _ _) as [o f]. by constructor. Qed.

Lemma recv_items r it q w c pid base last t0 t1 t2 ts : zlen key = 32 -> reads_from r ->
  Forall item_ok (it :: q) -> numbered base (it :: q) -> zlen (it :: q) <= 32 -> 0 <= base <= u64_max ->
  fs w = fs_of (files (it :: q)) c pid -> Forall honest (listings w) -> (forall k, k ∈ seen_frames r -> k.2 < base) ->
  (forall l, last = Some l -> l < base) -> clock w = t0 :: t1 :: t2 :: ts ->
  exists c' w', recv_frame (w, (r, mkReceiveCipher key (Strict last))) =
      (Some (Ok (it_plain it)), (w', (mark_seen (it_time it) base r, mkReceiveCipher key (Strict (Some base))))) /\
    fs w' = fs_of (files q) c' pid /\ Forall honest (listings w').
Proof.
  intros Hk Hr Hq Hn Hlen Hb Hw Hl Hseen Hlast Hclock. destruct w as [f ls cl u]. cbn [fs listings clock] in *. subst f cl.
  assert (it_number it = base) as En by apply Hn. pose proof (Forall_inv Hq) as Hit.
  unfold recv_frame, receive_decrypted_frame, io_bind, now_beside, instant_now. cbn [clock fs listings unix_clock length decrypt_until].
  unfold io_bind, now_beside, beside_cipher, instant_now. cbn [clock fs listings unix_clock source_receive mesh_source].
  unfold receive_raw_payload, io_bind, instant_now.
  cbn [clock fs listings unix_clock length poll_until]. unfold io_bind, io_of.
  set (w := mkWorld _ ls ts u).
  destruct (poll_items r it q w c pid base Hr Hq Hn Hlen) as (claim & c' & w' & -> & Hnone & Hf & _ & _ & Hl'); [done|done|done|].
  cbn [io_ret source_payload source_commit mesh_source payload]. unfold io_ret. unfold frame_of. rewrite En.
  destruct Hit as [_ _ _ Hseal _]. rewrite En in Hseal. rewrite (decrypt_strict_next key last base (it_plain it)) by done.
  cbn [commit_frame claimed f_created_at f_sequence]. eexists _, _. split; [reflexivity|].
  cbn [change_fs set_fs fs listings]. unfold change_fs. cbn [set_fs fs listings].
  split; [|done]. rewrite Hf, (remove_quiet _ _ _ _ (it_json it)) by apply lookup_insert_eq.
  by rewrite delete_insert_id.
Qed.

(** With nothing in the queue a call returns no frame, whatever the clock. *)
Lemma poll_until_nothing fuel deadline r w c pid : fs w = fs_of ∅ c pid -> Forall honest (listings w) ->
  exists v w', poll_until fuel deadline r w = (v, w') /\ (v = None \/ v = Some (Err Timeout)) /\ fs w' = fs w /\ Forall honest (listings w').
Proof.
  revert w. induction fuel as [|fuel IH]; intros w Hw Hl; cbn [poll_until]; [by exists None, w; auto|].
  unfold io_bind, io_of. destruct (poll_nothing r w c pid Hw Hl) as (w1 & -> & Hf & _ & _ & Hl1). unfold instant_now.
  destruct w1 as [f1 ls1 [|t ts] u1]; cbn [clock fs listings unix_clock] in *; [by eexists _, _; split_and!; [reflexivity|left|..]|].
  case_if; [by eexists _, _; split_and!; [reflexivity|right|..]|].
  destruct (IH (mkWorld f1 ls1 ts u1)) as (v & w' & -> & Hv & Hf' & Hl'); [by cbn; congruence|done|].
  exists v, w'. split_and!; [done|done| |done]. by rewrite Hf'.
Qed.

Lemma recv_nothing r w c pid rc : fs w = fs_of ∅ c pid -> Forall honest (listings w) ->
  exists v w', recv_frame (w, (r, rc)) = (v, (w', (r, rc))) /\ (v = None \/ v = Some (Err Timeout)) /\ fs w' = fs w /\ Forall honest (listings w').
Proof.
  intros Hw Hl. destruct w as [f ls cl u]. cbn [fs listings] in *.
  unfold recv_frame, receive_decrypted_frame, io_bind, now_beside, instant_now. cbn [clock fs listings unix_clock].
  destruct cl as [|t0 cl]; [by eexists _, _; split_and!; [reflexivity|left|..]|]. cbn [length clock decrypt_until].
  unfold io_bind, now_beside, beside_cipher, instant_now. cbn [clock fs listings unix_clock].
  destruct cl as [|t1 cl]; [by eexists _, _; split_and!; [reflexivity|left|..]|]. cbn [length source_receive mesh_source].
  unfold receive_raw_payload, io_bind, instant_now. cbn [clock fs listings unix_clock].
  destruct cl as [|t2 cl]; [by eexists _, _; split_and!; [reflexivity|left|..]|]. cbn [clock].
  destruct (poll_until_nothing (S (length cl)) (t2 + saturating_sub (t0 + poll_interval r) t1) r (mkWorld f ls cl u) c pid Hw Hl)
    as (v & w' & -> & Hv & Hf & Hl').
  destruct Hv as [->| ->]; eexists _, w'; (split_and!; [reflexivity|auto|done|done]).
Qed.

(** ** Lemmas: sending to such a queue *)

Context (Ufrom : utf8_valid (str_bytes from) = true) (Uto : utf8_valid (str_bytes to) = true).

Definition capacity : Z := offline_mesh_payload_capacity MAX_FILE_ADAPTER_BYTES from to.

Lemma envelope_json t n ct : 0 <= t <= u64_max -> 0 <= n <= u64_max -> Forall (fun b => 0 <= b < 128) (str_bytes ct) ->
  envelope_ok (mkOfflineMeshEnvelope (offline_session_id from to) from to t n ct).
Proof.
  intros Ht Hn Hct. assert (forall s, Forall (fun b => 0 <= b < 128) (str_bytes s) -> utf8_valid (str_bytes s) = true) as Ha.
  { intros s Hs. apply utf8_ascii. eapply Forall_impl; [exact Hs|]. cbn. lia. }
  split; [|done]. cbn [session_id from_node to_node ciphertext_b64].
  repeat (apply Forall_cons; split); [apply Ha, session_id_ascii|done|done|by apply Ha|by apply Forall_nil].
Qed.

(** The JSON of a frame within the capacity fits in a file. *)
Lemma envelope_fits t n frame : 0 <= t <= u64_max -> 0 <= n <= u64_max -> bytes_ok frame ->
  0 < capacity -> zlen frame <= capacity + SHROUD_AEAD_OVERHEAD ->
  let e := mkOfflineMeshEnvelope (offline_session_id from to) from to t n (b64_encode frame) in
  exists json, mesh_to_json e = Ok json /\ mesh_of_json json = Some e /\ zlen json <= MAX_FILE_ADAPTER_BYTES.
Proof.
  intros Ht Hn Hf Hc Hlen e.
  assert (Forall (fun c => 32 < c < 127) (str_bytes (b64_encode frame))) as Htext by (by apply b64_text).
  destruct (mesh_json_round_trip e) as (json & Ej & Ep). { apply envelope_json; [done|done|]. eapply Forall_impl; [exact Htext|]. cbn. lia. }
  destruct (mesh_json_round_trip (mkOfflineMeshEnvelope (offline_session_id from to) from to u64_max u64_max "")) as (json' & Ej' & _).
  { apply envelope_json; [unfold u64_max; lia..|]. by apply Forall_nil. }
  exists json. split_and!; [done|done|].
  pose proof (mesh_json_size e json json') as Hsize. cbn [session_id from_node to_node ciphertext_b64 e] in Hsize.
  specialize (Hsize ltac:(apply envelope_json; [done|done|]; eapply Forall_impl; [exact Htext|cbn; lia])).
  specialize (Hsize ltac:(apply Forall_and; split; [exact Htext|by apply b64_plain]) Ej Ej').
  unfold str_len in Hsize. rewrite b64_size in Hsize by done.
  revert Hlen Hc. unfold capacity, offline_mesh_payload_capacity. rewrite Ej'. intros Hlen Hc. pose proof (zlen_nonneg json').
  destruct (Z.leb_spec (zlen json') MAX_FILE_ADAPTER_BYTES) as [Hfix|Hfix].
  - destruct (capacity_exact MAX_FILE_ADAPTER_BYTES (zlen json')) as (_ & Hcap & _); [by unfold MAX_FILE_ADAPTER_BYTES; lia|lia|].
    set (n' := max_plaintext_for_file_adapter _ _) in *. clearbody n'. destruct Hcap as [?|Hcap]; [lia|].
    revert Hcap. unfold SHROUD_AEAD_OVERHEAD in *. pose proof (zlen_nonneg frame). Z.div_mod_to_equations; lia.
  - unfold max_plaintext_for_file_adapter in Hc. by rewrite (proj2 (Z.ltb_lt _ _)) in Hc.
Qed.

Record writes_to (s : OfflineMeshWriteState) : Prop := {
  wt_spool : w_spool_dir s = spool; wt_local : w_local_node s = from; wt_peer : w_peer_node s = to;
  wt_bound : w_max_file_bytes s = MAX_FILE_ADAPTER_BYTES; wt_capacity : max_payload_bytes s = capacity }.

Lemma send_item s w q c pid base n now p : zlen key = 32 -> writes_to s -> next_sequence s = n ->
  Forall item_ok q -> numbered base q -> base + zlen q = n -> 0 <= n < AEAD_NONCE_LIMIT ->
  0 <= now <= u64_max -> Forall (fun it => it_time it <= now) q ->
  bytes_ok p -> 0 < capacity -> zlen p <= capacity -> capacity <= MAX_FILE_ADAPTER_BYTES ->
  fs w = fs_of (files q) c pid -> unix_clock w = [Some now] ->
  exists s' it c' w', send_frame p (s, mkSendCipher key n, w) = (Ok (), (s', mkSendCipher key (n + 1), w')) /\
    writes_to s' /\ next_sequence s' = n + 1 /\ item_ok it /\ it_number it = n /\ it_time it = now /\ it_plain it = p /\
    fs w' = fs_of (files (q ++ [it])) c' pid /\ listings w' = listings w.
Proof.
  intros Hk [W1 W2 W3 W4 W5] Hseq Hq Hn Hbase Hlim Hnow Ht Hp Hc Hlen Hcap Hw Hu.
  assert (0 <= n <= u64_max) as Hn64 by (unfold AEAD_NONCE_LIMIT, u64_max in *; lia).
  destruct (encrypt_ok p (mkSendCipher key n) Hk ltac:(cbn; lia)) as (ct & Hct & Eenc); [unfold MAX_FILE_ADAPTER_BYTES in *; lia|].
  cbn [sc_key sc_nonce] in Hct, Eenc.
  assert (bytes_ok ct) as Hctb by (by eapply aead_seal_bytes).
  assert (zlen ct = zlen p + 16) as Hctl by (by apply aead_seal_len in Hct).
  destruct (envelope_fits now n (nonce12 n ++ ct)) as (json & Ej & Ep & Hjson); [done|done| |done| |].
  { apply bytes_ok_app. split; [apply nonce12_ok|done]. }
  { rewrite zlen_app, zlen_nonce12. unfold SHROUD_AEAD_OVERHEAD. lia. }
  set (it := mkItem now n p ct json).
  assert (item_ok it) as Hit by (by constructor).
  assert (numbered base (q ++ [it])) as Hn' by (apply numbered_snoc; [done|cbn; lia|done]).
  assert (item_path it ∉ map item_path q) as Hnin.
  { pose proof (numbered_nodup base (q ++ [it])) as Hd. rewrite map_app in Hd. cbn [map] in Hd.
    specialize (Hd ltac:(by rewrite Forall_app, Forall_singleton) Hn'). apply NoDup_app in Hd as (_ & Hd & _). intros Hin. apply (Hd _ Hin). left. }
  destruct (write_quiet (out_dir (mkWriteState (w_spool_dir s) (w_local_node s) (w_peer_node s) (saturating_add u64_max (next_sequence s) 1)
    (w_max_file_bytes s) (max_payload_bytes s))) (files q) c pid (item_path it) json) as (c' & Ew).
  { left. by apply files_none. }
  { intros m. by apply files_dotted. }
  { intros m [= E]. by apply (dotted_not_envelope _ now n ltac:(lia)) in E. }
  unfold send_frame, validate_file_adapter_payload. rewrite W5, (proj2 (Z.ltb_ge _ _)) by done. cbn [sbind]. rewrite Eenc.
  unfold send_payload, now_unix_ms. rewrite Hu. cbn [ok_or]. rewrite W2, W3, Hseq, Ej. cbn [w_max_file_bytes]. rewrite W4, (proj2 (Z.ltb_ge _ _)) by done.
  cbn [sequence fs]. change ([], envelope_file now n) with (item_path it). rewrite W2, W3, W4, W5, Hseq in Ew. rewrite W5, Hw, Ew.
  eexists _, it, c', _. split; [reflexivity|]. unfold saturating_add, u64_max in *. unfold AEAD_NONCE_LIMIT in *.
  split_and!; try done; [cbn; lia|]. cbn [set_fs fs]. by rewrite files_snoc.
Qed.
End Queue.

(** ** Two nodes and the queue from one to the other *)

Record MeshSystem := mkSystem {
  ms_writer : OfflineMeshWriteState; ms_send : SendCipher;
  ms_reader : OfflineMeshReadState; ms_recv : ReceiveCipher; ms_world : World }.

(** A call at the sender, at a time of its wall clock; a call at the receiver,
    with what its monotonic clock reads during the call. *)
Inductive MeshEvent := Send (now : Z) (p : bytes) | Recv (readings : list Z).
Inductive MeshAnswer := Sent (r : result unit) | Received (r : option (result bytes)).

Section System.
Context `{HashOps, KexOps, MeshJson, AeadOps}.

Definition mesh_step (e : MeshEvent) (x : MeshSystem) : MeshAnswer * MeshSystem :=
  let w := ms_world x in
  match e with
  | Send now p =>
      let '(r, (s, c, w)) := send_frame p (ms_writer x, ms_send x, mkWorld (fs w) (listings w) (clock w) [Some now]) in
      (Sent r, mkSystem s c (ms_reader x) (ms_recv x) w)
  | Recv readings =>
      let '(v, (w, (r, c))) := recv_frame (mkWorld (fs w) (listings w) readings (unix_clock w), (ms_reader x, ms_recv x)) in
      (Received v, mkSystem (ms_writer x) (ms_send x) r c w)
  end.

Fixpoint mesh_run (es : list MeshEvent) (x : MeshSystem) : list MeshAnswer :=
  match es with [] => [] | e :: es => let '(a, x) := mesh_step e x in a :: mesh_run es x end.

(** An empty queue between two sessions that share a key. *)
Definition mesh_start (sender receiver : OfflineMeshConfig) (key : bytes) (ls : list (Dir -> list string -> Listing)) (counter pid : Z) : MeshSystem :=
  mkSystem (OfflineMeshWriteState_new sender (node_id sender) (peer_id sender)) (SendCipher_new key)
    (OfflineMeshReadState_new receiver (node_id receiver) (peer_id receiver)) (ReceiveCipher_new key)
    (mkWorld (mkFs ∅ [] counter pid) ls [] []).
End System.

(** What a queue of plaintexts answers: a call finds the oldest one, or, on an
    empty queue, times out or still waits. *)
Inductive fifo : list bytes -> list MeshEvent -> list MeshAnswer -> Prop :=
  | fifo_end q : fifo q [] []
  | fifo_send q now p es answers : fifo (q ++ [p]) es answers -> fifo q (Send now p :: es) (Sent (Ok ()) :: answers)
  | fifo_recv q p readings es answers : fifo q es answers -> fifo (p :: q) (Recv readings :: es) (Received (Some (Ok p)) :: answers)
  | fifo_nothing readings v es answers : v = None \/ v = Some (Err Timeout) -> fifo [] es answers ->
      fifo [] (Recv readings :: es) (Received v :: answers).

(** A sender's clock that does not go back, payloads within the capacity, at
    most 32 frames waiting, and calls that read the clock three times. *)
Fixpoint schedule_ok (capacity last pending sent : Z) (es : list MeshEvent) : Prop :=
  match es with
  | [] => True
  | Send now p :: es =>
      last <= now <= u64_max /\ pending < 32 /\ sent < AEAD_NONCE_LIMIT /\ bytes_ok p /\ zlen p <= capacity /\
      schedule_ok capacity now (pending + 1) (sent + 1) es
  | Recv readings :: es => 3 <= zlen readings /\ schedule_ok capacity last (Z.max 0 (pending - 1)) sent es
  end.

Section Fifo.
Context `{HashLaws, KexLaws, MeshJsonLaws, AeadLaws}.
Context (key : bytes) (spool from to : string) (Hkey : zlen key = 32).
Context (Hfrom : str_len from <= 1024) (Hto : str_len to <= 1024)
  (Hdir : str_len (queue_dir spool (offline_session_id from to) from to) <= 65536)
  (Ufrom : utf8_valid (str_bytes from) = true) (Uto : utf8_valid (str_bytes to) = true)
  (Hcap : 0 < capacity from to <= MAX_FILE_ADAPTER_BYTES).

Record mesh_inv (x : MeshSystem) (q : list Item) (base last : Z) : Prop := {
  mi_files : exists c pid, fs (ms_world x) = fs_of (files q) c pid;
  mi_honest : Forall honest (listings (ms_world x));
  mi_items : Forall (item_ok key from to) q;
  mi_numbered : numbered base q;
  mi_times : Forall (fun it => it_time it <= last) q;
  mi_base : 0 <= base;
  mi_writer : writes_to spool from to (ms_writer x) /\ next_sequence (ms_writer x) = base + zlen q;
  mi_send : ms_send x = mkSendCipher key (base + zlen q) /\ base + zlen q <= AEAD_NONCE_LIMIT;
  mi_reader : reads_from spool from to (ms_reader x) /\ (forall k, k ∈ seen_frames (ms_reader x) -> k.2 < base);
  mi_recv : exists before, ms_recv x = mkReceiveCipher key (Strict before) /\ (forall l, before = Some l -> l < base) }.

Lemma mesh_send_step x q base last now p : mesh_inv x q base last -> 0 <= last <= now -> now <= u64_max ->
  base + zlen q < AEAD_NONCE_LIMIT -> bytes_ok p -> zlen p <= capacity from to ->
  exists x' it, mesh_step (Send now p) x = (Sent (Ok ()), x') /\ mesh_inv x' (q ++ [it]) base now /\ it_plain it = p.
Proof.
  intros [(c & pid & Hf) Hl Hq Hn Ht Hb (Hw & Hs) (Hc & _) (Hr & Hseen) Hrc] Hnow Hmax Hlim Hp Hlen. cbn [mesh_step]. rewrite Hc.
  destruct (send_item key spool from to Ufrom Uto (ms_writer x) (mkWorld (fs (ms_world x)) (listings (ms_world x)) (clock (ms_world x)) [Some now])
    q c pid base (base + zlen q) now p) as (s' & it & c' & w' & E & Hw' & Hs' & Hit & En & Et & Ep & Hf' & Hl'); try done; try lia.
  { pose proof (zlen_nonneg q). lia. }
  { eapply Forall_impl; [exact Ht|]. cbn. lia. }
  rewrite E. eexists _, it. split; [reflexivity|]. split; [|done]. assert (zlen (q ++ [it]) = zlen q + 1) as Eq by zl.
  constructor; cbn [ms_writer ms_send ms_reader ms_recv ms_world]; rewrite ?Eq, ?Z.add_assoc; try done.
  - by exists c', pid.
  - by rewrite Hl'.
  - by rewrite Forall_app, Forall_singleton.
  - apply numbered_snoc; [done|done|]. rewrite Et. eapply Forall_impl; [exact Ht|]. cbn. lia.
  - rewrite Forall_app, Forall_singleton. split; [|lia]. eapply Forall_impl; [exact Ht|]. cbn. lia.
  - split; [done|lia].
Qed.

Lemma mesh_recv_step x it q base last readings : mesh_inv x (it :: q) base last -> 3 <= zlen readings -> zlen (it :: q) <= 32 ->
  exists x', mesh_step (Recv readings) x = (Received (Some (Ok (it_plain it))), x') /\ mesh_inv x' q (base + 1) last.
Proof.
  intros [(c & pid & Hf) Hl Hq Hn Ht Hb (Hw & Hs) (Hc & Hlim) (Hr & Hseen) (before & Hrc & Hlast)] Hrd Hlen. cbn [mesh_step]. rewrite Hrc.
  destruct readings as [|t0 [|t1 [|t2 ts]]]; [rewrite ?zlen_cons, ?zlen_nil in Hrd; lia..|].
  pose proof (zlen_nonneg q) as Hq0. rewrite zlen_cons in Hs, Hc, Hlim.
  destruct (recv_items key spool from to Hfrom Hto Hdir (ms_reader x) it q (mkWorld (fs (ms_world x)) (listings (ms_world x)) (t0 :: t1 :: t2 :: ts) (unix_clock (ms_world x)))
    c pid base before t0 t1 t2 ts) as (c' & w' & E & Hf' & Hl'); try done.
  { unfold AEAD_NONCE_LIMIT, u64_max in *. lia. }
  rewrite E. eexists. split; [reflexivity|]. apply Forall_cons in Hq as [Hit Hq]. apply Forall_cons in Ht as [_ Ht]. destruct Hn as (_ & _ & Hn).
  constructor; cbn [ms_writer ms_send ms_reader ms_recv ms_world]; try done.
  - by exists c', pid.
  - lia.
  - split; [done|lia].
  - replace (base + 1 + zlen q) with (base + (1 + zlen q)) by lia. done.
  - split; [by apply mark_seen_reads|intros k; by apply mark_seen_below].
  - exists (Some base). split; [done|]. intros l [= <-]. lia.
Qed.

Lemma mesh_nothing_step x base last readings : mesh_inv x [] base last ->
  exists v x', mesh_step (Recv readings) x = (Received v, x') /\ (v = None \/ v = Some (Err Timeout)) /\ mesh_inv x' [] base last.
Proof.
  intros [(c & pid & Hf) Hl Hq Hn Ht Hb Hw Hc Hr Hrc]. cbn [mesh_step].
  destruct (recv_nothing (ms_reader x) (mkWorld (fs (ms_world x)) (listings (ms_world x)) readings (unix_clock (ms_world x))) c pid (ms_recv x) Hf Hl)
    as (v & w' & E & Hv & Hf' & Hl').
  rewrite E. eexists v, _. split; [reflexivity|]. split; [done|]. constructor; cbn [ms_writer ms_send ms_reader ms_recv ms_world]; try done.
  exists c, pid. by rewrite Hf'.
Qed.

Lemma mesh_run_fifo es x q base last : mesh_inv x q base last -> 0 <= last ->
  schedule_ok (capacity from to) last (zlen q) (base + zlen q) es -> zlen q <= 32 -> fifo (map it_plain q) es (mesh_run es x).
Proof.
  revert x q base last. induction es as [|[now p|readings] es IH]; intros x q base last Hx Hlast; cbn [schedule_ok mesh_run].
  - intros _ _. constructor.
  - intros (Hnow & Hpend & Hsent & Hp & Hlen & Hes) Hq.
    destruct (mesh_send_step x q base last now p) as (x' & it & -> & Hx' & <-); [done|lia|lia|done|done|done|].
    constructor. change [it_plain it] with (map it_plain [it]). rewrite <- map_app. assert (zlen (q ++ [it]) = zlen q + 1) as Eq by zl.
    apply (IH _ _ base now); [done|lia|by rewrite Eq, Z.add_assoc|lia].
  - intros (Hrd & Hes) Hq. destruct q as [|it q].
    + destruct (mesh_nothing_step x base last readings Hx) as (v & x' & -> & Hv & Hx'). constructor; [done|]. by apply (IH _ [] base last).
    + destruct (mesh_recv_step x it q base last readings Hx Hrd Hq) as (x' & -> & Hx'). constructor. rewrite zlen_cons in *. pose proof (zlen_nonneg q).
      apply (IH _ _ (base + 1) last); [done|done| |lia]. by replace (Z.max 0 (1 + zlen q - 1)) with (zlen q) in Hes by lia; replace (base + 1 + zlen q) with (base + (1 + zlen q)) by lia.
Qed.
End Fifo.

(** ** Lemmas: a receiver whatever the spool holds *)

(** What has been seen is bounded, without duplicates, and the set is the list. *)
Definition reader_ok (r : OfflineMeshReadState) : Prop :=
  1 <= max_seen r <= 65536 /\ seen_ok (max_seen r) (seen_order r) (seen_frames r).

Lemma mark_seen_ok t n r : reader_ok r -> reader_ok (mark_seen t n r).
Proof.
  intros [Hm Hs]. unfold mark_seen. rewrite Z.max_r by lia. pose proof (remember_ok (max_seen r) (t, n) (seen_order r) (seen_frames r) ltac:(lia) Hs) as Hr.
  by destruct (remember _ _ _ _) as [o f].
Qed.

Section Safety.
Context `{HashOps, KexLaws, MeshJson, AeadOps}.

Lemma scan_entry_no_panic r e s w : no_panic (scan_entry r e s w).1.
Proof.
  unfold scan_entry. apply sbind_no_panic; [apply (account_no_panic _ 0 0 "" [])|]. intros n w1. destruct e as [name|e]; [|done].
  apply sbind_no_panic; [apply on_fs_no_panic, ensure_no_panic|]. intros _ w2.
  destruct (on_fs (symlink_metadata ([], name)) w2) as [[[contents| | |]|] w3]; try done. case_if; [done|]. case_if; [done|].
  unfold scan_file. apply sbind_no_panic; [apply (account_no_panic 0 _ 0 "" [])|]. intros t w4.
  destruct (on_fs (read_file_bytes _ _) w4) as [[[]|data] w5]; try done. destruct (mesh_of_json data) as [env|]; [|done]. case_if; [done|].
  cbn [candidate_memory]. pose proof (proj2 (proj2 (account_no_panic 0 0 (candidate_memory s) (path_text (inbound_queue_dir r) ([], name))
    [session_id env; from_node env; to_node env]))) as Hp. by destruct (account_candidate_memory _ _ _) as [m|[]|].
Qed.

Lemma scan_entries_no_panic r es s w : no_panic (scan_entries r es s w).1.
Proof.
  revert s w. induction es as [|e es IH]; intros s w; cbn [scan_entries]; [done|]. apply sbind_no_panic; [apply scan_entry_no_panic|]. auto.
Qed.

(** A result without a panic whose frame, when there is one, holds bytes. *)
Definition frame_fine (v : result (option OfflineMeshFrame)) : Prop :=
  no_panic v /\ forall f, v = Ok (Some f) -> bytes_ok (payload f).

Lemma open_claimed_fine r c claim w : frame_fine (open_claimed r c claim w).1.
Proof.
  unfold open_claimed. destruct (on_fs (read_file_bytes _ _) w) as [[[]|data] w5]; try done. destruct (mesh_of_json data) as [env|]; [|done]. case_if; [done|].
  destruct (b64_decode _) as [p|] eqn:E; [|done]. split; [done|]. intros f [= <-]. by apply b64_decode_bytes in E.
Qed.

Lemma first_frame_fine r cs w : frame_fine (first_frame r cs w).1.
Proof.
  revert w. induction cs as [|c cs IH]; intros w; cbn [first_frame]; [done|].
  pose proof (on_fs_no_panic (claim_file (inbound_queue_dir r) (c_path c)) w (claim_no_panic _ _)) as Hc.
  destruct (on_fs _ w) as [[[claim|]|e|] w1]; cbn [sbind]; [|apply IH|done|done].
  destruct (open_claimed_fine r c claim w1) as [Hp Hf]. destruct (open_claimed r c claim w1) as [[[f|]|e|] w2]; cbn [sbind fst] in *; [|apply IH|done..].
  split; [done|]. intros f' [= <-]. by apply Hf.
Qed.

Lemma poll_inbound_fine r w : frame_fine (poll_inbound r w).1.
Proof.
  unfold poll_inbound. destruct (read_dir [] w) as [[| |es] w1]; [done..|].
  pose proof (scan_entries_no_panic r es (mkScan 0 0 0 []) w1) as Hs. destruct (scan_entries _ _ _ _) as [[s| |] w2]; cbn [sbind]; [apply first_frame_fine|done..].
Qed.

Lemma poll_until_fine fuel deadline r w :
  (poll_until fuel deadline r w).1 <> Some Panic /\ forall f, (poll_until fuel deadline r w).1 = Some (Ok f) -> bytes_ok (payload f).
Proof.
  revert w. induction fuel as [|fuel IH]; intros w; cbn [poll_until]; [done|]. unfold io_bind, io_of.
  destruct (poll_inbound_fine r w) as [Hp Hf]. destruct (poll_inbound r w) as [[[f|]|e|] w1]; cbn [fst] in *; [|..|done].
  - split; [done|]. intros f' [= <-]. by apply Hf.
  - unfold instant_now. destruct (clock w1); [done|]. case_if; [done|]. apply IH.
  - done.
Qed.

#[export] Instance mesh_source_laws : FrameSourceLaws OfflineMeshReadState OfflineMeshFrame reader_ok.
Proof.
  split.
  - intros timeout w r Hr. cbn [source_receive mesh_source]. unfold receive_raw_payload, io_bind, instant_now.
    destruct w as [f ls [|t cl] u]; cbn [clock fs listings unix_clock]; [done|]. set (w := mkWorld f ls cl u).
    destruct (poll_until_fine (S (length cl)) (t + timeout) r w) as [Hp Hf]. destruct (poll_until _ _ r w) as [v w1]. cbn [fst] in *. by split_and!.
  - intros f w r Hr. cbn [source_commit mesh_source commit_frame snd]. by apply mark_seen_ok.
Qed.
End Safety.

(** ** Theorems *)

(** C15: with a sender whose clock does not go back, and however the directory
    is listed, a spool directory is a queue: whatever the order of calls at the
    two nodes, each send succeeds, each receive returns the oldest frame that
    was not received yet, exactly as it was sent, and a receive on an empty
    directory times out or still waits. *)
Theorem mesh_refines_fifo `{HashLaws, KexLaws, MeshJsonLaws, AeadLaws} sender receiver key ls counter pid es :
  zlen key = 32 -> Forall honest ls ->
  spool_dir sender = spool_dir receiver -> node_id sender = peer_id receiver -> peer_id sender = node_id receiver ->
  Forall (fun s => str_len s <= 1024 /\ utf8_valid (str_bytes s) = true) [node_id sender; peer_id sender] ->
  str_len (queue_dir (spool_dir sender) (offline_session_id (node_id sender) (peer_id sender)) (node_id sender) (peer_id sender)) <= 65536 ->
  0 < capacity (node_id sender) (peer_id sender) ->
  schedule_ok (capacity (node_id sender) (peer_id sender)) 0 0 0 es ->
  fifo [] es (mesh_run es (mesh_start sender receiver key ls counter pid)).
Proof.
  intros Hk Hl Es En Ep Hn Hd Hc He. apply Forall_cons in Hn as [[L1 U1] Hn]. apply Forall_cons in Hn as [[L2 U2] _].
  set (from := node_id sender) in *. set (to := peer_id sender) in *.
  assert (capacity from to <= MAX_FILE_ADAPTER_BYTES) as Hcap.
  { unfold capacity, offline_mesh_payload_capacity in *. destruct (mesh_to_json _) as [json| |]; [|lia..].
    unfold max_plaintext_for_file_adapter in *. destruct (Z.ltb_spec MAX_FILE_ADAPTER_BYTES (zlen json)); [lia|]. pose proof (zlen_nonneg json).
    destruct (capacity_exact MAX_FILE_ADAPTER_BYTES (zlen json)) as ([_ Hcap] & _); [by unfold MAX_FILE_ADAPTER_BYTES; lia|lia|].
    unfold max_plaintext_for_file_adapter in Hcap. by rewrite (proj2 (Z.ltb_ge _ _)) in Hcap. }
  apply (mesh_run_fifo key (spool_dir sender) from to Hk L1 L2 Hd U1 U2 (conj Hc Hcap) es _ [] 0 0); [|done|done|done].
  constructor; cbn [mesh_start ms_writer ms_send ms_reader ms_recv ms_world fs listings]; try done.
  - by exists counter, pid.
  - by exists None.
Qed.

(** C16: a receiver is safe whatever the spool holds.  With any files, changed at
    any time by other processes, any answers of the directory and any clocks, no
    call panics, the plaintexts that are returned were sealed under the session
    key with strictly increasing counters, so that none is a replay, and what
    the receiver remembers stays within its bound. *)
Theorem mesh_receiver_safe `{HashOps, KexLaws, MeshJson, AeadOps} cfg local_node peer_node key ws : zlen key = 32 ->
  let r0 := OfflineMeshReadState_new cfg local_node peer_node in
  let '(vs, r) := recv_calls (poll_interval r0) ws r0 (ReceiveCipher_new key) in
  Forall (fun v => v <> Some Panic) vs /\
  (exists frames, Forall2 (fun p fn => opens_to key fn.1 fn.2 p) (delivered vs) frames /\ StronglySorted Z.lt (map snd frames)) /\
  seen_frames r = list_to_set (seen_order r) /\ zlen (seen_order r) <= 65536.
Proof.
  intros Hk r0. assert (reader_ok r0) as Hr0.
  { split; [cbn; unfold clamp; lia|]. split_and!; [done|constructor|]. cbn. unfold clamp, zlen. cbn. lia. }
  pose proof (recv_calls_ok key Hk (poll_interval r0) ws None r0 Hr0) as Hc. unfold ReceiveCipher_new. destruct (recv_calls _ ws r0 _) as [vs r].
  destruct Hc as (Hp & [Hm (R1 & R2 & R3)] & frames & F1 & F2 & _). split_and!; [done|by exists frames|done|lia].
Qed.

(** ** An executable instance of the JSON *)

Module ToyMeshJson.

(** A text after its length in unary. *)
Definition put_text (s : string) : bytes := zreplicate (str_len s) 1 ++ [0] ++ str_bytes s.

Fixpoint take_unary (l : bytes) : option (nat * bytes) :=
  match l with
  | [] => None
  | b :: l => if b =? 0 then Some (O, l) else match take_unary l with Some (n, r) => Some (S n, r) | None => None end
  end.

Definition take_text (l : bytes) : option (string * bytes) :=
  match take_unary l with Some (n, r) => Some (bytes_str (take n r), drop n r) | None => None end.

#[export] Instance mesh_json : MeshJson := {
  mesh_to_json e := Ok (put_text (session_id e) ++ put_text (from_node e) ++ put_text (to_node e) ++
    be_bytes 8 (created_at_unix_ms e) ++ be_bytes 8 (sequence e) ++ str_bytes (ciphertext_b64 e));
  mesh_of_json l :=
    match take_text l with
    | Some (session, l) =>
        match take_text l with
        | Some (from, l) =>
            match take_text l with
            | Some (to, l) => Some (mkOfflineMeshEnvelope session from to (be_val (ztake 8 l)) (be_val (ztake 8 (zdrop 8 l))) (bytes_str (zdrop 16 l)))
            | None => None
            end
        | None => None
        end
    | None => None
    end }.

Lemma take_unary_put n l : take_unary (replicate n 1 ++ [0] ++ l) = Some (n, l).
Proof. induction n as [|n IH]; [done|]. cbn [replicate app take_unary Z.eqb]. cbn [app] in IH. by rewrite IH. Qed.

Lemma take_put_text s l : take_text (put_text s ++ l) = Some (s, l).
Proof.
  unfold take_text, put_text, zreplicate, str_len, zlen. rewrite <- !app_assoc, Nat2Z.id, take_unary_put.
  rewrite take_app_length, drop_app_length. by rewrite bytes_str_bytes.
Qed.

#[export] Instance mesh_json_laws : MeshJsonLaws.
Proof.
  split; [| |].
  - intros e (_ & Ht & Hn). eexists. split; [reflexivity|]. cbn [mesh_of_json mesh_json]. rewrite !take_put_text.
    assert (forall x y l, zdrop 16 (be_bytes 8 x ++ be_bytes 8 y ++ l) = l) as ->.
    { intros x y l. rewrite app_assoc. apply zdrop_app. by rewrite zlen_app, !zlen_be_bytes. }
    rewrite ztake_app, zdrop_app, ztake_app by apply zlen_be_bytes.
    unfold u64_max in *. rewrite !be_val_be_bytes by (change (256 ^ Z.of_nat 8) with 18446744073709551616; lia). rewrite bytes_str_bytes. by destruct e.
  - done.
  - intros e json json' _ _ E E'.
    assert (forall a b : bytes, Ok a = Ok b -> a = b) as Hinj by (intros a b Eab; congruence).
    apply Hinj in E, E'. subst json json'. unfold str_len. rewrite !zlen_app, !zlen_be_bytes.
    cbn [session_id from_node to_node ciphertext_b64]. assert (zlen (str_bytes "") = 0) as -> by done. lia.
Qed.
End ToyMeshJson.

(** ** Witnesses *)

Module Witnesses.
Import Toy ToyMeshJson.

Definition alice : OfflineMeshConfig := mkOfflineMeshConfig "alice" "bob" "/var/spool/shph" 250 1024.
Definition bob : OfflineMeshConfig := mkOfflineMeshConfig "bob" "alice" "/var/spool/shph" 250 1024.
Definition session_key : bytes := zreplicate 32 7.

(** A directory listed backwards, once. *)
Definition backwards : Dir -> list string -> Listing := fun d at_dir => Entries (map Named (rev (names_in at_dir d))).

Definition events : list MeshEvent :=
  [Recv [0; 1; 2]; Send 10 [1; 2]; Send 10 []; Recv [0; 0; 0]; Send 12 [3]; Recv [5; 5; 5]; Recv [6; 6; 6; 6]; Recv [0; 0; 0; 250000000]].

Lemma mesh_refines_fifo_witness :
  fifo [] events (mesh_run events (mesh_start alice bob session_key [backwards; backwards] 0 1)) /\
  mesh_run events (mesh_start alice bob session_key [backwards; backwards] 0 1) =
  [Received None; Sent (Ok ()); Sent (Ok ()); Received (Some (Ok [1; 2])); Sent (Ok ()); Received (Some (Ok []));
   Received (Some (Ok [3])); Received (Some (Err Timeout))].
Proof.
  split; [|vm_compute; reflexivity].
  apply (mesh_refines_fifo alice bob session_key [backwards; backwards] 0 1 events eq_refl).
  - assert (honest backwards) by (intros d at_dir; eexists; split; [reflexivity|]; symmetry; apply Permutation_rev). repeat constructor; done.
  - exact eq_refl.
  - exact eq_refl.
  - exact eq_refl.
  - repeat constructor; by_compute.
  - by_compute.
  - by_compute.
  - vm_compute. repeat split; try done; repeat constructor; done.
Defined.

(** A frame written to the spool twice, under two names. *)
Definition replayed : World :=
  let x := (mesh_step (Send 10 [9]) (mesh_start alice bob session_key [] 0 1)).2 in
  let f := fs (ms_world x) in
  let copies := match dir f !! ([], envelope_file 10 0) with
                | Some n => <[([], "again.json") := n]> (dir f)
                | None => dir f
                end in
  mkWorld (mkFs copies [] 0 1) [] [0; 0; 0; 0] [].

Lemma mesh_receiver_safe_witness :
  let r0 := OfflineMeshReadState_new bob "bob" "alice" in
  let '(vs, r) := recv_calls (poll_interval r0) [replayed; replayed] r0 (ReceiveCipher_new session_key) in
  (Forall (fun v => v <> Some Panic) vs /\
   (exists frames, Forall2 (fun p fn => opens_to session_key fn.1 fn.2 p) (delivered vs) frames /\ StronglySorted Z.lt (map snd frames)) /\
   seen_frames r = list_to_set (seen_order r) /\ zlen (seen_order r) <= 65536).
Proof.
  assert (zlen session_key = 32) as Hk by (vm_compute; reflexivity).
  pose proof (mesh_receiver_safe bob "bob" "alice" session_key [replayed; replayed] Hk) as Hs.
  cbv zeta in *. set (calls := recv_calls _ _ _ _) in *. clearbody calls. exact Hs.
Defined.

(** The frames of a sender whose clock steps back are read in the order of their
    times, and the receiver's counters only increase: the first frame is lost. *)
Theorem clock_step_back_loses_frame :
  mesh_run [Send 10 [1]; Send 5 [2]; Recv [0; 0; 0]; Recv [0; 0; 0; 250000000]; Recv [0; 0; 0; 250000000]]
    (mesh_start alice bob session_key [] 0 1) =
  [Sent (Ok ()); Sent (Ok ()); Received (Some (Ok [2])); Received (Some (Err replay_error)); Received (Some (Err Timeout))].
Proof. vm_compute. reflexivity. Qed.
End Witnesses.
