(* ===== verification/DataMule.v ===== *)
(** The data mule (shph-transport/src/lib.rs): envelopes as files that couriers
    carry from an outbox to an inbox, with the quota of the outbox, the scan of
    nested directories, the expiry of envelopes and the pending candidates of a
    reader.  serde_json is an interface. *)
From stdpp Require Import gmap sorting.
From S2P Require Import Prelude Ordering Error Text Primitives SessionCrypto TcpTransport TcpIo Spool SpoolSession.

Definition MAX_DATA_MULE_TOTAL_BYTES : Z := 8 * 1024 * 1024.
Definition MAX_DATA_MULE_AGE_MS : Z := 30 * 24 * 60 * 60 * 1000.

Record DataMuleConfig := mkDataMuleConfig {
  inbox_dir : string; outbox_dir : string; poll_interval_ms : Z;
  max_file_bytes : Z; max_total_bytes : Z; max_age_ms : Z }.

Record DataMuleEnvelope := mkDataMuleEnvelope {
  envelope_id : string; created_at_unix_ms : Z; from_node : string; to_node : string;
  ciphertext_b64 : string; nonce_b64 : string }.

(** The JSON of an envelope (crate serde_json). *)
Class MuleJson := {
  mule_to_json : DataMuleEnvelope -> result bytes;
  mule_of_json : bytes -> option DataMuleEnvelope }.

(** [u64::to_le_bytes] *)
Definition le_bytes8 (n : Z) : bytes := rev (be_bytes 8 n).

Section Mule.
Context `{HashOps, KexOps, MuleJson}.

(** ** The scan of an inbox or outbox *)

Definition data_mule_inbox_path (peer envelope_id : string) : Path :=
  ([safe_path_component peer], safe_path_component envelope_id +:+ ".shph").

Definition data_mule_envelope_expired (created_at now max_age : Z) : bool :=
  (max_age <? saturating_sub now created_at) || (max_age <? saturating_sub created_at now).

Record DataMuleCandidate := mkCandidate {
  c_path : Path; c_created_at : Z; c_envelope_id : string; c_from_node : string; c_to_node : string; file_bytes : Z }.

Record DataMuleScanContext := mkScan {
  s_max_file_bytes : Z; s_max_age_ms : Z; s_now_unix_ms : Z; scanned : Z; scanned_bytes : Z; candidate_memory : Z }.

Definition DataMuleScanContext_new (max_file max_age now : Z) : DataMuleScanContext := mkScan max_file max_age now 0 0 0.

Definition with_counts (n b m : Z) (s : DataMuleScanContext) : DataMuleScanContext :=
  mkScan (s_max_file_bytes s) (s_max_age_ms s) (s_now_unix_ms s) n b m.

(** The scan and the candidates found. *)
Abbreviation Found := (DataMuleScanContext * list DataMuleCandidate)%type.

Definition node_len (n : Node) : Z := match n with Regular contents => zlen contents | _ => 0 end.

(** A file that is neither a link nor a directory. *)
Definition collect_file (root : string) (p : Path) (size : Z) (s : Found) (w : World) : result Found * World :=
  let '(scan, out) := s in
  if negb (bool_decide (extension p.2 = "shph")) then (Ok s, w)
  else if s_max_file_bytes scan <? size then (Ok s, change_fs (quarantine_file p) w)
  else
    let! total, w := (account_scan_bytes (scanned_bytes scan) size, w) in
    let scan := with_counts (scanned scan) total (candidate_memory scan) scan in
    match on_fs (read_file_bytes p (s_max_file_bytes scan)) w with
    | (inl FileTooLarge, w) => (Ok (scan, out), change_fs (quarantine_file p) w)
    | (inl FileMissing, w) => (Ok (scan, out), w)
    | (inl e, w) => (Err (file_error e), w)
    | (inr bytes, w) =>
        match mule_of_json bytes with
        | None => (Ok (scan, out), change_fs (quarantine_file p) w)
        | Some e =>
            if data_mule_envelope_expired (created_at_unix_ms e) (s_now_unix_ms scan) (s_max_age_ms scan)
            then (Ok (scan, out), change_fs (quarantine_file p) w)
            else
              match account_candidate_memory (candidate_memory scan) (path_text root p) [envelope_id e; from_node e; to_node e] with
              | Ok memory =>
                  (Ok (with_counts (scanned scan) (scanned_bytes scan) memory scan,
                       out ++ [mkCandidate p (created_at_unix_ms e) (envelope_id e) (from_node e) (to_node e) size]), w)
              | Err (Protocol _) => (Ok (scan, out), change_fs (quarantine_file p) w)
              | Err e => (Err e, w)
              | Panic => (Panic, w)
              end
        end
    end.

Section Entries.
(** Collecting below a directory, one level deeper. *)
Context (root : string) (at_dir : list string) (collect : list string -> Found -> World -> result Found * World).

Definition collect_entry (entry : Entry) (s : Found) (w : World) : result Found * World :=
  let! n, w := (account_scan_entry (scanned s.1), w) in
  let s := (with_counts n (scanned_bytes s.1) (candidate_memory s.1) s.1, s.2) in
  match entry with
  | EntryFailed e => (Err e, w)
  | Named name =>
      let p := (at_dir, name) in
      let! _ok, w := on_fs (ensure_no_reparse_components root p) w in
      match on_fs (symlink_metadata p) w with
      | ((None | Some Symlink), w) => (Ok s, w)
      | (Some Directory, w) => collect (at_dir ++ [name]) s w
      | (Some node, w) => collect_file root p (node_len node) s w
      end
  end.

Fixpoint collect_entries (entries : list Entry) (s : Found) (w : World) : result Found * World :=
  match entries with
  | [] => (Ok s, w)
  | e :: entries => let! s, w := collect_entry e s w in collect_entries entries s w
  end.
End Entries.

(** [collect_shph_files] at a depth of [MAX_QUEUE_SCAN_DEPTH + 1 - levels]. *)
Fixpoint collect_shph_files (levels : nat) (root : string) (at_dir : list string) (s : Found) (w : World) : result Found * World :=
  match read_dir at_dir w with
  | (QueueAbsent, w) => (Ok s, w)
  | (QueueRefused e, w) => (Err e, w)
  | (Entries entries, w) =>
      match levels with
      | O => (Err (ResourceExhausted "data-mule inbox nesting exceeds scan depth"), w)
      | S levels => collect_entries root at_dir (collect_shph_files levels root) entries s w
      end
  end.

Definition SCAN_LEVELS : nat := Z.to_nat (MAX_QUEUE_SCAN_DEPTH + 1).

Definition data_mule_spool_usage (root : string) (max_file max_age now : Z) (w : World) : result Z * World :=
  let! found, w := collect_shph_files SCAN_LEVELS root [] (DataMuleScanContext_new max_file max_age now, []) w in
  (Ok (fold_left (fun n c => n + file_bytes c) found.2 0), w).

(** ** Writing *)

Record DataMuleWriteState := mkWriteState {
  w_outbox_dir : string; w_local_node : string; w_peer_node : string; next_sequence : Z;
  w_max_file_bytes : Z; w_max_total_bytes : Z; w_max_age_ms : Z; max_payload_bytes : Z }.

Definition data_mule_payload_capacity (max_file : Z) (local_node peer_node : string) : Z :=
  match mule_to_json (mkDataMuleEnvelope (show u64_max +:+ "-" +:+ show u64_max) u64_max local_node peer_node ""
                        (b64_encode (le_bytes8 u64_max))) with
  | Ok bytes => max_plaintext_for_file_adapter max_file (zlen bytes)
  | _ => 0
  end.

Definition DataMuleWriteState_new (cfg : DataMuleConfig) (local_node peer_node : string) : DataMuleWriteState :=
  let max_file := clamp 1 MAX_FILE_ADAPTER_BYTES (max_file_bytes cfg) in
  mkWriteState (outbox_dir cfg) local_node peer_node 0 max_file
    (clamp max_file MAX_DATA_MULE_TOTAL_BYTES (max_total_bytes cfg)) (clamp 1 MAX_DATA_MULE_AGE_MS (max_age_ms cfg))
    (data_mule_payload_capacity max_file local_node peer_node).

Definition quota_error (queued total : Z) : ShphError :=
  ResourceExhausted ("data-mule outbox quota exhausted (" +:+ show queued +:+ " bytes of " +:+ show total +:+ " configured)").

Definition mule_id (created_at sequence : Z) : string := show created_at +:+ "-" +:+ show sequence.

Definition send_payload (payload : bytes) : DataMuleWriteState * World -> result unit * (DataMuleWriteState * World) := fun '(s, w) =>
  match now_unix_ms w with
  | (Ok created_at, w) =>
      let id := mule_id created_at (next_sequence s) in
      let envelope := mkDataMuleEnvelope id created_at (w_local_node s) (w_peer_node s) (b64_encode payload) (b64_encode (le_bytes8 (next_sequence s))) in
      let s := mkWriteState (w_outbox_dir s) (w_local_node s) (w_peer_node s) (saturating_add u64_max (next_sequence s) 1)
                 (w_max_file_bytes s) (w_max_total_bytes s) (w_max_age_ms s) (max_payload_bytes s) in
      match mule_to_json envelope with
      | Ok bytes =>
          if w_max_file_bytes s <? zlen bytes then (Err (Protocol "data-mule envelope too large"), (s, w))
          else
            match data_mule_spool_usage (w_outbox_dir s) (w_max_file_bytes s) (w_max_age_ms s) created_at w with
            | (Ok queued, w) =>
                if w_max_total_bytes s <? saturating_add u64_max queued (zlen bytes) then (Err (quota_error queued (w_max_total_bytes s)), (s, w))
                else
                  let '(r, f) := write_file_atomically (w_outbox_dir s) (data_mule_inbox_path (w_peer_node s) id) bytes (fs w) in
                  (r, (s, set_fs f w))
            | (Err e, w) => (Err e, (s, w))
            | (Panic, w) => (Panic, (s, w))
            end
      | Err e => (Err e, (s, w))
      | Panic => (Panic, (s, w))
      end
  | (Err e, w) => (Err e, (s, w))
  | (Panic, w) => (Panic, (s, w))
  end.

(** ** Reading *)

Record DataMuleReadState := mkReadState {
  r_inbox_dir : string; r_local_node : string; peer_filter : option string;
  pending_candidates : list DataMuleCandidate; poll_interval : Z;
  seen_envelopes : gset string; seen_order : list string; max_seen : Z; r_max_file_bytes : Z; r_max_age_ms : Z }.

Definition DataMuleReadState_new (cfg : DataMuleConfig) (local_node : string) (peer : option string) : DataMuleReadState :=
  mkReadState (inbox_dir cfg) local_node peer [] (clamp 1 MAX_ADAPTER_POLL_INTERVAL_MS (poll_interval_ms cfg) * MILLISECOND)
    ∅ [] 1024 (clamp 1 MAX_FILE_ADAPTER_BYTES (max_file_bytes cfg)) (clamp 1 MAX_DATA_MULE_AGE_MS (max_age_ms cfg)).

Definition set_pending (l : list DataMuleCandidate) (r : DataMuleReadState) : DataMuleReadState :=
  mkReadState (r_inbox_dir r) (r_local_node r) (peer_filter r) l (poll_interval r) (seen_envelopes r) (seen_order r)
    (max_seen r) (r_max_file_bytes r) (r_max_age_ms r).

Definition key_of (from id : string) : string := from +:+ String Ascii.zero EmptyString +:+ id.
Definition replay_key (e : DataMuleEnvelope) : string := key_of (from_node e) (envelope_id e).

Definition from_peer (r : DataMuleReadState) (node : string) : bool :=
  match peer_filter r with None => true | Some peer => bool_decide (peer = node) end.

Record DataMuleEnvelopeFrame := mkFrame { payload : bytes; envelope : DataMuleEnvelope; claimed : ClaimedFile }.

Definition wanted (r : DataMuleReadState) (c : DataMuleCandidate) : bool :=
  bool_decide (c_to_node c = r_local_node r) && from_peer r (c_from_node c) &&
  negb (bool_decide (key_of (c_from_node c) (c_envelope_id c) ∈ seen_envelopes r)).

Definition cmp_candidates : DataMuleCandidate -> DataMuleCandidate -> comparison :=
  cmp_then (cmp_by c_created_at Z.compare) (cmp_by c_envelope_id cmp_string).

(** A claimed file that still is the candidate. *)
Definition open_claimed (r : DataMuleReadState) (c : DataMuleCandidate) (claim : ClaimedFile) (w : World)
    : result (option DataMuleEnvelopeFrame) * World :=
  match on_fs (read_file_bytes (claimed_path claim) (r_max_file_bytes r)) w with
  | (inl FileTooLarge, w) => (Ok None, change_fs (quarantine_claimed_file claim) w)
  | (inl FileMissing, w) => (Ok None, w)
  | (inl e, w) => (Err (file_error e), w)
  | (inr bytes, w) =>
      match mule_of_json bytes with
      | None => (Ok None, change_fs (quarantine_claimed_file claim) w)
      | Some e =>
          if negb (bool_decide (to_node e = r_local_node r) && from_peer r (from_node e) &&
                   negb (bool_decide (replay_key e ∈ seen_envelopes r)) &&
                   (created_at_unix_ms e =? c_created_at c) && bool_decide (envelope_id e = c_envelope_id c) &&
                   bool_decide (from_node e = c_from_node c) && bool_decide (to_node e = c_to_node c))
          then (Ok None, change_fs (quarantine_claimed_file claim) w)
          else
            match b64_decode (ciphertext_b64 e) with
            | Some payload => (Ok (Some (mkFrame payload e claim)), w)
            | None => (Ok None, change_fs (quarantine_claimed_file claim) w)
            end
      end
  end.

(** The candidates left, one after the other; each is taken off before it is
    tried. *)
Fixpoint first_pending (r : DataMuleReadState) (cs : list DataMuleCandidate) (w : World)
    : result (option DataMuleEnvelopeFrame) * (World * list DataMuleCandidate) :=
  match cs with
  | [] => (Ok None, (w, []))
  | c :: cs =>
      match on_fs (claim_file (r_inbox_dir r) (c_path c)) w with
      | (Ok None, w) => first_pending r cs w
      | (Ok (Some claim), w) =>
          match open_claimed r c claim w with
          | (Ok (Some f), w) => (Ok (Some f), (w, cs))
          | (Ok None, w) => first_pending r cs w
          | (Err e, w) => (Err e, (w, cs))
          | (Panic, w) => (Panic, (w, cs))
          end
      | (Err e, w) => (Err e, (w, cs))
      | (Panic, w) => (Panic, (w, cs))
      end
  end.

(** The candidates of a new scan, when there is an inbox.  The answer about the
    inbox itself comes first; its entries are not read. *)
Definition find_candidates (r : DataMuleReadState) (w : World) : result (option (list DataMuleCandidate)) * World :=
  match read_dir [] w with
  | (QueueAbsent, w) => (Ok None, w)
  | (QueueRefused e, w) => (Err e, w)
  | (Entries _, w) =>
      let! now, w := now_unix_ms w in
      let! found, w := collect_shph_files SCAN_LEVELS (r_inbox_dir r) [safe_path_component (r_local_node r)]
                         (DataMuleScanContext_new (r_max_file_bytes r) (r_max_age_ms r) now, []) w in
      (Ok (Some (sort_by cmp_candidates (filter (fun c => wanted r c = true) found.2))), w)
  end.

Definition take_pending (r : DataMuleReadState) (w : World) : result (option DataMuleEnvelopeFrame) * (World * DataMuleReadState) :=
  let '(v, (w, cs)) := first_pending r (pending_candidates r) w in (v, (w, set_pending cs r)).

Definition poll_envelope : World * DataMuleReadState -> result (option DataMuleEnvelopeFrame) * (World * DataMuleReadState) := fun '(w, r) =>
  if bool_decide (length (pending_candidates r) = 0%nat) then
    match find_candidates r w with
    | (Ok None, w) => (Ok None, (w, r))
    | (Ok (Some cs), w) => take_pending (set_pending cs r) w
    | (Err e, w) => (Err e, (w, r))
    | (Panic, w) => (Panic, (w, r))
    end
  else take_pending r w.

Definition mark_seen (e : DataMuleEnvelope) (r : DataMuleReadState) : DataMuleReadState :=
  let '(order, keys) := remember (max_seen r) (replay_key e) (seen_order r) (seen_envelopes r) in
  mkReadState (r_inbox_dir r) (r_local_node r) (peer_filter r) (pending_candidates r) (poll_interval r) keys order
    (max_seen r) (r_max_file_bytes r) (r_max_age_ms r).

Definition commit_envelope (f : DataMuleEnvelopeFrame) : World * DataMuleReadState -> World * DataMuleReadState := fun '(w, r) =>
  (change_fs (remove_file (claimed_path (claimed f))) w, mark_seen (envelope f) r).

Definition reject_envelope (f : DataMuleEnvelopeFrame) (w : World) : World := change_fs (quarantine_claimed_file (claimed f)) w.

(** The loop of [receive_envelope]: a frame for another node or from another
    peer, which polling never returns, is rejected without a look at the clock. *)
Fixpoint receive_until (fuel : nat) (deadline : Z) : IO (World * DataMuleReadState) DataMuleEnvelopeFrame := fun s =>
  match fuel with
  | O => (None, s)
  | S fuel =>
      (let* found := io_of poll_envelope in
       match found with
       | Some frame => fun '(w, r) =>
           if negb (bool_decide (to_node (envelope frame) = r_local_node r) && from_peer r (from_node (envelope frame)))
           then receive_until fuel deadline (reject_envelope frame w, r)
           else (Some (Ok frame), (w, r))
       | None =>
           let* now := now_beside in
           if deadline <=? now then io_ret (Err Timeout) else receive_until fuel deadline
       end) s
  end.

Definition receive_envelope (timeout : Z) : IO (World * DataMuleReadState) DataMuleEnvelopeFrame :=
  let* start := now_beside in
  fun '(w, r) => receive_until (S (length (clock w))) (start + timeout) (w, r).

#[export] Instance mule_source : FrameSource DataMuleReadState DataMuleEnvelopeFrame := {
  source_receive := receive_envelope;
  source_payload := payload;
  source_commit := commit_envelope;
  source_reject := reject_envelope }.

(** ** Sessions *)

Context `{AeadOps}.

Record DataMuleSession := mkSession {
  send_state : DataMuleWriteState; recv_state : DataMuleReadState; send_cipher : SendCipher; recv_cipher : ReceiveCipher }.

Definition DataMuleSession_new (s : DataMuleWriteState) (r : DataMuleReadState) (send_key recv_key : bytes) : DataMuleSession :=
  mkSession s r (SendCipher_new send_key) (ReceiveCipher_new recv_key).

Definition send_frame (plaintext : bytes) : DataMuleWriteState * SendCipher * World -> result unit * (DataMuleWriteState * SendCipher * World) :=
  fun '(s, c, w) =>
  let! _ok, st := (validate_file_adapter_payload plaintext (max_payload_bytes s) (w_max_file_bytes s), (s, c, w)) in
  let '(s, c, w) := st in
  match encrypt plaintext c with
  | (Ok ciphertext, c) => let '(r, (s, w)) := send_payload ciphertext (s, w) in (r, (s, c, w))
  | (Err e, c) => (Err e, (s, c, w))
  | (Panic, c) => (Panic, (s, c, w))
  end.

Definition recv_frame : IO (World * (DataMuleReadState * ReceiveCipher)) bytes := fun '(w, (r, c)) =>
  receive_decrypted_frame (poll_interval r) (w, (r, c)).

Definition session_send (plaintext : bytes) : DataMuleSession * World -> result unit * (DataMuleSession * World) := fun '(x, w) =>
  let '(r, (s, c, w)) := send_frame plaintext (send_state x, send_cipher x, w) in
  (r, (mkSession s (recv_state x) c (recv_cipher x), w)).

Definition session_recv : IO (DataMuleSession * World) bytes := fun '(x, w) =>
  let '(v, (w, (r, c))) := recv_frame (w, (recv_state x, recv_cipher x)) in
  (v, (mkSession (send_state x) r (send_cipher x) c, w)).
End Mule.

(** ** Lemmas: a reader whatever the inbox holds *)

Section Safety.
Context `{HashOps, KexLaws, MuleJson}.

Lemma collect_file_no_panic root p size s w : no_panic (collect_file root p size s w).1.
Proof.
  destruct s as [scan out]. unfold collect_file. case_if; [done|]. case_if; [done|].
  apply sbind_no_panic; [apply (account_no_panic 0 _ 0 "" [])|]. intros t w1.
  destruct (on_fs (read_file_bytes _ _) w1) as [[[]|data] w2]; try done. destruct (mule_of_json data) as [e|]; [|done]. case_if; [done|].
  cbn [candidate_memory with_counts]. pose proof (proj2 (proj2 (account_no_panic 0 0 (candidate_memory scan) (path_text root p)
    [envelope_id e; from_node e; to_node e]))) as Hp. by destruct (account_candidate_memory _ _ _) as [m|[]|].
Qed.

Lemma collect_entries_no_panic root at_dir collect es s w : (forall d s w, no_panic (collect d s w).1) ->
  no_panic (collect_entries root at_dir collect es s w).1.
Proof.
  intros Hc. revert s w. induction es as [|e es IH]; intros s w; cbn [collect_entries]; [done|]. apply sbind_no_panic; [|auto].
  unfold collect_entry. apply sbind_no_panic; [apply (account_no_panic _ 0 0 "" [])|]. intros n w1. destruct e as [name|e]; [|done].
  apply sbind_no_panic; [apply on_fs_no_panic, ensure_no_panic|]. intros _ w2.
  destruct (on_fs (symlink_metadata _) w2) as [[[contents| | |]|] w3]; [apply collect_file_no_panic|apply Hc|done|apply collect_file_no_panic|done].
Qed.

Lemma collect_no_panic levels root at_dir s w : no_panic (collect_shph_files levels root at_dir s w).1.
Proof.
  revert at_dir s w. induction levels as [|levels IH]; intros at_dir s w; cbn [collect_shph_files];
    destruct (read_dir at_dir w) as [[| |es] w1]; try done. by apply collect_entries_no_panic.
Qed.

(** A result without a panic whose frame, when there is one, holds bytes and is
    for this node, from its peer, and not seen before. *)
Definition frame_for (r : DataMuleReadState) (f : DataMuleEnvelopeFrame) : Prop :=
  bytes_ok (payload f) /\ to_node (envelope f) = r_local_node r /\ from_peer r (from_node (envelope f)) = true /\
  replay_key (envelope f) ∉ seen_envelopes r.

Definition frame_fine (r : DataMuleReadState) (v : result (option DataMuleEnvelopeFrame)) : Prop :=
  no_panic v /\ forall f, v = Ok (Some f) -> frame_for r f.

Lemma mule_claimed_fine r c claim w : frame_fine r (open_claimed r c claim w).1.
Proof.
  unfold open_claimed. destruct (on_fs (read_file_bytes _ _) w) as [[[]|data] w1]; try done. destruct (mule_of_json data) as [e|]; [|done].
  match goal with |- context [negb ?b] => destruct b eqn:Eb end; cbn [negb]; [|done].
  destruct (b64_decode _) as [p|] eqn:E; [|done]. split; [done|]. intros f [= <-]. bool_prop. by split_and!; [apply b64_decode_bytes in E|..].
Qed.

Lemma first_pending_fine r cs w : frame_fine r (first_pending r cs w).1.
Proof.
  revert w. induction cs as [|c cs IH]; intros w; cbn [first_pending]; [done|].
  pose proof (on_fs_no_panic (claim_file (r_inbox_dir r) (c_path c)) w (claim_no_panic _ _)) as Hc.
  destruct (on_fs _ w) as [[[claim|]|e|] w1]; [|apply IH|done|done].
  pose proof (mule_claimed_fine r c claim w1) as Ho. destruct (open_claimed r c claim w1) as [[[f|]|e|] w2]; [exact Ho|apply IH|done|by destruct Ho].
Qed.

(** What polling leaves of a reader. *)
Definition same_reader (r r' : DataMuleReadState) : Prop := r' = set_pending (pending_candidates r') r.

Lemma take_pending_fine r w : let '(v, (_, r')) := take_pending r w in frame_fine r v /\ same_reader r r'.
Proof.
  unfold take_pending. pose proof (first_pending_fine r (pending_candidates r) w) as Hf. destruct (first_pending _ _ _) as [v [w1 cs]]. done.
Qed.

Lemma poll_envelope_fine r w : let '(v, (_, r')) := poll_envelope (w, r) in frame_fine r v /\ same_reader r r'.
Proof.
  assert (same_reader r r) as Hrefl by (by destruct r). unfold poll_envelope. case_bool_decide as Hp; [|apply take_pending_fine].
  assert (no_panic (find_candidates r w).1) as Hn.
  { unfold find_candidates. destruct (read_dir [] w) as [[| |es] w1]; [done..|]. unfold now_unix_ms. destruct (unix_clock w1) as [|[t|] ts]; [done| |done].
    cbn [ok_or sbind]. apply sbind_no_panic; [apply collect_no_panic|done]. }
  destruct (find_candidates r w) as [[[cs|]|e|] w1]; [|done..].
  pose proof (take_pending_fine (set_pending cs r) w1) as Ht. by destruct (take_pending _ w1) as [v [w2 r2]].
Qed.

Definition reader_ok (r : DataMuleReadState) : Prop := 0 <= max_seen r <= 1024 /\ seen_ok (max_seen r) (seen_order r) (seen_envelopes r).

Lemma same_reader_ok r r' : same_reader r r' -> reader_ok r -> reader_ok r'.
Proof. by intros ->. Qed.

Lemma mule_mark_seen_ok e r : reader_ok r -> reader_ok (mark_seen e r).
Proof.
  intros [Hm Hs]. unfold mark_seen. pose proof (remember_ok (max_seen r) (replay_key e) (seen_order r) (seen_envelopes r) ltac:(lia) Hs) as Hr.
  by destruct (remember _ _ _ _) as [o k].
Qed.

Lemma receive_until_fine fuel deadline w r :
  let '(v, (_, r')) := receive_until fuel deadline (w, r) in
  v <> Some Panic /\ same_reader r r' /\ forall f, v = Some (Ok f) -> frame_for r f.
Proof.
  revert w r. induction fuel as [|fuel IH]; intros w r; cbn [receive_until]; [by destruct r|]. unfold io_bind, io_of.
  pose proof (poll_envelope_fine r w) as Hp. destruct (poll_envelope (w, r)) as [v [w1 r1]]. destruct Hp as [[Hp Hf] Hs].
  destruct v as [[f|]|e|]; [| |done|done].
  - destruct (Hf f eq_refl) as (Hb & Hto & Hfrom & Hseen). assert (r_local_node r1 = r_local_node r) as El by (by rewrite Hs).
    assert (from_peer r1 = from_peer r) as Ef by (by rewrite Hs). rewrite El, Ef, bool_decide_eq_true_2, Hfrom by done. cbn [andb negb].
    split_and!; [done|done|]. by intros f' [= <-].
  - unfold now_beside, instant_now. destruct (clock w1); [done|]. case_if; [done|].
    match goal with |- context [receive_until fuel deadline (?w2, r1)] => specialize (IH w2 r1); destruct (receive_until fuel deadline (w2, r1)) as [v [w3 r3]] end.
    destruct IH as (I1 & I2 & I3). split_and!; [done|by rewrite I2, Hs|]. intros f Ef. specialize (I3 f Ef). by rewrite Hs in I3.
Qed.

#[export] Instance mule_source_laws : FrameSourceLaws DataMuleReadState DataMuleEnvelopeFrame reader_ok.
Proof.
  split.
  - intros timeout w r Hr. cbn [source_receive mule_source]. unfold receive_envelope, io_bind, now_beside, instant_now.
    destruct w as [f ls [|t cl] u]; cbn [clock fs listings unix_clock]; [done|]. set (w := mkWorld f ls cl u).
    pose proof (receive_until_fine (S (length cl)) (t + timeout) w r) as Hp. destruct (receive_until _ _ (w, r)) as [v [w1 r1]].
    destruct Hp as (P1 & P2 & P3). split_and!; [done|by eapply same_reader_ok|]. intros f' Ef. by apply P3.
  - intros f w r Hr. cbn [source_commit mule_source commit_envelope snd]. by apply mule_mark_seen_ok.
Qed.
End Safety.

(** ** Theorems *)

(** A data-mule receiver is safe whatever couriers put in its inbox.  With
    any files in any tree of directories, changed at any time, any answers of
    the file system and any clocks, no call panics, the plaintexts that are
    returned were sealed under the session key with strictly increasing
    counters, and what the receiver remembers stays within its bound. *)
Theorem mule_receiver_safe `{HashOps, KexLaws, MuleJson, AeadOps} cfg local_node peer key ws : zlen key = 32 ->
  let r0 := DataMuleReadState_new cfg local_node peer in
  let '(vs, r) := recv_calls (poll_interval r0) ws r0 (ReceiveCipher_new key) in
  Forall (fun v => v <> Some Panic) vs /\
  (exists frames, Forall2 (fun p fn => opens_to key fn.1 fn.2 p) (delivered vs) frames /\ StronglySorted Z.lt (map snd frames)) /\
  seen_envelopes r = list_to_set (seen_order r) /\ zlen (seen_order r) <= 1024.
Proof.
  intros Hk r0. assert (reader_ok r0) as Hr0 by (split; [done|]; split_and!; [done|constructor|done]).
  pose proof (recv_calls_ok key Hk (poll_interval r0) ws None r0 Hr0) as Hc. unfold ReceiveCipher_new. destruct (recv_calls _ ws r0 _) as [vs r].
  destruct Hc as (Hp & [Hm (R1 & R2 & R3)] & frames & F1 & F2 & _). split_and!; [done|by exists frames|done|lia].
Qed.

(** What polling returns is addressed to the node, comes from the peer it
    waits for, and was not accepted before. *)
Theorem polled_frames_are_addressed `{HashOps, KexLaws, MuleJson} r w f w' r' :
  poll_envelope (w, r) = (Ok (Some f), (w', r')) ->
  to_node (envelope f) = r_local_node r /\ (forall peer, peer_filter r = Some peer -> from_node (envelope f) = peer) /\
  replay_key (envelope f) ∉ seen_envelopes r.
Proof.
  intros E. pose proof (poll_envelope_fine r w) as Hp. rewrite E in Hp. destruct Hp as [[_ Hf] _]. destruct (Hf f eq_refl) as (_ & Hto & Hfrom & Hs).
  split_and!; [done| |done]. intros peer Ep. unfold from_peer in Hfrom. rewrite Ep in Hfrom. by apply bool_decide_eq_true in Hfrom.
Qed.

(** ** An executable instance of the JSON, and witnesses *)

Module Witnesses.
Import Toy.

(** A text after its length in unary. *)
Definition put_text (s : string) : bytes := zreplicate (str_len s) 1 ++ [0] ++ str_bytes s.

Fixpoint take_unary (l : bytes) : option (nat * bytes) :=
  match l with
  | [] => None
  | b :: l => if b =? 0 then Some (O, l) else match take_unary l with Some (n, r) => Some (S n, r) | None => None end
  end.

Definition take_text (l : bytes) : option (string * bytes) :=
  match take_unary l with Some (n, r) => Some (bytes_str (take n r), drop n r) | None => None end.

#[export] Instance mule_json : MuleJson := {
  mule_to_json e := Ok (be_bytes 8 (created_at_unix_ms e) ++
    mjoin (map put_text [envelope_id e; from_node e; to_node e; ciphertext_b64 e; nonce_b64 e]));
  mule_of_json l :=
    match take_text (zdrop 8 l) with
    | Some (id, l1) =>
        match take_text l1 with
        | Some (from, l2) =>
            match take_text l2 with
            | Some (to, l3) =>
                match take_text l3 with
                | Some (ct, l4) =>
                    match take_text l4 with
                    | Some (nonce, _) => Some (mkDataMuleEnvelope id (be_val (ztake 8 l)) from to ct nonce)
                    | None => None
                    end
                | None => None
                end
            | None => None
            end
        | None => None
        end
    | None => None
    end }.

Definition session_key : bytes := zreplicate 32 7.
Definition config : DataMuleConfig := mkDataMuleConfig "/mule" "/mule" 250 32768 4194304 86400000.

(** Sending at a time of the wall clock, and a call of the receiver at another. *)
Definition send_at (now : Z) (p : bytes) (x : DataMuleWriteState * SendCipher * World) : DataMuleWriteState * SendCipher * World :=
  let '(s, c, w) := x in (send_frame p (s, c, mkWorld (fs w) [] [] [Some now])).2.

Definition sent_at (now : Z) (ps : list bytes) : World :=
  (fold_left (fun x p => send_at now p x) ps
    (DataMuleWriteState_new config "a" "b", SendCipher_new session_key, mkWorld (mkFs ∅ [] 0 1) [] [] [])).2.

Fixpoint receive_all (calls : nat) (now : Z) (s : World * (DataMuleReadState * ReceiveCipher)) : list (option (result bytes)) :=
  match calls with
  | O => []
  | S calls =>
      let '(w, rc) := s in
      let '(v, s) := recv_frame (mkWorld (fs w) [] [0; 0; 0; 250000000; 250000000] [Some now; Some now], rc) in
      v :: receive_all calls now s
  end.

(** Two frames in an inbox, and the clocks of a call. *)
Definition arrived : World := mkWorld (fs (sent_at 1000 [[1]; [2]])) [] [0; 0; 0] [Some 1000].

Lemma mule_receiver_safe_witness :
  let r0 := DataMuleReadState_new config "b" (Some "a") in
  let '(vs, r) := recv_calls (poll_interval r0) [arrived; arrived] r0 (ReceiveCipher_new session_key) in
  Forall (fun v => v <> Some Panic) vs /\
  (exists frames, Forall2 (fun p fn => opens_to session_key fn.1 fn.2 p) (delivered vs) frames /\ StronglySorted Z.lt (map snd frames)) /\
  seen_envelopes r = list_to_set (seen_order r) /\ zlen (seen_order r) <= 1024.
Proof.
  assert (zlen session_key = 32) as Hk by (vm_compute; reflexivity).
  pose proof (mule_receiver_safe config "b" (Some "a") session_key [arrived; arrived] Hk) as Hs.
  cbv zeta in *. set (calls := recv_calls _ _ _ _) in *. clearbody calls. exact Hs.
Defined.

(** Frames of one millisecond are read in the order of their names as texts, and
    the receiver's counters only increase: of eleven frames sent in the same
    millisecond, the eleventh, named [1000-10], comes before the third, and
    eight frames are lost. *)
Theorem same_millisecond_frames_lost :
  delivered (receive_all 12 1000
    (sent_at 1000 [[0]; [1]; [2]; [3]; [4]; [5]; [6]; [7]; [8]; [9]; [10]],
     (DataMuleReadState_new config "b" (Some "a"), ReceiveCipher_new session_key))) = [[0]; [1]; [10]].
Proof. vm_compute. reflexivity. Qed.

(** In different milliseconds they all arrive. *)
Theorem frames_of_different_milliseconds_arrive :
  delivered (receive_all 4 1000
    ((send_at 1002 [12] (send_at 1001 [11] (send_at 1000 [10]
       (DataMuleWriteState_new config "a" "b", SendCipher_new session_key, mkWorld (mkFs ∅ [] 0 1) [] [] [])))).2,
     (DataMuleReadState_new config "b" (Some "a"), ReceiveCipher_new session_key))) = [[10]; [11]; [12]].
Proof. vm_compute. reflexivity. Qed.
End Witnesses.
