(* ===== verification/RateLimiter.v ===== *)
(** The connection limiter of the unauthenticated TCP entry path
    ([PeerRateLimiter] in shph-transport/src/lib.rs): it bounds the connects of
    one address in a rolling window and decides who must answer a cookie. *)
From stdpp Require Import gmap strings.
From S2P Require Import Net.
From S2P Require Import Prelude Error Text Cookie.

(** Instants and durations are nanoseconds. *)
Definition NANOS : Z := 1000000000.
Definition PEER_RATE_WINDOW : Z := 10 * NANOS.
Definition MAX_CONNECTS_PER_PEER_PER_WINDOW : Z := 8.
Definition COOKIE_CHALLENGE_THRESHOLD : Z := MAX_CONNECTS_PER_PEER_PER_WINDOW / 2.
Definition MAX_QUIC_TRACKED_PEERS : Z := 1024.

(** ** The rate limiter *)

(** The instants of the recent connects of every address, oldest first. *)
Notation Seen := (gmap string (list Z)).

Record PeerRateLimiter := mkLimiter { window : Z; max : Z; seen : Seen }.

Definition PeerRateLimiter_new : PeerRateLimiter :=
  mkLimiter PEER_RATE_WINDOW MAX_CONNECTS_PER_PEER_PER_WINDOW ∅.

(** [entries.retain(|t| *t > cutoff)] *)
Definition retain_after (cutoff : Z) (entries : list Z) : list Z := filter (fun t => cutoff < t) entries.

(** [self.seen.retain(..)]: prune every list and drop the empty ones. *)
Definition retain_seen (cutoff : Z) (m : Seen) : Seen :=
  omap (fun entries => match retain_after cutoff entries with [] => None | entries => Some entries end) m.

(** The order of [Option<Instant>]: [None] first. *)
Definition first_before (a b : option Z) : bool :=
  match a, b with
  | None, Some _ => true
  | Some a, Some b => a <? b
  | _, None => false
  end.

(** [min_by_key(|(_, entries)| entries.first().copied())]: the first minimum. *)
Fixpoint min_by_first (best : string * list Z) (l : list (string * list Z)) : string * list Z :=
  match l with
  | [] => best
  | x :: l => min_by_first (if first_before (head x.2) (head best.2) then x else best) l
  end.

(** The eviction of the entry with the oldest first connect; [order] is the
    iteration order of the hash map at this call. *)
Definition evict_oldest (order : list (string * list Z)) (m : Seen) : Seen :=
  match order with
  | [] => m
  | x :: l => delete (min_by_first x l).1 m
  end.

(** The connects that were let through: address and instant, oldest first. *)
Notation Log := (list (string * Z)).

Section Limiter.
(** The printed form of an address ([IpAddr::to_string]) and of a duration. *)
Context (ip_text : IpAddr -> string) (duration_text : Z -> string).

Definition rate_error (addr : SocketAddr) (s : PeerRateLimiter) : ShphError :=
  Transport ("peer " +:+ ip_text (ip addr) +:+ " exceeded connection rate limit (" +:+ show (max s) +:+ " per "
             +:+ duration_text (window s) +:+ ")").

(** [check_and_record], with the clock it reads and the iteration order of its
    map at the eviction. *)
Definition check_and_record (now : Z) (order : Seen -> list (string * list Z)) (addr : SocketAddr)
    (s : PeerRateLimiter) : result unit * PeerRateLimiter :=
  let key := ip_text (ip addr) in
  let cutoff := now - window s in
  let m := retain_seen cutoff (seen s) in
  let m := if bool_decide (m !! key = None) && (MAX_QUIC_TRACKED_PEERS <=? Z.of_nat (size m))
           then evict_oldest (order m) m else m in
  let entries := retain_after cutoff (default [] (m !! key)) in
  if max s <=? zlen entries then
    (Err (rate_error addr s), mkLimiter (window s) (max s) (<[key := entries]> m))
  else (Ok (), mkLimiter (window s) (max s) (<[key := entries ++ [now]]> m)).

Definition requires_cookie (addr : SocketAddr) (s : PeerRateLimiter) : bool :=
  match seen s !! ip_text (ip addr) with
  | Some entries => COOKIE_CHALLENGE_THRESHOLD <=? zlen entries
  | None => false
  end.

(** ** The specification: the log of the connects that were let through *)

(** One connect attempt: the address, the clock, the iteration order. *)
Record Attempt := mkAttempt { at_addr : SocketAddr; at_now : Z; at_order : Seen -> list (string * list Z) }.

Definition attempt (a : Attempt) (s : PeerRateLimiter) : result unit * PeerRateLimiter :=
  check_and_record (at_now a) (at_order a) (at_addr a) s.

(** The instants of the connects of [key] after [cutoff], oldest first. *)
Definition recent (key : string) (cutoff : Z) (log : Log) : list Z :=
  map snd (filter (fun e => e.1 = key /\ cutoff < e.2) log).

Definition recent_peers (cutoff : Z) (log : Log) : list string :=
  remove_dups (map fst (filter (fun e => cutoff < e.2) log)).

(** A sliding window over the whole log. *)
Definition spec_attempt (a : Attempt) (log : Log) : bool * Log :=
  let key := ip_text (ip (at_addr a)) in
  if zlen (recent key (at_now a - PEER_RATE_WINDOW) log) <? MAX_CONNECTS_PER_PEER_PER_WINDOW
  then (true, log ++ [(key, at_now a)]) else (false, log).

Fixpoint spec_run (l : list Attempt) (log : Log) : list bool * Log :=
  match l with
  | [] => ([], log)
  | a :: l => let '(b, log) := spec_attempt a log in let '(bs, log) := spec_run l log in (b :: bs, log)
  end.
End Limiter.

(** ** Lemmas: the limiter's map *)

Lemma retain_after_twice c c' l : c <= c' -> retain_after c' (retain_after c l) = retain_after c' l.
Proof.
  intros Hc. unfold retain_after. rewrite list_filter_filter. apply list_filter_iff. intros t. lia.
Qed.

Lemma retain_after_app c l l' : retain_after c (l ++ l') = retain_after c l ++ retain_after c l'.
Proof. apply filter_app. Qed.

Lemma retain_after_length c l : zlen (retain_after c l) <= zlen l.
Proof. unfold retain_after, zlen. pose proof (length_filter (fun t => c < t) l). lia. Qed.

Lemma retain_seen_lookup c m key : retain_seen c m !! key =
  match m !! key with
  | Some entries => match retain_after c entries with [] => None | l => Some l end
  | None => None
  end.
Proof. unfold retain_seen. rewrite lookup_omap. by destruct (m !! key). Qed.

Lemma retain_seen_entries c m key : default [] (retain_seen c m !! key) = retain_after c (default [] (m !! key)).
Proof.
  rewrite retain_seen_lookup. destruct (m !! key) as [l|]; [|done].
  change (default [] (Some l)) with l. by destruct (retain_after c l).
Qed.

Lemma retain_seen_some c m key entries : retain_seen c m !! key = Some entries ->
  entries <> [] /\ exists l, m !! key = Some l /\ entries = retain_after c l.
Proof.
  rewrite retain_seen_lookup. destruct (m !! key) as [l|]; [|done]. destruct (retain_after c l) eqn:El; [done|].
  intros [= <-]. split; [done|]. by exists l.
Qed.

Lemma retain_seen_size c m : (size (retain_seen c m) <= size m)%nat.
Proof.
  rewrite <- !size_dom. apply subseteq_size. intros key. rewrite !elem_of_dom.
  intros [l (_ & l' & ? & _)%retain_seen_some]. by exists l'.
Qed.

Lemma min_by_first_in best l : min_by_first best l ∈ best :: l.
Proof.
  revert best. induction l as [|x l IH]; intros best; [by left|]. cbn [min_by_first].
  destruct (first_before _ _); [right; apply IH|].
  specialize (IH best). apply elem_of_cons in IH as [->|?]; [by left|by right; right].
Qed.

(** An order of iteration lists the entries of the map. *)
Definition iterates (order : Seen -> list (string * list Z)) : Prop := forall m, order m ≡ₚ map_to_list m.

Lemma evict_oldest_size order m : iterates order -> m <> ∅ -> S (size (evict_oldest (order m) m)) = size m.
Proof.
  intros Ho Hm. specialize (Ho m). unfold evict_oldest. destruct (order m) as [|x l] eqn:E.
  - apply Permutation_nil in Ho. by apply map_to_list_empty_iff in Ho.
  - assert (min_by_first x l ∈ map_to_list m) as Hin by (rewrite <- Ho; apply min_by_first_in).
    destruct (min_by_first x l) as [key entries]. apply elem_of_map_to_list in Hin. cbn [fst].
    rewrite map_size_delete_Some by done. assert (size m <> 0%nat) by (by apply map_size_non_empty_iff). lia.
Qed.

Lemma evict_oldest_lookup l m key entries : evict_oldest l m !! key = Some entries -> m !! key = Some entries.
Proof. destruct l as [|x l]; [done|]. cbn. by intros [_ ?]%lookup_delete_Some. Qed.

(** The eviction takes the peer whose first connect is the oldest. *)
Lemma min_by_first_least best l x : x ∈ best :: l -> first_before (head x.2) (head (min_by_first best l).2) = false.
Proof.
  assert (forall a b c : option Z, first_before a b = false -> first_before b c = false -> first_before a c = false) as Htr.
  { intros [a|] [b|] [c|]; cbn; try done. rewrite !Z.ltb_ge. lia. }
  assert (forall a, first_before a a = false) as Hirr by (intros [a|]; cbn; [by rewrite Z.ltb_irrefl|done]).
  revert best x. induction l as [|y l IH]; intros best x.
  - intros Hx%list_elem_of_singleton. subst x. apply Hirr.
  - cbn [min_by_first]. intros Hx. destruct (first_before (head y.2) (head best.2)) eqn:E.
    + apply elem_of_cons in Hx as [->|Hx]; [|by apply IH]. apply (Htr _ (head y.2)); [|apply IH; by left].
      destruct (head y.2), (head best.2); cbn in *; try done. rewrite Z.ltb_lt in E. rewrite Z.ltb_ge. lia.
    + apply elem_of_cons in Hx as [->|Hx]; [apply IH; by left|]. apply elem_of_cons in Hx as [->|Hx].
      * apply (Htr _ (head best.2)); [done|apply IH; by left].
      * apply IH. by right.
Qed.

(** ** Lemmas: one attempt *)

Section LimiterLemmas.
Context (ip_text : IpAddr -> string) (duration_text : Z -> string).
Notation check := (check_and_record ip_text duration_text).
Notation key_of addr := (ip_text (ip addr)).
Notation attempt := (attempt ip_text duration_text).
Notation spec_attempt := (spec_attempt ip_text).

Definition entries_of (s : PeerRateLimiter) (key : string) : list Z := default [] (seen s !! key).

(** The map after an attempt of [key] but for [key] itself: what was retained,
    unless an entry was evicted for a new peer. *)
Definition retained_but (m m' : Seen) (key : string) : Prop :=
  (m' = m \/ (MAX_QUIC_TRACKED_PEERS <= Z.of_nat (size m) /\ m !! key = None /\ forall k, m' !! k = None \/ m' !! k = m !! k)) /\
  (Z.of_nat (size m) <= MAX_QUIC_TRACKED_PEERS -> forall entries, Z.of_nat (size (<[key := entries]> m')) <= MAX_QUIC_TRACKED_PEERS).

Lemma check_eq now order addr s : iterates order ->
  let key := key_of addr in
  let entries := retain_after (now - window s) (entries_of s key) in
  exists m', retained_but (retain_seen (now - window s) (seen s)) m' key /\
    check now order addr s =
      if max s <=? zlen entries then (Err (rate_error ip_text duration_text addr s), mkLimiter (window s) (max s) (<[key := entries]> m'))
      else (Ok (), mkLimiter (window s) (max s) (<[key := entries ++ [now]]> m')).
Proof.
  intros Ho key entries. unfold check_and_record. fold key. set (m := retain_seen _ _).
  assert (default [] (m !! key) = entries) as Em by apply retain_seen_entries.
  assert (retain_after (now - window s) entries = entries) as Er.
  { unfold entries. by apply retain_after_twice. }
  destruct (decide (m !! key = None)) as [Hk|Hk].
  - rewrite (bool_decide_eq_true_2 _ Hk). cbn [andb]. destruct (Z.leb_spec MAX_QUIC_TRACKED_PEERS (Z.of_nat (size m))) as [Hc|Hc].
    + assert (m <> ∅) as Hne by (intros E; rewrite E in Hc; done).
      exists (evict_oldest (order m) m). split; [split|].
      * right. do 2 (split; [done|]). intros k. destruct (evict_oldest _ _ !! k) eqn:E; [|by left]. right. symmetry. by eapply evict_oldest_lookup.
      * intros Hle l. pose proof (evict_oldest_size order m Ho Hne) as Hs.
        rewrite map_size_insert_None; [lia|]. destruct (evict_oldest _ _ !! key) eqn:E; [|done].
        apply evict_oldest_lookup in E. congruence.
      * assert (evict_oldest (order m) m !! key = None) as ->.
        { destruct (evict_oldest _ _ !! key) eqn:E; [|done]. apply evict_oldest_lookup in E. congruence. }
        rewrite Hk in Em. rewrite Em, Er. done.
    + exists m. split; [split|].
      * by left.
      * intros _ l. rewrite map_size_insert_None by done. lia.
      * rewrite Em, Er. done.
  - rewrite (bool_decide_eq_false_2 _ Hk). cbn [andb]. exists m. split; [split|].
    + by left.
    + intros Hle l. destruct (m !! key) as [x|] eqn:E; [|done]. by rewrite map_size_insert_Some by (by eexists).
    + rewrite Em, Er. done.
Qed.

(** *** The state of the limiter *)

Definition limiter_wf (s : PeerRateLimiter) : Prop :=
  window s = PEER_RATE_WINDOW /\ max s = MAX_CONNECTS_PER_PEER_PER_WINDOW /\
  Z.of_nat (size (seen s)) <= MAX_QUIC_TRACKED_PEERS /\
  forall key entries, seen s !! key = Some entries -> 1 <= zlen entries <= MAX_CONNECTS_PER_PEER_PER_WINDOW.

Lemma entries_short s key : limiter_wf s -> zlen (entries_of s key) <= MAX_CONNECTS_PER_PEER_PER_WINDOW.
Proof.
  intros (_ & _ & _ & Hl). unfold entries_of. destruct (seen s !! key) as [l|] eqn:E; [apply Hl in E; cbn; lia|by_compute].
Qed.

Lemma check_wf now order addr s : iterates order -> limiter_wf s -> limiter_wf (check now order addr s).2.
Proof.
  intros Ho Hs. destruct (check_eq now order addr s Ho) as (m' & [Hm Hsz] & E).
  pose proof (entries_short s (key_of addr) Hs) as He. destruct Hs as (Hw & Hx & Hz & Hl).
  set (m := retain_seen _ _) in *. set (entries := retain_after _ _) in *.
  assert (zlen entries <= MAX_CONNECTS_PER_PEER_PER_WINDOW) as Hen by (etrans; [apply retain_after_length|done]).
  assert (Z.of_nat (size m) <= MAX_QUIC_TRACKED_PEERS) as Hms.
  { unfold m. pose proof (retain_seen_size (now - window s) (seen s)). lia. }
  assert (forall k l, m' !! k = Some l -> 1 <= zlen l <= MAX_CONNECTS_PER_PEER_PER_WINDOW) as Hm'.
  { intros k l Hkl. assert (m !! k = Some l) as Hk.
    { destruct Hm as [->|(_ & _ & Hm)]; [done|]. destruct (Hm k); congruence. }
    destruct (retain_seen_some _ _ _ _ Hk) as (Hne & l' & Hl' & ->). pose proof (Hl _ _ Hl') as [_ ?].
    pose proof (retain_after_length (now - window s) l'). split; [|lia].
    pose proof (zlen_nonneg (retain_after (now - window s) l')). pose proof (zlen_0_inv (retain_after (now - window s) l')).
    assert (zlen (retain_after (now - window s) l') <> 0) by naive_solver. lia. }
  rewrite E, Hx. assert (forall k l x, 1 <= zlen x <= MAX_CONNECTS_PER_PEER_PER_WINDOW ->
    <[key_of addr := x]> m' !! k = Some l -> 1 <= zlen l <= MAX_CONNECTS_PER_PEER_PER_WINDOW) as Hins.
  { intros k l x Hx' Hk. apply lookup_insert_Some in Hk as [[_ <-]|[_ Hk]]; [done|by eapply Hm']. }
  destruct (Z.leb_spec MAX_CONNECTS_PER_PEER_PER_WINDOW (zlen entries)); cbn [snd];
    (split; [done|split; [done|split; [by apply Hsz|]]]); intros k l Hk; eapply Hins; try exact Hk.
  - unfold MAX_CONNECTS_PER_PEER_PER_WINDOW in *. lia.
  - unfold MAX_CONNECTS_PER_PEER_PER_WINDOW in *. zl.
Qed.

(** *** The state against the log *)

Lemma recent_snoc key c log k t : recent key c (log ++ [(k, t)]) =
  recent key c log ++ (if bool_decide (k = key /\ c < t) then [t] else []).
Proof.
  unfold recent. rewrite filter_app, map_app. f_equal. cbn [filter list_filter]. unfold filter. cbn [list_filter].
  destruct (decide (k = key /\ c < t)) as [Hd|Hd].
  - rewrite (bool_decide_eq_true_2 _ Hd). by rewrite decide_True.
  - rewrite (bool_decide_eq_false_2 _ Hd). by rewrite decide_False.
Qed.

Lemma recent_other key c log k t : k <> key -> recent key c (log ++ [(k, t)]) = recent key c log.
Proof. intros Hk. rewrite recent_snoc, bool_decide_eq_false_2 by naive_solver. apply app_nil_r. Qed.

Lemma recent_same key c log t : recent key c (log ++ [(key, t)]) = recent key c log ++ retain_after c [t].
Proof.
  rewrite recent_snoc. f_equal. unfold retain_after. destruct (decide (c < t)) as [Hd|Hd].
  - rewrite bool_decide_eq_true_2 by done. by rewrite filter_cons_True.
  - rewrite bool_decide_eq_false_2 by naive_solver. by rewrite filter_cons_False.
Qed.

(** What the limiter knows of the log: for every address the instants of the
    window, all of them ([R] is equality) or some ([R] is [sublist]). *)
Section Tracks.
Context (R : relation (list Z)).
Hypothesis R_app : forall a b x, R a b -> R (a ++ x) (b ++ x).

Definition tracks (log : Log) (s : PeerRateLimiter) (T : Z) : Prop :=
  forall key c, T - PEER_RATE_WINDOW <= c -> R (retain_after c (entries_of s key)) (recent key c log).

Definition crowded (now : Z) (addr : SocketAddr) (s : PeerRateLimiter) : Prop :=
  MAX_QUIC_TRACKED_PEERS <= Z.of_nat (size (retain_seen (now - PEER_RATE_WINDOW) (seen s))) /\
  retain_seen (now - PEER_RATE_WINDOW) (seen s) !! key_of addr = None.

Definition logged (now : Z) (addr : SocketAddr) (r : result unit) (log : Log) : Log :=
  if is_ok r then log ++ [(key_of addr, now)] else log.

Lemma limiter_tracks_step log s T now order addr :
  iterates order -> limiter_wf s -> tracks log s T -> T <= now ->
  ((forall l, R [] l) \/ ~ crowded now addr s) ->
  tracks (logged now addr (check now order addr s).1 log) (check now order addr s).2 now.
Proof.
  intros Ho (Hw & _) Ht Hnow Hcr. destruct (check_eq now order addr s Ho) as (m' & [Hm _] & E). rewrite Hw in *.
  set (cutoff := now - PEER_RATE_WINDOW) in *. set (m := retain_seen _ _) in *. set (entries := retain_after _ _) in *.
  assert (forall k c, cutoff <= c -> k <> key_of addr -> R (retain_after c (default [] (m' !! k))) (recent k c log)) as Hoth.
  { intros k c Hc Hk. assert (R (retain_after c (default [] (m !! k))) (recent k c log)) as Hold.
    { unfold m. rewrite retain_seen_entries, retain_after_twice by done. apply Ht. lia. }
    destruct Hm as [->|(Hsz & Hnone & Hm)]; [done|]. destruct Hcr as [Hnil|Hcr]; [|by destruct Hcr].
    destruct (Hm k) as [->| ->]; [apply Hnil|done]. }
  assert (forall c, cutoff <= c -> R (retain_after c entries) (recent (key_of addr) c log)) as Hkey.
  { intros c Hc. unfold entries. rewrite retain_after_twice by done. apply Ht. lia. }
  rewrite E. destruct (max s <=? zlen entries); unfold tracks, logged; cbn [fst snd is_ok]; intros k c Hc;
    unfold entries_of; cbn [seen]; destruct (decide (k = key_of addr)) as [->|Hk].
  - rewrite lookup_insert_eq. by apply Hkey.
  - rewrite lookup_insert_ne by done. by apply Hoth.
  - rewrite lookup_insert_eq, recent_same. change (default [] (Some ?l)) with l.
    rewrite retain_after_app. apply R_app, Hkey. done.
  - rewrite lookup_insert_ne, recent_other by done. by apply Hoth.
Qed.
End Tracks.

Lemma recent_peers_elem key c log : key ∈ recent_peers c log <-> recent key c log <> [].
Proof.
  unfold recent_peers, recent. rewrite elem_of_remove_dups, list_elem_of_fmap. split.
  - intros ([k t] & -> & [Ht Hin]%list_elem_of_filter). cbn [fst snd] in *. intros E%map_eq_nil.
    assert ((k, t) ∈ filter (fun e : string * Z => e.1 = k /\ c < e.2) log) as Hf by (by apply list_elem_of_filter).
    rewrite E in Hf. by apply not_elem_of_nil in Hf.
  - intros Hne. destruct (filter _ log) as [|[k t] l] eqn:E; [done|]. exists (k, t).
    assert ((k, t) ∈ filter (fun e : string * Z => e.1 = key /\ c < e.2) log) as Hf by (rewrite E; by left).
    apply list_elem_of_filter in Hf as [[<- Ht] Hin]. split; [done|]. by apply list_elem_of_filter.
Qed.

Lemma tracked_peers log s T now : tracks eq log s T -> T <= now ->
  let m := retain_seen (now - PEER_RATE_WINDOW) (seen s) in
  (forall key, m !! key = None <-> key ∉ recent_peers (now - PEER_RATE_WINDOW) log) /\
  Z.of_nat (size m) = zlen (recent_peers (now - PEER_RATE_WINDOW) log).
Proof.
  intros Ht Hnow m. assert (forall key, m !! key = None <-> key ∉ recent_peers (now - PEER_RATE_WINDOW) log) as Hk.
  { intros key. rewrite recent_peers_elem, <- (Ht key (now - PEER_RATE_WINDOW)) by lia. unfold m, entries_of.
    rewrite retain_seen_lookup. destruct (seen s !! key) as [l|]; [|cbn; naive_solver]. change (default [] (Some l)) with l.
    destruct (retain_after _ l); naive_solver. }
  split; [done|]. rewrite <- size_dom. unfold zlen. f_equal.
  assert (dom m = list_to_set (recent_peers (now - PEER_RATE_WINDOW) log)) as ->.
  { apply set_eq. intros key. rewrite elem_of_list_to_set. rewrite elem_of_dom, <- not_eq_None_Some, Hk.
    split; [|naive_solver]. intros Hn. by apply dec_stable. }
  apply size_list_to_set, NoDup_remove_dups.
Qed.

(** *** Runs *)

(** The clock does not go back. *)
Fixpoint in_order (T : Z) (l : list Attempt) : Prop :=
  match l with [] => True | a :: l => T <= at_now a /\ in_order (at_now a) l end.

(** At every attempt a new peer finds a free place in the window. *)
Definition few_peers (a : Attempt) (log : Log) : Prop :=
  let cutoff := at_now a - PEER_RATE_WINDOW in
  zlen (recent_peers cutoff log) < MAX_QUIC_TRACKED_PEERS \/ key_of (at_addr a) ∈ recent_peers cutoff log.

Fixpoint uncrowded (l : list Attempt) (log : Log) : Prop :=
  match l with [] => True | a :: l => few_peers a log /\ uncrowded l (spec_attempt a log).2 end.

Definition admitted (l : list Attempt) (rs : list (result unit)) : Log :=
  map (fun a => (key_of (at_addr a), at_now a)) (sent l rs).

Lemma admitted_cons a l r rs : admitted (a :: l) (r :: rs) =
  (if is_ok r then [(key_of (at_addr a), at_now a)] else []) ++ admitted l rs.
Proof. unfold admitted, sent. cbn [zip zip_with flat_map]. rewrite map_app. by destruct r. Qed.

Lemma logged_app now addr r log : logged now addr r log = log ++ (if is_ok r then [(key_of addr, now)] else []).
Proof. unfold logged. destruct r; by rewrite ?app_nil_r. Qed.

Lemma sublist_grow (a b x : list Z) : sublist a b -> sublist (a ++ x) (b ++ x).
Proof. intros Hab. by apply sublist_app. Qed.

Lemma run_sound l a log s T :
  Forall (fun a => iterates (at_order a)) l -> in_order T (l ++ [a]) -> limiter_wf s -> tracks sublist log s T ->
  let '(rs, s') := run attempt l s in
  limiter_wf s' /\ exists T', T' <= at_now a /\ tracks sublist (log ++ admitted l rs) s' T'.
Proof.
  revert log s T. induction l as [|b l IH]; intros log s T Hf Hi Hs Ht.
  - cbn. split; [done|]. exists T. rewrite app_nil_r. by destruct Hi.
  - apply Forall_cons in Hf as [Hb Hf]. destruct Hi as [Hbt Hi]. cbn [run].
    pose proof (check_wf (at_now b) (at_order b) (at_addr b) s Hb Hs) as Hs1.
    assert (tracks sublist (logged (at_now b) (at_addr b) (attempt b s).1 log) (attempt b s).2 (at_now b)) as Ht1.
    { apply (limiter_tracks_step sublist sublist_grow log s T); try done.
      left. apply sublist_nil_l. }
    change (check _ _ _ s) with (attempt b s) in Hs1. destruct (attempt b s) as [r s1]. cbn [fst snd] in *.
    specialize (IH _ _ _ Hf Hi Hs1 Ht1). destruct (run attempt l s1) as [rs s']. split; [apply IH|].
    destruct IH as (_ & T' & ? & IH). exists T'. split; [done|]. by rewrite admitted_cons, app_assoc, <- logged_app.
Qed.

(** With few peers the limiter is the sliding window. *)
Lemma attempt_exact log s T a : iterates (at_order a) -> limiter_wf s -> tracks eq log s T -> T <= at_now a -> few_peers a log ->
  let '(r, s1) := attempt a s in
  spec_attempt a log = (is_ok r, logged (at_now a) (at_addr a) r log) /\
  tracks eq (logged (at_now a) (at_addr a) r log) s1 (at_now a).
Proof.
  intros Ho Hs Ht Hnow Hfew. unfold attempt.
  pose proof (limiter_tracks_step eq (fun a b x Hab => f_equal (fun l => l ++ x) Hab) log s T (at_now a) (at_order a) (at_addr a) Ho Hs Ht Hnow) as Hst.
  destruct (check_eq (at_now a) (at_order a) (at_addr a) s Ho) as (m' & _ & E).
  destruct Hs as (Hw & Hx & _). rewrite Hw, Hx in E. rewrite (Ht (key_of (at_addr a)) (at_now a - PEER_RATE_WINDOW)) in E by lia.
  destruct (tracked_peers log s T (at_now a) Ht Hnow) as [Hk Hsz].
  ospecialize (Hst _).
  { right. intros [Hc Hn]. rewrite Hsz in Hc. apply Hk in Hn. by destruct Hfew as [?|?]; [lia|]. }
  destruct (check _ _ _ s) as [r s1] eqn:Ec. split; [|done]. unfold spec_attempt. cbn [fst snd] in *.
  destruct (Z.leb_spec MAX_CONNECTS_PER_PEER_PER_WINDOW (zlen (recent (key_of (at_addr a)) (at_now a - PEER_RATE_WINDOW) log)));
    injection E as -> _.
  - rewrite (proj2 (Z.ltb_ge _ _)) by done. done.
  - rewrite (proj2 (Z.ltb_lt _ _)) by done. done.
Qed.

Lemma run_exact l a log s T :
  Forall (fun a => iterates (at_order a)) l -> in_order T (l ++ [a]) -> limiter_wf s -> tracks eq log s T -> uncrowded (l ++ [a]) log ->
  let '(rs, s') := run attempt l s in
  spec_run ip_text l log = (map is_ok rs, log ++ admitted l rs) /\ limiter_wf s' /\
  few_peers a (log ++ admitted l rs) /\ exists T', T' <= at_now a /\ tracks eq (log ++ admitted l rs) s' T'.
Proof.
  revert log s T. induction l as [|b l IH]; intros log s T Hf Hi Hs Ht Hu.
  - destruct Hu as [Hu _]. cbn [run map admitted]. change (admitted [] []) with (@nil (string * Z)). rewrite app_nil_r.
    split; [done|]. split; [done|]. split; [done|]. exists T. split; [by destruct Hi|done].
  - apply Forall_cons in Hf as [Hb Hf]. destruct Hi as [Hbt Hi]. destruct Hu as [Hfew Hu]. cbn [run spec_run].
    pose proof (check_wf (at_now b) (at_order b) (at_addr b) s Hb Hs) as Hs1.
    pose proof (attempt_exact log s T b Hb Hs Ht Hbt Hfew) as Hst.
    change (check _ _ _ s) with (attempt b s) in Hs1. destruct (attempt b s) as [r s1]. destruct Hst as [Esp Ht1].
    change (uncrowded (l ++ [a]) (spec_attempt b log).2) in Hu. rewrite Esp in *. cbn [fst snd] in *.
    specialize (IH _ _ _ Hf Hi Hs1 Ht1 Hu). destruct (run attempt l s1) as [rs s'].
    rewrite admitted_cons, app_assoc, <- logged_app. destruct IH as (-> & ?). done.
Qed.

Lemma requires_cookie_entries addr s :
  requires_cookie ip_text addr s = (COOKIE_CHALLENGE_THRESHOLD <=? zlen (entries_of s (key_of addr))).
Proof. unfold requires_cookie, entries_of. by destruct (seen s !! key_of addr). Qed.

(** After an attempt the entries of its peer are those of the window. *)
Lemma entries_after now order addr s : iterates order -> window s = PEER_RATE_WINDOW ->
  let s' := (check now order addr s).2 in
  let cutoff := now - PEER_RATE_WINDOW in
  retain_after cutoff (entries_of s' (key_of addr)) = entries_of s' (key_of addr).
Proof.
  intros Ho Hw s' cutoff. unfold s'. destruct (check_eq now order addr s Ho) as (m' & _ & E). rewrite E, Hw. fold cutoff.
  set (entries := retain_after cutoff (entries_of s (key_of addr))). assert (retain_after cutoff entries = entries) as Hr by (by apply retain_after_twice).
  destruct (max s <=? zlen entries); unfold entries_of; cbn [seen snd]; rewrite lookup_insert_eq; change (default [] (Some ?l)) with l.
  - done.
  - rewrite retain_after_app, Hr. f_equal. unfold retain_after. rewrite filter_cons_True; [done|].
    unfold cutoff, PEER_RATE_WINDOW, NANOS. lia.
Qed.

Lemma cookie_count (R : relation (list Z)) log now order addr s : iterates order -> window s = PEER_RATE_WINDOW ->
  let s' := (check now order addr s).2 in
  tracks R log s' now ->
  R (entries_of s' (key_of addr)) (recent (key_of addr) (now - PEER_RATE_WINDOW) log).
Proof.
  intros Ho Hw s' Ht. unfold s'. rewrite <- (entries_after now order addr s Ho Hw). apply Ht. lia.
Qed.

Lemma refusal log s T a : iterates (at_order a) -> limiter_wf s -> tracks sublist log s T -> T <= at_now a ->
  (attempt a s).1 = Ok () \/
  (exists e, (attempt a s).1 = Err e) /\
  MAX_CONNECTS_PER_PEER_PER_WINDOW <= zlen (recent (key_of (at_addr a)) (at_now a - PEER_RATE_WINDOW) log).
Proof.
  intros Ho (Hw & Hx & _) Ht Hnow. unfold attempt.
  destruct (check_eq (at_now a) (at_order a) (at_addr a) s Ho) as (m' & _ & ->). rewrite Hw, Hx.
  set (entries := retain_after _ _). assert (sublist entries (recent (key_of (at_addr a)) (at_now a - PEER_RATE_WINDOW) log)) as Hsub.
  { apply Ht. lia. }
  apply sublist_length in Hsub. destruct (Z.leb_spec MAX_CONNECTS_PER_PEER_PER_WINDOW (zlen entries)); [right|by left].
  split; [by eexists|]. unfold zlen in *. lia.
Qed.

Lemma window_size (s : PeerRateLimiter) : limiter_wf s -> window s = PEER_RATE_WINDOW.
Proof. by intros [? _]. Qed.

Lemma new_wf : limiter_wf PeerRateLimiter_new.
Proof. split; [done|]. split; [done|]. split; [by_compute|]. intros key l E. cbn [seen PeerRateLimiter_new] in E. by rewrite lookup_empty in E. Qed.

Lemma new_tracks (R : relation (list Z)) T : R [] [] -> tracks R [] PeerRateLimiter_new T.
Proof. intros Hr key c _. unfold entries_of. cbn [seen PeerRateLimiter_new]. by rewrite lookup_empty. Qed.

(** *** The specification's bound *)

Definition in_window (key : string) (t : Z) (log : Log) : list Z :=
  filter (fun x => x <= t) (recent key (t - PEER_RATE_WINDOW) log).

Lemma recent_mono key c c' log : c <= c' -> zlen (recent key c' log) <= zlen (recent key c log).
Proof.
  intros Hc. unfold recent, zlen. rewrite !length_map. apply inj_le, sublist_length.
  induction log as [|[k t] log IH]; [done|]. destruct (decide (k = key /\ c' < t)) as [Hd|Hd].
  - rewrite !filter_cons_True by (cbn; naive_solver lia). by apply sublist_skip.
  - rewrite (filter_cons_False _ (k, t)) by done. etrans; [exact IH|].
    destruct (decide (k = key /\ c < t)); [rewrite filter_cons_True by done; by apply sublist_cons|by rewrite filter_cons_False].
Qed.

Lemma spec_run_app l l' log : spec_run ip_text (l ++ l') log =
  ((spec_run ip_text l log).1 ++ (spec_run ip_text l' (spec_run ip_text l log).2).1, (spec_run ip_text l' (spec_run ip_text l log).2).2).
Proof.
  revert log. induction l as [|a l IH]; intros log; cbn [app spec_run fst snd]; [by destruct (spec_run _ l' log)|].
  destruct (spec_attempt a log) as [b log1]. rewrite IH. destruct (spec_run ip_text l log1) as [bs log2]. done.
Qed.

Lemma spec_bounded l log : (forall key t, zlen (in_window key t log) <= MAX_CONNECTS_PER_PEER_PER_WINDOW) ->
  forall key t, zlen (in_window key t (spec_run ip_text l log).2) <= MAX_CONNECTS_PER_PEER_PER_WINDOW.
Proof.
  revert log. induction l as [|a l IH]; intros log Hl; [done|]. cbn [spec_run].
  destruct (spec_attempt a log) as [b log1] eqn:E. specialize (IH log1). destruct (spec_run ip_text l log1). cbn [snd] in *. apply IH.
  intros key t. unfold spec_attempt in E. destruct (Z.ltb_spec (zlen (recent (key_of (at_addr a)) (at_now a - PEER_RATE_WINDOW) log))
    MAX_CONNECTS_PER_PEER_PER_WINDOW) as [Hlt|]; injection E as _ <-; [|apply Hl].
  specialize (Hl key t). unfold in_window in *. rewrite recent_snoc, filter_app.
  destruct (decide (key_of (at_addr a) = key /\ t - PEER_RATE_WINDOW < at_now a)) as [[Hk Ht]|Hd];
    [|rewrite (bool_decide_eq_false_2 _ Hd); by rewrite app_nil_r].
  rewrite (bool_decide_eq_true_2 _ (conj Hk Ht)). subst key. rewrite zlen_app.
  destruct (decide (at_now a <= t)) as [Hle|]; [|rewrite filter_cons_False by done; unfold zlen in *; cbn; lia].
  rewrite filter_cons_True by done.
  pose proof (recent_mono (key_of (at_addr a)) (at_now a - PEER_RATE_WINDOW) (t - PEER_RATE_WINDOW) log ltac:(lia)).
  set (r := recent _ (t - _) log) in *. pose proof (length_filter (fun x => x <= t) r).
  unfold zlen, MAX_CONNECTS_PER_PEER_PER_WINDOW in *. cbn. lia.
Qed.
End LimiterLemmas.

(** ** Properties *)

(** C27: the connection limiter.  After any attempts [l] with a clock that does
    not go back, and whatever order the hash map is iterated in, the state is
    bounded (at most 1024 peers, one to eight instants each).  The next attempt
    [a] never panics; it is refused only if eight connects of its address were
    let through in the last ten seconds, and asks for a cookie only if four
    were, itself included: an eviction makes the limiter forget, never accuse.
    As long as a new address always finds a free place, the limiter takes
    exactly the decisions of a sliding window over the whole log: no more than
    eight connects of one address in any ten seconds, and a cookie from the
    fourth on. *)
Theorem rate_limiter_refines ip_text duration_text l a T :
  Forall (fun a => iterates (at_order a)) (l ++ [a]) -> in_order T (l ++ [a]) ->
  let key := ip_text (ip (at_addr a)) in
  let cutoff := at_now a - PEER_RATE_WINDOW in
  let '(rs, s) := run (attempt ip_text duration_text) l PeerRateLimiter_new in
  let '(r, s') := attempt ip_text duration_text a s in
  let log := admitted ip_text l rs in
  let log' := logged ip_text (at_now a) (at_addr a) r log in
  limiter_wf s' /\ r <> Panic /\
  (r <> Ok () -> MAX_CONNECTS_PER_PEER_PER_WINDOW <= zlen (recent key cutoff log)) /\
  (requires_cookie ip_text (at_addr a) s' = true -> COOKIE_CHALLENGE_THRESHOLD <= zlen (recent key cutoff log')) /\
  (uncrowded ip_text (l ++ [a]) [] ->
   spec_run ip_text (l ++ [a]) [] = (map is_ok (rs ++ [r]), log') /\
   (requires_cookie ip_text (at_addr a) s' = true <-> COOKIE_CHALLENGE_THRESHOLD <= zlen (recent key cutoff log')) /\
   forall peer t, zlen (in_window peer t log') <= MAX_CONNECTS_PER_PEER_PER_WINDOW).
Proof.
  intros [Hf Ha]%Forall_app Hi key cutoff. apply Forall_cons in Ha as [Ha _].
  pose proof (run_sound ip_text duration_text l a [] _ T Hf Hi new_wf (new_tracks sublist T sublist_nil)) as Hs.
  pose proof (run_exact ip_text duration_text l a [] _ T Hf Hi new_wf (new_tracks eq T eq_refl)) as He.
  destruct (run (attempt ip_text duration_text) l PeerRateLimiter_new) as [rs s].
  destruct Hs as (Hw & T1 & HT1 & Ht). rewrite app_nil_l in *. set (log := admitted ip_text l rs) in *.
  pose proof (check_wf ip_text duration_text (at_now a) (at_order a) (at_addr a) s Ha Hw) as Hw1.
  pose proof (limiter_tracks_step ip_text duration_text sublist sublist_grow log s T1 (at_now a) (at_order a) (at_addr a) Ha Hw Ht HT1
    (or_introl sublist_nil_l)) as Ht1.
  pose proof (cookie_count ip_text duration_text sublist _ (at_now a) (at_order a) (at_addr a) s Ha (window_size s Hw) Ht1) as Hc.
  pose proof (refusal ip_text duration_text log s T1 a Ha Hw Ht HT1) as Hr.
  change (check_and_record _ _ _ _ _ s) with (attempt ip_text duration_text a s) in *.
  assert (forall R, tracks R (logged ip_text (at_now a) (at_addr a) (attempt ip_text duration_text a s).1 log)
    (attempt ip_text duration_text a s).2 (at_now a) -> R (entries_of (attempt ip_text duration_text a s).2 key)
      (recent key cutoff (logged ip_text (at_now a) (at_addr a) (attempt ip_text duration_text a s).1 log))) as Hcount.
  { intros R. apply (cookie_count ip_text duration_text R); [done|by apply window_size]. }
  clear Hc. pose proof (requires_cookie_entries ip_text (at_addr a) (attempt ip_text duration_text a s).2) as Hq. fold key in Hq.
  assert (uncrowded ip_text (l ++ [a]) [] -> spec_run ip_text (l ++ [a]) [] =
    (map is_ok (rs ++ [(attempt ip_text duration_text a s).1]), logged ip_text (at_now a) (at_addr a) (attempt ip_text duration_text a s).1 log) /\
    tracks eq (logged ip_text (at_now a) (at_addr a) (attempt ip_text duration_text a s).1 log) (attempt ip_text duration_text a s).2 (at_now a)) as Hx.
  { intros Hu. destruct (He Hu) as (Esp & _ & Hfew & T2 & HT2 & Ht2). rewrite spec_run_app, Esp. cbn [fst snd spec_run].
    pose proof (attempt_exact ip_text duration_text log s T2 a Ha Hw Ht2 HT2 Hfew) as Hstep.
    destruct (attempt ip_text duration_text a s) as [r s']. destruct Hstep as [-> Ht3]. rewrite map_app. done. }
  destruct (attempt ip_text duration_text a s) as [r s']. cbn [fst snd] in *.
  split; [done|]. split; [by destruct Hr as [->|[[e ->] _]]|]. split; [by destruct Hr as [->|[_ ?]]|]. split; [|intros Hu; specialize (Hx Hu) as [Hx Ht3]; split; [done|split]].
  - rewrite Hq. intros Hle%Z.leb_le. specialize (Hcount _ Ht1). apply sublist_length in Hcount. unfold zlen in *. lia.
  - rewrite Hq, Z.leb_le. by rewrite (Hcount _ Ht3).
  - intros peer t. pose proof (spec_bounded ip_text duration_text (l ++ [a]) [] (fun _ _ => ltac:(by_compute)) peer t) as Hb. by rewrite Hx in Hb.
Qed.

(** ** Witnesses *)

Module Witnesses.
Import Cookie.Witnesses.

Definition ip_text (a : IpAddr) : string := match a with IpV4 l => "v4 " +:+ hex_encode l | IpV6 l => "v6 " +:+ hex_encode l end.
Definition duration_text (d : Z) : string := show (d / NANOS) +:+ "s".

Definition connect (addr : SocketAddr) (second : Z) : Attempt := mkAttempt addr (second * NANOS) map_to_list.

(** Eight connects of one address in two seconds, one of another; the ninth of
    the first address is refused while the window lasts. *)
Definition burst : list Attempt :=
  map (connect client) [100; 100; 100; 101; 101; 101; 102; 102] ++ [connect other 103].

Definition after_burst : list (result unit) * PeerRateLimiter := run (attempt ip_text duration_text) burst PeerRateLimiter_new.

Lemma rate_limiter_refines_witness :
  forallb is_ok after_burst.1 = true /\
  requires_cookie ip_text client after_burst.2 = true /\ requires_cookie ip_text other after_burst.2 = false /\
  is_ok (attempt ip_text duration_text (connect client 110) after_burst.2).1 = true /\
  is_err (attempt ip_text duration_text (connect client 109) after_burst.2).1 = true /\
  MAX_CONNECTS_PER_PEER_PER_WINDOW
    <= zlen (recent (ip_text (ip client)) (109 * NANOS - PEER_RATE_WINDOW) (admitted ip_text burst after_burst.1)).
Proof.
  do 5 (split; [vm_compute; reflexivity|]).
  pose proof (rate_limiter_refines ip_text duration_text burst (connect client 109) 0) as Hp.
  ospecialize (Hp _ _); [repeat (apply Forall_cons; split; [intros m; reflexivity|]); apply Forall_nil; done| |].
  { repeat (split; [vm_compute; discriminate|]). exact I. }
  change (run _ burst _) with after_burst in Hp. rewrite (surjective_pairing after_burst) in Hp.
  rewrite (surjective_pairing (attempt _ _ _ _)) in Hp. destruct Hp as (_ & _ & Hp & _). apply Hp.
  intros E. assert (is_ok (attempt ip_text duration_text (connect client 109) after_burst.2).1 = false) as E2 by (vm_compute; reflexivity).
  by rewrite E in E2.
Defined.
End Witnesses.
