(* ===== verification/AcceptLoop.v ===== *)
(** The accept loop of the TCP handshake
    ([tcp_accept_and_handshake_with_profile] and [finish_tcp_worker] in
    shph-transport/src/lib.rs): it limits the connects of every address, runs at
    most sixteen handshake workers at a time and returns the first session.
    Its threads are interleaved by a schedule: one move is one atomic action of
    the loop or the end of one worker. *)
From S2P Require Import Net.
From S2P Require Import Prelude Error Text Primitives SessionCrypto.
From S2P Require Import PhantomOne TcpTransport Handshake Cookie TcpIo HelloJson Dialogue TcpHandshake RateLimiter.

Definition MAX_CONCURRENT_TCP_HANDSHAKES : Z := 16.
Definition TCP_HANDSHAKE_DEADLINE : Z := 60 * NANOS.

(** ** Data *)

(** A worker's session: the stream it owns, named by the index of the worker,
    and its handshake state. *)
Notation Session := (nat * HandshakeState)%type.

(** The variables of the function ([limiter] to [last_err]), the results in the
    channel, oldest first, and the threads: every worker spawned so far with
    its [peer_addr] and [requires_cookie], and the indices of those that run.
    [parked]: the loop is inside [recv_timeout]; [returned]: what the function
    has returned.  [connects] records the connections accepted, for the
    theorems; the code keeps no such list. *)
Record Acceptor := mkAcceptor {
  limiter : PeerRateLimiter;
  cancellation : bool;
  active_workers : Z;
  last_err : option ShphError;
  channel : list (result Session);
  workers : list (SocketAddr * bool);
  running : list nat;
  parked : bool;
  returned : option (result Session);
  connects : list Attempt
}.

(** What [listener.accept] yields: no peer yet ([WouldBlock]), another error
    (its text), or a connection: the outcome of [set_nonblocking(false)], the
    attempt the limiter sees, and whether the thread could be spawned. *)
Inductive Incoming :=
  | NoPeer
  | Broken (msg : string)
  | Peer (blocking : result unit) (a : Attempt) (spawned : bool).

Inductive Move :=
  | Turn (now : Z) (incoming : Incoming)
  | WorkerEnds (w : nat) (outcome : result HandshakeState).

(** *** Field updates *)

Definition return_with (r : result Session) (s : Acceptor) : Acceptor :=
  mkAcceptor (limiter s) (cancellation s) (active_workers s) (last_err s) (channel s) (workers s) (running s) (parked s) (Some r) (connects s).
Definition cancel (s : Acceptor) : Acceptor :=
  mkAcceptor (limiter s) true (active_workers s) (last_err s) (channel s) (workers s) (running s) (parked s) (returned s) (connects s).
Definition set_last_err (e : ShphError) (s : Acceptor) : Acceptor :=
  mkAcceptor (limiter s) (cancellation s) (active_workers s) (Some e) (channel s) (workers s) (running s) (parked s) (returned s) (connects s).
Definition set_active (n : Z) (s : Acceptor) : Acceptor :=
  mkAcceptor (limiter s) (cancellation s) n (last_err s) (channel s) (workers s) (running s) (parked s) (returned s) (connects s).
Definition set_channel (q : list (result Session)) (s : Acceptor) : Acceptor :=
  mkAcceptor (limiter s) (cancellation s) (active_workers s) (last_err s) q (workers s) (running s) (parked s) (returned s) (connects s).
Definition set_parked (b : bool) (s : Acceptor) : Acceptor :=
  mkAcceptor (limiter s) (cancellation s) (active_workers s) (last_err s) (channel s) (workers s) (running s) b (returned s) (connects s).
Definition set_limiter (l : PeerRateLimiter) (a : Attempt) (s : Acceptor) : Acceptor :=
  mkAcceptor l (cancellation s) (active_workers s) (last_err s) (channel s) (workers s) (running s) (parked s) (returned s) (connects s ++ [a]).
Definition add_worker (peer : SocketAddr) (requires_cookie : bool) (s : Acceptor) : Acceptor :=
  mkAcceptor (limiter s) (cancellation s) (active_workers s) (last_err s) (channel s) (workers s ++ [(peer, requires_cookie)])
    (running s ++ [length (workers s)]) (parked s) (returned s) (connects s).
Definition end_worker (w : nat) (s : Acceptor) : Acceptor :=
  mkAcceptor (limiter s) (cancellation s) (active_workers s) (last_err s) (channel s) (workers s)
    (filter (fun i => i <> w) (running s)) (parked s) (returned s) (connects s).

(** ** The loop *)

Definition finish_tcp_worker (r : result Session) (s : Acceptor) : option (result Session) * Acceptor :=
  let s := set_active (saturating_sub (active_workers s) 1) s in
  match r with
  | Ok session => (Some (Ok session), cancel s)
  | Err error => (None, set_last_err error s)
  | Panic => (None, s)
  end.

(** A result arrives: [if let Some(result) = finish_tcp_worker(..) { return result; }] *)
Definition take_result (r : result Session) (q : list (result Session)) (s : Acceptor) : Acceptor :=
  let '(out, s) := finish_tcp_worker r (set_channel q s) in
  match out with Some result => return_with result s | None => s end.

(** [recv_timeout] ends: with a result, or because the time is over.  The loop
    keeps a sender of its own, so the channel is never disconnected. *)
Definition wake (s : Acceptor) : Acceptor :=
  let s := set_parked false s in
  match channel s with
  | r :: q => take_result r q s
  | [] => s
  end.

Section Loop.
Context (ip_text : IpAddr -> string) (duration_text : Z -> string).

Definition accept_peer (incoming : Incoming) (s : Acceptor) : Acceptor :=
  match incoming with
  | NoPeer => set_parked true s
  | Broken msg => return_with (Err (Transport msg)) s
  | Peer blocking a spawned =>
      match blocking with
      | Ok _ =>
          let '(r, l) := attempt ip_text duration_text a (limiter s) in
          let s := set_limiter l a s in
          match r with
          | Ok _ =>
              let requires_cookie := requires_cookie ip_text (at_addr a) (limiter s) in
              let s := set_active (active_workers s + 1) s in
              if spawned then add_worker (at_addr a) requires_cookie s else return_with Panic s
          | Err err => set_last_err err s
          | Panic => return_with Panic s
          end
      | Err e => return_with (Err e) s
      | Panic => return_with Panic s
      end
  end.

(** One atomic action of the loop: the end of a wait, or the head of the loop up
    to the call of [recv_timeout] or the next head. *)
Definition loop_turn (deadline now : Z) (incoming : Incoming) (s : Acceptor) : Acceptor :=
  if parked s then wake s
  else if now <? deadline then
    match channel s with
    | r :: q => take_result r q s
    | [] => if MAX_CONCURRENT_TCP_HANDSHAKES <=? active_workers s then set_parked true s else accept_peer incoming s
    end
  else
    let s := cancel s in
    return_with (Err (default Timeout (last_err s))) s.

(** The end of a worker's thread: it raises the flag if it has a session and
    sends its result, in vain when the loop has returned; a panic sends nothing. *)
Definition worker_ends (w : nat) (outcome : result HandshakeState) (s : Acceptor) : Acceptor :=
  if bool_decide (w ∈ running s) then
    let s := end_worker w s in
    let s := if is_ok outcome then cancel s else s in
    match returned s, outcome with
    | None, Ok st => set_channel (channel s ++ [Ok (w, st)]) s
    | None, Err e => set_channel (channel s ++ [Err e]) s
    | _, _ => s
    end
  else s.

Definition accept_move (deadline : Z) (m : Move) (s : Acceptor) : Acceptor :=
  match m with
  | Turn now incoming => match returned s with None => loop_turn deadline now incoming s | Some _ => s end
  | WorkerEnds w outcome => worker_ends w outcome s
  end.

Definition accept_run (deadline : Z) (l : list Move) (s : Acceptor) : Acceptor :=
  fold_left (fun s m => accept_move deadline m s) l s.

Definition acceptor_new : Acceptor := mkAcceptor PeerRateLimiter_new false 0 None [] [] [] false None [].

(** The part of [tcp_accept_and_handshake_with_profile] before the loop. *)
Definition accept_start {R} `{RngOps R} (bound nonblocking : result unit) (now : option Z) (r : R)
    : result (Acceptor * StatelessCookieAuthority) * R :=
  match bound, nonblocking with
  | Ok _, Ok _ => let! authority, r := authority_new now r in (Ok (acceptor_new, authority), r)
  | Ok _, Err e => (Err e, r)
  | Err e, _ => (Err e, r)
  | _, _ => (Panic, r)
  end.

(** [tcp_handshake_deadline] *)
Definition tcp_handshake_deadline (now timeout_secs : Z) : Z :=
  now + Z.min TCP_HANDSHAKE_DEADLINE (Z.max (NANOS / 1000) (Z.max timeout_secs 1 * NANOS)).

(** The workers of the connections that the limiter lets through. *)
Fixpoint spawned_for (l : list Attempt) (s : PeerRateLimiter) : list (SocketAddr * bool) :=
  match l with
  | [] => []
  | a :: l =>
      let '(r, s) := attempt ip_text duration_text a s in
      (if is_ok r then [(at_addr a, requires_cookie ip_text (at_addr a) s)] else []) ++ spawned_for l s
  end.

(** ** Lemmas: the invariant *)

Notation move := (accept_move).
Notation limited l := ((run (attempt ip_text duration_text) l PeerRateLimiter_new).2).

(** Where a session can be. *)
Definition ended_with (l : list Move) (s : Acceptor) (x : Session) : Prop :=
  WorkerEnds x.1 (Ok x.2) ∈ l /\ (x.1 < length (workers s))%nat /\ x.1 ∉ running s.

Record accept_inv (l : list Move) (s : Acceptor) : Prop := {
  inv_limiter : limiter s = limited (connects s);
  inv_workers : workers s = spawned_for (connects s) PeerRateLimiter_new \/
    (returned s = Some Panic /\ exists x, spawned_for (connects s) PeerRateLimiter_new = workers s ++ [x]);
  inv_active : zlen (running s) + zlen (channel s) <= active_workers s <= MAX_CONCURRENT_TCP_HANDSHAKES;
  inv_running : NoDup (running s) /\ Forall (fun w => (w < length (workers s))%nat) (running s);
  inv_channel : forall r, r ∈ channel s -> match r with Ok x => ended_with l s x /\ cancellation s = true | Err _ => True | Panic => False end;
  inv_returned : forall x, returned s = Some (Ok x) -> ended_with l s x /\ cancellation s = true
}.

Lemma spawned_for_app l l' s :
  spawned_for (l ++ l') s = spawned_for l s ++ spawned_for l' (run (attempt ip_text duration_text) l s).2.
Proof.
  revert s. induction l as [|a l IH]; intros s; [done|]. cbn [app spawned_for]. rewrite run_cons. cbn [snd].
  destruct (attempt ip_text duration_text a s) as [r s1]. cbn [snd]. by rewrite IH, app_assoc.
Qed.

Lemma ended_mono l l' s x : ended_with l s x -> ended_with (l ++ l') s x.
Proof. intros (? & ? & ?). split; [|done]. apply elem_of_app. by left. Qed.

Lemma inv_more l l' s : accept_inv l s -> accept_inv (l ++ l') s.
Proof.
  intros [? ? ? ? Hc Hr]. split; try done.
  - intros r Hin. specialize (Hc r Hin). destruct r; [|done..]. destruct Hc. split; [by apply ended_mono|done].
  - intros x Hx. destruct (Hr x Hx). split; [by apply ended_mono|done].
Qed.

(** A result is taken from the channel. *)
Lemma inv_take l s r q : returned s = None -> channel s = r :: q -> accept_inv l s -> accept_inv l (take_result r q s).
Proof.
  intros Hr Hc [? Hw Ha ? Hch ?]. rewrite Hr in Hw. assert (workers s = spawned_for (connects s) PeerRateLimiter_new) as Hw' by naive_solver. rewrite Hc in Ha, Hch. rewrite zlen_cons in Ha. pose proof (zlen_nonneg (running s)). pose proof (zlen_nonneg q).
  assert (saturating_sub (active_workers s) 1 = active_workers s - 1) as Hs by (unfold saturating_sub; lia).
  pose proof (Hch r (list_elem_of_here _ _)) as Hx.
  destruct r as [x|e|]; [|..|done]; unfold take_result; cbn [finish_tcp_worker]; split; cbn; try done; try (by left); try (rewrite Hs; lia).
  - intros r Hin. apply (list_elem_of_further _ (Ok x)) in Hin. specialize (Hch r Hin). destruct r; [|done..]. by destruct Hch.
  - intros y [= <-]. by destruct Hx.
  - intros r Hin. apply (list_elem_of_further _ (Err e)) in Hin. by apply (Hch r).
Qed.

(** Changes that keep the invariant. *)
Lemma inv_cancel l s : accept_inv l s -> accept_inv l (cancel s).
Proof.
  intros [? ? ? ? Hc Hr]. split; try done.
  - intros r Hin. specialize (Hc r Hin). destruct r; [|done..]. by destruct Hc.
  - intros x Hx. by destruct (Hr x Hx).
Qed.

Lemma inv_set_parked b l s : accept_inv l s -> accept_inv l (set_parked b s).
Proof. by intros []. Qed.

Lemma inv_return l s r : returned s = None -> (forall x, r <> Ok x) -> accept_inv l s -> accept_inv l (return_with r s).
Proof.
  intros Hn Hr [? Hw]. rewrite Hn in Hw. split; try done; [left; naive_solver|]. intros x [= ->]. by destruct (Hr x).
Qed.

Lemma limited_snoc l a : limited (l ++ [a]) = (attempt ip_text duration_text a (limited l)).2.
Proof. by rewrite run_app_snd, run_cons. Qed.

Lemma spawned_snoc l a s : spawned_for (l ++ [a]) s = spawned_for l s ++
  (let '(r, s) := attempt ip_text duration_text a (run (attempt ip_text duration_text) l s).2 in
   if is_ok r then [(at_addr a, requires_cookie ip_text (at_addr a) s)] else []).
Proof. rewrite spawned_for_app. cbn [spawned_for]. destruct (attempt _ _ _ _). by rewrite app_nil_r. Qed.

(** A connection is accepted. *)
Lemma inv_accept l s incoming : returned s = None -> channel s = [] -> active_workers s < MAX_CONCURRENT_TCP_HANDSHAKES ->
  accept_inv l s -> accept_inv l (accept_peer incoming s).
Proof.
  intros Hr Hc Hlt Hi. destruct incoming as [|msg|[[]|e|] a spawned]; cbn [accept_peer]; [by apply inv_set_parked|by apply inv_return| |by apply inv_return..].
  destruct Hi as [Hl Hw Ha [Hn Hlen] Hch Hret]. assert (workers s = spawned_for (connects s) PeerRateLimiter_new) as Hw' by naive_solver.
  pose proof (limited_snoc (connects s) a) as Hls. pose proof (spawned_snoc (connects s) a PeerRateLimiter_new) as Hsp.
  rewrite <- Hl in Hls, Hsp. rewrite <- Hw' in Hsp. rewrite Hc in Ha, Hch.
  destruct (attempt ip_text duration_text a (limiter s)) as [[[]|e|] lim] eqn:E; cbn [is_ok fst snd] in *.
  - destruct spawned; cbn [limiter set_limiter active_workers]; split; cbn; rewrite ?Hc; try done.
    + by left.
    + unfold zlen in *. rewrite length_app. cbn. lia.
    + rewrite length_app. cbn. split.
      * apply NoDup_app. split; [done|]. split; [|apply NoDup_singleton]. intros w Hin Hw2%list_elem_of_singleton. subst w.
        rewrite Forall_forall in Hlen. specialize (Hlen _ Hin). lia.
      * apply Forall_app. split; [|repeat constructor; lia]. eapply Forall_impl; [exact Hlen|]. cbn. lia.
    + intros r Hin. by apply not_elem_of_nil in Hin.
    + intros x Hx. congruence.
    + right. split; [done|]. by eexists.
    + lia.
  - split; cbn; rewrite ?Hc; try done. left. by rewrite app_nil_r in Hsp.
  - split; cbn; rewrite ?Hc; try done. left. by rewrite app_nil_r in Hsp.
Qed.

(** A worker ends and sends its result. *)
Lemma inv_send l s r : accept_inv l s -> zlen (running s) + zlen (channel s) < active_workers s ->
  match r with Ok x => ended_with l s x /\ cancellation s = true | Err _ => True | Panic => False end ->
  accept_inv l (set_channel (channel s ++ [r]) s).
Proof.
  intros [? ? Ha ? Hch ?] Hlt Hr. split; cbn; try done; [rewrite zlen_app; unfold zlen in *; cbn; lia|].
  intros r' [Hin|Hin%list_elem_of_singleton]%elem_of_app; [by apply Hch|by subst].
Qed.

Lemma inv_end_worker l s w : accept_inv l s -> w ∈ running s ->
  accept_inv l (end_worker w s) /\ zlen (running (end_worker w s)) < zlen (running s) /\
  (w < length (workers s))%nat /\ w ∉ running (end_worker w s).
Proof.
  intros [? ? Ha [Hn Hlen] Hch Hret] Hw. rewrite Forall_forall in Hlen.
  assert (zlen (running (end_worker w s)) < zlen (running s)) as Hlt.
  { apply inj_lt. apply length_filter_lt with w; [done|]. by intros ?. }
  assert (forall x, ended_with l s x -> ended_with l (end_worker w s) x) as Hend.
  { intros x (? & ? & Hx). split; [done|]. split; [done|]. cbn. by intros [_ ?]%list_elem_of_filter. }
  split; [split|split; [done|split; [by apply Hlen|]]]; cbn; try done.
  - unfold zlen in *. cbn in Hlt. lia.
  - split; [by apply NoDup_filter|]. apply Forall_forall. intros i [_ Hi]%list_elem_of_filter. by apply Hlen.
  - intros r Hin. specialize (Hch r Hin). destruct r; [|done..]. destruct Hch. split; [by apply Hend|done].
  - intros x Hx. destruct (Hret x Hx). split; [by apply Hend|done].
  - intros [? _]%list_elem_of_filter. done.
Qed.

Lemma inv_worker l s w outcome : accept_inv l s -> accept_inv (l ++ [WorkerEnds w outcome]) (worker_ends w outcome s).
Proof.
  intros Hi. apply (inv_more l [WorkerEnds w outcome]) in Hi. unfold worker_ends. case_bool_decide as Hw; [|done].
  set (l' := l ++ _) in *. destruct (inv_end_worker l' s w Hi Hw) as (Hi1 & Hlt & Hb & Hnot).
  pose proof (inv_active _ _ Hi) as [Ha _].
  assert (accept_inv l' (if is_ok outcome then cancel (end_worker w s) else end_worker w s)) as Hi2.
  { destruct (is_ok outcome); [by apply inv_cancel|done]. }
  assert (WorkerEnds w outcome ∈ l') as Hin by (apply elem_of_app; right; by left).
  destruct outcome as [st|e|]; cbn [is_ok] in *; [..|by destruct (returned _)].
  - change (returned (cancel (end_worker w s))) with (returned s). destruct (returned s); [done|].
    apply inv_send; [done|cbn in *; lia|done].
  - change (returned (end_worker w s)) with (returned s). destruct (returned s); [done|].
    apply inv_send; [done|cbn in *; lia|done].
Qed.

Lemma inv_turn l s deadline now incoming : returned s = None -> accept_inv l s ->
  accept_inv l (loop_turn deadline now incoming s).
Proof.
  intros Hr Hi. unfold loop_turn. destruct (parked s).
  - unfold wake. cbn [channel set_parked]. destruct (channel s) as [|r q] eqn:Hc; [by apply inv_set_parked|].
    apply inv_take; [done..|]. by apply inv_set_parked.
  - destruct (now <? deadline); [|by apply inv_return, inv_cancel].
    destruct (channel s) as [|r q] eqn:Hc; [|by apply inv_take].
    destruct (Z.leb_spec MAX_CONCURRENT_TCP_HANDSHAKES (active_workers s)); [by apply inv_set_parked|by apply inv_accept].
Qed.

Lemma inv_new : accept_inv [] acceptor_new.
Proof.
  split; try done; [by left|split; [constructor|constructor]|].
  intros r Hin. by apply not_elem_of_nil in Hin.
Qed.

Lemma accept_run_snoc deadline l m s : accept_run deadline (l ++ [m]) s = move deadline m (accept_run deadline l s).
Proof. unfold accept_run. by rewrite fold_left_app. Qed.

Lemma inv_run deadline l : accept_inv l (accept_run deadline l acceptor_new).
Proof.
  induction l as [|m l IH] using rev_ind; [apply inv_new|]. rewrite accept_run_snoc.
  destruct m as [now incoming|w outcome]; [|by apply inv_worker]. apply inv_more. cbn [accept_move].
  destruct (returned _) eqn:Hr; [done|]. by apply inv_turn.
Qed.

(** ** Lemmas: progress *)

Definition is_turn (m : Move) : bool := match m with Turn _ _ => true | _ => false end.
Definition turns (l : list Move) : Z := zlen (filter (fun m => is_turn m = true) l).

(** Every turn of the loop reads the clock before the deadline; or after. *)
Definition before (deadline : Z) (m : Move) : Prop := match m with Turn now _ => now < deadline | _ => True end.
Definition late (deadline : Z) (m : Move) : Prop := match m with Turn now _ => deadline <= now | _ => True end.

Lemma turns_cons m l : turns (m :: l) = (if is_turn m then 1 else 0) + turns l.
Proof.
  unfold turns. destruct (is_turn m) eqn:E; [rewrite filter_cons_True by done; by rewrite zlen_cons|].
  rewrite filter_cons_False by congruence. lia.
Qed.

Lemma worker_keeps w outcome s :
  returned (worker_ends w outcome s) = returned s /\ parked (worker_ends w outcome s) = parked s /\
  exists more, channel (worker_ends w outcome s) = channel s ++ more.
Proof.
  unfold worker_ends. case_bool_decide; [|split; [done|split; [done|exists []; by rewrite app_nil_r]]].
  destruct outcome as [st|e|]; cbn [is_ok]; cbn [cancel end_worker returned]; destruct (returned s) eqn:Hr;
    (split; [exact Hr|split; [done|]]); first [by exists []; rewrite app_nil_r|by eexists].
Qed.

Lemma returned_stays deadline l s r : returned s = Some r -> returned (accept_run deadline l s) = Some r.
Proof.
  revert s. induction l as [|m l IH]; intros s Hr; [done|]. cbn. apply IH. destruct m as [now incoming|w outcome]; cbn.
  - by rewrite Hr.
  - by destruct (worker_keeps w outcome s) as (-> & _).
Qed.

Lemma turn_takes deadline now incoming s r q : now < deadline -> channel s = r :: q ->
  loop_turn deadline now incoming s = take_result r q (set_parked false s) \/
  loop_turn deadline now incoming s = take_result r q s.
Proof.
  intros Hnow Hc. unfold loop_turn. destruct (parked s).
  - left. unfold wake. cbn [channel set_parked]. by rewrite Hc.
  - right. rewrite (proj2 (Z.ltb_lt _ _)) by done. by rewrite Hc.
Qed.

Lemma session_returned deadline x l : Forall (before deadline) l -> forall s es q,
  returned s = None -> channel s = map Err es ++ Ok x :: q -> zlen es < turns l ->
  returned (accept_run deadline l s) = Some (Ok x).
Proof.
  induction 1 as [|m l Hm _ IH]; intros s es q Hr Hc Hlt; [unfold turns, zlen in Hlt; cbn in Hlt; lia|].
  rewrite turns_cons in Hlt. destruct m as [now incoming|w outcome]; cbn [is_turn before] in *; cbn [accept_run fold_left accept_move].
  - rewrite Hr. destruct es as [|e es]; cbn [map app] in Hc.
    + apply returned_stays. by destruct (turn_takes deadline now incoming s _ _ Hm Hc) as [-> | ->].
    + rewrite zlen_cons in Hlt. destruct (turn_takes deadline now incoming s _ _ Hm Hc) as [-> | ->]; apply (IH _ es q); done || lia.
  - destruct (worker_keeps w outcome s) as (Hr2 & _ & more & Hc2). apply (IH _ es (q ++ more)); [congruence| |lia].
    by rewrite Hc2, Hc, <- app_assoc.
Qed.

Lemma take_returned r q s : returned s = None ->
  returned (take_result r q s) <> None \/ (parked (take_result r q s) = parked s /\ returned (take_result r q s) = None).
Proof. intros Hr. destruct r; cbn; [by left|by right..]. Qed.

(** A turn after the deadline ends the wait or the function. *)
Lemma late_turn deadline now incoming s : returned s = None -> deadline <= now ->
  returned (loop_turn deadline now incoming s) <> None \/
  (parked s = true /\ parked (loop_turn deadline now incoming s) = false /\ returned (loop_turn deadline now incoming s) = None).
Proof.
  intros Hr Hd. unfold loop_turn. destruct (parked s); [|rewrite (proj2 (Z.ltb_ge _ _)) by done; by left].
  unfold wake. cbn [channel set_parked]. destruct (channel s) as [|r q]; [by right|].
  destruct (take_returned r q (set_parked false s) Hr) as [?|[? ?]]; [by left|by right].
Qed.

Lemma ends_late deadline l : Forall (late deadline) l -> forall s,
  (if parked s then 2 else 1) <= turns l -> returned (accept_run deadline l s) <> None.
Proof.
  induction 1 as [|m l Hm _ IH]; intros s Ht; [unfold turns, zlen in Ht; cbn in Ht; destruct (parked s); lia|].
  rewrite turns_cons in Ht. destruct (returned s) eqn:Hr; [by rewrite (returned_stays _ _ _ _ Hr)|].
  destruct m as [now incoming|w outcome]; cbn [is_turn late] in *; cbn [accept_run fold_left accept_move].
  - rewrite Hr. destruct (late_turn deadline now incoming s Hr Hm) as [Hn|(Hp & Hp' & _)].
    + destruct (returned (loop_turn _ _ _ _)) eqn:E; [|done]. pose proof (returned_stays deadline l _ _ E) as E2. unfold accept_run in E2. by rewrite E2.
    + apply IH. rewrite Hp'. rewrite Hp in Ht. lia.
  - apply IH. destruct (worker_keeps w outcome s) as (_ & -> & _). lia.
Qed.
End Loop.

(** ** Lemmas: the workers' sessions *)

Section Workers.
Context {R : Type} `{RngOps R, HashOps, KexOps, JsonOps, !RngLaws R, !HashLaws, !KexLaws, !JsonLaws}.
Notation Server := (Conn * (StatelessCookieAuthority * R))%type.

(** What a session of the worker for [peer] has passed. *)
Definition authenticated (p : HandshakeProfile) (policy : PeerPolicy) (peer : SocketAddr) (requires_cookie : bool)
    (st : HandshakeState) : Prop :=
  exists env (c : Server) h c', admit_hello env peer requires_cookie c = (Some (Ok h), c') /\
    admission env peer requires_cookie c h c' /\ session_with p policy env h st.

Lemma worker_session env peer requires_cookie k policy p (c : Server) st :
  addr_ok peer -> no_panic (we_refresh env) -> no_panic (we_clear env) ->
  (worker_run env peer requires_cookie k policy p c).1 = Some (Ok st) -> authenticated p policy peer requires_cookie st.
Proof.
  intros Hp Hre Hcl. destruct (keeps_admit env peer requires_cookie c Hp Hre) as (_ & _ & Ha). unfold worker_run, io_bind.
  destruct (admit_hello env peer requires_cookie c) as [[[h|e|]|] c1] eqn:E; cbn [fst snd] in *; [|done..].
  intros E2. destruct (keeps_answer env k policy p h c1 Hcl) as (_ & _ & Hs). exists env, c, h, c1.
  split; [done|]. split; [by apply Ha|by apply Hs].
Qed.

(** The ends of the workers are those of [TcpHandshakeWorker::run], in some
    environment and for some client. *)
Definition genuine (k : IdentityKeyPair) (policy : PeerPolicy) (p : HandshakeProfile) (l : list Move)
    (spawned : list (SocketAddr * bool)) : Prop :=
  forall w outcome peer requires_cookie, WorkerEnds w outcome ∈ l -> spawned !! w = Some (peer, requires_cookie) ->
  exists env (c : Server), addr_ok peer /\ no_panic (we_refresh env) /\ no_panic (we_clear env) /\
    (worker_run env peer requires_cookie k policy p c).1 = Some outcome.
End Workers.

(** ** Properties *)

(** C28: safety of the accept loop, under any schedule of connections, clock
    readings and ends of workers.  At most sixteen workers run or wait with
    their results at any time, so a worker's send never blocks; each was
    spawned for a connection that the limiter let through, with the cookie
    requirement the limiter decided ([spawned_for]).  If the function returns a
    session, it is the one a worker of its own ended with, the others were told
    to stop, and - the workers being those of [worker_run] - the peer passed
    the gate of that worker: its hello was admitted, behind a valid cookie if
    one was required, and the session reports its verified, pinned keys. *)
Theorem accept_loop_safe {R} `{RngLaws R, !HashOps, !KexOps, !JsonOps, !HashLaws, !KexLaws, !JsonLaws}
    ip_text duration_text deadline l k policy p :
  let s := accept_run ip_text duration_text deadline l acceptor_new in
  genuine (R:=R) k policy p l (workers s) ->
  zlen (running s) + zlen (channel s) <= active_workers s <= MAX_CONCURRENT_TCP_HANDSHAKES /\
  workers s `prefix_of` spawned_for ip_text duration_text (connects s) PeerRateLimiter_new /\
  forall w st, returned s = Some (Ok (w, st)) -> cancellation s = true /\ WorkerEnds w (Ok st) ∈ l /\ w ∉ running s /\
    exists peer requires_cookie, workers s !! w = Some (peer, requires_cookie) /\
      authenticated (R:=R) p policy peer requires_cookie st.
Proof.
  intros s Hg. destruct (inv_run ip_text duration_text deadline l) as [_ Hw Ha _ _ Hr]. fold s in Hw, Ha, Hr.
  split; [done|]. split; [destruct Hw as [->|[_ [x ->]]]; [done|by apply prefix_app_r]|].
  intros w st Hret. destruct (Hr _ Hret) as [(Hin & Hlt & Hrun) Hc]. split; [done|]. split; [done|]. split; [done|].
  destruct (lookup_lt_is_Some_2 _ _ Hlt) as [[peer requires_cookie] Hl]. exists peer, requires_cookie. split; [done|].
  destruct (Hg _ _ _ _ Hin Hl) as (env & c & Hp & Hre & Hcl & E). by eapply worker_session.
Qed.

(** the accept loop makes progress and ends.  From any state: once a
    session is in the channel, behind any number of failed workers, the loop
    returns it after at most one action per result before it, whatever connects
    or ends meanwhile, if the clock has not reached the deadline; and two
    actions of the loop after the deadline end the function, in whatever state
    it is. *)
Theorem accept_loop_progress ip_text duration_text deadline s :
  (forall x es q l, returned s = None -> channel s = map Err es ++ Ok x :: q ->
     Forall (before deadline) l -> zlen es < turns l ->
     returned (accept_run ip_text duration_text deadline l s) = Some (Ok x)) /\
  (forall l, Forall (late deadline) l -> 2 <= turns l ->
     returned (accept_run ip_text duration_text deadline l s) <> None).
Proof.
  split; intros; [by eapply session_returned|]. apply ends_late; [done|]. destruct (parked s); lia.
Qed.

(** ** Witnesses *)

Module Witnesses.
Import Toy ToyJson Cookie.Witnesses Handshake.Witnesses TcpHandshake.Witnesses RateLimiter.Witnesses.

(** The client of the handshake's witness, and the worker that answers it. *)
Definition client_bytes : bytes := Eval vm_compute in (outcome_on the_client 5 dialogue).2.
Definition at_worker : Conn * (StatelessCookieAuthority * Z) := beside start (conn_at client_bytes (byte_events client_bytes) []).
Definition session : HandshakeState :=
  ltac:(let v := eval vm_compute in (the_worker at_worker).1 in match v with Some (Ok ?st) => exact st end).

(** Four connects of one address; the fourth must answer a cookie.  The first
    worker's read times out, the fourth has a session. *)
Definition schedule : list Move :=
  map (fun i => Turn i (Peer (Ok ()) (connect client 1) true)) [1; 2; 3; 4] ++
  [Turn 5 NoPeer; WorkerEnds 0 (Err Timeout); Turn 6 NoPeer; Turn 7 NoPeer; WorkerEnds 3 (Ok session); Turn 8 NoPeer].

Notation after_schedule := (accept_run RateLimiter.Witnesses.ip_text duration_text 100 schedule acceptor_new).

Definition no_wait : WorkerEnv := mkWorkerEnv (true, false, false) (Ok ()) None [] None None at_once (Ok ()).

Definition worker_ends_of (l : list Move) : list (nat * result HandshakeState) :=
  omap (fun m => match m with WorkerEnds w o => Some (w, o) | _ => None end) l.

Lemma worker_in_ends w o l : WorkerEnds w o ∈ l -> (w, o) ∈ worker_ends_of l.
Proof. intros Hin. apply list_elem_of_omap. by exists (WorkerEnds w o). Qed.

Lemma accept_loop_safe_witness :
  returned after_schedule = Some (Ok (3%nat, session)) /\
  workers after_schedule = [(client, false); (client, false); (client, false); (client, true)] /\
  authenticated (R:=Z) SecureDefault (knows alice) client true session.
Proof.
  assert (returned after_schedule = Some (Ok (3%nat, session))) as Hr by (vm_compute; reflexivity).
  assert (workers after_schedule = [(client, false); (client, false); (client, false); (client, true)]) as Hw by (vm_compute; reflexivity).
  split; [exact Hr|]. split; [exact Hw|].
  destruct (accept_loop_safe (R:=Z) RateLimiter.Witnesses.ip_text duration_text 100 schedule bob (knows alice) SecureDefault) as (_ & _ & Hs).
  - intros w outcome peer requires_cookie Hin Hl. rewrite Hw in Hl.
    apply worker_in_ends in Hin. change (worker_ends_of schedule) with [(0%nat, Err Timeout); (3%nat, Ok session)] in Hin.
    apply elem_of_cons in Hin as [E|Hin%list_elem_of_singleton]; [injection E as -> ->|injection Hin as -> ->].
    + injection Hl as <- <-. exists no_wait, at_worker. split; [by_compute|]. split; [done|]. split; [done|]. reflexivity.
    + injection Hl as <- <-. exists worker_env, at_worker. split; [by_compute|]. split; [done|]. split; [done|]. vm_compute. reflexivity.
  - destruct (Hs _ _ Hr) as (_ & _ & _ & peer & rc & Hl & Ha).
    rewrite Hw in Hl. injection Hl as <- <-. exact Ha.
Defined.

(** A failed worker's result is in front of a session; another worker ends
    while the loop takes them. *)
Definition backlog : Acceptor :=
  set_channel [Err Timeout; Ok (1%nat, session)]
    (mkAcceptor PeerRateLimiter_new true 3 None [] (replicate 3 (client, false)) [2%nat] true None []).

Lemma accept_loop_progress_witness :
  returned (accept_run RateLimiter.Witnesses.ip_text duration_text 100
    [Turn 5 NoPeer; WorkerEnds 2 (Err Timeout); Turn 6 NoPeer] backlog) = Some (Ok (1%nat, session)) /\
  returned (accept_run RateLimiter.Witnesses.ip_text duration_text 100 [Turn 100 NoPeer; Turn 101 NoPeer] backlog) <> None.
Proof.
  destruct (accept_loop_progress RateLimiter.Witnesses.ip_text duration_text 100 backlog) as [Hfound Hend]. split.
  - apply (Hfound _ [Timeout] []); [reflexivity|reflexivity| |vm_compute; reflexivity].
    repeat (constructor; [try exact I; vm_compute; reflexivity|]). constructor.
  - apply Hend; [|vm_compute; discriminate]. repeat (constructor; [vm_compute; discriminate|]). constructor.
Defined.
End Witnesses.
