(* ===== verification/IdentityRecord.v ===== *)
(** Self-certifying identity records (shph-identity/src/lib.rs): keys,
    endpoints and status, structural validation, the canonical payload that is
    signed, signing, verification, the record hash and the peer pin derived from
    a record.  JSON and the file-system provider are not modelled here. *)
From S2P Require Import Prelude Ordering Encoding Error Text Primitives SessionCrypto Handshake.

Definition IDENTITY_RECORD_VERSION : Z := 1.
Definition MAX_RECORD_BYTES : Z := 64 * 1024.
Definition MAX_KEYS : Z := 32.
Definition MAX_ENDPOINTS : Z := 32.
Definition MAX_CAPABILITIES : Z := 64.
Definition MAX_STRING_BYTES : Z := 256.
Definition MAX_ALGORITHM_BYTES : Z := 96.
Definition MAX_PUBLIC_KEY_BYTES : Z := 8 * 1024.
Definition DEFAULT_CLOCK_SKEW_SECS : Z := 300.
Definition MAX_CLOCK_SKEW_SECS : Z := 24 * 60 * 60.
Definition MAX_RECORD_LIFETIME_SECS : Z := 90 * 24 * 60 * 60.
Definition IDENTITY_ID_DOMAIN : bytes := str_bytes "shph/identity-id/v1".
Definition RECORD_DOMAIN : bytes := str_bytes "shph/identity-record/v1".
Definition KEY_ID_DOMAIN : bytes := str_bytes "shph/key-id/v1".

Definition PROFILE_ED25519 : string := "ed25519".
Definition ALGORITHM_ED25519 : string := "ed25519".
Definition ALGORITHM_X25519 : string := "x25519".

(** ** Errors *)

Inductive IdentityError :=
  | InvalidRecord (msg : string)
  | InvalidSignature
  | UnsupportedAlgorithm (name : string)
  | NotYetValid
  | Expired
  | Replay
  | Conflict (sequence : Z)
  | NotFound
  | ProviderUnavailable (msg : string)
  | SerializationError (msg : string)
  | IdentityIo (msg : string).

(** [std::result::Result<T, IdentityError>]. *)
Inductive iresult (A : Type) := Good (a : A) | Bad (e : IdentityError).
Arguments Good {A} a.
Arguments Bad {A} e.

Definition ibind {A B} (m : iresult A) (k : A -> iresult B) : iresult B :=
  match m with Good a => k a | Bad e => Bad e end.
Notation "'let^' x ':=' m 'in' k" := (ibind m (fun x => k))
  (at level 10, x name, m at level 100, k at level 200) : shph_scope.
Notation "'do^' m ';' k" := (ibind m (fun _ : unit => k))
  (at level 10, m at level 100, k at level 200) : shph_scope.

(** [if bad { return Err(e) }] *)
Definition ensure (ok : bool) (e : IdentityError) : iresult unit := if ok then Good () else Bad e.
Definition good_or {A} (o : option A) (e : IdentityError) : iresult A :=
  match o with Some a => Good a | None => Bad e end.

(** ** Data *)

(** A [Hash32] is its bytes; algorithm identifiers and signature profiles are
    their strings. *)
Inductive KeyRole := RootSigning | OperationalSigning | IdentityBinding | KeyEstablishment | RecoverySigning.

#[export] Instance KeyRole_eq_dec : EqDecision KeyRole.
Proof. solve_decision. Defined.

Definition role_code (r : KeyRole) : Z :=
  match r with
  | RootSigning => 1 | OperationalSigning => 2 | IdentityBinding => 3 | KeyEstablishment => 4 | RecoverySigning => 5
  end.

Definition accepts_record_signature (r : KeyRole) : bool :=
  match r with RootSigning | RecoverySigning => true | _ => false end.

Definition role_string (r : KeyRole) : string :=
  match r with
  | RootSigning => "root-signing"
  | OperationalSigning => "operational-signing"
  | IdentityBinding => "identity-binding"
  | KeyEstablishment => "key-establishment"
  | RecoverySigning => "recovery-signing"
  end.

Record IdentityKey := mkIdentityKey {
  key_id : bytes;
  role : KeyRole;
  algorithm : string;
  public_key : bytes;
  not_before : Z;
  not_after : Z;
  previous_key_id : option bytes
}.

Record IdentityEndpoint := mkIdentityEndpoint { transport : string; address : string; priority : Z }.

Record RecordSignature := mkRecordSignature { sig_key_id : bytes; sig_algorithm : string; signature : bytes }.

Inductive RecordStatus := Active | Revoked (revoked_at : Z) (reason : string).

Record IdentityRecord := mkIdentityRecord {
  version : Z;
  subject : bytes;
  signature_profile : string;
  sequence : Z;
  issued_at : Z;
  expires_at : Z;
  previous_record : option bytes;
  status : RecordStatus;
  keys : list IdentityKey;
  endpoints : list IdentityEndpoint;
  capabilities : list string;
  signatures : list RecordSignature
}.

#[export] Instance IdentityKey_eq_dec : EqDecision IdentityKey.
Proof. solve_decision. Defined.
#[export] Instance IdentityEndpoint_eq_dec : EqDecision IdentityEndpoint.
Proof. solve_decision. Defined.
#[export] Instance RecordSignature_eq_dec : EqDecision RecordSignature.
Proof. solve_decision. Defined.
#[export] Instance RecordStatus_eq_dec : EqDecision RecordStatus.
Proof. solve_decision. Defined.
#[export] Instance IdentityRecord_eq_dec : EqDecision IdentityRecord.
Proof. solve_decision. Defined.

Record VerificationPolicy := mkVerificationPolicy {
  now_secs : Z;
  clock_skew_secs : Z;
  expected_subject : option bytes;
  require_pqc_signature : bool
}.

Definition policy_at (now : Z) : VerificationPolicy := mkVerificationPolicy now DEFAULT_CLOCK_SKEW_SECS None false.

Record VerificationResult := mkVerificationResult { verified_subject : bytes; pqc_authenticated : bool }.

(** ** Text *)

Definition token_byte (b : Z) : bool :=
  in_range 48 57 b || in_range 65 90 b || in_range 97 122 b
  || (b =? 45) || (b =? 95) || (b =? 46) || (b =? 43) || (b =? 58).

Definition validate_token (label value : string) (max_bytes : Z) : iresult unit :=
  let l := str_bytes value in
  if (zlen l =? 0) || (max_bytes <? zlen l)
  then Bad (InvalidRecord (label +:+ " is empty or exceeds " +:+ show max_bytes +:+ " bytes"))
  else if negb (forallb token_byte l)
  then Bad (InvalidRecord (label +:+ " contains unsupported characters"))
  else Good ().

Definition validate_text (label value : string) (max_bytes : Z) : iresult unit :=
  let l := str_bytes value in
  if (zlen l =? 0) || (max_bytes <? zlen l) || has_control l
  then Bad (InvalidRecord (label +:+ " is empty, too long, or contains control characters"))
  else Good ().

Definition validate_endpoint (e : IdentityEndpoint) : iresult unit :=
  do^ validate_token "transport" (transport e) MAX_STRING_BYTES ;
  validate_text "endpoint address" (address e) MAX_STRING_BYTES.

Definition validate_key_material (algorithm : string) (public_key : bytes) : iresult unit :=
  do^ validate_token "algorithm" algorithm MAX_ALGORITHM_BYTES ;
  if (zlen public_key =? 0) || (MAX_PUBLIC_KEY_BYTES <? zlen public_key)
  then Bad (InvalidRecord "public key has an invalid size")
  else if bool_decide (algorithm ∈ [ALGORITHM_ED25519; ALGORITHM_X25519]) && negb (zlen public_key =? 32)
  then Bad (InvalidRecord (algorithm +:+ " public key must be 32 bytes"))
  else Good ().

(** ** Identifiers *)

(** [append_string] and [append_bytes] on a hasher or a vector. *)
Definition put_string (s : string) : bytes := put_bytes (str_bytes s).

Section Records.
Context `{HashOps, KexOps}.

Definition derive_identity_id (root_public_key : bytes) : bytes :=
  sha256 (IDENTITY_ID_DOMAIN ++ put_bytes root_public_key).

Definition derive_key_id (r : KeyRole) (algorithm : string) (public_key : bytes) : bytes :=
  sha256 (KEY_ID_DOMAIN ++ [role_code r] ++ put_string algorithm ++ put_bytes public_key).

Definition IdentityKey_new (r : KeyRole) (algorithm : string) (public_key : bytes) (not_before not_after : Z)
    (previous_key_id : option bytes) : iresult IdentityKey :=
  do^ validate_key_material algorithm public_key ;
  if not_after <? not_before then Bad (InvalidRecord "identity key expires before it becomes valid")
  else
    let id := derive_key_id r algorithm public_key in
    if bool_decide (previous_key_id = Some id) then Bad (InvalidRecord "identity key cannot supersede itself")
    else Good (mkIdentityKey id r algorithm public_key not_before not_after previous_key_id).

(** ** Structural validation *)

(** The loop over the keys; [key_ids] and [root_keys] so far. *)
Fixpoint check_keys (ks : list IdentityKey) (key_ids : list bytes) (root_keys : Z) : iresult Z :=
  match ks with
  | [] => Good root_keys
  | k :: ks =>
      do^ validate_key_material (algorithm k) (public_key k) ;
      do^ ensure (bool_decide (key_id k = derive_key_id (role k) (algorithm k) (public_key k)))
            (InvalidRecord ("key id does not match " +:+ role_string (role k) +:+ " key material")) ;
      do^ ensure (negb (not_after k <? not_before k)) (InvalidRecord "key expiration precedes key activation") ;
      do^ ensure (negb (bool_decide (previous_key_id k = Some (key_id k)))) (InvalidRecord "key cannot supersede itself") ;
      do^ ensure (negb (bool_decide (key_id k ∈ key_ids))) (InvalidRecord "record contains duplicate key ids") ;
      check_keys ks (key_id k :: key_ids) (if bool_decide (role k = RootSigning) then root_keys + 1 else root_keys)
  end.

Fixpoint check_endpoints (es : list IdentityEndpoint) (seen : list IdentityEndpoint) : iresult unit :=
  match es with
  | [] => Good ()
  | e :: es =>
      do^ validate_endpoint e ;
      do^ ensure (negb (bool_decide (e ∈ seen))) (InvalidRecord "record contains duplicate endpoints") ;
      check_endpoints es (e :: seen)
  end.

Fixpoint check_capabilities (label duplicate : string) (cs : list string) (seen : list string) : iresult unit :=
  match cs with
  | [] => Good ()
  | c :: cs =>
      do^ validate_token label c MAX_STRING_BYTES ;
      do^ ensure (negb (bool_decide (c ∈ seen))) (InvalidRecord duplicate) ;
      check_capabilities label duplicate cs (c :: seen)
  end.

(** [self.keys.iter().find(|key| key.role == RootSigning)] *)
Definition root_key (r : IdentityRecord) : option IdentityKey :=
  List.find (fun k => bool_decide (role k = RootSigning)) (keys r).

Definition validate_subject_binding (r : IdentityRecord) : iresult unit :=
  let^ root := good_or (root_key r) (InvalidRecord "record has no root signing key") in
  ensure (bool_decide (subject r = derive_identity_id (public_key root)))
    (InvalidRecord "record subject is not bound to the root signing key").

Definition validate_header (r : IdentityRecord) : iresult unit :=
  do^ ensure (version r =? IDENTITY_RECORD_VERSION)
        (InvalidRecord ("unsupported record version " +:+ show (version r))) ;
  do^ ensure (negb (sequence r =? 0)) (InvalidRecord "record sequence must start at one") ;
  do^ ensure (negb ((sequence r =? 1) && bool_decide (is_Some (previous_record r))))
        (InvalidRecord "initial record cannot reference a previous record") ;
  do^ ensure (negb ((1 <? sequence r) && bool_decide (previous_record r = None)))
        (InvalidRecord "non-initial record must reference a previous record") ;
  do^ ensure (issued_at r <? expires_at r) (InvalidRecord "record expiration must be after issuance") ;
  do^ ensure (saturating_sub (expires_at r) (issued_at r) <=? MAX_RECORD_LIFETIME_SECS)
        (InvalidRecord "record lifetime exceeds the safety limit") ;
  validate_token "signature profile" (signature_profile r) MAX_ALGORITHM_BYTES.

Definition validate_status (r : IdentityRecord) : iresult unit :=
  match status r with
  | Active => Good ()
  | Revoked revoked_at reason =>
      if (revoked_at <? issued_at r) || (expires_at r <? revoked_at)
      then Bad (InvalidRecord "revocation timestamp is outside the record lifetime")
      else validate_text "revocation reason" reason MAX_STRING_BYTES
  end.

Definition validate_structure_without_signatures (r : IdentityRecord) : iresult unit :=
  do^ validate_header r ;
  do^ ensure (negb ((zlen (keys r) =? 0) || (MAX_KEYS <? zlen (keys r))))
        (InvalidRecord ("record must contain between one and " +:+ show MAX_KEYS +:+ " keys")) ;
  let^ root_keys := check_keys (keys r) [] 0 in
  do^ ensure (root_keys =? 1) (InvalidRecord "record must contain exactly one root signing key") ;
  do^ validate_subject_binding r ;
  do^ ensure (zlen (endpoints r) <=? MAX_ENDPOINTS)
        (InvalidRecord ("record contains more than " +:+ show MAX_ENDPOINTS +:+ " endpoints")) ;
  do^ check_endpoints (endpoints r) [] ;
  do^ ensure (zlen (capabilities r) <=? MAX_CAPABILITIES)
        (InvalidRecord ("record contains more than " +:+ show MAX_CAPABILITIES +:+ " capabilities")) ;
  do^ check_capabilities "capability" "record contains duplicate capabilities" (capabilities r) [] ;
  validate_status r.

(** [self.keys.iter().find(|key| key.key_id == signature.key_id)] *)
Definition key_of (r : IdentityRecord) (s : RecordSignature) : iresult IdentityKey :=
  good_or (List.find (fun k => bool_decide (key_id k = sig_key_id s)) (keys r))
    (InvalidRecord "record signature references an unknown key").

(** The loop over the signatures; whether one is by the root key. *)
Fixpoint check_signatures (r : IdentityRecord) (root_key_id : bytes) (ss : list RecordSignature)
    (signature_ids : list (bytes * string)) (has_root_signature : bool) : iresult bool :=
  match ss with
  | [] => Good has_root_signature
  | s :: ss =>
      do^ ensure (negb ((zlen (signature s) =? 0) || (MAX_PUBLIC_KEY_BYTES <? zlen (signature s))))
            (InvalidRecord "record signature has an invalid size") ;
      do^ validate_token "signature algorithm" (sig_algorithm s) MAX_ALGORITHM_BYTES ;
      do^ ensure (negb (bool_decide ((sig_key_id s, sig_algorithm s) ∈ signature_ids)))
            (InvalidRecord "record contains duplicate signatures") ;
      let^ key := key_of r s in
      do^ ensure (negb (negb (bool_decide (algorithm key = sig_algorithm s)) || negb (accepts_record_signature (role key))))
            (InvalidRecord "record signature key is not authorized for record signing") ;
      check_signatures r root_key_id ss ((sig_key_id s, sig_algorithm s) :: signature_ids)
        (if bool_decide (sig_key_id s = root_key_id) then true else has_root_signature)
  end.

Definition validate_structure (r : IdentityRecord) : iresult unit :=
  do^ validate_structure_without_signatures r ;
  do^ ensure (negb (zlen (signatures r) =? 0)) (InvalidRecord "record must contain at least one signature") ;
  let^ root := good_or (root_key r) (InvalidRecord "record has no root signing key") in
  let^ has_root_signature := check_signatures r (key_id root) (signatures r) [] false in
  ensure has_root_signature (InvalidRecord "record must include a signature by the root signing key").

(** ** The canonical payload *)

Definition cmp_keys : IdentityKey -> IdentityKey -> comparison :=
  cmp_then (cmp_by key_id cmp_bytes) (cmp_then (cmp_by (fun k => role_code (role k)) Z.compare) (cmp_by algorithm cmp_string)).
Definition cmp_endpoints : IdentityEndpoint -> IdentityEndpoint -> comparison :=
  cmp_then (cmp_by transport cmp_string) (cmp_then (cmp_by address cmp_string) (cmp_by priority Z.compare)).
Definition cmp_signatures : RecordSignature -> RecordSignature -> comparison :=
  cmp_then (cmp_by sig_key_id cmp_bytes) (cmp_then (cmp_by sig_algorithm cmp_string) (cmp_by signature cmp_bytes)).

Definition put_status (s : RecordStatus) : bytes :=
  match s with
  | Active => [0]
  | Revoked revoked_at reason => [1] ++ be_bytes 8 revoked_at ++ put_string reason
  end.

Definition put_key (k : IdentityKey) : bytes :=
  [role_code (role k)] ++ put_string (algorithm k) ++ key_id k ++ put_bytes (public_key k)
  ++ be_bytes 8 (not_before k) ++ be_bytes 8 (not_after k) ++ put_option (previous_key_id k).

Definition put_endpoint (e : IdentityEndpoint) : bytes :=
  put_string (transport e) ++ put_string (address e) ++ be_bytes 2 (priority e).

Definition payload_bytes (r : IdentityRecord) : bytes :=
  RECORD_DOMAIN ++ be_bytes 2 (version r) ++ subject r ++ put_string (signature_profile r)
  ++ be_bytes 8 (sequence r) ++ be_bytes 8 (issued_at r) ++ be_bytes 8 (expires_at r)
  ++ put_option (previous_record r) ++ put_status (status r)
  ++ put_list put_key (sort_by cmp_keys (keys r))
  ++ put_list put_endpoint (sort_by cmp_endpoints (endpoints r))
  ++ put_list put_string (sort_by cmp_string (capabilities r)).

Definition canonical_payload (r : IdentityRecord) : iresult bytes :=
  do^ validate_structure_without_signatures r ; Good (payload_bytes r).

Definition put_signature (s : RecordSignature) : bytes :=
  sig_key_id s ++ put_string (sig_algorithm s) ++ put_bytes (signature s).

(** What the record hash is the SHA-256 of. *)
Definition record_message (r : IdentityRecord) : bytes :=
  RECORD_DOMAIN ++ put_bytes (payload_bytes r) ++ put_list put_signature (sort_by cmp_signatures (signatures r)).

Definition record_hash (r : IdentityRecord) : iresult bytes :=
  do^ validate_structure r ;
  let^ _payload := canonical_payload r in
  Good (sha256 (record_message r)).

(** ** Signing *)

Definition with_signatures (ss : list RecordSignature) (r : IdentityRecord) : IdentityRecord :=
  mkIdentityRecord (version r) (subject r) (signature_profile r) (sequence r) (issued_at r) (expires_at r)
    (previous_record r) (status r) (keys r) (endpoints r) (capabilities r) ss.

Definition sign_with_identity (identity : IdentityKeyPair) (r : IdentityRecord) : iresult IdentityRecord :=
  do^ ensure (bool_decide (signature_profile r = PROFILE_ED25519)) (UnsupportedAlgorithm (signature_profile r)) ;
  do^ ensure (zlen (signatures r) =? 0) (InvalidRecord "record is already signed") ;
  let^ root := good_or
    (List.find (fun k => bool_decide (role k = RootSigning) && bool_decide (algorithm k = ALGORITHM_ED25519)
                         && bool_decide (public_key k = signing_public identity)) (keys r))
    (InvalidRecord "identity signing key is not the record's root signing key") in
  let^ payload := canonical_payload r in
  Good (with_signatures
    (signatures r ++ [mkRecordSignature (key_id root) ALGORITHM_ED25519 (ed25519_sign (sign_seed identity) payload)]) r).

Definition from_current_identity_with_previous (identity : IdentityKeyPair) (sequence issued_at expires_at : Z)
    (previous_record : option bytes) (endpoints : list IdentityEndpoint) (capabilities : list string)
  : iresult IdentityRecord :=
  let root_public := signing_public identity in
  let identity_binding := public identity in
  let subject := derive_identity_id root_public in
  let^ root := IdentityKey_new RootSigning ALGORITHM_ED25519 root_public issued_at expires_at None in
  let^ binding := IdentityKey_new IdentityBinding ALGORITHM_X25519 identity_binding issued_at expires_at None in
  sign_with_identity identity
    (mkIdentityRecord IDENTITY_RECORD_VERSION subject PROFILE_ED25519 sequence issued_at expires_at
       previous_record Active [root; binding] endpoints capabilities []).

Definition from_current_identity (identity : IdentityKeyPair) (sequence issued_at expires_at : Z)
    (endpoints : list IdentityEndpoint) (capabilities : list string) : iresult IdentityRecord :=
  from_current_identity_with_previous identity sequence issued_at expires_at None endpoints capabilities.

(** ** Verification *)

Definition check_key_window (r : IdentityRecord) (policy : VerificationPolicy) (k : IdentityKey) : iresult unit :=
  do^ ensure (negb ((issued_at r <? not_before k) || (not_after k <? issued_at r)))
        (InvalidRecord "record signature key was not valid when the record was issued") ;
  do^ ensure (negb (saturating_add u64_max (now_secs policy) (clock_skew_secs policy) <? not_before k)) NotYetValid ;
  ensure (negb (saturating_add u64_max (not_after k) (clock_skew_secs policy) <? now_secs policy)) Expired.

(** The loop over the signatures; whether one is a valid Ed25519 signature. *)
Fixpoint verify_signatures (r : IdentityRecord) (policy : VerificationPolicy) (payload : bytes)
    (ss : list RecordSignature) (valid_ed25519 : bool) : iresult bool :=
  match ss with
  | [] => Good valid_ed25519
  | s :: ss =>
      let^ key := key_of r s in
      do^ check_key_window r policy key ;
      if bool_decide (sig_algorithm s = ALGORITHM_ED25519) then
        do^ ensure (negb (negb (zlen (public_key key) =? 32) || negb (zlen (signature s) =? 64)))
              (InvalidRecord "Ed25519 record signature has the wrong size") ;
        do^ ensure (ed25519_verify (public_key key) payload (signature s)) InvalidSignature ;
        verify_signatures r policy payload ss true
      else Bad (UnsupportedAlgorithm (sig_algorithm s))
  end.

Definition verify_record (policy : VerificationPolicy) (r : IdentityRecord) : iresult VerificationResult :=
  do^ ensure (clock_skew_secs policy <=? MAX_CLOCK_SKEW_SECS)
        (InvalidRecord "verification clock skew exceeds the safety limit") ;
  do^ validate_structure r ;
  let^ root := good_or (root_key r) (InvalidRecord "record has no root signing key") in
  do^ ensure (bool_decide (subject r = derive_identity_id (public_key root)))
        (InvalidRecord "record subject is not bound to the root signing key") ;
  do^ match expected_subject policy with
      | Some expected =>
          ensure (bool_decide (expected = subject r)) (InvalidRecord "record subject does not match the expected identity")
      | None => Good ()
      end ;
  do^ ensure (negb (saturating_add u64_max (now_secs policy) (clock_skew_secs policy) <? issued_at r)) NotYetValid ;
  do^ ensure (negb (saturating_add u64_max (expires_at r) (clock_skew_secs policy) <? now_secs policy)) Expired ;
  do^ ensure (bool_decide (signature_profile r = PROFILE_ED25519)) (UnsupportedAlgorithm (signature_profile r)) ;
  let^ payload := canonical_payload r in
  let^ valid_ed25519 := verify_signatures r policy payload (signatures r) false in
  do^ ensure valid_ed25519 InvalidSignature ;
  do^ ensure (negb (require_pqc_signature policy))
        (UnsupportedAlgorithm "a post-quantum signature is required by policy") ;
  Good (mkVerificationResult (subject r) false).

(** ** Peer pins *)

Definition key_valid_for_record_and_policy (k : IdentityKey) (issued_at : Z) (policy : VerificationPolicy) : bool :=
  (not_before k <=? issued_at) && (issued_at <=? not_after k)
  && (not_before k <=? now_secs policy) && (now_secs policy <=? not_after k).

Definition current_key (r : IdentityRecord) (policy : VerificationPolicy) (wanted : KeyRole) (alg : string)
    (k : IdentityKey) : bool :=
  bool_decide (role k = wanted) && bool_decide (algorithm k = alg)
  && key_valid_for_record_and_policy k (issued_at r) policy.

(** [as_slice().try_into::<[u8; 32]>()] *)
Definition to_32 (b : bytes) (e : IdentityError) : iresult bytes := if zlen b =? 32 then Good b else Bad e.

Definition to_peer_pin (policy : VerificationPolicy) (r : IdentityRecord) : iresult PeerPin :=
  let^ _verified := verify_record policy r in
  do^ ensure (bool_decide (status r = Active)) (InvalidRecord "revoked identity cannot produce a peer pin") ;
  let^ identity_key :=
    match List.filter (current_key r policy IdentityBinding ALGORITHM_X25519) (keys r) with
    | [k] => Good k
    | [] => Bad (InvalidRecord "record has no currently valid X25519 identity binding")
    | _ => Bad (InvalidRecord "record has ambiguous current X25519 identity bindings")
    end in
  do^ ensure (zlen (List.filter (current_key r policy OperationalSigning ALGORITHM_ED25519) (keys r)) =? 0)
        (InvalidRecord "record contains a current operational signing key that shph-core cannot emit in a handshake; pin generation requires the root signing key") ;
  let^ signing_key := good_or (List.find (current_key r policy RootSigning ALGORITHM_ED25519) (keys r))
    (InvalidRecord "record has no currently valid Ed25519 handshake signing key") in
  let^ identity_public := to_32 (public_key identity_key) (InvalidRecord "X25519 binding must be 32 bytes") in
  let^ signing_public := to_32 (public_key signing_key) (InvalidRecord "Ed25519 signing key must be 32 bytes") in
  Good (mkPeerPin identity_public signing_public).
End Records.

(** ** Lemmas: the error monad *)

Lemma ibind_good {A B} (m : iresult A) (k : A -> iresult B) b :
  ibind m k = Good b -> exists a, m = Good a /\ k a = Good b.
Proof. destruct m as [a|e]; cbn; [by eauto|done]. Qed.

Lemma ensure_good ok e u : ensure ok e = Good u -> ok = true.
Proof. by destruct ok. Qed.

Lemma good_or_good {A} (o : option A) e a : good_or o e = Good a -> o = Some a.
Proof. destruct o; cbn; congruence. Qed.

(** [ginv H as x E]: the first step of a computation that succeeded; the rest
    stays in [H]. *)
Tactic Notation "ginv" hyp(H) "as" ident(x) ident(E) := apply ibind_good in H as (x & E & H).
(** A guard that was passed. *)
Tactic Notation "gpass" hyp(H) "as" ident(E) :=
  let u := fresh in apply ibind_good in H as (u & E & H); apply ensure_good in E; clear u.

(** ** Lemmas: validated records *)

(** The ranges of the Rust types. *)
Definition u64 (x : Z) : Prop := 0 <= x <= u64_max.
Definition hash32 (h : bytes) : Prop := zlen h = 32.
Definition typed_key (k : IdentityKey) : Prop :=
  hash32 (key_id k) /\ u64 (not_before k) /\ u64 (not_after k) /\ from_option hash32 True (previous_key_id k).
Definition typed_record (r : IdentityRecord) : Prop :=
  0 <= version r <= u16_max /\ hash32 (subject r) /\ u64 (sequence r) /\ u64 (issued_at r) /\ u64 (expires_at r) /\
  from_option hash32 True (previous_record r) /\
  match status r with Active => True | Revoked t _ => u64 t end /\
  Forall typed_key (keys r) /\ Forall (fun e => 0 <= priority e <= u16_max) (endpoints r) /\
  Forall (fun s => hash32 (sig_key_id s)) (signatures r).

#[export] Instance typed_key_dec k : Decision (typed_key k).
Proof. unfold typed_key, hash32, u64. destruct (previous_key_id k); cbn; apply _. Defined.
#[export] Instance typed_record_dec r : Decision (typed_record r).
Proof.
  unfold typed_record, hash32, u64. destruct (previous_record r), (status r); cbn; apply _.
Defined.

Lemma validate_token_good label value max u :
  validate_token label value max = Good u ->
  1 <= zlen (str_bytes value) <= max /\ Forall (fun b => token_byte b = true) (str_bytes value).
Proof.
  unfold validate_token. destruct ((zlen _ =? 0) || _) eqn:E; [done|]. destruct (negb _) eqn:F; [done|]. intros _.
  apply orb_false_iff in E as [?%Z.eqb_neq ?%Z.ltb_ge]. apply negb_false_iff in F. pose proof (zlen_nonneg (str_bytes value)).
  split; [lia|]. apply Forall_forall. intros b Hb%list_elem_of_In. rewrite forallb_forall in F. by apply F.
Qed.

Lemma validate_text_good label value max u :
  validate_text label value max = Good u -> 1 <= zlen (str_bytes value) <= max /\ has_control (str_bytes value) = false.
Proof.
  unfold validate_text. destruct (_ || _ || _) eqn:E; [done|]. intros _.
  apply orb_false_iff in E as [[?%Z.eqb_neq ?%Z.ltb_ge]%orb_false_iff ?]. pose proof (zlen_nonneg (str_bytes value)).
  split; [lia|done].
Qed.

Section Valid.
Context `{HashOps}.

Definition key_ok (k : IdentityKey) : Prop :=
  1 <= zlen (str_bytes (algorithm k)) <= MAX_ALGORITHM_BYTES /\ 1 <= zlen (public_key k) <= MAX_PUBLIC_KEY_BYTES /\
  (algorithm k = ALGORITHM_ED25519 \/ algorithm k = ALGORITHM_X25519 -> zlen (public_key k) = 32) /\
  key_id k = derive_key_id (role k) (algorithm k) (public_key k) /\ not_before k <= not_after k /\
  previous_key_id k <> Some (key_id k).

Definition roots (ks : list IdentityKey) : list IdentityKey := List.filter (fun k => bool_decide (role k = RootSigning)) ks.

Lemma key_material_good a k u : validate_key_material a k = Good u ->
  1 <= zlen (str_bytes a) <= MAX_ALGORITHM_BYTES /\ 1 <= zlen k <= MAX_PUBLIC_KEY_BYTES /\
  (a = ALGORITHM_ED25519 \/ a = ALGORITHM_X25519 -> zlen k = 32).
Proof.
  unfold validate_key_material. intros HG. ginv HG as x E. apply validate_token_good in E as [E _]. split; [done|].
  destruct ((zlen k =? 0) || _) eqn:F; [done|]. apply orb_false_iff in F as [F1%Z.eqb_neq F2%Z.ltb_ge].
  pose proof (zlen_nonneg k). split; [lia|]. intros Ha.
  destruct (bool_decide _ && _) eqn:G; [done|]. apply andb_false_iff in G as [G|G].
  - apply bool_decide_eq_false in G. destruct G. destruct Ha as [-> | ->]; set_solver.
  - by apply negb_false_iff, Z.eqb_eq in G.
Qed.

Lemma check_keys_good ks ids n m : check_keys ks ids n = Good m ->
  Forall key_ok ks /\ NoDup (map key_id ks) /\ (forall k, k ∈ ks -> key_id k ∉ ids) /\ m = n + zlen (roots ks).
Proof.
  revert ids n. induction ks as [|k ks IH]; intros ids n HG; cbn [check_keys] in HG.
  - injection HG as <-. split; [done|]. split; [constructor|]. split; [set_solver|]. change (zlen (roots [])) with 0. lia.
  - ginv HG as x E1. apply key_material_good in E1 as (A1 & A2 & A3). gpass HG as E2. gpass HG as E3. gpass HG as E4. gpass HG as E5.
    bool_prop. apply IH in HG as (Hk & Hn & Hi & ->).
    split; [constructor; [exact (conj A1 (conj A2 (conj A3 (conj E2 (conj E3 E4)))))|done]|]. split; [|split].
    + cbn [map]. constructor; [|done]. intros (k' & Ek & Hk')%list_elem_of_fmap.
      destruct (Hi k' Hk'). set_solver.
    + intros k' [->|Hk']%elem_of_cons; [done|]. apply Hi in Hk'. set_solver.
    + unfold roots. cbn [List.filter]. case_bool_decide; [rewrite zlen_cons|]; lia.
Qed.
Lemma check_endpoints_good es seen u : check_endpoints es seen = Good u ->
  Forall (fun e => zlen (str_bytes (transport e)) <= MAX_STRING_BYTES /\ zlen (str_bytes (address e)) <= MAX_STRING_BYTES) es /\
  NoDup es /\ (forall e, e ∈ es -> e ∉ seen).
Proof.
  revert seen. induction es as [|e es IH]; intros seen HG; cbn [check_endpoints] in HG.
  - split; [done|]. split; [constructor|]. set_solver.
  - ginv HG as x E1. unfold validate_endpoint in E1. ginv E1 as y E2. apply validate_token_good in E2 as [E2 _].
    apply validate_text_good in E1 as [E1 _]. gpass HG as E3. bool_prop. apply IH in HG as (Hf & Hn & Hi).
    split; [constructor; [lia|done]|]. split; [constructor; [|done]; intros Hin; destruct (Hi e Hin); set_solver|].
    intros e' [->|He]%elem_of_cons; [done|]. apply Hi in He. set_solver.
Qed.

Lemma check_capabilities_good label dup cs seen u : check_capabilities label dup cs seen = Good u ->
  Forall (fun c => zlen (str_bytes c) <= MAX_STRING_BYTES) cs /\ NoDup cs /\ (forall c, c ∈ cs -> c ∉ seen).
Proof.
  revert seen. induction cs as [|c cs IH]; intros seen HG; cbn [check_capabilities] in HG.
  - split; [done|]. split; [constructor|]. set_solver.
  - ginv HG as x E1. apply validate_token_good in E1 as [E1 _]. gpass HG as E3. bool_prop. apply IH in HG as (Hf & Hn & Hi).
    split; [constructor; [lia|done]|]. split; [constructor; [|done]; intros Hin; destruct (Hi c Hin); set_solver|].
    intros c' [->|Hc]%elem_of_cons; [done|]. apply Hi in Hc. set_solver.
Qed.

(** What structural validation guarantees of the signed content. *)
Record content_ok (r : IdentityRecord) : Prop := {
  co_version : version r = IDENTITY_RECORD_VERSION;
  co_sequence : sequence r <> 0;
  co_first : sequence r = 1 -> previous_record r = None;
  co_later : 1 < sequence r -> is_Some (previous_record r);
  co_lifetime : issued_at r < expires_at r /\ expires_at r - issued_at r <= MAX_RECORD_LIFETIME_SECS;
  co_profile : zlen (str_bytes (signature_profile r)) <= MAX_ALGORITHM_BYTES;
  co_keys : 1 <= zlen (keys r) <= MAX_KEYS /\ Forall key_ok (keys r) /\ NoDup (map key_id (keys r));
  co_root : exists root, roots (keys r) = [root] /\ root_key r = Some root /\ subject r = derive_identity_id (public_key root);
  co_endpoints : zlen (endpoints r) <= MAX_ENDPOINTS /\ NoDup (endpoints r) /\
    Forall (fun e => zlen (str_bytes (transport e)) <= MAX_STRING_BYTES /\ zlen (str_bytes (address e)) <= MAX_STRING_BYTES) (endpoints r);
  co_capabilities : zlen (capabilities r) <= MAX_CAPABILITIES /\ NoDup (capabilities r) /\
    Forall (fun c => zlen (str_bytes c) <= MAX_STRING_BYTES) (capabilities r);
  co_status : match status r with
              | Active => True
              | Revoked t reason => issued_at r <= t <= expires_at r /\ zlen (str_bytes reason) <= MAX_STRING_BYTES
              end
}.

Lemma zlen_1 {A} (l : list A) : zlen l = 1 -> exists x, l = [x].
Proof. destruct l as [|x [|y l]]; [done|by exists x|]. intros Hl. rewrite !zlen_cons in Hl. pose proof (zlen_nonneg l). lia. Qed.

Lemma find_roots r : root_key r = hd_error (roots (keys r)).
Proof.
  unfold root_key, roots. induction (keys r) as [|k ks IH]; [done|]. cbn [List.find List.filter]. by case_bool_decide.
Qed.

Lemma validate_content r u : validate_structure_without_signatures r = Good u -> content_ok r.
Proof.
  unfold validate_structure_without_signatures. intros HG.
  ginv HG as x Eh. gpass HG as Ek. ginv HG as n Ec. gpass HG as En. ginv HG as y Eb. gpass HG as Ee. ginv HG as z Ees.
  gpass HG as Ecn. ginv HG as w Ecs.
  unfold validate_header in Eh. gpass Eh as V1. gpass Eh as V2. gpass Eh as V3. gpass Eh as V4. gpass Eh as V5. gpass Eh as V6.
  apply validate_token_good in Eh as [V7 _]. apply check_keys_good in Ec as (Kk & Kn & _ & ->).
  apply check_endpoints_good in Ees as (Ef & Edn & _). apply check_capabilities_good in Ecs as (Cf & Cn & _).
  bool_prop. assert (zlen (roots (keys r)) = 1) as Hr by lia. apply zlen_1 in Hr as [root Hr].
  pose proof (find_roots r) as Hroot. rewrite Hr in Hroot. cbn [hd_error] in Hroot.
  unfold validate_subject_binding in Eb. rewrite Hroot in Eb. cbn [good_or ibind] in Eb. apply ensure_good in Eb. bool_prop.
  split; try done.
  - intros Hs. apply andb_false_iff in V3 as [V3|V3]; [lia|].
    destruct (previous_record r); [|done]. bool_prop. destruct V3. by eexists.
  - intros Hs. apply andb_false_iff in V4 as [V4|V4]; [lia|].
    destruct (previous_record r); [by eexists|]. bool_prop. done.
  - split; [done|]. unfold saturating_sub in V6. lia.
  - lia.
  - split; [|done]. pose proof (zlen_nonneg (keys r)). lia.
  - by exists root.
  - unfold validate_status in HG. destruct (status r) as [|t reason]; [done|].
    destruct ((t <? issued_at r) || _) eqn:E; [done|]. apply validate_text_good in HG as [HG _]. bool_prop. lia.
Qed.
(** ** Lemmas: the payload is an injective encoding *)

Definition short_string (s : string) : Prop := short (str_bytes s).

#[export] Instance put_string_inj : PrefixInj put_string short_string.
Proof.
  intros x y r r' Hx Hy E. apply (prefix_inj (enc:=put_bytes)) in E as [E ->]; [|done..]. by apply str_bytes_inj in E.
Qed.

Lemma u64_prefix x y r r' : u64 x -> u64 y -> be_bytes 8 x ++ r = be_bytes 8 y ++ r' -> x = y /\ r = r'.
Proof. unfold u64, u64_max. intros. eapply (be_bytes_prefix 8); [cbn; lia..|done]. Qed.

Lemma role_code_inj a b : role_code a = role_code b -> a = b.
Proof. by destruct a, b. Qed.

Lemma opt_hash_prefix x y r r' : from_option hash32 True x -> from_option hash32 True y ->
  put_option x ++ r = put_option y ++ r' -> x = y /\ r = r'.
Proof. intros Hx Hy. apply (put_option_inj 32); [by destruct x|by destruct y]. Qed.

Definition good_key (k : IdentityKey) : Prop := typed_key k /\ short_string (algorithm k) /\ short (public_key k).

#[export] Instance put_key_inj : PrefixInj put_key good_key.
Proof.
  intros x y r r' ((Xi & Xn & Xa & Xp) & Xs & Xk) ((Yi & Yn & Ya & Yp) & Ys & Yk) E.
  unfold put_key in E. rewrite <- !app_assoc in E.
  apply (fixed_prefix 1) in E as [E1 E]; [|done..]. assert (role x = role y) as E1' by (apply role_code_inj; congruence).
  apply (prefix_inj (enc:=put_string)) in E as [E2 E]; [|done..].
  apply (fixed_prefix 32) in E as [E3 E]; [|done..].
  apply (prefix_inj (enc:=put_bytes)) in E as [E4 E]; [|done..].
  apply u64_prefix in E as [E5 E]; [|done..]. apply u64_prefix in E as [E6 E]; [|done..].
  apply opt_hash_prefix in E as [E7 E]; [|done..]. split; [|done].
  destruct x, y; cbn in *. by subst.
Qed.

Definition good_endpoint (e : IdentityEndpoint) : Prop :=
  short_string (transport e) /\ short_string (address e) /\ 0 <= priority e <= u16_max.

#[export] Instance put_endpoint_inj : PrefixInj put_endpoint good_endpoint.
Proof.
  intros x y r r' (Xt & Xa & Xp) (Yt & Ya & Yp) E. unfold put_endpoint in E. rewrite <- !app_assoc in E.
  apply (prefix_inj (enc:=put_string)) in E as [E1 E]; [|done..].
  apply (prefix_inj (enc:=put_string)) in E as [E2 E]; [|done..].
  apply be_bytes_prefix in E as [E3 E]; [|unfold u16_max in *; cbn; lia..]. split; [|done].
  destruct x, y; cbn in *. by subst.
Qed.

Definition good_signature (s : RecordSignature) : Prop :=
  hash32 (sig_key_id s) /\ short_string (sig_algorithm s) /\ short (signature s).

#[export] Instance put_signature_inj : PrefixInj put_signature good_signature.
Proof.
  intros x y r r' (Xt & Xa & Xp) (Yt & Ya & Yp) E. unfold put_signature in E. rewrite <- !app_assoc in E.
  apply (fixed_prefix 32) in E as [E1 E]; [|done..].
  apply (prefix_inj (enc:=put_string)) in E as [E2 E]; [|done..].
  apply (prefix_inj (enc:=put_bytes)) in E as [E3 E]; [|done..]. split; [|done].
  destruct x, y; cbn in *. by subst.
Qed.

Definition good_status (s : RecordStatus) : Prop :=
  match s with Active => True | Revoked t reason => u64 t /\ short_string reason end.

#[export] Instance put_status_inj : PrefixInj put_status good_status.
Proof.
  intros [|t1 s1] [|t2 s2] r r' Hx Hy E; unfold put_status in E; [by injection E as ->|done|done|].
  rewrite <- !app_assoc in E. apply app_inv_head in E. destruct Hx as [X1 X2], Hy as [Y1 Y2].
  apply u64_prefix in E as [-> E]; [|done..]. by apply (prefix_inj (enc:=put_string)) in E as [-> ->].
Qed.

(** The same content, up to the order of the collections. *)
Definition same_content (r r' : IdentityRecord) : Prop :=
  version r = version r' /\ subject r = subject r' /\ signature_profile r = signature_profile r' /\
  sequence r = sequence r' /\ issued_at r = issued_at r' /\ expires_at r = expires_at r' /\
  previous_record r = previous_record r' /\ status r = status r' /\
  keys r ≡ₚ keys r' /\ endpoints r ≡ₚ endpoints r' /\ capabilities r ≡ₚ capabilities r'.

Lemma sorted_list_inj {A} (cmp : A -> A -> comparison) `{!CmpLaws cmp} (enc : A -> bytes) good `{!PrefixInj enc good} l k r r' :
  Forall good l -> Forall good k -> zlen l < 2 ^ 32 -> zlen k < 2 ^ 32 ->
  put_list enc (sort_by cmp l) ++ r = put_list enc (sort_by cmp k) ++ r' -> l ≡ₚ k /\ r = r'.
Proof.
  intros Hl Hk Ll Lk E. apply (prefix_inj (enc:=put_list enc)) in E as [E ->].
  - split; [|done]. by rewrite <- (sort_by_perm cmp l), E, sort_by_perm.
  - split; [by rewrite (sort_by_perm cmp l)|]. unfold zlen. by rewrite (Permutation_length (sort_by_perm cmp l)).
  - split; [by rewrite (sort_by_perm cmp k)|]. unfold zlen. by rewrite (Permutation_length (sort_by_perm cmp k)).
Qed.

Lemma content_good r : typed_record r -> content_ok r ->
  Forall good_key (keys r) /\ Forall good_endpoint (endpoints r) /\ Forall short_string (capabilities r) /\
  good_status (status r) /\ short_string (signature_profile r).
Proof.
  intros (_ & _ & _ & _ & _ & _ & Ts & Tk & Te & _) Hc. unfold short_string, short.
  destruct (co_keys r Hc) as (_ & Kk & _), (co_endpoints r Hc) as (_ & _ & Ee), (co_capabilities r Hc) as (_ & _ & Cc).
  unfold MAX_STRING_BYTES, MAX_ALGORITHM_BYTES in *.
  split; [|split; [|split; [|split]]].
  - rewrite Forall_forall in Kk, Tk |- *. intros k Hk. destruct (Kk k Hk) as (? & ? & _).
    unfold MAX_ALGORITHM_BYTES, MAX_PUBLIC_KEY_BYTES in *.
    split; [by apply Tk|]. unfold short_string, short. lia.
  - rewrite Forall_forall in Ee, Te |- *. intros e He. destruct (Ee e He) as [? ?].
    unfold good_endpoint, short_string, short. split; [lia|]. split; [lia|]. by apply Te.
  - eapply Forall_impl; [exact Cc|]. cbn. lia.
  - pose proof (co_status r Hc) as Hst. unfold good_status. destruct (status r) as [|t reason]; [done|].
    unfold short_string, short, MAX_STRING_BYTES in *. split; [done|lia].
  - pose proof (co_profile r Hc) as Hp. unfold MAX_ALGORITHM_BYTES in Hp. lia.
Qed.

Lemma payload_same r r' rest rest' : typed_record r -> typed_record r' -> content_ok r -> content_ok r' ->
  payload_bytes r ++ rest = payload_bytes r' ++ rest' -> same_content r r' /\ rest = rest'.
Proof.
  intros Ht Ht' Hc Hc' E. destruct (content_good r Ht Hc) as (K & En & C & S & P).
  destruct (content_good r' Ht' Hc') as (K' & En' & C' & S' & P').
  destruct Ht as (Tv & Ts & Tq & Ti & Te & Tp & _), Ht' as (Tv' & Ts' & Tq' & Ti' & Te' & Tp' & _).
  destruct (co_keys r Hc) as ([_ Kl] & _), (co_keys r' Hc') as ([_ Kl'] & _).
  destruct (co_endpoints r Hc) as (El & _), (co_endpoints r' Hc') as (El' & _).
  destruct (co_capabilities r Hc) as (Cl & _), (co_capabilities r' Hc') as (Cl' & _).
  unfold MAX_KEYS, MAX_ENDPOINTS, MAX_CAPABILITIES, u16_max in *.
  unfold payload_bytes in E. rewrite <- !app_assoc in E. apply app_inv_head in E.
  apply be_bytes_prefix in E as [E1 E]; [|cbn; lia..].
  apply (fixed_prefix 32) in E as [E2 E]; [|done..].
  apply (prefix_inj (enc:=put_string)) in E as [E3 E]; [|done..].
  apply u64_prefix in E as [E4 E]; [|done..]. apply u64_prefix in E as [E5 E]; [|done..]. apply u64_prefix in E as [E6 E]; [|done..].
  apply opt_hash_prefix in E as [E7 E]; [|done..].
  apply (prefix_inj (enc:=put_status)) in E as [E8 E]; [|done..].
  apply (sorted_list_inj cmp_keys put_key good_key) in E as [E9 E]; [|done|done|lia..].
  apply (sorted_list_inj cmp_endpoints put_endpoint good_endpoint) in E as [E10 E]; [|done|done|lia..].
  apply (sorted_list_inj cmp_string put_string short_string) in E as [E11 E]; [|done|done|lia..].
  split; [|done]. by repeat split.
Qed.

(** Elements the comparisons cannot tell apart. *)
Lemma cmp_keys_eq a b : cmp_keys a b = Eq -> key_id a = key_id b.
Proof.
  unfold cmp_keys, cmp_then, cmp_by, then_with. destruct (cmp_bytes (key_id a) (key_id b)) eqn:E; [|done..].
  by apply cmp_bytes_eq in E.
Qed.

Lemma cmp_string_eq a b : cmp_string a b = Eq -> a = b.
Proof. unfold cmp_string. intros E%cmp_bytes_eq. by apply str_bytes_inj. Qed.

Lemma cmp_endpoints_eq a b : cmp_endpoints a b = Eq -> a = b.
Proof.
  unfold cmp_endpoints, cmp_then, cmp_by, then_with.
  destruct (cmp_string (transport a) _) eqn:E1; [|done..]. destruct (cmp_string (address a) _) eqn:E2; [|done..].
  apply cmp_string_eq in E1, E2. intros E3%Z.compare_eq. destruct a, b; cbn in *. by subst.
Qed.

Lemma cmp_signatures_eq a b : cmp_signatures a b = Eq -> a = b.
Proof.
  unfold cmp_signatures, cmp_then, cmp_by, then_with.
  destruct (cmp_bytes (sig_key_id a) _) eqn:E1; [|done..]. destruct (cmp_string (sig_algorithm a) _) eqn:E2; [|done..].
  apply cmp_bytes_eq in E1. apply cmp_string_eq in E2. intros E3%cmp_bytes_eq. destruct a, b; cbn in *. by subst.
Qed.

Lemma NoDup_map_inj {A B} (f : A -> B) l x y : NoDup (map f l) -> x ∈ l -> y ∈ l -> f x = f y -> x = y.
Proof.
  intros Hn Hx Hy E. induction l as [|k ks IH]; [set_solver|].
  cbn [map] in Hn. apply NoDup_cons in Hn as [Hk Hn].
  apply elem_of_cons in Hx as [->|Hx], Hy as [->|Hy]; [done| | |by apply IH].
  - destruct Hk. rewrite E. apply list_elem_of_fmap. by exists y.
  - destruct Hk. rewrite <- E. apply list_elem_of_fmap. by exists x.
Qed.

Lemma same_payload r r' : content_ok r -> same_content r r' -> payload_bytes r = payload_bytes r'.
Proof.
  intros Hc (E1 & E2 & E3 & E4 & E5 & E6 & E7 & E8 & E9 & E10 & E11). unfold payload_bytes.
  rewrite E1, E2, E3, E4, E5, E6, E7, E8. destruct (co_keys r Hc) as (_ & _ & Hn).
  rewrite (sort_by_canonical cmp_keys _ _) with (2 := E9); [|].
  - rewrite (sort_by_canonical cmp_endpoints _ _) with (2 := E10); [|intros; by apply cmp_endpoints_eq].
    by rewrite (sort_by_canonical cmp_string _ _) with (2 := E11); [|intros; by apply cmp_string_eq].
  - intros x y Hx Hy E%cmp_keys_eq. by eapply NoDup_map_inj.
Qed.
End Valid.

(** ** Lemmas: verified records *)

Section Verified.
Context `{HashOps, KexOps}.

Lemma find_some {A} (f : A -> bool) l x : List.find f l = Some x -> x ∈ l /\ f x = true.
Proof. intros [Hin Hf]%List.find_some. split; [by apply list_elem_of_In|done]. Qed.

Lemma key_of_good r s k : key_of r s = Good k -> k ∈ keys r /\ key_id k = sig_key_id s.
Proof. intros E%good_or_good%find_some. destruct E as [Hin Hb]. by bool_prop. Qed.

Definition sig_ok (r : IdentityRecord) (s : RecordSignature) : Prop :=
  1 <= zlen (signature s) <= MAX_PUBLIC_KEY_BYTES /\ zlen (str_bytes (sig_algorithm s)) <= MAX_ALGORITHM_BYTES /\
  exists k, k ∈ keys r /\ key_id k = sig_key_id s /\ algorithm k = sig_algorithm s /\ accepts_record_signature (role k) = true.

Lemma check_signatures_good r root ss seen has b : check_signatures r root ss seen has = Good b ->
  Forall (sig_ok r) ss /\ (b = true -> has = true \/ exists s, s ∈ ss /\ sig_key_id s = root).
Proof.
  revert seen has. induction ss as [|s ss IH]; intros seen has HG; cbn [check_signatures] in HG.
  - injection HG as <-. split; [done|by left].
  - gpass HG as E1. ginv HG as x E2. apply validate_token_good in E2 as [E2 _]. gpass HG as E3. ginv HG as k E4.
    apply key_of_good in E4 as [Hk Hid]. gpass HG as E5. bool_prop. apply IH in HG as [Hf Hb]. split.
    + constructor; [|done]. pose proof (zlen_nonneg (signature s)). split; [lia|]. split; [lia|]. by exists k.
    + intros Hbt. destruct (Hb Hbt) as [Hh|(s' & Hs & Hr)]; [|right; exists s'; set_solver].
      case_bool_decide; [right; exists s; set_solver|by left].
Qed.

(** A signature that verifies over the payload, by a key of the record that may
    sign records and is inside its validity window. *)
Definition signed_under (policy : VerificationPolicy) (r : IdentityRecord) (s : RecordSignature) (k : IdentityKey) : Prop :=
  k ∈ keys r /\ key_id k = sig_key_id s /\ sig_algorithm s = ALGORITHM_ED25519 /\ algorithm k = sig_algorithm s /\
  accepts_record_signature (role k) = true /\
  ed25519_verify (public_key k) (payload_bytes r) (signature s) = true /\
  not_before k <= issued_at r <= not_after k /\
  not_before k <= now_secs policy + clock_skew_secs policy /\ now_secs policy <= not_after k + clock_skew_secs policy.

Lemma check_key_window_good r policy k u : check_key_window r policy k = Good u ->
  not_before k <= issued_at r <= not_after k /\
  not_before k <= now_secs policy + clock_skew_secs policy /\ now_secs policy <= not_after k + clock_skew_secs policy.
Proof.
  unfold check_key_window. intros HG. gpass HG as E1. gpass HG as E2. apply ensure_good in HG. bool_prop.
  unfold saturating_add in *. lia.
Qed.

Lemma verify_signatures_good r policy ss b v :
  content_ok r -> Forall (sig_ok r) ss -> verify_signatures r policy (payload_bytes r) ss b = Good v ->
  Forall (fun s => exists k, signed_under policy r s k) ss.
Proof.
  intros Hc Hs. revert b. induction Hs as [|s ss Hsig Hs IH]; intros b HG; [constructor|]. cbn [verify_signatures] in HG.
  ginv HG as k Ek. ginv HG as x Ew. apply key_of_good in Ek as [Hk Hid]. apply check_key_window_good in Ew.
  case_bool_decide as Ha; [|done]. gpass HG as E1. gpass HG as E2. constructor; [|by eapply IH].
  destruct Hsig as (_ & _ & k' & Hk' & Hid' & Halg & Hrole). destruct (co_keys r Hc) as (_ & _ & Hn).
  assert (k' = k) as -> by (eapply NoDup_map_inj; [done..|congruence]). by exists k.
Qed.

Definition window (policy : VerificationPolicy) (r : IdentityRecord) : Prop :=
  issued_at r <= now_secs policy + clock_skew_secs policy /\ now_secs policy <= expires_at r + clock_skew_secs policy.

Lemma canonical_good r p : canonical_payload r = Good p -> content_ok r /\ p = payload_bytes r.
Proof. unfold canonical_payload. intros HG. ginv HG as x E. apply validate_content in E. by injection HG as <-. Qed.

Lemma validate_structure_good r u : validate_structure r = Good u ->
  content_ok r /\ Forall (sig_ok r) (signatures r) /\
  exists root s, root_key r = Some root /\ s ∈ signatures r /\ sig_key_id s = key_id root.
Proof.
  unfold validate_structure. intros HG. ginv HG as x Ec. apply validate_content in Ec. gpass HG as E1.
  ginv HG as root Er. apply good_or_good in Er. ginv HG as b Es. apply check_signatures_good in Es as [Hf Hb].
  apply ensure_good in HG. subst b. destruct (Hb eq_refl) as [|(s & Hs & Hid)]; [done|].
  split; [done|]. split; [done|]. by exists root, s.
Qed.

Lemma verify_record_good policy r v : verify_record policy r = Good v ->
  v = mkVerificationResult (subject r) false /\ require_pqc_signature policy = false /\
  (forall e, expected_subject policy = Some e -> e = subject r) /\ signature_profile r = PROFILE_ED25519 /\
  content_ok r /\ window policy r /\
  Forall (fun s => exists k, signed_under policy r s k) (signatures r) /\
  exists root s, root_key r = Some root /\ subject r = derive_identity_id (public_key root) /\
    s ∈ signatures r /\ signed_under policy r s root.
Proof.
  unfold verify_record. intros HG. gpass HG as E1. ginv HG as u1 E2. apply validate_structure_good in E2 as (Hc & Hs & Hr).
  ginv HG as root Er. gpass HG as Eb. ginv HG as u2 Ee. gpass HG as E3. gpass HG as E4. gpass HG as E5.
  ginv HG as payload Ep. apply canonical_good in Ep as [_ ->]. ginv HG as valid Ev. gpass HG as E6. gpass HG as E7.
  injection HG as <-. bool_prop. apply verify_signatures_good in Ev; [|done..].
  split; [done|]. split; [done|]. split.
  { intros e He. rewrite He in Ee. apply ensure_good in Ee. by bool_prop. }
  split; [done|]. split; [done|]. split; [unfold window, saturating_add in *; lia|]. split; [done|].
  destruct Hr as (root' & s & Hroot & Hs' & Hid). exists root', s. split; [done|].
  apply good_or_good in Er. assert (root' = root) as -> by congruence. split; [done|]. split; [done|].
  rewrite Forall_forall in Ev. destruct (Ev s Hs') as (k & Hk). destruct Hk as (Hin & Hkid & Hrest).
  destruct (co_keys r Hc) as (_ & _ & Hn). apply find_some in Er as [Hroot' _].
  assert (k = root) as -> by (eapply NoDup_map_inj; [done..|congruence]). done.
Qed.
End Verified.

(** ** Lemmas: records of an identity *)

Section Built.
Context `{HashOps, KexOps, !HashLaws, !KexLaws}.

(** The two keys of a record built from an identity. *)
Definition own_key (r : KeyRole) (alg : string) (public : bytes) (issued_at expires_at : Z) : IdentityKey :=
  mkIdentityKey (derive_key_id r alg public) r alg public issued_at expires_at None.

Lemma IdentityKey_new_good r alg public a b k : IdentityKey_new r alg public a b None = Good k -> k = own_key r alg public a b.
Proof. unfold IdentityKey_new. intros HG. ginv HG as x E. case_if; try done. case_bool_decide; try done. by injection HG as <-. Qed.

Definition unsigned_record (identity : IdentityKeyPair) (sequence issued_at expires_at : Z)
    (previous_record : option bytes) (endpoints : list IdentityEndpoint) (capabilities : list string) : IdentityRecord :=
  mkIdentityRecord IDENTITY_RECORD_VERSION (derive_identity_id (signing_public identity)) PROFILE_ED25519 sequence
    issued_at expires_at previous_record Active
    [own_key RootSigning ALGORITHM_ED25519 (signing_public identity) issued_at expires_at;
     own_key IdentityBinding ALGORITHM_X25519 (public identity) issued_at expires_at] endpoints capabilities [].

Definition own_signature (identity : IdentityKeyPair) (r : IdentityRecord) : RecordSignature :=
  mkRecordSignature (derive_key_id RootSigning ALGORITHM_ED25519 (signing_public identity)) ALGORITHM_ED25519
    (ed25519_sign (sign_seed identity) (payload_bytes r)).

Lemma from_identity_good identity seq iss exp prev eps caps r :
  from_current_identity_with_previous identity seq iss exp prev eps caps = Good r ->
  let u := unsigned_record identity seq iss exp prev eps caps in
  validate_structure_without_signatures u = Good () /\ r = with_signatures [own_signature identity u] u.
Proof.
  intros HG u. unfold from_current_identity_with_previous in HG. ginv HG as root E1. ginv HG as binding E2.
  apply IdentityKey_new_good in E1 as ->, E2 as ->. fold (unsigned_record identity seq iss exp prev eps caps) in HG. fold u in HG.
  unfold sign_with_identity in HG. gpass HG as E3. gpass HG as E4. ginv HG as k E5. ginv HG as payload E6.
  unfold canonical_payload in E6. ginv E6 as x Ev. assert (payload = payload_bytes u) as -> by congruence. destruct x. split; [done|].
  unfold u, unsigned_record in E5. cbn [keys List.find own_key role algorithm public_key] in E5.
  rewrite !bool_decide_eq_true_2 in E5 by done. cbn [andb good_or] in E5. injection E5 as <-. by injection HG as <-.
Qed.

Section Own.
Context (dh sg : bytes) (k : IdentityKeyPair) (Hk : identity_of dh sg k).
Context (seq iss exp : Z) (prev : option bytes) (eps : list IdentityEndpoint) (caps : list string).
Notation u := (unsigned_record k seq iss exp prev eps caps).
Notation r := (with_signatures [own_signature k u] u).
Notation root := (own_key RootSigning ALGORITHM_ED25519 (signing_public k) iss exp).
Notation binding := (own_key IdentityBinding ALGORITHM_X25519 (public k) iss exp).

Lemma own_key_of : key_of r (own_signature k u) = Good root.
Proof. unfold key_of. cbn [keys with_signatures unsigned_record List.find]. by rewrite bool_decide_eq_true_2. Qed.

Lemma own_root_key : root_key r = Some root.
Proof. done. Qed.

Lemma own_structure : validate_structure_without_signatures u = Good () -> validate_structure r = Good ().
Proof.
  intros Hv. unfold validate_structure. change (validate_structure_without_signatures r) with (validate_structure_without_signatures u).
  rewrite Hv, own_root_key. cbn [ibind good_or]. cbn [signatures with_signatures check_signatures].
  assert (zlen (signature (own_signature k u)) = 64) as Hl by apply (ed25519_sign_bytes (sign_seed k) (payload_bytes u)).
  rewrite own_key_of, Hl. cbn [ibind sig_algorithm sig_key_id own_signature algorithm role key_id own_key].
  rewrite (bool_decide_eq_false_2 (_ ∈ [])) by set_solver. rewrite !bool_decide_eq_true_2 by done. by vm_compute.
Qed.

Lemma own_verifies policy : validate_structure_without_signatures u = Good () ->
  u64 iss -> u64 exp -> u64 (now_secs policy) -> iss <= now_secs policy <= exp ->
  0 <= clock_skew_secs policy <= MAX_CLOCK_SKEW_SECS -> require_pqc_signature policy = false ->
  (forall e, expected_subject policy = Some e -> e = derive_identity_id (signing_public k)) ->
  verify_record policy r = Good (mkVerificationResult (derive_identity_id (signing_public k)) false).
Proof.
  intros Hv Hi He Hn Hw Hs Hq Hexp. pose proof (own_structure Hv) as Hst. unfold verify_record.
  rewrite Hst, own_root_key. cbn [ibind good_or]. unfold u64, u64_max in *.
  rewrite (proj2 (Z.leb_le _ _)) by lia. cbn [ensure ibind]. rewrite bool_decide_eq_true_2 by done. cbn [ensure ibind].
  assert (match expected_subject policy with
          | Some expected => ensure (bool_decide (expected = subject r)) (InvalidRecord "record subject does not match the expected identity")
          | None => Good ()
          end = Good ()) as ->.
  { destruct (expected_subject policy) as [e|]; [|done]. rewrite (Hexp e eq_refl). by rewrite bool_decide_eq_true_2. }
  cbn [ibind]. change (issued_at r) with iss. change (expires_at r) with exp.
  assert (forall a b, a <= b -> b <= 18446744073709551615 -> saturating_add 18446744073709551615 b (clock_skew_secs policy) <? a = false) as Hsat.
  { intros a b Hab Hb. apply Z.ltb_ge. unfold saturating_add. lia. }
  rewrite !Hsat by lia. cbn [negb ensure ibind]. rewrite bool_decide_eq_true_2 by done. cbn [ensure ibind].
  unfold canonical_payload. change (validate_structure_without_signatures r) with (validate_structure_without_signatures u).
  rewrite Hv. cbn [ibind]. change (payload_bytes r) with (payload_bytes u).
  cbn [signatures with_signatures verify_signatures]. rewrite own_key_of. cbn [ibind]. unfold check_key_window.
  change (issued_at r) with iss. cbn [not_before not_after own_key].
  rewrite !Hsat by lia. rewrite !(proj2 (Z.ltb_ge _ _)) by lia. cbn [negb orb ensure ibind].
  rewrite bool_decide_eq_true_2 by done. destruct (ed25519_sign_bytes (sign_seed k) (payload_bytes u)) as [_ Hl].
  unfold own_signature. cbn [signature public_key own_key]. rewrite Hl.
  destruct Hk as (-> & Hd & Hsl). cbn [signing_public sign_seed from_seeds].
  rewrite (proj1 (ed25519_public_len sg Hsl)), ed25519_sign_verify. cbn [negb orb ensure ibind Z.eqb Pos.eqb].
  by rewrite Hq.
Qed.

Lemma own_pin policy : verify_record policy r = Good (mkVerificationResult (derive_identity_id (signing_public k)) false) ->
  iss <= now_secs policy <= exp -> to_peer_pin policy r = Good (pin_for_identity k).
Proof.
  intros Hv Hw. unfold to_peer_pin. rewrite Hv. cbn [ibind]. rewrite bool_decide_eq_true_2 by done. cbn [ensure ibind].
  assert (forall a b c, key_valid_for_record_and_policy (own_key a b c iss exp) iss policy = true) as Hval.
  { intros a b c. unfold key_valid_for_record_and_policy. cbn [not_before not_after own_key]. rewrite !(proj2 (Z.leb_le _ _)) by lia. done. }
  cbn [keys with_signatures unsigned_record List.filter List.find]. unfold current_key. change (issued_at r) with iss.
  rewrite !Hval. cbn [role algorithm own_key].
  repeat match goal with |- context [bool_decide ?P] => let b := eval vm_compute in (bool_decide P) in
    change (bool_decide P) with b end.
  cbn [andb ibind]. unfold to_32. cbn [public_key own_key zlen]. destruct Hk as (-> & Hd & Hsl). cbn [public signing_public from_seeds].
  cbn [ensure ibind zlen good_or public_key own_key]. change (zlen [] =? 0) with true. cbn [ensure ibind].
  by rewrite (proj1 (x25519_public_len dh Hd)), (proj1 (ed25519_public_len sg Hsl)).
Qed.
End Own.
End Built.

(** ** Properties *)

(** the signed payload and the record hash bind the whole record, and only
    it.  Two records of the Rust types that pass structural validation have the
    same canonical payload exactly when they agree on every field, with keys,
    endpoints and capabilities compared as sets (the payload sorts them); and
    the messages their record hashes are taken of are equal exactly when the
    signatures agree as well.  No field can be moved, dropped or reordered
    under a signature. *)
Theorem record_binds_content `{HashOps, KexOps} r r' p p' :
  typed_record r -> typed_record r' -> canonical_payload r = Good p -> canonical_payload r' = Good p' ->
  (p = p' <-> same_content r r') /\
  (Forall (fun s => good_signature s) (signatures r) -> Forall (fun s => good_signature s) (signatures r') ->
   zlen (signatures r) < 2 ^ 32 -> zlen (signatures r') < 2 ^ 32 ->
   zlen p < 2 ^ 32 -> zlen p' < 2 ^ 32 ->
   (record_message r = record_message r' <-> same_content r r' /\ signatures r ≡ₚ signatures r')).
Proof.
  intros Ht Ht' [Hc ->]%canonical_good [Hc' ->]%canonical_good.
  assert (payload_bytes r = payload_bytes r' <-> same_content r r') as Hp.
  { split; [|by apply same_payload]. intros E. apply (payload_same r r' [] []); try done. by rewrite E. }
  split; [done|]. intros Hs Hs' Ls Ls' Lp Lp'. unfold record_message. split.
  - intros E. apply app_inv_head in E. apply (prefix_inj (enc:=put_bytes)) in E as [E1%Hp E2]; [|done..].
    split; [done|]. apply (sorted_list_inj cmp_signatures put_signature good_signature _ _ [] []); try done. by rewrite !app_nil_r.
  - intros [E1%Hp E2]. rewrite E1. by rewrite (sort_by_canonical cmp_signatures _ _) with (2 := E2);
      [|intros; by apply cmp_signatures_eq].
Qed.

(** a record built from an identity verifies and pins that identity.  For
    any identity and any arguments for which the builder succeeds, and any
    policy whose clock is inside the record's lifetime, [verify] accepts the
    record for the identity's own subject and [to_peer_pin] returns exactly the
    pin the handshake would use for this identity. *)
Theorem identity_record_round_trip `{HashOps, KexOps, !HashLaws, !KexLaws} dh sg k seq iss exp prev eps caps r policy :
  identity_of dh sg k -> from_current_identity_with_previous k seq iss exp prev eps caps = Good r ->
  u64 iss -> u64 exp -> u64 (now_secs policy) -> iss <= now_secs policy <= exp ->
  0 <= clock_skew_secs policy <= MAX_CLOCK_SKEW_SECS -> require_pqc_signature policy = false ->
  (forall e, expected_subject policy = Some e -> e = derive_identity_id (signing_public k)) ->
  verify_record policy r = Good (mkVerificationResult (derive_identity_id (signing_public k)) false) /\
  to_peer_pin policy r = Good (pin_for_identity k) /\ sequence r = seq /\ previous_record r = prev.
Proof.
  intros Hk [Hv ->]%from_identity_good Hi He Hn Hw Hs Hq Hexp.
  pose proof (own_verifies dh sg k Hk seq iss exp prev eps caps policy Hv Hi He Hn Hw Hs Hq Hexp) as HV.
  split; [exact HV|]. split; [by eapply own_pin|done].
Qed.

(** C20: what a verified record and its pin guarantee.  If [verify] accepts a
    record then it is structurally valid, its subject is the hash of its only
    root key and the expected one, the clock is in its window up to the skew,
    and every signature verifies over the canonical payload under a key of the
    record that is authorised and inside its own window, one of them being the
    root key.  If [to_peer_pin] returns a pin, the record verifies, is not
    revoked, and the pin holds the root key and a binding key of the record
    that are valid now. *)
Theorem record_verification_sound `{HashOps, KexOps} policy r :
  (forall v, verify_record policy r = Good v ->
     v = mkVerificationResult (subject r) false /\ require_pqc_signature policy = false /\
     (forall e, expected_subject policy = Some e -> e = subject r) /\
     content_ok r /\ window policy r /\
     Forall (fun s => exists k, signed_under policy r s k) (signatures r) /\
     exists root s, roots (keys r) = [root] /\ subject r = derive_identity_id (public_key root) /\
       s ∈ signatures r /\ signed_under policy r s root) /\
  (forall pin, to_peer_pin policy r = Good pin ->
     status r = Active /\ (exists v, verify_record policy r = Good v) /\
     exists root binding, roots (keys r) = [root] /\ binding ∈ keys r /\ role binding = IdentityBinding /\
       key_valid_for_record_and_policy root (issued_at r) policy = true /\
       key_valid_for_record_and_policy binding (issued_at r) policy = true /\
       pin = mkPeerPin (public_key binding) (public_key root)).
Proof.
  split.
  - intros v HV. apply verify_record_good in HV as (-> & Hq & He & _ & Hc & Hw & Hs & root & s & Hr & Hsub & Hin & Hsig).
    split; [done|]. split; [done|]. split; [done|]. split; [done|]. split; [done|]. split; [done|].
    exists root, s. destruct (co_root r Hc) as (root' & E1 & E2 & _). rewrite Hr in E2. by injection E2 as <-.
  - intros pin HP. unfold to_peer_pin in HP. ginv HP as v EV. gpass HP as Ea. ginv HP as b Eb. gpass HP as Eo.
    ginv HP as k Ek. ginv HP as ip Ei. ginv HP as sp Es. injection HP as <-. bool_prop. split; [done|]. split; [by eexists|].
    apply good_or_good, find_some in Ek as [Hk Hck]. unfold current_key in Hck. bool_prop.
    destruct (List.filter _ (keys r)) as [|b' [|? ?]] eqn:Ef in Eb; [done| |done]. injection Eb as ->.
    assert (b ∈ List.filter (current_key r policy IdentityBinding ALGORITHM_X25519) (keys r)) as Hb by (rewrite Ef; set_solver).
    apply list_elem_of_In, filter_In in Hb as [Hbin Hbk]. apply list_elem_of_In in Hbin. unfold current_key in Hbk. bool_prop.
    apply verify_record_good in EV as (_ & _ & _ & _ & Hc & _). destruct (co_root r Hc) as (root & E1 & _).
    assert (k ∈ roots (keys r)) as Hkr.
    { apply list_elem_of_In, filter_In. split; [by apply list_elem_of_In|by apply bool_decide_eq_true]. }
    rewrite E1 in Hkr. apply list_elem_of_singleton in Hkr as ->.
    unfold to_32 in Ei, Es. case_if; try done. case_if; try done. exists root, b.
    split; [done|]. split; [done|]. split; [done|]. split; [done|]. split; [done|]. congruence.
Qed.

(** ** Witnesses *)

Module Witnesses.
Import Toy Handshake.Witnesses.

Definition no_record : IdentityRecord := mkIdentityRecord 0 [] "" 0 0 0 None Active [] [] [] [].
Definition tcp_endpoint : IdentityEndpoint := mkIdentityEndpoint "tcp" "192.0.2.1:7000" 3.
Definition quic_endpoint : IdentityEndpoint := mkIdentityEndpoint "quic" "[2001:db8::1]:7000" 1.
Definition built_record (eps : list IdentityEndpoint) (caps : list string) : IdentityRecord :=
  match from_current_identity alice 1 1000 5000 eps caps with Good r => r | Bad _ => no_record end.
Definition record : IdentityRecord := Eval vm_compute in built_record [tcp_endpoint; quic_endpoint] ["relay"; "chat"].
Definition reordered : IdentityRecord := Eval vm_compute in built_record [quic_endpoint; tcp_endpoint] ["chat"; "relay"].
Definition payload : bytes := Eval vm_compute in payload_bytes record.

Lemma record_binds_content_witness :
  payload = payload_bytes reordered /\ same_content record reordered /\ endpoints record <> endpoints reordered.
Proof.
  split; [vm_compute; reflexivity|]. split; [|discriminate].
  assert (typed_record record /\ typed_record reordered) as [T1 T2].
  { split; by_compute. }
  assert (canonical_payload record = Good payload) as E1 by (vm_compute; reflexivity).
  assert (canonical_payload reordered = Good payload) as E2 by (vm_compute; reflexivity).
  exact (proj1 (proj1 (record_binds_content record reordered payload payload T1 T2 E1 E2)) eq_refl).
Defined.

Lemma identity_record_round_trip_witness :
  verify_record (policy_at 3000) record = Good (mkVerificationResult (derive_identity_id (signing_public alice)) false) /\
  to_peer_pin (policy_at 3000) record = Good (pin_for_identity alice) /\ sequence record = 1 /\ previous_record record = None.
Proof.
  apply (identity_record_round_trip (zreplicate 32 1) (zreplicate 32 2) alice 1 1000 5000 None
    [tcp_endpoint; quic_endpoint] ["relay"; "chat"]).
  - split; [reflexivity|split; vm_compute; reflexivity].
  - vm_compute; reflexivity.
  - split; vm_compute; discriminate.
  - split; vm_compute; discriminate.
  - split; vm_compute; discriminate.
  - split; vm_compute; discriminate.
  - split; vm_compute; discriminate.
  - reflexivity.
  - discriminate.
Defined.

(** A verified record, and its root signature. *)
Lemma record_verification_sound_witness :
  content_ok record /\
  exists root binding, roots (keys record) = [root] /\ binding ∈ keys record /\ role binding = IdentityBinding /\
    key_valid_for_record_and_policy root (issued_at record) (policy_at 3000) = true /\
    key_valid_for_record_and_policy binding (issued_at record) (policy_at 3000) = true /\
    pin_for_identity alice = mkPeerPin (public_key binding) (public_key root).
Proof.
  destruct (record_verification_sound (policy_at 3000) record) as [HV HP].
  split.
  - apply (HV (mkVerificationResult (subject record) false)). vm_compute; reflexivity.
  - apply (HP (pin_for_identity alice)). vm_compute; reflexivity.
Defined.
End Witnesses.
