(* ===== verification/Discovery.v ===== *)
(** Identity discovery (shph-identity/src/lib.rs): plugin descriptors and the
    resolver that collects candidate records from untrusted providers, selects
    the newest verified one and remembers it, so that an identity can only move
    forward along its hash chain.  A provider is what it answers at a call; the
    file-system provider is not modelled. *)
From stdpp Require Import gmap.
From S2P Require Import Prelude Ordering Encoding Error Text Primitives SessionCrypto Handshake IdentityRecord.

Definition DISCOVERY_PLUGIN_API_VERSION : Z := 1.
Definition MAX_PROVIDER_RECORDS : Z := 1024.
Definition MAX_DISCOVERY_PROVIDERS : Z := 64.
Definition MAX_TOTAL_CANDIDATES : Z := 4096.
Definition MAX_PLUGIN_CAPABILITIES : Z := 16.

(** ** Data *)

Record DiscoveryPluginDescriptor := mkDescriptor {
  api_version : Z;
  plugin_id : string;
  provider_kind : string;
  plugin_capabilities : list string
}.

Definition descriptor_validate (d : DiscoveryPluginDescriptor) : iresult unit :=
  do^ ensure (api_version d =? DISCOVERY_PLUGIN_API_VERSION)
        (InvalidRecord ("unsupported discovery plugin API version " +:+ show (api_version d))) ;
  do^ validate_token "plugin id" (plugin_id d) MAX_STRING_BYTES ;
  do^ validate_token "provider kind" (provider_kind d) MAX_STRING_BYTES ;
  do^ ensure (zlen (plugin_capabilities d) <=? MAX_PLUGIN_CAPABILITIES)
        (InvalidRecord ("plugin exposes more than " +:+ show MAX_PLUGIN_CAPABILITIES +:+ " capabilities")) ;
  check_capabilities "plugin capability" "plugin descriptor contains duplicate capabilities" (plugin_capabilities d) [].

Definition descriptor_new (plugin_id provider_kind : string) (capabilities : list string) : iresult DiscoveryPluginDescriptor :=
  let descriptor := mkDescriptor DISCOVERY_PLUGIN_API_VERSION plugin_id provider_kind capabilities in
  do^ descriptor_validate descriptor ; Good descriptor.

Definition descriptor_minimal (plugin_id : string) : DiscoveryPluginDescriptor :=
  mkDescriptor DISCOVERY_PLUGIN_API_VERSION plugin_id "unknown" [].

(** What a provider answers during one call; [None] is a panic. *)
Record DiscoveryProvider := mkProvider {
  provider_description : option (string * DiscoveryPluginDescriptor);
  fetch : bytes -> option (iresult (list IdentityRecord))
}.

Record AcceptedRecord := mkAccepted { accepted_sequence : Z; accepted_hash : bytes }.

Record DiscoveryResolver := mkResolver { accepted : gmap bytes AcceptedRecord }.

Definition DiscoveryResolver_new : DiscoveryResolver := mkResolver ∅.

Record Resolution := mkResolution {
  resolved : IdentityRecord;
  resolved_hash : bytes;
  providers_consulted : Z;
  invalid_candidates : Z
}.

(** ** Collecting the candidates *)

(** The candidates and the provider failures after one provider. *)
Definition consult (subject : bytes) (p : DiscoveryProvider) (st : list IdentityRecord * Z) : list IdentityRecord * Z :=
  let '(candidates, failures) := st in
  match provider_description p with
  | None => (candidates, failures + 1)
  | Some (provider_id, descriptor) =>
      match descriptor_validate descriptor with
      | Bad _ => (candidates, failures + 1)
      | Good _ =>
          if negb (bool_decide (plugin_id descriptor = provider_id)) then (candidates, failures + 1)
          else
            match fetch p subject with
            | None => (candidates, failures + 1)
            | Some (Bad _) => (candidates, failures + 1)
            | Some (Good records) =>
                if MAX_PROVIDER_RECORDS <? zlen records then (candidates, failures + 1)
                else if MAX_TOTAL_CANDIDATES <? saturating_add usize_max (zlen candidates) (zlen records)
                then (candidates, failures + 1)
                else (candidates ++ records, failures)
            end
      end
  end.

Fixpoint collect (subject : bytes) (ps : list DiscoveryProvider) (st : list IdentityRecord * Z) : list IdentityRecord * Z :=
  match ps with
  | [] => st
  | p :: ps => collect subject ps (consult subject p st)
  end.

(** ** Selecting *)

(** [BTreeMap<u64, BTreeMap<RecordHash, IdentityRecord>>] *)
Notation by_sequence := (gmap Z (gmap bytes IdentityRecord)).

(** [entry(sequence).or_default().entry(hash).or_insert(record)] *)
Definition or_insert (q : Z) (h : bytes) (r : IdentityRecord) (m : by_sequence) : by_sequence :=
  let inner := default ∅ (m !! q) in
  <[q := match inner !! h with Some _ => inner | None => <[h := r]> inner end]> m.

(** [iter().next_back()]: the entry of the largest key. *)
Definition last_entry (m : by_sequence) : option (Z * gmap bytes IdentityRecord) :=
  foldr (fun e best => match best with
                       | Some b => if e.1 <? b.1 then Some b else Some e
                       | None => Some e
                       end) None (map_to_list m).

Section Resolver.
Context `{HashOps, KexOps}.

(** The loop over the candidates: the verified ones by sequence and hash, and
    how many were invalid. *)
Fixpoint admit_candidates (subj : bytes) (policy : VerificationPolicy) (cs : list IdentityRecord)
    (m : by_sequence) (invalid : Z) : iresult (by_sequence * Z) :=
  match cs with
  | [] => Good (m, invalid)
  | r :: cs =>
      if negb (bool_decide (subject r = subj)) then admit_candidates subj policy cs m (invalid + 1)
      else
        match verify_record policy r with
        | Bad _ => admit_candidates subj policy cs m (invalid + 1)
        | Good _ => let^ h := record_hash r in admit_candidates subj policy cs (or_insert (sequence r) h r m) invalid
        end
  end.

(** The newest verified record, with its hash; [None] is a panic. *)
Definition newest (m : by_sequence) : option (iresult (Z * bytes * IdentityRecord)) :=
  match last_entry m with
  | None => Some (Bad NotFound)
  | Some (q, records) =>
      if 1 <? Z.of_nat (size records) then Some (Bad (Conflict q))
      else
        match map_to_list records with
        | (h, r) :: _ => Some (Good (q, h, r))
        | [] => None (* [expect("records was checked to contain one entry")] *)
        end
  end.

(** Against the record accepted before; whether the new one has to be stored. *)
Definition continuity (previous : option AcceptedRecord) (q : Z) (h : bytes) (r : IdentityRecord) : iresult bool :=
  match previous with
  | Some prev =>
      if q <? accepted_sequence prev then Bad Replay
      else if q =? accepted_sequence prev then
        if bool_decide (h = accepted_hash prev) then Good false else Bad (Conflict q)
      else if negb (q =? saturating_add u64_max (accepted_sequence prev) 1)
              || negb (bool_decide (previous_record r = Some (accepted_hash prev)))
      then Bad Replay
      else Good true
  | None => if negb (q =? 1) then Bad Replay else Good true
  end.

Definition resolve_candidates (s : DiscoveryResolver) (subj : bytes) (policy : VerificationPolicy)
    (consulted : Z) (candidates : list IdentityRecord) : option (iresult Resolution) * DiscoveryResolver :=
  match admit_candidates subj policy candidates ∅ 0 with
  | Bad e => (Some (Bad e), s)
  | Good (valid_by_sequence, invalid) =>
      match newest valid_by_sequence with
      | None => (None, s)
      | Some (Bad e) => (Some (Bad e), s)
      | Some (Good (q, h, r)) =>
          match continuity (accepted s !! subj) q h r with
          | Bad e => (Some (Bad e), s)
          | Good store =>
              (Some (Good (mkResolution r h consulted invalid)),
               if store then mkResolver (<[subj := mkAccepted q h]> (accepted s)) else s)
          end
      end
  end.

Definition resolve (subj : bytes) (providers : list DiscoveryProvider) (policy : VerificationPolicy)
    (s : DiscoveryResolver) : option (iresult Resolution) * DiscoveryResolver :=
  if MAX_DISCOVERY_PROVIDERS <? zlen providers
  then (Some (Bad (InvalidRecord ("resolution requested with more than " +:+ show MAX_DISCOVERY_PROVIDERS +:+ " providers"))), s)
  else if MAX_CLOCK_SKEW_SECS <? clock_skew_secs policy
  then (Some (Bad (InvalidRecord "verification clock skew exceeds the safety limit")), s)
  else
    let '(candidates, failures) := collect subj providers ([], 0) in
    match candidates with
    | [] =>
        if negb (zlen providers =? 0) && (failures =? zlen providers)
        then (Some (Bad (ProviderUnavailable "all configured discovery providers failed")), s)
        else (Some (Bad NotFound), s)
    | _ => resolve_candidates s subj policy (zlen providers) candidates
    end.
End Resolver.

(** ** Lemmas: the map of verified records *)

Definition entry_ge (e : Z * gmap bytes IdentityRecord) (best : option (Z * gmap bytes IdentityRecord)) :
    option (Z * gmap bytes IdentityRecord) :=
  match best with Some b => if e.1 <? b.1 then Some b else Some e | None => Some e end.

Lemma fold_entries l : match foldr entry_ge None l with
  | None => l = []
  | Some b => b ∈ l /\ forall e, e ∈ l -> e.1 <= b.1
  end.
Proof.
  induction l as [|e l IH]; [done|]. cbn [foldr]. unfold entry_ge at 1. destruct (foldr entry_ge None l) as [b|].
  - destruct IH as [Hin Hmax]. destruct (Z.ltb_spec e.1 b.1); (split; [set_solver|]);
      intros e' [->|He]%elem_of_cons; try lia; specialize (Hmax e' He); lia.
  - subst l. split; [set_solver|]. intros e' [->|He]%elem_of_cons; [lia|set_solver].
Qed.

Lemma last_entry_spec m : match last_entry m with
  | None => m = ∅
  | Some (q, i) => m !! q = Some i /\ forall q' i', m !! q' = Some i' -> q' <= q
  end.
Proof.
  unfold last_entry. pose proof (fold_entries (map_to_list m)) as HF. unfold entry_ge in HF.
  destruct (foldr _ None (map_to_list m)) as [[q i]|].
  - destruct HF as [Hin Hmax]. split; [by apply elem_of_map_to_list|].
    intros q' i' Hq. apply (Hmax (q', i')). by apply elem_of_map_to_list.
  - by apply map_to_list_empty_iff.
Qed.

Section Selection.
Context `{HashOps, KexOps}.

Definition hash_of (r : IdentityRecord) : bytes := sha256 (record_message r).

(** The map holds exactly the records of [V], by sequence and hash. *)
Record holds (m : by_sequence) (V : list IdentityRecord) : Prop := {
  h_some q i : m !! q = Some i -> exists h r, i !! h = Some r;
  h_in q i h r : m !! q = Some i -> i !! h = Some r -> r ∈ V /\ sequence r = q /\ hash_of r = h;
  h_all r : r ∈ V -> exists i r', m !! sequence r = Some i /\ i !! hash_of r = Some r'
}.

Lemma or_insert_lookup q h r m :
  exists i, or_insert q h r m !! q = Some i /\ is_Some (i !! h) /\
    (forall h' r', i !! h' = Some r' -> default ∅ (m !! q) !! h' = Some r' \/ (h' = h /\ r' = r)) /\
    (forall h' r', default ∅ (m !! q) !! h' = Some r' -> i !! h' = Some r').
Proof.
  unfold or_insert. set (inner := default ∅ (m !! q)). eexists. split; [apply lookup_insert_eq|].
  destruct (inner !! h) as [r0|] eqn:E; [by eauto|].
  split; [rewrite lookup_insert_eq; by eauto|]. split.
  - intros h' r' Hl. destruct (decide (h' = h)) as [->|Hne].
    + rewrite lookup_insert_eq in Hl. injection Hl as <-. by right.
    + rewrite lookup_insert_ne in Hl by done. by left.
  - intros h' r' Hl. rewrite lookup_insert_ne by congruence. done.
Qed.

Lemma or_insert_holds m V r : holds m V -> holds (or_insert (sequence r) (hash_of r) r m) (V ++ [r]).
Proof.
  intros Hm. destruct (or_insert_lookup (sequence r) (hash_of r) r m) as (j & Ej & [rj Hj] & Hback & Hfwd).
  assert (forall q, q <> sequence r -> or_insert (sequence r) (hash_of r) r m !! q = m !! q) as Hother.
  { intros q Hq. apply lookup_insert_ne. congruence. }
  assert (forall h s, default ∅ (m !! sequence r) !! h = Some s -> exists i, m !! sequence r = Some i /\ i !! h = Some s) as Hd.
  { intros h s Hs. destruct (m !! sequence r) as [i|] eqn:E; [by exists i|cbn in Hs; by rewrite lookup_empty in Hs]. }
  split.
  - intros q i Hq. destruct (decide (q = sequence r)) as [->|Hne].
    + rewrite Ej in Hq. injection Hq as <-. by eauto.
    + rewrite Hother in Hq by done. by eapply (h_some m V Hm).
  - intros q i h s Hq Hs. destruct (decide (q = sequence r)) as [->|Hne].
    + rewrite Ej in Hq. injection Hq as <-. destruct (Hback h s Hs) as [Hold|[-> ->]]; [|set_solver].
      apply Hd in Hold as (i & Ei & His). destruct (h_in m V Hm _ _ _ _ Ei His) as (? & ? & ?). set_solver.
    + rewrite Hother in Hq by done. destruct (h_in m V Hm _ _ _ _ Hq Hs) as (? & ? & ?). set_solver.
  - intros s [Hs|Hs%list_elem_of_singleton]%elem_of_app; [|subst s; by exists j, rj].
    destruct (h_all m V Hm s Hs) as (i & s' & Ei & His).
    destruct (decide (sequence s = sequence r)) as [E|Hne].
    + exists j, s'. rewrite E in Ei |- *. split; [done|]. apply Hfwd. by rewrite Ei.
    + exists i, s'. by rewrite Hother.
Qed.

(** [q] and [h] are the sequence and the hash of the newest of [V]. *)
Definition newest_of (V : list IdentityRecord) (q : Z) (h : bytes) : Prop :=
  forall r, r ∈ V -> sequence r <= q /\ (sequence r = q -> hash_of r = h).

Lemma newest_good m V q h r : holds m V -> newest m = Some (Good (q, h, r)) ->
  r ∈ V /\ sequence r = q /\ hash_of r = h /\ newest_of V q h.
Proof.
  intros Hm. unfold newest. pose proof (last_entry_spec m) as HL. destruct (last_entry m) as [[q' i]|]; [|done].
  destruct HL as [Ei Hmax]. destruct (Z.ltb_spec 1 (Z.of_nat (size i))) as [|Hsz]; [done|].
  destruct (map_to_list i) as [|[h' r'] l] eqn:El; [done|]. intros [= <- <- <-].
  assert (i !! h' = Some r') as Hr by (apply elem_of_map_to_list; rewrite El; set_solver).
  destruct (h_in m V Hm _ _ _ _ Ei Hr) as (Hin & Hs & Hh). split; [done|]. split; [done|]. split; [done|].
  intros s HsV. destruct (h_all m V Hm s HsV) as (j & s' & Ej & Hj). split; [by eapply Hmax|].
  intros E. rewrite E, Ei in Ej. injection Ej as <-.
  pose proof (length_map_to_list i) as Hlen. rewrite El in Hlen. cbn in Hlen. destruct l; [|cbn in Hlen; lia].
  apply elem_of_map_to_list in Hj. rewrite El in Hj. apply list_elem_of_singleton in Hj. congruence.
Qed.

Lemma newest_found m V q h r : holds m V -> r ∈ V -> sequence r = q -> hash_of r = h -> newest_of V q h ->
  exists r', newest m = Some (Good (q, h, r')).
Proof.
  intros Hm Hr Hq Hh Hn. unfold newest. pose proof (last_entry_spec m) as HL.
  destruct (h_all m V Hm r Hr) as (i & r' & Ei & Hi). rewrite Hq in Ei. rewrite Hh in Hi.
  destruct (last_entry m) as [[q' j]|]; [|subst m; by rewrite lookup_empty in Ei].
  destruct HL as [Ej Hmax]. assert (q' = q) as ->.
  { pose proof (Hmax _ _ Ei). destruct (h_some m V Hm _ _ Ej) as (h1 & r1 & Hl1).
    destruct (h_in m V Hm _ _ _ _ Ej Hl1) as (Hin1 & Hs1 & _). destruct (Hn r1 Hin1). lia. }
  rewrite Ej in Ei. injection Ei as ->.
  assert (i = {[h := r']}) as ->.
  { apply map_eq. intros h1. destruct (decide (h1 = h)) as [->|Hne]; [by rewrite lookup_singleton_eq|].
    rewrite lookup_singleton_ne by congruence. destruct (i !! h1) as [r1|] eqn:E1; [|done].
    destruct (h_in m V Hm _ _ _ _ Ej E1) as (Hin1 & Hs1 & Hh1). destruct (Hn r1 Hin1) as [_ Hc]. specialize (Hc Hs1). congruence. }
  rewrite map_size_singleton, map_to_list_singleton. cbn. by exists r'.
Qed.

Lemma newest_no_panic m V : holds m V -> newest m <> None.
Proof.
  intros Hm. unfold newest. pose proof (last_entry_spec m) as HL. destruct (last_entry m) as [[q i]|]; [|done].
  destruct HL as [Ei _]. destruct (1 <? _); [done|]. destruct (h_some m V Hm _ _ Ei) as (h & r & Hr).
  destruct (map_to_list i) as [|[? ?] l] eqn:El; [|done].
  apply elem_of_map_to_list in Hr. rewrite El in Hr. set_solver.
Qed.

(** ** Lemmas: admission of the candidates *)

Definition verified (subj : bytes) (policy : VerificationPolicy) (r : IdentityRecord) : bool :=
  bool_decide (subject r = subj) && match verify_record policy r with Good _ => true | Bad _ => false end.

Lemma verified_spec subj policy r :
  verified subj policy r = true <-> subject r = subj /\ exists v, verify_record policy r = Good v.
Proof.
  unfold verified. rewrite andb_true_iff, bool_decide_eq_true.
  destruct (verify_record policy r); naive_solver.
Qed.

Lemma structure_hash r u : validate_structure r = Good u -> record_hash r = Good (hash_of r).
Proof.
  intros E. unfold record_hash. rewrite E. cbn [ibind]. unfold validate_structure in E.
  apply ibind_good in E as (x & E & _). unfold canonical_payload. by rewrite E.
Qed.

Lemma verified_hash policy r v : verify_record policy r = Good v -> record_hash r = Good (hash_of r).
Proof. unfold verify_record. intros E. gpass E as E1. ginv E as u E2. by eapply structure_hash. Qed.

Lemma admit_spec subj policy cs : forall m invalid V, holds m V ->
  exists m', admit_candidates subj policy cs m invalid =
      Good (m', invalid + (zlen cs - zlen (List.filter (verified subj policy) cs))) /\
    holds m' (V ++ List.filter (verified subj policy) cs).
Proof.
  induction cs as [|r cs IH]; intros m invalid V Hm; cbn [admit_candidates List.filter].
  - exists m. rewrite app_nil_r. split; [|done]. repeat f_equal. cbn. lia.
  - assert (verified subj policy r = false -> exists m',
      admit_candidates subj policy cs m (invalid + 1) =
        Good (m', invalid + (zlen (r :: cs) - zlen (if verified subj policy r then r :: List.filter (verified subj policy) cs else List.filter (verified subj policy) cs))) /\
      holds m' (V ++ (if verified subj policy r then r :: List.filter (verified subj policy) cs else List.filter (verified subj policy) cs))) as Hbad.
    { intros ->. destruct (IH m (invalid + 1) V Hm) as (m' & E & Hm'). exists m'. split; [|done]. rewrite E.
      do 2 f_equal. rewrite zlen_cons. lia. }
    case_bool_decide as Hs; cbn [negb]; [|apply Hbad; unfold verified; by rewrite bool_decide_eq_false_2].
    destruct (verify_record policy r) as [v|e] eqn:Ev; [|apply Hbad; unfold verified; by rewrite Ev, andb_false_r].
    assert (verified subj policy r = true) as -> by (apply verified_spec; by eauto).
    rewrite (verified_hash policy r v Ev). cbn [ibind].
    destruct (IH _ invalid (V ++ [r]) (or_insert_holds m V r Hm)) as (m' & E & Hm'). exists m'.
    rewrite <- app_assoc in Hm'. split; [|done]. rewrite E. do 2 f_equal. rewrite !zlen_cons. lia.
Qed.

Lemma holds_empty : holds ∅ [].
Proof. split; intros *; [by rewrite lookup_empty|by rewrite lookup_empty|set_solver]. Qed.

Lemma admit_candidates_spec subj policy cs :
  exists m, admit_candidates subj policy cs ∅ 0 = Good (m, zlen cs - zlen (List.filter (verified subj policy) cs)) /\
    holds m (List.filter (verified subj policy) cs).
Proof. destruct (admit_spec subj policy cs ∅ 0 [] holds_empty) as (m & E & Hm). by exists m. Qed.
End Selection.

(** ** Lemmas: one resolution *)

Section Resolving.
Context `{HashOps, KexOps}.

Definition candidates_of (subj : bytes) (providers : list DiscoveryProvider) : list IdentityRecord :=
  (collect subj providers ([], 0)).1.

(** The candidates that verify for the subject. *)
Definition verified_candidates (subj : bytes) (policy : VerificationPolicy) (providers : list DiscoveryProvider) :
    list IdentityRecord := List.filter (verified subj policy) (candidates_of subj providers).

(** [r], of hash [h], continues what was accepted before. *)
Definition continues (previous : option AcceptedRecord) (h : bytes) (r : IdentityRecord) : Prop :=
  match previous with
  | None => sequence r = 1
  | Some a => (sequence r = accepted_sequence a /\ h = accepted_hash a) \/
              (sequence r = accepted_sequence a + 1 /\ previous_record r = Some (accepted_hash a))
  end.

Lemma continuity_good prev h r b : continuity prev (sequence r) h r = Good b ->
  continues prev h r /\ (b = false -> prev = Some (mkAccepted (sequence r) h)).
Proof.
  unfold continuity, continues, saturating_add. destruct prev as [[q h']|]; cbn.
  - destruct (Z.ltb_spec (sequence r) q); [done|]. destruct (Z.eqb_spec (sequence r) q) as [<-|Hne].
    + case_bool_decide as Hh; [|done]. intros [= <-]. subst h'. split; [by left|done].
    + case_if; [done|]. intros [= <-]. bool_prop. split; [right; split; [lia|done]|done].
  - case_if; [done|]. intros [= <-]. bool_prop. done.
Qed.

Lemma continuity_continues prev h r : sequence r <= u64_max -> continues prev h r ->
  exists b, continuity prev (sequence r) h r = Good b.
Proof.
  unfold continuity, continues, saturating_add. intros Hu. destruct prev as [[q h']|]; cbn.
  - intros [[-> ->]|[E ->]].
    + rewrite Z.ltb_irrefl, Z.eqb_refl, bool_decide_eq_true_2 by done. by eexists.
    + rewrite E in *. destruct (Z.ltb_spec (q + 1) q); [lia|]. destruct (Z.eqb_spec (q + 1) q); [lia|].
      rewrite bool_decide_eq_true_2 by done. replace (Z.min u64_max (q + 1)) with (q + 1) by lia.
      rewrite Z.eqb_refl. by eexists.
  - intros ->. by eexists.
Qed.

(** The record of a resolution is the newest verified candidate. *)
Definition answers_newest (V : list IdentityRecord) (R : Resolution) : Prop :=
  resolved R ∈ V /\ resolved_hash R = hash_of (resolved R) /\ newest_of V (sequence (resolved R)) (resolved_hash R).

Lemma resolve_candidates_spec s subj policy n cs :
  let V := List.filter (verified subj policy) cs in
  match resolve_candidates s subj policy n cs with
  | (None, _) => False
  | (Some (Bad _), s') => s' = s
  | (Some (Good R), s') =>
      answers_newest V R /\ continues (accepted s !! subj) (resolved_hash R) (resolved R) /\
      invalid_candidates R = zlen cs - zlen V /\
      accepted s' = <[subj := mkAccepted (sequence (resolved R)) (resolved_hash R)]> (accepted s)
  end.
Proof.
  intros V. unfold resolve_candidates. destruct (admit_candidates_spec subj policy cs) as (m & -> & Hm). fold V in Hm |- *.
  pose proof (newest_no_panic m V Hm) as Hp. destruct (newest m) as [[[[q h] r]|e]|] eqn:En; [|done|done].
  destruct (newest_good m V q h r Hm En) as (Hin & <- & <- & Hn).
  destruct (continuity _ _ _ _) as [b|e] eqn:Ec; [|done]. cbn.
  apply continuity_good in Ec as [Hc Hb]. split; [done|]. split; [done|]. split; [done|].
  destruct b; cbn; [done|]. rewrite insert_id; [done|by apply Hb].
Qed.

Lemma resolve_spec s subj ps policy :
  let V := verified_candidates subj policy ps in
  match resolve subj ps policy s with
  | (None, _) => False
  | (Some (Bad _), s') => s' = s
  | (Some (Good R), s') =>
      answers_newest V R /\ continues (accepted s !! subj) (resolved_hash R) (resolved R) /\
      accepted s' = <[subj := mkAccepted (sequence (resolved R)) (resolved_hash R)]> (accepted s)
  end.
Proof.
  intros V. unfold resolve, V, verified_candidates, candidates_of. case_if; [done|]. case_if; [done|].
  destruct (collect subj ps ([], 0)) as [cs failures]. cbn [fst].
  destruct cs as [|c cs]; [by case_if|].
  pose proof (resolve_candidates_spec s subj policy (zlen ps) (c :: cs)) as HS. cbn zeta in HS.
  destruct (resolve_candidates s subj policy (zlen ps) (c :: cs)) as [[[R|e]|] s']; [|done|done].
  destruct HS as (H1 & H2 & _ & H4). done.
Qed.

Lemma resolve_finds s subj ps policy r :
  let V := verified_candidates subj policy ps in
  zlen ps <= MAX_DISCOVERY_PROVIDERS -> clock_skew_secs policy <= MAX_CLOCK_SKEW_SECS ->
  r ∈ V -> newest_of V (sequence r) (hash_of r) -> sequence r <= u64_max ->
  (forall r', r' ∈ V -> sequence r' = sequence r -> continues (accepted s !! subj) (hash_of r) r') ->
  exists R s', resolve subj ps policy s = (Some (Good R), s') /\
    sequence (resolved R) = sequence r /\ resolved_hash R = hash_of r.
Proof.
  intros V Hps Hsk Hr Hn Hu Hc. unfold resolve.
  destruct (Z.ltb_spec MAX_DISCOVERY_PROVIDERS (zlen ps)); [lia|].
  destruct (Z.ltb_spec MAX_CLOCK_SKEW_SECS (clock_skew_secs policy)); [lia|].
  unfold V, verified_candidates, candidates_of in *. destruct (collect subj ps ([], 0)) as [cs failures]. cbn [fst] in *.
  assert (exists R s', resolve_candidates s subj policy (zlen ps) cs = (Some (Good R), s') /\
    sequence (resolved R) = sequence r /\ resolved_hash R = hash_of r) as HR; [|destruct cs; [cbn in Hr; set_solver|done]].
  unfold resolve_candidates. destruct (admit_candidates_spec subj policy cs) as (m & -> & Hm).
  destruct (newest_found m _ _ _ r Hm Hr eq_refl eq_refl Hn) as (r' & En). rewrite En.
  destruct (newest_good m _ _ _ r' Hm En) as (Hin' & Hs' & Hh' & _).
  rewrite <- Hs'. destruct (continuity_continues (accepted s !! subj) (hash_of r) r') as (b & ->); [lia|by apply Hc|].
  by do 2 eexists.
Qed.
End Resolving.

(** ** Lemmas: collecting *)

Lemma in_twice {A} (x y : A) : x ∈ [y; y] -> x = y.
Proof. set_solver. Qed.

(** What one provider contributes on its own. *)
Definition offered (subj : bytes) (p : DiscoveryProvider) : list IdentityRecord := (consult subj p ([], 0)).1.

Lemma consult_offered subj p cs f : zlen cs + zlen (offered subj p) <= MAX_TOTAL_CANDIDATES ->
  (consult subj p (cs, f)).1 = cs ++ offered subj p.
Proof.
  unfold offered, consult, saturating_add. pose proof (zlen_nonneg cs) as Hcs.
  destruct (provider_description p) as [[id d]|]; [|by rewrite app_nil_r].
  destruct (descriptor_validate d); [|by rewrite app_nil_r]. case_if; [by rewrite app_nil_r|].
  destruct (fetch p subj) as [[rs|e]|]; [|by rewrite app_nil_r..]. case_if; [by rewrite app_nil_r|].
  rewrite zlen_nil. bool_prop. unfold MAX_PROVIDER_RECORDS, MAX_TOTAL_CANDIDATES, usize_max, u64_max in *.
  destruct (Z.ltb_spec 4096 (Z.min 18446744073709551615 (0 + zlen rs))); [lia|]. cbn [fst app].
  intros Hl. by destruct (Z.ltb_spec 4096 (Z.min 18446744073709551615 (zlen cs + zlen rs))); [lia|].
Qed.

Lemma collect_offered subj ps cs f : zlen cs + zlen (flat_map (offered subj) ps) <= MAX_TOTAL_CANDIDATES ->
  (collect subj ps (cs, f)).1 = cs ++ flat_map (offered subj) ps.
Proof.
  revert cs f. induction ps as [|p ps IH]; intros cs f Hl; cbn [collect flat_map] in *; [by rewrite app_nil_r|].
  rewrite zlen_app in Hl. pose proof (zlen_nonneg (flat_map (offered subj) ps)).
  pose proof (consult_offered subj p cs f ltac:(lia)) as E. destruct (consult subj p (cs, f)) as [cs' f']. cbn [fst] in E.
  rewrite IH; subst cs'; [by rewrite app_assoc|rewrite zlen_app; lia].
Qed.

(** ** Lemmas: sequences of resolutions *)

Section Runs.
Context `{HashOps, KexOps}.

Record Call := mkCall { call_subject : bytes; call_providers : list DiscoveryProvider; call_policy : VerificationPolicy }.

Fixpoint resolve_all (calls : list Call) (s : DiscoveryResolver) : list (option (iresult Resolution)) * DiscoveryResolver :=
  match calls with
  | [] => ([], s)
  | c :: calls =>
      let '(o, s) := resolve (call_subject c) (call_providers c) (call_policy c) s in
      let '(os, s) := resolve_all calls s in
      (o :: os, s)
  end.

(** The resolutions of one subject, with the call that gave each. *)
Fixpoint answers_for (subj : bytes) (calls : list Call) (outs : list (option (iresult Resolution))) : list (Call * Resolution) :=
  match calls, outs with
  | c :: calls, o :: outs =>
      match o with
      | Some (Good R) => if bool_decide (call_subject c = subj) then (c, R) :: answers_for subj calls outs else answers_for subj calls outs
      | _ => answers_for subj calls outs
      end
  | _, _ => []
  end.

Definition accept (cR : Call * Resolution) : AcceptedRecord := mkAccepted (sequence (resolved cR.2)) (resolved_hash cR.2).

(** Each answer repeats the one before it or is its successor on the hash chain. *)
Fixpoint chained (previous : option AcceptedRecord) (l : list (Call * Resolution)) : Prop :=
  match l with
  | [] => True
  | cR :: l => continues previous (resolved_hash cR.2) (resolved cR.2) /\ chained (Some (accept cR)) l
  end.

Definition last_accept (previous : option AcceptedRecord) (l : list (Call * Resolution)) : option AcceptedRecord :=
  match last l with Some cR => Some (accept cR) | None => previous end.

Lemma last_accept_cons prev x l : last_accept prev (x :: l) = last_accept (Some (accept x)) l.
Proof. unfold last_accept. rewrite last_cons. by destruct (last l). Qed.

Definition vouched (subj : bytes) (cR : Call * Resolution) : Prop :=
  call_subject cR.1 = subj /\ answers_newest (verified_candidates subj (call_policy cR.1) (call_providers cR.1)) cR.2.

Lemma resolve_all_spec calls s outs s' subj : resolve_all calls s = (outs, s') ->
  let l := answers_for subj calls outs in
  Forall (fun o => o <> None) outs /\ Forall (vouched subj) l /\ chained (accepted s !! subj) l /\
  accepted s' !! subj = last_accept (accepted s !! subj) l.
Proof.
  revert s outs. induction calls as [|c calls IH]; intros s outs HR l; cbn [resolve_all] in HR.
  - injection HR as <- <-. done.
  - pose proof (resolve_spec s (call_subject c) (call_providers c) (call_policy c)) as HS. cbn zeta in HS.
    destruct (resolve (call_subject c) (call_providers c) (call_policy c) s) as [o s1].
    destruct (resolve_all calls s1) as [os s2] eqn:E2. injection HR as <- <-.
    destruct (IH s1 os E2) as (P & F & C & L). unfold l. cbn [answers_for].
    destruct o as [[R|e]|]; [| |done].
    + destruct HS as (Ha & Hc & Es). rewrite Es in C, L. case_bool_decide as Hsub.
      * subst subj. rewrite lookup_insert_eq in C, L. rewrite last_accept_cons.
        split; [by constructor|]. split; [by constructor|]. done.
      * rewrite lookup_insert_ne in C, L by done. split; [by constructor|]. done.
    + subst s1. split; [by constructor|]. done.
Qed.

Definition not_before_answer (a : AcceptedRecord) (cR : Call * Resolution) : Prop :=
  accepted_sequence a <= sequence (resolved cR.2) /\
  (accepted_sequence a = sequence (resolved cR.2) -> accepted_hash a = resolved_hash cR.2).

Lemma chained_after a l : chained (Some a) l -> Forall (not_before_answer a) l.
Proof.
  revert a. induction l as [|x l IH]; intros a; [constructor|]. intros [Hx Hl]. unfold not_before_answer. constructor.
  - cbn in Hx. destruct Hx as [[-> ->]|[-> _]]; split; try done; lia.
  - specialize (IH _ Hl). eapply Forall_impl; [exact IH|]. unfold not_before_answer, accept. cbn. cbn in Hx.
    intros y [Hy1 Hy2]. destruct Hx as [[Hx1 Hx2]|[Hx1 _]]; [|split; lia].
    split; [lia|]. intros E. rewrite <- Hx2. apply Hy2. lia.
Qed.

Lemma chained_sorted prev l i j x y : chained prev l -> (i < j)%nat -> l !! i = Some x -> l !! j = Some y ->
  not_before_answer (accept x) y.
Proof.
  revert prev i j. induction l as [|z l IH]; intros prev i j; [done|]. intros [_ Hl] Hij.
  destruct j as [|j]; [lia|]. destruct i as [|i].
  - intros [= <-] Hy. pose proof (chained_after _ _ Hl) as HF. rewrite Forall_lookup in HF. by eapply HF.
  - intros Hx Hy. eapply IH; [exact Hl| |done|done]. lia.
Qed.
End Runs.

(** ** Properties *)

(** one resolution is decided by the verified candidates.  It never panics;
    a resolution it returns is a candidate that verifies for the subject, of the
    largest sequence among those and with no other record at that sequence, that
    continues the record accepted before, and it is remembered; an error leaves
    the resolver as it was.  Conversely, whenever the newest verified candidates
    agree on one hash and continue what was accepted, that record is found; and
    providers that fail, panic, misdescribe themselves or answer with garbage
    hide no candidate of the others while the total stays within its limit. *)
Theorem resolve_exact `{HashOps, KexOps} s subj ps policy :
  let V := verified_candidates subj policy ps in
  (resolve subj ps policy s).1 <> None /\
  (forall R s', resolve subj ps policy s = (Some (Good R), s') ->
     answers_newest V R /\ continues (accepted s !! subj) (resolved_hash R) (resolved R) /\
     accepted s' = <[subj := mkAccepted (sequence (resolved R)) (resolved_hash R)]> (accepted s)) /\
  (forall e s', resolve subj ps policy s = (Some (Bad e), s') -> s' = s) /\
  (forall r, zlen ps <= MAX_DISCOVERY_PROVIDERS -> clock_skew_secs policy <= MAX_CLOCK_SKEW_SECS ->
     r ∈ V -> newest_of V (sequence r) (hash_of r) -> sequence r <= u64_max ->
     (forall r', r' ∈ V -> sequence r' = sequence r -> continues (accepted s !! subj) (hash_of r) r') ->
     exists R s', resolve subj ps policy s = (Some (Good R), s') /\
       sequence (resolved R) = sequence r /\ resolved_hash R = hash_of r) /\
  (zlen (flat_map (offered subj) ps) <= MAX_TOTAL_CANDIDATES ->
     forall p r, p ∈ ps -> r ∈ offered subj p -> verified subj policy r = true -> r ∈ V).
Proof.
  intros V. pose proof (resolve_spec s subj ps policy) as HS. cbn zeta in HS. fold V in HS. split; [|split; [|split; [|split]]].
  - by destruct (resolve subj ps policy s) as [[[?|?]|] ?].
  - intros R s' E. rewrite E in HS. exact HS.
  - intros e s' E. rewrite E in HS. exact HS.
  - intros r Hps Hsk Hr Hn Hu Hc. by apply resolve_finds.
  - intros Hl p r Hp Hr Hv. apply list_elem_of_In, filter_In. split; [|done]. unfold candidates_of.
    rewrite collect_offered; [|by rewrite zlen_nil]. apply in_flat_map. exists p. split; by apply list_elem_of_In.
Qed.

(** C21: an identity never moves backwards.  Over any sequence of resolutions of
    any subjects, with any providers and policies, starting from a new resolver:
    nothing panics; the first answer for a subject has sequence one, and each
    later one is the record accepted before it or the record of the next
    sequence that names the hash of the one before; so no later answer has a
    smaller sequence than an earlier one, nor a different hash at the same
    sequence; every answer is the newest record its call could verify, and the
    resolver remembers exactly the last answer of each subject. *)
Theorem discovery_never_rolls_back `{HashOps, KexOps} calls outs s' :
  resolve_all calls DiscoveryResolver_new = (outs, s') ->
  Forall (fun o => o <> None) outs /\
  forall subj, let l := answers_for subj calls outs in
    Forall (vouched subj) l /\ chained None l /\ accepted s' !! subj = last_accept None l /\
    forall i j x y, (i < j)%nat -> l !! i = Some x -> l !! j = Some y -> not_before_answer (accept x) y.
Proof.
  intros HR. split; [exact (proj1 (resolve_all_spec calls _ outs s' [] HR))|]. intros subj l.
  destruct (resolve_all_spec calls _ outs s' subj HR) as (_ & F & C & L). fold l in F, C, L.
  unfold DiscoveryResolver_new in C, L. cbn [accepted] in C, L. rewrite lookup_empty in C, L.
  split; [done|]. split; [done|]. split; [done|]. intros. by eapply chained_sorted.
Qed.

(** ** Witnesses *)

Module Witnesses.
Import Toy Handshake.Witnesses IdentityRecord.Witnesses.

Definition first : IdentityRecord := record.
Definition second : IdentityRecord := Eval vm_compute in
  match from_current_identity_with_previous alice 2 1500 5000 (Some (hash_of record)) [tcp_endpoint] [] with
  | Good r => r
  | Bad _ => no_record
  end.
Definition stray : IdentityRecord := Eval vm_compute in
  match from_current_identity_with_previous bob 1 1500 5000 None [] [] with Good r => r | Bad _ => no_record end.

Definition provider_of (id : string) (rs : list IdentityRecord) : DiscoveryProvider :=
  mkProvider (Some (id, descriptor_minimal id)) (fun _ => Some (Good rs)).
Definition panicking : DiscoveryProvider := mkProvider (Some ("panic", descriptor_minimal "panic")) (fun _ => None).
Definition impostor : DiscoveryProvider := mkProvider (Some ("actual", descriptor_minimal "other")) (fun _ => Some (Good [second])).

Definition noisy : list DiscoveryProvider :=
  [panicking; impostor; provider_of "local" [stray; first; first]].
Definition calls : list Call :=
  [ mkCall (subject first) noisy (policy_at 3000);
    mkCall (subject first) [provider_of "local" [first; second]; panicking] (policy_at 3000);
    mkCall (subject first) [provider_of "stale" [first]] (policy_at 3000);
    mkCall (subject first) [panicking] (policy_at 3000) ].

Lemma resolve_exact_witness :
  exists R s', resolve (subject first) noisy (policy_at 3000) DiscoveryResolver_new = (Some (Good R), s') /\
    sequence (resolved R) = sequence first /\ resolved_hash R = hash_of first.
Proof.
  destruct (resolve_exact DiscoveryResolver_new (subject first) noisy (policy_at 3000)) as (_ & _ & _ & HF & _).
  apply HF.
  - vm_compute; discriminate.
  - vm_compute; discriminate.
  - assert (verified_candidates (subject first) (policy_at 3000) noisy = [first; first]) as -> by (vm_compute; reflexivity).
    left.
  - assert (verified_candidates (subject first) (policy_at 3000) noisy = [first; first]) as -> by (vm_compute; reflexivity).
    intros r ->%in_twice. exact (conj (Z.le_refl _) (fun _ => eq_refl)).
  - vm_compute; discriminate.
  - intros r _ E. exact E.
Defined.

(** The update is followed, the stale provider's answer is refused. *)
Lemma discovery_never_rolls_back_witness :
  exists outs s', resolve_all calls DiscoveryResolver_new = (outs, s') /\
    (map (fun cR => sequence (resolved cR.2)) (answers_for (subject first) calls outs) = [1; 2] /\
     outs !! 2%nat = Some (Some (Bad Replay)) /\
     accepted s' !! subject first = last_accept None (answers_for (subject first) calls outs)).
Proof.
  destruct (resolve_all calls DiscoveryResolver_new) as [outs s'] eqn:E. exists outs, s'. split; [exact eq_refl|].
  split; [|split].
  - assert (outs = (resolve_all calls DiscoveryResolver_new).1) as -> by (by rewrite E). vm_compute; reflexivity.
  - assert (outs = (resolve_all calls DiscoveryResolver_new).1) as -> by (by rewrite E). vm_compute; reflexivity.
  - destruct (discovery_never_rolls_back calls outs s' E) as [_ HS]. apply (HS (subject first)).
Defined.
End Witnesses.
