(* ===== verification/Galois.v ===== *)
(** The field of 257 elements as integers modulo 257, and interpolation over it:
    congruence as a setoid, polynomials by their coefficients, a polynomial with
    more roots than its degree vanishes, and through points with distinct
    abscissas goes exactly one polynomial. *)
From Stdlib Require Import Znumtheory.
From S2P Require Import Prelude.

(** ** Congruence *)

Definition eqp (a b : Z) : Prop := (257 | a - b).
Infix "=p" := eqp (at level 70).

Lemma eqp_mod_iff a b : a =p b <-> a mod 257 = b mod 257.
Proof.
  unfold eqp. rewrite <- Z.mod_divide by lia. rewrite Zminus_mod.
  split; [|intros ->; by rewrite Z.sub_diag].
  intros E. pose proof (Z.mod_pos_bound a 257). pose proof (Z.mod_pos_bound b 257). Z.div_mod_to_equations; lia.
Qed.

#[export] Instance eqp_equiv : Equivalence eqp.
Proof.
  split; [intros a|intros a b|intros a b c]; rewrite !eqp_mod_iff; congruence.
Qed.

#[export] Instance eqp_add : Proper (eqp ==> eqp ==> eqp) Z.add.
Proof. intros a b [k Hk] c d [l Hl]. exists (k + l). lia. Qed.
#[export] Instance eqp_sub : Proper (eqp ==> eqp ==> eqp) Z.sub.
Proof. intros a b [k Hk] c d [l Hl]. exists (k - l). lia. Qed.
#[export] Instance eqp_opp : Proper (eqp ==> eqp) Z.opp.
Proof. intros a b [k Hk]. exists (- k). lia. Qed.
#[export] Instance eqp_mul : Proper (eqp ==> eqp ==> eqp) Z.mul.
Proof. intros a b [k Hk] c d [l Hl]. exists (k * c + b * l). lia. Qed.

Lemma eqp_mod a : a mod 257 =p a.
Proof. apply eqp_mod_iff, Z.mod_mod. lia. Qed.

Lemma eqp_eq a b : a = b -> a =p b.
Proof. by intros ->. Qed.

Lemma eqp_prime : 257 =p 0.
Proof. by exists 1. Qed.

Lemma eqp_small a b : 0 <= a < 257 -> 0 <= b < 257 -> a =p b -> a = b.
Proof. rewrite eqp_mod_iff. intros Ha Hb. by rewrite !Z.mod_small. Qed.

Lemma eqp_sub_0 a b : a - b =p 0 <-> a =p b.
Proof. unfold eqp. by rewrite Z.sub_0_r. Qed.

Lemma prime_257 : prime 257.
Proof.
  apply prime_intro; [lia|]. intros n Hn. apply Zgcd_1_rel_prime.
  assert (forallb (fun k => Z.gcd k 257 =? 1) (seqZ 1 256) = true) as HF by (vm_compute; reflexivity).
  rewrite forallb_forall in HF. apply Z.eqb_eq, HF, list_elem_of_In, elem_of_seqZ. lia.
Qed.

Lemma eqp_mul_0 a b : a * b =p 0 -> a =p 0 \/ b =p 0.
Proof. unfold eqp. rewrite !Z.sub_0_r. apply prime_mult, prime_257. Qed.

(** ** Polynomials *)

(** The value at [x] of the polynomial with the given coefficients. *)
Fixpoint eval (c : list Z) (x : Z) : Z :=
  match c with [] => 0 | a :: c => a + x * eval c x end.

(** [f] agrees with a polynomial of [n] coefficients. *)
Definition poly (n : nat) (f : Z -> Z) : Prop := exists c, length c = n /\ forall x, f x =p eval c x.

Lemma poly_const a : poly 1 (fun _ => a).
Proof. exists [a]. split; [done|]. intros x. cbn. apply eqp_eq. lia. Qed.

Lemma eval_zeros n x : eval (replicate n 0) x = 0.
Proof. induction n as [|n IH]; cbn; [done|]. rewrite IH. lia. Qed.

Lemma poly_zero n : poly n (fun _ => 0).
Proof. exists (replicate n 0). rewrite length_replicate. split; [done|]. intros x. by rewrite eval_zeros. Qed.

Lemma eval_scale a c x : eval (map (Z.mul a) c) x = a * eval c x.
Proof. induction c as [|b c IH]; cbn; [lia|]. rewrite IH. lia. Qed.

Lemma eval_add c d x : length c = length d -> eval (zip_with Z.add c d) x = eval c x + eval d x.
Proof. revert d. induction c as [|a c IH]; intros [|b d] Hl; try done. cbn in *. rewrite IH; lia. Qed.

Lemma eval_app c a x : eval (c ++ [a]) x = eval c x + a * x ^ Z.of_nat (length c).
Proof.
  induction c as [|b c IH]; cbn [app eval length]; [cbn; lia|].
  rewrite IH, Nat2Z.inj_succ, Z.pow_succ_r by lia. lia.
Qed.

Lemma poly_scale n a f : poly n f -> poly n (fun x => a * f x).
Proof.
  intros (c & Hl & Hf). exists (map (Z.mul a) c). rewrite length_map. split; [done|].
  intros x. by rewrite eval_scale, Hf.
Qed.

Lemma poly_add n f g : poly n f -> poly n g -> poly n (fun x => f x + g x).
Proof.
  intros (c & Hc & Hf) (d & Hd & Hg). exists (zip_with Z.add c d). rewrite length_zip_with. split; [lia|].
  intros x. by rewrite eval_add, Hf, Hg by lia.
Qed.

(** Multiplication by [x - a]. *)
Lemma poly_root n a f : poly n f -> poly (S n) (fun x => (x - a) * f x).
Proof.
  intros (c & Hc & Hf). exists (zip_with Z.add (0 :: c) (map (Z.mul (- a)) (c ++ [0]))).
  split; [rewrite length_zip_with, length_map, length_app; cbn [length]; lia|].
  intros x. rewrite eval_add by (rewrite length_map, length_app; cbn [length]; lia).
  rewrite eval_scale, eval_app, Hf. cbn. apply eqp_eq. lia.
Qed.

(** Division by [x - a]: the coefficients of the quotient are the values at [a]
    of the proper suffixes of [c]. *)
Fixpoint quotient (a : Z) (c : list Z) : list Z :=
  match c with [] => [] | _ :: c => eval c a :: quotient a c end.

Lemma eval_quotient a c x : eval c x = eval c a + (x - a) * eval (removelast (quotient a c)) x.
Proof.
  induction c as [|b c IH]; [cbn; lia|]. cbn [quotient eval].
  destruct c as [|b' c]; [cbn; lia|].
  replace (removelast (eval (b' :: c) a :: quotient a (b' :: c)))
    with (eval (b' :: c) a :: removelast (quotient a (b' :: c))) by done.
  cbn [eval] in *. rewrite IH. lia.
Qed.

Lemma length_quotient a c : length (quotient a c) = length c.
Proof. induction c; cbn; congruence. Qed.

Definition vanishes (c : list Z) : Prop := Forall (fun a => a =p 0) c.

Lemma eval_vanishes c x : vanishes c -> eval c x =p 0.
Proof. induction 1 as [|a c Ha Hc IH]; cbn; [done|]. rewrite Ha, IH. apply eqp_eq. lia. Qed.

(** A polynomial whose quotient and remainder vanish vanishes. *)
Lemma quotient_vanishes a c : eval c a =p 0 -> vanishes (removelast (quotient a c)) -> vanishes c.
Proof.
  induction c as [|b c IH]; intros He Hq; [constructor|]. destruct c as [|b' c].
  - constructor; [|constructor]. cbn in He. rewrite <- He. apply eqp_eq. lia.
  - change (removelast (quotient a (b :: b' :: c)))
      with (eval (b' :: c) a :: removelast (quotient a (b' :: c))) in Hq.
    apply Forall_cons in Hq as [H1 H2]. constructor; [|by apply IH].
    assert (b =p eval (b :: b' :: c) a - a * eval (b' :: c) a) as -> by (apply eqp_eq; cbn; lia).
    rewrite He, H1. apply eqp_eq. lia.
Qed.

Definition distinct (xs : list Z) : Prop := forall i j x y, xs !! i = Some x -> xs !! j = Some y -> x =p y -> i = j.

Lemma distinct_cons x xs : distinct (x :: xs) -> distinct xs /\ forall y, y ∈ xs -> ~ y =p x.
Proof.
  intros Hd. split.
  - intros i j y z Hi Hj E. specialize (Hd (S i) (S j) y z Hi Hj E). lia.
  - intros y [i Hi]%list_elem_of_lookup E. by specialize (Hd (S i) O y x Hi eq_refl E).
Qed.

(** As many roots as coefficients. *)
Theorem roots_vanish xs c : distinct xs -> length c = length xs -> Forall (fun x => eval c x =p 0) xs -> vanishes c.
Proof.
  revert c. induction xs as [|x xs IH]; intros c Hd Hl Hr; [destruct c; [constructor|done]|].
  apply Forall_cons in Hr as [Hx Hr]. apply distinct_cons in Hd as [Hd Hne].
  apply (quotient_vanishes x); [done|]. apply IH; [done| |].
  - destruct c as [|a c]; [done|]. pose proof (length_quotient x (a :: c)) as Hq.
    cbn [quotient length] in *. revert Hq. generalize (eval c x). intros e.
    assert (forall (l : list Z) e, length (removelast (e :: l)) = length l) as Hrl.
    { induction l as [|u l IHl]; intros v; [done|].
      change (removelast (v :: u :: l)) with (v :: removelast (u :: l)). cbn [length]. by rewrite IHl. }
    rewrite Hrl, length_quotient. lia.
  - rewrite Forall_forall in Hr |- *. intros y Hy. specialize (Hr y Hy). specialize (Hne y Hy).
    rewrite (eval_quotient x c y), Hx, Z.add_0_l in Hr. apply eqp_mul_0 in Hr as [Hr|Hr]; [|done].
    exfalso. apply Hne, eqp_sub_0, Hr.
Qed.

(** Polynomials of [n] coefficients that agree at [n] points are equal. *)
Lemma interpolation_unique xs c d : distinct xs -> length c = length xs -> length d = length xs ->
  Forall (fun x => eval c x =p eval d x) xs -> Forall2 eqp c d.
Proof.
  intros Hd Hc Hd' HF.
  assert (vanishes (zip_with Z.add c (map (Z.mul (-1)) d))) as HV.
  { apply (roots_vanish xs); [done|rewrite length_zip_with, length_map; lia|].
    eapply Forall_impl; [exact HF|]. intros x E. cbn. rewrite eval_add, eval_scale, E by (rewrite length_map; lia).
    apply eqp_eq. lia. }
  clear HF Hd. assert (length c = length d) as Hl by lia. clear Hc Hd'. revert d Hl HV.
  induction c as [|a c IH]; intros [|b d] Hl HV; try done. cbn in *. apply Forall_cons in HV as [H1 H2].
  constructor; [|by apply IH; [lia|]]. apply eqp_sub_0. rewrite <- H1. apply eqp_eq. lia.
Qed.

(** ** Interpolation *)

(** The product of [x - x_k] over the abscissas but the [i]-th; [j] is the
    position of the first. *)
Fixpoint basis (i j : nat) (xs : list Z) (x : Z) : Z :=
  match xs with
  | [] => 1
  | x' :: xs => (if Nat.eqb i j then 1 else x - x') * basis i (S j) xs x
  end.

Lemma poly_ext n f g : (forall x, f x =p g x) -> poly n f -> poly n g.
Proof. intros E (c & Hc & Hf). exists c. split; [done|]. intros x. by rewrite <- E. Qed.

Lemma basis_poly i j xs :
  ((i < j)%nat -> poly (S (length xs)) (basis i j xs)) /\
  ((j <= i < j + length xs)%nat -> poly (length xs) (basis i j xs)).
Proof.
  revert j. induction xs as [|x xs IH]; intros j; cbn [basis length].
  - split; [intros _; apply poly_const|lia].
  - destruct (IH (S j)) as [IH1 IH2]. destruct (Nat.eqb_spec i j) as [->|Hne].
    + split; [lia|]. intros _. eapply poly_ext; [|by apply IH1; lia]. intros y. cbn beta. apply eqp_eq. lia.
    + split; intros Hi; apply poly_root; [by apply IH1; lia|by apply IH2; lia].
Qed.

Lemma basis_root i j xs k x : xs !! k = Some x -> (j + k)%nat <> i -> basis i j xs x = 0.
Proof.
  revert j k. induction xs as [|y xs IH]; intros j [|k]; intros Hk Hne; try done; cbn [basis].
  - injection Hk as ->. destruct (Nat.eqb_spec i j); lia.
  - rewrite (IH (S j) k); [lia|done|lia].
Qed.

Lemma basis_nonzero i j xs x :
  (forall k y, xs !! k = Some y -> (j + k)%nat <> i -> ~ x =p y) -> ~ basis i j xs x =p 0.
Proof.
  revert j. induction xs as [|y xs IH]; intros j Hne; cbn [basis].
  - intros [k Hk]. lia.
  - intros [HE|HE]%eqp_mul_0.
    + destruct (Nat.eqb_spec i j); [destruct HE; lia|]. apply (Hne O y eq_refl); [lia|by apply eqp_sub_0].
    + revert HE. apply IH. intros k z Hk Hj. apply (Hne (S k) z Hk). lia.
Qed.

Section Interpolation.
Variable inv : Z -> Z.
Hypothesis inv_ok : forall a, ~ a =p 0 -> inv a * a =p 1.

Fixpoint interpolant (i : nat) (points : list (Z * Z)) (xs : list Z) (x : Z) : Z :=
  match points with
  | [] => 0
  | (xi, yi) :: points => yi * (inv (basis i 0 xs xi) * basis i 0 xs x) + interpolant (S i) points xs x
  end.

Lemma interpolant_poly i points xs : (i + length points <= length xs)%nat -> poly (length xs) (interpolant i points xs).
Proof.
  revert i. induction points as [|[xi yi] points IH]; intros i Hi; cbn [interpolant length] in *; [apply poly_zero|].
  apply (poly_add _ (fun x => yi * (inv (basis i 0 xs xi) * basis i 0 xs x))); [|apply IH; lia].
  do 2 apply poly_scale. apply (basis_poly i 0 xs). lia.
Qed.

Lemma interpolant_before i points xs k x : xs !! k = Some x -> (k < i)%nat -> interpolant i points xs x = 0.
Proof.
  intros Hk. revert i. induction points as [|[xi yi] points IH]; intros i Hi; cbn [interpolant]; [done|].
  rewrite (basis_root i 0 xs k x), IH by (done || lia). lia.
Qed.

Lemma interpolant_at i points xs m x y : distinct xs ->
  (forall n u v, points !! n = Some (u, v) -> xs !! (i + n)%nat = Some u) ->
  points !! m = Some (x, y) -> interpolant i points xs x =p y.
Proof.
  intros Hd. revert i m. induction points as [|[xi yi] points IH]; intros i m Hxs Hm; [done|]. cbn [interpolant].
  pose proof (Hxs m x y Hm) as Hx. destruct m as [|m].
  - injection Hm as -> ->. rewrite Nat.add_0_r in Hx. rewrite (interpolant_before (S i) points xs i x) by (done || lia).
    rewrite inv_ok; [apply eqp_eq; lia|]. apply basis_nonzero. intros k z Hk Hne E. apply Hne. by rewrite (Hd i k x z).
  - rewrite (basis_root i 0 xs (i + S m) x) by (done || lia). rewrite (IH (S i) m); [apply eqp_eq; lia| |done].
    intros n u v Hn. replace (S i + n)%nat with (i + S n)%nat by lia. by apply (Hxs (S n) u v).
Qed.

Lemma points_abscissas (points : list (Z * Z)) n u v :
  points !! n = Some (u, v) -> map fst points !! (0 + n)%nat = Some u.
Proof. intros Hn. cbn. by rewrite list_lookup_fmap, Hn. Qed.

(** Through points with distinct abscissas goes a polynomial, *)
Lemma interpolation_exists points : distinct (map fst points) ->
  exists c, length c = length points /\ Forall (fun pt => eval c pt.1 =p pt.2) points.
Proof.
  intros Hd. destruct (interpolant_poly 0 points (map fst points)) as (c & Hc & Hf); [rewrite length_map; lia|].
  rewrite length_map in Hc. exists c. split; [done|]. apply Forall_lookup. intros n [u v] Hn. cbn.
  rewrite <- Hf. apply (interpolant_at 0 points _ n u v); [done| |done]. apply points_abscissas.
Qed.

(** and it is the one the points were taken from. *)
Lemma interpolant_eval points c x : distinct (map fst points) -> length c = length points ->
  Forall (fun pt => eval c pt.1 =p pt.2) points -> interpolant 0 points (map fst points) x =p eval c x.
Proof.
  intros Hd Hc HF. destruct (interpolant_poly 0 points (map fst points)) as (d & Hld & Hf); [rewrite length_map; lia|].
  rewrite Hf. assert (Forall2 eqp d c) as HE.
  { apply (interpolation_unique (map fst points)); [done|done|by rewrite length_map|].
    apply Forall_map, Forall_lookup. intros n [u v] Hn. cbn. rewrite <- Hf.
    rewrite Forall_lookup in HF. rewrite (HF n (u, v) Hn). cbn.
    apply (interpolant_at 0 points _ n u v); [done| |done]. apply points_abscissas. }
  clear -HE. induction HE as [|a b d c E HE IH]; cbn; [done|]. by rewrite E, IH.
Qed.
End Interpolation.
