(* ===== verification/Shamir.v ===== *)
(** Threshold secret sharing over GF(257) (shph-core/src/roadmap.rs): field
    arithmetic on machine integers, splitting, share payloads and recovery. *)
From stdpp Require Import gmap.
From S2P Require Import Prelude Error Text Primitives Galois.

Definition SHAMIR_PRIME : Z := 257.
Definition MAX_SHAMIR_PAYLOAD_BYTES : Z := 256 * 1024.
Definition MAX_SHAMIR_SECRET_BYTES : Z := MAX_SHAMIR_PAYLOAD_BYTES / 2.
Definition MAX_SHAMIR_RECOVERY_BYTES : Z := 8 * 1024 * 1024.
Definition MAX_SHAMIR_PAYLOAD_B64_BYTES : Z := div_ceil MAX_SHAMIR_PAYLOAD_BYTES 3 * 4.

Record ShamirConfig := mkShamirConfig { enabled : bool; threshold : Z; shares : Z }.
Record ShamirShare := mkShamirShare { share_index : Z; payload_b64 : string }.

#[export] Instance ShamirShare_eq_dec : EqDecision ShamirShare.
Proof. solve_decision. Defined.

Definition ShamirConfig_default : ShamirConfig := mkShamirConfig false 2 3.

Inductive ShamirError := InvalidPolicy | TooFewShares | BadShareCount | DecodeFailed.

(** [impl From<ShamirError> for ShphError] *)
Definition from_shamir (e : ShamirError) : ShphError :=
  match e with
  | InvalidPolicy => Config "invalid Shamir policy"
  | TooFewShares => Config "insufficient Shamir shares"
  | BadShareCount => Protocol "invalid Shamir share count"
  | DecodeFailed => Protocol "failed to decode Shamir share"
  end.

Definition validate_shamir_config (cfg : ShamirConfig) : result unit :=
  if enabled cfg && ((threshold cfg =? 0) || (shares cfg =? 0) || (shares cfg <? threshold cfg) || (255 <? shares cfg))
  then Err (Config "invalid Shamir policy") else Ok ().

(** ** Field arithmetic

    The value of a [u64] or [i64] operation, or the overflow panic. *)
Definition in_u64 (x : Z) : result Z := if in_range 0 u64_max x then Ok x else Panic.
Definition in_i64 (x : Z) : result Z := if in_range (- 2 ^ 63) (2 ^ 63 - 1) x then Ok x else Panic.
Definition rem_u64 (a b : Z) : result Z := if b =? 0 then Panic else Ok (a mod b).
(** [x as i64], [x as u64] *)
Definition as_i64 (x : Z) : Z := if x <=? 2 ^ 63 - 1 then x else x - 2 ^ 64.
Definition as_u64 (x : Z) : Z := x mod 2 ^ 64.

Definition gf_step (x p coef : Z) (acc : Z) : result Z :=
  let? product := in_u64 (acc * x) in
  let? sum := in_u64 (product + coef) in
  rem_u64 sum p.

(** The loop over the coefficients from the last to the first. *)
Fixpoint gf_eval_loop (coeffs : list Z) (x p acc : Z) : result Z :=
  match coeffs with
  | [] => Ok acc
  | coef :: coeffs => let? acc := gf_step x p coef acc in gf_eval_loop coeffs x p acc
  end.

Definition gf_eval (coeffs : list Z) (x p : Z) : result Z := gf_eval_loop (rev coeffs) x p 0.

(** The extended Euclidean loop; [r] and [t] when it ends. *)
Fixpoint gf_inv_loop (fuel : nat) (t new_t r new_r : Z) : result (Z * Z) :=
  if new_r =? 0 then Ok (r, t)
  else
    match fuel with
    | O => Panic
    | S fuel =>
        let quotient := Z.quot r new_r in
        let? product_t := in_i64 (quotient * new_t) in
        let? temp_t := in_i64 (t - product_t) in
        let? product_r := in_i64 (quotient * new_r) in
        let? temp_r := in_i64 (r - product_r) in
        gf_inv_loop fuel new_t temp_t new_r temp_r
    end.

Definition gf_inv (x p : Z) : result Z :=
  let? rt := gf_inv_loop (S (Z.to_nat x)) 0 1 (as_i64 p) (as_i64 x) in
  let '(r, t) := rt in
  if negb (r =? 1) then Ok 0
  else if t <? 0 then let? s := in_i64 (t + as_i64 p) in Ok (as_u64 s)
  else Ok (as_u64 t).

(** The inner loop: the numerator and the denominator of the [i]-th basis
    polynomial at the origin. *)
Fixpoint basis_loop (i j : nat) (xi prime : Z) (points : list (Z * Z)) (num den : Z) : result (Z * Z) :=
  match points with
  | [] => Ok (num, den)
  | (xj, _) :: points =>
      if Nat.eqb i j then basis_loop i (S j) xi prime points num den
      else
        let? rj := rem_u64 xj prime in
        let? a := in_u64 (prime + cast 64 (prime - rj)) in
        let? b := in_u64 (num * a) in
        let? c := rem_u64 b prime in
        let? num := rem_u64 c prime in
        let? d := in_u64 (prime + xi) in
        let? e := in_u64 (d - xj) in
        let? f := rem_u64 e prime in
        let? g := in_u64 (den * f) in
        let? den := rem_u64 g prime in
        basis_loop i (S j) xi prime points num den
  end.

Fixpoint lagrange_loop (i : nat) (points rest : list (Z * Z)) (prime out : Z) : result Z :=
  match rest with
  | [] => Ok out
  | (xi, yi) :: rest =>
      let? nd := basis_loop i 0 xi prime points 1 1 in
      let '(num, den) := nd in
      let? inv := gf_inv den prime in
      let? a := in_u64 (num * inv) in
      let? lag := rem_u64 a prime in
      let? b := in_u64 (yi * lag) in
      let? c := in_u64 (out + b) in
      let? out := rem_u64 c prime in
      lagrange_loop (S i) points rest prime out
  end.

Definition gf_lagrange_origin (points : list (Z * Z)) (prime : Z) : result Z :=
  let? out := lagrange_loop 0 points points prime 0 in rem_u64 out prime.

(** ** Share payloads *)

Fixpoint encode_le16 (values : list Z) : bytes :=
  match values with [] => [] | v :: values => v mod 256 :: (v / 256) mod 256 :: encode_le16 values end.

Fixpoint decode_le16 (raw : bytes) : list Z :=
  match raw with a :: b :: raw => a + 256 * b :: decode_le16 raw | _ => [] end.

Section Sharing.
Context `{KexOps}.

Definition encode_u16_array (values : list Z) : string := b64_encode (encode_le16 values).

Definition decode_u16_array (raw_b64 : string) : result (list Z) :=
  if MAX_SHAMIR_PAYLOAD_B64_BYTES <? zlen (str_bytes raw_b64)
  then Err (ResourceExhausted "Shamir share payload exceeds the safety limit")
  else
    let? raw := ok_or (b64_decode raw_b64) (Protocol "invalid share payload") in
    if negb (zlen raw mod 2 =? 0) then Err (Protocol "invalid share payload length")
    else if MAX_SHAMIR_PAYLOAD_BYTES <? zlen raw
    then Err (ResourceExhausted "Shamir share payload exceeds the safety limit")
    else Ok (decode_le16 raw).

(** ** Splitting *)

(** [rand::thread_rng()]: its state and [next_u64]. *)
Context {R : Type} (rng_next_u64 : R -> Z * R).

(** The rejection loop; it ends when a draw is accepted, and running out of
    [fuel] is the outcome [Panic]. *)
Fixpoint sample_field_element (fuel : nat) (prime : Z) (r : R) : result Z * R :=
  match fuel with
  | O => (Panic, r)
  | S fuel =>
      let threshold := (u64_max + 1) / prime * prime in
      let '(value, r) := rng_next_u64 r in
      if value <? threshold then (Ok (value mod prime), r) else sample_field_element fuel prime r
  end.

Fixpoint sample_coeffs (fuel n : nat) (prime : Z) (r : R) : result (list Z) * R :=
  match n with
  | O => (Ok [], r)
  | S n =>
      let! c, r := sample_field_element fuel prime r in
      let! cs, r := sample_coeffs fuel n prime r in
      (Ok (c :: cs), r)
  end.

(** [for x in 1..=shares]: one value pushed on each row. *)
Fixpoint push_values (coeffs : list Z) (xs : list Z) (rows : list (list Z)) : result (list (list Z)) :=
  match xs with
  | [] => Ok rows
  | x :: xs =>
      let? value := gf_eval coeffs x SHAMIR_PRIME in
      let? row := index rows (x - 1) in
      push_values coeffs xs (<[Z.to_nat (x - 1) := row ++ [cast 16 value]]> rows)
  end.

Fixpoint split_rows (fuel : nat) (cfg : ShamirConfig) (secret : bytes) (rows : list (list Z)) (r : R)
  : result (list (list Z)) * R :=
  match secret with
  | [] => (Ok rows, r)
  | byte :: secret =>
      let! tail, r := sample_coeffs fuel (Z.to_nat (threshold cfg - 1)) SHAMIR_PRIME r in
      let! rows, r := (push_values (byte :: tail) (seqZ 1 (shares cfg)) rows, r) in
      split_rows fuel cfg secret rows r
  end.

Definition split_secret (fuel : nat) (secret : bytes) (cfg : ShamirConfig) (r : R) : result (list ShamirShare) * R :=
  if negb (enabled cfg) then (Ok [], r)
  else if (threshold cfg =? 0) || (shares cfg =? 0) || (shares cfg <? threshold cfg) || (255 <? shares cfg)
  then (Err (from_shamir InvalidPolicy), r)
  else if MAX_SHAMIR_SECRET_BYTES <? zlen secret
  then (Err (ResourceExhausted "Shamir secret exceeds the safety limit"), r)
  else
    let! rows, r := split_rows fuel cfg secret (zreplicate (shares cfg) []) r in
    (Ok (imap (fun idx row => mkShamirShare (cast 8 (Z.of_nat idx + 1)) (encode_u16_array row)) rows), r).

(** ** Recovery *)

Record Recovery := mkRecovery {
  decoded : list (Z * list Z);
  lens : gset Z;
  indices : gset Z;
  decoded_bytes : Z
}.

Definition take_share (cfg : ShamirConfig) (share : ShamirShare) (st : Recovery) : result Recovery :=
  let? values := match decode_u16_array (payload_b64 share) with Err _ => Err (from_shamir DecodeFailed) | x => x end in
  let? total := ok_or (checked_add usize_max (decoded_bytes st) (Z.min usize_max (zlen values * 2)))
    (ResourceExhausted "Shamir recovery input is too large") in
  if MAX_SHAMIR_RECOVERY_BYTES <? total
  then Err (ResourceExhausted "Shamir recovery input exceeds the safety limit")
  else if (share_index share =? 0) || (shares cfg <? share_index share) then Err (from_shamir BadShareCount)
  else if bool_decide (share_index share ∈ indices st) then Err (from_shamir BadShareCount)
  else if existsb (fun value => 256 <? value) values then Err (from_shamir DecodeFailed)
  else
    Ok (mkRecovery
          (if zlen (decoded st) <? threshold cfg then decoded st ++ [(share_index share, values)] else decoded st)
          ({[zlen values]} ∪ lens st) ({[share_index share]} ∪ indices st) total).

Fixpoint take_shares (cfg : ShamirConfig) (l : list ShamirShare) (st : Recovery) : result Recovery :=
  match l with
  | [] => Ok st
  | share :: l => let? st := take_share cfg share st in take_shares cfg l st
  end.

(** [(x, values[byte_index])] of each share used. *)
Fixpoint points_at (byte_index : Z) (l : list (Z * list Z)) : result (list (Z * Z)) :=
  match l with
  | [] => Ok []
  | (x, values) :: l =>
      let? y := index values byte_index in
      let? points := points_at byte_index l in
      Ok ((x, y) :: points)
  end.

Fixpoint recover_bytes (used : list (Z * list Z)) (byte_indices : list Z) : result bytes :=
  match byte_indices with
  | [] => Ok []
  | b :: byte_indices =>
      let? points := points_at b used in
      let? secret := gf_lagrange_origin points 257 in
      let? out := recover_bytes used byte_indices in
      Ok (cast 8 secret :: out)
  end.

Definition recover_secret_from_shares (l : list ShamirShare) (cfg : ShamirConfig) : result bytes :=
  if negb (enabled cfg) then Ok []
  else
    do? validate_shamir_config cfg ;
    if zlen l <? threshold cfg then Err (from_shamir TooFewShares)
    else if shares cfg <? zlen l then Err (from_shamir BadShareCount)
    else
      let? st := take_shares cfg l (mkRecovery [] ∅ ∅ 0) in
      if Z.of_nat (size (indices st)) <? threshold cfg then Err (from_shamir TooFewShares)
      else if negb (Z.of_nat (size (lens st)) =? 1) then Err (from_shamir BadShareCount)
      else
        let? secret_len := ok_or (match decoded st with (_, values) :: _ => Some (zlen values) | [] => None end)
          (from_shamir DecodeFailed) in
        recover_bytes (ztake (threshold cfg) (decoded st)) (seqZ 0 secret_len).
End Sharing.

(** ** Lemmas: field arithmetic *)

Definition element (a : Z) : Prop := 0 <= a < 257.

Lemma in_u64_ok x : 0 <= x <= u64_max -> in_u64 x = Ok x.
Proof. intros Hx. unfold in_u64, in_range. case_if; [done|]. bool_prop. lia. Qed.

Lemma rem_257 a : rem_u64 a 257 = Ok (a mod 257).
Proof. done. Qed.

Lemma element_mod a : element (a mod 257).
Proof. apply Z.mod_pos_bound. lia. Qed.

(** The inverse the code computes, as a function. *)
Definition inv (a : Z) : Z := match gf_inv (a mod 257) 257 with Ok v => v | _ => 0 end.

Lemma gf_inv_table : forallb (fun x => match gf_inv x 257 with
    | Ok v => in_range 0 256 v && (v * x mod 257 =? 1)
    | _ => false
    end) (seqZ 1 256) = true.
Proof. vm_compute; reflexivity. Qed.

Lemma gf_inv_ok a : element a -> a <> 0 -> gf_inv a 257 = Ok (inv a) /\ element (inv a) /\ inv a * a =p 1.
Proof.
  unfold element. intros Ha Hne. pose proof gf_inv_table as HT. rewrite forallb_forall in HT.
  specialize (HT a). unfold inv. rewrite Z.mod_small by done. destruct (gf_inv a 257) as [v|e|].
  - assert (in_range 0 256 v && (v * a mod 257 =? 1) = true) as HB by (apply HT, list_elem_of_In, elem_of_seqZ; lia).
    unfold in_range in HB. bool_prop. split; [done|]. split; [lia|]. apply eqp_mod_iff. done.
  - assert (false = true); [apply HT, list_elem_of_In, elem_of_seqZ; lia|done].
  - assert (false = true); [apply HT, list_elem_of_In, elem_of_seqZ; lia|done].
Qed.

Lemma inv_mod a : inv (a mod 257) = inv a.
Proof. unfold inv. by rewrite Z.mod_mod by lia. Qed.

Lemma inv_ok a : ~ a =p 0 -> inv a * a =p 1.
Proof.
  intros Hne. rewrite <- inv_mod. rewrite <- (eqp_mod a) at 2. apply gf_inv_ok; [apply element_mod|].
  intros E. apply Hne. by apply eqp_mod_iff.
Qed.

Lemma gf_step_ok x coef acc : 0 <= x <= 256 -> element coef -> element acc ->
  gf_step x 257 coef acc = Ok ((coef + x * acc) mod 257).
Proof.
  unfold element. intros Hx Hc Ha. unfold gf_step. rewrite in_u64_ok by (unfold u64_max; nia). cbn [rbind].
  rewrite in_u64_ok by (unfold u64_max; nia). cbn [rbind]. rewrite rem_257. do 2 f_equal. lia.
Qed.

Lemma gf_eval_loop_app l k x p acc :
  gf_eval_loop (l ++ k) x p acc = let? acc := gf_eval_loop l x p acc in gf_eval_loop k x p acc.
Proof. revert acc. induction l as [|a l IH]; intros acc; cbn; [done|]. by destruct (gf_step x p a acc); cbn. Qed.

Lemma gf_eval_ok c x : Forall element c -> 0 <= x <= 256 -> gf_eval c x 257 = Ok (eval c x mod 257).
Proof.
  intros Hc Hx. unfold gf_eval. induction Hc as [|a c Ha Hc IH]; [done|].
  cbn [rev]. rewrite gf_eval_loop_app, IH. cbn [rbind gf_eval_loop].
  rewrite gf_step_ok by (done || apply element_mod). cbn [rbind eval]. f_equal. apply eqp_mod_iff. by rewrite eqp_mod.
Qed.

(** A point of the plane: a share index and a field element. *)
Definition point (pt : Z * Z) : Prop := 0 <= pt.1 <= 256 /\ element pt.2.

Lemma basis_loop_ok i j xi points num den : 0 <= xi <= 256 -> Forall point points -> element num -> element den ->
  basis_loop i j xi 257 points num den =
    Ok ((num * basis i j (map fst points) 0) mod 257, (den * basis i j (map fst points) xi) mod 257).
Proof.
  unfold element. intros Hxi Hp. revert j num den. induction Hp as [|[xj yj] points [Hxj _] Hp IH]; intros j num den Hn Hd.
  - cbn. rewrite !Z.mul_1_r, !Z.mod_small by done. done.
  - cbn [basis_loop basis map fst] in *. destruct (Nat.eqb_spec i j) as [E|Hne].
    + rewrite IH by done. do 2 f_equal; f_equal; lia.
    + pose proof (element_mod xj) as Hr. unfold element in Hr. rewrite rem_257. cbn [rbind]. unfold cast.
      rewrite Z.mod_small by lia. rewrite in_u64_ok by (unfold u64_max; lia). cbn [rbind].
      rewrite in_u64_ok by (unfold u64_max; nia). cbn [rbind]. rewrite !rem_257. cbn [rbind]. rewrite !rem_257. cbn [rbind].
      rewrite in_u64_ok by (unfold u64_max; lia). cbn [rbind]. rewrite in_u64_ok by (unfold u64_max; lia). cbn [rbind].
      rewrite rem_257. cbn [rbind]. pose proof (element_mod (257 + xi - xj)) as He. unfold element in He.
      rewrite in_u64_ok by (unfold u64_max; nia). cbn [rbind]. rewrite rem_257. cbn [rbind].
      rewrite IH by apply element_mod. do 2 f_equal; apply eqp_mod_iff.
      * rewrite !eqp_mod, eqp_prime. apply eqp_eq. lia.
      * rewrite !eqp_mod, eqp_prime. apply eqp_eq. lia.
Qed.

Lemma distinct_lookup xs i k x y : distinct xs -> xs !! i = Some x -> xs !! k = Some y -> k <> i -> ~ x =p y.
Proof. intros Hd Hi Hk Hne E. apply Hne. symmetry. by eapply Hd. Qed.

Lemma lagrange_loop_ok points rest i out : distinct (map fst points) -> Forall point points ->
  (forall n u v, rest !! n = Some (u, v) -> points !! (i + n)%nat = Some (u, v)) -> element out ->
  lagrange_loop i points rest 257 out = Ok ((out + interpolant inv i rest (map fst points) 0) mod 257).
Proof.
  intros Hd Hp. revert i out. induction rest as [|[xi yi] rest IH]; intros i out Hr Ho.
  - cbn. rewrite Z.add_0_r, Z.mod_small by done. done.
  - pose proof (Hr O xi yi eq_refl) as Hi. rewrite Nat.add_0_r in Hi.
    assert (point (xi, yi)) as [Hxi Hyi] by (rewrite Forall_lookup in Hp; by apply (Hp i)). cbn [fst snd] in Hxi, Hyi.
    cbn [lagrange_loop interpolant]. rewrite basis_loop_ok by (done || (unfold element; lia)). cbn [rbind].
    rewrite !Z.mul_1_l. set (xs := map fst points). set (num := basis i 0 xs 0). set (den := basis i 0 xs xi).
    assert (xs !! i = Some xi) as Hxs by (unfold xs; by rewrite list_lookup_fmap, Hi).
    assert (~ den =p 0) as Hden.
    { apply basis_nonzero. intros k y Hk Hne. cbn in Hne. by eapply distinct_lookup. }
    destruct (gf_inv_ok (den mod 257)) as (-> & Hinv & _); [apply element_mod|intros E; apply Hden; by apply eqp_mod_iff|].
    rewrite inv_mod in *. pose proof (element_mod num) as Hnum. pose proof (element_mod (num mod 257 * inv den)) as Hlag.
    unfold element in *. cbn [rbind]. rewrite in_u64_ok by (unfold u64_max; nia). cbn [rbind]. rewrite rem_257. cbn [rbind].
    rewrite in_u64_ok by (unfold u64_max; nia). cbn [rbind]. rewrite in_u64_ok by (unfold u64_max; nia). cbn [rbind].
    rewrite rem_257. cbn [rbind]. rewrite IH; [|intros n u v Hn; rewrite Nat.add_succ_comm; by apply Hr|apply element_mod].
    f_equal. apply eqp_mod_iff. fold xs. rewrite !eqp_mod. apply eqp_eq. lia.
Qed.

(** Interpolation at the origin of points of a polynomial gives its constant. *)
Lemma gf_lagrange_ok points c : distinct (map fst points) -> Forall point points -> length c = length points ->
  Forall (fun pt => eval c pt.1 =p pt.2) points ->
  gf_lagrange_origin points 257 = Ok (eval c 0 mod 257).
Proof.
  intros Hd Hp Hl HF. unfold gf_lagrange_origin. rewrite lagrange_loop_ok; [|done|done|done|unfold element; lia].
  cbn [rbind]. rewrite rem_257. f_equal. apply eqp_mod_iff. rewrite eqp_mod, Z.add_0_l.
  by apply interpolant_eval; [apply inv_ok|..].
Qed.

(** ** Lemmas: share payloads *)

Definition u16 (v : Z) : Prop := 0 <= v <= u16_max.

Lemma zlen_encode_le16 vs : zlen (encode_le16 vs) = 2 * zlen vs.
Proof. induction vs as [|v vs IH]; [done|]. cbn [encode_le16]. rewrite !zlen_cons, IH. lia. Qed.

Lemma encode_le16_ok vs : bytes_ok (encode_le16 vs).
Proof.
  induction vs as [|v vs IH]; [constructor|]. cbn [encode_le16].
  constructor; [apply Z.mod_pos_bound; lia|]. constructor; [apply Z.mod_pos_bound; lia|done].
Qed.

Lemma decode_encode_le16 vs : Forall u16 vs -> decode_le16 (encode_le16 vs) = vs.
Proof.
  unfold u16, u16_max. induction 1 as [|v vs Hv Hvs IH]; [done|]. cbn [encode_le16 decode_le16]. rewrite IH. f_equal.
  Z.div_mod_to_equations; lia.
Qed.

Lemma decode_le16_ok raw : bytes_ok raw -> Forall u16 (decode_le16 raw).
Proof.
  assert (forall n raw, (length raw <= n)%nat -> bytes_ok raw -> Forall u16 (decode_le16 raw)) as HP; [|by apply (HP (length raw))].
  induction n as [|n IH]; intros [|a [|b l]] Hl Hb; try (by constructor); cbn in Hl; [lia|].
  apply Forall_cons in Hb as [Ha Hb]. apply Forall_cons in Hb as [Hb Hl']. cbn [decode_le16]. unfold is_byte in *.
  constructor; [unfold u16, u16_max; lia|]. apply IH; [lia|done].
Qed.

Lemma decode_encode_u16 `{KexLaws} vs : Forall u16 vs -> 2 * zlen vs <= MAX_SHAMIR_PAYLOAD_BYTES ->
  decode_u16_array (encode_u16_array vs) = Ok vs.
Proof.
  intros Hv Hl. unfold decode_u16_array, encode_u16_array. pose proof (encode_le16_ok vs) as Hb.
  rewrite b64_size, b64_roundtrip by done. cbn [ok_or rbind]. rewrite zlen_encode_le16.
  unfold MAX_SHAMIR_PAYLOAD_B64_BYTES, MAX_SHAMIR_PAYLOAD_BYTES, div_ceil in *.
  destruct (Z.ltb_spec ((256 * 1024 + 3 - 1) / 3 * 4) (4 * ((2 * zlen vs + 2) / 3))); [Z.div_mod_to_equations; lia|].
  replace (2 * zlen vs mod 2) with 0 by (rewrite Z.mul_comm, Z_mod_mult; done). cbn [Z.eqb negb].
  destruct (Z.ltb_spec (256 * 1024) (2 * zlen vs)); [lia|]. by rewrite decode_encode_le16.
Qed.

(** ** Lemmas: splitting *)

Section Split.
Context `{KexOps} {R : Type} (rng_next_u64 : R -> Z * R).

(** The generator gives an acceptable draw within [fuel] draws. *)
Fixpoint accepts (fuel : nat) (r : R) : bool :=
  match fuel with
  | O => false
  | S fuel => let '(v, r) := rng_next_u64 r in (v <? u64_max) || accepts fuel r
  end.

Lemma sample_ok fuel r : accepts fuel r = true ->
  exists v r', sample_field_element rng_next_u64 fuel SHAMIR_PRIME r = (Ok v, r') /\ element v.
Proof.
  revert r. induction fuel as [|fuel IH]; intros r; [done|]. cbn [accepts sample_field_element].
  change ((u64_max + 1) / SHAMIR_PRIME * SHAMIR_PRIME) with u64_max. destruct (rng_next_u64 r) as [v r1].
  destruct (v <? u64_max); cbn [orb]; [intros _|apply IH]. do 2 eexists. split; [done|]. apply element_mod.
Qed.

Lemma sample_element fuel r v r' : sample_field_element rng_next_u64 fuel SHAMIR_PRIME r = (Ok v, r') -> element v.
Proof.
  revert r. induction fuel as [|fuel IH]; intros r; [done|]. cbn [sample_field_element].
  destruct (rng_next_u64 r) as [w r1]. case_if; [|apply IH]. intros [= <- _]. apply element_mod.
Qed.

Lemma sample_coeffs_elements fuel n r cs r' : sample_coeffs rng_next_u64 fuel n SHAMIR_PRIME r = (Ok cs, r') ->
  length cs = n /\ Forall element cs.
Proof.
  revert r cs r'. induction n as [|n IH]; intros r cs r'; cbn [sample_coeffs]; [by intros [= <- _]|].
  destruct (sample_field_element _ _ _ r) as [[c|e|] r1] eqn:Ec; [|done..]. cbn [sbind].
  destruct (sample_coeffs _ _ n _ r1) as [[cs'|e|] r2] eqn:Es; [|done..]. cbn [sbind]. intros [= <- _].
  apply IH in Es as [Hl Hf]. cbn. split; [lia|]. constructor; [by eapply sample_element|done].
Qed.

Lemma sample_coeffs_ok fuel n r : (forall r, accepts fuel r = true) ->
  exists cs r', sample_coeffs rng_next_u64 fuel n SHAMIR_PRIME r = (Ok cs, r').
Proof.
  intros Ha. revert r. induction n as [|n IH]; intros r; cbn [sample_coeffs]; [by do 2 eexists|].
  destruct (sample_ok fuel r (Ha r)) as (v & r1 & -> & _). cbn [sbind].
  destruct (IH r1) as (cs & r2 & ->). by do 2 eexists.
Qed.

(** What a share of index [x] holds for the coefficients [c] of one byte. *)
Definition share_value (c : list Z) (x : Z) : Z := eval c x mod 257.

Lemma push_values_ok c xs rows : Forall element c -> Forall (fun x => 1 <= x <= 255 /\ x <= zlen rows) xs -> NoDup xs ->
  exists rows', push_values c xs rows = Ok rows' /\ length rows' = length rows /\
    forall i row, rows !! i = Some row ->
      rows' !! i = Some (if decide (Z.of_nat i + 1 ∈ xs) then row ++ [share_value c (Z.of_nat i + 1)] else row).
Proof.
  intros Hc. revert rows. induction xs as [|x xs IH]; intros rows Hxs Hnd.
  - exists rows. split; [done|]. split; [done|]. intros i row Hi. by rewrite decide_False by set_solver.
  - apply Forall_cons in Hxs as [[Hx Hxl] Hxs]. apply NoDup_cons in Hnd as [Hnx Hnd]. cbn [push_values].
    unfold SHAMIR_PRIME. rewrite gf_eval_ok by (done || lia). cbn [rbind].
    destruct (index_ok rows (x - 1)) as (row & -> & Hrow); [lia|]. cbn [rbind].
    assert (cast 16 (eval c x mod 257) = share_value c x) as ->.
    { unfold cast, share_value. pose proof (element_mod (eval c x)) as He. unfold element in He. rewrite (Z.mod_small (_ mod 257)); lia. }
    destruct (IH (<[Z.to_nat (x - 1) := row ++ [share_value c x]]> rows)) as (rows' & E & Hl & Hr).
    { unfold zlen. by rewrite length_insert. }
    { done. }
    exists rows'. split; [done|]. rewrite length_insert in Hl. split; [done|]. intros i s Hi.
    destruct (decide (i = Z.to_nat (x - 1))) as [->|Hne].
    + replace (Z.of_nat (Z.to_nat (x - 1)) + 1) with x in * by lia. rewrite Hrow in Hi. injection Hi as <-.
      erewrite Hr; [|apply list_lookup_insert_eq; by eapply lookup_lt_Some].
      replace (Z.of_nat (Z.to_nat (x - 1)) + 1) with x by lia. rewrite decide_False by done. by rewrite decide_True by set_solver.
    + erewrite Hr; [|rewrite list_lookup_insert_ne by congruence; exact Hi].
      f_equal. apply decide_ext. split; [set_solver|]. intros [E'|]%elem_of_cons; [lia|done].
Qed.

(** The coefficients drawn for a secret: for each byte [threshold] field
    elements, the byte first. *)
Definition drawn (cfg : ShamirConfig) (secret : bytes) (coeffs : list (list Z)) : Prop :=
  Forall2 (fun byte c => Forall element c /\ zlen c = threshold cfg /\ c !! 0%nat = Some byte) secret coeffs.

Lemma split_rows_spec fuel cfg secret rows r rows' r' : bytes_ok secret ->
  1 <= threshold cfg <= shares cfg -> shares cfg <= 255 -> zlen rows = shares cfg ->
  split_rows rng_next_u64 fuel cfg secret rows r = (Ok rows', r') ->
  exists coeffs, drawn cfg secret coeffs /\ length rows' = length rows /\
    forall i row, rows !! i = Some row -> rows' !! i = Some (row ++ map (fun c => share_value c (Z.of_nat i + 1)) coeffs).
Proof.
  intros Hb Ht Hs. revert rows r. induction Hb as [|byte secret Hbyte Hb IH]; intros rows r Hl; cbn [split_rows].
  - intros [= <- _]. exists []. split; [constructor|]. split; [done|]. intros. by rewrite app_nil_r.
  - destruct (sample_coeffs _ _ _ _ r) as [[tail|e|] r1] eqn:Et; [|done..]. cbn [sbind].
    apply sample_coeffs_elements in Et as [Htl Hte]. unfold is_byte in Hbyte.
    assert (Forall element (byte :: tail)) as Hc by (constructor; [unfold element; lia|done]).
    destruct (push_values_ok (byte :: tail) (seqZ 1 (shares cfg)) rows Hc) as (rows1 & -> & Hl1 & Hr1).
    { rewrite Hl. apply Forall_forall. intros x Hx%elem_of_seqZ. lia. }
    { apply NoDup_seqZ. }
    cbn [sbind]. intros E. destruct (IH rows1 r1) as (coeffs & Hd & Hl2 & Hr2); [unfold zlen in *; lia|done|].
    exists ((byte :: tail) :: coeffs). split.
    { constructor; [|done]. split; [done|]. split; [rewrite zlen_cons; unfold zlen; lia|done]. }
    split; [lia|]. intros i row Hi. erewrite Hr2; [|by apply Hr1].
    apply lookup_lt_Some in Hi. rewrite decide_True by (apply elem_of_seqZ; unfold zlen in *; lia).
    by rewrite <- app_assoc.
Qed.

(** The share of index [x]. *)
Definition share_of (coeffs : list (list Z)) (x : Z) : ShamirShare :=
  mkShamirShare x (encode_u16_array (map (fun c => share_value c x) coeffs)).

Definition valid_policy (cfg : ShamirConfig) : Prop := enabled cfg = true /\ 1 <= threshold cfg <= shares cfg /\ shares cfg <= 255.

Lemma split_secret_spec fuel secret cfg r l r' : bytes_ok secret -> enabled cfg = true ->
  0 <= threshold cfg -> split_secret rng_next_u64 fuel secret cfg r = (Ok l, r') ->
  valid_policy cfg /\ zlen secret <= MAX_SHAMIR_SECRET_BYTES /\
  exists coeffs, drawn cfg secret coeffs /\ l = map (share_of coeffs) (seqZ 1 (shares cfg)).
Proof.
  intros Hb He Ht0. unfold split_secret. rewrite He. cbn [negb]. case_if; [done|]. bool_prop.
  destruct (Z.ltb_spec MAX_SHAMIR_SECRET_BYTES (zlen secret)) as [|Hlen]; [done|].
  destruct (split_rows _ _ _ _ _ r) as [[rows|e|] r1] eqn:Er; [|done..]. cbn [sbind]. intros [= <- _].
  assert (1 <= threshold cfg <= shares cfg /\ shares cfg <= 255) as [Ht Hs] by lia.
  apply split_rows_spec in Er as (coeffs & Hd & Hl & Hr); [|done..|rewrite zlen_zreplicate; lia].
  split; [done|]. split; [done|]. exists coeffs. split; [done|].
  assert (length rows = Z.to_nat (shares cfg)) as Hlr by (rewrite Hl; unfold zreplicate; by rewrite length_replicate).
  apply list_eq. intros i. rewrite list_lookup_imap, list_lookup_fmap.
  destruct (decide (i < Z.to_nat (shares cfg))%nat) as [Hi|Hi].
  - rewrite (Hr i []); [|by apply lookup_replicate_2]. rewrite lookup_seqZ_lt by lia. cbn. unfold share_of. f_equal.
    unfold cast. rewrite Z.mod_small by lia. rewrite (Z.add_comm 1). done.
  - rewrite lookup_ge_None_2 by lia. by rewrite lookup_seqZ_ge by lia.
Qed.

Lemma split_rows_ok fuel cfg secret rows r : (forall r, accepts fuel r = true) -> bytes_ok secret ->
  1 <= threshold cfg <= shares cfg -> shares cfg <= 255 -> zlen rows = shares cfg ->
  exists rows' r', split_rows rng_next_u64 fuel cfg secret rows r = (Ok rows', r').
Proof.
  intros Ha Hb Ht Hs. revert rows r. induction Hb as [|byte secret Hbyte Hb IH]; intros rows r Hl; cbn [split_rows]; [by do 2 eexists|].
  destruct (sample_coeffs_ok fuel (Z.to_nat (threshold cfg - 1)) r Ha) as (tail & r1 & Et). rewrite Et. cbn [sbind].
  apply sample_coeffs_elements in Et as [Htl Hte]. unfold is_byte in Hbyte.
  assert (Forall element (byte :: tail)) as Hc by (constructor; [unfold element; lia|done]).
  destruct (push_values_ok (byte :: tail) (seqZ 1 (shares cfg)) rows Hc) as (rows1 & -> & Hl1 & _).
  { rewrite Hl. apply Forall_forall. intros x Hx%elem_of_seqZ. lia. }
  { apply NoDup_seqZ. }
  cbn [sbind]. apply IH. unfold zlen in *. lia.
Qed.
End Split.

(** ** Lemmas: recovery from honest shares *)

Section Honest.
Context `{KexOps, !KexLaws}.
Variables (cfg : ShamirConfig) (secret : bytes) (coeffs : list (list Z)).
Hypotheses (Hpolicy : valid_policy cfg) (Hdrawn : drawn cfg secret coeffs)
  (Hsecret : zlen secret <= MAX_SHAMIR_SECRET_BYTES) (Hbytes : bytes_ok secret).

Definition values_of (x : Z) : list Z := map (fun c => share_value c x) coeffs.

Lemma zlen_values x : zlen (values_of x) = zlen secret.
Proof. unfold values_of, zlen. rewrite length_map. by rewrite (Forall2_length _ _ _ Hdrawn). Qed.

Lemma values_elements x : Forall element (values_of x).
Proof. unfold values_of. apply Forall_map, Forall_true. intros c. apply element_mod. Qed.

Lemma decode_share x : decode_u16_array (payload_b64 (share_of coeffs x)) = Ok (values_of x).
Proof.
  apply decode_encode_u16.
  - eapply Forall_impl; [apply values_elements|]. unfold element, u16, u16_max. cbn. lia.
  - fold (values_of x). rewrite zlen_values. unfold MAX_SHAMIR_SECRET_BYTES, MAX_SHAMIR_PAYLOAD_BYTES in *. Z.div_mod_to_equations; lia.
Qed.

Lemma ztake_if_app {A} t (d l : list A) (a : A) :
  ztake t ((if zlen d <? t then d ++ [a] else d) ++ l) = ztake t (d ++ a :: l).
Proof.
  destruct (Z.ltb_spec (zlen d) t) as [|Hge]; [by rewrite <- app_assoc|].
  unfold ztake, zlen in *. rewrite !take_app_le by lia. done.
Qed.

(** One honest share. *)
Lemma take_honest x st : 1 <= x <= shares cfg -> x ∉ indices st -> 0 <= decoded_bytes st <= MAX_SHAMIR_RECOVERY_BYTES ->
  take_share cfg (share_of coeffs x) st =
    if MAX_SHAMIR_RECOVERY_BYTES <? decoded_bytes st + 2 * zlen secret
    then Err (ResourceExhausted "Shamir recovery input exceeds the safety limit")
    else Ok (mkRecovery (if zlen (decoded st) <? threshold cfg then decoded st ++ [(x, values_of x)] else decoded st)
               ({[zlen secret]} ∪ lens st) ({[x]} ∪ indices st) (decoded_bytes st + 2 * zlen secret)).
Proof.
  intros Hx Hi Hb. unfold take_share. rewrite decode_share. cbn [rbind share_of share_index]. rewrite zlen_values.
  pose proof (zlen_nonneg secret) as Hs. unfold MAX_SHAMIR_SECRET_BYTES, MAX_SHAMIR_PAYLOAD_BYTES, MAX_SHAMIR_RECOVERY_BYTES in *.
  assert (256 * 1024 / 2 = 131072) as E by reflexivity. rewrite E in Hsecret.
  replace (Z.min usize_max (zlen secret * 2)) with (2 * zlen secret) by (unfold usize_max, u64_max; lia).
  unfold checked_add. destruct (Z.leb_spec (decoded_bytes st + 2 * zlen secret) usize_max) as [|Hov];
    [|unfold usize_max, u64_max in Hov; lia]. cbn [ok_or rbind].
  destruct (8 * 1024 * 1024 <? _); [done|].
  destruct (Z.eqb_spec x 0); [lia|]. destruct (Z.ltb_spec (shares cfg) x); [lia|]. cbn [orb].
  rewrite bool_decide_eq_false_2 by done.
  replace (existsb _ (values_of x)) with false; [done|]. symmetry. apply not_true_iff_false. intros (v & Hv & Hlt)%existsb_exists.
  pose proof (values_elements x) as HF. rewrite Forall_forall in HF. apply list_elem_of_In in Hv. specialize (HF v Hv).
  unfold element in HF. apply Z.ltb_lt in Hlt. lia.
Qed.

Lemma take_all_honest xs st : Forall (fun x => 1 <= x <= shares cfg) xs -> NoDup xs -> (forall x, x ∈ xs -> x ∉ indices st) ->
  0 <= decoded_bytes st -> decoded_bytes st + 2 * zlen secret * zlen xs <= MAX_SHAMIR_RECOVERY_BYTES ->
  exists st', take_shares cfg (map (share_of coeffs) xs) st = Ok st' /\
    ztake (threshold cfg) (decoded st') = ztake (threshold cfg) (decoded st ++ map (fun x => (x, values_of x)) xs) /\
    indices st' = list_to_set xs ∪ indices st /\
    lens st' = (match xs with [] => ∅ | _ => {[zlen secret]} end) ∪ lens st.
Proof.
  revert st. induction xs as [|x xs IH]; intros st Hx Hnd Hi Hb0 Hb.
  - exists st. cbn. rewrite app_nil_r. split; [done|]. split; [done|]. split; set_solver.
  - apply Forall_cons in Hx as [Hx Hxs]. apply NoDup_cons in Hnd as [Hnx Hnd].
    pose proof (zlen_nonneg secret). pose proof (zlen_nonneg xs). rewrite zlen_cons in Hb. cbn [map take_shares].
    rewrite take_honest; [|done|set_solver|nia].
    destruct (Z.ltb_spec MAX_SHAMIR_RECOVERY_BYTES (decoded_bytes st + 2 * zlen secret)); [nia|]. cbn [rbind].
    edestruct IH as (st' & -> & Ed & Ei & El); [done|done|cbn [indices]; set_solver|cbn [decoded_bytes]; lia|cbn [decoded_bytes]; lia|].
    exists st'. split; [done|]. cbn [decoded indices lens] in *. rewrite Ed, ztake_if_app. split; [done|].
    rewrite Ei, El. split; [cbn [list_to_set]; set_solver|]. destruct xs; set_solver.
Qed.

Lemma take_too_many xs st : Forall (fun x => 1 <= x <= shares cfg) xs -> NoDup xs -> (forall x, x ∈ xs -> x ∉ indices st) ->
  0 <= decoded_bytes st <= MAX_SHAMIR_RECOVERY_BYTES ->
  MAX_SHAMIR_RECOVERY_BYTES < decoded_bytes st + 2 * zlen secret * zlen xs ->
  take_shares cfg (map (share_of coeffs) xs) st = Err (ResourceExhausted "Shamir recovery input exceeds the safety limit").
Proof.
  revert st. induction xs as [|x xs IH]; intros st Hx Hnd Hi Hb0 Hb; [rewrite zlen_nil in Hb; lia|].
  apply Forall_cons in Hx as [Hx Hxs]. apply NoDup_cons in Hnd as [Hnx Hnd].
  pose proof (zlen_nonneg secret). rewrite zlen_cons in Hb. cbn [map take_shares].
  rewrite take_honest; [|done|set_solver|lia].
  destruct (Z.ltb_spec MAX_SHAMIR_RECOVERY_BYTES (decoded_bytes st + 2 * zlen secret)); [done|]. cbn [rbind].
  apply IH; [done|done|cbn [indices]; set_solver|cbn [decoded_bytes]; lia|cbn [decoded_bytes]; lia].
Qed.

Lemma points_at_ok b c xs : coeffs !! b = Some c ->
  points_at (Z.of_nat b) (map (fun x => (x, values_of x)) xs) = Ok (map (fun x => (x, share_value c x)) xs).
Proof.
  intros Hc. induction xs as [|x xs IH]; [done|]. cbn [map points_at]. unfold index, values_of.
  destruct (Z.ltb_spec (Z.of_nat b) 0); [lia|]. rewrite Nat2Z.id, list_lookup_fmap, Hc. cbn [fmap option_fmap option_map rbind].
  unfold values_of in IH. by rewrite IH.
Qed.

Lemma distinct_indices xs : Forall (fun x => 1 <= x <= shares cfg) xs -> NoDup xs -> distinct xs.
Proof.
  intros Hx Hnd i j x y Hi Hj E. destruct Hpolicy as (_ & _ & Hs). rewrite Forall_lookup in Hx.
  pose proof (Hx i x Hi). pose proof (Hx j y Hj). apply eqp_small in E; [|lia..]. subst y.
  by eapply NoDup_lookup.
Qed.

Lemma recover_bytes_ok xs n : Forall (fun x => 1 <= x <= shares cfg) xs -> NoDup xs -> zlen xs = threshold cfg ->
  (n <= length secret)%nat ->
  recover_bytes (map (fun x => (x, values_of x)) xs) (map Z.of_nat (seq n (length secret - n))) = Ok (drop n secret).
Proof.
  intros Hx Hnd Hl. remember (length secret - n)%nat as m eqn:Em. revert n Em. induction m as [|m IH]; intros n Em Hn.
  - rewrite drop_ge by lia. done.
  - destruct (lookup_lt_is_Some_2 secret n) as [byte Hbyte]; [lia|].
    destruct (Forall2_lookup_l _ _ _ _ _ Hdrawn Hbyte) as (c & Hc & He & Hlc & Hhead).
    cbn [seq map recover_bytes]. rewrite (points_at_ok n c xs Hc). cbn [rbind].
    assert (forall x, x ∈ xs -> 1 <= x <= 255) as Hrange.
    { intros x Hin. rewrite Forall_forall in Hx. specialize (Hx x Hin). destruct Hpolicy as (_ & _ & Hs). lia. }
    rewrite (gf_lagrange_ok _ c); cycle 1.
    + rewrite map_map. cbn. rewrite map_id. by apply distinct_indices.
    + apply Forall_map, Forall_forall. intros x Hin. specialize (Hrange x Hin). split; cbn; [lia|apply element_mod].
    + rewrite length_map. unfold zlen in *. lia.
    + apply Forall_map, Forall_forall. intros x Hin. cbn. unfold share_value. by rewrite eqp_mod.
    + cbn [rbind]. rewrite IH by lia. cbn [rbind]. rewrite (drop_S secret byte n Hbyte). do 2 f_equal.
      destruct c as [|c0 c]; [done|]. injection Hhead as ->. apply Forall_cons in He as [He _].
      cbn [eval]. rewrite Z.mul_0_l, Z.add_0_r. unfold element in He. rewrite Z.mod_small by done. unfold cast.
      unfold bytes_ok, is_byte in Hbytes. rewrite Forall_lookup in Hbytes. specialize (Hbytes n byte Hbyte).
      cbn beta in Hbytes. by rewrite Z.mod_small.
Qed.

(** The shares of any [threshold] or more distinct indices. *)
Lemma recover_honest xs : Forall (fun x => 1 <= x <= shares cfg) xs -> NoDup xs -> threshold cfg <= zlen xs ->
  recover_secret_from_shares (map (share_of coeffs) xs) cfg =
    if MAX_SHAMIR_RECOVERY_BYTES <? 2 * zlen secret * zlen xs
    then Err (ResourceExhausted "Shamir recovery input exceeds the safety limit") else Ok secret.
Proof.
  intros Hx Hnd Ht. pose proof Hpolicy as (He & Hth & Hs). unfold recover_secret_from_shares, validate_shamir_config.
  rewrite He. cbn [negb andb]. destruct (Z.eqb_spec (threshold cfg) 0); [lia|]. destruct (Z.eqb_spec (shares cfg) 0); [lia|].
  destruct (Z.ltb_spec (shares cfg) (threshold cfg)); [lia|]. destruct (Z.ltb_spec 255 (shares cfg)); [lia|]. cbn [orb rbind].
  assert (zlen (map (share_of coeffs) xs) = zlen xs) as -> by (unfold zlen; by rewrite length_map).
  destruct (Z.ltb_spec (zlen xs) (threshold cfg)); [lia|].
  assert (zlen xs <= shares cfg) as Hle.
  { assert (xs ⊆+ seqZ 1 (shares cfg)) as Hsub.
    { apply NoDup_submseteq; [done|]. rewrite Forall_forall in Hx. intros x Hin. specialize (Hx x Hin). apply elem_of_seqZ. lia. }
    apply submseteq_length in Hsub. rewrite length_seqZ in Hsub. unfold zlen. lia. }
  destruct (Z.ltb_spec (shares cfg) (zlen xs)); [lia|].
  destruct (Z.ltb_spec MAX_SHAMIR_RECOVERY_BYTES (2 * zlen secret * zlen xs)).
  { rewrite take_too_many; [done|done|done|set_solver|cbn; unfold MAX_SHAMIR_RECOVERY_BYTES; lia|cbn; lia]. }
  edestruct (take_all_honest xs (mkRecovery [] ∅ ∅ 0)) as (st & -> & Ed & Ei & El); [done|done|set_solver|done|done|].
  cbn [rbind decoded indices lens] in *. rewrite app_nil_l in Ed. rewrite Ei, El, !union_empty_r_L, size_list_to_set by done.
  fold (zlen xs). destruct (Z.ltb_spec (zlen xs) (threshold cfg)); [lia|].
  destruct xs as [|x0 xs']; [rewrite zlen_nil in Ht; lia|]. rewrite size_singleton. cbn [Z.of_nat Z.eqb negb Pos.of_succ_nat Pos.eqb].
  rewrite Ed. unfold ztake in Ed |- *. rewrite <- fmap_take. destruct (Z.to_nat (threshold cfg)) as [|t] eqn:Et; [lia|].
  destruct (decoded st) as [|[x1 v1] d]; [done|]. cbn [take map fst] in Ed. injection Ed as -> -> _. cbn [ok_or rbind].
  rewrite zlen_values. change (fmap (fun x => (x, values_of x))) with (map (fun x => (x, values_of x))).
  unfold seqZ, zlen at 1. rewrite Nat2Z.id. rewrite (list_fmap_ext _ Z.of_nat) by (intros; cbn; lia).
  replace (length secret) with (length secret - 0)%nat at 1 by lia.
  apply (recover_bytes_ok (take (S t) (x0 :: xs')) 0); [by apply Forall_take| |unfold zlen in *; rewrite length_take; lia|lia].
  eapply sublist_NoDup; [exact Hnd|]. apply sublist_take.
Qed.
End Honest.

(** ** Lemmas: recovery from any shares *)

Section Any.
Context `{KexOps, !KexLaws}.

(** The shares taken so far have distinct indices in range, field elements as
    values and lengths among those recorded. *)
Record recovery_ok (cfg : ShamirConfig) (st : Recovery) : Prop := {
  ro_entries : Forall (fun e => 1 <= e.1 <= shares cfg /\ Forall element e.2 /\ zlen e.2 ∈ lens st) (decoded st);
  ro_nodup : NoDup (map fst (decoded st));
  ro_indices : forall x, x ∈ map fst (decoded st) -> x ∈ indices st
}.

Lemma decode_values s vs : decode_u16_array s = Ok vs -> Forall u16 vs.
Proof.
  unfold decode_u16_array. case_if; [done|]. destruct (b64_decode s) as [raw|] eqn:Er; cbn [ok_or rbind]; [|done].
  case_if; [done|]. case_if; [done|]. intros [= <-]. by apply decode_le16_ok, (b64_decode_bytes s).
Qed.

Lemma decode_no_panic s : decode_u16_array s <> Panic.
Proof. unfold decode_u16_array. case_if; [done|]. destruct (b64_decode s); cbn; [|done]. by repeat case_if. Qed.

Lemma take_share_any cfg sh st : 0 <= share_index sh -> recovery_ok cfg st ->
  match take_share cfg sh st with
  | Panic => False
  | Err _ => True
  | Ok st' => recovery_ok cfg st' /\ 1 <= share_index sh <= shares cfg /\ share_index sh ∉ indices st /\
              indices st' = {[share_index sh]} ∪ indices st
  end.
Proof.
  intros Hu [He Hn Hi]. unfold take_share. pose proof (decode_no_panic (payload_b64 sh)) as Hp.
  destruct (decode_u16_array (payload_b64 sh)) as [vs|e|] eqn:Ed; [|done|done]. cbn [rbind].
  unfold checked_add. case_if; cbn [ok_or rbind]; [|done]. case_if; [done|]. case_if; [done|]. case_bool_decide as Hin; [done|].
  destruct (existsb (fun value => 256 <? value) vs) eqn:Ex; [done|]. bool_prop.
  assert (Forall element vs) as Hv.
  { apply Forall_forall. intros v Hvin. pose proof (decode_values _ _ Ed) as Hdv. rewrite Forall_forall in Hdv.
    specialize (Hdv v Hvin). unfold u16 in Hdv. split; [lia|]. apply Z.nle_gt. intros Hge.
    apply not_true_iff_false in Ex. apply Ex, existsb_exists. exists v. split; [by apply list_elem_of_In|]. apply Z.ltb_lt. lia. }
  assert (forall d, recovery_ok cfg (mkRecovery d (lens st) (indices st) 0) -> d = decoded st ->
    recovery_ok cfg (mkRecovery (if zlen d <? threshold cfg then d ++ [(share_index sh, vs)] else d)
      ({[zlen vs]} ∪ lens st) ({[share_index sh]} ∪ indices st) (decoded_bytes st + Z.min usize_max (zlen vs * 2)))) as HR.
  { intros d _ ->. destruct (zlen (decoded st) <? threshold cfg); split; cbn [decoded lens indices].
    - apply Forall_app. split; [|constructor; [cbn; split; [lia|]; split; [done|set_solver]|constructor]].
      eapply Forall_impl; [exact He|]. cbn. intros e (? & ? & ?). set_solver.
    - rewrite map_app. cbn. apply NoDup_app. split; [done|]. split; [|by apply NoDup_singleton]. intros x Hx ->%list_elem_of_singleton.
      by apply Hin, Hi.
    - intros x. rewrite map_app, elem_of_app. cbn. set_solver.
    - eapply Forall_impl; [exact He|]. cbn. intros e (? & ? & ?). set_solver.
    - done.
    - set_solver. }
  split; [by apply HR|]. split; [lia|done].
Qed.

Lemma take_shares_any cfg l st : Forall (fun sh => 0 <= share_index sh) l -> recovery_ok cfg st ->
  match take_shares cfg l st with
  | Panic => False
  | Err _ => True
  | Ok st' => recovery_ok cfg st' /\ Forall (fun sh => 1 <= share_index sh <= shares cfg) l /\
              NoDup (map share_index l) /\ (forall x, x ∈ map share_index l -> x ∉ indices st)
  end.
Proof.
  intros Hl. revert st. induction Hl as [|sh l Hsh Hl IH]; intros st Hok; cbn [take_shares map].
  - split; [done|]. split; [done|]. split; [constructor|set_solver].
  - pose proof (take_share_any cfg sh st Hsh Hok) as HT. destruct (take_share cfg sh st) as [st1|e|]; [|done..].
    destruct HT as (Hok1 & Hr & Hni & Ei). cbn [rbind]. specialize (IH st1 Hok1).
    destruct (take_shares cfg l st1) as [st2|e|]; [|done..]. destruct IH as (? & ? & Hnd & Hni1). rewrite Ei in Hni1.
    split; [done|]. split; [by constructor|]. split; [constructor; [set_solver|done]|]. set_solver.
Qed.

Lemma points_at_any n b used : Forall (fun e => Forall element e.2 /\ zlen e.2 = n /\ 1 <= e.1 <= 255) used -> 0 <= b < n ->
  exists points, points_at b used = Ok points /\ map fst points = map fst used /\ Forall point points.
Proof.
  intros HF Hb. induction HF as [|[x vs] used (Hv & Hl & Hx) HF IH]; cbn [points_at fst snd map] in *; [by exists []|].
  destruct (index_ok vs b) as (y & -> & Hy); [lia|]. destruct IH as (points & -> & Em & Hp). cbn [rbind].
  exists ((x, y) :: points). split; [done|]. split; [by rewrite <- Em|]. constructor; [|done].
  split; cbn; [lia|]. rewrite Forall_lookup in Hv. by eapply Hv.
Qed.

Lemma recover_bytes_any n used bs : Forall (fun e => Forall element e.2 /\ zlen e.2 = n /\ 1 <= e.1 <= 255) used ->
  NoDup (map fst used) -> Forall (fun b => 0 <= b < n) bs ->
  exists out, recover_bytes used bs = Ok out /\ bytes_ok out /\ length out = length bs.
Proof.
  intros HF Hnd Hbs. induction Hbs as [|b bs Hb Hbs IH]; cbn [recover_bytes].
  { exists []. split; [done|]. split; [constructor|done]. }
  destruct (points_at_any n b used HF Hb) as (points & -> & Em & Hp). cbn [rbind].
  unfold gf_lagrange_origin. rewrite lagrange_loop_ok; [| |done|done|unfold element; lia].
  - cbn [rbind]. rewrite rem_257. cbn [rbind]. destruct IH as (out & -> & Ho & Hl). cbn [rbind].
    eexists. split; [done|]. split; [constructor; [|done]|cbn; congruence]. apply Z.mod_pos_bound. lia.
  - rewrite Em. intros i j x y Hi Hj E. rewrite Forall_forall in HF.
    assert (forall x, x ∈ map fst used -> 1 <= x <= 255) as Hrange.
    { intros z ([z' vs] & -> & Hz)%list_elem_of_fmap. by apply (HF (z', vs) Hz). }
    apply list_elem_of_lookup_2 in Hi as Hxi. apply list_elem_of_lookup_2 in Hj as Hyj.
    pose proof (Hrange x Hxi). pose proof (Hrange y Hyj). apply eqp_small in E; [|lia..]. subst y. by eapply NoDup_lookup.
Qed.
End Any.

(** ** Lemmas: secrecy *)

(** The values of the code's polynomials, as congruences. *)
Lemma gf_eval_points c xs ys : Forall element c -> Forall (fun x => 1 <= x <= 255) xs -> Forall element ys -> length ys = length xs ->
  Forall2 (fun x y => gf_eval c x SHAMIR_PRIME = Ok y) xs ys <-> Forall (fun pt => eval c pt.1 =p pt.2) (zip xs ys).
Proof.
  intros Hc Hx. revert ys. induction Hx as [|x xs Hx Hxs IH]; intros [|y ys] Hy Hl; try done.
  apply Forall_cons in Hy as [Hy Hys]. cbn in Hl. cbn [zip zip_with]. rewrite Forall2_cons, Forall_cons, IH by (done || lia).
  cbn [fst snd]. unfold SHAMIR_PRIME. rewrite gf_eval_ok by (done || lia). apply and_iff_compat_r. split.
  - intros [= <-]. by rewrite eqp_mod.
  - intros E%eqp_mod_iff. rewrite E. unfold element in Hy. by rewrite Z.mod_small.
Qed.

Lemma distinct_range xs : Forall (fun x => 0 <= x <= 255) xs -> NoDup xs -> distinct xs.
Proof.
  intros Hx Hnd i j x y Hi Hj E. rewrite Forall_lookup in Hx. pose proof (Hx i x Hi). pose proof (Hx j y Hj).
  cbn beta in *. apply eqp_small in E; [|lia..]. subst y. by eapply NoDup_lookup.
Qed.

Lemma eqp_elements c d : Forall element c -> Forall element d -> Forall2 eqp c d -> c = d.
Proof.
  intros Hc Hd HE. induction HE as [|a b c d E HE IH]; [done|]. apply Forall_cons in Hc as [Ha Hc]. apply Forall_cons in Hd as [Hb Hd].
  unfold element in *. f_equal; [by apply eqp_small|by apply IH].
Qed.

Lemma eval_mod c x : eval (map (fun a => a mod 257) c) x =p eval c x.
Proof. induction c as [|a c IH]; [done|]. cbn [map eval]. by rewrite eqp_mod, IH. Qed.

(** ** Properties *)

(** C22: sharing then recovering.  Whenever a secret is split, the policy is
    sound and there is one share per index; any selection of at least
    [threshold] of the shares, in any order, gives the secret back, as long as
    their payloads stay within the recovery limit, and is refused for
    exhaustion otherwise; and splitting does succeed for every sound policy and
    every secret within the limit, when the generator produces an acceptable
    draw in time. *)
Theorem shamir_round_trip `{KexLaws} {R} (rng_next_u64 : R -> Z * R) fuel secret cfg r :
  bytes_ok secret -> enabled cfg = true -> 0 <= threshold cfg ->
  (forall l r' chosen, split_secret rng_next_u64 fuel secret cfg r = (Ok l, r') ->
     NoDup chosen -> (forall s, s ∈ chosen -> s ∈ l) -> threshold cfg <= zlen chosen ->
     valid_policy cfg /\ zlen l = shares cfg /\
     recover_secret_from_shares chosen cfg =
       if MAX_SHAMIR_RECOVERY_BYTES <? 2 * zlen secret * zlen chosen
       then Err (ResourceExhausted "Shamir recovery input exceeds the safety limit") else Ok secret) /\
  (valid_policy cfg -> zlen secret <= MAX_SHAMIR_SECRET_BYTES -> (forall r, accepts rng_next_u64 fuel r = true) ->
     exists l r', split_secret rng_next_u64 fuel secret cfg r = (Ok l, r')).
Proof.
  intros Hb He Ht. split.
  - intros l r' chosen Hs Hnd Hin Hth. apply split_secret_spec in Hs as (Hp & Hlen & coeffs & Hd & ->); [|done..].
    assert (chosen = map (share_of coeffs) (map share_index chosen)) as Ec.
    { clear Hnd Hth. induction chosen as [|s chosen IH]; [done|]. cbn [map]. rewrite <- IH by set_solver. f_equal.
      assert (s ∈ s :: chosen) as Hs by left. apply Hin in Hs. apply list_elem_of_fmap_1 in Hs as (x & -> & _). done. }
    pose proof Hp as (_ & Hsh & _). split; [done|].
    split; [unfold zlen; rewrite length_map, length_seqZ; lia|]. rewrite Ec at 1.
    assert (zlen chosen = zlen (map share_index chosen)) as El by (unfold zlen; by rewrite length_map).
    rewrite El in Hth |- *. apply recover_honest; try done.
    + apply Forall_map, Forall_forall. intros s Hs. destruct (list_elem_of_fmap_1 _ _ _ (Hin s Hs)) as (x & -> & Hx%elem_of_seqZ).
      cbn. lia.
    + rewrite Ec in Hnd. by apply NoDup_fmap_1 in Hnd.
  - intros Hp Hlen Ha. pose proof Hp as (_ & Hsh & Hs). unfold split_secret. rewrite He. cbn [negb].
    destruct (Z.eqb_spec (threshold cfg) 0); [lia|]. destruct (Z.eqb_spec (shares cfg) 0); [lia|].
    destruct (Z.ltb_spec (shares cfg) (threshold cfg)); [lia|]. destruct (Z.ltb_spec 255 (shares cfg)); [lia|]. cbn [orb].
    destruct (Z.ltb_spec MAX_SHAMIR_SECRET_BYTES (zlen secret)); [lia|].
    destruct (split_rows_ok rng_next_u64 fuel cfg secret (zreplicate (shares cfg) []) r Ha) as (rows & r' & ->);
      [done|lia|lia|rewrite zlen_zreplicate; lia|]. by do 2 eexists.
Qed.

(** C23: fewer shares say nothing.  For any [threshold - 1] share indices and any
    values they could hold, each secret byte is explained by exactly one choice
    of the random coefficients: so the coefficients being drawn uniformly, the
    shares are independent of the secret. *)
Theorem shamir_secrecy xs ys byte :
  Forall (fun x => 1 <= x <= 255) xs -> NoDup xs -> Forall element ys -> length ys = length xs -> is_byte byte ->
  exists tail, (length tail = length xs /\ Forall element tail /\
      Forall2 (fun x y => gf_eval (byte :: tail) x SHAMIR_PRIME = Ok y) xs ys) /\
    forall tail', length tail' = length xs -> Forall element tail' ->
      Forall2 (fun x y => gf_eval (byte :: tail') x SHAMIR_PRIME = Ok y) xs ys -> tail' = tail.
Proof.
  intros Hx Hnd Hy Hl Hb. unfold is_byte in Hb. assert (element byte) as Hbe by (unfold element; lia).
  set (points := (0, byte) :: zip xs ys).
  assert (map fst points = 0 :: xs) as Ef by (cbn [points map fst]; f_equal; apply fst_zip; lia).
  assert (length points = S (length xs)) as Elp by (cbn; rewrite length_zip_with; lia).
  assert (distinct (0 :: xs)) as Hd.
  { apply distinct_range; constructor; [lia| | |done].
    - eapply Forall_impl; [exact Hx|]. cbn. lia.
    - intros Hin. rewrite Forall_forall in Hx. specialize (Hx 0 Hin). lia. }
  destruct (interpolation_exists inv inv_ok points) as (c & Hc & HF); [by rewrite Ef|]. rewrite Elp in Hc.
  destruct c as [|c0 tail0]; [done|]. cbn in Hc. apply Forall_cons in HF as [H0 HF]. cbn [fst snd eval] in H0.
  set (tail := map (fun a => a mod 257) tail0).
  assert (length tail = length xs) as Hlt by (unfold tail; rewrite length_map; lia).
  assert (Forall element tail) as Het by (apply Forall_map, Forall_true; intros a; apply element_mod).
  assert (Forall (fun pt => eval (byte :: tail) pt.1 =p pt.2) (zip xs ys)) as HT.
  { eapply Forall_impl; [exact HF|]. intros pt E. cbn [eval] in *. unfold tail. rewrite eval_mod, <- E, <- H0. apply eqp_eq. lia. }
  exists tail. split.
  - split; [done|]. split; [done|]. apply gf_eval_points; try done. by constructor.
  - intros tail' Hlt' Het' HE. apply gf_eval_points in HE; try done; [|by constructor].
    assert (Forall2 eqp (byte :: tail') (byte :: tail)) as HE2.
    { apply (interpolation_unique (0 :: xs)); [done|cbn; lia|cbn; lia|]. constructor; [cbn [eval]; by rewrite !Z.mul_0_l|].
      rewrite <- (fst_zip xs ys) by lia. apply Forall_map. rewrite Forall_forall in HT, HE |- *. intros pt Hpt.
      cbn. rewrite (HE pt Hpt). symmetry. exact (HT pt Hpt). }
    apply Forall2_cons in HE2 as [_ HE2]. by apply eqp_elements.
Qed.

(** recovery is guarded.  On any shares, whatever their payloads, recovery
    does not panic; and when it returns a secret under an enabled policy, the
    policy is sound and it was given between [threshold] and [shares] shares
    with pairwise different indices in range. *)
Theorem shamir_recovery_guarded `{KexLaws} l cfg :
  Forall (fun sh => 0 <= share_index sh) l -> 0 <= threshold cfg -> 0 <= shares cfg ->
  recover_secret_from_shares l cfg <> Panic /\
  forall secret, enabled cfg = true -> recover_secret_from_shares l cfg = Ok secret ->
    bytes_ok secret /\ valid_policy cfg /\ threshold cfg <= zlen l <= shares cfg /\
    NoDup (map share_index l) /\ Forall (fun sh => 1 <= share_index sh <= shares cfg) l.
Proof.
  intros Hl Ht0 Hs0. unfold recover_secret_from_shares. destruct (enabled cfg) eqn:He; [|by split]. cbn [negb].
  unfold validate_shamir_config. rewrite He. cbn [andb]. case_if; [done|]. cbn [rbind].
  case_if; [done|]. case_if; [done|]. bool_prop.
  pose proof (take_shares_any cfg l (mkRecovery [] ∅ ∅ 0) Hl) as HT.
  destruct (take_shares cfg l _) as [st|e|]; [|done|destruct HT; split; cbn; [done|constructor|set_solver]].
  destruct HT as ([Hent Hnd Hin] & Hr & Hndi & _); [split; cbn; [done|constructor|set_solver]|]. cbn [rbind].
  case_if; [done|]. case_if; [done|]. bool_prop. destruct (decoded st) as [|[x0 v0] d] eqn:Ed; [done|]. cbn [ok_or rbind].
  assert (size (lens st) = 1%nat) as (n & En)%size_1_elem_of by lia.
  assert (forall e, e ∈ (x0, v0) :: d -> zlen e.2 = n) as Hlen.
  { intros e Hein. rewrite Forall_forall in Hent. destruct (Hent e Hein) as (_ & _ & Hle). set_solver. }
  destruct (recover_bytes_any n (ztake (threshold cfg) ((x0, v0) :: d)) (seqZ 0 (zlen v0))) as (out & -> & Ho & _).
  - unfold ztake. apply Forall_take, Forall_forall. intros e Hein. rewrite Forall_forall in Hent.
    destruct (Hent e Hein) as (Hxr & Hv & _). split; [done|]. split; [by apply Hlen|lia].
  - unfold ztake. rewrite <- firstn_map. eapply sublist_NoDup; [exact Hnd|]. apply sublist_take.
  - apply Forall_forall. intros b Hb%elem_of_seqZ. specialize (Hlen (x0, v0)). cbn in Hlen. rewrite <- Hlen; [lia|left].
  - split; [done|]. intros secret _ [= <-]. split; [done|]. split; [split; [done|lia]|]. split; [lia|]. split; [done|done].
Qed.

(** ** Witnesses *)

Module Witnesses.
Import Toy.

(** A linear congruential generator. *)
Definition lcg (r : Z) : Z * Z := let r := (r * 6364136223846793005 + 1442695040888963407) mod 2 ^ 63 in (r, r).

Lemma lcg_accepts r : accepts lcg 1 r = true.
Proof.
  cbn [accepts]. unfold lcg. rewrite orb_false_r. apply Z.ltb_lt. unfold u64_max.
  pose proof (Z.mod_pos_bound (r * 6364136223846793005 + 1442695040888963407) (2 ^ 63)). lia.
Qed.

Definition policy : ShamirConfig := mkShamirConfig true 3 5.
Definition secret : bytes := [0; 255; 104; 105; 42].
Definition split_shares : list ShamirShare := Eval vm_compute in
  match (split_secret lcg 1 secret policy 7).1 with Ok l => l | _ => [] end.
Definition after : Z := Eval vm_compute in (split_secret lcg 1 secret policy 7).2.
Definition chosen : list ShamirShare := Eval vm_compute in
  match split_shares with [_; b; c; _; e] => [e; b; c] | _ => [] end.

Lemma shamir_round_trip_witness : recover_secret_from_shares chosen policy = Ok secret.
Proof.
  assert (bytes_ok secret) as Hb by by_compute.
  destruct (shamir_round_trip lcg 1 secret policy 7 Hb eq_refl ltac:(vm_compute; discriminate)) as [HR _].
  destruct (HR split_shares after chosen) as (_ & _ & E).
  - vm_compute; reflexivity.
  - apply (bool_decide_unpack _); vm_compute; exact I.
  - apply Forall_forall. apply (bool_decide_unpack _); vm_compute; exact I.
  - vm_compute; discriminate.
  - rewrite E. vm_compute; reflexivity.
Defined.

Lemma shamir_secrecy_witness :
  exists tail, (length tail = 2%nat /\ Forall element tail /\
    Forall2 (fun x y => gf_eval (65 :: tail) x SHAMIR_PRIME = Ok y) [2; 5] [256; 17]).
Proof.
  destruct (shamir_secrecy [2; 5] [256; 17] 65) as (tail & Ht & _).
  - repeat constructor; lia.
  - apply (bool_decide_unpack _); vm_compute; exact I.
  - repeat constructor; unfold element; lia.
  - reflexivity.
  - unfold is_byte; lia.
  - exists tail. exact Ht.
Defined.

Lemma shamir_recovery_guarded_witness :
  recover_secret_from_shares (mkShamirShare 9 "AAE=" :: chosen) policy <> Panic.
Proof.
  apply (shamir_recovery_guarded (mkShamirShare 9 "AAE=" :: chosen) policy).
  - repeat constructor; vm_compute; discriminate.
  - vm_compute; discriminate.
  - vm_compute; discriminate.
Defined.
End Witnesses.
