(* ===== verification/Binary64.v ===== *)
(** [f64]: IEEE 754 binary64 with the specification arithmetic of the Standard
    Library, and the methods of [f64] the program uses. *)
From Stdlib Require Import SpecFloat.
From S2P Require Import Prelude Error.

Abbreviation f64 := spec_float.

Definition f64_add : f64 -> f64 -> f64 := SFadd 53 1024.
Definition f64_sub : f64 -> f64 -> f64 := SFsub 53 1024.
Definition f64_mul : f64 -> f64 -> f64 := SFmul 53 1024.
Definition f64_div : f64 -> f64 -> f64 := SFdiv 53 1024.
Definition f64_of_u64 (n : Z) : f64 := binary_normalize 53 1024 n 0 false.
Definition f64_zero : f64 := S754_zero false.
Definition f64_one : f64 := f64_of_u64 1.
Definition f64_is_finite (x : f64) : bool :=
  match x with S754_zero _ | S754_finite _ _ _ => true | _ => false end.


(** A decimal literal [n / d]: the division rounds to the nearest value, as the
    literal does. *)
Definition f64_lit (n d : Z) : f64 := f64_div (f64_of_u64 n) (f64_of_u64 d).

Definition f64_is_nan (x : f64) : bool := match x with S754_nan => true | _ => false end.

(** [min]: the other operand when one is NaN. *)
Definition f64_min (a b : f64) : f64 :=
  if f64_is_nan a then b else if f64_is_nan b then a else if SFltb b a then b else a.

(** [clamp]: panics on an empty or unordered range. *)
Definition f64_clamp (x lo hi : f64) : result f64 :=
  if SFleb lo hi then Ok (if SFltb x lo then lo else if SFltb hi x then hi else x) else Panic.

(** [(lo..=hi).contains(&x)] *)
Definition f64_in (lo hi x : f64) : bool := SFleb lo x && SFleb x hi.

(** ** Lemmas *)

Lemma SFcompare_opp a b : SFcompare b a = CompOpp <$> SFcompare a b.
Proof.
  destruct a as [s1|s1| |s1 m1 e1], b as [s2|s2| |s2 m2 e2]; try done; cbn; try (by destruct s1, s2); try (by destruct s1); try (by destruct s2).
  destruct s1, s2; try done; rewrite (Z.compare_antisym e1 e2); destruct (e1 ?= e2); cbn; try done;
    by rewrite (Pos.compare_cont_antisym m1 m2 Eq).
Qed.

Lemma SFltb_irrefl x : SFltb x x = false.
Proof.
  unfold SFltb. pose proof (SFcompare_opp x x) as E. destruct (SFcompare x x) as [[]|]; done.
Qed.

Lemma SFleb_ltb a b : SFleb a b = true -> SFltb b a = false.
Proof.
  unfold SFleb, SFltb. rewrite (SFcompare_opp a b). by destruct (SFcompare a b) as [[]|].
Qed.

Lemma f64_min_le a b : SFltb b (f64_min a b) = false.
Proof.
  unfold f64_min. destruct (f64_is_nan a); [apply SFltb_irrefl|]. destruct (f64_is_nan b) eqn:Eb; [by destruct b|].
  destruct (SFltb b a) eqn:E; [apply SFltb_irrefl|done].
Qed.

(** Clamping to a range that is not empty stays inside, or keeps a NaN. *)
Lemma f64_clamp_ok x lo hi : SFleb lo hi = true ->
  exists y, f64_clamp x lo hi = Ok y /\ SFltb y lo = false /\ SFltb hi y = false.
Proof.
  intros Hle. unfold f64_clamp. rewrite Hle. eexists. split; [done|].
  destruct (SFltb x lo) eqn:E1; [split; [apply SFltb_irrefl|by apply SFleb_ltb]|].
  destruct (SFltb hi x) eqn:E2; [split; [by apply SFleb_ltb|apply SFltb_irrefl]|done].
Qed.
