(* ===== verification/Histogram.v ===== *)
(** The empirical size distribution of Shroud 2.0
    (shph-transport/src/shroud2/mod.rs): construction from bins and weights or
    from samples, inverse-CDF sampling and the Wasserstein-1 distance.  *)
From Stdlib Require Import SpecFloat Sorted.
From S2P Require Import Prelude Error Text Primitives.
From S2P Require Import Binary64.

(** ** The histogram *)

Definition MAX_HISTOGRAM_BINS : Z := 4096.
Definition MAX_HISTOGRAM_SAMPLES : Z := 1000000.

Record EmpiricalHistogram := mkHistogram { bins : list Z; weights : list f64; cdf : list f64 }.

(** [bins.windows(2).any(|pair| pair[0] >= pair[1])] *)
Fixpoint unordered (bins : list Z) : bool :=
  match bins with
  | a :: (b :: _) as rest => (b <=? a) || unordered rest
  | _ => false
  end.

(** The cumulative sums of the weights. *)
Fixpoint cumulate (cumulative : f64) (weights : list f64) : list f64 :=
  match weights with
  | [] => []
  | w :: rest => let cumulative := f64_add cumulative w in cumulative :: cumulate cumulative rest
  end.

(** [*cdf.last_mut().expect(..) = 1.0] *)
Definition set_last (cdf : list f64) : result (list f64) := store cdf (zlen cdf - 1) f64_one.

Definition histogram_new (bins : list Z) (weights : list f64) : result EmpiricalHistogram :=
  if (zlen bins =? 0) || negb (zlen bins =? zlen weights)
  then Err (InvalidArgument "histogram bins and weights must be non-empty and have equal length")
  else if MAX_HISTOGRAM_BINS <? zlen bins
  then Err (ResourceExhausted ("histogram exceeds the " +:+ show MAX_HISTOGRAM_BINS +:+ "-bin limit"))
  else if unordered bins
  then Err (InvalidArgument "histogram bins must be strictly increasing")
  else if existsb (fun w => negb (f64_is_finite w) || SFltb w f64_zero) weights
  then Err (InvalidArgument "histogram weights must be finite and non-negative")
  else
    let total := fold_left f64_add weights f64_zero in
    if negb (f64_is_finite total) || SFleb total f64_zero
    then Err (InvalidArgument "histogram weights must have a positive finite sum")
    else
      let weights := map (fun w => f64_div w total) weights in
      let? cdf := set_last (cumulate f64_zero weights) in
      Ok (mkHistogram bins weights cdf).

(** A [BTreeMap<u64, u64>] as its entries in key order. *)
Fixpoint count_sample (sample : Z) (counts : list (Z * Z)) (at_bin_limit : bool)
  : result (list (Z * Z)) :=
  let vacant :=
    if at_bin_limit
    then Err (ResourceExhausted ("histogram exceeds the " +:+ show MAX_HISTOGRAM_BINS +:+ "-bin limit"))
    else Ok ((sample, 1) :: counts) in
  match counts with
  | [] => vacant
  | (k, n) :: rest =>
      if sample =? k then
        let? n := ok_or (checked_add u64_max n 1) (ResourceExhausted "histogram sample count overflow") in
        Ok ((k, n) :: rest)
      else if sample <? k then vacant
      else
        let? rest := count_sample sample rest at_bin_limit in
        Ok ((k, n) :: rest)
  end.

Fixpoint count_samples (samples : list Z) (counts : list (Z * Z)) : result (list (Z * Z)) :=
  match samples with
  | [] => Ok counts
  | sample :: rest =>
      let at_bin_limit := MAX_HISTOGRAM_BINS <=? zlen counts in
      let? counts := count_sample sample counts at_bin_limit in
      count_samples rest counts
  end.

Definition from_samples (samples : list Z) : result EmpiricalHistogram :=
  if zlen samples =? 0
  then Err (InvalidArgument "histogram samples must not be empty")
  else if MAX_HISTOGRAM_SAMPLES <? zlen samples
  then Err (ResourceExhausted ("histogram exceeds the " +:+ show MAX_HISTOGRAM_SAMPLES +:+ "-sample limit"))
  else
    let? counts := count_samples samples [] in
    histogram_new (map fst counts) (map (fun c => f64_of_u64 c.2) counts).

(** The number of leading elements that satisfy the predicate; the predicate
    below holds on a prefix of the bounds. *)
Fixpoint partition_point {A} (p : A -> bool) (l : list A) : Z :=
  match l with
  | [] => 0
  | x :: rest => if p x then 1 + partition_point p rest else 0
  end.

(** The bin of a target in [0, 1). *)
Definition bin_of_target (h : EmpiricalHistogram) (target : f64) : result Z :=
  let index := partition_point (fun bound => SFleb bound target) (cdf h) in
  match bins h !! Z.to_nat index with
  | Some b => Ok b
  | None => match last (bins h) with Some b => Ok b | None => Panic end
  end.

Definition sample_bin {R} `{RngOps R} (h : EmpiricalHistogram) (r : R) : result Z * R :=
  let '(target, r) := rng_f64 r in
  (bin_of_target h target, r).

(** ** The Wasserstein distance *)

Definition bin_at (h : EmpiricalHistogram) (i : Z) : option Z := bins h !! Z.to_nat i.

(** [while bins.get(index) == Some(position) { mass += weights[index]; index += 1 }] *)
Fixpoint absorb_mass (fuel : nat) (h : EmpiricalHistogram) (position index : Z) (mass : f64)
  : option (result (Z * f64)) :=
  match fuel with
  | O => None
  | S fuel =>
      if bool_decide (bin_at h index = Some position) then
        match Error.index (weights h) index with
        | Ok w => absorb_mass fuel h position (index + 1) (f64_add mass w)
        | _ => Some Panic
        end
      else Some (Ok (index, mass))
  end.

Record Walk := mkWalk {
  current_index : Z; target_index : Z; current_mass : f64; target_mass : f64;
  previous_position : Z; distance : f64
}.

Definition walk_step (fuel : nat) (current target : EmpiricalHistogram) (w : Walk)
  : option (result Walk) :=
  let current_position := default u64_max (bin_at current (current_index w)) in
  let target_position := default u64_max (bin_at target (target_index w)) in
  let position := Z.min current_position target_position in
  let distance := f64_add (distance w)
    (f64_mul (SFabs (f64_sub (current_mass w) (target_mass w)))
             (f64_of_u64 (saturating_sub position (previous_position w)))) in
  match absorb_mass fuel current position (current_index w) (current_mass w) with
  | Some (Ok (ci, cm)) =>
      match absorb_mass fuel target position (target_index w) (target_mass w) with
      | Some (Ok (ti, tm)) => Some (Ok (mkWalk ci ti cm tm position distance))
      | Some _ => Some Panic
      | None => None
      end
  | Some _ => Some Panic
  | None => None
  end.

(** [fuel] bounds each loop: the bins of both histograms and one more test. *)
Fixpoint walk (n fuel : nat) (current target : EmpiricalHistogram) (w : Walk)
  : option (result f64) :=
  if (current_index w <? zlen (bins current)) || (target_index w <? zlen (bins target)) then
    match n with
    | O => None
    | S n =>
        match walk_step fuel current target w with
        | Some (Ok w) => walk n fuel current target w
        | Some _ => Some Panic
        | None => None
        end
    end
  else Some (Ok (distance w)).

Definition wasserstein_distance (current target : EmpiricalHistogram) : option (result f64) :=
  let fuel := (length (bins current) + length (bins target) + 1)%nat in
  match Error.index (bins current) 0, Error.index (bins target) 0 with
  | Ok c, Ok t =>
      walk fuel fuel current target (mkWalk 0 0 f64_zero f64_zero (Z.min c t) f64_zero)
  | _, _ => Some Panic
  end.

(** ** Lemmas: construction *)

(** What every constructed histogram satisfies. *)
Record histogram_wf (h : EmpiricalHistogram) : Prop := {
  wf_len : 0 < zlen (bins h) <= MAX_HISTOGRAM_BINS;
  wf_sorted : StronglySorted Z.lt (bins h);
  wf_weights : zlen (weights h) = zlen (bins h);
  wf_cdf : zlen (cdf h) = zlen (bins h)
}.

Lemma unordered_spec l : unordered l = false <-> StronglySorted Z.lt l.
Proof.
  assert (unordered l = false <-> Sorted Z.lt l) as ->.
  { induction l as [|a [|b l] IH]; [split; [constructor|done]|split; [repeat constructor|done]|].
    change (unordered (a :: b :: l)) with ((b <=? a) || unordered (b :: l)).
    rewrite orb_false_iff, Z.leb_gt, IH. split; [intros [? ?]; by constructor; [|constructor]|].
    intros HS. inversion HS as [|? ? Hs Hr]; subst. by inversion Hr. }
  split; [|apply StronglySorted_Sorted]. apply Sorted_StronglySorted. intros x y z; lia.
Qed.

Lemma zlen_cumulate c ws : zlen (cumulate c ws) = zlen ws.
Proof. revert c. induction ws as [|w ws IH]; intros c; [done|]. simpl. by rewrite !zlen_cons, IH. Qed.

Lemma zlen_map {A B} (f : A -> B) l : zlen (map f l) = zlen l.
Proof. unfold zlen. by rewrite length_map. Qed.

Lemma set_last_ok l : 0 < zlen l -> exists l', set_last l = Ok l' /\ zlen l' = zlen l.
Proof.
  intros Hl. unfold set_last, store, copy_into. replace (_ && _ && _ && _) with true.
  - eexists. split; [done|]. zl.
  - symmetry. rewrite !andb_true_iff, !Z.leb_le, Z.eqb_eq. zl.
Qed.

Lemma histogram_new_cases bs ws :
  (exists e, histogram_new bs ws = Err e) \/
  exists h, histogram_new bs ws = Ok h /\ histogram_wf h /\ bins h = bs.
Proof.
  unfold histogram_new. cbv zeta. repeat (case_if; [by left; eexists|]). bool_prop.
  match goal with HU : unordered _ = false |- _ => apply unordered_spec in HU end.
  set (nw := map _ ws). assert (zlen nw = zlen bs) by (unfold nw; rewrite zlen_map; lia).
  pose proof (zlen_nonneg bs).
  destruct (set_last_ok (cumulate f64_zero nw)) as (l & -> & Hl); [rewrite zlen_cumulate; lia|].
  right. eexists. split; [done|]. split; [|done]. rewrite zlen_cumulate in Hl.
  split; simpl; try done; try lia.
Qed.

(** The entries of the count map, in increasing key order. *)
Definition keys_sorted (counts : list (Z * Z)) : Prop := StronglySorted Z.lt (map fst counts).

Lemma count_sample_ok s counts full counts' :
  keys_sorted counts -> count_sample s counts full = Ok counts' ->
  keys_sorted counts' /\ forall k, k ∈ map fst counts' <-> k = s \/ k ∈ map fst counts.
Proof.
  unfold keys_sorted. revert counts'. induction counts as [|[k n] rest IH]; intros counts' Hs HC;
    cbn [count_sample] in HC.
  - case_if. injection HC as <-. split; [repeat constructor|]. intros k; simpl. set_solver.
  - cbn [map fst] in Hs. inversion Hs as [|? ? Hs' Hf]; subst.
    destruct (Z.eqb_spec s k) as [->|Hk].
    { guards HC. injection HC as <-. split; [done|]. intros x; simpl. set_solver. }
    destruct (Z.ltb_spec s k).
    + case_if. injection HC as <-. split; [|intros x; simpl; set_solver].
      cbn [map fst]. constructor; [done|]. constructor; [done|].
      eapply Forall_impl; [exact Hf|]. simpl. lia.
    + apply rbind_ok in HC as (r & E & HC). injection HC as <-.
      destruct (IH r Hs' E) as [Hr Hin]. split.
      * cbn [map fst]. constructor; [done|]. rewrite Forall_forall in Hf |- *.
        intros x [->|Hx]%Hin; [lia|by apply Hf].
      * intros x. cbn [map fst]. rewrite !elem_of_cons, Hin. naive_solver.
Qed.

Lemma count_samples_ok ss counts counts' :
  keys_sorted counts -> count_samples ss counts = Ok counts' ->
  keys_sorted counts' /\ forall k, k ∈ map fst counts' <-> k ∈ ss \/ k ∈ map fst counts.
Proof.
  revert counts. induction ss as [|s ss IH]; intros counts Hs HC; cbn [count_samples] in HC.
  - injection HC as <-. split; [done|]. set_solver.
  - apply rbind_ok in HC as (c & E & HC). apply count_sample_ok in E as [Hc Hin]; [|done].
    destruct (IH c Hc HC) as [Hc' Hin']. split; [done|]. intros k.
    rewrite Hin', Hin, elem_of_cons. naive_solver.
Qed.

Lemma count_sample_no_panic s counts full : no_panic (count_sample s counts full).
Proof. induction counts as [|[k n] rest IH]; cbn [count_sample]; walk. Qed.

Lemma count_samples_no_panic ss counts : no_panic (count_samples ss counts).
Proof.
  revert counts. induction ss as [|s ss IH]; intros counts; cbn [count_samples]; [done|].
  apply rbind_no_panic; [apply count_sample_no_panic|]. auto.
Qed.

(** ** Lemmas: the distance walk *)

Lemma bin_at_lookup h i x : bin_at h i = Some x -> 0 <= i -> i < zlen (bins h) /\ x ∈ bins h.
Proof.
  unfold bin_at. intros Hx Hi. pose proof (lookup_lt_Some _ _ _ Hx).
  split; [unfold zlen; lia|]. by apply list_elem_of_lookup_2 in Hx.
Qed.

Lemma absorb_mass_ok fuel h position i m :
  zlen (weights h) = zlen (bins h) -> 0 <= i <= zlen (bins h) ->
  zlen (bins h) - i < Z.of_nat fuel ->
  exists i' m', absorb_mass fuel h position i m = Some (Ok (i', m')) /\
    i <= i' <= zlen (bins h) /\ (bin_at h i = Some position -> i < i').
Proof.
  intros Hw. revert i m. induction fuel as [|fuel IH]; intros i m Hi Hf; [lia|].
  cbn [absorb_mass]. case_bool_decide as Hb; [|exists i, m; split_and!; done || lia].
  apply bin_at_lookup in Hb as [Hlt _]; [|lia].
  destruct (index_ok (weights h) i) as (w & -> & _); [lia|].
  destruct (IH (i + 1) (f64_add m w)) as (i' & m' & -> & Hi' & _); [lia..|].
  exists i', m'. split_and!; [done|lia..].
Qed.

Definition bins_u64 (h : EmpiricalHistogram) : Prop := Forall (fun b => 0 <= b <= u64_max) (bins h).

Lemma bin_at_some h i : 0 <= i < zlen (bins h) -> exists x, bin_at h i = Some x.
Proof. intros Hi. apply lookup_lt_is_Some_2. unfold zlen in Hi. lia. Qed.

Definition remaining (a b : EmpiricalHistogram) (w : Walk) : Z :=
  (zlen (bins a) - current_index w) + (zlen (bins b) - target_index w).

Definition walk_ok (a b : EmpiricalHistogram) (w : Walk) : Prop :=
  0 <= current_index w <= zlen (bins a) /\ 0 <= target_index w <= zlen (bins b).

(** An iteration consumes at least one bin. *)
Lemma walk_step_ok fuel a b w :
  histogram_wf a -> histogram_wf b -> bins_u64 a -> bins_u64 b -> walk_ok a b w ->
  zlen (bins a) + zlen (bins b) < Z.of_nat fuel -> 0 < remaining a b w ->
  exists w', walk_step fuel a b w = Some (Ok w') /\ walk_ok a b w' /\
    remaining a b w' < remaining a b w.
Proof.
  intros [_ _ Hwa _] [_ _ Hwb _] Ha Hb (Hi & Hj) Hf Hr. unfold walk_step.
  set (position := Z.min _ _).
  destruct (absorb_mass_ok fuel a position (current_index w) (current_mass w))
    as (ci & cm & -> & Hci & Pa); [done|lia..|].
  destruct (absorb_mass_ok fuel b position (target_index w) (target_mass w))
    as (ti & tm & -> & Hti & Pb); [done|lia..|].
  eexists. split; [done|]. unfold walk_ok, remaining in *. cbn [current_index target_index].
  split; [lia|].
  assert (bin_at a (current_index w) = Some position \/ bin_at b (target_index w) = Some position)
    as [E|E]; [|specialize (Pa E); lia|specialize (Pb E); lia].
  unfold position.
  assert (forall h i x, bins_u64 h -> 0 <= i -> bin_at h i = Some x -> x <= u64_max) as Hmax.
  { intros h i x Hu Hi' Hx%bin_at_lookup; [|done]. unfold bins_u64 in Hu.
    rewrite Forall_forall in Hu. apply Hu, Hx. }
  destruct (bin_at a (current_index w)) as [x|] eqn:Ex, (bin_at b (target_index w)) as [y|] eqn:Ey;
    cbn [default id].
  - destruct (Z.min_spec x y) as [[_ ->]|[_ ->]]; auto.
  - left. f_equal. specialize (Hmax a _ x Ha (proj1 Hi) Ex). lia.
  - right. f_equal. specialize (Hmax b _ y Hb (proj1 Hj) Ey). lia.
  - exfalso. destruct (decide (current_index w < zlen (bins a))).
    + destruct (bin_at_some a (current_index w)); [lia|congruence].
    + destruct (bin_at_some b (target_index w)); [lia|congruence].
Qed.

Lemma walk_total n fuel a b w :
  histogram_wf a -> histogram_wf b -> bins_u64 a -> bins_u64 b -> walk_ok a b w ->
  zlen (bins a) + zlen (bins b) < Z.of_nat fuel -> remaining a b w <= Z.of_nat n ->
  exists d, walk n fuel a b w = Some (Ok d).
Proof.
  intros Hwa Hwb Ha Hb. revert w. induction n as [|n IH]; intros w Hw Hf Hr; cbn [walk].
  - pose proof Hw as (? & ?). unfold remaining in Hr. case_if; [|eauto].
    apply orb_true_iff in Heqb0 as [?%Z.ltb_lt|?%Z.ltb_lt]; lia.
  - case_if; [|eauto].
    destruct (walk_step_ok fuel a b w) as (w' & -> & Hw' & Hlt); try done.
    { destruct Hw. unfold remaining. apply orb_true_iff in Heqb0 as [?%Z.ltb_lt|?%Z.ltb_lt]; lia. }
    apply IH; [done|done|lia].
Qed.

Lemma bin_of_target_ok h target :
  histogram_wf h -> exists b, bin_of_target h target = Ok b /\ b ∈ bins h.
Proof.
  intros [Hl _ _ _]. unfold bin_of_target.
  destruct (bins h !! _) as [b|] eqn:E.
  - exists b. split; [done|]. by apply list_elem_of_lookup_2 in E.
  - destruct (last (bins h)) as [b|] eqn:E2.
    + exists b. split; [done|]. apply last_Some in E2 as [l ->]. set_solver.
    + apply last_None in E2. rewrite E2 in Hl. by destruct Hl.
Qed.

(** ** Properties *)

(** histograms only produce their own bins.  [new] and [from_samples]
    never panic; a histogram that either returns has between 1 and 4096
    strictly increasing bins with as many weights and cumulative bounds, its
    bins are the given ones (for samples: exactly the distinct sample values),
    and sampling it at any target never panics and returns one of the bins. *)
Theorem histogram_samples_are_bins bs ws samples :
  no_panic (histogram_new bs ws) /\ no_panic (from_samples samples) /\
  (forall h, histogram_new bs ws = Ok h -> bins h = bs) /\
  (forall h, from_samples samples = Ok h -> forall b, b ∈ bins h <-> b ∈ samples) /\
  forall h, histogram_new bs ws = Ok h \/ from_samples samples = Ok h ->
    histogram_wf h /\ forall target, exists b, bin_of_target h target = Ok b /\ b ∈ bins h.
Proof.
  pose proof (histogram_new_cases bs ws) as HN.
  assert (no_panic (from_samples samples) /\
    forall h, from_samples samples = Ok h -> histogram_wf h /\ forall b, b ∈ bins h <-> b ∈ samples)
    as [HF1 HF2].
  { unfold from_samples. do 2 (case_if; [done|]).
    pose proof (count_samples_no_panic samples []) as N.
    destruct (count_samples samples []) as [counts|e|] eqn:E; [|done..]. cbn [rbind].
    apply count_samples_ok in E as [_ Hin]; [|constructor].
    destruct (histogram_new_cases (map fst counts) (map (fun c => f64_of_u64 c.2) counts))
      as [[e ->]|(h & -> & Hwf & Hb)]; [done|]. split; [done|]. intros ? [= <-].
    split; [done|]. intros b. rewrite Hb, Hin. simpl. set_solver. }
  split; [by destruct HN as [[e ->]|(h & -> & _)]|]. split; [done|].
  split; [intros h E; destruct HN as [[e ?]|(h' & ? & _ & ?)]; congruence|].
  split; [intros h E; by apply HF2|].
  intros h Hh. assert (histogram_wf h) as Hwf.
  { destruct Hh as [E|E]; [|by apply HF2]. destruct HN as [[e ?]|(h' & ? & ? & _)]; congruence. }
  split; [done|]. intros target. by apply bin_of_target_ok.
Qed.

(** the Wasserstein distance is total.  For well-formed histograms of u64
    bins the nested loops of [wasserstein_distance] end within one iteration
    per bin, no index is out of range, and a distance is returned. *)
Theorem wasserstein_distance_total a b :
  histogram_wf a -> histogram_wf b -> bins_u64 a -> bins_u64 b ->
  exists d, wasserstein_distance a b = Some (Ok d).
Proof.
  intros Ha Hb Hua Hub. unfold wasserstein_distance.
  pose proof (wf_len _ Ha). pose proof (wf_len _ Hb).
  destruct (index_ok (bins a) 0) as (x & -> & _); [lia|].
  destruct (index_ok (bins b) 0) as (y & -> & _); [lia|].
  apply walk_total; try done; unfold walk_ok, remaining; simpl; unfold zlen in *; lia.
Qed.

(** ** Witnesses *)

Module Witnesses.

Definition weighted : EmpiricalHistogram := Eval vm_compute in
  match histogram_new [64; 128; 512] (map f64_of_u64 [1; 2; 1]) with
  | Ok h => h
  | _ => mkHistogram [] [] []
  end.
Definition sampled : EmpiricalHistogram := Eval vm_compute in
  match from_samples [512; 64; 64; 1500] with Ok h => h | _ => mkHistogram [] [] [] end.

Lemma histogram_samples_are_bins_witness :
  from_samples [512; 64; 64; 1500] = Ok sampled /\ bins sampled = [64; 512; 1500] /\
  histogram_wf sampled /\ forall target, exists b, bin_of_target sampled target = Ok b /\ b ∈ bins sampled.
Proof.
  split; [vm_compute; reflexivity|]. split; [reflexivity|].
  apply (histogram_samples_are_bins [] [] [512; 64; 64; 1500]). right. vm_compute; reflexivity.
Defined.

Lemma wasserstein_distance_total_witness :
  exists d, wasserstein_distance weighted sampled = Some (Ok d).
Proof.
  assert (histogram_wf weighted /\ histogram_wf sampled) as [Hw Hs].
  { split; (split; [vm_compute; split; discriminate || reflexivity
      |repeat constructor|vm_compute; reflexivity|vm_compute; reflexivity]). }
  apply (wasserstein_distance_total weighted sampled);
    [exact Hw|exact Hs|by_compute|by_compute].
Defined.
End Witnesses.
