(* ===== verification/Shroud2.v ===== *)
(** Shroud 2.0 morphology (shph-transport/src/shroud2/mod.rs): profiles and
    their size classes, the envelope codec, the engine that selects sizes, the
    adaptive engine that follows the payload sizes with hysteresis, and the
    batching of small messages. *)
From S2P Require Import Prelude Error Text Primitives Binary64 Histogram.

Definition MORPHOLOGY_MAGIC : bytes := str_bytes "S2".
Definition MORPHOLOGY_VERSION : Z := 1.
Definition MORPHOLOGY_HEADER_BYTES : Z := 7.
Definition MAX_MORPHOLOGY_DATAGRAM_BYTES : Z := 65535.
Definition BATCH_MESSAGE_LENGTH_BYTES : Z := 2.
Definition MAX_BATCH_MESSAGES : Z := 32.
(** Durations and instants are nanoseconds. *)
Definition from_secs (s : Z) : Z := s * 1000000000.
Definition from_millis (m : Z) : Z := m * 1000000.
Definition from_micros (u : Z) : Z := u * 1000.
Definition MAX_BATCH_WAIT : Z := from_secs 1.
Definition MAX_BATCH_PAYLOAD_BYTES : Z := MAX_MORPHOLOGY_DATAGRAM_BYTES - MORPHOLOGY_HEADER_BYTES.
Definition MAX_PROFILE_SIZE_CLASSES : Z := 8.

(** ** Profiles *)

Inductive MorphologyProfile :=
  | LowLatency | WebBrowsingLab | VideoStreamingLab | VideoStreamingLargePayloadLab
  | VideoStreamingBalancedPayloadLab | BulkLab | TunedLowLatency | TunedWebBrowsingLab
  | TunedVideoStreamingLab | TunedBulkLab.

#[export] Instance MorphologyProfile_eq_dec : EqDecision MorphologyProfile.
Proof. solve_decision. Defined.

Definition size_classes (p : MorphologyProfile) : list Z :=
  match p with
  | LowLatency => [128; 256; 512; 1024]
  | WebBrowsingLab => [384; 768; 1024; 1280; 1536]
  | VideoStreamingLab => [1024; 1280; 1536; 2048; 4096]
  | VideoStreamingLargePayloadLab => [1408; 1440; 1465]
  | VideoStreamingBalancedPayloadLab => [1415; 1430; 1445; 1460; 1472]
  | BulkLab => [1280; 2048; 4096; 8192; 16384]
  | TunedLowLatency => [64; 96; 128; 192; 256; 512; 768]
  | TunedWebBrowsingLab => [256; 384; 512; 768; 1024; 1280; 1360]
  | TunedVideoStreamingLab => [1024; 1152; 1280; 1360; 1408; 1440; 1472]
  | TunedBulkLab => [1024; 1152; 1280; 1360; 1408; 1440; 1472]
  end.

Definition size_class_weights (p : MorphologyProfile) : option (list Z) :=
  match p with
  | LowLatency => Some [65; 25; 8; 2]
  | WebBrowsingLab => Some [45; 30; 15; 8; 2]
  | VideoStreamingLab => Some [45; 30; 15; 8; 2]
  | VideoStreamingLargePayloadLab => Some [60; 30; 10]
  | VideoStreamingBalancedPayloadLab => Some [35; 30; 20; 12; 3]
  | BulkLab => None
  | TunedLowLatency => Some [65; 20; 6; 4; 3; 1; 1]
  | TunedWebBrowsingLab => Some [35; 25; 18; 12; 7; 2; 1]
  | TunedVideoStreamingLab => Some [26; 24; 20; 14; 8; 5; 3]
  | TunedBulkLab => Some [5; 10; 15; 20; 20; 15; 15]
  end.

Definition jitter_bounds (p : MorphologyProfile) : Z * Z :=
  match p with
  | LowLatency => (0, from_micros 500)
  | WebBrowsingLab => (from_micros 100, from_millis 8)
  | VideoStreamingLab => (from_micros 50, from_millis 3)
  | VideoStreamingLargePayloadLab => (from_micros 50, from_millis 3)
  | VideoStreamingBalancedPayloadLab => (from_micros 50, from_millis 3)
  | BulkLab => (0, from_micros 750)
  | TunedLowLatency => (0, from_micros 250)
  | TunedWebBrowsingLab => (from_micros 50, from_millis 5)
  | TunedVideoStreamingLab => (from_micros 50, from_millis 3)
  | TunedBulkLab => (0, from_micros 500)
  end.

(** ** Metrics *)

Record MorphologyMetrics := mkMorphologyMetrics {
  frames : Z; payload_bytes : Z; wire_bytes : Z; padding_bytes : Z;
  min_wire_bytes : option Z; max_wire_bytes : option Z
}.

Definition MorphologyMetrics_default : MorphologyMetrics := mkMorphologyMetrics 0 0 0 0 None None.

Definition average_wire_bytes (m : MorphologyMetrics) : option f64 :=
  if 0 <? frames m then Some (f64_div (f64_of_u64 (wire_bytes m)) (f64_of_u64 (frames m))) else None.

Definition overhead_pct (m : MorphologyMetrics) : option f64 :=
  if 0 <? payload_bytes m
  then Some (f64_mul (f64_div (f64_of_u64 (padding_bytes m)) (f64_of_u64 (payload_bytes m)))
                     (f64_of_u64 100))
  else None.

Definition record_frame (payload wire : Z) (m : MorphologyMetrics) : MorphologyMetrics :=
  {| frames := saturating_add u64_max (frames m) 1;
     payload_bytes := saturating_add u64_max (payload_bytes m) payload;
     wire_bytes := saturating_add u64_max (wire_bytes m) wire;
     padding_bytes := saturating_add u64_max (padding_bytes m) (saturating_sub wire payload);
     min_wire_bytes := Some (match min_wire_bytes m with Some c => Z.min c wire | None => wire end);
     max_wire_bytes := Some (match max_wire_bytes m with Some c => Z.max c wire | None => wire end) |}.

(** ** The envelope *)

Definition validate_path_mtu (path_mtu : Z) : result unit :=
  if negb (in_range MORPHOLOGY_HEADER_BYTES MAX_MORPHOLOGY_DATAGRAM_BYTES path_mtu)
  then Err (Config ("morphology path MTU must be between " +:+ show MORPHOLOGY_HEADER_BYTES
                    +:+ " and " +:+ show MAX_MORPHOLOGY_DATAGRAM_BYTES +:+ " bytes"))
  else Ok ().

Definition validate_payload_for_path (payload_len path_mtu : Z) : result Z :=
  do? validate_path_mtu path_mtu;
  if payload_len =? 0 then Err (Protocol "morphology payload must not be empty")
  else if u16_max <? payload_len then Err (Protocol "morphology payload exceeds the length field")
  else
    let? minimum := ok_or (checked_add usize_max payload_len MORPHOLOGY_HEADER_BYTES)
                      (Protocol "morphology payload length overflow") in
    if path_mtu <? minimum
    then Err (Protocol "morphology payload exceeds negotiated datagram limit")
    else Ok minimum.

Section Envelope.
Context {R : Type} `{RngOps R}.

(** The writes into the resized buffer. *)
Definition write_envelope (payload : bytes) (minimum target_size_u16 : Z) (buffer : bytes)
  : result bytes :=
  let? buffer := copy_into buffer 0 2 MORPHOLOGY_MAGIC in
  let? buffer := store buffer 2 MORPHOLOGY_VERSION in
  let? buffer := copy_into buffer 3 5 (be_bytes 2 (cast 16 (zlen payload))) in
  let? buffer := copy_into buffer 5 7 (be_bytes 2 target_size_u16) in
  copy_into buffer 7 minimum payload.

(** [encode_datagram_with_rng_into]: the new contents of [datagram]; an error
    leaves it empty. *)
Definition encode_datagram_with_rng_into (payload : bytes) (target_size path_mtu : Z) (r : R)
  : result bytes * R :=
  let! minimum, r := (validate_payload_for_path (zlen payload) path_mtu, r) in
  if (path_mtu <? target_size) || (MAX_MORPHOLOGY_DATAGRAM_BYTES <? target_size)
  then (Err (Protocol "morphology target exceeds negotiated datagram limit"), r)
  else if target_size <? minimum
  then (Err (Protocol "morphology target is smaller than the payload"), r)
  else
    let! target_size_u16, r := (ok_or (try_from u16_max target_size)
                                  (Protocol "morphology target length overflow"), r) in
    let! buffer, r := (write_envelope payload minimum target_size_u16 (resize [] target_size 0), r) in
    let! tail, r := (slice_from buffer minimum, r) in
    let '(filled, r) := rng_fill (zlen tail) r in
    match filled with
    | None => (Err (Crypto "morphology padding randomness failed"), r)
    | Some padding => (copy_into buffer minimum target_size padding, r)
    end.
End Envelope.

Definition decode_datagram_in_place (datagram : bytes) (path_mtu : Z) : result bytes :=
  do? validate_path_mtu path_mtu;
  if (zlen datagram <? MORPHOLOGY_HEADER_BYTES) || (path_mtu <? zlen datagram)
  then Err (Protocol "morphology datagram length is outside the negotiated limit")
  else
    let? magic := slice datagram 0 2 in
    let? version := index datagram 2 in
    if negb (bytes_eqb magic MORPHOLOGY_MAGIC) || negb (version =? MORPHOLOGY_VERSION)
    then Err (Protocol "morphology envelope version mismatch")
    else
      let? b3 := index datagram 3 in let? b4 := index datagram 4 in
      let payload_len := be_val [b3; b4] in
      let? b5 := index datagram 5 in let? b6 := index datagram 6 in
      let declared_size := be_val [b5; b6] in
      if negb (declared_size =? zlen datagram)
      then Err (Protocol "morphology datagram size does not match its envelope")
      else
        let? payload_end := ok_or (checked_add usize_max MORPHOLOGY_HEADER_BYTES payload_len)
                              (Protocol "morphology payload length overflow") in
        if (payload_len =? 0) || (zlen datagram <? payload_end)
        then Err (Protocol "morphology payload length is invalid")
        else
          let? datagram := copy_within_front datagram MORPHOLOGY_HEADER_BYTES payload_end in
          wipe_truncate datagram payload_len.

Definition decode_datagram (datagram : bytes) (path_mtu : Z) : result bytes :=
  decode_datagram_in_place datagram path_mtu.

(** ** The engine *)

Section Engine.
Context {R : Type} `{RngOps R}.

Record MorphologyEngine := mkMorphologyEngine {
  profile : MorphologyProfile;
  rng : R;
  size_histogram : option EmpiricalHistogram;
  metrics : MorphologyMetrics;
  metrics_enabled : bool
}.

(** [new] and [from_seed]: [seeded] is the seeded generator. *)
Definition engine_new (p : MorphologyProfile) (seeded : R) : MorphologyEngine :=
  mkMorphologyEngine p seeded None MorphologyMetrics_default false.

Definition from_histogram (p : MorphologyProfile) (h : EmpiricalHistogram) (seeded : R)
  : MorphologyEngine :=
  mkMorphologyEngine p seeded (Some h) MorphologyMetrics_default false.

Definition clone (e : MorphologyEngine) (fresh : R) : MorphologyEngine :=
  mkMorphologyEngine (profile e) fresh (size_histogram e) (metrics e) (metrics_enabled e).

Definition set_metrics_enabled (enabled : bool) (e : MorphologyEngine) : MorphologyEngine :=
  mkMorphologyEngine (profile e) (rng e) (size_histogram e) (metrics e) enabled.
Definition enable_metrics (e : MorphologyEngine) : MorphologyEngine := set_metrics_enabled true e.
Definition reset_metrics (e : MorphologyEngine) : MorphologyEngine :=
  mkMorphologyEngine (profile e) (rng e) (size_histogram e) MorphologyMetrics_default (metrics_enabled e).
Definition set_profile (p : MorphologyProfile) (e : MorphologyEngine) : MorphologyEngine :=
  mkMorphologyEngine p (rng e) None (metrics e) (metrics_enabled e).
Definition set_rng (e : MorphologyEngine) (r : R) : MorphologyEngine :=
  mkMorphologyEngine (profile e) r (size_histogram e) (metrics e) (metrics_enabled e).
Definition set_metrics (e : MorphologyEngine) (m : MorphologyMetrics) : MorphologyEngine :=
  mkMorphologyEngine (profile e) (rng e) (size_histogram e) m (metrics_enabled e).

(** The loop that fills the [eligible] array: a class capped at the path MTU is
    merged with the previous entry when they are equal. *)
Fixpoint eligible_classes (classes : list (Z * Z)) (minimum path_mtu : Z) (eligible : list (Z * Z))
  : list (Z * Z) :=
  match classes with
  | [] => eligible
  | (class, weight) :: rest =>
      if weight =? 0 then eligible_classes rest minimum path_mtu eligible
      else
        let effective_class := Z.min class path_mtu in
        if effective_class <? minimum then eligible_classes rest minimum path_mtu eligible
        else
          match last eligible with
          | Some (c, w) =>
              if c =? effective_class
              then eligible_classes rest minimum path_mtu
                     (take (length eligible - 1) eligible ++ [(c, saturating_add u32_max w weight)])
              else if zlen eligible =? MAX_PROFILE_SIZE_CLASSES then eligible
              else eligible_classes rest minimum path_mtu (eligible ++ [(effective_class, weight)])
          | None =>
              if zlen eligible =? MAX_PROFILE_SIZE_CLASSES then eligible
              else eligible_classes rest minimum path_mtu (eligible ++ [(effective_class, weight)])
          end
  end.

Definition total_weight (eligible : list (Z * Z)) : Z :=
  fold_left (fun total '(_, weight) => saturating_add u64_max total weight) eligible 0.

(** The selection loop; past the end it falls back to the last entry. *)
Fixpoint select_class (eligible : list (Z * Z)) (selection : Z) : option Z :=
  match eligible with
  | [] => None
  | (class, weight) :: rest =>
      if selection <? weight then Some class else select_class rest (selection - weight)
  end.

Definition sample_weighted_size_class (classes weights : list Z) (minimum path_mtu : Z)
    (e : MorphologyEngine) : result Z * MorphologyEngine :=
  let eligible := eligible_classes (zip classes weights) minimum path_mtu [] in
  let total_weight := total_weight eligible in
  if total_weight =? 0 then (Ok minimum, e)
  else
    let '(selection, r) := gen_range 0 total_weight (rng e) in
    let e := set_rng e r in
    (let? selection := selection in
     match select_class eligible selection with
     | Some class => Ok class
     | None => match last eligible with Some (class, _) => Ok class | None => Ok 0 end
     end, e).

Fixpoint eligible_uniform (classes : list Z) (minimum path_mtu : Z) (eligible : list Z) : list Z :=
  match classes with
  | [] => eligible
  | class :: rest =>
      if in_range minimum path_mtu class then
        if zlen eligible =? MAX_PROFILE_SIZE_CLASSES then eligible
        else eligible_uniform rest minimum path_mtu (eligible ++ [class])
      else eligible_uniform rest minimum path_mtu eligible
  end.

Definition sample_uniform_size_class (classes : list Z) (minimum path_mtu : Z)
    (e : MorphologyEngine) : result Z * MorphologyEngine :=
  let eligible := eligible_uniform classes minimum path_mtu [] in
  if zlen eligible =? 0 then (Ok minimum, e)
  else
    let '(i, r) := gen_range 0 (zlen eligible) (rng e) in
    (let? i := i in index eligible i, set_rng e r).

Definition target_size (payload_len path_mtu : Z) (e : MorphologyEngine)
  : result Z * MorphologyEngine :=
  let! minimum, e := (validate_payload_for_path payload_len path_mtu, e) in
  let! sampled, e :=
    match size_histogram e with
    | Some histogram =>
        let '(bin, r) := sample_bin histogram (rng e) in
        (let? bin := bin in Ok (default usize_max (try_from usize_max bin)), set_rng e r)
    | None =>
        let classes := size_classes (profile e) in
        match size_class_weights (profile e) with
        | Some weights => sample_weighted_size_class classes weights minimum path_mtu e
        | None => sample_uniform_size_class classes minimum path_mtu e
        end
    end in
  (Ok (Z.min (Z.max sampled minimum) path_mtu), e).

(** [encode_datagram] and [encode_datagram_into]. *)
Definition encode_datagram (payload : bytes) (path_mtu : Z) (e : MorphologyEngine)
  : result bytes * MorphologyEngine :=
  let! target, e := target_size (zlen payload) path_mtu e in
  let '(res, r) := encode_datagram_with_rng_into payload target path_mtu (rng e) in
  let! datagram, e := (res, set_rng e r) in
  (Ok datagram,
   if metrics_enabled e then set_metrics e (record_frame (zlen payload) target (metrics e)) else e).

Definition next_delay (e : MorphologyEngine) : result Z * MorphologyEngine :=
  let '(minimum, maximum) := jitter_bounds (profile e) in
  if maximum <=? minimum then (Ok minimum, e)
  else
    let '(nanos, r) := gen_range minimum (maximum + 1) (rng e) in
    (nanos, set_rng e r).
End Engine.
Arguments MorphologyEngine : clear implicits.

(** ** The adaptive engine *)

Record AdaptiveMorphologyConfig := mkAdaptiveConfig {
  interactive_enter : Z; interactive_exit : Z; video_enter : Z; video_exit : Z;
  bulk_enter : Z; bulk_exit : Z
}.

Definition adaptive_validate (c : AdaptiveMorphologyConfig) : result unit :=
  if (interactive_enter c <=? interactive_exit c) || (video_exit c <=? interactive_enter c)
     || (video_enter c <=? video_exit c) || (bulk_exit c <=? video_enter c)
     || (bulk_enter c <=? bulk_exit c)
  then Err (Config "adaptive morphology thresholds must be ordered with hysteresis")
  else Ok ().

Definition AdaptiveMorphologyConfig_new (ie ix ve vx be bx : Z) : result AdaptiveMorphologyConfig :=
  let config := mkAdaptiveConfig ie ix ve vx be bx in
  do? adaptive_validate config; Ok config.

Definition AdaptiveMorphologyConfig_default : AdaptiveMorphologyConfig :=
  mkAdaptiveConfig 192 128 900 640 1350 1100.

Section Adaptive.
Context {R : Type} `{RngOps R}.

Record AdaptiveMorphologyEngine := mkAdaptiveEngine {
  engine : MorphologyEngine R;
  config : AdaptiveMorphologyConfig;
  ewma_payload : Z;
  switches : Z
}.

(** [new] and [from_seed]. *)
Definition adaptive_new (c : AdaptiveMorphologyConfig) (seeded : R)
  : result AdaptiveMorphologyEngine :=
  do? adaptive_validate c;
  Ok (mkAdaptiveEngine (engine_new TunedLowLatency seeded) c 0 0).

Definition EWMA_DIVISOR : Z := 4.

(** The new average. *)
Definition ewma_update (payload_len ewma : Z) : Z :=
  let delta := abs_diff payload_len ewma in
  let adjustment := div_ceil delta EWMA_DIVISOR in
  if ewma <=? payload_len then saturating_add usize_max ewma adjustment
  else saturating_sub ewma adjustment.

(** The profile to switch to, if any. *)
Definition next_profile (p : MorphologyProfile) (ewma : Z) (c : AdaptiveMorphologyConfig)
  : option MorphologyProfile :=
  match p with
  | TunedLowLatency => if interactive_enter c <=? ewma then Some TunedWebBrowsingLab else None
  | TunedWebBrowsingLab =>
      if ewma <=? interactive_exit c then Some TunedLowLatency
      else if video_enter c <=? ewma then Some TunedVideoStreamingLab else None
  | TunedVideoStreamingLab =>
      if ewma <=? video_exit c then Some TunedWebBrowsingLab
      else if bulk_enter c <=? ewma then Some TunedBulkLab else None
  | TunedBulkLab => if ewma <=? bulk_exit c then Some TunedVideoStreamingLab else None
  | _ => None
  end.

Definition observe_payload (payload_len : Z) (a : AdaptiveMorphologyEngine)
  : AdaptiveMorphologyEngine :=
  let ewma := ewma_update payload_len (ewma_payload a) in
  match next_profile (profile (engine a)) ewma (config a) with
  | Some p => mkAdaptiveEngine (set_profile p (engine a)) (config a) ewma
                (saturating_add u64_max (switches a) 1)
  | None => mkAdaptiveEngine (engine a) (config a) ewma (switches a)
  end.

Definition with_engine (e : MorphologyEngine R) (a : AdaptiveMorphologyEngine)
  : AdaptiveMorphologyEngine :=
  mkAdaptiveEngine e (config a) (ewma_payload a) (switches a).

(** [encode_datagram] and [encode_datagram_into]. *)
Definition adaptive_encode_datagram (payload : bytes) (path_mtu : Z) (a : AdaptiveMorphologyEngine)
  : result bytes * AdaptiveMorphologyEngine :=
  let! _minimum, a := (validate_payload_for_path (zlen payload) path_mtu, a) in
  let a := observe_payload (zlen payload) a in
  let '(res, e) := encode_datagram payload path_mtu (engine a) in
  (res, with_engine e a).
End Adaptive.
Arguments AdaptiveMorphologyEngine : clear implicits.

(** ** Lemmas: the envelope *)

(** The bytes on the wire. *)
Definition morphology_envelope (payload padding : bytes) : bytes :=
  MORPHOLOGY_MAGIC ++ [MORPHOLOGY_VERSION] ++ be_bytes 2 (zlen payload)
  ++ be_bytes 2 (7 + zlen payload + zlen padding) ++ payload ++ padding.

Lemma zlen_envelope payload padding :
  zlen (morphology_envelope payload padding) = 7 + zlen payload + zlen padding.
Proof.
  unfold morphology_envelope. rewrite !zlen_app, !zlen_be_bytes.
  change (zlen MORPHOLOGY_MAGIC) with 2. change (zlen [MORPHOLOGY_VERSION]) with 1. lia.
Qed.

Definition path_ok (path_mtu : Z) : Prop :=
  MORPHOLOGY_HEADER_BYTES <= path_mtu <= MAX_MORPHOLOGY_DATAGRAM_BYTES.

Lemma morph_path_ok m : validate_path_mtu m = Ok () <-> path_ok m.
Proof.
  unfold validate_path_mtu, path_ok, in_range.
  destruct (Z.leb_spec MORPHOLOGY_HEADER_BYTES m), (Z.leb_spec m MAX_MORPHOLOGY_DATAGRAM_BYTES);
    cbn [negb andb]; split; intros; try done; lia.
Qed.

Lemma morph_path_cases m :
  (path_ok m /\ validate_path_mtu m = Ok ()) \/ (~ path_ok m /\ exists e, validate_path_mtu m = Err e).
Proof.
  destruct (validate_path_mtu m) as [[]|e|] eqn:E.
  - left. split; [by apply morph_path_ok|done].
  - right. split; [rewrite <- morph_path_ok; congruence|eauto].
  - unfold validate_path_mtu in E. by case_if.
Qed.

(** The payload lengths the path can carry. *)
Definition payload_fits (n path_mtu : Z) : Prop :=
  path_ok path_mtu /\ 0 < n /\ 7 + n <= path_mtu.

Lemma validate_payload_cases n m :
  0 <= n ->
  (payload_fits n m /\ validate_payload_for_path n m = Ok (7 + n)) \/
  (~ payload_fits n m /\ exists e, validate_payload_for_path n m = Err e).
Proof.
  intros Hn. unfold validate_payload_for_path, payload_fits.
  destruct (morph_path_cases m) as [[Hm ->]|[Hm [e ->]]]; cbn [rbind]; [|right; naive_solver].
  unfold path_ok, MORPHOLOGY_HEADER_BYTES, MAX_MORPHOLOGY_DATAGRAM_BYTES, u16_max in *.
  destruct (Z.eqb_spec n 0); [right; split; [lia|eauto]|].
  destruct (Z.ltb_spec 65535 n); [right; split; [lia|eauto]|].
  unfold checked_add. rewrite (proj2 (Z.leb_le _ _)) by (unfold usize_max, u64_max; lia).
  cbn [ok_or rbind]. destruct (Z.ltb_spec m (n + 7)); [right; split; [lia|eauto]|].
  left. split; [lia|]. f_equal. lia.
Qed.

Lemma write_envelope_ok payload n :
  7 + zlen payload <= n -> zlen payload <= u16_max ->
  write_envelope payload (7 + zlen payload) n (zreplicate n 0)
  = Ok ((MORPHOLOGY_MAGIC ++ [MORPHOLOGY_VERSION] ++ be_bytes 2 (zlen payload) ++ be_bytes 2 n ++ payload)
        ++ zreplicate (n - (7 + zlen payload)) 0).
Proof.
  intros Hn Hp. pose proof (zlen_nonneg payload). unfold write_envelope, cast.
  change (2 ^ 16) with (u16_max + 1). rewrite Z.mod_small by lia.
  rewrite <- (app_nil_l (zreplicate n 0)).
  rewrite copy_into_zeros by (done || lia). cbn [rbind]. rewrite app_nil_l.
  rewrite store_zeros by (done || lia). cbn [rbind].
  rewrite copy_into_zeros by (change (zlen MORPHOLOGY_MAGIC) with 2 in *; rewrite ?zlen_app, ?zlen_be_bytes; (done || lia)).
  cbn [rbind].
  rewrite copy_into_zeros by (rewrite ?zlen_app, ?zlen_be_bytes; (done || lia)). cbn [rbind].
  rewrite copy_into_zeros by (rewrite ?zlen_app, ?zlen_be_bytes; change (zlen MORPHOLOGY_MAGIC) with 2;
    change (zlen [MORPHOLOGY_VERSION]) with 1; lia).
  f_equal. rewrite <- !app_assoc. do 6 f_equal. lia.
Qed.

Section EnvelopeLemmas.
Context {R : Type} `{RngLaws R}.

(** Encoding a target the size checks allow can only fail for lack of
    randomness. *)
Lemma encode_envelope_cases payload target m (r : R) :
  payload_fits (zlen payload) m -> 7 + zlen payload <= target <= m ->
  (exists r', encode_datagram_with_rng_into payload target m r
     = (Err (Crypto "morphology padding randomness failed"), r')) \/
  exists padding r', encode_datagram_with_rng_into payload target m r
     = (Ok (morphology_envelope payload padding), r') /\
     zlen padding = target - (7 + zlen payload) /\ bytes_ok padding.
Proof.
  intros Hf Ht. unfold encode_datagram_with_rng_into.
  destruct (validate_payload_cases (zlen payload) m (zlen_nonneg payload)) as [[_ ->]|[? _]]; [|done].
  destruct Hf as (Hm & Hp & Hf). unfold path_ok, MAX_MORPHOLOGY_DATAGRAM_BYTES in *. cbn [sbind].
  rewrite !(proj2 (Z.ltb_ge _ _)) by lia. cbn [orb]; cbv iota.
  unfold try_from. rewrite (proj2 (Z.leb_le _ _)) by (unfold u16_max; lia). cbn [ok_or sbind].
  rewrite resize_nil, write_envelope_ok by (unfold u16_max; lia). cbn [sbind].
  set (pre := MORPHOLOGY_MAGIC ++ _). set (n := target - (7 + zlen payload)).
  assert (zlen pre = 7 + zlen payload) as Hpre.
  { unfold pre. rewrite !zlen_app, !zlen_be_bytes. change (zlen MORPHOLOGY_MAGIC) with 2.
    change (zlen [MORPHOLOGY_VERSION]) with 1. lia. }
  rewrite slice_from_ok by (rewrite zlen_app, zlen_zreplicate; lia). cbn [sbind].
  rewrite zdrop_app by done. rewrite zlen_zreplicate, Z.max_r by lia.
  pose proof (rng_fill_len n r) as Hfill. destruct (rng_fill n r) as [[padding|] r1]; [|eauto].
  destruct (Hfill padding eq_refl) as [Hl Hb]. right. exists padding, r1. rewrite Z.max_r in Hl by lia.
  split; [|done]. replace target with (7 + zlen payload + n) at 1 by lia.
  rewrite copy_into_tail by done. unfold pre, morphology_envelope. do 2 f_equal.
  rewrite Hl. replace (7 + zlen payload + n) with target by lia. by rewrite <- !app_assoc.
Qed.
End EnvelopeLemmas.

(** Decoding in terms of the header fields. *)
Lemma decode_header m0 m1 v p0 p1 t0 t1 rest path_mtu :
  let d := [m0; m1; v; p0; p1; t0; t1] ++ rest in
  path_ok path_mtu -> zlen d <= path_mtu -> 0 <= be_val [p0; p1] <= u16_max ->
  decode_datagram d path_mtu =
    (if negb (bytes_eqb [m0; m1] MORPHOLOGY_MAGIC) || negb (v =? MORPHOLOGY_VERSION)
     then Err (Protocol "morphology envelope version mismatch")
     else if negb (be_val [t0; t1] =? zlen d)
     then Err (Protocol "morphology datagram size does not match its envelope")
     else if (be_val [p0; p1] =? 0) || (zlen d <? 7 + be_val [p0; p1])
     then Err (Protocol "morphology payload length is invalid")
     else Ok (ztake (be_val [p0; p1]) rest)).
Proof.
  intros d Hm Hl Hp. unfold decode_datagram, decode_datagram_in_place.
  rewrite (proj2 (morph_path_ok _)) by done. cbn [rbind].
  assert (zlen d = 7 + zlen rest) as Hd by (unfold d; rewrite zlen_app; done).
  pose proof (zlen_nonneg rest).
  rewrite !(proj2 (Z.ltb_ge _ _)) by (unfold MORPHOLOGY_HEADER_BYTES; lia). cbn [orb]; cbv iota.
  replace (slice d 0 2) with (Ok [m0; m1]).
  2:{ symmetry. apply (slice_app 0 2 [] [m0; m1]); done. }
  assert (index d 2 = Ok v /\ index d 3 = Ok p0 /\ index d 4 = Ok p1 /\ index d 5 = Ok t0 /\
          index d 6 = Ok t1) as (-> & -> & -> & -> & ->) by done.
  cbn [rbind]. case_if; [done|]. case_if; [done|]. unfold checked_add. rewrite (proj2 (Z.leb_le _ _))
    by (unfold u16_max, MORPHOLOGY_HEADER_BYTES, usize_max, u64_max in *; lia).
  cbn [ok_or rbind]. unfold MORPHOLOGY_HEADER_BYTES. case_if; [done|].
  apply orb_false_iff in Heqb1 as [_ Hle%Z.ltb_ge].
  pose proof (copy_within_front_wipe 7 (7 + be_val [p0; p1]) d) as E.
  replace (7 + be_val [p0; p1] - 7) with (be_val [p0; p1]) in E by lia.
  rewrite E by lia. done.
Qed.

Lemma morph_decode_cases d path_mtu :
  bytes_ok d ->
  (exists e, decode_datagram d path_mtu = Err e) \/
  exists payload padding, decode_datagram d path_mtu = Ok payload /\
    path_ok path_mtu /\ zlen d <= path_mtu /\ payload <> [] /\ d = morphology_envelope payload padding.
Proof.
  intros Hb. destruct (morph_path_cases path_mtu) as [[Hm Em]|[Hm [e Em]]];
    [|left; exists e; unfold decode_datagram, decode_datagram_in_place; by rewrite Em].
  destruct (decide (7 <= zlen d <= path_mtu)) as [[H7 Hl]|Hn]; last first.
  { left. unfold decode_datagram, decode_datagram_in_place. rewrite Em. cbn [rbind].
    case_if; [eauto|]. unfold MORPHOLOGY_HEADER_BYTES in *. bool_prop. lia. }
  destruct (list_7 d H7) as (m0 & m1 & v & p0 & p1 & t0 & t1 & rest & ->).
  cbn [app] in Hb. rewrite !bytes_ok_cons in Hb. destruct Hb as (_ & _ & _ & B0 & B1 & T0 & T1 & _).
  destruct (be_pair p0 p1 B0 B1) as [Hp Ep]. destruct (be_pair t0 t1 T0 T1) as [_ Et].
  rewrite decode_header by done.
  case_if; [left; eauto|]. case_if; [left; eauto|]. case_if; [left; eauto|].
  rewrite zlen_app in *. change (zlen [m0; m1; v; p0; p1; t0; t1]) with 7 in *.
  apply orb_false_iff in Heqb as [HM%negb_false_iff%bytes_eqb_eq HV%negb_false_iff%Z.eqb_eq].
  apply negb_false_iff, Z.eqb_eq in Heqb0. apply orb_false_iff in Heqb1 as [H0%Z.eqb_neq Hle%Z.ltb_ge].
  set (n := be_val [p0; p1]) in *. right. exists (ztake n rest), (zdrop n rest).
  split; [done|]. split; [done|]. split; [lia|].
  assert (zlen (ztake n rest) = n /\ zlen (zdrop n rest) = zlen rest - n) as [H1 H2] by zl.
  split; [intros E; rewrite E, zlen_nil in H1; lia|].
  unfold morphology_envelope. rewrite H1, H2, Ep.
  replace (7 + n + (zlen rest - n)) with (be_val [t0; t1]) by lia. rewrite Et, ztake_zdrop.
  rewrite <- HM, <- HV. done.
Qed.

Lemma decode_envelope payload padding path_mtu :
  path_ok path_mtu -> zlen (morphology_envelope payload padding) <= path_mtu -> payload <> [] ->
  decode_datagram (morphology_envelope payload padding) path_mtu = Ok payload.
Proof.
  intros Hm Hl Hp. rewrite zlen_envelope in Hl.
  pose proof (zlen_nonneg payload). pose proof (zlen_nonneg padding).
  assert (zlen payload <> 0) by (intros E; by apply zlen_0_inv in E).
  pose proof Hm as [_ Hmax]. unfold MAX_MORPHOLOGY_DATAGRAM_BYTES in Hmax.
  destruct (be_bytes_2 (zlen payload)) as (p0 & p1 & Ep & Vp); [lia|].
  destruct (be_bytes_2 (7 + zlen payload + zlen padding)) as (t0 & t1 & Et & Vt); [lia|].
  pose proof (zlen_envelope payload padding) as Hz.
  assert (morphology_envelope payload padding = [83; 50; 1; p0; p1; t0; t1] ++ payload ++ padding) as E.
  { unfold morphology_envelope. by rewrite Ep, Et. }
  rewrite E in *. rewrite decode_header by (done || rewrite ?Hz, ?Vp; unfold u16_max; lia).
  rewrite Hz, Vp, Vt.
  change (bytes_eqb [83; 50] MORPHOLOGY_MAGIC) with true. change (1 =? MORPHOLOGY_VERSION) with true.
  cbn [negb orb]; cbv iota. rewrite Z.eqb_refl. cbn [negb]; cbv iota.
  rewrite (proj2 (Z.eqb_neq _ _)) by done. rewrite (proj2 (Z.ltb_ge _ _)) by lia.
  cbn [orb]; cbv iota. by rewrite ztake_app.
Qed.

(** ** Lemmas: size selection *)

(** An outer size the profile produces for a minimum: one of its classes, capped
    at the path MTU, that holds the payload. *)
Definition profile_size (p : MorphologyProfile) (minimum path_mtu t : Z) : Prop :=
  exists class, class ∈ size_classes p /\ t = Z.min class path_mtu /\ minimum <= t.

Lemma eligible_classes_in classes minimum path_mtu el :
  Forall (fun cw => 0 <= cw.2) classes ->
  Forall (fun cw => (exists c, c ∈ map fst classes /\ cw.1 = Z.min c path_mtu /\ minimum <= cw.1)
                    \/ cw.1 ∈ map fst el) (eligible_classes classes minimum path_mtu el) /\
  (Forall (fun cw => 0 <= cw.2) el ->
   Forall (fun cw => 0 <= cw.2) (eligible_classes classes minimum path_mtu el)).
Proof.
  intros Hw. revert el. induction Hw as [|[c w] classes Hw0 Hw IH]; intros el; cbn [eligible_classes].
  { split; [|done]. apply Forall_forall. intros x Hx. right. apply list_elem_of_fmap. eauto. }
  assert (forall el', (forall x, x ∈ map fst el' ->
      (x = Z.min c path_mtu /\ minimum <= x) \/ x ∈ map fst el) ->
    (Forall (fun cw => 0 <= cw.2) el -> Forall (fun cw => 0 <= cw.2) el') ->
    Forall (fun cw => (exists c0, c0 ∈ map fst ((c, w) :: classes) /\ cw.1 = Z.min c0 path_mtu /\ minimum <= cw.1)
                    \/ cw.1 ∈ map fst el) (eligible_classes classes minimum path_mtu el') /\
    (Forall (fun cw => 0 <= cw.2) el ->
     Forall (fun cw => 0 <= cw.2) (eligible_classes classes minimum path_mtu el'))) as Hrec.
  { intros el' Hel Hwel. destruct (IH el') as [F1 F2]. split; [|auto].
    eapply Forall_impl; [exact F1|]. intros x [(c0 & Hc0 & Hx)|Hx]; simpl.
    - left. exists c0. split; [by right|done].
    - destruct (Hel _ Hx) as [[E ?]|?]; [|by right]. left. exists c. split; [left|done]. }
  case_if; [by apply Hrec; [right|]|]. case_if; [by apply Hrec; [right|]|]. bool_prop. simpl in Hw0.
  assert (forall y, y ∈ map fst (el ++ [(Z.min c path_mtu, w)]) ->
    (y = Z.min c path_mtu /\ minimum <= y) \/ y ∈ map fst el) as Hsnoc.
  { intros y. rewrite map_app, elem_of_app. simpl. rewrite list_elem_of_singleton.
    intros [?| ->]; [by right|left; split; [done|lia]]. }
  assert (forall x, Forall (fun cw => 0 <= cw.2) el -> 0 <= x ->
    Forall (fun cw : Z * Z => 0 <= cw.2) (el ++ [(Z.min c path_mtu, x)])) as Hsnocw.
  { intros x He Hx. apply Forall_app. split; [done|]. by apply Forall_singleton. }
  assert (Forall (fun cw : Z * Z =>
    (exists c0, c0 ∈ map fst ((c, w) :: classes) /\ cw.1 = Z.min c0 path_mtu /\ minimum <= cw.1)
    \/ cw.1 ∈ map fst el) el) as Hself.
  { apply Forall_forall. intros x Hx. right. apply list_elem_of_fmap. eauto. }
  destruct (last el) as [[c' w']|] eqn:El.
  - apply last_Some in El as [pre ->].
    case_if.
    + bool_prop. subst c'. rewrite length_app. simpl length.
      replace (length pre + 1 - 1)%nat with (length pre) by lia. rewrite take_app_length.
      apply Hrec.
      * intros y. rewrite !map_app, !elem_of_app. simpl. auto.
      * intros [Hp Hl]%Forall_app. apply Forall_app. split; [done|]. apply Forall_singleton.
        rewrite Forall_singleton in Hl. 
        cbn [snd] in *. unfold saturating_add, u32_max. lia.
    + case_if; [done|]. apply Hrec; [done|]. intros He. by apply Hsnocw.
  - case_if; [done|]. apply Hrec; [done|]. intros He. by apply Hsnocw.
Qed.

Section Selection.
Context {R : Type} `{RngLaws R}.

Lemma set_rng_id (e : MorphologyEngine R) : set_rng e (rng e) = e.
Proof. by destruct e. Qed.

Lemma total_weight_acc el acc :
  Forall (fun cw : Z * Z => 0 <= cw.2) el -> 0 <= acc <= u64_max ->
  acc <= fold_left (fun total '(_, weight) => saturating_add u64_max total weight) el acc <= u64_max.
Proof.
  intros Hw. revert acc. induction Hw as [|[c w] el Hw0 Hw IH]; intros acc Ha; cbn [fold_left]; [lia|].
  cbn [snd] in Hw0. specialize (IH (saturating_add u64_max acc w)).
  unfold saturating_add in *. lia.
Qed.

Lemma select_class_in el s c : select_class el s = Some c -> c ∈ map fst el.
Proof.
  revert s. induction el as [|[c' w] el IH]; intros s E; [done|]. cbn [select_class] in E.
  case_if; [injection E as ->; left|]. right. eauto.
Qed.

(** The weighted sampler returns one of the profile's sizes, or the minimum when
    none fits, and never panics. *)
Lemma sample_weighted_ok classes weights minimum path_mtu (e : MorphologyEngine R) :
  Forall (fun w => 0 <= w) weights ->
  exists t r, sample_weighted_size_class classes weights minimum path_mtu e = (Ok t, set_rng e r) /\
    (t = minimum \/ exists c, c ∈ classes /\ t = Z.min c path_mtu /\ minimum <= t).
Proof.
  intros Hw. unfold sample_weighted_size_class. set (el := eligible_classes _ _ _ _).
  assert (Forall (fun cw : Z * Z => 0 <= cw.2) (zip classes weights)) as Hz.
  { apply Forall_forall. intros [c w] Hin. apply elem_of_zip_r in Hin. rewrite Forall_forall in Hw. auto. }
  destruct (eligible_classes_in (zip classes weights) minimum path_mtu [] Hz) as [Hin Hnn].
  specialize (Hnn (Forall_nil_2 _)). fold el in Hin, Hnn.
  assert (forall x, x ∈ map fst el -> exists c, c ∈ classes /\ x = Z.min c path_mtu /\ minimum <= x) as Hel.
  { intros x [cw [-> Hx]]%list_elem_of_fmap. rewrite Forall_forall in Hin.
    destruct (Hin _ Hx) as [(c & Hc & HH)|Hc]; [|by apply not_elem_of_nil in Hc].
    exists c. split; [|done]. apply list_elem_of_fmap in Hc as ([c' w] & -> & Hc). by apply elem_of_zip_l in Hc. }
  destruct (Z.eqb_spec (total_weight el) 0) as [Ht|Ht].
  { exists minimum, (rng e). rewrite set_rng_id. auto. }
  pose proof (total_weight_acc el 0 Hnn) as Hb. fold (total_weight el) in Hb.
  destruct (gen_range_ok 0 (total_weight el) (rng e)) as (s & r & -> & Hs);
    [unfold u64_max in Hb; lia|]. cbn [rbind].
  destruct (select_class el s) as [c|] eqn:Es.
  { exists c, r. split; [done|]. right. by apply select_class_in, Hel in Es. }
  destruct (last el) as [[c w]|] eqn:El.
  - exists c, r. split; [done|]. right. apply last_Some in El as [pre El]. apply Hel. rewrite El.
    apply list_elem_of_fmap. exists (c, w). split; [done|]. set_solver.
  - apply last_None in El. rewrite El in Ht. done.
Qed.

Lemma eligible_uniform_in classes minimum path_mtu el x :
  x ∈ eligible_uniform classes minimum path_mtu el ->
  (x ∈ classes /\ minimum <= x <= path_mtu) \/ x ∈ el.
Proof.
  revert el. induction classes as [|c classes IH]; intros el; cbn [eligible_uniform]; [auto|].
  unfold in_range. destruct (Z.leb_spec minimum c), (Z.leb_spec c path_mtu); cbn [andb].
  1: case_if; [auto|].
  all: intros [[? ?]|Hx]%IH; [left; split; [by right|done]|].
  1: apply elem_of_app in Hx as [?| ->%list_elem_of_singleton]; [auto|left; split; [left|lia]].
  all: auto.
Qed.

Lemma morph_uniform_ok classes minimum path_mtu (e : MorphologyEngine R) :
  exists t r, sample_uniform_size_class classes minimum path_mtu e = (Ok t, set_rng e r) /\
    (t = minimum \/ exists c, c ∈ classes /\ t = Z.min c path_mtu /\ minimum <= t).
Proof.
  unfold sample_uniform_size_class. set (el := eligible_uniform _ _ _ _).
  destruct (Z.eqb_spec (zlen el) 0).
  { exists minimum, (rng e). rewrite set_rng_id. auto. }
  pose proof (zlen_nonneg el).
  destruct (gen_range_ok 0 (zlen el) (rng e)) as (i & r & -> & Hi); [lia|]. cbn [rbind].
  destruct (index_ok el i Hi) as (t & -> & Ht). exists t, r. split; [done|]. right.
  apply list_elem_of_lookup_2, eligible_uniform_in in Ht as [[Hc Hb]|Hc];
    [|by apply not_elem_of_nil in Hc]. exists t. split; [done|]. lia.
Qed.

Definition engine_wf (e : MorphologyEngine R) : Prop :=
  match size_histogram e with Some h => histogram_wf h | None => True end.

Lemma profile_weights_ok p w : size_class_weights p = Some w -> Forall (fun x => 0 <= x) w.
Proof. destruct p; intros [= <-]; by_compute. Qed.

(** A target holds the payload and fits the path; without a histogram it is the
    minimum or one of the profile's sizes. *)
Lemma target_size_ok n path_mtu (e : MorphologyEngine R) :
  engine_wf e -> payload_fits n path_mtu ->
  exists t r, target_size n path_mtu e = (Ok t, set_rng e r) /\ 7 + n <= t <= path_mtu /\
    (size_histogram e = None -> t = 7 + n \/ profile_size (profile e) (7 + n) path_mtu t).
Proof.
  intros Hwf Hf. pose proof Hf as (_ & Hn & Hle). unfold target_size.
  destruct (validate_payload_cases n path_mtu) as [[_ ->]|[? _]]; [lia| |done]. cbn [sbind].
  destruct (size_histogram e) as [h|] eqn:Eh.
  { unfold sample_bin. destruct (rng_f64 (rng e)) as [x r].
    unfold engine_wf in Hwf. rewrite Eh in Hwf. destruct (bin_of_target_ok h x Hwf) as (b & -> & _).
    cbn [rbind sbind]. eexists _, r. split; [done|]. split; [lia|done]. }
  assert (exists t r, (match size_class_weights (profile e) with
     | Some weights => sample_weighted_size_class (size_classes (profile e)) weights (7 + n) path_mtu e
     | None => sample_uniform_size_class (size_classes (profile e)) (7 + n) path_mtu e
     end) = (Ok t, set_rng e r) /\
     (t = 7 + n \/ exists c, c ∈ size_classes (profile e) /\ t = Z.min c path_mtu /\ 7 + n <= t))
    as (t & r & -> & Ht).
  { destruct (size_class_weights (profile e)) as [w|] eqn:Ew;
      [apply sample_weighted_ok; by eapply profile_weights_ok|apply morph_uniform_ok]. }
  cbn [sbind]. exists t, r. assert (7 + n <= t <= path_mtu) by (destruct Ht as [->|(c & _ & -> & ?)]; lia).
  rewrite Z.max_l, Z.min_l by lia. split; [done|]. split; [done|]. intros _. exact Ht.
Qed.

(** What a successful encoding leaves in the engine. *)
Definition after_encode (e : MorphologyEngine R) (r : R) (n t : Z) : MorphologyEngine R :=
  let e := set_rng e r in
  if metrics_enabled e then set_metrics e (record_frame n t (metrics e)) else e.

Lemma encode_datagram_cases payload path_mtu (e : MorphologyEngine R) :
  engine_wf e ->
  (~ payload_fits (zlen payload) path_mtu /\
   exists err, validate_payload_for_path (zlen payload) path_mtu = Err err /\
     encode_datagram payload path_mtu e = (Err err, e)) \/
  payload_fits (zlen payload) path_mtu /\
  ((exists r, encode_datagram payload path_mtu e
      = (Err (Crypto "morphology padding randomness failed"), set_rng e r)) \/
   exists padding r t, encode_datagram payload path_mtu e
      = (Ok (morphology_envelope payload padding), after_encode e r (zlen payload) t) /\
      zlen (morphology_envelope payload padding) = t /\ t <= path_mtu /\ bytes_ok padding /\
      (size_histogram e = None ->
       t = 7 + zlen payload \/ profile_size (profile e) (7 + zlen payload) path_mtu t)).
Proof.
  intros Hwf.
  destruct (validate_payload_cases (zlen payload) path_mtu (zlen_nonneg payload)) as [[Hf E]|[Hf [err E]]].
  2:{ left. split; [done|]. exists err. split; [done|]. unfold encode_datagram, target_size. by rewrite E. }
  right. split; [done|]. unfold encode_datagram.
  destruct (target_size_ok (zlen payload) path_mtu e Hwf Hf) as (t & r & -> & Ht & Hs). cbn [sbind].
  destruct (encode_envelope_cases payload t path_mtu (rng (set_rng e r)) Hf Ht)
    as [[r' ->]|(padding & r' & -> & Hl & Hb)]; cbn [sbind]; [left; by eexists|].
  right. exists padding, r', t. split; [done|]. rewrite zlen_envelope. split_and!; try done; lia.
Qed.
End Selection.

(** ** Lemmas: the adaptive engine *)

Section Adapting.
Context {R : Type} `{RngOps R}.

Definition tuned (p : MorphologyProfile) : Prop :=
  p = TunedLowLatency \/ p = TunedWebBrowsingLab \/ p = TunedVideoStreamingLab \/ p = TunedBulkLab.

Lemma adaptive_validate_ok c :
  adaptive_validate c = Ok () <->
  interactive_exit c < interactive_enter c /\ interactive_enter c < video_exit c /\
  video_exit c < video_enter c /\ video_enter c < bulk_exit c /\ bulk_exit c < bulk_enter c.
Proof.
  unfold adaptive_validate. case_if; split; intros HH; try done; [|bool_prop; lia].
  rewrite !orb_true_iff, !Z.leb_le in Heqb. lia.
Qed.

(** The average moves towards the payload length by a quarter of the distance,
    rounded up, and never past it. *)
Lemma ewma_update_spec n e :
  0 <= n <= usize_max -> 0 <= e <= usize_max ->
  0 <= ewma_update n e <= usize_max /\ abs_diff n (ewma_update n e) = abs_diff n e * 3 / 4 /\
  Z.min n e <= ewma_update n e <= Z.max n e.
Proof.
  intros Hn He. unfold ewma_update, abs_diff, div_ceil, saturating_add, saturating_sub, EWMA_DIVISOR.
  assert (forall d, 0 <= d -> (d + 4 - 1) / 4 = d - d * 3 / 4 /\ 0 <= d * 3 / 4 <= d) as Hd
    by (intros d; Z.to_euclidean_division_equations; lia).
  specialize (Hd (Z.abs (n - e)) ltac:(lia)) as [-> Hd].
  set (q := Z.abs (n - e) * 3 / 4) in *. clearbody q.
  destruct (Z.leb_spec e n); lia.
Qed.

Definition profile_step (n : Z) (c : AdaptiveMorphologyConfig) (p : MorphologyProfile)
  : MorphologyProfile := default p (next_profile p n c).

(** Hysteresis: at a fixed average the profile moves in one direction only, at
    most three times. *)
Lemma profile_settles n c p :
  adaptive_validate c = Ok () -> tuned p ->
  next_profile (profile_step n c (profile_step n c (profile_step n c p))) n c = None.
Proof.
  rewrite adaptive_validate_ok. intros Hc Hp. unfold profile_step.
  destruct Hp as [-> |[-> |[-> | ->]]]; cbn [next_profile];
    repeat (case_if; cbn [default id next_profile]; bool_prop; try lia); done.
Qed.

Lemma next_profile_tuned p n c p' : next_profile p n c = Some p' -> tuned p'.
Proof.
  unfold tuned. destruct p; cbn [next_profile]; intros E; repeat case_if; simplify_eq; auto.
Qed.

Lemma observe_profile n (a : AdaptiveMorphologyEngine R) :
  let a' := observe_payload n a in
  ewma_payload a' = ewma_update n (ewma_payload a) /\ config a' = config a /\
  profile (engine a') = profile_step (ewma_payload a') (config a) (profile (engine a)) /\
  (next_profile (profile (engine a)) (ewma_payload a') (config a) = None ->
   engine a' = engine a /\ switches a' = switches a) /\
  (tuned (profile (engine a)) -> tuned (profile (engine a'))).
Proof.
  unfold observe_payload, profile_step. simpl.
  destruct (next_profile _ _ _) as [p|] eqn:E; simpl; rewrite E; split_and!; try done.
  intros _. by apply next_profile_tuned in E.
Qed.

Lemma observe_converges n k (a : AdaptiveMorphologyEngine R) :
  0 <= n <= usize_max -> 0 <= ewma_payload a <= usize_max -> tuned (profile (engine a)) ->
  let a' := Nat.iter k (observe_payload n) a in
  0 <= ewma_payload a' <= usize_max /\ tuned (profile (engine a')) /\ config a' = config a /\
  abs_diff n (ewma_payload a') <= Z.max 0 (abs_diff n (ewma_payload a) - Z.of_nat k).
Proof.
  intros Hn He Ht. induction k as [|k IH]; cbn [Nat.iter nat_rect].
  { unfold abs_diff. split_and!; done || lia. }
  destruct IH as (I1 & I2 & I3 & I4). unfold Nat.iter in *. set (b := nat_rect _ _ _ _) in *.
  destruct (observe_profile n b) as (O1 & O2 & _ & _ & O5). cbv zeta in *.
  pose proof (ewma_update_spec n (ewma_payload b) Hn I1) as (E1 & E2 & _).
  rewrite O1, O2. split_and!; [apply E1|apply E1|by apply O5|done|]. rewrite E2.
  unfold abs_diff in *. Z.to_euclidean_division_equations. lia.
Qed.

(** Once the average equals the payload length and the profile has no next one,
    nothing changes. *)
Lemma observe_fixed n (a : AdaptiveMorphologyEngine R) :
  ewma_payload a = n -> next_profile (profile (engine a)) n (config a) = None ->
  0 <= n <= usize_max -> observe_payload n a = a.
Proof.
  intros He Hnext Hn. pose proof (ewma_update_spec n n Hn Hn) as (_ & _ & Hu).
  assert (ewma_update n n = n) as Eu by lia.
  unfold observe_payload. rewrite He, Eu, Hnext. destruct a; simpl in *. by rewrite He.
Qed.

Lemma stays_settled n (a : AdaptiveMorphologyEngine R) k :
  ewma_payload a = n -> next_profile (profile (engine a)) n (config a) = None ->
  0 <= n <= usize_max -> Nat.iter k (observe_payload n) a = a.
Proof.
  intros He Hnext Hn. induction k as [|k IH]; [done|]. cbn [Nat.iter nat_rect].
  unfold Nat.iter in IH. rewrite IH. by apply observe_fixed.
Qed.

Lemma observe_step n (a : AdaptiveMorphologyEngine R) :
  ewma_payload a = n -> 0 <= n <= usize_max ->
  ewma_payload (observe_payload n a) = n /\ config (observe_payload n a) = config a /\
  profile (engine (observe_payload n a)) = profile_step n (config a) (profile (engine a)) /\
  (tuned (profile (engine a)) -> tuned (profile (engine (observe_payload n a)))).
Proof.
  intros He Hn. destruct (observe_profile n a) as (O1 & O2 & O3 & _ & O5). cbv zeta in *.
  pose proof (ewma_update_spec n n Hn Hn) as (_ & _ & Hu).
  assert (ewma_payload (observe_payload n a) = n) as E by (rewrite O1, He; lia).
  rewrite E in O3. done.
Qed.

Lemma settles_at n (a : AdaptiveMorphologyEngine R) :
  adaptive_validate (config a) = Ok () -> tuned (profile (engine a)) -> 0 <= n <= usize_max ->
  ewma_payload a = n ->
  let s := Nat.iter 3 (observe_payload n) a in
  ewma_payload s = n /\ next_profile (profile (engine s)) n (config s) = None /\
  tuned (profile (engine s)).
Proof.
  intros Hc Ht Hn He. cbn [Nat.iter nat_rect].
  destruct (observe_step n a He Hn) as (E1 & C1 & P1 & T1).
  destruct (observe_step n _ E1 Hn) as (E2 & C2 & P2 & T2).
  destruct (observe_step n _ E2 Hn) as (E3 & C3 & P3 & T3).
  split; [done|]. split; [|by apply T3, T2, T1].
  rewrite P3, P2, P1, C3, C2, C1. by apply profile_settles.
Qed.
End Adapting.

(** ** Properties *)

(** Shroud 2.0 envelopes round-trip.  For any engine and payload, encoding
    never panics; it succeeds exactly within the limits (a path MTU of 7 to
    65535 bytes and a non-empty payload that fits it with the header), up to a
    failure of the generator; and an encoded datagram fits the path MTU, has
    the size of the bare envelope or of a class of the profile capped at the
    path MTU (when no histogram is used), and decodes to the payload.  A failed
    call changes only the generator. *)
Theorem morphology_round_trip {R} `{RngLaws R} payload path_mtu (e : MorphologyEngine R) :
  engine_wf e ->
  let '(res, e') := encode_datagram payload path_mtu e in
  match res with
  | Ok d =>
      payload_fits (zlen payload) path_mtu /\ decode_datagram d path_mtu = Ok payload /\
      zlen d <= path_mtu /\
      (size_histogram e = None ->
       zlen d = 7 + zlen payload \/ profile_size (profile e) (7 + zlen payload) path_mtu (zlen d)) /\
      exists r, e' = after_encode e r (zlen payload) (zlen d)
  | Err err =>
      (exists r, e' = set_rng e r) /\
      (payload_fits (zlen payload) path_mtu -> err = Crypto "morphology padding randomness failed")
  | Panic => False
  end.
Proof.
  intros Hwf. destruct (encode_datagram_cases payload path_mtu e Hwf)
    as [(Hf & err & _ & ->)|(Hf & [[r ->]|(padding & r & t & -> & Hl & Ht & Hb & Hs)])].
  - split; [|done]. exists (rng e). by rewrite set_rng_id.
  - split; [by exists r|done].
  - subst t. pose proof Hf as (Hm & Hp & _). split_and!; try done; [|by exists r].
    apply decode_envelope; [done|done|]. intros E0. apply (f_equal zlen) in E0. rewrite zlen_nil in E0. lia.
Qed.

(** decoding is exact.  On any bytes the Shroud 2.0 decoder does not panic,
    and it accepts precisely the envelopes of non-empty payloads that fit the
    path MTU, returning the payload: a wrong magic, version, declared size or
    payload length, or a datagram outside the negotiated limit, is an error. *)
Theorem morphology_decode_exact d path_mtu payload :
  bytes_ok d ->
  no_panic (decode_datagram d path_mtu) /\
  (decode_datagram d path_mtu = Ok payload <->
   path_ok path_mtu /\ zlen d <= path_mtu /\ payload <> [] /\
   exists padding, d = morphology_envelope payload padding).
Proof.
  intros Hb. destruct (morph_decode_cases d path_mtu Hb)
    as [[err E]|(p & padding & E & Hm & Hl & Hp & Hd)]; rewrite E; (split; [done|]); split.
  - done.
  - intros (Hm & Hl & Hp & padding & ->). by rewrite decode_envelope in E.
  - intros [= <-]. split_and!; try done. by exists padding.
  - intros (_ & Hl' & Hp' & padding' & Hd'). rewrite <- E, Hd'.
    apply decode_envelope; [done|by rewrite <- Hd'|done].
Qed.

(** the adaptive engine settles.  With ordered thresholds, observing the
    same payload length again and again moves the average monotonically to that
    length within as many observations as their distance; three observations
    later the profile has reached its final value, one of the four tuned
    profiles, and neither the profile nor the switch counter changes any more:
    hysteresis excludes oscillation. *)
Theorem adaptive_settles {R} `{RngOps R} n (a : AdaptiveMorphologyEngine R) k :
  adaptive_validate (config a) = Ok () -> tuned (profile (engine a)) ->
  0 <= n <= usize_max -> 0 <= ewma_payload a <= usize_max ->
  let settled := (Z.to_nat (abs_diff n (ewma_payload a)) + 3)%nat in
  let after i := Nat.iter i (observe_payload n) a in
  (settled <= k)%nat ->
  ewma_payload (after k) = n /\ tuned (profile (engine (after k))) /\
  engine (after k) = engine (after settled) /\ switches (after k) = switches (after settled).
Proof.
  intros Hc Ht Hn He settled after Hk.
  set (m := Z.to_nat (abs_diff n (ewma_payload a))) in *.
  destruct (observe_converges n m a Hn He Ht) as (B1 & B2 & B3 & B4).
  assert (ewma_payload (Nat.iter m (observe_payload n) a) = n) as B5.
  { unfold m, abs_diff in *. lia. }
  set (b := Nat.iter m (observe_payload n) a) in *. rewrite <- B3 in Hc.
  destruct (settles_at n b Hc B2 Hn B5) as (S1 & S2 & S3).
  set (s := Nat.iter 3 (observe_payload n) b) in *.
  assert (forall j, after (j + settled)%nat = s) as Hs.
  { intros j. unfold after, settled. rewrite (Nat.add_comm m 3), !Nat.iter_add.
    by apply stays_settled. }
  pose proof (Hs 0%nat) as H0. cbn [Nat.add] in H0. pose proof (Hs (k - settled)%nat) as H1.
  replace (k - settled + settled)%nat with k in H1 by lia. rewrite H0, H1. done.
Qed.

(** ** Witnesses *)

Module Witnesses.
Import Toy.

Definition web : MorphologyEngine Z := engine_new WebBrowsingLab 5.

Lemma morphology_round_trip_witness :
  exists d e', encode_datagram [10; 20; 30] 1200 web = (Ok d, e') /\
    decode_datagram d 1200 = Ok [10; 20; 30] /\ zlen d <= 1200.
Proof.
  pose proof (morphology_round_trip [10; 20; 30] 1200 web I) as Hrt.
  destruct (encode_datagram [10; 20; 30] 1200 web) as [res e'] eqn:E.
  assert (match res with Ok _ => true | _ => false end = true) as Hres.
  { change res with (res, e').1. rewrite <- E. vm_compute. reflexivity. }
  destruct res as [d| |]; [|done..]. destruct Hrt as (_ & Hd & Hl & _). by exists d, e'.
Defined.

Lemma morphology_decode_exact_witness :
  decode_datagram (morphology_envelope [7; 8] [0; 0; 0]) 64 = Ok [7; 8] /\
  exists padding, morphology_envelope [7; 8] [0; 0; 0] = morphology_envelope [7; 8] padding.
Proof.
  assert (decode_datagram (morphology_envelope [7; 8] [0; 0; 0]) 64 = Ok [7; 8]) as E
    by (vm_compute; reflexivity).
  split; [exact E|].
  refine (proj2 (proj2 (proj2 (proj1 (proj2 (morphology_decode_exact _ 64 [7; 8] _)) E)))).
  by_compute.
Defined.

Definition calm : AdaptiveMorphologyEngine Z :=
  match adaptive_new AdaptiveMorphologyConfig_default 5 with
  | Ok a => observe_payload 100 a
  | _ => mkAdaptiveEngine web AdaptiveMorphologyConfig_default 0 0
  end.

Lemma adaptive_settles_witness :
  profile (engine (Nat.iter 300 (observe_payload 300) calm)) = TunedWebBrowsingLab /\
  ewma_payload (Nat.iter 300 (observe_payload 300) calm) = 300.
Proof.
  split; [vm_compute; reflexivity|].
  refine (proj1 (adaptive_settles 300 calm 300 _ _ _ _ _));
    [vm_compute; reflexivity|vm_compute; tauto|vm_compute; split; discriminate..|].
  vm_compute. repeat constructor.
Defined.
End Witnesses.
