(* ===== verification/Batching.v ===== *)
(** Message batches of Shroud 2.0 (shph-transport/src/shroud2/mod.rs): the
    length-prefixed batch codec and the MTU-aware batcher with its flush
    deadline. *)
From S2P Require Import Prelude Error Text Primitives Histogram Shroud2.

(** ** The batch codec *)

Definition validate_batch_message (message : bytes) : result unit :=
  if zlen message =? 0 then Err (Protocol "morphology batch messages must not be empty")
  else if u16_max <? zlen message
  then Err (Protocol "morphology batch message exceeds the length field")
  else Ok ().

Definition batch_limit_error : ShphError :=
  Protocol ("morphology batch exceeds the " +:+ show MAX_BATCH_MESSAGES +:+ "-message limit").

(** [messages.iter().try_fold(0, ..)] *)
Fixpoint batch_payload_bytes (messages : list bytes) (total : Z) : result Z :=
  match messages with
  | [] => Ok total
  | message :: rest =>
      do? validate_batch_message message;
      let? total := ok_or
        (match checked_add usize_max total BATCH_MESSAGE_LENGTH_BYTES with
         | Some length => checked_add usize_max length (zlen message)
         | None => None
         end) (Protocol "morphology batch length overflow") in
      batch_payload_bytes rest total
  end.

(** The loop that appends each message with its length prefix. *)
Definition append_messages (messages : list bytes) (payload : bytes) : bytes :=
  fold_left (fun payload message => (payload ++ be_bytes 2 (cast 16 (zlen message))) ++ message)
    messages payload.

Definition encode_batch_payload (messages : list bytes) (path_mtu : Z) : result bytes :=
  do? validate_path_mtu path_mtu;
  if zlen messages =? 0 then Err (Protocol "morphology batch must contain at least one message")
  else if MAX_BATCH_MESSAGES <? zlen messages then Err batch_limit_error
  else
    let maximum_payload_bytes := path_mtu - MORPHOLOGY_HEADER_BYTES in
    let? expected_payload_bytes := batch_payload_bytes messages 0 in
    if maximum_payload_bytes <? expected_payload_bytes
    then Err (Protocol "morphology batch exceeds the negotiated datagram limit")
    else Ok (append_messages messages []).

(** One round of the decoding loop: the message at [offset] and its end. *)
Definition decode_step (payload : bytes) (offset : Z) (messages : list bytes) : result (bytes * Z) :=
  if MAX_BATCH_MESSAGES <=? zlen messages then Err batch_limit_error
  else
    let? length_end := ok_or (checked_add usize_max offset BATCH_MESSAGE_LENGTH_BYTES)
                         (Protocol "morphology batch offset overflow") in
    let? length_bytes := ok_or (get_range payload offset length_end)
                           (Protocol "morphology batch has a truncated length prefix") in
    let? b0 := index length_bytes 0 in
    let? b1 := index length_bytes 1 in
    let message_len := be_val [b0; b1] in
    if message_len =? 0 then Err (Protocol "morphology batch contains an empty message")
    else
      let message_start := length_end in
      let? message_end := ok_or (checked_add usize_max message_start message_len)
                            (Protocol "morphology batch message overflow") in
      let? message := ok_or (get_range payload message_start message_end)
                        (Protocol "morphology batch has a truncated message") in
      Ok (message, message_end).

(** The decoding loop; each round consumes at least three bytes. *)
Fixpoint decode_messages (fuel : nat) (payload : bytes) (offset : Z) (messages : list bytes)
  : option (result (list bytes)) :=
  if offset <? zlen payload then
    match fuel with
    | O => None
    | S fuel =>
        match decode_step payload offset messages with
        | Ok (message, message_end) => decode_messages fuel payload message_end (messages ++ [message])
        | Err e => Some (Err e)
        | Panic => Some Panic
        end
    end
  else Some (Ok messages).

Definition decode_batch_payload (payload : bytes) : option (result (list bytes)) :=
  if zlen payload =? 0 then Some (Err (Protocol "morphology batch payload must not be empty"))
  else if MAX_BATCH_PAYLOAD_BYTES <? zlen payload
  then Some (Err (Protocol "morphology batch payload exceeds the global envelope limit"))
  else decode_messages (length payload) payload 0 [].

Section Batched.
Context {R : Type} `{RngOps R}.

Definition encode_batched_datagram (messages : list bytes) (path_mtu : Z) (e : MorphologyEngine R)
  : result bytes * MorphologyEngine R :=
  let! payload, e := (encode_batch_payload messages path_mtu, e) in
  encode_datagram payload path_mtu e.
End Batched.

Definition decode_batched_datagram (datagram : bytes) (path_mtu : Z)
  : option (result (list bytes)) :=
  match decode_datagram datagram path_mtu with
  | Ok payload => decode_batch_payload payload
  | Err e => Some (Err e)
  | Panic => Some Panic
  end.

(** ** The batcher *)

Record MorphologyBatchPolicy := mkBatchPolicy { max_messages : Z; max_wait : Z }.

Definition MorphologyBatchPolicy_new (max_messages max_wait : Z) : result MorphologyBatchPolicy :=
  if negb (in_range 1 MAX_BATCH_MESSAGES max_messages)
  then Err (Config ("morphology batch message limit must be between 1 and " +:+ show MAX_BATCH_MESSAGES))
  else if MAX_BATCH_WAIT <? max_wait
  then Err (Config ("morphology batch wait must not exceed " +:+ show (MAX_BATCH_WAIT / 1000000)
                    +:+ " milliseconds"))
  else Ok (mkBatchPolicy max_messages max_wait).

Definition recommended (p : MorphologyProfile) : MorphologyBatchPolicy :=
  match p with
  | LowLatency => mkBatchPolicy 4 (from_millis 2)
  | WebBrowsingLab => mkBatchPolicy 8 (from_millis 10)
  | VideoStreamingLab => mkBatchPolicy 8 (from_millis 20)
  | VideoStreamingLargePayloadLab => mkBatchPolicy 8 (from_millis 20)
  | VideoStreamingBalancedPayloadLab => mkBatchPolicy 8 (from_millis 20)
  | BulkLab => mkBatchPolicy MAX_BATCH_MESSAGES (from_millis 50)
  | TunedLowLatency => mkBatchPolicy 6 (from_millis 2)
  | TunedWebBrowsingLab => mkBatchPolicy 10 (from_millis 8)
  | TunedVideoStreamingLab => mkBatchPolicy 8 (from_millis 16)
  | TunedBulkLab => mkBatchPolicy MAX_BATCH_MESSAGES (from_millis 40)
  end.

Definition MorphologyBatchPolicy_default : MorphologyBatchPolicy :=
  mkBatchPolicy MAX_BATCH_MESSAGES MAX_BATCH_WAIT.

Inductive MorphologyBatchPushResult := Buffered | Flush (batch : list bytes).

Record MorphologyBatcher := mkBatcher {
  messages : list bytes;
  encoded_payload_bytes : Z;
  policy : MorphologyBatchPolicy;
  first_message_at : option Z
}.

Definition with_policy (p : MorphologyBatchPolicy) : MorphologyBatcher := mkBatcher [] 0 p None.
Definition Batcher_new : MorphologyBatcher := with_policy MorphologyBatchPolicy_default.
Definition for_profile (p : MorphologyProfile) : MorphologyBatcher := with_policy (recommended p).

Definition is_due_at (now started_at : Z) (b : MorphologyBatcher) : bool :=
  max_wait (policy b) <=? saturating_sub now started_at.

Definition is_due (now : Z) (b : MorphologyBatcher) : bool :=
  match first_message_at b with Some started_at => is_due_at now started_at b | None => false end.

Definition time_until_due (now : Z) (b : MorphologyBatcher) : option Z :=
  option_map (fun started_at => saturating_sub (max_wait (policy b)) (saturating_sub now started_at))
    (first_message_at b).

Definition flush (b : MorphologyBatcher) : option (list bytes) * MorphologyBatcher :=
  if zlen (messages b) =? 0 then (None, b)
  else (Some (messages b), mkBatcher [] 0 (policy b) None).

Definition flush_if_due (now : Z) (b : MorphologyBatcher) : option (list bytes) * MorphologyBatcher :=
  if is_due now b then flush b else (None, b).

Definition push_without_flush (message : bytes) (now : Z) (b : MorphologyBatcher)
  : result unit * MorphologyBatcher :=
  let b := if zlen (messages b) =? 0
           then mkBatcher (messages b) (encoded_payload_bytes b) (policy b) (Some now) else b in
  let! length, b := (ok_or (checked_add usize_max BATCH_MESSAGE_LENGTH_BYTES (zlen message))
                       (Protocol "batch message length overflow"), b) in
  let! encoded, b := (ok_or (checked_add usize_max (encoded_payload_bytes b) length)
                        (Protocol "morphology batch length overflow"), b) in
  (Ok (), mkBatcher (messages b ++ [message]) encoded (policy b) (first_message_at b)).

(** [push] reads the clock and calls [push_at]. *)
Definition push_at (message : bytes) (path_mtu now : Z) (b : MorphologyBatcher)
  : result MorphologyBatchPushResult * MorphologyBatcher :=
  let! _ok, b := (validate_path_mtu path_mtu, b) in
  let! _ok, b := (validate_batch_message message, b) in
  let maximum_payload_bytes := path_mtu - MORPHOLOGY_HEADER_BYTES in
  let! message_bytes, b := (ok_or (checked_add usize_max BATCH_MESSAGE_LENGTH_BYTES (zlen message))
                              (Protocol "batch message length overflow"), b) in
  if maximum_payload_bytes <? message_bytes
  then (Err (Protocol "batch message exceeds the negotiated datagram limit"), b)
  else
    let batch_is_due := is_due now b in
    let! next_payload_bytes, b :=
      (ok_or (checked_add usize_max (encoded_payload_bytes b) message_bytes)
         (Protocol "morphology batch length overflow"), b) in
    if negb (zlen (messages b) =? 0)
       && (batch_is_due || (max_messages (policy b) <=? zlen (messages b))
           || (maximum_payload_bytes <? next_payload_bytes))
    then
      let '(flushed, b) := flush b in
      let! flushed, b := (ok_or flushed (Protocol "morphology batch state became inconsistent"), b) in
      let! _ok, b := push_without_flush message now b in
      (Ok (Flush flushed), b)
    else
      let! _ok, b := push_without_flush message now b in
      (Ok Buffered, b).

(** ** Lemmas: the batch codec *)

Definition message_ok (m : bytes) : Prop := 0 < zlen m <= u16_max.
Definition batch_frame (m : bytes) : bytes := be_bytes 2 (zlen m) ++ m.
(** The payload of a batch. *)
Definition batch_frames (ms : list bytes) : bytes := concat (map batch_frame ms).

Lemma batch_frames_cons m ms : batch_frames (m :: ms) = be_bytes 2 (zlen m) ++ m ++ batch_frames ms.
Proof. unfold batch_frames. cbn [map concat]. unfold batch_frame at 1. by rewrite <- app_assoc. Qed.

Lemma zlen_batch_cons m ms : zlen (batch_frames (m :: ms)) = 2 + zlen m + zlen (batch_frames ms).
Proof. rewrite batch_frames_cons, !zlen_app, zlen_be_bytes. lia. Qed.

Lemma batch_frames_app ms ms' : batch_frames (ms ++ ms') = batch_frames ms ++ batch_frames ms'.
Proof. unfold batch_frames. by rewrite map_app, concat_app. Qed.

Lemma zlen_batch_snoc ms m : zlen (batch_frames (ms ++ [m])) = zlen (batch_frames ms) + (2 + zlen m).
Proof. rewrite batch_frames_app, zlen_app, zlen_batch_cons. change (zlen (batch_frames [])) with 0. lia. Qed.

Lemma validate_message_cases m :
  (message_ok m /\ validate_batch_message m = Ok ()) \/
  (~ message_ok m /\ exists e, validate_batch_message m = Err e).
Proof.
  unfold validate_batch_message, message_ok. pose proof (zlen_nonneg m).
  destruct (Z.eqb_spec (zlen m) 0); [right; split; [lia|eauto]|].
  destruct (Z.ltb_spec u16_max (zlen m)); [right; split; [lia|eauto]|left; split; [lia|done]].
Qed.

Lemma batch_payload_bytes_cases ms total :
  0 <= total -> total + zlen ms * 65537 <= usize_max ->
  (Forall message_ok ms /\ batch_payload_bytes ms total = Ok (total + zlen (batch_frames ms))) \/
  (~ Forall message_ok ms /\ exists e, batch_payload_bytes ms total = Err e).
Proof.
  revert total. induction ms as [|m ms IH]; intros total Ht Hb; cbn [batch_payload_bytes].
  { left. split; [constructor|]. change (zlen (batch_frames [])) with 0. f_equal. lia. }
  destruct (validate_message_cases m) as [[Hm ->]|[Hm [e ->]]]; cbn [rbind].
  2:{ right. split; [|eauto]. by intros [? _]%Forall_cons. }
  rewrite zlen_cons in Hb. pose proof (zlen_nonneg ms). unfold message_ok, u16_max in Hm.
  unfold checked_add, BATCH_MESSAGE_LENGTH_BYTES. rewrite !(proj2 (Z.leb_le _ _)) by lia.
  cbn [ok_or rbind]. destruct (IH (total + 2 + zlen m)) as [[Hf ->]|[Hf [e ->]]]; [lia..| |].
  - left. split; [by constructor|]. f_equal. rewrite zlen_batch_cons. lia.
  - right. split; [|eauto]. by intros [_ ?]%Forall_cons.
Qed.

Lemma append_messages_ok ms p : Forall message_ok ms -> append_messages ms p = p ++ batch_frames ms.
Proof.
  unfold append_messages. intros Hf. revert p. induction Hf as [|m ms Hm Hf IH]; intros p; cbn [fold_left].
  - by rewrite app_nil_r.
  - unfold message_ok, u16_max in Hm. unfold cast. rewrite Z.mod_small by (split; [lia|]; change (2 ^ 16) with 65536; lia).
    rewrite IH, batch_frames_cons. by rewrite <- !app_assoc.
Qed.

(** The batches that one datagram can carry. *)
Definition batch_fits (ms : list bytes) (path_mtu : Z) : Prop :=
  path_ok path_mtu /\ 0 < zlen ms <= MAX_BATCH_MESSAGES /\ Forall message_ok ms /\
  zlen (batch_frames ms) <= path_mtu - MORPHOLOGY_HEADER_BYTES.

Lemma encode_batch_cases ms path_mtu :
  (batch_fits ms path_mtu /\ encode_batch_payload ms path_mtu = Ok (batch_frames ms)) \/
  (~ batch_fits ms path_mtu /\ exists e, encode_batch_payload ms path_mtu = Err e).
Proof.
  unfold encode_batch_payload, batch_fits. pose proof (zlen_nonneg ms).
  destruct (morph_path_cases path_mtu) as [[Hm ->]|[Hm [e ->]]]; cbn [rbind]; [|right; naive_solver].
  destruct (Z.eqb_spec (zlen ms) 0); [right; split; [lia|eauto]|].
  destruct (Z.ltb_spec MAX_BATCH_MESSAGES (zlen ms)); [right; split; [lia|eauto]|].
  destruct (batch_payload_bytes_cases ms 0) as [[Hf ->]|[Hf [e ->]]];
    [lia|unfold MAX_BATCH_MESSAGES, usize_max, u64_max in *; lia| |right; naive_solver]. cbn [rbind].
  destruct (Z.ltb_spec (path_mtu - MORPHOLOGY_HEADER_BYTES) (0 + zlen (batch_frames ms)));
    [right; split; [lia|eauto]|]. left. split; [split_and!; try done; lia|].
  by rewrite append_messages_ok.
Qed.

Lemma get_range_mid {A} (pre k rest : list A) a b :
  zlen pre = a -> zlen k = b - a -> get_range (pre ++ k ++ rest) a b = Some k.
Proof.
  intros Ha Hb. unfold get_range. replace (_ && _) with true.
  - by rewrite zdrop_app, ztake_app.
  - symmetry. rewrite !andb_true_iff, !Z.leb_le. zl.
Qed.

Lemma get_range_inv {A} (pre rest : list A) a b k :
  zlen pre = a -> a <= b -> get_range (pre ++ rest) a b = Some k ->
  exists tail, rest = k ++ tail /\ zlen k = b - a.
Proof.
  intros Ha Hab. unfold get_range. case_if; [|done]. bool_prop. intros [= <-].
  rewrite zdrop_app by done. exists (zdrop (b - a) rest). rewrite ztake_zdrop. split; [done|]. zl.
Qed.

Lemma bytes_ok_frames_inv b0 b1 : bytes_ok [b0; b1] -> 0 <= be_val [b0; b1] <= u16_max /\ be_bytes 2 (be_val [b0; b1]) = [b0; b1].
Proof. intros [H0 [H1 _]%Forall_cons]%Forall_cons. by apply be_pair. Qed.

(** A round fails, or reads the frame of a valid message. *)
Lemma decode_step_cases pre rest acc :
  zlen (pre ++ rest) <= MAX_BATCH_PAYLOAD_BYTES -> bytes_ok rest ->
  (exists e, decode_step (pre ++ rest) (zlen pre) acc = Err e) \/
  exists m tail, decode_step (pre ++ rest) (zlen pre) acc = Ok (m, zlen (pre ++ batch_frame m)) /\
    rest = batch_frame m ++ tail /\ message_ok m /\ zlen acc < MAX_BATCH_MESSAGES.
Proof.
  intros Hl Hb. unfold decode_step.
  unfold MAX_BATCH_PAYLOAD_BYTES, MAX_MORPHOLOGY_DATAGRAM_BYTES, MORPHOLOGY_HEADER_BYTES in Hl.
  pose proof (zlen_nonneg pre). pose proof (zlen_nonneg rest). rewrite zlen_app in Hl.
  destruct (Z.leb_spec MAX_BATCH_MESSAGES (zlen acc)); [left; eauto|].
  unfold checked_add, BATCH_MESSAGE_LENGTH_BYTES, usize_max, u64_max.
  rewrite (proj2 (Z.leb_le _ _)) by lia. cbn [ok_or rbind].
  destruct (get_range _ _ _) as [len|] eqn:E1; cbn [ok_or rbind]; [|left; eauto].
  apply get_range_inv in E1 as (tail & -> & Hlen); [|done|lia].
  destruct len as [|b0 [|b1 [|? len]]]; rewrite ?zlen_cons, ?zlen_nil in Hlen;
    try (pose proof (zlen_nonneg len)); try lia.
  idx. apply bytes_ok_app in Hb as [Hb0 Hb]. destruct (bytes_ok_frames_inv b0 b1 Hb0) as [Hv Ev].
  set (n := be_val [b0; b1]) in *. destruct (Z.eqb_spec n 0); [left; eauto|].
  unfold u16_max in *. rewrite (proj2 (Z.leb_le _ _)) by lia.
  cbn [ok_or rbind]. change (pre ++ b0 :: b1 :: tail) with (pre ++ [b0; b1] ++ tail).
  rewrite (app_assoc pre).
  destruct (get_range _ _ _) as [m|] eqn:E2; cbn [ok_or rbind]; [|left; eauto].
  apply get_range_inv in E2 as (tail' & -> & Hm); [|rewrite zlen_app; change (zlen [b0; b1]) with 2; lia|lia].
  assert (zlen m = n) as Hmn by lia. right. exists m, tail'. unfold batch_frame. rewrite Hmn, Ev.
  split_and!; [|by rewrite <- app_assoc|unfold message_ok, u16_max; lia|done].
  do 2 f_equal. rewrite !zlen_app, Hmn. change (zlen [b0; b1]) with 2. lia.
Qed.

(** Reading a payload whose first frames gave [acc]. *)
Lemma decode_messages_cases fuel pre rest acc :
  zlen (pre ++ rest) <= MAX_BATCH_PAYLOAD_BYTES -> bytes_ok rest -> (length rest <= fuel)%nat ->
  (exists e, decode_messages fuel (pre ++ rest) (zlen pre) acc = Some (Err e)) \/
  exists ms, decode_messages fuel (pre ++ rest) (zlen pre) acc = Some (Ok (acc ++ ms)) /\
    rest = batch_frames ms /\ Forall message_ok ms /\
    (zlen acc <= MAX_BATCH_MESSAGES -> zlen (acc ++ ms) <= MAX_BATCH_MESSAGES).
Proof.
  revert pre rest acc. induction fuel as [|fuel IH]; intros pre rest acc Hl Hb Hf; cbn [decode_messages].
  { assert (rest = []) as -> by (destruct rest; [done|simpl in Hf; lia]).
    rewrite app_nil_r, Z.ltb_irrefl. right. exists []. rewrite app_nil_r. auto. }
  destruct (Z.ltb_spec (zlen pre) (zlen (pre ++ rest))) as [Hlt|Hge]; last first.
  { assert (rest = []) as -> by (apply zlen_0_inv; zl).
    right. exists []. rewrite !app_nil_r. auto. }
  destruct (decode_step_cases pre rest acc Hl Hb) as [[e ->]|(m & tail & -> & -> & Hm & Hc)]; [left; eauto|].
  apply bytes_ok_app in Hb as [_ Hb]. rewrite app_assoc in *.
  destruct (IH (pre ++ batch_frame m) tail (acc ++ [m])) as [[e E]|(ms & E & -> & Hms & Hacc)]; [done..| | |].
  - rewrite length_app in Hf. unfold batch_frame in Hf. rewrite length_app in Hf.
    assert (length (be_bytes 2 (zlen m)) = 2%nat) by (by apply length_be_bytes). lia.
  - left. by exists e.
  - right. exists (m :: ms). replace (acc ++ m :: ms) with ((acc ++ [m]) ++ ms) by by rewrite <- app_assoc.
    split_and!; [exact E|done|by constructor|]. intros _. apply Hacc. rewrite zlen_app.
    change (zlen [m]) with 1. lia.
Qed.

(** A round reads back the frame of a valid message. *)
Lemma decode_step_frame pre m tail acc :
  message_ok m -> zlen acc < MAX_BATCH_MESSAGES -> zlen pre + zlen m + 2 <= usize_max ->
  decode_step (pre ++ batch_frame m ++ tail) (zlen pre) acc = Ok (m, zlen (pre ++ batch_frame m)).
Proof.
  intros Hm Hc Hl. unfold decode_step, message_ok, u16_max in *. rewrite (proj2 (Z.leb_gt _ _)) by lia.
  unfold checked_add, BATCH_MESSAGE_LENGTH_BYTES. rewrite (proj2 (Z.leb_le _ _)) by lia. cbn [ok_or rbind].
  unfold batch_frame. rewrite <- (app_assoc (be_bytes 2 (zlen m))).
  rewrite (get_range_mid pre (be_bytes 2 (zlen m))) by (rewrite ?zlen_be_bytes; lia). cbn [ok_or rbind].
  destruct (be_bytes_2 (zlen m)) as (b0 & b1 & E & Ev); [lia|]. rewrite E. idx. rewrite Ev.
  rewrite (proj2 (Z.eqb_neq _ _)) by lia. rewrite (proj2 (Z.leb_le _ _)) by lia. cbn [ok_or rbind].
  change (b0 :: b1 :: m ++ tail) with ([b0; b1] ++ m ++ tail). rewrite (app_assoc pre).
  rewrite get_range_mid by (rewrite ?zlen_app; change (zlen [b0; b1]) with 2; lia). cbn [ok_or rbind].
  do 2 f_equal. rewrite zlen_app. change (b0 :: b1 :: m) with ([b0; b1] ++ m). rewrite zlen_app.
  change (zlen [b0; b1]) with 2. lia.
Qed.

(** The decoder reads back what the encoder wrote. *)
Lemma decode_messages_frames fuel pre ms acc :
  Forall message_ok ms -> zlen (acc ++ ms) <= MAX_BATCH_MESSAGES -> (length ms <= fuel)%nat ->
  zlen (pre ++ batch_frames ms) <= MAX_BATCH_PAYLOAD_BYTES ->
  decode_messages fuel (pre ++ batch_frames ms) (zlen pre) acc = Some (Ok (acc ++ ms)).
Proof.
  intros Hms. revert fuel pre acc.
  induction Hms as [|m ms Hm Hms IH]; intros fuel pre acc Hc Hf Hl.
  { change (batch_frames []) with (@nil Z). rewrite !app_nil_r.
    destruct fuel; cbn [decode_messages]; by rewrite Z.ltb_irrefl. }
  destruct fuel as [|fuel]; [simpl in Hf; lia|]. cbn [decode_messages].
  change (batch_frames (m :: ms)) with (batch_frame m ++ batch_frames ms) in *.
  pose proof (zlen_nonneg (batch_frames ms)). pose proof (zlen_nonneg pre). pose proof (zlen_nonneg ms).
  unfold message_ok, u16_max in Hm. rewrite !zlen_app, ?zlen_cons in *.
  assert (zlen (batch_frame m) = 2 + zlen m) as Em by (unfold batch_frame; zl).
  rewrite (proj2 (Z.ltb_lt _ _)) by lia.
  unfold MAX_BATCH_PAYLOAD_BYTES, MAX_MORPHOLOGY_DATAGRAM_BYTES, MORPHOLOGY_HEADER_BYTES in *.
  rewrite decode_step_frame by (done || lia || unfold usize_max, u64_max; lia).
  rewrite app_assoc, IH; [by rewrite <- app_assoc|zl; rewrite zlen_nil; lia|simpl in Hf; lia|zl].
Qed.

(** The whole decoder. *)
Lemma decode_batch_cases p :
  bytes_ok p ->
  (exists e, decode_batch_payload p = Some (Err e)) \/
  exists ms, decode_batch_payload p = Some (Ok ms) /\ p = batch_frames ms /\
    Forall message_ok ms /\ 0 < zlen ms <= MAX_BATCH_MESSAGES /\ zlen p <= MAX_BATCH_PAYLOAD_BYTES.
Proof.
  intros Hb. unfold decode_batch_payload. pose proof (zlen_nonneg p).
  destruct (Z.eqb_spec (zlen p) 0) as [|H0]; [left; eauto|].
  destruct (Z.ltb_spec MAX_BATCH_PAYLOAD_BYTES (zlen p)); [left; eauto|].
  destruct (decode_messages_cases (length p) [] p []) as [[e E]|(ms & E & Hp & Hms & Hc)];
    [done|done|done|left; eauto|right].
  exists ms. split_and!; try done; [|by apply Hc].
  destruct ms as [|m ms]; [by rewrite Hp in H0|]. rewrite zlen_cons. pose proof (zlen_nonneg ms). lia.
Qed.

Lemma length_frames ms : Forall message_ok ms -> zlen ms <= zlen (batch_frames ms).
Proof.
  induction 1 as [|m ms [Hm _] Hms IH]; [done|]. rewrite zlen_batch_cons, zlen_cons. lia.
Qed.

Lemma decode_batch_ok ms :
  0 < zlen ms <= MAX_BATCH_MESSAGES -> Forall message_ok ms ->
  zlen (batch_frames ms) <= MAX_BATCH_PAYLOAD_BYTES ->
  decode_batch_payload (batch_frames ms) = Some (Ok ms).
Proof.
  intros Hc Hok Hl. pose proof (length_frames ms Hok). unfold decode_batch_payload.
  rewrite (proj2 (Z.eqb_neq _ _)) by lia. rewrite (proj2 (Z.ltb_ge _ _)) by lia.
  change (batch_frames ms) with ([] ++ batch_frames ms) at 2.
  apply (decode_messages_frames _ []); [done|simpl; lia| |done]. unfold zlen in *. lia.
Qed.

Lemma decode_batch_frames ms path_mtu :
  batch_fits ms path_mtu -> decode_batch_payload (batch_frames ms) = Some (Ok ms).
Proof.
  intros ([_ Hm] & Hc & Hok & Hl). apply decode_batch_ok; [done|done|].
  unfold MAX_BATCH_PAYLOAD_BYTES. lia.
Qed.

Lemma batch_payload_fits ms path_mtu :
  batch_fits ms path_mtu -> payload_fits (zlen (batch_frames ms)) path_mtu.
Proof.
  intros (Hm & Hc & Hok & Hl). pose proof (length_frames ms Hok).
  unfold payload_fits, u16_max. destruct Hm as [? Hm].
  unfold path_ok, MAX_MORPHOLOGY_DATAGRAM_BYTES, MORPHOLOGY_HEADER_BYTES in *. lia.
Qed.

(** ** Lemmas: the batcher *)

(** The buffered messages form a batch that fits, the byte counter is the
    length of its payload, and the clock runs exactly when there is a message. *)
Definition batcher_wf (path_mtu : Z) (b : MorphologyBatcher) : Prop :=
  1 <= max_messages (policy b) <= MAX_BATCH_MESSAGES /\
  encoded_payload_bytes b = zlen (batch_frames (messages b)) /\
  Forall message_ok (messages b) /\ zlen (messages b) <= max_messages (policy b) /\
  encoded_payload_bytes b <= path_mtu - MORPHOLOGY_HEADER_BYTES /\
  (first_message_at b = None <-> messages b = []).

(** What a push accepts: a valid message that fits a datagram of its own. *)
Definition acceptable (path_mtu : Z) (m : bytes) : Prop :=
  message_ok m /\ BATCH_MESSAGE_LENGTH_BYTES + zlen m <= path_mtu - MORPHOLOGY_HEADER_BYTES.

#[export] Instance acceptable_dec path_mtu m : Decision (acceptable path_mtu m).
Proof. unfold acceptable, message_ok. apply _. Defined.

(** A batch the batcher emits. *)
Definition emitted_ok (path_mtu limit : Z) (batch : list bytes) : Prop :=
  batch_fits batch path_mtu /\ zlen batch <= limit.

Lemma with_policy_wf path_mtu p :
  path_ok path_mtu -> 1 <= max_messages p <= MAX_BATCH_MESSAGES -> batcher_wf path_mtu (with_policy p).
Proof.
  intros [Hm _] Hp. unfold MORPHOLOGY_HEADER_BYTES in *.
  unfold batcher_wf, with_policy. cbn [messages encoded_payload_bytes policy first_message_at].
  change (zlen []) with 0. change (zlen (batch_frames [])) with 0. unfold MORPHOLOGY_HEADER_BYTES.
  split_and!; (done || lia).
Qed.

Lemma flush_cases path_mtu b :
  path_ok path_mtu -> batcher_wf path_mtu b ->
  (messages b = [] /\ flush b = (None, b)) \/
  (messages b <> [] /\ flush b = (Some (messages b), with_policy (policy b)) /\
   emitted_ok path_mtu (max_messages (policy b)) (messages b)).
Proof.
  intros Hm (Hp & He & Hok & Hl & Hb & Hf). unfold flush. pose proof (zlen_nonneg (messages b)).
  destruct (Z.eqb_spec (zlen (messages b)) 0) as [H0|H0]; [left; split; [by apply zlen_0_inv|done]|].
  right. split; [intros E; by rewrite E in H0|]. split; [done|].
  unfold emitted_ok, batch_fits. split_and!; try done; lia.
Qed.

(** Buffering one more message. *)
Definition buffer (m : bytes) (now : Z) (b : MorphologyBatcher) : MorphologyBatcher :=
  mkBatcher (messages b ++ [m]) (encoded_payload_bytes b + (2 + zlen m)) (policy b)
    (if zlen (messages b) =? 0 then Some now else first_message_at b).

Lemma push_without_flush_ok m now b :
  0 <= encoded_payload_bytes b -> encoded_payload_bytes b + (2 + zlen m) <= usize_max ->
  push_without_flush m now b = (Ok (), buffer m now b).
Proof.
  intros H0 Hb. unfold push_without_flush, buffer, checked_add, BATCH_MESSAGE_LENGTH_BYTES.
  pose proof (zlen_nonneg m). destruct (zlen (messages b) =? 0);
    rewrite (proj2 (Z.leb_le _ _)) by lia;
    cbn [ok_or sbind encoded_payload_bytes messages policy first_message_at];
    by rewrite (proj2 (Z.leb_le _ _)) by lia.
Qed.

Lemma buffer_wf path_mtu m now b :
  batcher_wf path_mtu b -> message_ok m -> zlen (messages b) < max_messages (policy b) ->
  encoded_payload_bytes b + (2 + zlen m) <= path_mtu - MORPHOLOGY_HEADER_BYTES ->
  batcher_wf path_mtu (buffer m now b).
Proof.
  intros (Hp & He & Hok & Hl & Hb & Hf) Hm Hc Hfit.
  unfold batcher_wf, buffer. cbn [messages encoded_payload_bytes policy first_message_at].
  rewrite zlen_batch_snoc, zlen_app. change (zlen [m]) with 1. split_and!; try done; try lia.
  - rewrite Forall_app, Forall_singleton. done.
  - split.
    + destruct (Z.eqb_spec (zlen (messages b)) 0) as [|Hn]; [done|].
      intros E%Hf. by rewrite E in Hn.
    + intros E%(f_equal length); rewrite length_app in E; simpl in E; lia.
Qed.

(** The flush condition of a push. *)
Definition must_flush (m : bytes) (path_mtu now : Z) (b : MorphologyBatcher) : bool :=
  is_due now b || (max_messages (policy b) <=? zlen (messages b))
  || (path_mtu - MORPHOLOGY_HEADER_BYTES <? encoded_payload_bytes b + (2 + zlen m)).

Lemma push_refused path_mtu m now b :
  path_ok path_mtu -> ~ acceptable path_mtu m -> exists e, push_at m path_mtu now b = (Err e, b).
Proof.
  intros Hm Ha. unfold push_at. destruct (morph_path_cases path_mtu) as [[_ ->]|[? _]]; [|done].
  cbn [sbind]. destruct (validate_message_cases m) as [[Hmsg ->]|[Hmsg [e ->]]]; cbn [sbind]; [|eauto].
  pose proof Hmsg as [H0 Hu]. unfold u16_max in Hu. unfold acceptable in Ha.
  unfold checked_add at 1. unfold BATCH_MESSAGE_LENGTH_BYTES, usize_max, u64_max in *.
  rewrite (proj2 (Z.leb_le _ _)) by lia. cbn [ok_or sbind].
  destruct (Z.ltb_spec (path_mtu - MORPHOLOGY_HEADER_BYTES) (2 + zlen m)); [eauto|].
  destruct Ha. split; [done|lia].
Qed.

Lemma push_accepted path_mtu m now b :
  path_ok path_mtu -> batcher_wf path_mtu b -> acceptable path_mtu m ->
  push_at m path_mtu now b =
  if negb (zlen (messages b) =? 0) && must_flush m path_mtu now b
  then (Ok (Flush (messages b)), buffer m now (with_policy (policy b)))
  else (Ok Buffered, buffer m now b).
Proof.
  intros Hm (Hp & He & Hok & Hl & Hb & Hf) [Hmsg Hfit]. pose proof Hm as [Hm0 Hm1].
  unfold push_at. destruct (morph_path_cases path_mtu) as [[_ ->]|[? _]]; [|done]. cbn [sbind].
  destruct (validate_message_cases m) as [[_ ->]|[? _]]; [|done]. cbn [sbind].
  pose proof Hmsg as [H0 Hu]. pose proof (zlen_nonneg (batch_frames (messages b))). unfold must_flush.
  unfold BATCH_MESSAGE_LENGTH_BYTES, MORPHOLOGY_HEADER_BYTES, MAX_MORPHOLOGY_DATAGRAM_BYTES in *.
  assert (forall x, x <= 200000 -> x <= usize_max) as Hbig by (unfold usize_max, u64_max; lia).
  unfold checked_add at 1. rewrite (proj2 (Z.leb_le _ _)) by (apply Hbig; lia). cbn [ok_or sbind].
  rewrite (proj2 (Z.ltb_ge _ _)) by lia.
  unfold checked_add at 1. rewrite (proj2 (Z.leb_le _ _)) by (apply Hbig; lia). cbn [ok_or sbind].
  destruct (_ && _) eqn:Ec; last first.
  { by rewrite push_without_flush_ok by (try apply Hbig; lia). }
  apply andb_true_iff in Ec as [Ec _]. apply negb_true_iff in Ec. unfold flush. rewrite Ec.
  cbn [ok_or sbind]. change (mkBatcher [] 0 (policy b) None) with (with_policy (policy b)).
  by rewrite push_without_flush_ok by (cbn [encoded_payload_bytes with_policy]; try apply Hbig; lia).
Qed.

(** A push keeps the invariant, and flushes only a batch that fits. *)
Lemma push_cases path_mtu m now b :
  path_ok path_mtu -> batcher_wf path_mtu b ->
  (~ acceptable path_mtu m /\ exists e, push_at m path_mtu now b = (Err e, b)) \/
  (acceptable path_mtu m /\
   ((push_at m path_mtu now b = (Ok Buffered, buffer m now b) /\ batcher_wf path_mtu (buffer m now b)) \/
    (push_at m path_mtu now b = (Ok (Flush (messages b)), buffer m now (with_policy (policy b))) /\
     batcher_wf path_mtu (buffer m now (with_policy (policy b))) /\
     emitted_ok path_mtu (max_messages (policy b)) (messages b)))).
Proof.
  intros Hm Hwf. destruct (decide (acceptable path_mtu m)) as [Ha|Ha]; [|left; split; [done|by apply push_refused]].
  right. split; [done|]. rewrite push_accepted by done.
  pose proof Ha as [Hmsg Hfit]. pose proof Hwf as (Hp & He & Hok & Hl & Hb & Hf).
  unfold BATCH_MESSAGE_LENGTH_BYTES in Hfit.
  destruct (flush_cases path_mtu b Hm Hwf) as [[E0 _]|(E0 & _ & Hem)].
  - assert (zlen (messages b) = 0) as Ez by by rewrite E0. rewrite Ez. left. split; [done|].
    apply buffer_wf; try done; [lia|]. rewrite He, E0. change (zlen (batch_frames [])) with 0. lia.
  - destruct (Z.eqb_spec (zlen (messages b)) 0) as [Ez|_]; [by apply zlen_0_inv in Ez|]. cbn [negb andb].
    destruct (must_flush m path_mtu now b) eqn:Ec; [right|left]; (split; [done|]).
    + split; [|done]. apply buffer_wf; [by apply with_policy_wf|done| |].
      * change (zlen (messages (with_policy (policy b)))) with 0. cbn [policy with_policy]. lia.
      * cbn [encoded_payload_bytes with_policy]. lia.
    + apply orb_false_iff in Ec as [[_ Ec]%orb_false_iff Ed].
      apply Z.leb_gt in Ec. apply Z.ltb_ge in Ed. by apply buffer_wf.
Qed.

(** ** Runs of the batcher *)

Inductive BatcherOp := OpPush (m : bytes) (now : Z) | OpFlush | OpFlushIfDue (now : Z).

(** One call: the batches it emits, whether it accepted its message. *)
Definition batcher_step (path_mtu : Z) (op : BatcherOp) (b : MorphologyBatcher)
  : result (list (list bytes)) * MorphologyBatcher :=
  match op with
  | OpPush m now =>
      match push_at m path_mtu now b with
      | (Ok (Flush batch), b) => (Ok [batch], b)
      | (Ok Buffered, b) => (Ok [], b)
      | (Err e, b) => (Err e, b)
      | (Panic, b) => (Panic, b)
      end
  | OpFlush => let '(batch, b) := flush b in (Ok (option_list batch), b)
  | OpFlushIfDue now => let '(batch, b) := flush_if_due now b in (Ok (option_list batch), b)
  end.

(** A run that ignores errors, as a caller that drops the refused messages;
    [None] is a panic. *)
Fixpoint batcher_run (path_mtu : Z) (ops : list BatcherOp) (b : MorphologyBatcher)
  : option (list (list bytes) * MorphologyBatcher) :=
  match ops with
  | [] => Some ([], b)
  | op :: ops =>
      let '(res, b) := batcher_step path_mtu op b in
      let more emitted := match batcher_run path_mtu ops b with
                          | Some (later, b) => Some (emitted ++ later, b)
                          | None => None
                          end in
      match res with
      | Ok emitted => more emitted
      | Err _ => more []
      | Panic => None
      end
  end.

(** The messages a run accepts. *)
Definition accepted (path_mtu : Z) (ops : list BatcherOp) : list bytes :=
  concat (map (fun op => match op with
                         | OpPush m _ => if bool_decide (acceptable path_mtu m) then [m] else []
                         | _ => []
                         end) ops).

Lemma step_cases path_mtu op b :
  path_ok path_mtu -> batcher_wf path_mtu b ->
  exists emitted b', batcher_wf path_mtu b' /\ policy b' = policy b /\
    (batcher_step path_mtu op b = (Ok emitted, b') \/
     emitted = [] /\ exists e, batcher_step path_mtu op b = (Err e, b')) /\
    Forall (emitted_ok path_mtu (max_messages (policy b))) emitted /\
    concat emitted ++ messages b' = messages b ++ accepted path_mtu [op].
Proof.
  intros Hm Hwf. pose proof Hwf as (Hp & _). destruct op as [m now| |now]; cbn [batcher_step].
  - unfold accepted. cbn [map concat]. rewrite app_nil_r.
    destruct (push_cases path_mtu m now b Hm Hwf) as [(Ha & e & ->)|[Ha [[-> Hw]|(-> & Hw & He)]]].
    + rewrite bool_decide_false by done. exists [], b. rewrite app_nil_r. split_and!; eauto.
    + rewrite bool_decide_true by done. exists [], (buffer m now b). split_and!; auto.
    + rewrite bool_decide_true by done. exists [messages b], (buffer m now (with_policy (policy b))).
      split_and!; auto. simpl. by rewrite app_nil_r.
  - unfold accepted. cbn [map concat]. rewrite !app_nil_r.
    destruct (flush_cases path_mtu b Hm Hwf) as [[E ->]|(E & -> & He)].
    + exists [], b. split_and!; auto.
    + exists [messages b], (with_policy (policy b)).
      split_and!; auto; [by apply with_policy_wf|simpl; by rewrite !app_nil_r].
  - unfold accepted, flush_if_due. cbn [map concat]. rewrite !app_nil_r.
    destruct (is_due now b); [|exists [], b; split_and!; auto].
    destruct (flush_cases path_mtu b Hm Hwf) as [[E ->]|(E & -> & He)].
    + exists [], b. split_and!; auto.
    + exists [messages b], (with_policy (policy b)).
      split_and!; auto; [by apply with_policy_wf|simpl; by rewrite !app_nil_r].
Qed.

Lemma accepted_cons path_mtu op ops :
  accepted path_mtu (op :: ops) = accepted path_mtu [op] ++ accepted path_mtu ops.
Proof. unfold accepted. cbn [map concat]. by rewrite app_nil_r. Qed.

Lemma run_cases path_mtu ops b :
  path_ok path_mtu -> batcher_wf path_mtu b ->
  exists emitted b', batcher_run path_mtu ops b = Some (emitted, b') /\ batcher_wf path_mtu b' /\
    policy b' = policy b /\
    Forall (emitted_ok path_mtu (max_messages (policy b))) emitted /\
    concat emitted ++ messages b' = messages b ++ accepted path_mtu ops.
Proof.
  intros Hm. revert b. induction ops as [|op ops IH]; intros b Hwf; cbn [batcher_run].
  { exists [], b. unfold accepted. cbn. rewrite app_nil_r. auto. }
  destruct (step_cases path_mtu op b Hm Hwf) as (em & b1 & Hw1 & Hp1 & Hs & Hf & Hc).
  destruct (IH b1 Hw1) as (em2 & b2 & E2 & Hw2 & Hp2 & Hf2 & Hc2). rewrite Hp1 in Hp2, Hf2.
  rewrite accepted_cons. exists (em ++ em2), b2. rewrite concat_app, <- app_assoc, Hc2, app_assoc, Hc.
  rewrite <- app_assoc. rewrite Forall_app.
  destruct Hs as [->|[-> [e ->]]]; by rewrite E2.
Qed.

Lemma policy_new_inv count wait p :
  MorphologyBatchPolicy_new count wait = Ok p ->
  p = mkBatchPolicy count wait /\ 1 <= count <= MAX_BATCH_MESSAGES.
Proof.
  unfold MorphologyBatchPolicy_new, in_range. case_if; [done|]. case_if; [done|].
  intros [= <-]. bool_prop. split; [done|lia].
Qed.

(** ** Properties *)

(** batches round-trip.  Encoding succeeds exactly on 1 to 32 messages of 1
    to 65535 bytes whose frames fit the path MTU with the datagram header, and
    decoding the payload terminates with the same messages in the same order;
    so does sending the batch in one Shroud 2.0 datagram, up to a failure of
    the generator, for every engine. *)
Theorem batch_round_trip {R} `{RngLaws R} ms path_mtu (e : MorphologyEngine R) :
  engine_wf e ->
  (batch_fits ms path_mtu <-> exists payload, encode_batch_payload ms path_mtu = Ok payload) /\
  (forall payload, encode_batch_payload ms path_mtu = Ok payload ->
     decode_batch_payload payload = Some (Ok ms)) /\
  match encode_batched_datagram ms path_mtu e with
  | (Ok d, _) => batch_fits ms path_mtu /\ zlen d <= path_mtu /\ decode_batched_datagram d path_mtu = Some (Ok ms)
  | (Err err, _) => batch_fits ms path_mtu -> err = Crypto "morphology padding randomness failed"
  | (Panic, _) => False
  end.
Proof.
  intros Hwf. unfold encode_batched_datagram, decode_batched_datagram.
  destruct (encode_batch_cases ms path_mtu) as [[Hf ->]|(Hf & err & ->)]; cbn [sbind]; last first.
  { split_and!; [split; [done|by intros [? ?]]|done|done]. }
  pose proof (decode_batch_frames ms path_mtu Hf) as Hd.
  split_and!; [split; [eauto|done]|by intros ? [= <-]|].
  destruct (encode_datagram_cases (batch_frames ms) path_mtu e Hwf)
    as [(Hn & _)|(_ & [[r ->]|(padding & r & t & -> & Hl & Ht & Hb & _)])]; [|done|].
  - by destruct Hn; apply batch_payload_fits.
  - split; [done|]. split; [lia|]. destruct Hf as (Hm & Hf').
    rewrite decode_envelope; [done|done|lia|]. intros E0.
    destruct (batch_payload_fits ms path_mtu) as (_ & Hp & _); [done|]. by rewrite E0 in Hp.
Qed.

(** batch decoding is exact and total.  On any bytes the decoding loop
    terminates without a panic, and it accepts precisely the payloads of at most
    65528 bytes that are the frames of 1 to 32 non-empty messages, returning
    these: empty payloads, empty messages, truncated prefixes or messages and
    too many messages are errors. *)
Theorem batch_decode_exact p ms :
  bytes_ok p ->
  (exists res, decode_batch_payload p = Some res /\ no_panic res) /\
  (decode_batch_payload p = Some (Ok ms) <->
   p = batch_frames ms /\ 0 < zlen ms <= MAX_BATCH_MESSAGES /\ Forall message_ok ms /\
   zlen p <= MAX_BATCH_PAYLOAD_BYTES).
Proof.
  intros Hb. destruct (decode_batch_cases p Hb) as [[e E]|(ms' & E & -> & Hms & Hc & Hl)];
    rewrite E; (split; [by eexists|]); split.
  - done.
  - intros (-> & Hms & Hok & Hl). by rewrite decode_batch_ok in E.
  - intros [= <-]. done.
  - intros (Ep & Hc' & Hok & Hl'). rewrite Ep in E, Hl'. by rewrite decode_batch_ok in E.
Qed.

(** C13: the batcher loses, duplicates and reorders nothing.  From an empty
    batcher under a valid policy and path MTU, any sequence of pushes, flushes
    and deadline flushes runs without a panic; the emitted batches followed by
    the buffered messages are exactly the accepted messages in order (a push is
    refused precisely when its message is empty, too long, or does not fit a
    datagram of its own); every emitted batch has at most [max_messages]
    messages and encodes for the path MTU, and so does the buffer. *)
Theorem batcher_delivers max_messages max_wait p path_mtu ops :
  MorphologyBatchPolicy_new max_messages max_wait = Ok p -> validate_path_mtu path_mtu = Ok () ->
  exists emitted b, batcher_run path_mtu ops (with_policy p) = Some (emitted, b) /\
    concat emitted ++ messages b = accepted path_mtu ops /\
    Forall (fun batch => zlen batch <= max_messages /\
                         encode_batch_payload batch path_mtu = Ok (batch_frames batch)) emitted /\
    zlen (messages b) <= max_messages /\
    (messages b <> [] -> encode_batch_payload (messages b) path_mtu = Ok (batch_frames (messages b))).
Proof.
  intros Hp Hm%morph_path_ok. apply policy_new_inv in Hp as [-> Hc].
  assert (forall batch, emitted_ok path_mtu max_messages batch -> zlen batch <= max_messages /\
    encode_batch_payload batch path_mtu = Ok (batch_frames batch)) as Henc.
  { intros batch [Hf ?]. split; [done|]. by destruct (encode_batch_cases batch path_mtu) as [[_ ?]|[? _]]. }
  destruct (run_cases path_mtu ops (with_policy (mkBatchPolicy max_messages max_wait)) Hm)
    as (em & b & E & Hw & Hpol & Hf & Hcat); [by apply with_policy_wf|]. exists em, b.
  split_and!; [done|done|by eapply Forall_impl| |].
  - destruct Hw as (_ & _ & _ & Hl & _). by rewrite Hpol in Hl.
  - intros Hne. destruct (flush_cases path_mtu b Hm Hw) as [[? _]|(_ & _ & Hem)]; [done|].
    rewrite Hpol in Hem. by apply Henc.
Qed.

(** ** Witnesses *)

Module Witnesses.
Import Toy.

Definition bulk : MorphologyEngine Z := engine_new BulkLab 5.
Definition msgs : list bytes := [[1; 2; 3]; [4]; [5; 6]].

Lemma batch_round_trip_witness :
  exists d e', encode_batched_datagram msgs 1200 bulk = (Ok d, e') /\
    decode_batched_datagram d 1200 = Some (Ok msgs).
Proof.
  pose proof (proj2 (proj2 (batch_round_trip msgs 1200 bulk I))) as Hrt.
  destruct (encode_batched_datagram msgs 1200 bulk) as [res e'] eqn:E.
  assert (match res with Ok _ => true | _ => false end = true) as Hres.
  { change res with (res, e').1. rewrite <- E. vm_compute. reflexivity. }
  destruct res as [d| |]; [|done..]. destruct Hrt as (_ & _ & Hd). by exists d, e'.
Defined.

Lemma batch_decode_exact_witness :
  (exists res, decode_batch_payload [0; 1; 9; 0; 2; 8; 8] = Some res /\ no_panic res) /\
  decode_batch_payload [0; 1; 9; 0; 2; 8; 8] = Some (Ok [[9]; [8; 8]]).
Proof.
  split; [|vm_compute; reflexivity].
  refine (proj1 (batch_decode_exact [0; 1; 9; 0; 2; 8; 8] [] _)). by_compute.
Defined.

(** Two messages fill the batch, the third flushes it; the deadline flushes the
    rest; a message larger than the path is refused. *)
Definition ops : list BatcherOp :=
  [OpPush [1; 2; 3] 10; OpPush [4] 11; OpPush [5; 6] 12; OpPush (zreplicate 100 0) 13;
   OpFlushIfDue 2000; OpPush [7] 3000].

Lemma batcher_delivers_witness :
  exists emitted b, batcher_run 64 ops (with_policy (mkBatchPolicy 2 1000)) = Some (emitted, b) /\
    emitted = [[[1; 2; 3]; [4]]; [[5; 6]]] /\ concat emitted ++ messages b = accepted 64 ops.
Proof.
  destruct (batcher_delivers 2 1000 (mkBatchPolicy 2 1000) 64 ops) as (em & b & E & Hcat & _);
    [vm_compute; reflexivity..|].
  exists em, b. split; [exact E|]. split; [|exact Hcat].
  vm_compute in E. injection E as <- _. reflexivity.
Defined.
End Witnesses.
