(* ===== verification/Workload.v ===== *)
(** Workload-driven morphology (shph-transport/src/shroud2/workload.rs): the
    tuned profile follows payload sizes, bursts of arrivals and the age of the
    queue, with a minimum dwell between switches.  Durations are nanoseconds. *)
From S2P Require Import Prelude Error Text Primitives Histogram Shroud2.

Record WorkloadConfig := mkWorkloadConfig {
  minimum_dwell : Z;
  burst_gap : Z;
  burst_threshold : Z;
  queue_age_limit : Z;
  use_arrivals : bool;
  use_queue_age : bool
}.

Definition WorkloadConfig_default : WorkloadConfig :=
  mkWorkloadConfig (from_millis 100) (from_millis 5) 8 (from_millis 10) true true.

Definition workload_validate (c : WorkloadConfig) : result unit :=
  if (from_secs 60 <? minimum_dwell c)
     || (burst_gap c =? 0) || (from_secs 1 <? burst_gap c)
     || negb (in_range 2 1024 (burst_threshold c))
     || (queue_age_limit c =? 0) || (from_secs 1 <? queue_age_limit c)
  then Err (Config "invalid workload adaptation bounds") else Ok ().

Inductive WorkloadReason := ByPayload | ByBurst | ByQueueAge.

Record WorkloadMetrics := mkWorkloadMetrics {
  wm_observations : Z;
  wm_switches : Z;
  payload_transitions : Z;
  wm_burst_transitions : Z;
  queue_age_transitions : Z;
  dwell_suppressed : Z;
  burst_length : Z;
  wm_last_reason : option WorkloadReason
}.

Definition WorkloadMetrics_default : WorkloadMetrics := mkWorkloadMetrics 0 0 0 0 0 0 0 None.

#[export] Instance MorphologyProfile_eq_dec : EqDecision MorphologyProfile.
Proof. solve_decision. Defined.

(** [Duration - Duration] panics when the result is negative. *)
Definition duration_sub (a b : Z) : result Z := if b <=? a then Ok (a - b) else Panic.

(** The profile asked for, and why. *)
Definition choose_profile (c : WorkloadConfig) (thresholds : AdaptiveMorphologyConfig) (current : MorphologyProfile)
    (ewma burst age : Z) : MorphologyProfile * WorkloadReason :=
  let choice := (default current (next_profile current ewma thresholds), ByPayload) in
  let choice :=
    if use_arrivals c && (burst_threshold c <=? burst) && (video_enter thresholds <=? ewma)
    then (TunedBulkLab, ByBurst) else choice in
  if use_queue_age c && (queue_age_limit c <=? age) then (TunedLowLatency, ByQueueAge) else choice.

Definition count (x : Z) : Z := saturating_add u64_max x 1.

(** The metrics after a successful call. *)
Definition tally (switched suppressed : bool) (reason : WorkloadReason) (burst : Z) (m : WorkloadMetrics) : WorkloadMetrics := {|
  wm_observations := count (wm_observations m);
  wm_switches := if switched then count (wm_switches m) else wm_switches m;
  payload_transitions :=
    match switched, reason with true, ByPayload => count (payload_transitions m) | _, _ => payload_transitions m end;
  wm_burst_transitions :=
    match switched, reason with true, ByBurst => count (wm_burst_transitions m) | _, _ => wm_burst_transitions m end;
  queue_age_transitions :=
    match switched, reason with true, ByQueueAge => count (queue_age_transitions m) | _, _ => queue_age_transitions m end;
  dwell_suppressed := saturating_add u64_max (dwell_suppressed m) (if suppressed then 1 else 0);
  burst_length := burst;
  wm_last_reason := if switched then Some reason else wm_last_reason m
|}.

Section Engine.
Context {R : Type} `{RngOps R}.

Record WorkloadMorphology := mkWorkloadMorphology {
  wl_engine : MorphologyEngine R;
  wl_config : WorkloadConfig;
  thresholds : AdaptiveMorphologyConfig;
  wl_last_observation : option Z;
  last_switch : option Z;
  wl_ewma : Z;
  wl_metrics : WorkloadMetrics
}.

(** [new] and [from_seed]. *)
Definition workload_new (c : WorkloadConfig) (seeded : R) : result WorkloadMorphology :=
  do? workload_validate c ;
  Ok (mkWorkloadMorphology (engine_new TunedLowLatency seeded) c AdaptiveMorphologyConfig_default None None 0 WorkloadMetrics_default).

Definition with_morphology (e : MorphologyEngine R) (w : WorkloadMorphology) : WorkloadMorphology :=
  mkWorkloadMorphology e (wl_config w) (thresholds w) (wl_last_observation w) (last_switch w) (wl_ewma w) (wl_metrics w).

Definition wl_next_delay (w : WorkloadMorphology) : result Z * WorkloadMorphology :=
  let '(delay, e) := next_delay (wl_engine w) in (delay, with_morphology e w).

(** The burst that the observation continues or begins. *)
Definition next_burst (at_ : Z) (w : WorkloadMorphology) : result Z :=
  match wl_last_observation w with
  | None => Ok 1
  | Some last =>
      let? gap := duration_sub at_ last in
      Ok (if gap <=? burst_gap (wl_config w) then Z.min (saturating_add u32_max (burst_length (wl_metrics w)) 1) 1024 else 1)
  end.

(** [self.last_switch.or(self.last_observation).unwrap_or(observed_at)] *)
Definition dwell_origin (at_ : Z) (w : WorkloadMorphology) : Z :=
  match last_switch w with Some s => s | None => default at_ (wl_last_observation w) end.

Definition wl_encode (payload : bytes) (path_mtu at_ age : Z) (w : WorkloadMorphology) : result bytes * WorkloadMorphology :=
  let! _minimum, w := (validate_payload_for_path (zlen payload) path_mtu, w) in
  if match wl_last_observation w with Some last => at_ <? last | None => false end || (at_ <? age)
  then (Err (InvalidArgument "nonmonotonic or impossible workload observation"), w)
  else
    let! burst, w := (next_burst at_ w, w) in
    let ewma := ewma_update (zlen payload) (wl_ewma w) in
    let current := profile (wl_engine w) in
    let '(next, reason) := choose_profile (wl_config w) (thresholds w) current ewma burst age in
    let! dwelt, w := (if bool_decide (next = current) then Ok 0 else duration_sub at_ (dwell_origin at_ w), w) in
    let suppressed := negb (bool_decide (next = current)) && (dwelt <? minimum_dwell (wl_config w)) in
    let next := if suppressed then current else next in
    let '(res, e) := encode_datagram payload path_mtu (set_profile next (wl_engine w)) in
    match res with
    | Ok encoded =>
        let switched := negb (bool_decide (next = current)) in
        (Ok encoded,
         mkWorkloadMorphology e (wl_config w) (thresholds w) (Some at_)
           (if switched then Some at_ else match last_switch w with None => Some at_ | s => s end)
           ewma (tally switched suppressed reason burst (wl_metrics w)))
    | Err err => (Err err, with_morphology (set_profile current e) w)
    | Panic => (Panic, with_morphology e w)
    end.
End Engine.
Arguments WorkloadMorphology : clear implicits.

(** ** The specification: profiles from the whole history *)

(** A successful call: payload length, clock and age of the queue. *)
Record Arrival := mkArrival { a_bytes : Z; a_at : Z; a_age : Z }.

(** The history, latest first: every arrival with the profile it was sent with. *)
Notation history := (list (Arrival * MorphologyProfile)).

Definition average (h : history) : Z := fold_right (fun x ewma => ewma_update (a_bytes x.1) ewma) 0 h.

(** The length of the latest burst, up to 1024. *)
Fixpoint burst_of (c : WorkloadConfig) (h : history) : Z :=
  match h with
  | [] => 0
  | x :: older =>
      match older with
      | [] => 1
      | y :: _ => if a_at x.1 - a_at y.1 <=? burst_gap c then Z.min (burst_of c older + 1) 1024 else 1
      end
  end.

Definition profile_of (h : history) : MorphologyProfile :=
  match h with [] => TunedLowLatency | x :: _ => x.2 end.

Definition switched_at (x : Arrival * MorphologyProfile) (older : history) : bool := negb (bool_decide (x.2 = profile_of older)).

(** When the profile last changed; the first arrival counts. *)
Fixpoint changed_at (h : history) : option Z :=
  match h with
  | [] => None
  | x :: older => if switched_at x older then Some (a_at x.1) else match changed_at older with None => Some (a_at x.1) | s => s end
  end.

Fixpoint changes (h : history) : Z :=
  match h with [] => 0 | x :: older => (if switched_at x older then 1 else 0) + changes older end.

(** The profile for the next arrival: the wanted one, unless the last change is
    too recent. *)
Definition next_of (c : WorkloadConfig) (h : history) (a : Arrival) : MorphologyProfile :=
  let wanted := (choose_profile c AdaptiveMorphologyConfig_default (profile_of h)
                   (ewma_update (a_bytes a) (average h)) (burst_of c ((a, profile_of h) :: h)) (a_age a)).1 in
  if a_at a - default (a_at a) (changed_at h) <? minimum_dwell c then profile_of h else wanted.

Definition history_of (c : WorkloadConfig) (l : list Arrival) : history :=
  fold_left (fun h a => (a, next_of c h a) :: h) l [].

(** ** Lemmas *)

(** A call of [wl_encode]. *)
Record WorkloadCall := mkWorkloadCall { c_payload : bytes; c_mtu : Z; c_at : Z; c_age : Z }.
Definition wl_call {R} `{RngOps R} (k : WorkloadCall) : WorkloadMorphology R -> result bytes * WorkloadMorphology R :=
  wl_encode (c_payload k) (c_mtu k) (c_at k) (c_age k).
Definition arrival (k : WorkloadCall) : Arrival := mkArrival (zlen (c_payload k)) (c_at k) (c_age k).

Section Refinement.
Context {R : Type} `{RngLaws R}.

Definition latest (h : history) : option Z := match h with [] => None | x :: _ => Some (a_at x.1) end.

(** The state is a function of the history. *)
Record follows (c : WorkloadConfig) (h : history) (w : WorkloadMorphology R) : Prop := {
  f_config : wl_config w = c;
  f_thresholds : thresholds w = AdaptiveMorphologyConfig_default;
  f_profile : profile (wl_engine w) = profile_of h;
  f_histogram : size_histogram (wl_engine w) = None;
  f_latest : wl_last_observation w = latest h;
  f_switch : last_switch w = changed_at h;
  f_average : wl_ewma w = average h;
  f_burst : burst_length (wl_metrics w) = burst_of c h;
  f_switches : wm_switches (wl_metrics w) = Z.min u64_max (changes h);
  f_observations : wm_observations (wl_metrics w) = Z.min u64_max (zlen h);
  f_order : match changed_at h, latest h with Some s, Some l => s <= l | None, None => True | _, _ => False end
}.

Lemma burst_bounds c h : 0 <= burst_of c h <= 1024.
Proof.
  induction h as [|x older IH]; [done|]. cbn [burst_of]. destruct older as [|y older]; [done|]. case_if; lia.
Qed.

Lemma changes_nonneg h : 0 <= changes h.
Proof. induction h as [|x older IH]; cbn [changes]; [done|]. destruct (switched_at x older); lia. Qed.

Lemma next_burst_ok c h w at_ p : follows c h w -> (forall l, latest h = Some l -> l <= at_) ->
  next_burst at_ w = Ok (burst_of c ((mkArrival p at_ 0, profile_of h) :: h)).
Proof.
  intros [Hc _ _ _ Hl _ _ Hb _ _ _] Hat. unfold next_burst. rewrite Hl, Hc, Hb. cbn [burst_of].
  destruct h as [|y older]; [done|]. cbn [latest] in *. unfold duration_sub. rewrite (proj2 (Z.leb_le _ _)) by (by apply Hat).
  cbn [rbind fst a_at]. pose proof (burst_bounds c (y :: older)). unfold saturating_add, u32_max.
  case_if; [|done]. f_equal. lia.
Qed.

Lemma origin_spec c h w at_ : follows c h w -> dwell_origin at_ w = default at_ (changed_at h).
Proof.
  intros [_ _ _ _ Hl Hs _ _ _ _ Ho]. unfold dwell_origin. rewrite Hs, Hl.
  destruct (changed_at h); [done|]. by destruct (latest h).
Qed.
Lemma count_changes x n : 0 <= n -> x = Z.min u64_max n -> count x = Z.min u64_max (n + 1).
Proof. unfold count, saturating_add. lia. Qed.

(** What the state becomes when a datagram was sent. *)
Lemma follows_sent c h w a e next reason suppressed burst : follows c h w ->
  (forall l, latest h = Some l -> l <= a_at a) ->
  profile e = next -> size_histogram e = None -> burst = burst_of c ((a, next) :: h) ->
  let switched := negb (bool_decide (next = profile_of h)) in
  follows c ((a, next) :: h)
    (mkWorkloadMorphology e (wl_config w) (thresholds w) (Some (a_at a))
       (if switched then Some (a_at a) else match last_switch w with None => Some (a_at a) | s => s end)
       (ewma_update (a_bytes a) (wl_ewma w)) (tally switched suppressed reason burst (wl_metrics w))).
Proof.
  intros [Hc Ht Hp Hh Hl Hs Ha Hb Hsw Ho Hor] Hat He Heh Hbu switched. pose proof (changes_nonneg h) as Hn.
  assert (switched_at (a, next) h = switched) as Esw by done.
  split; cbn [wl_config thresholds wl_engine wl_last_observation last_switch wl_ewma wl_metrics profile_of latest fst snd
    average fold_right changed_at changes tally wm_switches wm_observations burst_length]; try done.
  - rewrite Esw, Hs. by destruct switched.
  - by rewrite Ha.
  - rewrite Esw. destruct switched; [rewrite Z.add_comm; by apply count_changes|by rewrite Z.add_0_l].
  - rewrite zlen_cons, Z.add_comm. apply count_changes; [apply zlen_nonneg|done].
  - rewrite Esw. destruct switched; [lia|]. destruct (changed_at h) as [s|]; [|lia].
    destruct (latest h) as [l|]; [|done]. specialize (Hat l eq_refl). lia.
Qed.

Lemma after_encode_keeps (e : MorphologyEngine R) r n t :
  profile (after_encode e r n t) = profile e /\ size_histogram (after_encode e r n t) = size_histogram e.
Proof. unfold after_encode. by case_if. Qed.

Lemma wl_step k c h w : follows c h w ->
  let '(res, w') := wl_call k w in
  match res with
  | Ok d =>
      follows c ((arrival k, next_of c h (arrival k)) :: h) w' /\
      decode_datagram d (c_mtu k) = Ok (c_payload k) /\ zlen d <= c_mtu k /\
      (forall l, latest h = Some l -> l <= c_at k) /\ c_age k <= c_at k
  | Err _ => follows c h w'
  | Panic => False
  end.
Proof.
  intros Hf. destruct k as [payload mtu at_ age]. unfold wl_call, wl_encode. cbn [c_payload c_mtu c_at c_age].
  destruct (validate_payload_cases (zlen payload) mtu (zlen_nonneg payload)) as [[Hfit ->]|[_ [err ->]]]; cbn [sbind]; [|done].
  rewrite (f_latest c h w Hf). destruct (_ || _) eqn:Hmono; [done|]. apply orb_false_iff in Hmono as [Hm Hage]. bool_prop.
  assert (forall l, latest h = Some l -> l <= at_) as Hat by (intros l El; rewrite El in Hm; bool_prop; lia).
  rewrite (next_burst_ok c h w at_ (zlen payload) Hf Hat). cbn [sbind].
  pose proof (origin_spec c h w at_ Hf) as Eor. rewrite (f_profile c h w Hf), (f_thresholds c h w Hf), (f_config c h w Hf), (f_average c h w Hf).
  set (a := mkArrival (zlen payload) at_ age). change (burst_of c ((mkArrival (zlen payload) at_ 0, profile_of h) :: h)) with (burst_of c ((a, profile_of h) :: h)).
  set (burst := burst_of c _). set (ewma := ewma_update (zlen payload) (average h)).
  destruct (choose_profile c AdaptiveMorphologyConfig_default (profile_of h) ewma burst age) as [next reason] eqn:Ech.
  assert (default at_ (changed_at h) <= at_) as Hle.
  { pose proof (f_order c h w Hf) as Hor. destruct (changed_at h) as [s|]; cbn; [|lia].
    destruct (latest h) as [l|]; [|done]. specialize (Hat l eq_refl). lia. }
  rewrite Eor. unfold duration_sub. rewrite (proj2 (Z.leb_le (default at_ (changed_at h)) at_)) by done.
  set (dwelt := if bool_decide (next = profile_of h) then 0 else at_ - default at_ (changed_at h)).
  assert ((if bool_decide (next = profile_of h) then Ok 0 else Ok (at_ - default at_ (changed_at h))) = Ok dwelt) as ->
    by (unfold dwelt; by destruct (bool_decide _)). cbn [sbind].
  set (suppressed := negb _ && _).
  assert ((if suppressed then profile_of h else next) = next_of c h a) as En.
  { unfold next_of, suppressed, dwelt.
    change (a_bytes a) with (zlen payload). change (a_at a) with at_. change (a_age a) with age. fold burst ewma. rewrite Ech. cbn [fst].
    destruct (decide (next = profile_of h)) as [->|Hne].
    { rewrite bool_decide_eq_true_2 by done. cbn [negb andb]. destruct (at_ - default at_ (changed_at h) <? minimum_dwell c); reflexivity. }
    rewrite bool_decide_eq_false_2 by done. cbn [negb andb]. destruct (at_ - default at_ (changed_at h) <? minimum_dwell c); reflexivity. }
  rewrite En. set (nx := next_of c h a) in *.
  destruct (encode_datagram_cases payload mtu (set_profile nx (wl_engine w)) I) as [(Hn & _)|(_ & [[r ->]|(pad & r & t & -> & Hz & Ht & _ & _)])]; [done| |].
  - destruct Hf. split; try done; cbn; by rewrite ?f_histogram0.
  - split; [|split; [|split; [by rewrite Hz|done]]].
    + pose proof (follows_sent c h w a (after_encode (set_profile nx (wl_engine w)) r (zlen payload) t) nx reason suppressed burst Hf Hat) as HF.
      rewrite (f_thresholds c h w Hf), (f_config c h w Hf), (f_average c h w Hf) in HF.
      apply HF; [by rewrite (proj1 (after_encode_keeps _ _ _ _))|by rewrite (proj2 (after_encode_keeps _ _ _ _))|done].
    + apply decode_envelope; [apply Hfit|by rewrite Hz|]. destruct Hfit as (_ & Hpos & _). intros ->. unfold zlen in Hpos. cbn in Hpos. lia.
Qed.
End Refinement.

(** ** Lemmas: histories *)

Section Histories.
Context (c : WorkloadConfig).

Notation later := (fun x y : Arrival * MorphologyProfile => a_at y.1 <= a_at x.1).

(** A history in the order of its clocks, with the specified profiles. *)
Fixpoint lawful (h : history) : Prop :=
  match h with
  | [] => True
  | x :: older => x.2 = next_of c older x.1 /\ Forall (later x) older /\ lawful older
  end.

(** Two changes of profile are at least the minimum dwell apart. *)
Definition spaced (h : history) : Prop :=
  forall newer x between y older, h = newer ++ x :: between ++ y :: older ->
    switched_at x (between ++ y :: older) = true -> switched_at y older = true ->
    a_at y.1 + minimum_dwell c <= a_at x.1.

Lemma changed_since newer y older : lawful (newer ++ y :: older) -> switched_at y older = true ->
  exists s, changed_at (newer ++ y :: older) = Some s /\ a_at y.1 <= s.
Proof.
  induction newer as [|x newer IH]; intros Hl Hy; cbn [app changed_at].
  - rewrite Hy. by eexists.
  - destruct Hl as (_ & Hall & Hl). destruct (IH Hl Hy) as (s & -> & Hs). case_if; [|by eexists].
    eexists. split; [done|]. rewrite Forall_forall in Hall. apply (Hall y). apply elem_of_app. right. constructor.
Qed.

Lemma lawful_tail newer older : lawful (newer ++ older) -> lawful older.
Proof. induction newer as [|x newer IH]; [done|]. intros (_ & _ & Hl). by apply IH. Qed.

Lemma lawful_spaced h : lawful h -> spaced h.
Proof.
  intros Hl newer x between y older -> Hx Hy. apply lawful_tail in Hl as (Ex & _ & Hl).
  destruct (changed_since between y older Hl Hy) as (s & Es & Hs).
  unfold switched_at in Hx. apply negb_true_iff, bool_decide_eq_false in Hx. rewrite Ex in Hx. unfold next_of in Hx.
  rewrite Es in Hx. cbn [default] in Hx. case_if; [done|]. bool_prop. unfold id in *. lia.
Qed.

Lemma lawful_latest h a : lawful h -> (forall l, latest h = Some l -> l <= a_at a) -> lawful ((a, next_of c h a) :: h).
Proof.
  intros Hl Ha. split; [done|]. split; [|done]. destruct h as [|y older]; [constructor|]. specialize (Ha _ eq_refl).
  constructor; [done|]. destruct Hl as (_ & Hall & _). eapply Forall_impl; [exact Hall|]. intros z. cbn in *. lia.
Qed.
End Histories.

Definition wl_delivers (k : WorkloadCall) (d : bytes) : Prop := decode_datagram d (c_mtu k) = Ok (c_payload k) /\ zlen d <= c_mtu k.

Lemma wl_runs {R} `{RngLaws R} c calls h (w : WorkloadMorphology R) : follows c h w -> lawful c h ->
  let out := run wl_call calls w in
  Forall no_panic out.1 /\ Forall2 wl_delivers (sent calls out.1) (oks out.1) /\
  exists h', h' = fold_left (fun h a => (a, next_of c h a) :: h) (map arrival (sent calls out.1)) h /\
    follows c h' out.2 /\ lawful c h'.
Proof.
  revert h w. induction calls as [|k calls IH]; intros h w Hf Hl; [split; [constructor|]; split; [constructor|]; by exists h|].
  cbv zeta. rewrite run_cons. cbn [fst snd]. pose proof (wl_step k c h w Hf) as Hstep.
  destruct (wl_call k w) as [[d|e|] w']; cbn [fst snd] in *; [| |done].
  - destruct Hstep as (Hf' & Hd & Hz & Hlat & _). pose proof (lawful_latest c h (arrival k) Hl Hlat) as Hl'.
    destruct (IH _ w' Hf' Hl') as (Hn & Hdel & Hh). rewrite sent_cons, oks_cons_ok. cbn [is_ok app map fold_left].
    split; [by constructor|]. split; [by constructor|exact Hh].
  - destruct (IH h w' Hstep Hl) as (Hn & Hdel & Hh). rewrite sent_cons, oks_cons_err. cbn [is_ok app].
    split; [by constructor|]. by split.
Qed.

(** ** Properties *)

(** C25: the workload engine follows the specification of the whole history.
    Over any calls with any payloads, path sizes, clock readings and queue ages
    and any generator, no call panics; every datagram sent fits its path and
    decodes to its payload; and the profile, the average, the burst length and
    the numbers of payloads and of changes are those computed from the calls that were sent
    alone: the latest burst, the average of the lengths, the profile wanted for
    them and the time of the last change.  Failed calls count for nothing.  Two
    changes of profile are at least the minimum dwell apart. *)
Theorem workload_refines_history {R} `{RngLaws R} c seeded (w : WorkloadMorphology R) calls :
  workload_new c seeded = Ok w ->
  let out := run wl_call calls w in
  let h := history_of c (map arrival (sent calls out.1)) in
  Forall no_panic out.1 /\ Forall2 wl_delivers (sent calls out.1) (oks out.1) /\
  profile (wl_engine out.2) = profile_of h /\ wl_ewma out.2 = average h /\
  burst_length (wl_metrics out.2) = burst_of c h /\ last_switch out.2 = changed_at h /\
  wm_switches (wl_metrics out.2) = Z.min u64_max (changes h) /\
  wm_observations (wl_metrics out.2) = Z.min u64_max (zlen h) /\
  spaced c h.
Proof.
  intros Hw out h. unfold workload_new in Hw. apply rbind_ok in Hw as ([] & _ & [= <-]).
  assert (follows c [] (mkWorkloadMorphology (engine_new TunedLowLatency seeded) c AdaptiveMorphologyConfig_default None None 0
    WorkloadMetrics_default)) as Hf by done.
  destruct (wl_runs c calls [] _ Hf I) as (Hn & Hd & h' & Eh & [_ _ Hp _ _ Hs Ha Hb Hsw Ho _] & Hl).
  fold out in Hn, Hd, Eh, Hp, Hs, Ha, Hb, Hsw, Ho. assert (h' = h) as -> by exact Eh.
  split_and!; try done. by apply lawful_spaced.
Qed.

(** ** Witnesses *)

Module Witnesses.
Import Toy.

(** Large payloads in quick succession, an impossible clock, an empty payload and an old queue. *)
Definition quick : WorkloadConfig := mkWorkloadConfig 1000000 (from_millis 5) 3 (from_millis 10) true true.
Definition start : WorkloadMorphology Z := Eval vm_compute in
  match workload_new quick 5 with Ok w => w | _ => mkWorkloadMorphology (engine_new TunedBulkLab 0) quick AdaptiveMorphologyConfig_default None None 0 WorkloadMetrics_default end.
Definition calls : list WorkloadCall := Eval vm_compute in
  map (fun i => mkWorkloadCall (zreplicate 1300 7) 1472 (from_millis (Z.of_nat i)) 0) (seq 0 12)
  ++ [mkWorkloadCall [1] 1472 0 0; mkWorkloadCall [] 1472 (from_millis 13) 0; mkWorkloadCall [1; 2] 1472 (from_millis 30) (from_millis 11)].

Lemma workload_refines_history_witness :
  map is_ok (run wl_call calls start).1 = replicate 12 true ++ [false; false; true] /\
  profile (wl_engine (run wl_call (take 12 calls) start).2) = TunedBulkLab /\
  profile (wl_engine (run wl_call calls start).2) = profile_of (history_of quick (map arrival (sent calls (run wl_call calls start).1))) /\
  profile_of (history_of quick (map arrival (sent calls (run wl_call calls start).1))) = TunedLowLatency.
Proof.
  split; [vm_compute; reflexivity|]. split; [vm_compute; reflexivity|]. split; [|vm_compute; reflexivity].
  refine (proj1 (proj2 (proj2 (workload_refines_history quick 5 start calls _)))). vm_compute. reflexivity.
Defined.
End Witnesses.
