(* ===== verification/Shroud3.v ===== *)
(** Shroud 3 morphology (shph-transport/src/shroud3.rs): joint size and delay
    profiles, the workload state machine with its confirmations and dwell time,
    the seven-byte envelope and its decoder.  Durations are nanoseconds. *)
From S2P Require Import Prelude Ordering Error Text Primitives.

Definition SHROUD3_MAGIC : bytes := str_bytes "S3".
Definition SHROUD3_VERSION : Z := 1.
Definition SHROUD3_HEADER_BYTES : Z := 7.
Definition MAX_SHROUD3_DATAGRAM_BYTES : Z := u16_max.
Definition MAX_SHROUD3_PADDING_BYTES : Z := 4096.
Definition MAX_SHROUD3_PROFILE_BINS : Z := 64.
Definition millis (m : Z) : Z := m * 1000000.
Definition MAX_SHROUD3_DELAY : Z := millis 100.
Definition WORKLOAD_WINDOW_CAPACITY : Z := 16.
Definition MAX_MINIMUM_DWELL : Z := millis 60000.
Definition MAX_BURST_GAP : Z := millis 1000.
Definition MAX_SUSTAINED_GAP : Z := millis 1000.
Definition MAX_QUEUE_AGE : Z := millis 1000.
Definition MAX_BURST_LENGTH : Z := 1024.
Definition MAX_TRANSITION_CONFIRMATIONS : Z := 16.

(** ** Data *)

Inductive WorkloadMode := Interactive | Bursty | Sustained | QueuePressure.
Inductive TransitionReason := WindowTrend | BurstDensity | PressureReason.

#[export] Instance WorkloadMode_eq_dec : EqDecision WorkloadMode.
Proof. solve_decision. Defined.
#[export] Instance TransitionReason_eq_dec : EqDecision TransitionReason.
Proof. solve_decision. Defined.

Record Observation := mkObservation { observed_at : Z; queue_age : Z }.
Record JointBin := mkJointBin { extra_padding_quanta : Z; shaping_delay : Z; weight : Z }.
Record JointProfile := mkJointProfile { size_quantum : Z; bins : list JointBin }.
Record Profiles := mkProfiles {
  interactive : JointProfile; bursty : JointProfile; sustained : JointProfile; queue_pressure : JointProfile
}.

Record Shroud3Config := mkShroud3Config {
  minimum_dwell : Z;
  burst_gap : Z;
  sustained_activity_gap : Z;
  burst_length_threshold : Z;
  burst_density_threshold_percent : Z;
  queue_age_limit : Z;
  sustained_payload_threshold : Z;
  transition_confirmations : Z;
  max_padding_bytes : Z;
  max_shaping_delay : Z;
  profiles : Profiles
}.

(** [is_power_of_two]: exactly one bit is set. *)
Definition is_power_of_two (x : Z) : bool := (0 <? x) && (Z.land x (x - 1) =? 0).

(** The loop over the bins: the total weight and whether a free choice exists. *)
Fixpoint check_bins (bs : list JointBin) (max_delay total_weight : Z) (has_zero_fallback : bool) : result (Z * bool) :=
  match bs with
  | [] => Ok (total_weight, has_zero_fallback)
  | b :: bs =>
      if weight b =? 0 then Err (Config "Shroud 3 profile weights must be nonzero")
      else if max_delay <? shaping_delay b then Err (Config "Shroud 3 profile delay exceeds its configured maximum")
      else
        let? total_weight := ok_or (checked_add u64_max total_weight (weight b)) (Config "Shroud 3 profile weight overflow") in
        check_bins bs max_delay total_weight
          (has_zero_fallback || ((extra_padding_quanta b =? 0) && (shaping_delay b =? 0)))
  end.

Definition validate_profile (max_delay : Z) (p : JointProfile) : result unit :=
  if negb (in_range 1 256 (size_quantum p)) || negb (is_power_of_two (size_quantum p))
  then Err (Config "Shroud 3 size quantum must be a power of two from 1 through 256")
  else if (zlen (bins p) =? 0) || (MAX_SHROUD3_PROFILE_BINS <? zlen (bins p))
  then Err (Config ("Shroud 3 profile must contain 1 through " +:+ show MAX_SHROUD3_PROFILE_BINS +:+ " bins"))
  else
    let? ' (total_weight, has_zero_fallback) := check_bins (bins p) max_delay 0 false in
    if (total_weight =? 0) || negb has_zero_fallback
    then Err (Config "each Shroud 3 profile needs a zero-padding, zero-delay choice")
    else Ok ().

Definition joint_bins (l : list (Z * Z * Z)) : list JointBin :=
  map (fun '(quanta, delay_micros, w) => mkJointBin quanta (delay_micros * 1000) w) l.

Definition Profiles_default : Profiles := {|
  interactive := mkJointProfile 16 (joint_bins [(0, 0, 50); (0, 250, 20); (1, 500, 20); (4, 1000, 10)]);
  bursty := mkJointProfile 32 (joint_bins [(0, 0, 35); (1, 100, 20); (2, 250, 30); (4, 500, 15)]);
  sustained := mkJointProfile 64 (joint_bins [(0, 0, 20); (1, 100, 20); (2, 250, 30); (4, 500, 30)]);
  queue_pressure := mkJointProfile 16 (joint_bins [(0, 0, 90); (1, 0, 10)])
|}.

Definition Shroud3Config_default : Shroud3Config := {|
  minimum_dwell := millis 100;
  burst_gap := millis 5;
  sustained_activity_gap := millis 250;
  burst_length_threshold := 4;
  burst_density_threshold_percent := 60;
  queue_age_limit := millis 10;
  sustained_payload_threshold := 1024;
  transition_confirmations := 2;
  max_padding_bytes := 1024;
  max_shaping_delay := millis 10;
  profiles := Profiles_default
|}.

Definition validate_config (c : Shroud3Config) : result unit :=
  if (MAX_MINIMUM_DWELL <? minimum_dwell c)
     || (burst_gap c =? 0) || (MAX_BURST_GAP <? burst_gap c)
     || (sustained_activity_gap c =? 0) || (MAX_SUSTAINED_GAP <? sustained_activity_gap c)
     || negb (in_range 2 MAX_BURST_LENGTH (burst_length_threshold c))
     || negb (in_range 1 100 (burst_density_threshold_percent c))
     || (queue_age_limit c =? 0) || (MAX_QUEUE_AGE <? queue_age_limit c)
     || (sustained_payload_threshold c =? 0) || (u16_max <? sustained_payload_threshold c)
     || negb (in_range 1 MAX_TRANSITION_CONFIRMATIONS (transition_confirmations c))
     || (MAX_SHROUD3_PADDING_BYTES <? max_padding_bytes c)
     || (MAX_SHROUD3_DELAY <? max_shaping_delay c)
  then Err (Config "invalid Shroud 3 workload or resource bounds")
  else
    do? validate_profile (max_shaping_delay c) (interactive (profiles c)) ;
    do? validate_profile (max_shaping_delay c) (bursty (profiles c)) ;
    do? validate_profile (max_shaping_delay c) (sustained (profiles c)) ;
    do? validate_profile (max_shaping_delay c) (queue_pressure (profiles c)) ;
    Ok ().

Definition config_profile (mode : WorkloadMode) (c : Shroud3Config) : JointProfile :=
  match mode with
  | Interactive => interactive (profiles c)
  | Bursty => bursty (profiles c)
  | Sustained => sustained (profiles c)
  | QueuePressure => queue_pressure (profiles c)
  end.

Record Shroud3Metrics := mkShroud3Metrics {
  observations : Z;
  switches : Z;
  burst_transitions : Z;
  window_trend_transitions : Z;
  queue_pressure_transitions : Z;
  transition_deferred : Z;
  profile_fallback_frames : Z;
  metric_burst_length : Z;
  payload_bytes : Z;
  wire_bytes : Z;
  padding_bytes : Z;
  total_shaping_delay_nanos : Z;
  min_wire_bytes : option Z;
  max_wire_bytes : option Z;
  last_reason : option TransitionReason
}.

Definition Shroud3Metrics_default : Shroud3Metrics := mkShroud3Metrics 0 0 0 0 0 0 0 0 0 0 0 0 None None None.

Record WindowSample := mkWindowSample { sample_bytes : Z; inter_arrival : option Z }.

Record TransitionPlan := mkTransitionPlan {
  plan_mode : WorkloadMode;
  plan_pending_mode : option WorkloadMode;
  plan_pending_count : Z;
  plan_reason : option TransitionReason;
  plan_deferred : bool
}.

(** ** Classification *)

Definition transition_reason (mode : WorkloadMode) : TransitionReason :=
  match mode with
  | Bursty => BurstDensity
  | QueuePressure => PressureReason
  | Interactive | Sustained => WindowTrend
  end.

(** The counters of [burst_density_percent]. *)
Fixpoint count_intervals (history : list WindowSample) (gap intervals close : Z) : Z * Z :=
  match history with
  | [] => (intervals, close)
  | s :: history =>
      match inter_arrival s with
      | Some i => count_intervals history gap (intervals + 1) (if i <=? gap then close + 1 else close)
      | None => count_intervals history gap intervals close
      end
  end.

Definition burst_density_percent (history : list WindowSample) (gap : Z) : Z :=
  let '(intervals, close) := count_intervals history gap 0 0 in
  if intervals <? 3 then 0 else cast 8 (close * 100 / intervals).

(** The prefix of a fixed array is filled, sorted and indexed at its middle. *)
Definition median_of (l : list Z) : result Z :=
  if WORKLOAD_WINDOW_CAPACITY <? zlen l then Panic
  else index (sort_by Z.compare l) (zlen l / 2).

Definition median_payload_bytes (history : list WindowSample) : result Z :=
  if zlen history =? 0 then Ok 0 else median_of (map sample_bytes history).

Definition median_inter_arrival (history : list WindowSample) : result (option Z) :=
  let intervals := omap inter_arrival history in
  if zlen intervals =? 0 then Ok None else let? m := median_of intervals in Ok (Some m).

Definition classify_workload (c : Shroud3Config) (history : list WindowSample) (burst_length age : Z) : result WorkloadMode :=
  if queue_age_limit c <=? age then Ok QueuePressure
  else if (burst_length_threshold c <=? burst_length)
          && (burst_density_threshold_percent c <=? burst_density_percent history (burst_gap c))
  then Ok Bursty
  else if zlen history <? 4 then Ok Interactive
  else
    let? payload := median_payload_bytes history in
    if payload <? sustained_payload_threshold c then Ok Interactive
    else
      let? gap := median_inter_arrival history in
      Ok (match gap with
          | Some g => if g <=? sustained_activity_gap c then Sustained else Interactive
          | None => Interactive
          end).

(** ** The envelope *)

Definition validate_payload_for_path (payload_len path_mtu : Z) : result Z :=
  if negb (in_range SHROUD3_HEADER_BYTES MAX_SHROUD3_DATAGRAM_BYTES path_mtu)
  then Err (Protocol "Shroud 3 path MTU is outside its supported range")
  else if payload_len =? 0 then Err (Protocol "Shroud 3 payload must not be empty")
  else if u16_max <? payload_len then Err (Protocol "Shroud 3 payload exceeds its length field")
  else
    let? minimum := ok_or (checked_add usize_max payload_len SHROUD3_HEADER_BYTES)
                      (Protocol "Shroud 3 payload length overflow") in
    if path_mtu <? minimum then Err (Protocol "Shroud 3 payload exceeds the negotiated datagram limit")
    else Ok minimum.

Definition validate_datagram_bounds (datagram_len path_mtu : Z) : result unit :=
  if negb (in_range SHROUD3_HEADER_BYTES MAX_SHROUD3_DATAGRAM_BYTES path_mtu)
     || (datagram_len <? SHROUD3_HEADER_BYTES) || (path_mtu <? datagram_len)
  then Err (Protocol "Shroud 3 datagram length is outside the negotiated limit")
  else Ok ().

Definition decode_inner (datagram : bytes) (path_mtu : Z) : result bytes :=
  do? validate_datagram_bounds (zlen datagram) path_mtu ;
  let? magic := slice datagram 0 2 in
  let? version := index datagram 2 in
  if negb (bytes_eqb magic SHROUD3_MAGIC) || negb (version =? SHROUD3_VERSION)
  then Err (Protocol "Shroud 3 envelope version mismatch")
  else
    let? b3 := index datagram 3 in let? b4 := index datagram 4 in
    let payload_len := be_val [b3; b4] in
    let? b5 := index datagram 5 in let? b6 := index datagram 6 in
    let declared_size := be_val [b5; b6] in
    if negb (declared_size =? zlen datagram)
    then Err (Protocol "Shroud 3 datagram size does not match its envelope")
    else
      let? payload_end := ok_or (checked_add usize_max SHROUD3_HEADER_BYTES payload_len)
                            (Protocol "Shroud 3 payload length overflow") in
      if (payload_len =? 0) || (zlen datagram <? payload_end)
         || (MAX_SHROUD3_PADDING_BYTES <? saturating_sub (zlen datagram) payload_end)
      then Err (Protocol "Shroud 3 payload or padding length is invalid")
      else
        let? datagram := copy_within_front datagram SHROUD3_HEADER_BYTES payload_end in
        wipe_truncate datagram payload_len.

(** The buffer of the caller afterwards: cleared on errors. *)
Definition decode_in_place (datagram : bytes) (path_mtu : Z) : result unit * bytes :=
  match decode_inner datagram path_mtu with
  | Ok payload => (Ok (), payload)
  | Err e => (Err e, [])
  | Panic => (Panic, datagram)
  end.

Definition decode (datagram : bytes) (path_mtu : Z) : result bytes :=
  do? validate_datagram_bounds (zlen datagram) path_mtu ;
  match decode_in_place datagram path_mtu with
  | (Ok _, decoded) => Ok decoded
  | (Err e, _) => Err e
  | (Panic, _) => Panic
  end.

(** ** The engine *)

Definition align_up (value quantum : Z) : Z :=
  let remainder := value mod quantum in
  if remainder =? 0 then value else saturating_add usize_max value (quantum - remainder).

Definition shape_target (base quantum : Z) (b : JointBin) : option Z :=
  match checked_mul usize_max (extra_padding_quanta b) quantum with
  | Some extra => checked_add usize_max base extra
  | None => None
  end.

(** The target of a bin, when it is within the limits. *)
Definition bin_target (base quantum minimum max_wire_size : Z) (b : JointBin) : option Z :=
  match shape_target base quantum b with
  | Some target => if (target <? minimum) || (max_wire_size <? target) then None else Some target
  | None => None
  end.

Definition weigh_bins (base quantum minimum max_wire_size : Z) (bs : list JointBin) : Z :=
  fold_left (fun total b =>
    match bin_target base quantum minimum max_wire_size b with
    | Some _ => saturating_add u64_max total (weight b)
    | None => total
    end) bs 0.

Fixpoint pick_bin (base quantum minimum max_wire_size : Z) (bs : list JointBin) (sample : Z) : Z * Z * bool :=
  match bs with
  | [] => (minimum, 0, true)
  | b :: bs =>
      match bin_target base quantum minimum max_wire_size b with
      | None => pick_bin base quantum minimum max_wire_size bs sample
      | Some target =>
          if sample <? weight b then (target, shaping_delay b, false)
          else pick_bin base quantum minimum max_wire_size bs (sample - weight b)
      end
  end.

Section Engine.
Context {R : Type} `{RngOps R}.

Record AdaptiveShroud3 := mkAdaptiveShroud3 {
  config : Shroud3Config;
  rng : R;
  mode : WorkloadMode;
  history : list WindowSample;
  history_len : Z;
  history_next : Z;
  pending_mode : option WorkloadMode;
  pending_count : Z;
  last_observation : option Z;
  last_transition : option Z;
  burst_length : Z;
  pending_delay : Z;
  metrics : Shroud3Metrics
}.

Definition with_rng (c : Shroud3Config) (r : R) : result AdaptiveShroud3 :=
  do? validate_config c ;
  Ok (mkAdaptiveShroud3 c r Interactive (zreplicate WORKLOAD_WINDOW_CAPACITY (mkWindowSample 0 None)) 0 0
        None 0 None None 0 0 Shroud3Metrics_default).

Definition next_delay (e : AdaptiveShroud3) : Z := pending_delay e.

Definition plan_transition (observed : WorkloadMode) (at_ : Z) (e : AdaptiveShroud3) : TransitionPlan :=
  if bool_decide (observed = mode e) then mkTransitionPlan (mode e) None 0 None false
  else if bool_decide (observed = QueuePressure) then mkTransitionPlan observed None 0 (Some PressureReason) false
  else
    let count := if bool_decide (pending_mode e = Some observed) then saturating_add u8_max (pending_count e) 1 else 1 in
    let dwell_elapsed := match last_transition e with
                         | None => true
                         | Some last => minimum_dwell (config e) <=? saturating_sub at_ last
                         end in
    if (transition_confirmations (config e) <=? count) && dwell_elapsed
    then mkTransitionPlan observed None 0 (Some (transition_reason observed)) false
    else mkTransitionPlan (mode e) (Some observed) count None true.

Definition select_joint_shape (c : Shroud3Config) (m : WorkloadMode) (minimum path_mtu : Z) (r : R)
  : result (Z * Z * bool) * R :=
  let profile := config_profile m c in
  let base := align_up minimum (size_quantum profile) in
  let max_wire_size := Z.min path_mtu (saturating_add usize_max minimum (max_padding_bytes c)) in
  let total_weight := weigh_bins base (size_quantum profile) minimum max_wire_size (bins profile) in
  if total_weight =? 0 then (Ok (minimum, 0, true), r)
  else
    let! sample, r := gen_range 0 total_weight r in
    (Ok (pick_bin base (size_quantum profile) minimum max_wire_size (bins profile) sample), r).

Definition bump (x : Z) : Z := saturating_add u64_max x 1.

Definition record (payload_len wire delay burst : Z) (plan : TransitionPlan) (fallback : bool) (m : Shroud3Metrics)
  : Shroud3Metrics := {|
  observations := bump (observations m);
  switches := match plan_reason plan with Some _ => bump (switches m) | None => switches m end;
  burst_transitions :=
    match plan_reason plan with Some BurstDensity => bump (burst_transitions m) | _ => burst_transitions m end;
  window_trend_transitions :=
    match plan_reason plan with Some WindowTrend => bump (window_trend_transitions m) | _ => window_trend_transitions m end;
  queue_pressure_transitions :=
    match plan_reason plan with Some PressureReason => bump (queue_pressure_transitions m) | _ => queue_pressure_transitions m end;
  transition_deferred := saturating_add u64_max (transition_deferred m) (if plan_deferred plan then 1 else 0);
  profile_fallback_frames := if fallback then bump (profile_fallback_frames m) else profile_fallback_frames m;
  metric_burst_length := burst;
  payload_bytes := saturating_add u64_max (payload_bytes m) payload_len;
  wire_bytes := saturating_add u64_max (wire_bytes m) wire;
  padding_bytes := saturating_add u64_max (padding_bytes m) (saturating_sub (saturating_sub wire payload_len) SHROUD3_HEADER_BYTES);
  total_shaping_delay_nanos := saturating_add u128_max (total_shaping_delay_nanos m) delay;
  min_wire_bytes := Some (match min_wire_bytes m with Some c => Z.min c wire | None => wire end);
  max_wire_bytes := Some (match max_wire_bytes m with Some c => Z.max c wire | None => wire end);
  last_reason := match plan_reason plan with Some r => Some r | None => last_reason m end
|}.

(** The writes into the zeroed datagram, up to the padding. *)
Definition write_header (payload : bytes) (minimum payload_len target_len : Z) (datagram : bytes) : result bytes :=
  let? datagram := copy_into datagram 0 2 SHROUD3_MAGIC in
  let? datagram := store datagram 2 SHROUD3_VERSION in
  let? datagram := copy_into datagram 3 5 (be_bytes 2 payload_len) in
  let? datagram := copy_into datagram 5 7 (be_bytes 2 target_len) in
  copy_into datagram SHROUD3_HEADER_BYTES minimum payload.

(** The window after one more sample. *)
Definition observe (payload_len : Z) (o : Observation) (e : AdaptiveShroud3)
  : result (list WindowSample * Z * Z * Z) :=
  let gap := match last_observation e with Some last => Some (observed_at o - last) | None => None end in
  let burst := match gap with
               | Some g => if g <=? burst_gap (config e)
                           then Z.min (saturating_add u32_max (burst_length e) 1) MAX_BURST_LENGTH else 1
               | None => 1
               end in
  let len := Z.min (history_len e + 1) WORKLOAD_WINDOW_CAPACITY in
  let next := (history_next e + 1) mod WORKLOAD_WINDOW_CAPACITY in
  let? h := store (history e) (history_next e) (mkWindowSample payload_len gap) in
  Ok (h, len, next, burst).

(** [encode] up to the point where the state is replaced. *)
Definition encode_step (payload : bytes) (path_mtu : Z) (o : Observation) (e : AdaptiveShroud3)
  : result (bytes * AdaptiveShroud3) :=
  let? minimum := validate_payload_for_path (zlen payload) path_mtu in
  if match last_observation e with Some last => observed_at o <? last | None => false end
  then Err (InvalidArgument "nonmonotonic Shroud 3 observation")
  else
    let? ' (h, len, next, burst) := observe (zlen payload) o e in
    let? window := slice h 0 len in
    let? observed := classify_workload (config e) window burst (queue_age o) in
    let plan := plan_transition observed (observed_at o) e in
    let '(shape, r) := select_joint_shape (config e) (plan_mode plan) minimum path_mtu (rng e) in
    let? ' (target, delay, fallback) := shape in
    let? payload_len := ok_or (try_from u16_max (zlen payload)) (Protocol "Shroud 3 payload length overflow") in
    let? target_len := ok_or (try_from u16_max target) (Protocol "Shroud 3 datagram length overflow") in
    let? datagram := write_header payload minimum payload_len target_len (zreplicate target 0) in
    let? tail := slice_from datagram minimum in
    let '(filled, r) := rng_fill (zlen tail) r in
    match filled with
    | None => Err (Crypto "Shroud 3 padding randomness failed")
    | Some padding =>
        let? datagram := copy_into datagram minimum target padding in
        Ok (datagram, mkAdaptiveShroud3 (config e) r (plan_mode plan) h len next (plan_pending_mode plan)
              (plan_pending_count plan) (Some (observed_at o))
              (match plan_reason plan with Some _ => Some (observed_at o) | None => last_transition e end)
              burst delay (record (zlen payload) target delay burst plan fallback (metrics e)))
    end.

Definition encode (payload : bytes) (path_mtu : Z) (o : Observation) (e : AdaptiveShroud3) : result bytes * AdaptiveShroud3 :=
  match encode_step payload path_mtu o e with
  | Ok (datagram, e') => (Ok datagram, e')
  | Err err => (Err err, e)
  | Panic => (Panic, e)
  end.
End Engine.
Arguments AdaptiveShroud3 : clear implicits.

(** ** Lemmas: the envelope *)

(** The wire layout of a payload followed by padding. *)
Definition s3_envelope (payload padding : bytes) : bytes :=
  SHROUD3_MAGIC ++ [SHROUD3_VERSION] ++ be_bytes 2 (zlen payload)
  ++ be_bytes 2 (7 + zlen payload + zlen padding) ++ payload ++ padding.

Definition s3_path_ok (path_mtu : Z) : Prop := SHROUD3_HEADER_BYTES <= path_mtu <= MAX_SHROUD3_DATAGRAM_BYTES.
Definition s3_fits (payload_len path_mtu : Z) : Prop :=
  s3_path_ok path_mtu /\ 1 <= payload_len /\ 7 + payload_len <= path_mtu.

Lemma zlen_s3_envelope payload padding : zlen (s3_envelope payload padding) = 7 + zlen payload + zlen padding.
Proof.
  unfold s3_envelope. rewrite !zlen_app, !zlen_be_bytes. change (zlen SHROUD3_MAGIC) with 2.
  change (zlen [SHROUD3_VERSION]) with 1. lia.
Qed.

Lemma s3_validate_cases n m : 0 <= n ->
  (s3_fits n m /\ validate_payload_for_path n m = Ok (n + 7)) \/
  (~ s3_fits n m /\ exists e, validate_payload_for_path n m = Err e).
Proof.
  unfold s3_fits, s3_path_ok, validate_payload_for_path, in_range, SHROUD3_HEADER_BYTES, MAX_SHROUD3_DATAGRAM_BYTES, u16_max.
  intros Hn. destruct (Z.leb_spec 7 m); cbn [andb negb]; [|right; split; [lia|by eexists]].
  destruct (Z.leb_spec m 65535); cbn [negb]; [|right; split; [lia|by eexists]].
  destruct (Z.eqb_spec n 0); [right; split; [lia|by eexists]|].
  destruct (Z.ltb_spec 65535 n); [right; split; [lia|by eexists]|].
  unfold checked_add. rewrite (proj2 (Z.leb_le _ _)) by (unfold usize_max, u64_max; lia). cbn [ok_or rbind].
  destruct (Z.ltb_spec m (n + 7)); [right; split; [lia|by eexists]|left]. split; [lia|done].
Qed.

(** Decoding in terms of the header fields. *)
Lemma s3_decode_header m0 m1 v p0 p1 t0 t1 rest path_mtu :
  let d := [m0; m1; v; p0; p1; t0; t1] ++ rest in
  s3_path_ok path_mtu -> zlen d <= path_mtu -> 0 <= be_val [p0; p1] <= u16_max ->
  decode d path_mtu =
    (if negb (bytes_eqb [m0; m1] SHROUD3_MAGIC) || negb (v =? SHROUD3_VERSION)
     then Err (Protocol "Shroud 3 envelope version mismatch")
     else if negb (be_val [t0; t1] =? zlen d)
     then Err (Protocol "Shroud 3 datagram size does not match its envelope")
     else if (be_val [p0; p1] =? 0) || (zlen d <? 7 + be_val [p0; p1])
             || (4096 <? saturating_sub (zlen d) (7 + be_val [p0; p1]))
     then Err (Protocol "Shroud 3 payload or padding length is invalid")
     else Ok (ztake (be_val [p0; p1]) rest)).
Proof.
  intros d Hm Hl Hp. unfold decode, decode_in_place, decode_inner.
  assert (zlen d = 7 + zlen rest) as Hd by (unfold d; rewrite zlen_app; done). pose proof (zlen_nonneg rest).
  assert (validate_datagram_bounds (zlen d) path_mtu = Ok ()) as ->.
  { unfold validate_datagram_bounds, in_range. unfold s3_path_ok, SHROUD3_HEADER_BYTES, MAX_SHROUD3_DATAGRAM_BYTES in *.
    rewrite !(proj2 (Z.leb_le _ _)), !(proj2 (Z.ltb_ge _ _)) by lia. done. }
  cbn [rbind]. replace (slice d 0 2) with (Ok [m0; m1]).
  2:{ symmetry. apply (slice_app 0 2 [] [m0; m1]); done. }
  assert (index d 2 = Ok v /\ index d 3 = Ok p0 /\ index d 4 = Ok p1 /\ index d 5 = Ok t0 /\
          index d 6 = Ok t1) as (-> & -> & -> & -> & ->) by done.
  cbn [rbind]. case_if; [done|]. case_if; [done|]. unfold checked_add. rewrite (proj2 (Z.leb_le _ _))
    by (unfold u16_max, SHROUD3_HEADER_BYTES, usize_max, u64_max in *; lia).
  cbn [ok_or rbind]. unfold SHROUD3_HEADER_BYTES, MAX_SHROUD3_PADDING_BYTES.
  destruct ((be_val [p0; p1] =? 0) || (zlen d <? 7 + be_val [p0; p1])) eqn:E0; cbn [orb]; [done|].
  case_if; [done|]. apply orb_false_iff in E0 as [_ Hle%Z.ltb_ge].
  pose proof (copy_within_front_wipe 7 (7 + be_val [p0; p1]) d) as E.
  replace (7 + be_val [p0; p1] - 7) with (be_val [p0; p1]) in E by lia.
  rewrite E by lia. done.
Qed.

Lemma s3_decode_envelope payload padding path_mtu :
  s3_path_ok path_mtu -> zlen (s3_envelope payload padding) <= path_mtu -> payload <> [] -> zlen padding <= 4096 ->
  decode (s3_envelope payload padding) path_mtu = Ok payload.
Proof.
  intros Hm Hl Hp Hpad. pose proof (zlen_s3_envelope payload padding) as Hz. rewrite Hz in Hl.
  pose proof (zlen_nonneg payload). pose proof (zlen_nonneg padding).
  assert (zlen payload <> 0) by (intros E; by apply zlen_0_inv in E).
  pose proof Hm as [_ Hmax]. unfold MAX_SHROUD3_DATAGRAM_BYTES, u16_max in Hmax.
  destruct (be_bytes_2 (zlen payload)) as (p0 & p1 & Ep & Vp); [lia|].
  destruct (be_bytes_2 (7 + zlen payload + zlen padding)) as (t0 & t1 & Et & Vt); [lia|].
  assert (s3_envelope payload padding = [83; 51; 1; p0; p1; t0; t1] ++ payload ++ padding) as E.
  { unfold s3_envelope. by rewrite Ep, Et. }
  rewrite E in *. rewrite s3_decode_header by (done || rewrite ?Hz, ?Vp; unfold u16_max; lia).
  rewrite Hz, Vp, Vt.
  change (bytes_eqb [83; 51] SHROUD3_MAGIC) with true. change (1 =? SHROUD3_VERSION) with true.
  cbn [negb orb]; cbv iota. rewrite Z.eqb_refl. cbn [negb]; cbv iota. unfold saturating_sub.
  rewrite (proj2 (Z.eqb_neq _ _)) by done. rewrite !(proj2 (Z.ltb_ge _ _)) by lia.
  cbn [orb]; cbv iota. by rewrite ztake_app.
Qed.

Lemma s3_decode_cases d path_mtu : bytes_ok d ->
  (exists e, decode d path_mtu = Err e) \/
  exists payload padding, decode d path_mtu = Ok payload /\
    s3_path_ok path_mtu /\ zlen d <= path_mtu /\ payload <> [] /\ zlen padding <= 4096 /\ d = s3_envelope payload padding.
Proof.
  intros Hb. destruct (validate_datagram_bounds (zlen d) path_mtu) as [[]|e|] eqn:Ev;
    [|left; exists e; unfold decode; by rewrite Ev|unfold validate_datagram_bounds in Ev; by case_if].
  assert (s3_path_ok path_mtu /\ 7 <= zlen d <= path_mtu) as [Hm [H7 Hl]].
  { unfold validate_datagram_bounds, in_range, s3_path_ok in *. case_if; try done. bool_prop.
    unfold SHROUD3_HEADER_BYTES in *. lia. }
  destruct (list_7 d H7) as (m0 & m1 & v & p0 & p1 & t0 & t1 & rest & ->).
  cbn [app] in Hb. rewrite !bytes_ok_cons in Hb. destruct Hb as (_ & _ & _ & B0 & B1 & T0 & T1 & _).
  destruct (be_pair p0 p1 B0 B1) as [Hp Ep]. destruct (be_pair t0 t1 T0 T1) as [_ Et].
  rewrite s3_decode_header by done. clear Ev.
  case_if; [left; eauto|]. case_if; [left; eauto|]. case_if; [left; eauto|].
  rewrite zlen_app in *. change (zlen [m0; m1; v; p0; p1; t0; t1]) with 7 in *.
  apply orb_false_iff in Heqb as [HM%negb_false_iff%bytes_eqb_eq HV%negb_false_iff%Z.eqb_eq].
  apply negb_false_iff, Z.eqb_eq in Heqb0.
  apply orb_false_iff in Heqb1 as [[H0%Z.eqb_neq Hle%Z.ltb_ge]%orb_false_iff Hpad%Z.ltb_ge].
  set (n := be_val [p0; p1]) in *. right. exists (ztake n rest), (zdrop n rest).
  split; [done|]. split; [done|]. split; [lia|].
  assert (zlen (ztake n rest) = n /\ zlen (zdrop n rest) = zlen rest - n) as [H1 H2] by zl.
  split; [intros E; rewrite E, zlen_nil in H1; lia|]. split; [unfold saturating_sub in Hpad; lia|].
  unfold s3_envelope. rewrite H1, H2, Ep.
  replace (7 + n + (zlen rest - n)) with (be_val [t0; t1]) by lia. rewrite Et, ztake_zdrop.
  rewrite <- HM, <- HV. done.
Qed.

(** ** Lemmas: configurations *)

Definition typed_bin (b : JointBin) : Prop :=
  0 <= extra_padding_quanta b <= u16_max /\ 0 <= shaping_delay b /\ 0 <= weight b <= u32_max.
Definition typed_profile (p : JointProfile) : Prop := Forall typed_bin (bins p).
Definition typed_config (c : Shroud3Config) : Prop :=
  0 <= max_padding_bytes c /\ 0 <= max_shaping_delay c /\ 0 <= minimum_dwell c /\
  typed_profile (interactive (profiles c)) /\ typed_profile (bursty (profiles c)) /\
  typed_profile (sustained (profiles c)) /\ typed_profile (queue_pressure (profiles c)).

#[export] Instance typed_bin_dec b : Decision (typed_bin b).
Proof. unfold typed_bin. apply _. Defined.
#[export] Instance typed_config_dec c : Decision (typed_config c).
Proof. unfold typed_config, typed_profile. apply _. Defined.

Lemma check_bins_ok bs max_delay total fb total' fb' : Forall typed_bin bs -> 0 <= total ->
  check_bins bs max_delay total fb = Ok (total', fb') ->
  total <= total' /\ Forall (fun b => shaping_delay b <= max_delay /\ 0 < weight b) bs /\
  (fb' = true -> fb = true \/ exists b, b ∈ bs /\ extra_padding_quanta b = 0 /\ shaping_delay b = 0).
Proof.
  intros Ht. revert total fb. induction Ht as [|b bs [Hq [Hd Hw]] Ht IH]; intros total fb Htot; cbn [check_bins].
  - intros [= <- <-]. split; [lia|]. split; [constructor|by left].
  - case_if; [done|]. case_if; [done|]. unfold checked_add. case_if; cbn [ok_or rbind]; [|done]. bool_prop.
    intros HG. apply IH in HG as (Hle & HF & Hfb); [|lia]. split; [lia|].
    split; [constructor; [split; lia|done]|]. intros Hf. destruct (Hfb Hf) as [Ho|(b' & Hb' & Hz)].
    + apply orb_true_iff in Ho as [|Hz]; [by left|]. bool_prop. right. exists b. split; [left|done].
    + right. exists b'. split; [by right|done].
Qed.

Record profile_ok (max_delay : Z) (p : JointProfile) : Prop := {
  po_quantum : 1 <= size_quantum p <= 256;
  po_bins : Forall (fun b => shaping_delay b <= max_delay /\ 0 < weight b) (bins p);
  po_typed : typed_profile p
}.

Lemma validate_profile_ok max_delay p u : typed_profile p -> validate_profile max_delay p = Ok u -> profile_ok max_delay p.
Proof.
  unfold validate_profile, in_range. intros Ht. case_if; [done|]. case_if; [done|]. bool_prop.
  destruct (check_bins _ _ _ _) as [[total fb]|e|] eqn:E; [|done..]. intros _.
  apply check_bins_ok in E as (_ & HF & _); [|done|done]. split; [lia|done|done].
Qed.

Record config_ok (c : Shroud3Config) : Prop := {
  co_padding : 0 <= max_padding_bytes c <= 4096;
  co_delay : 0 <= max_shaping_delay c <= MAX_SHROUD3_DELAY;
  co_confirmations : 1 <= transition_confirmations c <= 16;
  co_dwell : 0 <= minimum_dwell c;
  co_profile m : profile_ok (max_shaping_delay c) (config_profile m c)
}.

Lemma validate_config_ok c u : typed_config c -> validate_config c = Ok u -> config_ok c.
Proof.
  intros (Tp & Td & Tw & T1 & T2 & T3 & T4). unfold validate_config, in_range. case_if; [done|]. bool_prop.
  unfold MAX_SHROUD3_PADDING_BYTES, MAX_TRANSITION_CONFIRMATIONS in *.
  intros (u1 & E1 & (u2 & E2 & (u3 & E3 & (u4 & E4 & _)%rbind_ok)%rbind_ok)%rbind_ok)%rbind_ok.
  split; [lia|lia|lia|done|]. intros m. destruct m; cbn [config_profile]; by eapply validate_profile_ok.
Qed.

(** ** Lemmas: shapes *)

Lemma align_up_ok value quantum : 0 <= value <= 65535 -> 1 <= quantum <= 256 ->
  value <= align_up value quantum <= value + 256.
Proof.
  intros Hv Hq. unfold align_up, saturating_add. pose proof (Z.mod_pos_bound value quantum).
  destruct (Z.eqb_spec (value mod quantum) 0); unfold usize_max, u64_max; lia.
Qed.

Lemma bin_target_ok base quantum minimum max_wire b t :
  bin_target base quantum minimum max_wire b = Some t -> minimum <= t <= max_wire.
Proof. unfold bin_target. destruct (shape_target base quantum b); [|done]. case_if; [done|]. intros [= <-]. bool_prop. lia. Qed.

Lemma weigh_bins_nonneg base quantum minimum max_wire bs : Forall typed_bin bs ->
  0 <= weigh_bins base quantum minimum max_wire bs.
Proof.
  intros HF. unfold weigh_bins. match goal with |- 0 <= fold_left ?f bs 0 => set (step := f) end.
  assert (forall total, 0 <= total -> 0 <= fold_left step bs total) as HP; [|by apply HP].
  induction HF as [|b bs (_ & _ & Hw) HF IH]; intros total Ht; cbn [fold_left]; [done|].
  apply IH. unfold step. destruct (bin_target _ _ _ _ b); [|done]. unfold saturating_add, u64_max. lia.
Qed.

(** A chosen shape is a target within the limits with the delay of a bin, or the
    exact size without delay. *)
Lemma pick_bin_ok max_delay base quantum minimum max_wire bs sample t d fb :
  Forall (fun b => shaping_delay b <= max_delay /\ 0 < weight b) bs -> Forall typed_bin bs -> 0 <= max_delay ->
  minimum <= max_wire -> pick_bin base quantum minimum max_wire bs sample = (t, d, fb) ->
  minimum <= t <= max_wire /\ 0 <= d <= max_delay.
Proof.
  intros HF HT Hd Hm. revert sample. induction bs as [|b bs IH]; intros sample; cbn [pick_bin].
  - intros [= <- <- _]. lia.
  - apply Forall_cons in HF as [[Hbd _] HF]. apply Forall_cons in HT as [(_ & Hb0 & _) HT].
    destruct (bin_target base quantum minimum max_wire b) as [target|] eqn:E; [|by apply IH].
    case_if; [|by apply IH]. intros [= <- <- _]. apply bin_target_ok in E. lia.
Qed.

Section EngineLemmas.
Context {R : Type} `{RngLaws R}.

Lemma select_ok c m minimum path_mtu (r : R) : config_ok c -> 0 <= minimum <= path_mtu -> path_mtu <= 65535 ->
  exists t d fb r', select_joint_shape c m minimum path_mtu r = (Ok (t, d, fb), r') /\
    minimum <= t <= path_mtu /\ t - minimum <= max_padding_bytes c /\ 0 <= d <= max_shaping_delay c.
Proof.
  intros Hc Hm Hp. unfold select_joint_shape. destruct (co_profile c Hc m) as [Hq HF HT].
  pose proof (co_padding c Hc). pose proof (co_delay c Hc).
  assert (saturating_add usize_max minimum (max_padding_bytes c) = minimum + max_padding_bytes c) as ->
    by (unfold saturating_add, usize_max, u64_max; lia).
  set (profile := config_profile m c) in *. set (mw := Z.min path_mtu (minimum + max_padding_bytes c)).
  pose proof (weigh_bins_nonneg (align_up minimum (size_quantum profile)) (size_quantum profile) minimum mw _ HT) as Hw.
  destruct (Z.eqb_spec (weigh_bins (align_up minimum (size_quantum profile)) (size_quantum profile) minimum mw (bins profile)) 0) as [E|Hne].
  - do 4 eexists. split; [done|]. lia.
  - destruct (gen_range_ok 0 (weigh_bins (align_up minimum (size_quantum profile)) (size_quantum profile) minimum mw (bins profile)) r)
      as (x & r' & -> & _); [lia|]. cbn [sbind].
    destruct (pick_bin _ _ _ _ _ x) as [[t d] fb] eqn:Ep. do 4 eexists. split; [done|].
    apply (pick_bin_ok (max_shaping_delay c)) in Ep; [|done|done|lia|unfold mw; lia]. unfold mw in Ep. lia.
Qed.

(** ** Lemmas: classification *)

Lemma median_of_ok l : l <> [] -> zlen l <= 16 -> exists m, median_of l = Ok m.
Proof.
  intros Hne Hl. unfold median_of. rewrite (proj2 (Z.ltb_ge _ _)) by (unfold WORKLOAD_WINDOW_CAPACITY; lia).
  assert (zlen (sort_by Z.compare l) = zlen l) as E by (unfold zlen; by rewrite (Permutation_length (sort_by_perm Z.compare l))).
  assert (0 < zlen l) by (pose proof (zlen_nonneg l); assert (zlen l <> 0) by (intros E0; by apply zlen_0_inv in E0); lia).
  destruct (index_ok (sort_by Z.compare l) (zlen l / 2)) as (m & Em & _); [|by exists m].
  rewrite E. Z.div_mod_to_equations; lia.
Qed.

Lemma zlen_omap {A B} (f : A -> option B) l : zlen (omap f l) <= zlen l.
Proof.
  induction l as [|a l IH]; [done|]. rewrite zlen_cons. cbn. destruct (f a); [|lia].
  change (zlen (b :: omap f l) <= 1 + zlen l). rewrite zlen_cons. lia.
Qed.

Lemma classify_ok c window burst age : zlen window <= 16 ->
  exists m, classify_workload c window burst age = Ok m /\ (m = QueuePressure <-> queue_age_limit c <= age).
Proof.
  intros Hl. unfold classify_workload. destruct (Z.leb_spec (queue_age_limit c) age); [by exists QueuePressure|].
  assert (forall m, m <> QueuePressure -> (m = QueuePressure <-> queue_age_limit c <= age)) as Hno by (intros; split; [done|lia]).
  case_if; [exists Bursty; split; [done|by apply Hno]|].
  destruct (Z.ltb_spec (zlen window) 4); [exists Interactive; split; [done|by apply Hno]|].
  unfold median_payload_bytes. destruct (Z.eqb_spec (zlen window) 0); [lia|].
  assert (zlen (map sample_bytes window) = zlen window) as El by (unfold zlen; by rewrite length_map).
  destruct (median_of_ok (map sample_bytes window)) as (p & ->); [intros E; rewrite E, zlen_nil in El; lia|lia|].
  cbn [rbind]. case_if; [exists Interactive; split; [done|by apply Hno]|].
  unfold median_inter_arrival. pose proof (zlen_omap inter_arrival window). destruct (Z.eqb_spec (zlen (omap inter_arrival window)) 0) as [|Hne].
  { cbn [rbind]. exists Interactive. split; [done|by apply Hno]. }
  destruct (median_of_ok (omap inter_arrival window)) as (g & ->); [intros E; rewrite E, zlen_nil in Hne; done|lia|].
  cbn [rbind]. destruct (g <=? _); [exists Sustained|exists Interactive]; (split; [done|by apply Hno]).
Qed.
End EngineLemmas.

(** ** Lemmas: the engine *)

Section EncodeLemmas.
Context {R : Type} `{RngLaws R}.

Record s3_wf (e : AdaptiveShroud3 R) : Prop := {
  wf_config : config_ok (config e);
  wf_history : zlen (history e) = 16;
  wf_len : 0 <= history_len e <= 16;
  wf_next : 0 <= history_next e < 16;
  wf_delay : 0 <= pending_delay e <= max_shaping_delay (config e)
}.

(** The mode a call observes. *)
Definition observed_mode (payload_len : Z) (o : Observation) (e : AdaptiveShroud3 R) : result WorkloadMode :=
  let? ' (h, len, _, burst) := observe payload_len o e in
  let? window := slice h 0 len in
  classify_workload (config e) window burst (queue_age o).

Lemma s3_write_header_ok payload target : zlen payload <= u16_max -> 7 + zlen payload <= target ->
  write_header payload (zlen payload + 7) (zlen payload) target (zreplicate target 0) =
    Ok ((SHROUD3_MAGIC ++ [SHROUD3_VERSION] ++ be_bytes 2 (zlen payload) ++ be_bytes 2 target ++ payload)
        ++ zreplicate (target - (7 + zlen payload)) 0).
Proof.
  intros Hp Ht. pose proof (zlen_nonneg payload). unfold write_header.
  pose proof (copy_into_zeros 0 2 target [] SHROUD3_MAGIC eq_refl eq_refl ltac:(lia)) as E0. cbn [app] in E0.
  rewrite E0. cbn [rbind].
  rewrite store_zeros by (done || (change (zlen SHROUD3_MAGIC) with 2; lia)). cbn [rbind].
  rewrite copy_into_zeros by (change (zlen SHROUD3_MAGIC) with 2 in *; rewrite ?zlen_app, ?zlen_be_bytes; (done || lia)).
  cbn [rbind].
  rewrite copy_into_zeros by (rewrite ?zlen_app, ?zlen_be_bytes; (done || lia)). cbn [rbind]. unfold SHROUD3_HEADER_BYTES.
  rewrite copy_into_zeros by (rewrite ?zlen_app, ?zlen_be_bytes; change (zlen SHROUD3_MAGIC) with 2;
    change (zlen [SHROUD3_VERSION]) with 1; lia).
  f_equal. rewrite <- !app_assoc. do 6 f_equal. lia.
Qed.

(** What a successful call leaves in the state machine. *)
Record advanced (e : AdaptiveShroud3 R) (o : Observation) (observed : WorkloadMode) (e' : AdaptiveShroud3 R) : Prop := {
  ad_config : config e' = config e;
  ad_mode : mode e' = plan_mode (plan_transition observed (observed_at o) e);
  ad_pending : pending_mode e' = plan_pending_mode (plan_transition observed (observed_at o) e);
  ad_count : pending_count e' = plan_pending_count (plan_transition observed (observed_at o) e);
  ad_time : last_observation e' = Some (observed_at o);
  ad_transition : last_transition e' =
    match plan_reason (plan_transition observed (observed_at o) e) with
    | Some _ => Some (observed_at o)
    | None => last_transition e
    end
}.

Definition monotone (o : Observation) (e : AdaptiveShroud3 R) : Prop :=
  match last_observation e with Some last => last <= observed_at o | None => True end.

Lemma observe_ok payload_len o e : s3_wf e ->
  exists h len next burst, observe payload_len o e = Ok (h, len, next, burst) /\
    zlen h = 16 /\ 0 <= len <= 16 /\ 0 <= next < 16.
Proof.
  intros [Hc Hh Hl Hn Hd]. unfold observe, store, copy_into.
  rewrite !(proj2 (Z.leb_le _ _)) by lia. rewrite (proj2 (Z.eqb_eq _ _)) by (change (zlen [_]) with 1; lia). cbn [andb rbind].
  do 4 eexists. split; [done|]. unfold WORKLOAD_WINDOW_CAPACITY. split; [|split; [lia|apply Z.mod_pos_bound; lia]].
  rewrite !zlen_app. change (zlen [_]) with 1. zl.
Qed.

Lemma s3_encode_cases payload path_mtu o e : s3_wf e ->
  (exists err, encode payload path_mtu o e = (Err err, e) /\
     (~ s3_fits (zlen payload) path_mtu \/ ~ monotone o e \/ err = Crypto "Shroud 3 padding randomness failed")) \/
  exists padding e' observed, encode payload path_mtu o e = (Ok (s3_envelope payload padding), e') /\
    s3_fits (zlen payload) path_mtu /\ monotone o e /\ bytes_ok padding /\
    zlen padding <= max_padding_bytes (config e) /\ zlen (s3_envelope payload padding) <= path_mtu /\
    observed_mode (zlen payload) o e = Ok observed /\ (observed = QueuePressure <-> queue_age_limit (config e) <= queue_age o) /\
    advanced e o observed e' /\ s3_wf e'.
Proof.
  intros [Hc Hh Hl Hn Hd]. unfold encode, encode_step. pose proof (zlen_nonneg payload) as Hp0.
  destruct (s3_validate_cases (zlen payload) path_mtu Hp0) as [[Hf ->]|[Hnf [err ->]]];
    [|left; exists err; split; [done|by left]]. cbn [rbind].
  pose proof Hf as ((_ & Hmax) & Hp1 & Hfit). unfold MAX_SHROUD3_DATAGRAM_BYTES, u16_max in Hmax.
  destruct (match last_observation e with Some last => observed_at o <? last | None => false end) eqn:Em.
  { left. eexists. split; [done|]. right. left. unfold monotone. destruct (last_observation e); [|done]. bool_prop. lia. }
  assert (monotone o e) as Hmono by (unfold monotone; destruct (last_observation e); [bool_prop; lia|done]).
  unfold observed_mode. destruct (observe_ok (zlen payload) o e) as (h & len & next & burst & -> & Hzh & Hlen & Hnext); [by split|].
  cbn [rbind]. rewrite slice_ok by lia. cbn [rbind].
  destruct (classify_ok (config e) (ztake (len - 0) (zdrop 0 h)) burst (queue_age o)) as (observed & -> & Hq); [zl|].
  cbn [rbind]. set (plan := plan_transition observed (observed_at o) e).
  destruct (select_ok (config e) (plan_mode plan) (zlen payload + 7) path_mtu (rng e) Hc) as (t & d & fb & r & -> & Ht & Hpad & Hdel); [lia..|].
  cbn [rbind]. unfold try_from. rewrite !(proj2 (Z.leb_le _ _)) by (unfold u16_max; lia). cbn [ok_or rbind].
  rewrite s3_write_header_ok by (unfold u16_max; lia). cbn [rbind]. set (pre := SHROUD3_MAGIC ++ _). set (n := t - (7 + zlen payload)).
  assert (zlen pre = zlen payload + 7) as Hpre.
  { unfold pre. rewrite !zlen_app, !zlen_be_bytes. change (zlen SHROUD3_MAGIC) with 2. change (zlen [SHROUD3_VERSION]) with 1. lia. }
  rewrite slice_from_ok by (rewrite zlen_app, zlen_zreplicate; lia). cbn [rbind]. rewrite zdrop_app by done.
  rewrite zlen_zreplicate, Z.max_r by lia. pose proof (rng_fill_len n r) as Hfill.
  destruct (rng_fill n r) as [[padding|] r1]; [|left; eexists; split; [done|right; by right]].
  destruct (Hfill padding eq_refl) as [Hlp Hb]. rewrite Z.max_r in Hlp by lia. right.
  pose proof (copy_into_tail (zlen payload + 7) n pre padding Hpre Hlp) as Ec.
  replace (zlen payload + 7 + n) with t in Ec by lia. rewrite Ec. cbn [rbind].
  assert (pre ++ padding = s3_envelope payload padding) as ->.
  { unfold pre, s3_envelope. rewrite Hlp. replace (7 + zlen payload + n) with t by lia. by rewrite <- !app_assoc. }
  do 3 eexists. split; [done|]. split; [done|]. split; [done|]. split; [done|]. split; [lia|].
  split; [rewrite zlen_s3_envelope; lia|]. split; [done|]. split; [done|]. split; [by split|]. by split.
Qed.
End EncodeLemmas.

(** ** The workload machine, from the history *)

(** One successful call: when, how long the payload had queued, what was observed
    and the mode afterwards. *)
Record Step := mkStep { step_at : Z; step_age : Z; step_observed : WorkloadMode; step_mode : WorkloadMode }.

Section History.
Variable c : Shroud3Config.

(** Histories are newest first. *)
Definition current (seen : list Step) : WorkloadMode :=
  match seen with [] => Interactive | s :: _ => step_mode s end.

(** How many of the latest calls in a row observed [m]. *)
Fixpoint run_of (m : WorkloadMode) (seen : list Step) : Z :=
  match seen with
  | [] => 0
  | s :: older => if bool_decide (step_observed s = m) then 1 + run_of m older else 0
  end.

(** When the mode last changed. *)
Fixpoint last_switch (seen : list Step) : option Z :=
  match seen with
  | [] => None
  | s :: older => if bool_decide (step_mode s = current older) then last_switch older else Some (step_at s)
  end.

(** The mode after a call: queue pressure at once; another mode after enough
    observations of it in a row, and not before the dwell time has passed since
    the last change. *)
Definition spec_mode (at_ : Z) (observed : WorkloadMode) (older : list Step) : WorkloadMode :=
  if bool_decide (observed = current older) then observed
  else if bool_decide (observed = QueuePressure) then QueuePressure
  else if (transition_confirmations c <=? 1 + run_of observed older)
          && match last_switch older with None => true | Some t => minimum_dwell c <=? at_ - t end
  then observed else current older.

Fixpoint conforms (seen : list Step) : Prop :=
  match seen with
  | [] => True
  | s :: older =>
      step_mode s = spec_mode (step_at s) (step_observed s) older /\
      (step_observed s = QueuePressure <-> queue_age_limit c <= step_age s) /\
      match older with [] => True | s' :: _ => step_at s' <= step_at s end /\
      conforms older
  end.

Lemma last_switch_before seen s t : conforms (s :: seen) -> last_switch (s :: seen) = Some t -> t <= step_at s.
Proof.
  revert s. induction seen as [|s' seen IH]; intros s (_ & _ & Ht & Hc); cbn [last_switch].
  - case_bool_decide; [done|]. intros [= <-]. lia.
  - case_bool_decide; [|intros [= <-]; lia]. intros Hl. specialize (IH s' Hc Hl). lia.
Qed.

Lemma run_of_nonneg m seen : 0 <= run_of m seen.
Proof. induction seen as [|s seen IH]; cbn [run_of]; [done|]. case_bool_decide; lia. Qed.
End History.

Section Machine.
Context {R : Type} `{RngLaws R}.

Fixpoint s3_trace (calls : list (bytes * Z * Observation)) (e : AdaptiveShroud3 R) (seen : list Step)
  : list Step * AdaptiveShroud3 R :=
  match calls with
  | [] => (seen, e)
  | (payload, path_mtu, o) :: calls =>
      let '(res, e') := encode payload path_mtu o e in
      s3_trace calls e'
        (match res, observed_mode (zlen payload) o e with
         | Ok _, Ok w => mkStep (observed_at o) (queue_age o) w (mode e') :: seen
         | _, _ => seen
         end)
  end.

(** The engine's counters against the history. *)
Record tracks (c : Shroud3Config) (e : AdaptiveShroud3 R) (seen : list Step) : Prop := {
  tr_config : config e = c;
  tr_mode : mode e = current seen;
  tr_time : last_observation e = match seen with [] => None | s :: _ => Some (step_at s) end;
  tr_switch : last_transition e = last_switch seen;
  tr_pending : match seen with
    | [] => pending_mode e = None
    | s :: _ => if bool_decide (step_observed s = mode e) then pending_mode e = None
                else pending_mode e = Some (step_observed s) /\ pending_count e = Z.min 255 (run_of (step_observed s) seen)
    end;
  tr_conforms : conforms c seen
}.

(** The count of a pending mode is the length of its run. *)
Lemma pending_run c e seen observed : tracks c e seen -> observed <> mode e ->
  (if bool_decide (pending_mode e = Some observed) then saturating_add u8_max (pending_count e) 1 else 1)
  = Z.min 255 (1 + run_of observed seen).
Proof.
  intros Ht Hne. pose proof (tr_pending c e seen Ht) as Hp. destruct seen as [|s older]; [by rewrite Hp|].
  pose proof (run_of_nonneg (step_observed s) older) as Hr. cbn [run_of] in Hp |- *.
  rewrite (bool_decide_eq_true_2 (step_observed s = step_observed s)) in Hp by done.
  case_bool_decide as E1; [rewrite Hp, bool_decide_eq_false_2 by done; rewrite bool_decide_eq_false_2 by congruence; done|].
  destruct Hp as [-> ->]. destruct (decide (step_observed s = observed)) as [<-|Hne'].
  - rewrite !bool_decide_eq_true_2 by done. unfold saturating_add, u8_max. lia.
  - rewrite (bool_decide_eq_false_2 (step_observed s = observed)) by done.
    rewrite bool_decide_eq_false_2 by congruence. done.
Qed.

Lemma tracks_step c e seen o observed e' : config_ok c -> tracks c e seen -> monotone o e ->
  (observed = QueuePressure <-> queue_age_limit c <= queue_age o) -> advanced e o observed e' ->
  tracks c e' (mkStep (observed_at o) (queue_age o) observed (mode e') :: seen).
Proof.
  intros Hc Ht Hm Hq [Ac Am Ap An At Al]. pose proof (pending_run c e seen observed Ht) as Hrun.
  destruct Ht as [Tc Tm Tt Ts Tp Tf].
  assert (Hspec : mode e' = spec_mode c (observed_at o) observed seen /\
    last_transition e' = (if bool_decide (mode e' = current seen) then last_switch seen else Some (observed_at o)) /\
    (if bool_decide (observed = mode e') then pending_mode e' = None
     else pending_mode e' = Some observed /\ pending_count e' = Z.min 255 (1 + run_of observed seen))).
  { rewrite Am, Ap, An, Al. unfold plan_transition, spec_mode. rewrite Tm, Tc.
    destruct (decide (observed = current seen)) as [E1|E1].
    { rewrite !(bool_decide_eq_true_2 (observed = current seen)) by done. cbn [plan_mode plan_pending_mode plan_pending_count plan_reason].
      by rewrite (bool_decide_eq_true_2 (current seen = current seen)), Ts by done. }
    rewrite !(bool_decide_eq_false_2 (observed = current seen)) by done.
    destruct (decide (observed = QueuePressure)) as [E2|E2].
    { rewrite !(bool_decide_eq_true_2 (observed = QueuePressure)) by done. cbn [plan_mode plan_pending_mode plan_pending_count plan_reason].
      subst observed. rewrite (bool_decide_eq_false_2 (QueuePressure = current seen)) by done.
      by rewrite (bool_decide_eq_true_2 (QueuePressure = QueuePressure)) by done. }
    rewrite !(bool_decide_eq_false_2 (observed = QueuePressure)) by done.
    rewrite Hrun by congruence. pose proof (co_confirmations c Hc) as Hconf.
    assert ((transition_confirmations c <=? Z.min 255 (1 + run_of observed seen))
            = (transition_confirmations c <=? 1 + run_of observed seen)) as ->.
    { destruct (Z.leb_spec (transition_confirmations c) (Z.min 255 (1 + run_of observed seen))),
        (Z.leb_spec (transition_confirmations c) (1 + run_of observed seen)); (done || lia). }
    assert (match last_transition e with None => true | Some last => minimum_dwell c <=? saturating_sub (observed_at o) last end
      = match last_switch seen with None => true | Some t => minimum_dwell c <=? observed_at o - t end) as ->.
    { rewrite Ts. destruct (last_switch seen) as [t|] eqn:El; [|done]. f_equal. unfold saturating_sub.
      destruct seen as [|s older]; [done|]. apply last_switch_before with (c := c) in El; [|done].
      unfold monotone in Hm. rewrite Tt in Hm. lia. }
    destruct (_ && _); cbn.
    - rewrite (bool_decide_eq_false_2 (observed = current seen)), (bool_decide_eq_true_2 (observed = observed)) by done. done.
    - rewrite (bool_decide_eq_true_2 (current seen = current seen)), (bool_decide_eq_false_2 (observed = current seen)) by done.
      by rewrite Ts. }
  destruct Hspec as (S1 & S2 & S3). split; cbn [step_at step_age step_observed step_mode last_switch run_of current].
  - by rewrite Ac.
  - done.
  - done.
  - done.
  - rewrite (bool_decide_eq_true_2 (observed = observed)) by done. done.
  - cbn [conforms step_at step_age step_observed step_mode]. split; [done|]. split; [done|]. split; [|done].
    destruct seen as [|s older]; [done|]. unfold monotone in Hm. by rewrite Tt in Hm.
Qed.

Lemma s3_trace_tracks c calls e seen : s3_wf e -> tracks c e seen ->
  let '(seen', e') := s3_trace calls e seen in s3_wf e' /\ tracks c e' seen'.
Proof.
  revert e seen. induction calls as [|[[payload path_mtu] o] calls IH]; intros e seen Hw Ht; cbn [s3_trace]; [done|].
  destruct (s3_encode_cases payload path_mtu o e Hw) as [(err & -> & _)|(padding & e' & observed & -> & _ & Hm & _ & _ & _ & Eo & Hq & Ha & Hw')].
  - by apply IH.
  - rewrite Eo. apply IH; [done|]. pose proof (tr_config c e seen Ht) as Ec. rewrite Ec in Hq.
    apply (tracks_step c e seen o observed e'); try done. rewrite <- Ec. by apply wf_config.
Qed.

Lemma with_rng_ok c (r : R) e : typed_config c -> with_rng c r = Ok e -> s3_wf e /\ tracks c e [].
Proof.
  intros Hc. unfold with_rng. intros (u & Ev & [= <-])%rbind_ok. apply validate_config_ok in Ev; [|done].
  pose proof (co_delay c Ev). split; split; cbn; (done || lia).
Qed.
End Machine.

(** ** Properties *)

(** C26: Shroud 3 envelopes round-trip.  A new engine is well formed; for any
    well-formed engine, payload and observation, encoding never panics; it
    succeeds exactly for a payload that fits the path observed at a time that
    does not go back, up to a failure of the generator; the datagram then fits
    the path, carries at most the configured padding and decodes to the payload,
    the delay to apply is within the configured maximum and the engine stays
    well formed; a failed call changes nothing. *)
Theorem shroud3_round_trip {R} `{RngLaws R} :
  (forall c (r : R) e, typed_config c -> with_rng c r = Ok e -> s3_wf e) /\
  forall payload path_mtu o (e : AdaptiveShroud3 R), s3_wf e ->
    match encode payload path_mtu o e with
    | (Ok d, e') =>
        s3_fits (zlen payload) path_mtu /\ monotone o e /\ decode d path_mtu = Ok payload /\
        7 + zlen payload <= zlen d <= path_mtu /\ zlen d - (7 + zlen payload) <= max_padding_bytes (config e) /\
        0 <= next_delay e' <= max_shaping_delay (config e) /\ config e' = config e /\ s3_wf e'
    | (Err err, e') =>
        e' = e /\ (s3_fits (zlen payload) path_mtu -> monotone o e -> err = Crypto "Shroud 3 padding randomness failed")
    | (Panic, _) => False
    end.
Proof.
  split; [intros c r e Hc Hr; exact (proj1 (with_rng_ok c r e Hc Hr))|]. intros payload path_mtu o e Hw.
  destruct (s3_encode_cases payload path_mtu o e Hw) as [(err & -> & Hwhy)|(padding & e' & observed & -> & Hf & Hm & Hb & Hpad & Hl & _ & _ & Ha & Hw')].
  - split; [done|]. intros Hf Hm. by destruct Hwhy as [?|[?|?]].
  - pose proof (co_padding _ (wf_config e Hw)). pose proof (ad_config _ _ _ _ Ha) as Ec. rewrite zlen_s3_envelope in *.
    pose proof (zlen_nonneg padding). pose proof Hf as (Hp & Hge1 & _).
    split; [done|]. split; [done|]. split.
    { apply s3_decode_envelope; [done|by rewrite zlen_s3_envelope|intros ->; by rewrite zlen_nil in Hge1|lia]. }
    split; [lia|]. split; [lia|]. split; [|done]. rewrite <- Ec. apply (wf_delay e' Hw').
Qed.

(** Decoding is exact.  On any bytes the Shroud 3 decoder does not panic, and
    it accepts precisely the envelopes of non-empty payloads with at most 4096
    bytes of padding that fit the path, returning the payload. *)
Theorem shroud3_decode_exact d path_mtu payload : bytes_ok d ->
  no_panic (decode d path_mtu) /\
  (decode d path_mtu = Ok payload <->
   s3_path_ok path_mtu /\ zlen d <= path_mtu /\ payload <> [] /\
   exists padding, zlen padding <= MAX_SHROUD3_PADDING_BYTES /\ d = s3_envelope payload padding).
Proof.
  intros Hb. destruct (s3_decode_cases d path_mtu Hb) as [[err E]|(p & padding & E & Hm & Hl & Hp & Hpad & Hd)];
    rewrite E; (split; [done|]); split.
  - done.
  - intros (Hm & Hl & Hp & padding & Hpad & ->). by rewrite s3_decode_envelope in E.
  - intros [= <-]. split; [done|]. split; [done|]. split; [done|]. by exists padding.
  - intros (_ & Hl' & Hp' & padding' & Hpad' & Hd'). rewrite <- E, Hd'.
    apply s3_decode_envelope; [done|by rewrite <- Hd'|done|done].
Qed.

(** the workload machine implements its history specification.  Over any
    calls of a new engine, the mode after each successful call is the one
    [spec_mode] computes from the whole history of observations, although the
    engine only keeps a counter and two timestamps: queue pressure takes effect
    at once and exactly when the payload queued for the limit or longer, any
    other mode after [transition_confirmations] observations of it in a row and
    no sooner than [minimum_dwell] after the last change.  Failed calls count for
    nothing. *)
Theorem shroud3_workload_refines {R} `{RngLaws R} c (r : R) e0 calls : typed_config c -> with_rng c r = Ok e0 ->
  let '(seen, e) := s3_trace calls e0 [] in
  conforms c seen /\ mode e = current seen /\ last_transition e = last_switch seen /\ config e = c.
Proof.
  intros Hc Hr. destruct (with_rng_ok c r e0 Hc Hr) as [Hw Ht].
  pose proof (s3_trace_tracks c calls e0 [] Hw Ht) as HT. destruct (s3_trace calls e0 []) as [seen e].
  destruct HT as [_ [Tc Tm _ Ts _ Tf]]. done.
Qed.

(** ** Witnesses *)

Module Witnesses.
Import Toy.

Lemma default_typed : typed_config Shroud3Config_default.
Proof. by_compute. Qed.

Definition engine0 : AdaptiveShroud3 Z := Eval vm_compute in
  match with_rng Shroud3Config_default 5 with Ok e => e | _ => mkAdaptiveShroud3 Shroud3Config_default 5 Interactive [] 0 0 None 0 None None 0 0 Shroud3Metrics_default end.

Lemma shroud3_round_trip_witness :
  exists d e', encode [10; 20; 30] 1200 (mkObservation 1000 0) engine0 = (Ok d, e') /\ decode d 1200 = Ok [10; 20; 30] /\ s3_wf e'.
Proof.
  destruct (shroud3_round_trip (R := Z)) as [Hnew Henc].
  assert (s3_wf engine0) as Hw by (apply (Hnew Shroud3Config_default 5); [exact default_typed|vm_compute; reflexivity]).
  specialize (Henc [10; 20; 30] 1200 (mkObservation 1000 0) engine0 Hw).
  destruct (encode [10; 20; 30] 1200 (mkObservation 1000 0) engine0) as [res e'] eqn:E.
  assert (match res with Ok _ => true | _ => false end = true) as Hres.
  { change res with (res, e').1. rewrite <- E. vm_compute. reflexivity. }
  destruct res as [d| |]; [|done..]. destruct Henc as (_ & _ & Hd & _ & _ & _ & _ & Hw'). exists d, e'. done.
Defined.

Definition datagram : bytes := Eval vm_compute in s3_envelope [7; 8] [1; 2; 3].

Lemma shroud3_decode_exact_witness : decode datagram 100 = Ok [7; 8] /\ zlen datagram <= 100.
Proof.
  assert (bytes_ok datagram) as Hb by by_compute.
  assert (decode datagram 100 = Ok [7; 8]) as E by (vm_compute; reflexivity).
  destruct (shroud3_decode_exact datagram 100 [7; 8] Hb) as [_ HE]. split; [exact E|]. apply HE, E.
Defined.

(** A burst of large payloads, then one that queued too long. *)
Definition workload : list (bytes * Z * Observation) :=
  map (fun i => (zreplicate 1100 i, 1400, mkObservation (i * millis 60) 0)) (seqZ 1 8)
  ++ [([1], 1400, mkObservation (millis 500) (millis 20))].

Lemma shroud3_workload_refines_witness :
  let '(seen, e) := s3_trace workload engine0 [] in
  conforms Shroud3Config_default seen /\ map step_mode seen =
    [QueuePressure; Sustained; Sustained; Sustained; Sustained; Interactive; Interactive; Interactive; Interactive].
Proof.
  pose proof (shroud3_workload_refines Shroud3Config_default 5 engine0 workload default_typed ltac:(vm_compute; reflexivity)) as HT.
  assert (map step_mode (s3_trace workload engine0 []).1 =
    [QueuePressure; Sustained; Sustained; Sustained; Sustained; Interactive; Interactive; Interactive; Interactive]) as Em
    by (vm_compute; reflexivity).
  destruct (s3_trace workload engine0 []) as [seen e]. split; [apply HT|exact Em].
Defined.
End Witnesses.
