(* ===== verification/QuicShim.v ===== *)
(** The experimental QUIC-like datagram shim (shph-transport/src/lib.rs): the
    sender that pads, encrypts, optionally fills a fixed-size Shroud cell and
    sends one length-prefixed UDP datagram, and the receiver that filters
    foreign and invalid datagrams and undoes the layers.  A socket is the log of
    the datagrams sent and the schedule of what [recv_from] returns; an address
    is any type with decidable equality. *)
From Stdlib Require Import Sorted.
From S2P Require Import Prelude Error Text Primitives Replay.
From S2P Require Import Stealth Framing Obfuscation SessionCrypto TcpTransport.

Definition MAX_QUIC_FRAME_BYTES : Z := 16 * 1024.
Definition MAX_QUIC_PAYLOAD_BYTES : Z := MAX_QUIC_FRAME_BYTES - 4 - SHROUD_AEAD_OVERHEAD.
Definition SHROUD_LENGTH_PREFIX : Z := 2.
Definition MAX_QUIC_INVALID_DATAGRAMS_PER_RECV : Z := 8.
Definition QUIC_REPLAY_WINDOW : Z := 128.

(** ** Sockets *)

Section Shim.
Context {A : Type} `{EqDecision A}.

(** The datagrams sent, and the outcome of the next calls of [send_to] ([None]:
    success; an exhausted schedule succeeds). *)
Record UdpTx := mkUdpTx { udp_sent : list (A * bytes); udp_tx_events : list (option IoErrorKind) }.

Definition send_to (packet : bytes) (peer : A) (s : UdpTx) : result unit * UdpTx :=
  match udp_tx_events s with
  | Some kind :: evs => (Err (map_io_error kind), mkUdpTx (udp_sent s) evs)
  | None :: evs => (Ok (), mkUdpTx (udp_sent s ++ [(peer, packet)]) evs)
  | [] => (Ok (), mkUdpTx (udp_sent s ++ [(peer, packet)]) [])
  end.

(** What [recv_from] returns next: a datagram with its source, or an error. *)
Inductive UdpEvent := Datagram (from : A) (data : bytes) | UdpFailed (kind : IoErrorKind).

(** ** Sending *)

Section Sender.
Context {R : Type} `{RngOps R, AeadOps}.

(** [ExperimentalQuicSender]; [q_os_rng] is the operating system's generator. *)
Record QuicSender := mkQuicSender {
  q_socket : UdpTx;
  q_peer : A;
  q_cipher : SendCipher;
  q_shroud_profile : option ShroudProfile;
  q_shroud_rng : option R;
  q_padding_profile : option ProfileTier;
  q_padding_padder : option (ProfilePadder R);
  q_padding_buffer : bytes;
  q_os_rng : R
}.

Definition with_q_socket (t : UdpTx) (s : QuicSender) : QuicSender :=
  mkQuicSender t (q_peer s) (q_cipher s) (q_shroud_profile s) (q_shroud_rng s)
    (q_padding_profile s) (q_padding_padder s) (q_padding_buffer s) (q_os_rng s).
Definition with_q_cipher (c : SendCipher) (s : QuicSender) : QuicSender :=
  mkQuicSender (q_socket s) (q_peer s) c (q_shroud_profile s) (q_shroud_rng s)
    (q_padding_profile s) (q_padding_padder s) (q_padding_buffer s) (q_os_rng s).
Definition with_q_rngs (shroud_rng : option R) (os : R) (s : QuicSender) : QuicSender :=
  mkQuicSender (q_socket s) (q_peer s) (q_cipher s) (q_shroud_profile s) shroud_rng
    (q_padding_profile s) (q_padding_padder s) (q_padding_buffer s) os.
Definition with_q_padding (padder : option (ProfilePadder R)) (buffer : bytes) (os : R)
    (s : QuicSender) : QuicSender :=
  mkQuicSender (q_socket s) (q_peer s) (q_cipher s) (q_shroud_profile s) (q_shroud_rng s)
    (q_padding_profile s) padder buffer os.

(** The padding stage. *)
Definition quic_frame_payload (payload : bytes) (s : QuicSender) : result bytes * QuicSender :=
  match q_padding_profile s, q_padding_padder s with
  | Some _, Some padder =>
      let '(res, (buffer, padder)) := apply_into payload (q_padding_buffer s) padder in
      (rbind res (fun _ => Ok buffer), with_q_padding (Some padder) buffer (q_os_rng s) s)
  | Some profile, None =>
      let '(res, (buffer, r)) :=
        apply_profile_into_with_rng profile payload (q_padding_buffer s) (q_os_rng s) in
      (rbind res (fun _ => Ok buffer), with_q_padding None buffer r s)
  | None, _ => (Ok payload, s)
  end.

(** The random tail of a cell's plaintext, from the session's generator or the
    operating system's. *)
Definition fill_tail (n : Z) (s : QuicSender) : result bytes * QuicSender :=
  match q_shroud_rng s with
  | Some rng =>
      let '(filled, rng) := rng_fill n rng in
      (ok_or filled (Crypto "Shroud padding randomness failed"), with_q_rngs (Some rng) (q_os_rng s) s)
  | None =>
      let '(filled, os) := rng_fill n (q_os_rng s) in
      (ok_or filled (Crypto "Shroud padding randomness failed"), with_q_rngs None os s)
  end.

(** The plaintext of a Shroud cell: a length prefix, the payload, padding. *)
Definition shroud_plaintext (profile : ShroudProfile) (framed : bytes) (s : QuicSender)
  : result bytes * QuicSender :=
  if negb (shroud_is_valid profile) then (Err (Protocol "invalid Shroud profile"), s)
  else
    let! plaintext_capacity, s :=
      (ok_or (checked_sub (payload_capacity profile) SHROUD_AEAD_OVERHEAD)
         (Protocol "Shroud cell too small for AEAD"), s) in
    let! room, s :=
      (ok_or (checked_sub plaintext_capacity SHROUD_LENGTH_PREFIX)
         (Protocol "Shroud cell too small for length prefix"), s) in
    let max_payload := Z.min room (max_payload_chunk profile) in
    if (max_payload <? zlen framed) || (u16_max <? zlen framed)
    then (Err (Protocol "payload exceeds Shroud profile capacity"), s)
    else
      let padded := zreplicate plaintext_capacity 0 in
      let tail_start := SHROUD_LENGTH_PREFIX + zlen framed in
      let! padded, s :=
        (copy_into padded 0 SHROUD_LENGTH_PREFIX (be_bytes 2 (cast 16 (zlen framed))), s) in
      let! padded, s := (copy_into padded SHROUD_LENGTH_PREFIX tail_start framed, s) in
      if deterministic_padding profile then (Ok padded, s)
      else
        let! tail, s := (slice_from padded tail_start, s) in
        let! random, s := fill_tail (zlen tail) s in
        (copy_into padded tail_start (zlen padded) random, s).

Definition quic_encrypt (framed : bytes) (s : QuicSender) : result bytes * QuicSender :=
  let '(res, c) := encrypt framed (q_cipher s) in (res, with_q_cipher c s).

(** Encryption, into a cell when there is a Shroud profile. *)
Definition seal_payload (framed : bytes) (s : QuicSender) : result bytes * QuicSender :=
  match q_shroud_profile s with
  | Some profile =>
      let! padded, s := shroud_plaintext profile framed s in
      let! encrypted, s := quic_encrypt padded s in
      (encode_cell profile SHROUD_FRAME_DATA encrypted, s)
  | None =>
      if MAX_QUIC_PAYLOAD_BYTES <? zlen framed
      then (Err (Protocol ("QUIC payload exceeds the " +:+ show MAX_QUIC_PAYLOAD_BYTES
                           +:+ "-byte frame capacity")), s)
      else quic_encrypt framed s
  end.

Definition quic_send_to (packet : bytes) (s : QuicSender) : result unit * QuicSender :=
  let '(res, t) := send_to packet (q_peer s) (q_socket s) in (res, with_q_socket t s).

(** The guards on the size of a datagram, and sending it. *)
Definition emit (encrypted : bytes) (s : QuicSender) : result unit * QuicSender :=
  if zlen encrypted =? 0 then (Err (Protocol "empty QUIC payload"), s)
  else if MAX_QUIC_FRAME_BYTES <? zlen encrypted
  then (Err (Protocol "QUIC frame exceeds configured size"), s)
  else
    let packet := be_bytes 4 (cast 32 (zlen encrypted)) ++ encrypted in
    if MAX_QUIC_FRAME_BYTES <? zlen packet
    then (Err (Protocol "QUIC frame exceeds transport datagram budget"), s)
    else quic_send_to packet s.

(** [write_encrypted_quic_frame_with_profile]; [ZeroizeOnDrop] empties the
    padding buffer when the call returns. *)
Definition write_encrypted_quic_frame (payload : bytes) (s : QuicSender) : result unit * QuicSender :=
  let '(res, s) :=
    (let! framed, s := quic_frame_payload payload s in
     let! encrypted, s := seal_payload framed s in
     emit encrypted s) in
  (res, with_q_padding (q_padding_padder s) [] (q_os_rng s) s).

(** [ExperimentalQuicSender::send_frame] *)
Definition quic_send_frame (payload : bytes) (s : QuicSender) : result unit * QuicSender :=
  write_encrypted_quic_frame payload s.
End Sender.

(** ** Receiving *)

Section Receiver.
Context `{AeadOps}.

(** Removal of the padding profile. *)
Definition strip_profile (padding_profile : option ProfileTier) (framed : bytes) : result bytes :=
  match padding_profile with
  | Some profile =>
      let '(res, framed) := remove_profile_in_place profile framed in
      rbind res (fun _ => Ok framed)
  | None => Ok framed
  end.

(** The payload in the plaintext of a Shroud cell. *)
Definition shroud_payload (profile : ShroudProfile) (padded : bytes) : result bytes :=
  if zlen padded <? SHROUD_LENGTH_PREFIX
  then Err (Protocol "Shroud payload missing length prefix")
  else
    let? b0 := index padded 0 in
    let? b1 := index padded 1 in
    let payload_len := be_val [b0; b1] in
    if (zlen padded - SHROUD_LENGTH_PREFIX <? payload_len) || (max_payload_chunk profile <? payload_len)
    then Err (Protocol "Shroud payload length exceeds profile capacity")
    else
      let payload_end := SHROUD_LENGTH_PREFIX + payload_len in
      let? padded := copy_within_front padded SHROUD_LENGTH_PREFIX payload_end in
      wipe_truncate padded payload_len.

(** [decode_encrypted_quic_frame_with_profile] *)
Definition decode_encrypted_quic_frame (packet : bytes) (len : Z)
    (shroud_profile : option ShroudProfile) (padding_profile : option ProfileTier)
    (cipher : ReceiveCipher) : result bytes * ReceiveCipher :=
  if negb (in_range 4 MAX_QUIC_FRAME_BYTES len) || negb (zlen packet =? len)
  then (Err (Protocol "invalid QUIC frame length"), cipher)
  else
    let! b0, cipher := (index packet 0, cipher) in
    let! b1, cipher := (index packet 1, cipher) in
    let! b2, cipher := (index packet 2, cipher) in
    let! b3, cipher := (index packet 3, cipher) in
    let payload_len := be_val [b0; b1; b2; b3] in
    if (payload_len =? 0) || (MAX_QUIC_FRAME_BYTES <? payload_len) || negb (4 + payload_len =? len)
    then (Err (Protocol "invalid QUIC payload length"), cipher)
    else
      let! payload, cipher := (slice_from packet 4, cipher) in
      match shroud_profile with
      | Some profile =>
          if negb (shroud_is_valid profile) then (Err (Protocol "invalid Shroud profile"), cipher)
          else
            let! cell, cipher := (decode_cell_payload profile payload, cipher) in
            let! encrypted, cipher :=
              (ok_or cell (Protocol "unexpected shroud chaff frame"), cipher) in
            let! padded, cipher := decrypt encrypted cipher in
            let! framed, cipher := (shroud_payload profile padded, cipher) in
            (strip_profile padding_profile framed, cipher)
      | None =>
          let! framed, cipher := decrypt payload cipher in
          (strip_profile padding_profile framed, cipher)
      end.

(** [ExperimentalQuicReceiver] *)
Record QuicReceiver := mkQuicReceiver {
  qr_events : list UdpEvent;
  qr_peer : A;
  qr_cipher : ReceiveCipher;
  qr_shroud_profile : option ShroudProfile;
  qr_padding_profile : option ProfileTier
}.

Definition QUIC_RECV_BUFFER : Z := MAX_QUIC_FRAME_BYTES + 1.

(** The loop of [read_encrypted_quic_frame], by recursion on the schedule; the
    receive buffer truncates a datagram.  [None]: the call is still blocked in
    [recv_from] when the schedule ends. *)
Fixpoint read_loop (expected_peer : A) (shroud_profile : option ShroudProfile)
    (padding_profile : option ProfileTier) (events : list UdpEvent) (invalid : Z)
    (cipher : ReceiveCipher) : option (result bytes) * (list UdpEvent * ReceiveCipher) :=
  match events with
  | [] => (None, ([], cipher))
  | UdpFailed kind :: events =>
      let err := match kind with
                 | IoTimedOut | IoWouldBlock =>
                     if 0 <? invalid
                     then Protocol "invalid QUIC data datagrams received before timeout"
                     else Timeout
                 | _ => map_io_error kind
                 end in
      (Some (Err err), (events, cipher))
  | Datagram addr data :: events =>
      let packet := ztake QUIC_RECV_BUFFER data in
      let again invalid cipher :=
        if MAX_QUIC_INVALID_DATAGRAMS_PER_RECV <=? invalid
        then (Some (Err (Protocol "too many invalid QUIC data datagrams")), (events, cipher))
        else read_loop expected_peer shroud_profile padding_profile events invalid cipher in
      if negb (bool_decide (addr = expected_peer)) then again (invalid + 1) cipher
      else
        match decode_encrypted_quic_frame packet (zlen packet) shroud_profile padding_profile cipher with
        | (Ok payload, cipher) => (Some (Ok payload), (events, cipher))
        | (Err _, cipher) => again (invalid + 1) cipher
        | (Panic, cipher) => (Some Panic, (events, cipher))
        end
  end.

(** [read_encrypted_quic_frame], and [ExperimentalQuicReceiver::recv_frame]. *)
Definition quic_recv_frame (r : QuicReceiver) : option (result bytes) * QuicReceiver :=
  let '(res, (events, cipher)) :=
    read_loop (qr_peer r) (qr_shroud_profile r) (qr_padding_profile r) (qr_events r) 0 (qr_cipher r) in
  (res, mkQuicReceiver events (qr_peer r) cipher (qr_shroud_profile r) (qr_padding_profile r)).

(** A sequence of receive calls, up to one that is still blocked. *)
Fixpoint quic_recv_calls (n : nat) (r : QuicReceiver) : list (result bytes) * QuicReceiver :=
  match n with
  | O => ([], r)
  | S n' =>
      match quic_recv_frame r with
      | (Some res, r) => let '(rs, r) := quic_recv_calls n' r in (res :: rs, r)
      | (None, r) => ([], r)
      end
  end.
End Receiver.
End Shim.

Arguments UdpTx A : clear implicits.
Arguments UdpEvent A : clear implicits.
Arguments QuicSender A R : clear implicits.
Arguments QuicReceiver A : clear implicits.

(** ** Sessions *)

Section Sessions.
Context {A : Type} {R : Type} `{EqDecision A, RngOps R, AeadOps}.

(** [ExperimentalQuicSession::new] and [into_split]: the two halves. *)
Definition quic_session (socket : UdpTx A) (events : list (UdpEvent A)) (peer : A)
    (send_key recv_key : bytes) (os : R) : QuicSender A R * QuicReceiver A :=
  (mkQuicSender socket peer (SendCipher_new send_key) None None None None [] os,
   mkQuicReceiver events peer (new_with_replay_window recv_key QUIC_REPLAY_WINDOW) None None).

(** [with_quic_profile]; [seeded] and [seeded'] are the fresh generators. *)
Definition with_quic_profile (profile : ShroudProfile) (seeded seeded' : R)
    (p : QuicSender A R * QuicReceiver A) : QuicSender A R * QuicReceiver A :=
  let '(s, r) := p in
  let tier := from_shroud_profile profile in
  let shroud := if is_tuned profile then None else Some profile in
  let rng := if is_tuned profile || deterministic_padding profile then None else Some seeded in
  (mkQuicSender (q_socket s) (q_peer s) (q_cipher s) shroud rng (Some tier)
     (Some (mkProfilePadder tier seeded')) [] (q_os_rng s),
   mkQuicReceiver (qr_events r) (qr_peer r) (qr_cipher r) shroud (Some tier)).
End Sessions.

(** The two halves of a session in a mode: without or with a Shroud profile. *)
Definition quic_pair {A R} `{EqDecision A, RngOps R, AeadOps} (mode : option ShroudProfile)
    (seeded seeded' : R) (p : QuicSender A R * QuicReceiver A) : QuicSender A R * QuicReceiver A :=
  match mode with Some profile => with_quic_profile profile seeded seeded' p | None => p end.

(** ** Lemmas: the layers *)

(** What the receiver makes of a decrypted plaintext. *)
Definition open_plain (shroud : option ShroudProfile) (padding : option ProfileTier) (plain : bytes)
  : result bytes :=
  match shroud with
  | Some profile => let? framed := shroud_payload profile plain in strip_profile padding framed
  | None => strip_profile padding plain
  end.

(** The body of a datagram: the ciphertext or its cell. *)
Definition carrier (shroud : option ShroudProfile) (encrypted : bytes) : bytes :=
  match shroud with
  | Some profile => cell_layout profile SHROUD_FRAME_DATA encrypted
  | None => encrypted
  end.

Definition packet_of (shroud : option ShroudProfile) (encrypted : bytes) : bytes :=
  be_bytes 4 (zlen (carrier shroud encrypted)) ++ carrier shroud encrypted.

(** The ciphertext fits the cell of the profile, if there is one. *)
Definition carries (shroud : option ShroudProfile) (encrypted : bytes) : Prop :=
  match shroud with
  | Some profile => shroud_is_valid profile = true /\ zlen encrypted <= payload_capacity profile
  | None => True
  end.

Lemma be_bytes_4 x : 0 <= x < 2 ^ 32 ->
  exists a b c d, be_bytes 4 x = [a; b; c; d] /\ be_val [a; b; c; d] = x.
Proof.
  intros Hx. exists ((x / 256 ^ 3) mod 256), ((x / 256 ^ 2) mod 256), ((x / 256) mod 256), ((x / 1) mod 256).
  split; [done|]. change [_; _; _; _] with (be_bytes 4 x). by apply be_val_be_bytes.
Qed.

Lemma shroud_payload_ok profile framed tail :
  zlen framed <= max_payload_chunk profile -> zlen framed <= u16_max ->
  shroud_payload profile (be_bytes 2 (zlen framed) ++ framed ++ tail) = Ok framed.
Proof.
  intros Hc Hu. unfold u16_max in Hu. pose proof (zlen_nonneg framed). pose proof (zlen_nonneg tail).
  unfold shroud_payload, SHROUD_LENGTH_PREFIX.
  destruct (be_bytes_2 (zlen framed)) as (a & b & E & V); [lia|]. rewrite E.
  assert (zlen ([a; b] ++ framed ++ tail) = 2 + zlen framed + zlen tail) as Hz by zl.
  rewrite Hz, (proj2 (Z.ltb_ge _ 2)) by lia. idx. rewrite V.
  rewrite !(proj2 (Z.ltb_ge _ _)) by lia. cbn [orb]; cbv iota.
  change (a :: b :: framed ++ tail) with ([a; b] ++ framed ++ tail).
  pose proof (copy_within_front_wipe 2 (2 + zlen framed) ([a; b] ++ framed ++ tail)) as W.
  replace (2 + zlen framed - 2) with (zlen framed) in W by lia.
  rewrite W by lia. by rewrite zdrop_app, ztake_app.
Qed.

Section Decode.
Context `{AeadOps}.

Lemma decode_packet shroud padding encrypted c :
  carries shroud encrypted -> 0 < zlen (carrier shroud encrypted) ->
  zlen (packet_of shroud encrypted) <= MAX_QUIC_FRAME_BYTES ->
  decode_encrypted_quic_frame (packet_of shroud encrypted) (zlen (packet_of shroud encrypted))
    shroud padding c
  = let! plain, c := decrypt encrypted c in (open_plain shroud padding plain, c).
Proof.
  intros Hc H0 Hl. unfold packet_of in *. set (body := carrier shroud encrypted) in *.
  rewrite zlen_app, zlen_be_bytes in Hl. unfold MAX_QUIC_FRAME_BYTES in Hl.
  destruct (be_bytes_4 (zlen body)) as (b0 & b1 & b2 & b3 & E & V); [lia|]. rewrite E.
  assert (zlen ([b0; b1; b2; b3] ++ body) = 4 + zlen body) as Hz by zl. rewrite Hz.
  unfold decode_encrypted_quic_frame, in_range, MAX_QUIC_FRAME_BYTES. rewrite Hz, Z.eqb_refl.
  rewrite !(proj2 (Z.leb_le _ _)) by lia. cbn [negb andb orb]; cbv iota. idx. rewrite V, Z.eqb_refl.
  rewrite (proj2 (Z.eqb_neq _ _)), (proj2 (Z.ltb_ge _ _)) by lia. cbn [negb orb]; cbv iota.
  change (b0 :: b1 :: b2 :: b3 :: body) with ([b0; b1; b2; b3] ++ body).
  rewrite slice_from_ok by lia. rewrite zdrop_app by done. cbn [sbind].
  destruct shroud as [profile|]; [|unfold body; cbn [carrier open_plain]; by destruct (decrypt encrypted c) as [[]]].
  destruct Hc as [Hv Hcap]. rewrite Hv. cbn [negb]; cbv iota.
  assert (decode_cell_payload profile body = Ok (Some encrypted)) as ->.
  { apply (decode_layout profile SHROUD_FRAME_DATA encrypted); auto. }
  cbn [sbind ok_or]. destruct (decrypt encrypted c) as [[plain| |] c']; [|done..].
  cbn [sbind open_plain]. by destruct (shroud_payload profile plain).
Qed.
End Decode.

(** ** Lemmas: sending *)

Section Send.
Context {A : Type} {R : Type} `{EqDecision A, RngLaws R, AeadOps, !AeadLaws}.

(** The configuration of a sender, which no call changes. *)
Definition config_of (s : QuicSender A R)
  : A * option ShroudProfile * option ProfileTier * option ProfileTier * bytes :=
  (q_peer s, q_shroud_profile s, q_padding_profile s, option_map padder_profile (q_padding_padder s),
   sc_key (q_cipher s)).

(** The stages before encryption change generators and buffers only. *)
Definition same_wire (s s' : QuicSender A R) : Prop :=
  config_of s' = config_of s /\ q_cipher s' = q_cipher s /\ q_socket s' = q_socket s.

Definition padder_ok (s : QuicSender A R) : Prop :=
  forall t, option_map padder_profile (q_padding_padder s) = Some t -> q_padding_profile s = Some t.

Lemma same_wire_padding s padder buf os :
  option_map padder_profile padder = option_map padder_profile (q_padding_padder s) ->
  same_wire s (with_q_padding padder buf os s).
Proof. intros E. unfold same_wire, config_of, with_q_padding. cbn. by rewrite E. Qed.

Definition fits_usize (p : bytes) : Prop := bytes_ok p /\ zlen p + 7 <= usize_max.

Lemma quic_frame_cases p s :
  fits_usize p -> padder_ok s ->
  (exists e s', quic_frame_payload p s = (Err e, s') /\ same_wire s s') \/
  (exists framed s', quic_frame_payload p s = (Ok framed, s') /\ same_wire s s' /\ bytes_ok framed /\
     strip_profile (q_padding_profile s) framed = Ok p).
Proof.
  intros [Hb Hu] Hpad. unfold quic_frame_payload.
  destruct (q_padding_profile s) as [t|] eqn:Et; [|right; exists p, s; by split_and!].
  assert (forall framed r, exists res buf r', apply_profile_into_with_rng t p framed r = (res, (buf, r')) /\
    ((exists e, rbind res (fun _ => Ok buf) = Err e) \/
     (rbind res (fun _ => Ok buf) = Ok buf /\ bytes_ok buf /\ strip_profile (Some t) buf = Ok p)))
    as Happly.
  { intros framed r. destruct (apply_profile_cases t p framed r Hb Hu)
      as [(e & r' & ->)|(buf & r' & -> & _ & Hfb & _ & Hrm)].
    - eexists _, _, _. split; [done|]. left. by exists e.
    - eexists _, _, _. split; [done|]. right. split; [done|]. split; [done|].
      unfold strip_profile. by rewrite Hrm. }
  destruct (q_padding_padder s) as [pd|] eqn:Epd.
  - assert (padder_profile pd = t) as Ht.
    { specialize (Hpad (padder_profile pd)). rewrite Epd in Hpad. specialize (Hpad eq_refl). congruence. }
    unfold apply_into. rewrite Ht. destruct (Happly (q_padding_buffer s) (padder_rng pd))
      as (res & buf & r' & -> & [[e ->]|(-> & Hbuf & Hstrip)]); [left|right]; eexists _, _;
      (split; [done|]); [|split; [|done]]; apply same_wire_padding; by rewrite Epd; cbn; rewrite Ht.
  - destruct (Happly (q_padding_buffer s) (q_os_rng s))
      as (res & buf & r' & -> & [[e ->]|(-> & Hbuf & Hstrip)]); [left|right]; eexists _, _;
      (split; [done|]); [|split; [|done]]; apply same_wire_padding; by rewrite Epd.
Qed.

Lemma fill_tail_cases n s :
  (exists e s', fill_tail n s = (Err e, s') /\ same_wire s s') \/
  (exists random s', fill_tail n s = (Ok random, s') /\ same_wire s s' /\
     zlen random = Z.max 0 n /\ bytes_ok random).
Proof.
  unfold fill_tail. destruct (q_shroud_rng s) as [r|].
  - pose proof (rng_fill_len n r) as Hf. destruct (rng_fill n r) as [[l|] r'].
    + right. eexists _, _. split; [done|]. split; [done|]. by apply Hf.
    + left. eexists _, _. by split.
  - pose proof (rng_fill_len n (q_os_rng s)) as Hf. destruct (rng_fill n (q_os_rng s)) as [[l|] r'].
    + right. eexists _, _. split; [done|]. split; [done|]. by apply Hf.
    + left. eexists _, _. by split.
Qed.

(** A cell's plaintext has the size of the cell, whatever the payload. *)
Lemma shroud_plaintext_cases profile framed s :
  bytes_ok framed ->
  (exists e s', shroud_plaintext profile framed s = (Err e, s') /\ same_wire s s') \/
  (exists tail s', shroud_plaintext profile framed s
      = (Ok (be_bytes 2 (zlen framed) ++ framed ++ tail), s') /\ same_wire s s' /\
     shroud_is_valid profile = true /\ bytes_ok tail /\
     zlen framed <= max_payload_chunk profile /\ zlen framed <= u16_max /\
     zlen (be_bytes 2 (zlen framed) ++ framed ++ tail) = payload_capacity profile - SHROUD_AEAD_OVERHEAD).
Proof.
  intros Hb. unfold shroud_plaintext. destruct (shroud_is_valid profile) eqn:Hv; cbn [negb]; cbv iota;
    [|left; by eexists _, _].
  destruct (shroud_valid_bounds _ Hv) as (Hc & Hcap & Hch). unfold checked_sub, SHROUD_AEAD_OVERHEAD, SHROUD_LENGTH_PREFIX.
  destruct (Z.leb_spec (12 + 16) (payload_capacity profile)); cbn [ok_or sbind]; [|left; by eexists _, _].
  destruct (Z.leb_spec 2 (payload_capacity profile - (12 + 16))); cbn [ok_or sbind]; [|left; by eexists _, _].
  set (cap := payload_capacity profile - (12 + 16)) in *.
  destruct (_ || _) eqn:Hlen; [left; by eexists _, _|].
  apply orb_false_iff in Hlen as [Hl1%Z.ltb_ge Hl2%Z.ltb_ge]. pose proof (zlen_nonneg framed).
  unfold cast, u16_max in *. rewrite Z.mod_small by lia.
  rewrite <- (app_nil_l (zreplicate cap 0)), copy_into_zeros by (done || lia). cbn [sbind].
  rewrite app_nil_l, copy_into_zeros by (rewrite ?zlen_be_bytes; lia). cbn [sbind].
  set (m := cap - _ - _). assert (m = cap - 2 - zlen framed) as Em by (unfold m; lia).
  set (pre := be_bytes 2 (zlen framed) ++ framed).
  assert (zlen pre = 2 + zlen framed) as Hpre by (unfold pre; zl).
  destruct (deterministic_padding profile).
  - right. exists (zreplicate m 0), s. split; [unfold pre; by rewrite <- app_assoc|].
    split_and!; try done; try lia; [apply Forall_replicate; red; lia|]. rewrite app_assoc. fold pre. zl.
  - rewrite slice_from_ok by zl. cbn [sbind]. rewrite zdrop_app by done.
    destruct (fill_tail_cases (zlen (zreplicate m 0)) s) as [(e & s' & -> & Hs)|(random & s' & -> & Hs & Hz & Hok)];
      cbn [sbind]; [left; by eexists _, _|right].
    exists random, s'. rewrite zlen_zreplicate in Hz.
    assert (zlen (pre ++ zreplicate m 0) = 2 + zlen framed + m) as -> by zl.
    rewrite copy_into_tail by lia. split; [unfold pre; by rewrite <- app_assoc|].
    split_and!; try done; try lia. rewrite app_assoc. fold pre. zl.
Qed.

(** A datagram that carries [p] under the counter [n]. *)
Definition packet_for (shroud : option ShroudProfile) (padding : option ProfileTier) (key : bytes)
    (n : Z) (p packet : bytes) : Prop :=
  exists plain ct, 0 <= n < AEAD_NONCE_LIMIT /\ bytes_ok plain /\
    aead_seal key (nonce12 n) plain = Some ct /\ open_plain shroud padding plain = Ok p /\
    packet = packet_of shroud (nonce12 n ++ ct) /\ carries shroud (nonce12 n ++ ct) /\
    zlen packet <= MAX_QUIC_FRAME_BYTES.

Definition q_nonce (s : QuicSender A R) : Z := sc_nonce (q_cipher s).

Definition sender_ok (s : QuicSender A R) : Prop :=
  zlen (sc_key (q_cipher s)) = 32 /\ 0 <= q_nonce s <= AEAD_NONCE_LIMIT /\ padder_ok s.

Lemma config_fields s s' : config_of s' = config_of s ->
  q_peer s' = q_peer s /\ q_shroud_profile s' = q_shroud_profile s /\
  q_padding_profile s' = q_padding_profile s /\
  option_map padder_profile (q_padding_padder s') = option_map padder_profile (q_padding_padder s) /\
  sc_key (q_cipher s') = sc_key (q_cipher s).
Proof. unfold config_of. intros [=]. done. Qed.

Lemma quic_encrypt_cases plain s :
  zlen (sc_key (q_cipher s)) = 32 ->
  (exists e, quic_encrypt plain s = (Err e, s)) \/
  (exists ct s', q_nonce s < AEAD_NONCE_LIMIT /\
     aead_seal (sc_key (q_cipher s)) (nonce12 (q_nonce s)) plain = Some ct /\
     quic_encrypt plain s = (Ok (nonce12 (q_nonce s) ++ ct), s') /\
     config_of s' = config_of s /\ q_socket s' = q_socket s /\ q_nonce s' = q_nonce s + 1).
Proof.
  intros Hk. unfold quic_encrypt. destruct (encrypt_cases plain (q_cipher s) Hk) as [[e ->]|(ct & Hn & Hct & ->)].
  - left. exists e. by destruct s.
  - right. exists ct. eexists. by split_and!.
Qed.

Lemma seal_cases framed s :
  bytes_ok framed -> zlen (sc_key (q_cipher s)) = 32 ->
  (exists e s', seal_payload framed s = (Err e, s') /\ same_wire s s') \/
  (exists plain ct s', seal_payload framed s
       = (Ok (carrier (q_shroud_profile s) (nonce12 (q_nonce s) ++ ct)), s') /\
     config_of s' = config_of s /\ q_socket s' = q_socket s /\ q_nonce s' = q_nonce s + 1 /\
     q_nonce s < AEAD_NONCE_LIMIT /\ bytes_ok plain /\
     aead_seal (sc_key (q_cipher s)) (nonce12 (q_nonce s)) plain = Some ct /\
     open_plain (q_shroud_profile s) (q_padding_profile s) plain
       = strip_profile (q_padding_profile s) framed /\
     carries (q_shroud_profile s) (nonce12 (q_nonce s) ++ ct)).
Proof.
  intros Hb Hk. unfold seal_payload. destruct (q_shroud_profile s) as [profile|] eqn:Ep.
  - destruct (shroud_plaintext_cases profile framed s Hb)
      as [(e & s1 & -> & Hw)|(tail & s1 & -> & Hw & Hv & Htail & Hc & Hu & Hz)]; cbn [sbind];
      [left; by eexists _, _|].
    pose proof Hw as (Hcfg & Hci & Hso). set (plain := be_bytes 2 (zlen framed) ++ framed ++ tail) in *.
    rewrite <- Hci in Hk. destruct (quic_encrypt_cases plain s1 Hk)
      as [[e ->]|(ct & s2 & Hn & Hct & -> & Hcfg2 & Hso2 & Hn2)]; cbn [sbind]; [left; by eexists _, _|].
    unfold q_nonce in *. rewrite Hci in *. right. exists plain, ct, s2.
    assert (zlen (nonce12 (sc_nonce (q_cipher s)) ++ ct) <= payload_capacity profile) as Hfit.
    { rewrite zlen_app, zlen_nonce12, (aead_seal_len _ _ _ _ Hct), Hz.
      unfold SHROUD_AEAD_OVERHEAD, AEAD_TAG_BYTES. lia. }
    assert (encode_cell profile SHROUD_FRAME_DATA (nonce12 (sc_nonce (q_cipher s)) ++ ct)
      = Ok (carrier (Some profile) (nonce12 (sc_nonce (q_cipher s)) ++ ct))) as ->
      by (apply encode_cell_ok; split_and!; auto).
    split_and!; try done; try congruence.
    + unfold plain. rewrite !bytes_ok_app. split_and!; auto with bytes.
    + unfold open_plain, plain. by rewrite shroud_payload_ok.
  - destruct (_ <? _); [left; by eexists _, _|].
    destruct (quic_encrypt_cases framed s Hk) as [[e ->]|(ct & s2 & Hn & Hct & -> & Hcfg2 & Hso2 & Hn2)];
      [left; by eexists _, _|right].
    exists framed, ct, s2. by split_and!.
Qed.

(** The log of a socket after a call. *)
Definition log (s : QuicSender A R) : list (A * bytes) := udp_sent (q_socket s).

(** One call: an error that sends nothing, or one datagram for the payload
    under a counter that no other datagram has. *)
Definition write_outcome (p : bytes) (s : QuicSender A R) (out : result unit * QuicSender A R) : Prop :=
  let s' := out.2 in
  config_of s' = config_of s /\ q_nonce s <= q_nonce s' <= AEAD_NONCE_LIMIT /\
  match out.1 with
  | Ok _ => exists packet, log s' = log s ++ [(q_peer s, packet)] /\ q_nonce s' = q_nonce s + 1 /\
      packet_for (q_shroud_profile s) (q_padding_profile s) (sc_key (q_cipher s)) (q_nonce s) p packet
  | Err _ => log s' = log s
  | Panic => False
  end.

Lemma send_to_cases packet (s : QuicSender A R) :
  (exists e s', quic_send_to packet s = (Err e, s') /\ config_of s' = config_of s /\
     q_cipher s' = q_cipher s /\ log s' = log s) \/
  (exists s', quic_send_to packet s = (Ok (), s') /\ config_of s' = config_of s /\
     q_cipher s' = q_cipher s /\ log s' = log s ++ [(q_peer s, packet)]).
Proof.
  unfold quic_send_to, send_to. destruct (udp_tx_events (q_socket s)) as [|[kind|] evs];
    [right|left|right]; eexists; try eexists; split; done.
Qed.

Lemma emit_cases encrypted s :
  (exists e s', emit encrypted s = (Err e, s') /\ config_of s' = config_of s /\
     q_cipher s' = q_cipher s /\ log s' = log s) \/
  (exists s', emit encrypted s = (Ok (), s') /\ config_of s' = config_of s /\
     q_cipher s' = q_cipher s /\
     log s' = log s ++ [(q_peer s, be_bytes 4 (zlen encrypted) ++ encrypted)] /\
     0 < zlen encrypted /\ zlen (be_bytes 4 (zlen encrypted) ++ encrypted) <= MAX_QUIC_FRAME_BYTES).
Proof.
  unfold emit. pose proof (zlen_nonneg encrypted).
  destruct (Z.eqb_spec (zlen encrypted) 0); [left; by eexists _, _|].
  destruct (Z.ltb_spec MAX_QUIC_FRAME_BYTES (zlen encrypted)) as [|Hl]; [left; by eexists _, _|].
  unfold MAX_QUIC_FRAME_BYTES in Hl. unfold cast. change (2 ^ 32) with 4294967296.
  rewrite Z.mod_small by lia. cbv zeta.
  destruct (Z.ltb_spec MAX_QUIC_FRAME_BYTES (zlen (be_bytes 4 (zlen encrypted) ++ encrypted)));
    [left; by eexists _, _|].
  destruct (send_to_cases (be_bytes 4 (zlen encrypted) ++ encrypted) s)
    as [(e & s' & -> & Hrest)|(s' & -> & Hc & Hci & Hlog)]; [left; by exists e, s'|right].
  exists s'. split_and!; try done; lia.
Qed.

Lemma write_cases p s :
  fits_usize p -> sender_ok s -> write_outcome p s (write_encrypted_quic_frame p s).
Proof.
  intros Hp (Hk & Hn & Hpad). unfold write_encrypted_quic_frame.
  assert (forall (res : result unit) s', (exists e, res = Err e) -> config_of s' = config_of s ->
    q_nonce s <= q_nonce s' <= AEAD_NONCE_LIMIT -> log s' = log s ->
    write_outcome p s (let '(res, s) := (res, s') in
      (res, with_q_padding (q_padding_padder s) [] (q_os_rng s) s))) as Herr.
  { intros res s' [e ->] Hc Hn' Hl. split; [exact Hc|]. split; [exact Hn'|exact Hl]. }
  destruct (quic_frame_cases p s Hp Hpad) as [(e & s1 & -> & Hc & Hci & Hso)|(framed & s1 & -> & (Hc & Hci & Hso) & Hfb & Hst)];
    cbn [sbind].
  { apply Herr; [eauto|done|unfold q_nonce in *; rewrite Hci; lia|unfold log; by rewrite Hso]. }
  destruct (config_fields _ _ Hc) as (Epeer & Esh & Epp & _ & Ekey).
  assert (q_nonce s1 = q_nonce s) as En1 by (unfold q_nonce; by rewrite Hci).
  destruct (seal_cases framed s1 Hfb) as [(e & s2 & -> & Hc2 & Hci2 & Hso2)|
    (plain & ct & s2 & -> & Hc2 & Hso2 & Hn2 & Hlim & Hpb & Hct & Hop & Hcar)];
    [by rewrite Ekey| |]; cbn [sbind].
  { apply Herr; [eauto|congruence|unfold q_nonce in *; rewrite Hci2, Hci; lia|unfold log; congruence]. }
  rewrite Epp, Esh, Ekey, En1 in *.
  destruct (emit_cases (carrier (q_shroud_profile s) (nonce12 (q_nonce s) ++ ct)) s2)
    as [(e & s3 & -> & Hc3 & Hci3 & Hl3)|(s3 & -> & Hc3 & Hci3 & Hl3 & Hpos & Hmax)].
  { apply Herr; [eauto|congruence|unfold q_nonce in *; rewrite Hci3; lia|].
    rewrite Hl3. unfold log. congruence. }
  destruct (config_fields _ _ Hc2) as (Epeer2 & _). unfold write_outcome. cbn [fst snd].
  split; [|split].
  - change (config_of s3 = config_of s). congruence.
  - change (q_nonce s <= q_nonce s3 <= AEAD_NONCE_LIMIT). unfold q_nonce in *. rewrite Hci3. lia.
  - exists (packet_of (q_shroud_profile s) (nonce12 (q_nonce s) ++ ct)). split_and!.
    + change (log s3 = log s ++ [(q_peer s, packet_of (q_shroud_profile s) (nonce12 (q_nonce s) ++ ct))]).
      rewrite Hl3, Epeer2, Epeer. unfold log. by rewrite Hso2, Hso.
    + change (q_nonce s3 = q_nonce s + 1). unfold q_nonce in *. rewrite Hci3. lia.
    + exists plain, ct. split_and!; try done; try lia. by rewrite Hop.
Qed.

(** A sequence of calls: one datagram per successful call, under strictly
    increasing counters. *)
Definition sent_as (s : QuicSender A R) (entries : list (Z * bytes)) (packets : list bytes) : Prop :=
  Forall2 (fun e packet => packet_for (q_shroud_profile s) (q_padding_profile s)
             (sc_key (q_cipher s)) e.1 e.2 packet) entries packets.

Lemma quic_send_run ps s :
  Forall fits_usize ps -> sender_ok s ->
  exists entries packets,
    log (run quic_send_frame ps s).2 = log s ++ map (pair (q_peer s)) packets /\
    map snd entries = sent ps (run quic_send_frame ps s).1 /\
    sent_as s entries packets /\ StronglySorted Z.lt (map fst entries) /\
    Forall (fun e => q_nonce s <= e.1) entries /\ Forall no_panic (run quic_send_frame ps s).1.
Proof.
  intros Hps. revert s. induction Hps as [|p ps Hp Hps IH]; intros s Hs.
  { exists [], []. cbn. rewrite app_nil_r. split_and!; constructor. }
  rewrite run_cons. cbn [fst snd]. change (quic_send_frame p s) with (write_encrypted_quic_frame p s).
  destruct (write_cases p s Hp Hs) as (Hc & Hn & Hres). pose proof Hs as (Hk & Hn0 & Hpad).
  destruct (write_encrypted_quic_frame p s) as [res s1]. cbn [fst snd] in *.
  destruct (config_fields _ _ Hc) as (Epeer & Esh & Epp & Epad & Ekey).
  assert (sender_ok s1) as Hs1.
  { split; [by rewrite Ekey|]. split; [lia|]. intros t. rewrite Epad, Epp. apply Hpad. }
  destruct (IH s1 Hs1) as (es & ks & Hlog & Hsnd & Hsent & Hsort & Hge & Hnp).
  unfold sent_as in *. rewrite Esh, Epp, Ekey in Hsent. rewrite Hlog, Epeer, sent_cons.
  destruct res as [[]| |]; [|exists es, ks|done].
  - destruct Hres as (k & Hl & En & Hk1). exists ((q_nonce s, p) :: es), (k :: ks).
    rewrite Hl, <- app_assoc. cbn [map snd fst is_ok app]. rewrite Hsnd. split_and!; try done.
    + by constructor.
    + constructor; [done|]. apply Forall_map. eapply Forall_impl; [exact Hge|]. simpl. lia.
    + constructor; [simpl; lia|]. eapply Forall_impl; [exact Hge|]. simpl. lia.
    + by constructor.
  - rewrite Hres. cbn [is_ok app]. split_and!; try done; [|by constructor].
    eapply Forall_impl; [exact Hge|]. simpl. lia.
Qed.
End Send.

(** ** Lemmas: receiving *)

(** What the network does next for a receiver: the datagram of one of the
    packets sent, a datagram from another address, or an error. *)
Inductive NetEvent (A : Type) := Arrives (i : nat) | Noise (from : A) (data : bytes) | NetFailed (kind : IoErrorKind).
Arguments Arrives {A} i.
Arguments Noise {A} from data.
Arguments NetFailed {A} kind.

Definition realize {A} (peer : A) (packets : list bytes) (ev : NetEvent A) : UdpEvent A :=
  match ev with
  | Arrives i => Datagram peer (packets !!! i)
  | Noise from data => Datagram from data
  | NetFailed kind => UdpFailed kind
  end.

Definition net_ok {A} (peer : A) (n : nat) (ev : NetEvent A) : Prop :=
  match ev with Arrives i => (i < n)%nat | Noise from _ => from <> peer | NetFailed _ => True end.

(** The packets that arrive. *)
Definition arrivals {A} (evs : list (NetEvent A)) : list nat :=
  flat_map (fun ev => match ev with Arrives i => [i] | _ => [] end) evs.

(** What a receiver promises to hand over: of the packets that arrive, in order
    of arrival, those whose counter the replay specification accepts. *)
Fixpoint receive_spec (depth : Z) (entries : list (Z * bytes)) (idxs : list nat) (sp : ReplaySpec)
  : list bytes * ReplaySpec :=
  match idxs with
  | [] => ([], sp)
  | i :: idxs =>
      let '(fresh, sp) := spec_accept depth (entries !!! i).1 sp in
      let '(rest, sp) := receive_spec depth entries idxs sp in
      ((if fresh then [(entries !!! i).2] else []) ++ rest, sp)
  end.

Lemma receive_spec_app d es l k sp :
  receive_spec d es (l ++ k) sp =
  ((receive_spec d es l sp).1 ++ (receive_spec d es k (receive_spec d es l sp).2).1,
   (receive_spec d es k (receive_spec d es l sp).2).2).
Proof.
  revert sp. induction l as [|i l IH]; intros sp; cbn [app receive_spec fst snd].
  { by destruct (receive_spec d es k sp). }
  destruct (spec_accept d _ sp) as [b sp1]. rewrite IH.
  destruct (receive_spec d es l sp1) as [r1 sp2]. cbn [fst snd]. by rewrite app_assoc.
Qed.

(** Deliveries within the window are all handed over. *)
Lemma receive_spec_all d es idxs sp :
  (spec_run d (map (fun i => (es !!! i).1) idxs) sp).1 = map (fun _ => true) idxs ->
  (receive_spec d es idxs sp).1 = map (fun i => (es !!! i).2) idxs.
Proof.
  revert sp. induction idxs as [|i idxs IH]; intros sp; [done|]. cbn [map spec_run receive_spec].
  destruct (spec_accept d _ sp) as [b sp1]. specialize (IH sp1).
  destruct (spec_run d _ sp1) as [bs sp2], (receive_spec d es idxs sp1) as [r sp3]. cbn [fst] in *.
  intros [= -> Hbs]. by rewrite IH.
Qed.

Section Receive.
Context {A : Type} `{EqDecision A, AeadOps, !AeadLaws}.
Context (peer : A) (shroud : option ShroudProfile) (padding : option ProfileTier) (key : bytes).
Context (key_len : zlen key = 32).

Lemma decode_sent d n p packet c sp :
  packet_for shroud padding key n p packet -> cipher_rel d key c sp ->
  let out := decode_encrypted_quic_frame packet (zlen packet) shroud padding c in
  out.1 = (if (spec_accept d n sp).1 then Ok p else Err replay_error) /\
  cipher_rel d key out.2 (spec_accept d n sp).2.
Proof.
  intros (plain & ct & Hn & Hpb & Hct & Hop & -> & Hcar & Hmax) HR out. unfold out.
  rewrite decode_packet; [|done| |done]; last first.
  { destruct shroud as [profile|]; cbn [carrier].
    - destruct Hcar as [Hv Hcap]. pose proof (shroud_valid_bounds _ Hv) as (? & ? & _).
      rewrite zlen_cell_layout by lia. lia.
    - rewrite zlen_app, zlen_nonce12. pose proof (zlen_nonneg ct). lia. }
  pose proof (decrypt_refines d key (nonce12 n ++ ct) c sp key_len) as Hd.
  rewrite (recv_spec_frame d key n plain ct sp) in Hd by (done || unfold AEAD_NONCE_LIMIT, u64_max in *; lia).
  destruct Hd as [H1 H2]; [|done|].
  { apply bytes_ok_app. split; [apply nonce12_ok|by eapply aead_seal_bytes]. }
  destruct (decrypt _ c) as [res c']. cbn [fst snd] in *. subst res.
  destruct (spec_accept d n sp) as [[|] sp']; cbn [sbind fst snd]; [|done]. by rewrite Hop.
Qed.

Context (entries : list (Z * bytes)) (packets : list bytes).
Context (sent_packets : Forall2 (fun e packet => packet_for shroud padding key e.1 e.2 packet) entries packets).

Lemma packet_at i : (i < length packets)%nat ->
  packet_for shroud padding key (entries !!! i).1 (entries !!! i).2 (packets !!! i).
Proof.
  intros Hi. destruct (lookup_lt_is_Some_2 packets i Hi) as [k Hk].
  destruct (Forall2_lookup_r _ _ _ _ _ sent_packets Hk) as (e & He & Hp).
  by rewrite (list_lookup_total_correct _ _ _ He), (list_lookup_total_correct _ _ _ Hk).
Qed.

(** One receive call consumes a prefix of the events and returns the first
    payload among them that the specification hands over. *)
Lemma read_loop_spec d evs invalid c sp :
  Forall (net_ok peer (length packets)) evs -> cipher_rel d key c sp ->
  exists k res c', read_loop peer shroud padding (map (realize peer packets) evs) invalid c
      = (res, (map (realize peer packets) (drop k evs), c')) /\
    let '(out, sp') := receive_spec d entries (arrivals (take k evs)) sp in
    cipher_rel d key c' sp' /\
    match res with
    | Some (Ok p) => out = [p] /\ (0 < k)%nat
    | Some (Err _) => out = [] /\ (0 < k)%nat
    | Some Panic => False
    | None => out = [] /\ drop k evs = []
    end.
Proof.
  intros Hevs. revert invalid c sp.
  induction Hevs as [|ev evs Hev Hevs IH]; intros invalid c sp HR; cbn [map realize read_loop].
  { by exists 0%nat, None, c. }
  assert (forall inv c1 sp1, cipher_rel d key c1 sp1 ->
    receive_spec d entries (arrivals [ev]) sp = ([], sp1) ->
    exists k res c',
      (if MAX_QUIC_INVALID_DATAGRAMS_PER_RECV <=? inv
       then (Some (Err (Protocol "too many invalid QUIC data datagrams")), (map (realize peer packets) evs, c1))
       else read_loop peer shroud padding (map (realize peer packets) evs) inv c1)
      = (res, (map (realize peer packets) (drop k (ev :: evs)), c')) /\
      let '(out, sp') := receive_spec d entries (arrivals (take k (ev :: evs))) sp in
      cipher_rel d key c' sp' /\
      match res with
      | Some (Ok p) => out = [p] /\ (0 < k)%nat
      | Some (Err _) => out = [] /\ (0 < k)%nat
      | Some Panic => False
      | None => out = [] /\ drop k (ev :: evs) = []
      end) as Hagain.
  { intros inv c1 sp1 HR1 Hspec. destruct (_ <=? inv).
    - exists 1%nat, (Some (Err (Protocol "too many invalid QUIC data datagrams"))), c1. split; [done|].
      change (take 1 (ev :: evs)) with [ev]. rewrite Hspec. split; [done|split; [done|lia]].
    - destruct (IH inv c1 sp1 HR1) as (k & res & c' & -> & Hk). exists (S k), res, c'. split; [done|].
      assert (arrivals (take (S k) (ev :: evs)) = arrivals [ev] ++ arrivals (take k evs)) as ->.
      { unfold arrivals. cbn [take flat_map]. by rewrite app_nil_r. }
      rewrite receive_spec_app, Hspec. cbn [fst snd app drop].
      destruct (receive_spec d entries (arrivals (take k evs)) sp1) as [out sp'].
      destruct Hk as [HR' Hk]. split; [done|]. destruct res as [[| |]|]; try done; destruct Hk; split; (done || lia). }
  destruct ev as [i|from data|kind]; cbn [net_ok realize] in *.
  - rewrite bool_decide_eq_true_2 by done. cbn [negb]; cbv iota.
    pose proof (packet_at i Hev) as Hp. pose proof Hp as (_ & _ & _ & _ & _ & _ & _ & _ & Hmax).
    rewrite ztake_all by (unfold QUIC_RECV_BUFFER; lia).
    destruct (decode_sent d _ _ _ c sp Hp HR) as [H1 H2].
    destruct (decode_encrypted_quic_frame _ _ _ _ c) as [res c1]. cbn [fst snd] in *. subst res.
    assert (receive_spec d entries (arrivals [Arrives (A:=A) i]) sp
      = (if (spec_accept d (entries !!! i).1 sp).1 then [(entries !!! i).2] else [],
         (spec_accept d (entries !!! i).1 sp).2)) as Hspec.
    { cbn. destruct (spec_accept d _ sp) as [b sp1]. cbn. by rewrite app_nil_r. }
    destruct (spec_accept d _ sp) as [[|] sp1]; cbn [fst snd] in *; [|by eapply Hagain].
    exists 1%nat, (Some (Ok (entries !!! i).2)), c1. split; [done|].
    change (take 1 (Arrives i :: evs)) with [Arrives (A:=A) i]. rewrite Hspec. split; [done|split; [done|lia]].
  - rewrite bool_decide_eq_false_2 by done. cbn [negb]; cbv iota. by eapply Hagain.
  - eexists 1%nat, _, c. split; [done|]. cbn. split; [done|split; [done|lia]].
Qed.

Definition receiver_at (d : Z) (r : QuicReceiver A) (evs : list (NetEvent A)) (sp : ReplaySpec) : Prop :=
  qr_events r = map (realize peer packets) evs /\ Forall (net_ok peer (length packets)) evs /\
  qr_peer r = peer /\ qr_shroud_profile r = shroud /\ qr_padding_profile r = padding /\
  cipher_rel d key (qr_cipher r) sp.

Lemma recv_calls_spec d n r evs sp :
  receiver_at d r evs sp ->
  exists k, oks (quic_recv_calls n r).1 = (receive_spec d entries (arrivals (take k evs)) sp).1 /\
    Forall no_panic (quic_recv_calls n r).1 /\
    ((length evs < n)%nat -> drop k evs = []).
Proof.
  revert r evs sp. induction n as [|n IH]; intros r evs sp (He & Hok & Hp & Hs & Hpad & HR);
    cbn [quic_recv_calls]; [exists 0%nat; split_and!; [done|constructor|lia]|].
  unfold quic_recv_frame. rewrite He, Hp, Hs, Hpad.
  destruct (read_loop_spec d evs 0 (qr_cipher r) sp Hok HR) as (k & res & c' & -> & Hk).
  destruct (receive_spec d entries (arrivals (take k evs)) sp) as [out sp'] eqn:Espec.
  destruct Hk as [HR' Hk]. destruct res as [res|]; last first.
  { exists k. rewrite Espec. destruct Hk as [-> Hd]. split_and!; [done|constructor|done]. }
  destruct (IH (mkQuicReceiver (map (realize peer packets) (drop k evs)) peer c' shroud padding)
    (drop k evs) sp') as (k2 & E2 & Hnp & Hall).
  { split_and!; try done. by apply Forall_drop. }
  destruct (quic_recv_calls n _) as [rs r']. cbn [fst] in *. exists (k + k2)%nat.
  assert (take (k + k2) evs = take k evs ++ take k2 (drop k evs)) as -> by (symmetry; apply take_take_drop).
  assert (arrivals (take k evs ++ take k2 (drop k evs))
    = arrivals (take k evs) ++ arrivals (take k2 (drop k evs))) as -> by (unfold arrivals; apply flat_map_app).
  rewrite receive_spec_app, Espec. cbn [fst snd]. rewrite <- E2, <- drop_drop, length_drop in *.
  destruct res as [p|e|]; [| |done]; destruct Hk as [-> Hk]; split_and!; try done; try (by constructor);
    (intros Hlt; destruct evs as [|ev evs]; [by rewrite !drop_nil|apply Hall; simpl in *; lia]).
Qed.
End Receive.

(** Decoding one datagram as the receive loop does. *)
Definition decode_datagram {A} `{AeadOps} (r : QuicReceiver A) (data : bytes) (c : ReceiveCipher)
  : result bytes * ReceiveCipher :=
  let packet := ztake QUIC_RECV_BUFFER data in
  decode_encrypted_quic_frame packet (zlen packet) (qr_shroud_profile r) (qr_padding_profile r) c.

(** The datagrams that come from the peer. *)
Definition from_peer {A} `{EqDecision A} (peer : A) (evs : list (UdpEvent A)) : list bytes :=
  flat_map (fun ev => match ev with
                      | Datagram from data => if bool_decide (from = peer) then [data] else []
                      | UdpFailed _ => []
                      end) evs.

Definition event_bytes {A} (ev : UdpEvent A) : Prop :=
  match ev with Datagram _ data => bytes_ok data | UdpFailed _ => True end.

#[export] Instance event_bytes_dec {A} (ev : UdpEvent A) : Decision (event_bytes ev).
Proof. destruct ev; apply _. Defined.

(** ** Lemmas: any datagrams *)

Section Adversary.
Context {A : Type} `{EqDecision A, AeadOps, !AeadLaws}.
Context (key : bytes) (key_len : zlen key = 32).

Lemma strip_profile_no_panic padding framed :
  bytes_ok framed -> no_panic (strip_profile padding framed).
Proof.
  intros Hb. destruct padding as [t|]; [|done]. unfold strip_profile, remove_profile_in_place.
  destruct (unprofiled_cases t framed Hb) as [[-> _]|[(rest & e & -> & _)|(p & tail & -> & Hp & Hacc)]]; [done..|].
  by rewrite unprofiled_layout.
Qed.

Lemma shroud_payload_no_panic profile padded :
  bytes_ok padded -> no_panic (shroud_payload profile padded) /\
  forall p, shroud_payload profile padded = Ok p -> bytes_ok p.
Proof.
  intros Hb. unfold shroud_payload, SHROUD_LENGTH_PREFIX.
  destruct (Z.ltb_spec (zlen padded) 2) as [|Hl]; [done|].
  destruct padded as [|a [|b rest]]; try (unfold zlen in Hl; simpl in Hl; lia). idx.
  destruct (_ || _) eqn:Hg; [done|]. apply orb_false_iff in Hg as [Hg%Z.ltb_ge _].
  assert (0 <= be_val [a; b]) by (apply be_val_bound; unfold bytes_ok in *; rewrite !Forall_cons in *; naive_solver).
  pose proof (copy_within_front_wipe 2 (2 + be_val [a; b]) (a :: b :: rest)) as W.
  replace (2 + be_val [a; b] - 2) with (be_val [a; b]) in W by lia. rewrite W by lia.
  split; [done|]. intros p [= <-]. auto with bytes.
Qed.

Lemma open_plain_no_panic shroud padding plain :
  bytes_ok plain -> no_panic (open_plain shroud padding plain).
Proof.
  intros Hb. destruct shroud as [profile|]; cbn [open_plain]; [|by apply strip_profile_no_panic].
  destruct (shroud_payload_no_panic profile plain Hb) as [Hn Hok].
  destruct (shroud_payload profile plain); cbn [rbind]; [|done|done].
  apply strip_profile_no_panic. auto.
Qed.

Lemma decrypt_any d encrypted c sp :
  bytes_ok encrypted -> cipher_rel d key c sp ->
  (no_panic (decrypt encrypted c).1 /\ forall p, (decrypt encrypted c).1 = Ok p -> bytes_ok p) /\
  exists sp', cipher_rel d key (decrypt encrypted c).2 sp'.
Proof.
  intros Hb HR. destruct (decrypt_refines d key encrypted c sp key_len Hb HR) as [-> HR'].
  split; [|by eexists]. unfold recv_spec. case_if; [done|]. destruct (frame_counter encrypted); [|done].
  destruct (spec_accept d _ sp) as [[|] ?]; [|done].
  destruct (aead_open _ _ _) as [p|] eqn:E; [|done]. split; [done|]. intros q [= <-].
  eapply aead_open_bytes; [|exact E]. auto with bytes.
Qed.

(** Decoding any datagram keeps the cipher well formed and does not panic. *)
Lemma decode_any d packet shroud padding c sp :
  bytes_ok packet -> cipher_rel d key c sp ->
  no_panic (decode_encrypted_quic_frame packet (zlen packet) shroud padding c).1 /\
  exists sp', cipher_rel d key (decode_encrypted_quic_frame packet (zlen packet) shroud padding c).2 sp'.
Proof.
  intros Hb HR. unfold decode_encrypted_quic_frame. rewrite Z.eqb_refl. cbn [negb].
  destruct (in_range 4 _ _) eqn:Hr; cbn [negb orb]; cbv iota; [|by split; [|eexists]].
  unfold in_range in Hr. bool_prop.
  destruct (list_4 packet ltac:(lia)) as (b0 & b1 & b2 & b3 & body & ->).
  apply bytes_ok_app in Hb as [_ Hb]. idx. destruct (_ || _); [by split; [|eexists]|].
  change (b0 :: b1 :: b2 :: b3 :: body) with ([b0; b1; b2; b3] ++ body).
  rewrite slice_from_ok by zl. rewrite zdrop_app by done. cbn [sbind].
  destruct shroud as [profile|].
  - destruct (negb _) eqn:Hv; [by split; [|eexists]|]. bool_prop.
    destruct (decode_cell_payload_any profile body Hb) as [Hn Hok].
    destruct (decode_cell_payload profile body) as [[encrypted|]| |]; cbn [sbind ok_or];
      [|by split; [|eexists]..|by destruct Hn]. specialize (Hok _ eq_refl).
    destruct (decrypt_any d encrypted c sp Hok HR) as [[Hd Hdb] [sp' HR']].
    destruct (decrypt encrypted c) as [[plain| |] c']; cbn [fst snd sbind] in *; [|by split; [|eexists]..].
    pose proof (open_plain_no_panic (Some profile) padding plain (Hdb _ eq_refl)) as Ho. cbn [open_plain] in Ho.
    destruct (shroud_payload profile plain); cbn [sbind rbind fst snd] in *; by split; [|eexists].
  - destruct (decrypt_any d body c sp Hb HR) as [[Hd Hdb] [sp' HR']].
    destruct (decrypt body c) as [[plain| |] c']; cbn [fst snd sbind] in *; [|by split; [|eexists]..].
    split; [|by eexists]. by apply (open_plain_no_panic None), Hdb.
Qed.

(** One receive call: a prefix of the events, at most eight of them, and the
    first payload that decodes. *)
Lemma read_loop_any d (r : QuicReceiver A) evs invalid c sp :
  Forall event_bytes evs -> cipher_rel d key c sp -> 0 <= invalid < MAX_QUIC_INVALID_DATAGRAMS_PER_RECV ->
  exists k res c' sp', read_loop (qr_peer r) (qr_shroud_profile r) (qr_padding_profile r) evs invalid c
      = (res, (drop k evs, c')) /\ cipher_rel d key c' sp' /\
    invalid + Z.of_nat k <= MAX_QUIC_INVALID_DATAGRAMS_PER_RECV /\
    c' = (run (decode_datagram r) (from_peer (qr_peer r) (take k evs)) c).2 /\
    oks (run (decode_datagram r) (from_peer (qr_peer r) (take k evs)) c).1
      = match res with Some (Ok p) => [p] | _ => [] end /\
    match res with Some res => no_panic res /\ (0 < k)%nat | None => drop k evs = [] end.
Proof.
  intros Hevs. unfold MAX_QUIC_INVALID_DATAGRAMS_PER_RECV. revert invalid c sp.
  induction Hevs as [|ev evs Hev Hevs IH]; intros invalid c sp HR Hi; cbn [read_loop].
  { exists 0%nat, None, c, sp. cbn. split_and!; (done || lia). }
  assert (forall c1 sp1, cipher_rel d key c1 sp1 ->
    (run (decode_datagram r) (from_peer (qr_peer r) [ev]) c).2 = c1 ->
    oks (run (decode_datagram r) (from_peer (qr_peer r) [ev]) c).1 = [] ->
    exists k res c' sp',
      (if 8 <=? invalid + 1
       then (Some (Err (Protocol "too many invalid QUIC data datagrams")), (evs, c1))
       else read_loop (qr_peer r) (qr_shroud_profile r) (qr_padding_profile r) evs (invalid + 1) c1)
      = (res, (drop k (ev :: evs), c')) /\ cipher_rel d key c' sp' /\
      invalid + Z.of_nat k <= 8 /\
      c' = (run (decode_datagram r) (from_peer (qr_peer r) (take k (ev :: evs))) c).2 /\
      oks (run (decode_datagram r) (from_peer (qr_peer r) (take k (ev :: evs))) c).1
        = match res with Some (Ok p) => [p] | _ => [] end /\
      match res with Some res => no_panic res /\ (0 < k)%nat | None => drop k (ev :: evs) = [] end) as Hagain.
  { intros c1 sp1 HR1 Hrun Hoks. destruct (Z.leb_spec 8 (invalid + 1)).
    - exists 1%nat, (Some (Err (Protocol "too many invalid QUIC data datagrams"))), c1, sp1.
      change (take 1 (ev :: evs)) with [ev]. split_and!; (done || lia).
    - destruct (IH (invalid + 1) c1 sp1 HR1 ltac:(lia)) as (k & res & c' & sp' & -> & HR' & Hk & Hc' & Ho & Hres).
      exists (S k), res, c', sp'. cbn [drop take].
      assert (from_peer (qr_peer r) (ev :: take k evs)
        = from_peer (qr_peer r) [ev] ++ from_peer (qr_peer r) (take k evs)) as ->.
      { unfold from_peer. cbn [flat_map]. by rewrite app_nil_r. }
      rewrite run_app_fst, run_app_snd, oks_app, Hrun, Hoks, <- Hc'.
      split_and!; try done; [lia|]. destruct res; [|done]. destruct Hres. split; [done|lia]. }
  destruct ev as [from data|kind].
  - destruct (bool_decide (from = qr_peer r)) eqn:Ef; cbn [negb]; cbv iota; last first.
    { apply (Hagain c sp); [done|..]; cbn; by rewrite Ef. }
    assert (bytes_ok (ztake QUIC_RECV_BUFFER data)) as Hb by auto with bytes.
    destruct (decode_any d _ (qr_shroud_profile r) (qr_padding_profile r) c sp Hb HR) as [Hn [sp' HR']].
    fold (decode_datagram r data c). fold (decode_datagram r data c) in Hn, HR'.
    assert (from_peer (qr_peer r) [Datagram from data] = [data]) as Efp by (cbn; by rewrite Ef).
    assert (run (decode_datagram r) [data] c
      = ([(decode_datagram r data c).1], (decode_datagram r data c).2)) as Erun
      by (cbn; by destruct (decode_datagram r data c)).
    change (let packet := ztake QUIC_RECV_BUFFER data in _) with (decode_datagram r data c).
    destruct (decode_datagram r data c) as [[p|e|] c1] eqn:Edec; cbn [fst snd] in *; [| |done].
    + exists 1%nat, (Some (Ok p)), c1, sp'. change (take 1 (Datagram from data :: evs)) with [Datagram from data].
      rewrite Efp, Erun. cbn. split_and!; (done || lia).
    + apply (Hagain c1 sp'); [done|..]; by rewrite Efp, Erun.
  - eexists 1%nat, _, c, sp. split; [reflexivity|]. cbn. split_and!; (done || lia).
Qed.

Lemma recv_calls_any d n (r : QuicReceiver A) sp :
  Forall event_bytes (qr_events r) -> cipher_rel d key (qr_cipher r) sp ->
  exists k, oks (quic_recv_calls n r).1
      = oks (run (decode_datagram r) (from_peer (qr_peer r) (take k (qr_events r))) (qr_cipher r)).1 /\
    Forall no_panic (quic_recv_calls n r).1 /\
    ((length (qr_events r) < n)%nat -> drop k (qr_events r) = []).
Proof.
  revert r sp. induction n as [|n IH]; intros r sp Hb HR; cbn [quic_recv_calls];
    [exists 0%nat; split_and!; [done|constructor|lia]|].
  unfold quic_recv_frame.
  destruct (read_loop_any d r (qr_events r) 0 (qr_cipher r) sp Hb HR ltac:(done))
    as (k & res & c' & sp' & -> & HR' & _ & Hc' & Ho & Hres).
  destruct res as [res|]; last first.
  { exists k. rewrite Ho. split_and!; [done|constructor|done]. }
  set (r1 := mkQuicReceiver (drop k (qr_events r)) (qr_peer r) c' (qr_shroud_profile r) (qr_padding_profile r)).
  destruct (IH r1 sp') as (k2 & E2 & Hnp & Hall); [by apply Forall_drop|done|].
  destruct (quic_recv_calls n r1) as [rs r']. cbn [fst] in *. exists (k + k2)%nat.
  assert (take (k + k2) (qr_events r) = take k (qr_events r) ++ take k2 (drop k (qr_events r))) as ->
    by (symmetry; apply take_take_drop).
  unfold from_peer. rewrite flat_map_app. fold (from_peer (qr_peer r) (take k (qr_events r))).
  fold (from_peer (qr_peer r) (take k2 (drop k (qr_events r)))).
  rewrite run_app_fst, oks_app, Ho, <- Hc'. change (decode_datagram r1) with (decode_datagram r) in E2.
  cbn [qr_events qr_peer qr_cipher r1] in E2. rewrite <- E2, <- drop_drop.
  destruct Hres as [Hn Hk]. split_and!.
  - by destruct res.
  - by constructor.
  - intros Hlt. cbn [qr_events r1] in Hall. rewrite length_drop in Hall.
    destruct (qr_events r) as [|ev evs]; [by rewrite !drop_nil|]. apply Hall. simpl in *. lia.
Qed.
End Adversary.

(** The datagrams of a Shroud profile have one length. *)
Lemma zlen_packet profile encrypted :
  carries (Some profile) encrypted -> zlen (packet_of (Some profile) encrypted) = 4 + cell_size profile.
Proof.
  intros [Hv Hcap]. pose proof (shroud_valid_bounds _ Hv) as (? & ? & _).
  unfold packet_of, carrier. rewrite zlen_app, zlen_be_bytes, zlen_cell_layout by lia. lia.
Qed.

(** The sender of a fresh session. *)
Lemma quic_pair_sender {A R} `{EqDecision A, RngOps R, AeadOps} mode a b tx evs dst (key key' : bytes) (os : R) :
  zlen key = 32 ->
  let s := (quic_pair (A:=A) mode a b (quic_session tx evs dst key key' os)).1 in
  sender_ok s /\ q_nonce s = 0 /\ q_peer s = dst /\ q_socket s = tx /\ sc_key (q_cipher s) = key.
Proof.
  intros Hk. destruct mode as [profile|]; (split; [|done]);
    (split; [done|]; split; [split; [done|unfold AEAD_NONCE_LIMIT; done]|]); intros t; simpl.
  - by intros [= <-].
  - done.
Qed.

(** The two ends of a session in one mode agree on the profiles. *)
Lemma quic_pair_profiles {A R} `{EqDecision A, RngOps R, AeadOps} mode
    a b tx evs dst (key key' : bytes) (os : R) a2 b2 tx2 evs2 src (key2 : bytes) (os2 : R) :
  let s := (quic_pair (A:=A) mode a b (quic_session tx evs dst key key' os)).1 in
  let r := (quic_pair (A:=A) mode a2 b2 (quic_session tx2 evs2 src key2 key os2)).2 in
  qr_shroud_profile r = q_shroud_profile s /\ qr_padding_profile r = q_padding_profile s /\
  qr_events r = evs2 /\ qr_peer r = src /\ qr_cipher r = new_with_replay_window key QUIC_REPLAY_WINDOW.
Proof. by destruct mode. Qed.

(** ** Properties *)

(** C14: a datagram session delivers exactly what its replay specification
    promises.  Both ends use the same mode (raw, or any Shroud profile, legacy
    or tuned).  Whatever calls fail at the socket or in a layer, the sender
    never panics, and the payloads whose calls succeeded are in the log as one
    datagram each, under strictly increasing counters.  Let these datagrams
    arrive in any order, lost, duplicated, interleaved with datagrams from
    other addresses, timeouts and errors: enough receive calls hand over, in
    order of arrival, exactly the payloads whose counters the 128-deep replay
    specification accepts, each unchanged; all of the arrivals when they are
    distinct and within the window of each other. *)
Theorem quic_session_delivers {A R} `{EqDecision A, RngLaws R, AeadOps, !AeadLaws}
    mode (a b os a2 b2 os2 : R) outcomes dst key key1 key2 tx2 payloads :
  zlen key = 32 -> Forall fits_usize payloads ->
  let s := (quic_pair (A:=A) mode a b (quic_session (mkUdpTx [] outcomes) [] dst key key1 os)).1 in
  let '(rs, s') := run quic_send_frame payloads s in
  Forall no_panic rs /\
  exists entries packets,
    udp_sent (q_socket s') = map (pair dst) packets /\ length entries = length packets /\
    map snd entries = sent payloads rs /\ StronglySorted Z.lt (map fst entries) /\
    forall src evs n, Forall (net_ok src (length packets)) evs -> (length evs < n)%nat ->
      let r := (quic_pair (A:=A) mode a2 b2
                  (quic_session tx2 (map (realize src packets) evs) src key2 key os2)).2 in
      let got := (quic_recv_calls n r).1 in
      Forall no_panic got /\
      oks got = (receive_spec 128 entries (arrivals evs) spec_empty).1 /\
      (in_window 128 (map (fun i => (entries !!! i).1) (arrivals evs)) ->
       oks got = map (fun i => (entries !!! i).2) (arrivals evs)).
Proof.
  intros Hk Hps s.
  destruct (quic_pair_sender mode a b (mkUdpTx [] outcomes) [] dst key key1 os Hk) as (Hs & Hn & Hpeer & Hso & Hkey).
  destruct (quic_send_run payloads s Hps Hs) as (entries & packets & Hlog & Hsnd & Hsent & Hsort & _ & Hnp).
  unfold log in Hlog. fold s in Hpeer, Hso. rewrite Hso, Hpeer in Hlog. destruct (run quic_send_frame payloads s) as [rs s'].
  split; [done|]. exists entries, packets. pose proof (Forall2_length _ _ _ Hsent) as Hlen. split_and!; try done.
  intros src evs n Hevs Hlt r got.
  destruct (quic_pair_profiles mode a b (mkUdpTx [] outcomes) [] dst key key1 os a2 b2 tx2
    (map (realize src packets) evs) src key2 os2) as (E1 & E2 & E3 & E4 & E5).
  fold s in E1, E2, Hkey. fold r in E1, E2, E3, E4, E5. unfold sent_as in Hsent. rewrite Hkey in Hsent.
  destruct (recv_calls_spec src (q_shroud_profile s) (q_padding_profile s) key Hk entries packets Hsent
    128 n r evs spec_empty) as (k & E & Hnp' & Hall).
  { split_and!; try done. rewrite E5. by apply (receiver_window_rel key QUIC_REPLAY_WINDOW). }
  specialize (Hall Hlt). assert (take k evs = evs) as Ht.
  { rewrite <- (take_drop k evs) at 2. by rewrite Hall, app_nil_r. }
  rewrite Ht in E. split_and!; [done|done|]. intros Hw. fold got in E. rewrite E. apply receive_spec_all.
  rewrite spec_run_all; [by rewrite map_map|done|done|done|intros x m Hx; simpl in Hx; set_solver].
Qed.

(** foreign and invalid datagrams cannot disturb a session.  Over any
    datagrams from any addresses no receive call panics; the payloads handed
    over are exactly those that decoding the peer's datagrams one by one gives,
    so that datagrams of other sources are invisible; and one call consumes at
    most eight events before it returns. *)
Theorem quic_receiver_filters {A} `{EqDecision A, AeadOps, !AeadLaws} (r : QuicReceiver A) key n :
  zlen key = 32 -> qr_cipher r = new_with_replay_window key QUIC_REPLAY_WINDOW ->
  Forall event_bytes (qr_events r) -> (length (qr_events r) < n)%nat ->
  Forall no_panic (quic_recv_calls n r).1 /\
  oks (quic_recv_calls n r).1
    = oks (run (decode_datagram r) (from_peer (qr_peer r) (qr_events r)) (qr_cipher r)).1 /\
  exists k, (k <= 8)%nat /\ qr_events (quic_recv_frame r).2 = drop k (qr_events r).
Proof.
  intros Hk Hc Hb Hn.
  assert (cipher_rel (size (ReplayWindow_new QUIC_REPLAY_WINDOW)) key (qr_cipher r) spec_empty) as HR
    by (rewrite Hc; by apply receiver_window_rel).
  destruct (recv_calls_any key Hk _ n r spec_empty Hb HR) as (k & E & Hnp & Hall). specialize (Hall Hn).
  assert (take k (qr_events r) = qr_events r) as Ht.
  { rewrite <- (take_drop k (qr_events r)) at 2. by rewrite Hall, app_nil_r. }
  rewrite Ht in E. split; [done|]. split; [done|]. unfold quic_recv_frame.
  destruct (read_loop_any key Hk _ r (qr_events r) 0 (qr_cipher r) spec_empty Hb HR ltac:(done))
    as (k' & res & c' & sp' & -> & _ & Hk' & _). exists k'. split; [|done].
  unfold MAX_QUIC_INVALID_DATAGRAMS_PER_RECV in Hk'. lia.
Qed.

(** datagrams hide the payload size.  Every datagram of a session fits the
    16 KiB budget and goes to the peer; with a legacy Shroud profile all of them
    have the one length [4 + cell_size], whatever the payloads; so a profile
    whose cells leave no room for the length prefix sends nothing at all. *)
Theorem quic_datagrams_uniform {A R} `{EqDecision A, RngLaws R, AeadOps, !AeadLaws}
    mode (a b os : R) outcomes dst key key1 payloads :
  zlen key = 32 -> Forall fits_usize payloads ->
  let s := (quic_pair (A:=A) mode a b (quic_session (mkUdpTx [] outcomes) [] dst key key1 os)).1 in
  let packets := udp_sent (q_socket (run quic_send_frame payloads s).2) in
  Forall (fun '(peer, packet) => peer = dst /\ zlen packet <= MAX_QUIC_FRAME_BYTES) packets /\
  forall profile, mode = Some profile -> is_tuned profile = false ->
    Forall (fun '(_, packet) => zlen packet = 4 + cell_size profile) packets /\
    (MAX_QUIC_FRAME_BYTES < 4 + cell_size profile -> packets = []).
Proof.
  intros Hk Hps s packets.
  destruct (quic_pair_sender mode a b (mkUdpTx [] outcomes) [] dst key key1 os Hk) as (Hs & Hn & Hpeer & Hso & Hkey).
  destruct (quic_send_run payloads s Hps Hs) as (entries & pkts & Hlog & _ & Hsent & _).
  unfold log in Hlog. fold packets in Hlog. fold s in Hpeer, Hso. rewrite Hso, Hpeer in Hlog. cbn [app udp_sent] in Hlog.
  assert (Forall (fun k => zlen k <= MAX_QUIC_FRAME_BYTES /\
    forall profile, q_shroud_profile s = Some profile -> zlen k = 4 + cell_size profile) pkts) as Hall.
  { apply Forall_forall. intros k (i & Hi)%list_elem_of_lookup_1.
    destruct (Forall2_lookup_r _ _ _ _ _ Hsent Hi) as (e & _ & plain & ct & _ & _ & _ & _ & -> & Hcar & Hmax).
    split; [done|]. intros profile Ep. rewrite Ep in *. by apply zlen_packet. }
  rewrite Forall_forall in Hall. rewrite Hlog. split.
  - apply Forall_map, Forall_forall. intros k Hin. split; [done|]. by apply Hall.
  - intros profile -> Htuned. assert (q_shroud_profile s = Some profile) as Ep.
    { unfold s. simpl. by rewrite Htuned. }
    split; [apply Forall_map, Forall_forall; intros k Hin; by apply Hall|].
    intros Hbig. destruct pkts as [|k pkts]; [done|].
    destruct (Hall k ltac:(left)) as [Hk1 Hk2]. specialize (Hk2 profile Ep). lia.
Qed.

(** ** Witnesses *)

Module Witnesses.
Import Toy.

Definition key : bytes := zreplicate 32 7.
Definition small : ShroudProfile := mkShroudProfile "randomized-lab" 300 1 1 200 false true.
Definition payloads : list bytes := [[1; 2; 3]; [4; 5]; [6]].
(** The second call fails at the socket. *)
Definition outcomes : list (option IoErrorKind) := [None; Some (IoOther "unreachable")].
Definition start : QuicSender Z Z :=
  (quic_pair (Some small) 3 4 (quic_session (mkUdpTx [] outcomes) [] 20 key [] 5)).1.
Definition sent_log : list bytes := Eval vm_compute in
  map snd (udp_sent (q_socket (run quic_send_frame payloads start).2)).
Definition schedule : list (NetEvent Z) :=
  [Noise 99 [1; 2]; Arrives 1; Arrives 0; NetFailed IoTimedOut; Arrives 1].
Definition listening : QuicReceiver Z :=
  (quic_pair (Some small) 3 4
     (quic_session (mkUdpTx [] []) (map (realize 10 sent_log) schedule) 10 [] key 5)).2.

Lemma quic_session_delivers_witness :
  oks (quic_recv_calls 6 listening).1 = [[6]; [1; 2; 3]] /\
  exists entries, map snd entries = [[1; 2; 3]; [6]] /\
    oks (quic_recv_calls 6 listening).1 = (receive_spec 128 entries [1; 0; 1]%nat spec_empty).1.
Proof.
  split; [vm_compute; reflexivity|].
  pose proof (quic_session_delivers (Some small) 3 4 5 3 4 5 outcomes 20 key [] [] (mkUdpTx [] []) payloads
    eq_refl ltac:(by_compute)) as Hs.
  assert (map snd (udp_sent (q_socket (run quic_send_frame payloads start).2)) = sent_log) as Hlog
    by (vm_compute; reflexivity).
  assert (sent payloads (run quic_send_frame payloads start).1 = [[1; 2; 3]; [6]]) as Hsent
    by (vm_compute; reflexivity).
  unfold start in Hlog, Hsent. cbv zeta in Hs.
  destruct (run quic_send_frame payloads (quic_pair _ _ _ _).1) as [rs s'].
  destruct Hs as (_ & entries & packets & Hl & _ & Hsnd & _ & Hrecv). cbn [fst snd] in Hlog, Hsent.
  exists entries. split; [by rewrite Hsnd|].
  assert (packets = sent_log) as ->.
  { rewrite <- Hlog, Hl, map_map. symmetry. apply map_id. }
  destruct (Hrecv 10 schedule 6%nat) as (_ & E & _);
    [repeat constructor; discriminate|vm_compute; repeat constructor|].
  exact E.
Defined.

Lemma quic_receiver_filters_witness :
  oks (quic_recv_calls 6 listening).1
  = oks (run (decode_datagram listening) (from_peer 10 (qr_events listening)) (qr_cipher listening)).1.
Proof.
  refine (proj1 (proj2 (quic_receiver_filters listening key 6 _ _ _ _)));
    [reflexivity|reflexivity|by_compute|vm_compute; repeat constructor].
Defined.

Lemma quic_datagrams_uniform_witness :
  map zlen sent_log = [304; 304] /\
  Forall (fun '(_, packet) => zlen packet = 304) (udp_sent (q_socket (run quic_send_frame payloads start).2)).
Proof.
  split; [vm_compute; reflexivity|].
  refine (proj1 (proj2 (quic_datagrams_uniform (Some small) 3 4 5 outcomes 20 key [] payloads _ _) small _ _));
    [reflexivity|by_compute|reflexivity|vm_compute; reflexivity].
Defined.
End Witnesses.
