(* ===== verification/Cover.v ===== *)
(** Cover traffic (shph-transport/src/cover.rs): the policy and the scheduler
    that grants dummy bytes out of a budget earned by payload bytes.  Durations
    are nanoseconds; the caller passes the clock. *)
From Stdlib Require Import Sorted.
From S2P Require Import Prelude Error Stealth.

Record CoverPolicy := mkCoverPolicy {
  interval_ms : Z;
  idle_timeout_ms : Z;
  maximum_bytes : Z;
  overhead_percent : Z
}.

#[export] Instance CoverPolicy_eq_dec : EqDecision CoverPolicy.
Proof. solve_decision. Defined.

Definition cover_validate (p : CoverPolicy) : result unit :=
  if negb (in_range 100 60000 (interval_ms p))
     || (idle_timeout_ms p <? interval_ms p)
     || (300000 <? idle_timeout_ms p)
     || (maximum_bytes p =? 0)
     || (64 * 1024 * 1024 <? maximum_bytes p)
     || negb (in_range 1 100 (overhead_percent p))
  then Err (Config "invalid cover traffic budget")
  else Ok ().

Record CoverScheduler := mkCoverScheduler {
  cover_policy : option CoverPolicy;
  last_observed : Z;
  last_data : option Z;
  last_cover : option Z;
  cover_payload_bytes : Z;
  cover_bytes : Z;
  stopped : bool
}.

Definition CoverScheduler_new (policy : option CoverPolicy) : result CoverScheduler :=
  do? (match policy with Some policy => cover_validate policy | None => Ok () end);
  Ok (mkCoverScheduler policy 0 None None 0 0 false).

Definition observe (now : Z) (s : CoverScheduler) : result unit * CoverScheduler :=
  if now <? last_observed s then (Err (InvalidArgument "cover clock moved backwards"), s)
  else (Ok (), mkCoverScheduler (cover_policy s) now (last_data s) (last_cover s)
                 (cover_payload_bytes s) (cover_bytes s) (stopped s)).

Definition record_payload (now bytes : Z) (s : CoverScheduler) : result unit * CoverScheduler :=
  let! _ok, s := observe now s in
  (Ok (), mkCoverScheduler (cover_policy s) (last_observed s) (Some now) (last_cover s)
            (saturating_add u64_max (cover_payload_bytes s) bytes) (cover_bytes s) (stopped s)).

(** [Duration - Duration] panics when the result would be negative. *)
Definition duration_sub (a b : Z) : result Z := if b <=? a then Ok (a - b) else Panic.

(** The bytes that the payload has earned. *)
Definition allowance (p : CoverPolicy) (payload_bytes : Z) : Z :=
  Z.min (payload_bytes * overhead_percent p / 100) (maximum_bytes p).

(** The refusal conditions of [reserve] in their order. *)
Definition refused (p : CoverPolicy) (now data bytes : Z) (payload_pending congested : bool)
    (s : CoverScheduler) : result bool :=
  if stopped s || payload_pending || congested || (bytes =? 0) || (4096 <? bytes) then Ok true
  else
    let? idle := duration_sub now data in
    if from_millis (idle_timeout_ms p) <=? idle then Ok true
    else
      let? since := duration_sub now (default data (last_cover s)) in
      Ok (since <? from_millis (interval_ms p)).

Definition reserve (now bytes : Z) (payload_pending congested cancelled : bool) (s : CoverScheduler)
  : result bool * CoverScheduler :=
  let! _ok, s := observe now s in
  let s := mkCoverScheduler (cover_policy s) (last_observed s) (last_data s) (last_cover s)
             (cover_payload_bytes s) (cover_bytes s) (stopped s || cancelled) in
  match cover_policy s, last_data s with
  | Some policy, Some data =>
      let! no, s := (refused policy now data bytes payload_pending congested s, s) in
      if no then (Ok false, s)
      else if saturating_sub (allowance policy (cover_payload_bytes s)) (cover_bytes s) <? bytes
      then (Ok false, s)
      else (Ok true, mkCoverScheduler (cover_policy s) (last_observed s) (last_data s) (Some now)
                       (cover_payload_bytes s) (saturating_add u64_max (cover_bytes s) bytes) (stopped s))
  | _, _ => (Ok false, s)
  end.

(** ** Lemmas *)

Definition policy_ok (p : CoverPolicy) : Prop :=
  100 <= interval_ms p <= 60000 /\ interval_ms p <= idle_timeout_ms p <= 300000 /\
  1 <= overhead_percent p <= 100 /\ 0 < maximum_bytes p <= 64 * 1024 * 1024.

Lemma cover_validate_ok p : 0 <= maximum_bytes p -> cover_validate p = Ok () <-> policy_ok p.
Proof.
  intros Hm. unfold cover_validate, policy_ok, in_range.
  destruct (_ || _) eqn:E; split; try done.
  - intros Hp. exfalso. revert E. rewrite !orb_true_iff, !negb_true_iff, !andb_false_iff.
    rewrite !Z.leb_gt, !Z.ltb_lt, Z.eqb_eq. lia.
  - intros _. rewrite !orb_false_iff, !negb_false_iff, !andb_true_iff in E.
    rewrite !Z.leb_le, !Z.ltb_ge, Z.eqb_neq in E. lia.
Qed.

(** The invariant: no stamp is in the future, and the granted bytes are earned. *)
Definition scheduler_wf (s : CoverScheduler) : Prop :=
  0 <= last_observed s /\
  (forall t, last_data s = Some t -> t <= last_observed s) /\
  (forall t, last_cover s = Some t -> t <= last_observed s) /\
  0 <= cover_payload_bytes s <= u64_max /\ 0 <= cover_bytes s /\
  match cover_policy s with
  | Some p => policy_ok p /\ cover_bytes s <= allowance p (cover_payload_bytes s)
  | None => cover_bytes s = 0
  end.

Lemma allowance_mono p a b : policy_ok p -> 0 <= a <= b -> allowance p a <= allowance p b.
Proof.
  intros (_ & _ & Ho & _) Hab. unfold allowance.
  assert (a * overhead_percent p / 100 <= b * overhead_percent p / 100); [|lia].
  apply Z.div_le_mono; nia.
Qed.

Lemma observe_cases now s :
  scheduler_wf s -> 0 <= now ->
  (now < last_observed s /\ observe now s = (Err (InvalidArgument "cover clock moved backwards"), s)) \/
  (last_observed s <= now /\ exists s', observe now s = (Ok (), s') /\ scheduler_wf s' /\
     s' = mkCoverScheduler (cover_policy s) now (last_data s) (last_cover s)
            (cover_payload_bytes s) (cover_bytes s) (stopped s)).
Proof.
  intros (H0 & Hd & Hc & Hp & Hb & Hpol) Hn. unfold observe.
  destruct (Z.ltb_spec now (last_observed s)); [by left|right].
  split; [done|]. eexists. split; [done|]. split; [|done]. unfold scheduler_wf. cbn.
  split_and!; try done; try lia; intros t Ht; [specialize (Hd t Ht)|specialize (Hc t Ht)]; lia.
Qed.

Lemma record_payload_cases now n s :
  scheduler_wf s -> 0 <= now -> 0 <= n ->
  (now < last_observed s /\ record_payload now n s = (Err (InvalidArgument "cover clock moved backwards"), s)) \/
  (last_observed s <= now /\ exists s', record_payload now n s = (Ok (), s') /\ scheduler_wf s' /\
     last_observed s' = now /\ last_data s' = Some now /\ last_cover s' = last_cover s /\
     cover_policy s' = cover_policy s /\ cover_bytes s' = cover_bytes s /\ stopped s' = stopped s /\
     cover_payload_bytes s' = saturating_add u64_max (cover_payload_bytes s) n).
Proof.
  intros Hs Hn Hn0. unfold record_payload.
  destruct (observe_cases now s Hs Hn) as [[Hlt ->]|(Hge & s1 & -> & Hs1 & E)]; [by left|right].
  split; [done|]. cbn [sbind]. eexists. split; [done|]. subst s1. cbn.
  split_and!; try done. destruct Hs1 as (H0 & Hd & Hc & Hp & Hb & Hpol). cbn in *.
  assert (0 <= saturating_add u64_max (cover_payload_bytes s) n <= u64_max /\
    cover_payload_bytes s <= saturating_add u64_max (cover_payload_bytes s) n) as [Hsat1 Hsat2]
    by (unfold saturating_add, u64_max in *; lia).
  unfold scheduler_wf. cbn. split_and!; try done; try lia; [intros t [= <-]; lia|].
  destruct (cover_policy s) as [p|]; [|done]. destruct Hpol as [Hok Hle]. split; [done|].
  etransitivity; [exact Hle|]. apply allowance_mono; [done|lia].
Qed.

(** A grant: everything that must hold when cover bytes are released. *)
Definition grant_ok (now n : Z) (s s' : CoverScheduler) : Prop :=
  exists p data, cover_policy s = Some p /\ last_data s = Some data /\ stopped s = false /\
    0 < n <= 4096 /\ now - data < from_millis (idle_timeout_ms p) /\
    from_millis (interval_ms p) <= now - default data (last_cover s) /\
    cover_bytes s' = cover_bytes s + n /\ cover_bytes s' <= allowance p (cover_payload_bytes s) /\
    last_cover s' = Some now.

Lemma reserve_cases now n pending congested cancelled s :
  scheduler_wf s -> 0 <= now -> 0 <= n ->
  (now < last_observed s /\
   reserve now n pending congested cancelled s = (Err (InvalidArgument "cover clock moved backwards"), s)) \/
  (last_observed s <= now /\ exists b s',
     reserve now n pending congested cancelled s = (Ok b, s') /\ scheduler_wf s' /\
     last_observed s' = now /\ last_data s' = last_data s /\ cover_policy s' = cover_policy s /\
     cover_payload_bytes s' = cover_payload_bytes s /\ stopped s' = stopped s || cancelled /\
     (if b then pending = false /\ congested = false /\ cancelled = false /\ grant_ok now n s s'
      else cover_bytes s' = cover_bytes s /\ last_cover s' = last_cover s)).
Proof.
  intros Hs Hn Hn0. unfold reserve.
  destruct (observe_cases now s Hs Hn) as [[Hlt ->]|(Hge & s1 & -> & Hs1 & E)]; [by left|right].
  split; [done|]. cbn [sbind]. subst s1. cbn [cover_policy last_data last_observed last_cover cover_payload_bytes cover_bytes stopped].
  set (s2 := mkCoverScheduler _ _ _ _ _ _ _). assert (scheduler_wf s2) as Hs2 by exact Hs1.
  assert (forall P : Prop, P -> (stopped s || cancelled = stopped s2) -> P) as _ by auto.
  assert (exists b s', (Ok false, s2) = (Ok b, s') /\ scheduler_wf s' /\
     last_observed s' = now /\ last_data s' = last_data s /\ cover_policy s' = cover_policy s /\
     cover_payload_bytes s' = cover_payload_bytes s /\ stopped s' = stopped s || cancelled /\
     (if b then pending = false /\ congested = false /\ cancelled = false /\ grant_ok now n s s'
      else cover_bytes s' = cover_bytes s /\ last_cover s' = last_cover s)) as Hno by (by exists false, s2).
  destruct (cover_policy s) as [p|] eqn:Ep; [|done]. destruct (last_data s) as [data|] eqn:Ed; [|done].
  destruct Hs2 as (H0 & Hd & Hc & Hp & Hb & Hpol). unfold s2 in Hd, Hc, Hpol. cbn in Hd, Hc, Hpol.
  specialize (Hd data eq_refl). unfold refused. cbn [stopped s2].
  destruct (_ || (4096 <? n)) eqn:Eg; [done|]. rewrite !orb_false_iff in Eg.
  destruct Eg as (((((Est & Ecan) & Epe) & Eco) & En0%Z.eqb_neq) & En1%Z.ltb_ge).
  unfold duration_sub. rewrite (proj2 (Z.leb_le data now)) by done. cbn [rbind].
  destruct (Z.leb_spec (from_millis (idle_timeout_ms p)) (now - data)); [done|].
  cbn [last_cover s2]. assert (default data (last_cover s) <= now) as Hdef.
  { destruct (last_cover s) as [t|] eqn:Et; [by apply Hc|done]. }
  rewrite (proj2 (Z.leb_le _ now)) by done. cbn [rbind sbind].
  destruct (Z.ltb_spec (now - default data (last_cover s)) (from_millis (interval_ms p))); [done|].
  cbn [cover_payload_bytes cover_bytes s2].
  destruct (Z.ltb_spec (saturating_sub (allowance p (cover_payload_bytes s)) (cover_bytes s)) n) as [|Hfit]; [done|].
  cbn [cover_payload_bytes cover_bytes s2] in *. destruct Hpol as [Hok Hle].
  unfold saturating_sub in Hfit. pose proof Hok as (_ & _ & _ & Hmax).
  assert (allowance p (cover_payload_bytes s) <= 64 * 1024 * 1024) as Hall by (unfold allowance; lia).
  assert (saturating_add u64_max (cover_bytes s) n = cover_bytes s + n) as Esat
    by (unfold saturating_add, u64_max; lia).
  eexists true, _. split; [done|]. rewrite Esat. unfold scheduler_wf, grant_ok. cbn. rewrite Ep.
  split_and!; try done; try lia.
  - by intros t [= <-].
  - intros t [= <-]. lia.
  - exists p, data. split_and!; (done || lia).
Qed.

(** ** Runs of the scheduler *)

Inductive CoverOp :=
  | OpRecord (now n : Z)
  | OpReserve (now n : Z) (pending congested cancelled : bool).

Definition op_ok (op : CoverOp) : Prop :=
  match op with OpRecord now n | OpReserve now n _ _ _ => 0 <= now /\ 0 <= n end.

#[export] Instance op_ok_dec op : Decision (op_ok op).
Proof. destruct op; apply _. Defined.

(** One call; a recorded payload grants nothing. *)
Definition cover_step (op : CoverOp) (s : CoverScheduler) : result bool * CoverScheduler :=
  match op with
  | OpRecord now n => let! _ok, s := record_payload now n s in (Ok false, s)
  | OpReserve now n pending congested cancelled => reserve now n pending congested cancelled s
  end.

(** The grants of a run, with their times, and the payload bytes recorded. *)
Definition grants (ops : list CoverOp) (rs : list (result bool)) : list (Z * Z) :=
  flat_map (fun '(op, r) => match op, r with OpReserve now n _ _ _, Ok true => [(now, n)] | _, _ => [] end)
    (zip ops rs).
Definition recorded (ops : list CoverOp) (rs : list (result bool)) : Z :=
  fold_right Z.add 0 (map (fun '(op, r) => match op, r with OpRecord _ n, Ok _ => n | _, _ => 0 end)
    (zip ops rs)).
Definition total (gs : list (Z * Z)) : Z := fold_right Z.add 0 (map snd gs).

Definition spaced (p : CoverPolicy) (a b : Z * Z) : Prop := a.1 + from_millis (interval_ms p) <= b.1.

Lemma cover_step_keeps op s :
  scheduler_wf s -> op_ok op ->
  no_panic (cover_step op s).1 /\ scheduler_wf (cover_step op s).2 /\
  cover_policy (cover_step op s).2 = cover_policy s /\
  cover_payload_bytes (cover_step op s).2 <= cover_payload_bytes s + recorded [op] [(cover_step op s).1] /\
  (stopped s = true -> stopped (cover_step op s).2 = true) /\
  ((grants [op] [(cover_step op s).1] = [] /\ last_cover (cover_step op s).2 = last_cover s /\
    cover_bytes (cover_step op s).2 = cover_bytes s) \/
   exists now n, grants [op] [(cover_step op s).1] = [(now, n)] /\ grant_ok now n s (cover_step op s).2).
Proof.
  intros Hs Hop. destruct op as [now n|now n pending congested cancelled]; destruct Hop as [Hnow Hn]; cbn [cover_step].
  - destruct (record_payload_cases now n s Hs Hnow Hn)
      as [[_ ->]|(_ & s' & -> & Hs' & _ & _ & Hc & Hp & Hb & Hst & Hpay)]; cbn.
    + split_and!; try done; [lia|by left].
    + split_and!; try done; [rewrite Hpay; unfold saturating_add; lia|congruence|by left].
  - destruct (reserve_cases now n pending congested cancelled s Hs Hnow Hn)
      as [[_ ->]|(_ & b & s' & -> & Hs' & _ & _ & Hp & Hpay & Hst & Hb)]; cbn.
    + split_and!; try done; [lia|by left].
    + split_and!; try done; [lia|rewrite Hst; by intros ->|]. destruct b.
      * right. exists now, n. split; [done|]. by destruct Hb as (_ & _ & _ & ?).
      * left. by destruct Hb.
Qed.

Lemma cover_run ops s :
  scheduler_wf s -> Forall op_ok ops ->
  let out := run cover_step ops s in
  Forall no_panic out.1 /\ scheduler_wf out.2 /\ cover_policy out.2 = cover_policy s /\
  cover_bytes out.2 = cover_bytes s + total (grants ops out.1) /\
  cover_payload_bytes out.2 <= cover_payload_bytes s + recorded ops out.1 /\
  (stopped s = true -> grants ops out.1 = []) /\
  Forall (fun g => 0 < g.2 <= 4096) (grants ops out.1) /\
  match cover_policy s with
  | Some p => StronglySorted (spaced p) (grants ops out.1) /\
      (forall t, last_cover s = Some t -> Forall (spaced p (t, 0)) (grants ops out.1))
  | None => grants ops out.1 = []
  end.
Proof.
  intros Hs Hops. revert s Hs. induction Hops as [|op ops Hop Hops IH]; intros s Hs; cbv zeta.
  { cbn. split_and!; try done; try lia. destruct (cover_policy s); [|done]. split; constructor. }
  destruct (cover_step_keeps op s Hs Hop) as (Hn & Hs1 & Hp1 & Hpay1 & Hst1 & Hg).
  rewrite run_cons. cbn [fst snd]. destruct (cover_step op s) as [r s1]. cbn [fst snd] in *.
  destruct (IH s1 Hs1) as (I1 & I2 & I3 & I4 & I5 & I6 & I7 & I8). rewrite Hp1 in I3, I8.
  set (rs := (run cover_step ops s1).1) in *. set (s2 := (run cover_step ops s1).2) in *.
  assert (grants (op :: ops) (r :: rs) = grants [op] [r] ++ grants ops rs) as -> by (cbn; by rewrite app_nil_r).
  assert (recorded (op :: ops) (r :: rs) = recorded [op] [r] + recorded ops rs) as ->
    by (unfold recorded; cbn; lia).
  assert (forall l k, total (l ++ k) = total l + total k) as Htot.
  { intros l k. unfold total. induction l as [|x l IHl]; cbn; [lia|]. rewrite IHl. lia. }
  rewrite Htot, Forall_app. destruct Hg as [(-> & Hlc & Hcb)|(now & n & -> & Hg)].
  - cbn [app]. change (total []) with 0. split_and!; try done; try lia; [by constructor|by intros ?%Hst1%I6|].
    by rewrite Hlc in I8.
  - destruct Hg as (p & data & Ep & Ed & Est & Hn4 & Hidle & Hint & Hcb & Hall & Hlc). rewrite Ep in *.
    cbn [app]. change (total [(now, n)]) with (n + 0). destruct I8 as [Hsort Hnext]. specialize (Hnext now Hlc).
    assert (0 <= from_millis (interval_ms p)) as Hi0.
    { destruct Hs as (_ & _ & _ & _ & _ & Hpol). rewrite Ep in Hpol. destruct Hpol as [(? & _) _].
      unfold from_millis. lia. }
    split_and!; try done; try lia; [by constructor|congruence|by (constructor; [exact Hn4|constructor])|by constructor|].
    intros t Et. rewrite Et in Hint. cbn [default id] in Hint. constructor; [unfold spaced; cbn; lia|].
    eapply Forall_impl; [exact Hnext|]. unfold spaced. cbn. lia.
Qed.

(** ** Properties *)

(** cover traffic stays within its budget.  A scheduler accepts exactly the
    policies within the documented limits.  Whatever sequence of payload records
    and reservations is made, with any clock readings, no call panics; the bytes
    granted are at most the configured percentage of the recorded payload bytes
    and at most the absolute maximum; each grant is at most 4096 bytes and at
    least one interval after the previous one; without a policy nothing is
    granted, and nothing is granted after a cancellation. *)
Theorem cover_budget_kept policy s ops :
  (forall p, policy = Some p -> 0 <= maximum_bytes p) ->
  CoverScheduler_new policy = Ok s -> Forall op_ok ops ->
  let out := run cover_step ops s in
  Forall no_panic out.1 /\
  match policy with
  | None => grants ops out.1 = []
  | Some p => policy_ok p /\
      total (grants ops out.1) <= allowance p (recorded ops out.1) /\
      Forall (fun g => 0 < g.2 <= 4096) (grants ops out.1) /\
      StronglySorted (spaced p) (grants ops out.1)
  end /\
  (stopped out.2 = true -> forall more, Forall op_ok more ->
     grants more (run cover_step more out.2).1 = []).
Proof.
  intros Hm Hnew Hops out.
  assert (s = mkCoverScheduler policy 0 None None 0 0 false /\
    match policy with Some p => policy_ok p | None => True end) as [-> Hpol].
  { unfold CoverScheduler_new in Hnew. destruct policy as [p|]; [|by injection Hnew as <-].
    apply rbind_ok in Hnew as ([] & Hv & [= <-]). split; [done|].
    apply (proj1 (cover_validate_ok p (Hm p eq_refl))), Hv. }
  assert (scheduler_wf (mkCoverScheduler policy 0 None None 0 0 false)) as Hwf.
  { unfold scheduler_wf. cbn. split_and!; try done. destruct policy as [p|]; [|done]. split; [done|].
    unfold allowance. rewrite Z.mul_0_l, Z.div_0_l by done. destruct Hpol as (_ & _ & _ & ?). lia. }
  destruct (cover_run ops _ Hwf Hops) as (H1 & H2 & H3 & H4 & H5 & _ & H7 & H8). fold out in H1, H2, H3, H4, H5, H7, H8.
  split; [done|]. split.
  - destruct policy as [p|]; [|done]. cbn [cover_policy cover_bytes cover_payload_bytes] in *.
    destruct H2 as (_ & _ & _ & Hpay & _ & Hpol2). rewrite H3 in Hpol2. destruct Hpol2 as [_ Hle].
    split_and!; try done; [|by destruct H8]. etransitivity; [|apply (allowance_mono p (cover_payload_bytes out.2)); [done|lia]].
    lia.
  - intros Hst more Hmore. by apply (cover_run more out.2 H2 Hmore).
Qed.

(** ** Witnesses *)

Module Witnesses.
Definition steady : CoverPolicy := mkCoverPolicy 100 5000 10000 50.
Definition start : CoverScheduler := mkCoverScheduler (Some steady) 0 None None 0 0 false.
(** Too early, granted, too soon, over budget, cancelled. *)
Definition ops : list CoverOp :=
  [OpRecord 1000 1000; OpReserve 2000 100 false false false;
   OpReserve 200000000 100 false false false; OpReserve 250000000 100 false false false;
   OpReserve 400000000 401 false false false; OpReserve 400000000 400 false false true].

Lemma cover_budget_kept_witness :
  grants ops (run cover_step ops start).1 = [(200000000, 100)] /\
  total (grants ops (run cover_step ops start).1) <= allowance steady (recorded ops (run cover_step ops start).1).
Proof.
  split; [vm_compute; reflexivity|].
  refine (proj1 (proj2 (proj1 (proj2 (cover_budget_kept (Some steady) start ops _ _ _)))));
    [intros p [= <-]; vm_compute; discriminate|reflexivity|by_compute].
Defined.
End Witnesses.
