(* ===== verification/Mt19937.v ===== *)
(** The seeded shuffle of SNAP retry rounds (shph-snap/src/lib.rs):
    [PythonMt19937], the Mersenne Twister with Python's seeding, its rejection
    sampling and [python_seeded_shuffle].  The generator is a linear recurrence
    over 32-bit words; that recurrence bounds the rejection loop. *)
From S2P Require Import Prelude Error.

(** ** The generator *)

Record PythonMt19937 := mkMt { state : list Z; mt_index : Z }.

(** [random.state[index] = 1_812_433_253.wrapping_mul(..).wrapping_add(index)], for [n] indices from [i]. *)
Fixpoint fill_state (n : nat) (i : Z) (st : list Z) : result (list Z) :=
  match n with
  | O => Ok st
  | S n =>
      let? previous := index st (i - 1) in
      let? st := store st i (cast 32 (cast 32 (1812433253 * Z.lxor previous (Z.shiftr previous 30)) + i)) in
      fill_state n (i + 1) st
  end.

(** Advance [state_index]; past the end the last word wraps to the front. *)
Definition next_state_index (st : list Z) (i : Z) : result (list Z * Z) :=
  if 624 <=? i + 1 then
    let? last := index st 623 in
    let? st := store st 0 last in
    Ok (st, 1)
  else Ok (st, i + 1).

(** The first pass over the key. *)
Fixpoint mix_key (n : nat) (key : list Z) (st : list Z) (i k : Z) : result (list Z * Z) :=
  match n with
  | O => Ok (st, i)
  | S n =>
      let? previous := index st (i - 1) in
      let? word := index st i in
      let? part := index key k in
      let? st := store st i (cast 32 (cast 32 (
        Z.lxor word (cast 32 (Z.lxor previous (Z.shiftr previous 30) * 1664525)) + part) + cast 32 k)) in
      let? '(st, i) := next_state_index st i in
      let k := k + 1 in
      mix_key n key st i (if zlen key <=? k then 0 else k)
  end.

(** The second pass. *)
Fixpoint mix_index (n : nat) (st : list Z) (i : Z) : result (list Z * Z) :=
  match n with
  | O => Ok (st, i)
  | S n =>
      let? previous := index st (i - 1) in
      let? word := index st i in
      let? st := store st i (cast 32 (
        Z.lxor word (cast 32 (Z.lxor previous (Z.shiftr previous 30) * 1566083941)) - cast 32 i)) in
      let? '(st, i) := next_state_index st i in
      mix_index n st i
  end.

Definition seed_key (seed : Z) : list Z :=
  cast 32 seed :: (if negb (Z.shiftr seed 32 =? 0) then [cast 32 (Z.shiftr seed 32)] else []).

Definition mt_new (seed : Z) : result PythonMt19937 :=
  let? st := store (zreplicate 624 0) 0 19650218 in
  let? st := fill_state 623 1 st in
  let key := seed_key seed in
  let? '(st, i) := mix_key (Z.to_nat (Z.max 624 (zlen key))) key st 1 0 in
  let? '(st, _) := mix_index 623 st i in
  let? st := store st 0 0x80000000 in
  Ok (mkMt st 624).

(** One word of [twist]: [state[i]] from itself, [state[j]] and [state[k]]. *)
Definition mix (a b c : Z) : Z :=
  let value := Z.lor (Z.land a 0x80000000) (Z.land b 0x7fffffff) in
  Z.lxor (Z.lxor c (Z.shiftr value 1)) (if Z.land value 1 =? 0 then 0 else 0x9908b0df).

Definition twist_word (st : list Z) (i j k : Z) : result (list Z) :=
  let? a := index st i in
  let? b := index st j in
  let? c := index st k in
  store st i (mix a b c).

(** [n] words from [i]; [offset i] is the third index. *)
Fixpoint twist_words (n : nat) (offset : Z) (st : list Z) (i : Z) : result (list Z) :=
  match n with
  | O => Ok st
  | S n =>
      let? st := twist_word st i (i + 1) (i + offset) in
      twist_words n offset st (i + 1)
  end.

Definition twist (m : PythonMt19937) : result PythonMt19937 :=
  let? st := twist_words 227 397 (state m) 0 in
  let? st := twist_words 396 (- 227) st 227 in
  let? st := twist_word st 623 0 396 in
  Ok (mkMt st 0).

Definition temper (value : Z) : Z :=
  let value := Z.lxor value (Z.shiftr value 11) in
  let value := Z.lxor value (Z.land (cast 32 (Z.shiftl value 7)) 0x9d2c5680) in
  let value := Z.lxor value (Z.land (cast 32 (Z.shiftl value 15)) 0xefc60000) in
  Z.lxor value (Z.shiftr value 18).

Definition next_u32 (m : PythonMt19937) : result (Z * PythonMt19937) :=
  let? m := (if 624 <=? mt_index m then twist m else Ok m) in
  let? value := index (state m) (mt_index m) in
  Ok (temper value, mkMt (state m) (mt_index m + 1)).

(** [usize::BITS - upper_bound.leading_zeros()] *)
Definition bit_length (n : Z) : Z := if n =? 0 then 0 else Z.log2 n + 1.

(** The rejection loop; [None]: out of fuel. *)
Fixpoint randbelow_loop (fuel : nat) (bits upper_bound : Z) (m : PythonMt19937) : option (result (Z * PythonMt19937)) :=
  match fuel with
  | O => None
  | S fuel =>
      match next_u32 m with
      | Ok (word, m) =>
          let value := Z.shiftr word (32 - bits) in
          if value <? upper_bound then Some (Ok (value, m)) else randbelow_loop fuel bits upper_bound m
      | Err e => Some (Err e)
      | Panic => Some Panic
      end
  end.

(** Enough for every state, by [randbelow_total]. *)
Definition RANDBELOW_FUEL : nat := Z.to_nat 20000.

Definition randbelow (upper_bound : Z) (m : PythonMt19937) : option (result (Z * PythonMt19937)) :=
  randbelow_loop RANDBELOW_FUEL (bit_length upper_bound) upper_bound m.

(** [values.swap(a, b)] *)
Definition swap {A} (l : list A) (a b : Z) : result (list A) :=
  let? x := index l a in
  let? y := index l b in
  let? l := store l a y in
  store l b x.

(** The loop of the shuffle, for the indices [n], ..., 1. *)
Fixpoint shuffle_loop {A} (n : nat) (values : list A) (m : PythonMt19937) : option (result (list A)) :=
  match n with
  | O => Some (Ok values)
  | S n' =>
      match randbelow (Z.of_nat n + 1) m with
      | Some (Ok (selected, m)) =>
          match swap values (Z.of_nat n) selected with
          | Ok values => shuffle_loop n' values m
          | Err e => Some (Err e)
          | Panic => Some Panic
          end
      | Some (Err e) => Some (Err e)
      | Some Panic => Some Panic
      | None => None
      end
  end.

Definition python_seeded_shuffle {A} (values : list A) (seed : Z) : option (result (list A)) :=
  match mt_new seed with
  | Ok random => shuffle_loop (length values - 1) values random
  | Err e => Some (Err e)
  | Panic => Some Panic
  end.

(** ** Lemmas: the words of a state *)

Definition u32 (x : Z) : Prop := 0 <= x < 2 ^ 32.

Lemma cast_u32 x : u32 (cast 32 x).
Proof. apply Z.mod_pos_bound. done. Qed.

Lemma u32_bits x : 0 <= x -> (forall j, 32 <= j -> Z.testbit x j = false) -> u32 x.
Proof.
  intros Hx Hb. split; [done|]. destruct (Z.lt_ge_cases x (2 ^ 32)) as [|Hge]; [done|].
  assert (32 <= Z.log2 x) as Hl by (apply Z.log2_le_pow2; lia).
  specialize (Hb _ Hl). rewrite Z.bit_log2 in Hb; [done|lia].
Qed.

Lemma u32_high x j : u32 x -> 32 <= j -> Z.testbit x j = false.
Proof.
  intros [Hx Hlt] Hj. destruct (decide (x = 0)) as [->|]; [apply Z.bits_0|]. apply Z.bits_above_log2; [done|].
  apply (Z.lt_le_trans _ 32); [apply Z.log2_lt_pow2; lia|done].
Qed.

Lemma lxor_u32 a b : u32 a -> u32 b -> u32 (Z.lxor a b).
Proof.
  intros Ha Hb. apply u32_bits; [apply Z.lxor_nonneg; unfold u32 in *; lia|]. intros j Hj. by rewrite Z.lxor_spec, !u32_high.
Qed.

Lemma land_u32 a b : u32 a -> u32 (Z.land a b).
Proof.
  intros Ha. apply u32_bits; [apply Z.land_nonneg; left; apply Ha|]. intros j Hj. by rewrite Z.land_spec, (u32_high a).
Qed.

Lemma lor_u32 a b : u32 a -> u32 b -> u32 (Z.lor a b).
Proof.
  intros Ha Hb. apply u32_bits; [apply Z.lor_nonneg; unfold u32 in *; lia|]. intros j Hj. by rewrite Z.lor_spec, !u32_high.
Qed.

Lemma shiftr_u32 a n : 0 <= n -> u32 a -> u32 (Z.shiftr a n).
Proof.
  intros Hn Ha. apply u32_bits; [apply Z.shiftr_nonneg, Ha|]. intros j Hj. rewrite Z.shiftr_spec by lia. apply u32_high; [done|lia].
Qed.

Definition words624 (st : list Z) : Prop := zlen st = 624 /\ Forall u32 st.

Lemma store_words st i x : words624 st -> 0 <= i < 624 -> u32 x ->
  exists st', store st i x = Ok st' /\ words624 st' /\ st' = <[Z.to_nat i := x]> st.
Proof.
  intros [Hst Hu] Hi Hx. rewrite store_insert by lia. eexists. split; [done|]. split; [|done].
  split; [by rewrite zlen_insert|by apply Forall_insert].
Qed.

Lemma index_words st i : words624 st -> 0 <= i < 624 -> exists x, index st i = Ok x /\ u32 x.
Proof.
  intros [Hst Hu] Hi. destruct (index_ok st i) as (x & E & Hx); [lia|]. exists x. split; [done|].
  by eapply Forall_lookup_1.
Qed.

Lemma fill_state_ok n i st : words624 st -> 1 <= i -> i + Z.of_nat n <= 624 ->
  exists st', fill_state n i st = Ok st' /\ words624 st'.
Proof.
  revert i st. induction n as [|n IH]; intros i st Hst Hi Hn; [by eexists|]. cbn [fill_state].
  destruct (index_words st (i - 1) Hst) as (p & -> & _); [lia|]. cbn [rbind].
  edestruct (store_words st i) as (st1 & -> & Hst1 & _); [done|lia|apply cast_u32|]. cbn [rbind]. apply IH; [done|lia..].
Qed.

Lemma next_state_index_ok st i : words624 st -> 1 <= i < 624 ->
  exists st' i', next_state_index st i = Ok (st', i') /\ words624 st' /\ 1 <= i' < 624.
Proof.
  intros Hst Hi. unfold next_state_index. destruct (Z.leb_spec 624 (i + 1)); [|do 2 eexists; split; [done|split; [done|lia]]].
  destruct (index_words st 623 Hst) as (p & -> & Hp); [lia|]. cbn [rbind].
  edestruct (store_words st 0) as (st1 & -> & Hst1 & _); [done|lia|done|]. cbn [rbind]. by do 2 eexists.
Qed.

Lemma mix_key_ok n key st i k : words624 st -> 1 <= i < 624 -> 0 <= k < zlen key ->
  exists st' i', mix_key n key st i k = Ok (st', i') /\ words624 st' /\ 1 <= i' < 624.
Proof.
  revert st i k. induction n as [|n IH]; intros st i k Hst Hi Hk; [by do 2 eexists|]. cbn [mix_key].
  destruct (index_words st (i - 1) Hst) as (p & -> & _); [lia|]. cbn [rbind].
  destruct (index_words st i Hst) as (w & -> & _); [lia|]. cbn [rbind].
  destruct (index_ok key k Hk) as (q & -> & _). cbn [rbind].
  edestruct (store_words st i) as (st1 & -> & Hst1 & _); [done|lia|apply cast_u32|]. cbn [rbind].
  destruct (next_state_index_ok st1 i Hst1 Hi) as (st2 & i2 & -> & Hst2 & Hi2). cbn [rbind].
  apply IH; [done..|]. destruct (Z.leb_spec (zlen key) (k + 1)); lia.
Qed.

Lemma mix_index_ok n st i : words624 st -> 1 <= i < 624 ->
  exists st' i', mix_index n st i = Ok (st', i') /\ words624 st' /\ 1 <= i' < 624.
Proof.
  revert st i. induction n as [|n IH]; intros st i Hst Hi; [by do 2 eexists|]. cbn [mix_index].
  destruct (index_words st (i - 1) Hst) as (p & -> & _); [lia|]. cbn [rbind].
  destruct (index_words st i Hst) as (w & -> & _); [lia|]. cbn [rbind].
  edestruct (store_words st i) as (st1 & -> & Hst1 & _); [done|lia|apply cast_u32|]. cbn [rbind].
  destruct (next_state_index_ok st1 i Hst1 Hi) as (st2 & i2 & -> & Hst2 & Hi2). cbn [rbind]. by apply IH.
Qed.

(** A state: 624 words and a position among them. *)
Definition mt_ok (m : PythonMt19937) : Prop := words624 (state m) /\ 0 <= mt_index m <= 624.

Lemma mt_new_ok seed : exists m, mt_new seed = Ok m /\ mt_ok m.
Proof.
  unfold mt_new. edestruct (store_words (zreplicate 624 0) 0) as (st1 & -> & H1 & _); [split; [by_compute|by apply Forall_replicate]|lia|by_compute|]. cbn [rbind].
  destruct (fill_state_ok 623 1 st1 H1) as (st2 & -> & H2); [lia..|]. cbn [rbind].
  assert (0 <= 0 < zlen (seed_key seed)) as Hk by (unfold seed_key; zl).
  destruct (mix_key_ok (Z.to_nat (Z.max 624 (zlen (seed_key seed)))) (seed_key seed) st2 1 0 H2) as (st3 & i3 & -> & H3 & Hi3); [lia|done|].
  cbn [rbind]. destruct (mix_index_ok 623 st3 i3 H3 Hi3) as (st4 & i4 & -> & H4 & _). cbn [rbind].
  edestruct (store_words st4 0) as (st5 & -> & H5 & _); [done|lia|by_compute|]. cbn [rbind]. eexists. split; [done|]. by split.
Qed.

(** ** Lemmas: the words as a recurrence *)

(** The sequence of words: the state and what the twists append to it. *)
Definition recurs (X : Z -> Z) : Prop :=
  forall k, 0 <= k -> u32 (X k) /\ X (k + 624) = mix (X k) (X (k + 1)) (X (k + 397)).

Lemma mix_u32 a b c : u32 a -> u32 b -> u32 c -> u32 (mix a b c).
Proof.
  intros Ha Hb Hc. unfold mix. assert (u32 (Z.lor (Z.land a 0x80000000) (Z.land b 0x7fffffff))) as Hv.
  { by apply lor_u32; apply land_u32. }
  apply lxor_u32; [apply lxor_u32; [done|by apply shiftr_u32]|]. destruct (_ =? 0); by_compute.
Qed.

(** The state holds the words from [b] on. *)
Definition holds (X : Z -> Z) (b : Z) (st : list Z) : Prop :=
  words624 st /\ forall k, 0 <= k < 624 -> index st k = Ok (X (b + k)).

Fixpoint word_seq (fuel : nat) (st : list Z) (k : Z) : Z :=
  match fuel with
  | O => 0
  | S fuel =>
      if k <? 624 then match index st k with Ok x => x | _ => 0 end
      else mix (word_seq fuel st (k - 624)) (word_seq fuel st (k - 624 + 1)) (word_seq fuel st (k - 624 + 397))
  end.

Lemma word_seq_fuel f g st k : 0 <= k < Z.of_nat f -> k < Z.of_nat g -> word_seq f st k = word_seq g st k.
Proof.
  revert g k. induction f as [|f IH]; intros [|g] k Hf Hg; [lia..|]. cbn [word_seq].
  destruct (Z.ltb_spec k 624); [done|]. f_equal; apply IH; lia.
Qed.

Lemma word_seq_u32 f st k : words624 st -> u32 (word_seq f st k).
Proof.
  intros Hst. revert k. induction f as [|f IH]; intros k; cbn [word_seq]; [by_compute|].
  destruct (Z.ltb_spec k 624); [|by apply mix_u32]. destruct (Z.lt_ge_cases k 0) as [Hn|].
  - unfold index. rewrite (proj2 (Z.ltb_lt _ _)) by done. by_compute.
  - by destruct (index_words st k Hst) as (x & -> & Hx).
Qed.

(** Every state begins such a sequence. *)
Lemma recurrence_exists st : words624 st -> exists X, recurs X /\ holds X 0 st.
Proof.
  intros Hst. exists (fun k => word_seq (Z.to_nat k + 1) st k). split; [|split; [done|]].
  - intros k Hk. split; [by apply word_seq_u32|]. replace (Z.to_nat (k + 624) + 1)%nat with (S (Z.to_nat (k + 624))) by lia. cbn [word_seq].
    rewrite (proj2 (Z.ltb_ge _ _)) by lia. replace (k + 624 - 624) with k by lia. f_equal; apply word_seq_fuel; lia.
  - intros k Hk. rewrite Z.add_0_l. replace (Z.to_nat k + 1)%nat with (S (Z.to_nat k)) by lia. cbn [word_seq].
    rewrite (proj2 (Z.ltb_lt _ _)) by lia. by destruct (index_words st k Hst) as (x & -> & _).
Qed.

(** During a twist: the first [i] words are those of the next state. *)
Definition partly (X : Z -> Z) (b i : Z) (st : list Z) : Prop :=
  words624 st /\ forall k, 0 <= k < 624 -> index st k = Ok (X (if k <? i then b + 624 + k else b + k)).

Lemma index_insert {A} (l : list A) i k (x : A) : 0 <= i < zlen l -> 0 <= k ->
  index (<[Z.to_nat i := x]> l) k = if k =? i then Ok x else index l k.
Proof.
  intros Hi Hk. unfold index. rewrite !(proj2 (Z.ltb_ge k 0)) by lia. destruct (Z.eqb_spec k i) as [->|Hne].
  - rewrite list_lookup_insert_eq; [done|]. unfold zlen in Hi. lia.
  - by rewrite list_lookup_insert_ne by lia.
Qed.

Lemma twist_word_ok X b i st : recurs X -> 0 <= b -> 0 <= i < 624 -> partly X b i st ->
  exists st', twist_word st i (if i =? 623 then 0 else i + 1) (if i <? 227 then i + 397 else i - 227) = Ok st' /\ partly X b (i + 1) st'.
Proof.
  intros HX Hb Hi [Hst Hp]. unfold twist_word. rewrite (Hp i) by lia. cbn [rbind].
  rewrite (Hp (if i =? 623 then 0 else i + 1)) by (destruct (Z.eqb_spec i 623); lia). cbn [rbind].
  rewrite (Hp (if i <? 227 then i + 397 else i - 227)) by (destruct (Z.ltb_spec i 227); lia). cbn [rbind].
  set (x := mix _ _ _). assert (x = X (b + i + 624)) as ->.
  { rewrite (proj2 (HX (b + i) ltac:(lia))). unfold x. f_equal; f_equal.
    - rewrite (proj2 (Z.ltb_ge _ _)) by lia. done.
    - destruct (Z.eqb_spec i 623); case_match eqn:E; rewrite ?Z.ltb_lt, ?Z.ltb_ge in E; lia.
    - destruct (Z.ltb_spec i 227); case_match eqn:E; rewrite ?Z.ltb_lt, ?Z.ltb_ge in E; lia. }
  destruct (store_words st i (X (b + i + 624)) Hst Hi) as (st' & -> & Hst' & E); [apply HX; lia|]. exists st'. split; [done|]. split; [done|].
  intros k Hk. rewrite E, index_insert by (destruct Hst; lia). destruct (Z.eqb_spec k i) as [->|Hne].
  - rewrite (proj2 (Z.ltb_lt _ _)) by lia. do 2 f_equal. lia.
  - rewrite Hp by lia. do 2 f_equal. destruct (Z.ltb_spec k i), (Z.ltb_spec k (i + 1)); lia.
Qed.

Lemma twist_words_ok X b n offset st i : recurs X -> 0 <= b -> 0 <= i -> i + Z.of_nat n <= 623 ->
  (forall k, i <= k < i + Z.of_nat n -> k + offset = if k <? 227 then k + 397 else k - 227) ->
  partly X b i st -> exists st', twist_words n offset st i = Ok st' /\ partly X b (i + Z.of_nat n) st'.
Proof.
  intros HX Hb. revert st i. induction n as [|n IH]; intros st i Hi Hn Hoff Hp.
  - exists st. split; [done|]. by rewrite Z.add_0_r.
  - cbn [twist_words]. destruct (twist_word_ok X b i st HX Hb) as (st1 & E & Hp1); [lia|done|].
    rewrite (proj2 (Z.eqb_neq i 623)), <- (Hoff i) in E by lia. rewrite E. cbn [rbind].
    destruct (IH st1 (i + 1)) as (st2 & E2 & Hp2); [lia..|intros k Hk; apply Hoff; lia|done|].
    exists st2. split; [done|]. by replace (i + Z.of_nat (S n)) with (i + 1 + Z.of_nat n) by lia.
Qed.

Lemma twist_ok X b m : recurs X -> 0 <= b -> holds X b (state m) ->
  exists st, twist m = Ok (mkMt st 0) /\ holds X (b + 624) st.
Proof.
  intros HX Hb [Hst Hh]. assert (partly X b 0 (state m)) as Hp.
  { split; [done|]. intros k Hk. rewrite (proj2 (Z.ltb_ge _ _)) by lia. by apply Hh. }
  unfold twist.
  destruct (twist_words_ok X b 227 397 (state m) 0 HX Hb) as (st1 & -> & Hp1); [lia..|intros k Hk; by rewrite (proj2 (Z.ltb_lt _ _)) by lia|done|].
  cbn [rbind]. change (0 + Z.of_nat 227) with 227 in Hp1.
  destruct (twist_words_ok X b 396 (-227) st1 227 HX Hb) as (st2 & -> & Hp2); [lia..|intros k Hk; by rewrite (proj2 (Z.ltb_ge _ _)) by lia|done|].
  cbn [rbind]. change (227 + Z.of_nat 396) with 623 in Hp2.
  destruct (twist_word_ok X b 623 st2 HX Hb) as (st3 & E & Hp3); [lia|done|]. change (twist_word st2 623 0 396 = Ok st3) in E.
  rewrite E. cbn [rbind]. exists st3. split; [done|]. destruct Hp3 as [Hst3 Hp3]. split; [done|].
  intros k Hk. rewrite Hp3 by done. rewrite (proj2 (Z.ltb_lt _ _)) by lia. done.
Qed.

(** The generator at the [n]-th word of the sequence. *)
Definition at_word (X : Z -> Z) (n : Z) (m : PythonMt19937) : Prop :=
  exists b, 0 <= b /\ holds X b (state m) /\ 0 <= mt_index m <= 624 /\ n = b + mt_index m.

Lemma next_u32_ok X n m : recurs X -> at_word X n m ->
  exists m', next_u32 m = Ok (temper (X n), m') /\ at_word X (n + 1) m'.
Proof.
  intros HX (b & Hb & Hh & Hi & ->). unfold next_u32. destruct (Z.leb_spec 624 (mt_index m)) as [Hge|Hlt].
  - destruct (twist_ok X b m HX Hb Hh) as (st & -> & Hst). cbn [rbind state mt_index].
    rewrite (proj2 Hst 0) by lia. cbn [rbind]. eexists. split; [do 4 f_equal; lia|].
    exists (b + 624). cbn [state mt_index]. split; [lia|]. split; [done|]. lia.
  - cbn [rbind]. rewrite (proj2 Hh) by lia. cbn [rbind]. eexists. split; [done|].
    exists b. cbn [state mt_index]. split; [done|]. split; [done|]. lia.
Qed.

(** ** Lemmas: linear recurrences over bits

    [E] advances a sequence of bits by one; a polynomial in [E] acts on it. *)
Inductive poly := Zero | One | E | Plus (p q : poly) | Times (p q : poly).

Notation bits := (Z -> bool).

Fixpoint act (p : poly) (f : bits) : bits :=
  match p with
  | Zero => fun _ => false
  | One => f
  | E => fun k => f (k + 1)
  | Plus p q => fun k => xorb (act p f k) (act q f k)
  | Times p q => act p (act q f)
  end.

Fixpoint degree (p : poly) : Z :=
  match p with
  | Zero | One => 0
  | E => 1
  | Plus p q => Z.max (degree p) (degree q)
  | Times p q => degree p + degree q
  end.

(** The value at 1. *)
Fixpoint at_one (p : poly) : bool :=
  match p with
  | Zero => false
  | One | E => true
  | Plus p q => xorb (at_one p) (at_one q)
  | Times p q => at_one p && at_one q
  end.

Fixpoint power (n : nat) : poly := match n with O => One | S n => Times E (power n) end.

Lemma degree_nonneg p : 0 <= degree p.
Proof. induction p; cbn [degree]; lia. Qed.

Lemma act_ext p f g n : (forall k, n <= k -> f k = g k) -> forall k, n <= k -> act p f k = act p g k.
Proof.
  revert f g. induction p as [| | |p IHp q IHq|p IHp q IHq]; intros f g Hfg k Hk; cbn [act]; try done; try (apply Hfg; lia).
  - f_equal; [by apply IHp|by apply IHq].
  - apply IHp; [|done]. intros j Hj. by apply IHq.
Qed.

Lemma act_xor p f g k : act p (fun k => xorb (f k) (g k)) k = xorb (act p f k) (act p g k).
Proof.
  revert f g k. induction p as [| | |p IHp q IHq|p IHp q IHq]; intros f g k; cbn [act]; try done.
  - rewrite IHp, IHq. by destruct (act p f k), (act q f k), (act p g k), (act q g k).
  - rewrite <- IHp. apply (act_ext p _ _ k); [|lia]. intros j _. apply IHq.
Qed.

Lemma act_false p k : act p (fun _ => false) k = false.
Proof. revert k. induction p as [| | |p IHp q IHq|p IHp q IHq]; intros k; cbn [act]; try done; [by rewrite IHp, IHq|].
  transitivity (act p (fun _ => false) k); [|apply IHp]. apply (act_ext p _ _ k); [|lia]. intros j _. apply IHq.
Qed.

Lemma act_E p f k : act p (fun k => f (k + 1)) k = act p f (k + 1).
Proof.
  revert f k. induction p as [| | |p IHp q IHq|p IHp q IHq]; intros f k; cbn [act]; try done; [by rewrite IHp, IHq|].
  rewrite <- IHp. apply (act_ext p _ _ k); [|lia]. intros j _. apply IHq.
Qed.

Lemma act_comm p q f k : act p (act q f) k = act q (act p f) k.
Proof.
  revert f k. induction p as [| | |p IHp r IHr|p IHp r IHr]; intros f k; cbn [act].
  - by rewrite act_false.
  - done.
  - by rewrite act_E.
  - by rewrite IHp, IHr, act_xor.
  - rewrite <- IHp. apply (act_ext p _ _ k); [|lia]. intros j _. apply IHr.
Qed.

Lemma act_power n f k : act (power n) f k = f (k + Z.of_nat n).
Proof.
  revert k. induction n as [|n IH]; intros k; cbn [power act]; [f_equal; lia|]. rewrite IH. f_equal. lia.
Qed.

(** On a sequence that is constant for long enough a polynomial is its value at
    1. *)
Lemma act_constant p c f n : (forall k, n <= k <= n + degree p -> f k = c) -> act p f n = at_one p && c.
Proof.
  revert c f n. induction p as [| | |p IHp q IHq|p IHp q IHq]; intros c f n Hf; cbn [act at_one degree] in *; try (apply Hf; lia); [done|..].
  - pose proof (degree_nonneg p). pose proof (degree_nonneg q). rewrite (IHp c), (IHq c) by (intros; apply Hf; lia). by destruct (at_one p), (at_one q), c.
  - pose proof (degree_nonneg p). pose proof (degree_nonneg q). rewrite (IHp (at_one q && c)); [by rewrite andb_assoc|].
    intros k Hk. apply IHq. intros j Hj. apply Hf. lia.
Qed.

(** ** Lemmas: the bits of the words *)

Section Bits.
Context (X : Z -> Z) (HX : recurs X).

Definition bit (j : Z) : bits := fun k => Z.testbit (X k) j.

(** [E^624 + E^397] *)
Definition lag : poly := Plus (power 624) (power 397).

Definition magic (j : Z) : bool := Z.testbit 0x9908b0df j.

Lemma value_bit a b j : 0 <= j < 32 ->
  Z.testbit (Z.lor (Z.land a 0x80000000) (Z.land b 0x7fffffff)) j = if j =? 31 then Z.testbit a 31 else Z.testbit b j.
Proof.
  intros Hj. change 0x80000000 with (2 ^ 31). change 0x7fffffff with (Z.ones 31).
  rewrite Z.lor_spec, !Z.land_spec, Z.pow2_bits_eqb by lia. destruct (Z.eqb_spec j 31) as [->|Hne].
  - rewrite Z.ones_spec_high by lia. by rewrite andb_true_r, andb_false_r, orb_false_r.
  - rewrite (proj2 (Z.eqb_neq _ _)), Z.ones_spec_low by lia. by rewrite andb_false_r, andb_true_r.
Qed.

Lemma mix_bit a b c j : 0 <= j < 32 -> Z.testbit (mix a b c) j =
  xorb (xorb (Z.testbit c j) (if j =? 30 then Z.testbit a 31 else if j =? 31 then false else Z.testbit b (j + 1))) (magic j && Z.testbit b 0).
Proof.
  intros Hj. unfold mix. set (v := Z.lor _ _). rewrite !Z.lxor_spec, Z.shiftr_spec by lia. f_equal; [f_equal|].
  - destruct (Z.eqb_spec j 31) as [->|Hne].
    + unfold v. change (31 + 1) with 32. rewrite Z.lor_spec, !Z.land_spec. change (Z.testbit 0x80000000 32) with false.
      change (Z.testbit 0x7fffffff 32) with false. by rewrite !andb_false_r.
    + unfold v. rewrite value_bit by lia. destruct (Z.eqb_spec j 30) as [->|]; [done|]. by rewrite (proj2 (Z.eqb_neq _ _)) by lia.
  - assert (Z.testbit v 0 = Z.testbit b 0) as <- by (unfold v; rewrite value_bit by lia; done).
    change 1 with (Z.ones 1). rewrite Z.land_ones, <- Z.bit0_mod by lia. unfold magic.
    destruct (Z.testbit v 0); cbn [Z.b2z Z.eqb]; [by rewrite andb_true_r|]. by rewrite Z.bits_0, andb_false_r.
Qed.

(** The recurrence of every bit. *)
Lemma lag_bit j k : 0 <= k -> 0 <= j < 32 -> act lag (bit j) k =
  xorb (if j =? 30 then bit 31 k else if j =? 31 then false else bit (j + 1) (k + 1)) (magic j && bit 0 (k + 1)).
Proof.
  intros Hk Hj. unfold lag. cbn [act]. rewrite !act_power. change (Z.of_nat 624) with 624. change (Z.of_nat 397) with 397.
  unfold bit at 1. rewrite (proj2 (HX k Hk)), mix_bit by done. unfold bit. set (c := Z.testbit (X (k + 397)) j).
  set (u := if j =? 30 then _ else _). set (w := magic j && _). by destruct c, u, w.
Qed.

(** [E^j] of bit [j] is a polynomial of bit 0. *)
Fixpoint chain (j : nat) : poly :=
  match j with
  | O => One
  | S j' => Plus (Times lag (chain j')) (if magic (Z.of_nat j') then power j else Zero)
  end.

Lemma act_shift p f n k : act p (fun k => f (k + Z.of_nat n)) k = act p f (k + Z.of_nat n).
Proof.
  rewrite <- (act_power n (act p f) k), <- act_comm. apply (act_ext p _ _ k); [|lia]. intros j _. by rewrite act_power.
Qed.

Lemma magic_power j k : act (if magic (Z.of_nat j) then power (S j) else Zero) (bit 0) k = magic (Z.of_nat j) && bit 0 (k + Z.of_nat (S j)).
Proof. destruct (magic (Z.of_nat j)); [apply act_power|done]. Qed.

Lemma chain_step j k : (forall k, 0 <= k -> bit (Z.of_nat j) (k + Z.of_nat j) = act (chain j) (bit 0) k) -> 0 <= k ->
  act (chain (S j)) (bit 0) k = xorb (act lag (bit (Z.of_nat j)) (k + Z.of_nat j)) (magic (Z.of_nat j) && bit 0 (k + Z.of_nat j + 1)).
Proof.
  intros IH Hk. cbn [chain]. cbn [act]. rewrite magic_power. f_equal; [|do 2 f_equal; lia].
  rewrite <- act_shift. symmetry. by apply (act_ext lag _ _ 0).
Qed.

Lemma chain_bit j k : (j <= 30)%nat -> 0 <= k -> bit (Z.of_nat j) (k + Z.of_nat j) = act (chain j) (bit 0) k.
Proof.
  revert k. induction j as [|j IH]; intros k Hj Hk; [by rewrite Z.add_0_r|].
  rewrite chain_step by (done || (intros; apply IH; lia)). rewrite lag_bit by lia.
  rewrite !(proj2 (Z.eqb_neq _ _)) by lia. rewrite xorb_assoc, xorb_nilpotent, xorb_false_r. f_equal; lia.
Qed.

Lemma chain_top k : 0 <= k -> bit 31 (k + 30) = act (chain 31) (bit 0) k.
Proof.
  intros Hk. rewrite (chain_step 30) by (done || (intros; apply (chain_bit 30); lia)). change (Z.of_nat 30) with 30.
  rewrite lag_bit by lia. rewrite Z.eqb_refl. by rewrite xorb_assoc, xorb_nilpotent, xorb_false_r.
Qed.

(** The polynomial that annihilates bit 0, and every bit after 30 words. *)
Definition annihilator : poly := Plus (Times lag (chain 31)) (power 31).

Lemma annihilates_0 k : 0 <= k -> act annihilator (bit 0) k = false.
Proof.
  intros Hk. unfold annihilator. cbn [act]. rewrite act_power. change (Z.of_nat 31) with 31.
  rewrite (act_ext lag _ (fun k => bit 31 (k + Z.of_nat 30)) 0) by (done || (intros; symmetry; by apply chain_top)).
  rewrite act_shift. change (Z.of_nat 30) with 30. rewrite lag_bit by lia. rewrite Z.eqb_refl.
  change (31 =? 30) with false. cbv iota. change (magic 31) with true. rewrite xorb_false_l. cbn [andb].
  replace (k + 30 + 1) with (k + 31) by lia. apply xorb_nilpotent.
Qed.

Lemma annihilates p k : 0 <= k -> act annihilator (act p (bit 0)) k = false.
Proof.
  intros Hk. rewrite act_comm. rewrite <- (act_false p k). apply (act_ext p _ _ 0); [|done].
  intros j Hj. by apply annihilates_0.
Qed.

Lemma annihilates_bit j k : 0 <= j < 32 -> 0 <= k -> act annihilator (fun k => bit j (k + 30)) k = false.
Proof.
  intros Hj Hk. destruct (Z.eq_dec j 31) as [->|Hne].
  - rewrite <- (annihilates (chain 31) k Hk). apply (act_ext _ _ _ 0); [|done]. apply chain_top.
  - rewrite <- (annihilates (Times (power (30 - Z.to_nat j)) (chain (Z.to_nat j))) k Hk). apply (act_ext _ _ _ 0); [|done].
    intros i Hi. cbn [act]. rewrite act_power, <- chain_bit by lia. f_equal; lia.
Qed.

(** The top bit of an output: the bits 31, 24, 16 and 27 of its word. *)
Definition top_bit : bits := fun k => xorb (xorb (bit 31 k) (bit 24 k)) (xorb (bit 16 k) (bit 27 k)).

Lemma temper_top x : u32 x -> Z.testbit (temper x) 31 =
  xorb (xorb (Z.testbit x 31) (Z.testbit x 24)) (xorb (Z.testbit x 16) (Z.testbit x 27)).
Proof.
  intros Hx. unfold temper. set (y := Z.lxor x (Z.shiftr x 11)).
  assert (forall j, 0 <= j -> Z.testbit y j = xorb (Z.testbit x j) (Z.testbit x (j + 11))) as Hy.
  { intros j Hj. unfold y. by rewrite Z.lxor_spec, Z.shiftr_spec by lia. }
  set (z := Z.lxor y (Z.land (cast 32 (Z.shiftl y 7)) 0x9d2c5680)).
  assert (forall v n j, 0 <= j < 32 -> Z.testbit (cast 32 (Z.shiftl v n)) j = Z.testbit v (j - n)) as Hc.
  { intros v n j Hj. unfold cast. rewrite Z.mod_pow2_bits_low, Z.shiftl_spec by lia. done. }
  assert (forall j, 0 <= j < 32 -> Z.testbit z j = xorb (Z.testbit y j) (Z.testbit y (j - 7) && Z.testbit 0x9d2c5680 j)) as Hz.
  { intros j Hj. unfold z. by rewrite Z.lxor_spec, Z.land_spec, Hc. }
  assert (u32 z) as Hzu. { apply lxor_u32; [apply lxor_u32; [done|apply shiftr_u32; [lia|done]]|apply land_u32, cast_u32]. }
  set (w := Z.lxor z (Z.land (cast 32 (Z.shiftl z 15)) 0xefc60000)).
  assert (u32 w) as Hwu by (apply lxor_u32; [done|apply land_u32, cast_u32]).
  rewrite Z.lxor_spec, Z.shiftr_spec by lia. rewrite (u32_high w (31 + 18)) by (done || lia). rewrite xorb_false_r.
  unfold w. rewrite Z.lxor_spec, Z.land_spec, Hc, !Hz by lia.
  change (31 - 15) with 16. change (31 - 7) with 24. change (16 - 7) with 9. rewrite !Hy by lia.
  change (Z.testbit 0x9d2c5680 31) with true. change (Z.testbit 0x9d2c5680 16) with false. change (Z.testbit 0xefc60000 31) with true.
  rewrite (u32_high x (31 + 11)), (u32_high x (24 + 11)) by (done || lia). change (16 + 11) with 27.
  rewrite !andb_false_r, !andb_true_r, !xorb_false_r. by destruct (Z.testbit x 31), (Z.testbit x 24), (Z.testbit x 16), (Z.testbit x 27).
Qed.

Lemma annihilates_top k : 0 <= k -> act annihilator (fun k => top_bit (k + 30)) k = false.
Proof.
  intros Hk. unfold top_bit. rewrite !act_xor. by rewrite !annihilates_bit.
Qed.

(** Some top bit among twenty thousand consecutive outputs is clear. *)
Lemma top_bit_clears n : 0 <= n -> exists i, 0 <= i < 20000 /\ Z.testbit (temper (X (n + i))) 31 = false.
Proof.
  intros Hn. destruct (decide (Exists (fun i => Z.testbit (temper (X (n + Z.of_nat i))) 31 = false) (seq 0 (Z.to_nat 20000)))) as [He|Hne].
  - apply Exists_exists in He as (i & Hi%elem_of_seq & E). exists (Z.of_nat i). split; [lia|done].
  - exfalso. rewrite <- Forall_Exists_neg in Hne. rewrite Forall_forall in Hne.
    pose proof (act_constant annihilator true (fun k => top_bit (k + 30)) n) as Hc.
    rewrite annihilates_top in Hc by done. assert (degree annihilator = 19968) as Hd by (vm_compute; reflexivity).
    assert (at_one annihilator = true) as Ha by (vm_compute; reflexivity). rewrite Ha in Hc. cbn [andb] in Hc.
    discriminate Hc. intros k Hk. rewrite Hd in Hk.
    assert (Z.to_nat (k + 30 - n) ∈ seq 0 (Z.to_nat 20000)) as Hin by (apply elem_of_seq; lia).
    specialize (Hne _ Hin). rewrite Z2Nat.id in Hne by lia. replace (n + (k + 30 - n)) with (k + 30) in Hne by lia.
    rewrite temper_top in Hne by (apply HX; lia). by apply not_false_is_true in Hne.
Qed.
End Bits.

(** ** Lemmas: sampling and the shuffle *)

Lemma at_word_ok m : mt_ok m -> exists X, recurs X /\ at_word X (mt_index m) m.
Proof.
  intros [Hst Hi]. destruct (recurrence_exists (state m) Hst) as (X & HX & Hh). exists X. split; [done|].
  exists 0. split; [done|]. split; [done|]. split; [done|lia].
Qed.

Lemma at_word_mt_ok X n m : at_word X n m -> mt_ok m.
Proof. intros (b & _ & [Hst _] & Hi & _). by split. Qed.

Lemma temper_u32 x : u32 x -> u32 (temper x).
Proof.
  intros Hx. unfold temper. repeat (apply lxor_u32 || apply shiftr_u32 || apply land_u32 || apply cast_u32 || lia || done).
Qed.

(** An output whose top bit is clear is small enough for any bound. *)
Lemma clear_top_below y n : u32 y -> Z.testbit y 31 = false -> 1 <= n < 2 ^ 32 -> 0 <= Z.shiftr y (32 - bit_length n) < n.
Proof.
  intros Hy Ht Hn. assert (0 <= Z.log2 n < 32) as Hl by (split; [apply Z.log2_nonneg|apply Z.log2_lt_pow2; lia]).
  unfold bit_length. rewrite (proj2 (Z.eqb_neq n 0)) by lia. split; [apply Z.shiftr_nonneg, Hy|].
  assert (y < 2 ^ 31) as Hlt.
  { destruct (Z.lt_ge_cases y (2 ^ 31)) as [|Hge]; [done|]. assert (Z.log2 y = 31) as Hl2.
    { apply Z.log2_unique; [lia|]. split; [done|]. change (Z.succ 31) with 32. apply Hy. }
    rewrite <- Hl2, Z.bit_log2 in Ht by lia. done. }
  apply (Z.lt_le_trans _ (2 ^ Z.log2 n)); [|apply Z.log2_spec; lia].
  rewrite Z.shiftr_div_pow2 by lia. apply Z.div_lt_upper_bound; [apply Z.pow_pos_nonneg; lia|].
  rewrite <- Z.pow_add_r by lia. by replace (32 - (Z.log2 n + 1) + Z.log2 n) with 31 by lia.
Qed.

Lemma randbelow_loop_ok X ub i fuel n m : recurs X -> at_word X n m -> 0 <= n -> 1 <= ub < 2 ^ 32 -> 0 <= i < Z.of_nat fuel ->
  Z.testbit (temper (X (n + i))) 31 = false ->
  exists v m', randbelow_loop fuel (bit_length ub) ub m = Some (Ok (v, m')) /\ 0 <= v < ub /\ mt_ok m'.
Proof.
  intros HX. revert i n m. induction fuel as [|fuel IH]; intros i n m Hm Hn Hub Hi Ht; [lia|]. cbn [randbelow_loop].
  destruct (next_u32_ok X n m HX Hm) as (m1 & -> & Hm1). pose proof (temper_u32 _ (proj1 (HX n Hn))) as Hy.
  destruct (Z.ltb_spec (Z.shiftr (temper (X n)) (32 - bit_length ub)) ub) as [Hlt|Hge].
  - do 2 eexists. split; [done|]. split; [|by eapply at_word_mt_ok]. split; [apply Z.shiftr_nonneg, Hy|done].
  - destruct (Z.eq_dec i 0) as [->|Hne].
    + rewrite Z.add_0_r in Ht. pose proof (clear_top_below _ ub Hy Ht Hub). lia.
    + apply (IH (i - 1) (n + 1)); [done|lia|done|lia|]. by replace (n + 1 + (i - 1)) with (n + i) by lia.
Qed.

(** The rejection loop of every state ends within the fuel. *)
Lemma randbelow_ok m ub : mt_ok m -> 1 <= ub < 2 ^ 32 ->
  exists v m', randbelow ub m = Some (Ok (v, m')) /\ 0 <= v < ub /\ mt_ok m'.
Proof.
  intros Hm Hub. destruct (at_word_ok m Hm) as (X & HX & Hat). destruct (top_bit_clears X HX (mt_index m)) as (i & Hi & Ht); [apply Hm|].
  unfold randbelow. eapply (randbelow_loop_ok X ub i); [done|done|apply Hm|done| |done]. unfold RANDBELOW_FUEL. rewrite Z2Nat.id by done. done.
Qed.

Lemma swap_ok {A} (l : list A) a b : 0 <= a < zlen l -> 0 <= b < zlen l ->
  exists l', swap l a b = Ok l' /\ Permutation l' l.
Proof.
  intros Ha Hb. unfold swap. destruct (index_ok l a Ha) as (x & -> & Hx). destruct (index_ok l b Hb) as (y & -> & Hy). cbn [rbind].
  rewrite store_insert by done. cbn [rbind]. rewrite store_insert by (by rewrite zlen_insert). eexists. split; [done|].
  by apply Permutation_insert_swap.
Qed.

Lemma shuffle_loop_ok {A} n (values : list A) m : mt_ok m -> (n < length values)%nat -> zlen values < 2 ^ 32 ->
  exists values', shuffle_loop n values m = Some (Ok values') /\ Permutation values' values.
Proof.
  revert values m. induction n as [|n IH]; intros values m Hm Hn Hl; [by eexists|]. cbn [shuffle_loop].
  destruct (randbelow_ok m (Z.of_nat (S n) + 1) Hm) as (v & m1 & -> & Hv & Hm1); [unfold zlen in Hl; lia|].
  destruct (swap_ok values (Z.of_nat (S n)) v) as (values1 & -> & Hp); [unfold zlen; lia..|].
  destruct (IH values1 m1) as (values2 & -> & Hp2); [done|rewrite Hp; lia|unfold zlen in *; by rewrite Hp|].
  exists values2. split; [done|]. by rewrite Hp2.
Qed.

Lemma shuffle_ok {A} (values : list A) seed : zlen values < 2 ^ 32 ->
  exists shuffled, python_seeded_shuffle values seed = Some (Ok shuffled) /\ Permutation shuffled values.
Proof.
  intros Hl. unfold python_seeded_shuffle. destruct (mt_new_ok seed) as (m & -> & Hm).
  destruct values as [|x values]; [by eexists|]. apply shuffle_loop_ok; [done|cbn; lia|done].
Qed.

(** ** Properties *)

(** C29: the seeded shuffle of a retry round terminates without a panic, for
    every seed and every list of fewer than 2^32 values, and permutes the
    values.  Its generator's rejection sampling ends: the words are a linear
    recurrence over GF(2) whose characteristic polynomial is 1 at 1, so no
    output bit is constant for as long as that polynomial is (19968 words), and
    an output whose top bit is clear is accepted for every bound. *)
Theorem seeded_shuffle_permutes {A} (values : list A) seed :
  zlen values < 2 ^ 32 ->
  (exists shuffled, python_seeded_shuffle values seed = Some (Ok shuffled) /\ Permutation shuffled values) /\
  forall m upper_bound, mt_ok m -> 1 <= upper_bound < 2 ^ 32 ->
    exists v m', randbelow upper_bound m = Some (Ok (v, m')) /\ 0 <= v < upper_bound /\ mt_ok m'.
Proof.
  intros Hl. split; [by apply shuffle_ok|intros; by apply randbelow_ok].
Qed.

(** ** Witnesses *)

Module Witnesses.

(** The order Python's [random.Random(42).shuffle] gives. *)
Lemma seeded_shuffle_permutes_witness :
  python_seeded_shuffle [0; 1; 2; 3; 4; 5; 6; 7; 8; 9] 42 = Some (Ok [7; 3; 2; 8; 5; 6; 9; 4; 0; 1]) /\
  exists shuffled, python_seeded_shuffle [0; 1; 2; 3; 4; 5; 6; 7; 8; 9] 42 = Some (Ok shuffled) /\
    Permutation shuffled [0; 1; 2; 3; 4; 5; 6; 7; 8; 9].
Proof.
  split; [vm_compute; reflexivity|]. apply (seeded_shuffle_permutes [0; 1; 2; 3; 4; 5; 6; 7; 8; 9] 42). vm_compute. reflexivity.
Defined.
End Witnesses.
