(* ===== verification/SnapProfile.v ===== *)
(** SNAP path profiles (shph-snap/src/lib.rs): the profile's data, its validation
    and the acyclicity check of its fallback graph.  Parsing JSON and TOML is
    serde's; the standard library's address parser is a parameter. *)
From Stdlib Require Import SpecFloat.
From stdpp Require Import relations.
From S2P Require Import Net.
From S2P Require Import Prelude Error Text Binary64.

Definition PROFILE_VERSION : Z := 1.
Definition MAX_PROFILE_BYTES : Z := 1024 * 1024.
Definition MAX_DIRECT_ENDPOINTS : Z := 16.
Definition MAX_BRIDGES : Z := 32.
Definition MAX_RETRY_ROUNDS : Z := 12.
Definition MAX_RETRY_ATTEMPTS : Z := 1024.

Definition DEFAULT_ADAPTER_ORDER : list string :=
  ["direct-tcp"; "bridge-onion-tcp"; "bridge-tls"; "bridge-ws"; "edge-relay"; "shroud-tcp"; "mesh-dtn-local"; "mule-usb"].
Definition KNOWN_ADAPTERS : list string :=
  ["direct-tcp"; "bridge-onion-tcp"; "bridge-tls"; "bridge-ws"; "shroud-tcp"; "mesh-dtn-local"; "mule-usb"; "edge-relay";
   "quic"; "quic-standard"; "offline-mesh"; "data-mule"].

(** ** Errors *)

(** [Json] and [Toml] wrap the parsers' errors, by their printed form. *)
Inductive SnapError :=
  | Invalid (msg : string)
  | UnsupportedFormat (extension : string)
  | TooLarge
  | Json (e : string)
  | Toml (e : string).

Abbreviation snap A := (SnapError + A)%type.

(** [if !ok { return Err(SnapError::Invalid(msg)); }] *)
Definition require (ok : bool) (msg : string) : snap unit := if ok then inr () else inl (Invalid msg).

(** [for x in l { f(x)?; }] *)
Fixpoint for_each {A} (f : A -> snap unit) (l : list A) : snap unit :=
  match l with [] => inr () | x :: l => do# f x ; for_each f l end.

(** ** Data *)

Inductive ProfileFormat := FormatJson | FormatToml.
Inductive SnapMode := Auto | DirectOnly | BridgesOnly | OnionOnly.
Inductive RoundOrder := Stable | Rotate | Shuffle.

Record TransportPreferences := mkPreferences { adapter_order : list string }.

Record RetryPolicy := mkRetryPolicy {
  rounds : Z;
  backoff_base_sec : f64;
  backoff_max_sec : f64;
  jitter_ratio : f64;
  round_order : RoundOrder;
  shuffle_seed : option Z;
  max_total_attempts : Z;
  max_elapsed_sec : f64
}.

Definition RetryPolicy_default : RetryPolicy :=
  mkRetryPolicy 1 (f64_lit 6 10) (f64_of_u64 8) (f64_lit 15 100) Stable None 0 f64_zero.

Record OperatorServiceContract := mkContract { owner : string; service_id : string; authorization_ref : string }.

Record DirectEndpoint := mkEndpoint {
  ep_ip : string;
  ep_port : Z;
  ep_transport : string;
  ep_adapter : string;
  ep_tls_enabled : bool;
  ep_sni : option string;
  ep_edge_label : option string;
  ep_priority : Z;
  ep_weight : Z;
  ep_timeout_sec : option f64;
  ep_allowed_fallback : list string
}.

Record Bridge := mkBridge {
  label : string;
  br_ip : string;
  br_port : Z;
  key_file : option string;
  route_file : option string;
  br_transport : string;
  br_adapter : string;
  br_tls_enabled : bool;
  br_sni : option string;
  br_edge_label : option string;
  br_priority : Z;
  br_weight : Z;
  br_timeout_sec : option f64;
  br_allowed_fallback : list string;
  tls_ca_file : option string;
  tls_cert_sha256 : option string;
  ws_path : option string;
  shroud_profile : option string;
  operator_service_contract : option OperatorServiceContract
}.

Record EdgeProfile := mkEdge { host : string; edge_port : Z; tls_required : bool; notes : string }.

(** [edge_profiles] is a [BTreeMap]: its entries in the order of the labels. *)
Record SnapProfile := mkProfile {
  version : Z;
  profile_name : string;
  mode : SnapMode;
  peer_alias : string;
  connect_timeout_sec : f64;
  direct_endpoints : list DirectEndpoint;
  bridges : list Bridge;
  retry_policy : RetryPolicy;
  edge_profiles : list (string * EdgeProfile);
  transport_preferences : TransportPreferences
}.

#[export] Instance SnapMode_eq_dec : EqDecision SnapMode.
Proof. solve_decision. Defined.

(** [edge_profiles.get(label)] *)
Fixpoint get_edge (label : string) (edges : list (string * EdgeProfile)) : option EdgeProfile :=
  match edges with
  | [] => None
  | (l, e) :: edges => if bool_decide (l = label) then Some e else get_edge label edges
  end.

(** ** Fields *)

Definition one_of (names : list string) (name : string) : bool := bool_decide (name ∈ names).

(** A bound with its printed form. *)
Definition validate_range (field : string) (value : f64) (lo hi : f64 * string) : snap unit :=
  require (f64_is_finite value && f64_in lo.1 hi.1 value)
    (field +:+ " must be between " +:+ lo.2 +:+ " and " +:+ hi.2).

Definition zero_bound : f64 * string := (f64_zero, "0").

Definition validate_optional_timeout (field : string) (value : option f64) : snap unit :=
  match value with
  | Some value => validate_range field value (f64_lit 2 10, "0.2") (f64_of_u64 120, "120")
  | None => inr ()
  end.

Definition validate_text (field value : string) (max : Z) : snap unit :=
  require (negb (bool_decide (trim value = "") || (max <? zlen (str_bytes value)) || has_control (str_bytes value)))
    (field +:+ " is invalid").

Definition validate_host (field value : string) : snap unit :=
  do# validate_text field value 253 ;
  require (negb (has_white_space (str_bytes value) || bool_decide (47 ∈ str_bytes value))) (field +:+ " is invalid").

Definition validate_port (field : string) (value : Z) : snap unit := require (negb (value =? 0)) (field +:+ " must be non-zero").

Definition validate_ws_path (value : string) : snap unit :=
  let l := str_bytes value in
  require (bool_decide (head l = Some 47) && (zlen l <=? 1024) && negb (has_white_space l || has_control l))
    "ws_path must be an absolute path without whitespace".

Definition validate_adapter (adapter : string) : snap unit :=
  require (one_of KNOWN_ADAPTERS adapter) ("unsupported adapter name: " +:+ adapter).

Definition validate_adapter_order (order : list string) : snap unit := for_each validate_adapter order.
Definition validate_fallback_names (names : list string) : snap unit := for_each validate_adapter names.

Definition validate_priority_weight (priority weight : Z) : snap unit :=
  do# require (priority <=? 1000) "priority must not exceed 1000" ;
  require (in_range 1 1000 weight) "weight must be between 1 and 1000".

Definition contract_validate (c : OperatorServiceContract) : snap unit :=
  do# validate_text "operator_service_contract.owner" (owner c) 128 ;
  do# validate_text "operator_service_contract.service_id" (service_id c) 128 ;
  validate_text "operator_service_contract.authorization_ref" (authorization_ref c) 128.

Definition retry_validate (p : RetryPolicy) : snap unit :=
  do# require (in_range 1 MAX_RETRY_ROUNDS (rounds p)) ("retry_policy.rounds must be between 1 and " +:+ show MAX_RETRY_ROUNDS) ;
  do# validate_range "retry_policy.backoff_base_sec" (backoff_base_sec p) zero_bound (f64_of_u64 120, "120") ;
  do# validate_range "retry_policy.backoff_max_sec" (backoff_max_sec p) zero_bound (f64_of_u64 120, "120") ;
  do# require (negb (SFltb (backoff_max_sec p) (backoff_base_sec p))) "retry_policy.backoff_max_sec must be >= backoff_base_sec" ;
  do# validate_range "retry_policy.jitter_ratio" (jitter_ratio p) zero_bound (f64_lit 5 10, "0.5") ;
  do# require (max_total_attempts p <=? MAX_RETRY_ATTEMPTS)
        ("retry_policy.max_total_attempts must not exceed " +:+ show MAX_RETRY_ATTEMPTS) ;
  do# validate_range "retry_policy.max_elapsed_sec" (max_elapsed_sec p) zero_bound (f64_of_u64 3600, "3600") ;
  require (match shuffle_seed p with Some seed => seed <=? 2147483647 | None => true end)
    "retry_policy.shuffle_seed must not exceed 2147483647".

(** ** The fallback graph *)

Definition validate_graph_names (available allowed : list string) : snap unit :=
  for_each (fun name => require (one_of available name)
    ("allowed_fallback references adapter absent from profile: " +:+ name)) allowed.

(** The candidates that [allowed] of the candidate [current_index] names. *)
Definition fallback_matches (candidates : list (string * list string)) (current_index : nat) (allowed : list string) : list nat :=
  List.filter (fun index => negb (Nat.eqb index current_index) &&
    match candidates !! index with Some (adapter, _) => one_of allowed adapter | None => false end)
    (seq 0 (length candidates)).

Definition fallback_edges_of (candidates : list (string * list string)) (current_index : nat) (allowed : list string) : snap (list nat) :=
  if bool_decide (allowed = []) then inr []
  else
    do# validate_graph_names (map fst candidates) allowed ;
    let matches := fallback_matches candidates current_index allowed in
    if bool_decide (matches = []) then inl (Invalid "allowed_fallback does not resolve to another candidate")
    else inr matches.

Fixpoint fallback_edges (candidates rest : list (string * list string)) (current_index : nat) : snap (list (list nat)) :=
  match rest with
  | [] => inr []
  | (_, allowed) :: rest =>
      let# matches := fallback_edges_of candidates current_index allowed in
      let# edges := fallback_edges candidates rest (S current_index) in
      inr (matches :: edges)
  end.

(** [for next in &edges[index] { if visit(..) { return true; } }] *)
Fixpoint visit_each (visit : nat -> list Z -> option bool * list Z) (targets : list nat) (marks : list Z) : option bool * list Z :=
  match targets with
  | [] => (Some false, marks)
  | next :: targets =>
      match visit next marks with
      | (Some false, marks) => visit_each visit targets marks
      | (out, marks) => (out, marks)
      end
  end.

(** [visit]: depth-first search; marks are 0 (new), 1 (on the stack) and 2
    (done).  [None] for the outcome: an index out of range. *)
Fixpoint visit (fuel : nat) (edges : list (list nat)) (index : nat) (marks : list Z) : option bool * list Z :=
  match fuel with
  | O => (None, marks)
  | S fuel =>
      match marks !! index, edges !! index with
      | Some mark, Some targets =>
          if mark =? 1 then (Some true, marks)
          else if mark =? 2 then (Some false, marks)
          else
            match visit_each (visit fuel edges) targets (<[index := 1]> marks) with
            | (Some false, marks) => (Some false, <[index := 2]> marks)
            | (out, marks) => (out, marks)
            end
      | _, _ => (None, marks)
      end
  end.

(** The loop over all candidates.  A node is entered at most once, so one level
    of recursion per node and one for a marked node are enough. *)
Fixpoint search (indices : list nat) (edges : list (list nat)) (marks : list Z) : option bool :=
  match indices with
  | [] => Some false
  | index :: indices =>
      match visit (S (length edges)) edges index marks with
      | (Some false, marks) => search indices edges marks
      | (out, _) => out
      end
  end.

Definition cyclic (edges : list (list nat)) : option bool :=
  search (seq 0 (length edges)) edges (replicate (length edges) 0).

(** The adapters and fallbacks of all candidates, direct ones first. *)
Definition graph_candidates (p : SnapProfile) : list (string * list string) :=
  map (fun e => (ep_adapter e, ep_allowed_fallback e)) (direct_endpoints p)
  ++ map (fun b => (br_adapter b, br_allowed_fallback b)) (bridges p).

(** [None]: a panic. *)
Definition validate_fallback_graph (p : SnapProfile) : option (snap unit) :=
  match fallback_edges (graph_candidates p) (graph_candidates p) 0 with
  | inl e => Some (inl e)
  | inr edges =>
      match cyclic edges with
      | Some true => Some (inl (Invalid "allowed_fallback graph must be acyclic"))
      | Some false => Some (inr ())
      | None => None
      end
  end.

(** ** Endpoints, bridges and profiles *)

Definition SHROUD_NAMES : list string :=
  ["low-latency"; "balanced"; "bulk"; "interactive"; "stealth-safe"; "default"; "bulk-transfer"].

Section Validate.
Definition validate_ip (field value : string) : snap unit := require (is_ip value) (field +:+ " must be a literal IP address").

Definition direct_transport (adapter : string) : option string :=
  if bool_decide (adapter = "direct-tcp") then Some "tcp"
  else if one_of ["quic"; "quic-standard"; "offline-mesh"; "data-mule"] adapter then Some adapter
  else None.

Definition endpoint_validate (e : DirectEndpoint) : snap unit :=
  do# validate_ip "direct endpoint ip" (ep_ip e) ;
  do# validate_port "direct endpoint port" (ep_port e) ;
  do# validate_adapter (ep_adapter e) ;
  match direct_transport (ep_adapter e) with
  | None => inl (Invalid ("direct_endpoints adapter '" +:+ ep_adapter e +:+ "' is not a SHPH direct transport"))
  | Some expected =>
      do# require (bool_decide (ep_transport e = expected))
            ("direct_endpoints adapter '" +:+ ep_adapter e +:+ "' requires transport '" +:+ expected +:+ "'") ;
      do# require (negb (ep_tls_enabled e || bool_decide (is_Some (ep_sni e)) || bool_decide (is_Some (ep_edge_label e))))
            "direct endpoints cannot configure TLS, SNI, or edge_label" ;
      do# validate_priority_weight (ep_priority e) (ep_weight e) ;
      do# validate_optional_timeout "direct endpoint timeout_sec" (ep_timeout_sec e) ;
      validate_fallback_names (ep_allowed_fallback e)
  end.

Definition bridge_transport (adapter : string) : string :=
  if one_of ["quic"; "quic-standard"; "offline-mesh"; "data-mule"] adapter then adapter else "onion-tcp".

Definition KEYED_ADAPTERS : list string :=
  ["bridge-onion-tcp"; "bridge-tls"; "bridge-ws"; "shroud-tcp"; "edge-relay"; "mesh-dtn-local"; "mule-usb"].
Definition requires_tls (adapter : string) : bool := one_of ["bridge-tls"; "bridge-ws"; "shroud-tcp"; "edge-relay"] adapter.

(** The checks of a bridge that do not depend on the other bridges. *)
Definition bridge_address (b : Bridge) : snap unit :=
  do# validate_ip "bridge ip" (br_ip b) ;
  do# validate_port "bridge port" (br_port b) ;
  do# require (bool_decide (br_transport b = bridge_transport (br_adapter b)))
        ("bridge adapter '" +:+ br_adapter b +:+ "' requires transport '" +:+ bridge_transport (br_adapter b) +:+ "'") ;
  do# validate_adapter (br_adapter b) ;
  do# require (negb (bool_decide (br_adapter b = "direct-tcp"))) "bridge adapter cannot be direct-tcp" ;
  do# require (negb (one_of KEYED_ADAPTERS (br_adapter b) && bool_decide (key_file b = None)))
        (br_adapter b +:+ " requires key_file in a Python-compatible SNAP profile") ;
  do# validate_priority_weight (br_priority b) (br_weight b) ;
  do# validate_optional_timeout "bridge timeout_sec" (br_timeout_sec b) ;
  validate_fallback_names (br_allowed_fallback b).

Definition bridge_tls (edges : list (string * EdgeProfile)) (b : Bridge) : snap unit :=
  do# (if bool_decide (br_adapter b = "bridge-onion-tcp") then
         do# require (negb (bool_decide (is_Some (br_edge_label b)) || br_tls_enabled b || bool_decide (is_Some (br_sni b))))
               "bridge-onion-tcp cannot configure TLS, SNI, or edge_label" ;
         require (bool_decide (is_Some (key_file b))) "bridge-onion-tcp requires key_file"
       else inr ()) ;
  do# require (negb (requires_tls (br_adapter b) &&
                     (negb (br_tls_enabled b) || match br_sni b with Some sni => bool_decide (sni = "") | None => true end)))
        (br_adapter b +:+ " requires tls_enabled=true and a non-empty sni") ;
  match br_edge_label b with
  | Some label => require (bool_decide (is_Some (get_edge label edges))) ("edge_label references an unknown edge profile: " +:+ label)
  | None => require (negb (requires_tls (br_adapter b))) (br_adapter b +:+ " requires edge_label")
  end.

Definition bridge_options (b : Bridge) : snap unit :=
  do# require (negb (bool_decide (br_adapter b = "bridge-ws") && bool_decide (ws_path b = None))) "bridge-ws requires ws_path" ;
  do# match ws_path b with
      | Some path =>
          do# validate_ws_path path ;
          require (one_of ["bridge-ws"; "shroud-tcp"] (br_adapter b)) "ws_path is only valid for bridge-ws or shroud-tcp"
      | None => inr ()
      end ;
  do# match shroud_profile b with
      | Some profile => require (bool_decide (br_adapter b = "shroud-tcp") && one_of SHROUD_NAMES profile)
                          "invalid shroud_profile for this bridge"
      | None => inr ()
      end ;
  do# match operator_service_contract b with
      | Some contract =>
          do# require (negb (one_of ["mesh-dtn-local"; "mule-usb"] (br_adapter b)))
                "operator_service_contract is only valid for network bridges and relays" ;
          contract_validate contract
      | None => inr ()
      end ;
  do# match tls_cert_sha256 b with
      | Some pin => require ((zlen (str_bytes pin) =? 64) && forallb (fun c => bool_decide (is_Some (hex_value c))) (str_bytes pin))
                      "tls_cert_sha256 must be a 64-character SHA-256 hex value"
      | None => inr ()
      end ;
  do# require (negb (bool_decide (is_Some (tls_ca_file b)) && negb (br_tls_enabled b))) "tls_ca_file requires tls_enabled=true" ;
  for_each (fun '(name, file) => match file with Some file => validate_text name file 4096 | None => inr () end)
    [("key_file", key_file b); ("route_file", route_file b); ("tls_ca_file", tls_ca_file b)].

(** [Bridge::validate]; [labels]: the labels of the bridges before it. *)
Definition bridge_validate (edges : list (string * EdgeProfile)) (labels : list string) (b : Bridge) : snap (list string) :=
  do# validate_text "bridge label" (label b) 128 ;
  do# require (negb (bool_decide (label b ∈ labels))) ("duplicate bridge label: " +:+ label b) ;
  do# bridge_address b ;
  do# bridge_tls edges b ;
  do# bridge_options b ;
  inr (label b :: labels).

Fixpoint bridges_validate (edges : list (string * EdgeProfile)) (labels : list string) (l : list Bridge) : snap unit :=
  match l with
  | [] => inr ()
  | b :: l => let# labels := bridge_validate edges labels b in bridges_validate edges labels l
  end.

Definition edge_validate (e : string * EdgeProfile) : snap unit :=
  let '(label, edge) := e in
  do# validate_text "edge profile label" label 128 ;
  do# validate_host "edge profile host" (host edge) ;
  do# validate_port "edge profile port" (edge_port edge) ;
  require (negb ((2048 <? zlen (str_bytes (notes edge))) || has_control (str_bytes (notes edge))))
    ("edge_profiles[" +:+ label +:+ "].notes is invalid").

Definition mode_entries (p : SnapProfile) : snap unit :=
  match mode p with
  | DirectOnly => require (negb (bool_decide (length (direct_endpoints p) = 0%nat)))
                    "direct-only mode requires at least one direct_endpoints entry"
  | BridgesOnly => require (negb (bool_decide (length (bridges p) = 0%nat))) "bridges-only mode requires at least one bridge entry"
  | OnionOnly => require (negb (bool_decide (length (bridges p) = 0%nat))) "onion-only mode requires at least one bridge entry"
  | Auto => inr ()
  end.

(** The part of [SnapProfile::validate] before the fallback graph. *)
Definition profile_fields (p : SnapProfile) : snap unit :=
  do# require (version p =? PROFILE_VERSION)
        ("unsupported profile version " +:+ show (version p) +:+ "; expected " +:+ show PROFILE_VERSION) ;
  do# validate_text "profile_name" (profile_name p) 128 ;
  do# validate_text "peer_alias" (peer_alias p) 128 ;
  do# validate_range "connect_timeout_sec" (connect_timeout_sec p) (f64_lit 2 10, "0.2") (f64_of_u64 60, "60") ;
  do# retry_validate (retry_policy p) ;
  do# mode_entries p ;
  do# require (zlen (direct_endpoints p) <=? MAX_DIRECT_ENDPOINTS)
        ("direct_endpoints supports at most " +:+ show MAX_DIRECT_ENDPOINTS +:+ " entries") ;
  do# require (zlen (bridges p) <=? MAX_BRIDGES) ("bridges supports at most " +:+ show MAX_BRIDGES +:+ " entries") ;
  do# validate_adapter_order (adapter_order (transport_preferences p)) ;
  do# bridges_validate (edge_profiles p) [] (bridges p) ;
  do# for_each endpoint_validate (direct_endpoints p) ;
  for_each edge_validate (edge_profiles p).

(** [SnapProfile::validate]; [None]: a panic. *)
Definition profile_validate (p : SnapProfile) : option (snap unit) :=
  match profile_fields p with
  | inl e => Some (inl e)
  | inr _ => validate_fallback_graph p
  end.
End Validate.

Definition contract_of (b : Bridge) : snap unit :=
  require (negb (negb (one_of ["mesh-dtn-local"; "mule-usb"] (br_adapter b)) && bool_decide (operator_service_contract b = None)))
    ("bridge '" +:+ label b +:+ "' requires operator_service_contract").

Definition validate_operator_service_contracts (p : SnapProfile) : snap unit := for_each contract_of (bridges p).

(** ** Lemmas: the depth-first search *)

Section Search.
Context (edges : list (list nat)).
Notation n := (length edges).

Definition edge (i j : nat) : Prop := exists targets, edges !! i = Some targets /\ j ∈ targets.

Definition edges_wf : Prop := forall i j, edge i j -> (j < n)%nat.

Definition grey (marks : list Z) (i : nat) : Prop := marks !! i = Some 1.
Definition black (marks : list Z) (i : nat) : Prop := marks !! i = Some 2.
Definition whites (marks : list Z) : nat := length (filter (fun m => m <> 1 /\ m <> 2) marks).

(** What is done is closed under the edges and lies on no cycle. *)
Definition done_ok (marks : list Z) : Prop :=
  length marks = n /\ (forall i j, black marks i -> edge i j -> black marks j) /\ (forall i, black marks i -> ~ tc edge i i).

Lemma whites_insert marks i m x : marks !! i = Some m -> m <> 1 -> m <> 2 -> x = 1 \/ x = 2 ->
  whites marks = S (whites (<[i := x]> marks)).
Proof.
  intros Hi H1 H2 Hx. unfold whites. rewrite insert_take_drop by (by eapply lookup_lt_Some).
  rewrite <- (take_drop_middle marks i m Hi) at 1. rewrite !filter_app, !length_app.
  rewrite filter_cons_True, filter_cons_False by (destruct Hx; naive_solver). cbn. lia.
Qed.

Lemma whites_recolour marks i x : grey marks i -> x = 1 \/ x = 2 -> whites (<[i := x]> marks) = whites marks.
Proof.
  intros Hi Hx. unfold whites. rewrite insert_take_drop by (by eapply lookup_lt_Some).
  rewrite <- (take_drop_middle marks i 1 Hi) at 3. rewrite !filter_app, !length_app.
  rewrite !filter_cons_False by (destruct Hx; naive_solver). done.
Qed.

Lemma black_closed marks i j : done_ok marks -> black marks i -> tc edge i j -> black marks j.
Proof. intros (_ & Hc & _) Hi Ht. induction Ht as [i j He|i k j He _ IH]; [by eapply Hc|]. by eapply IH, Hc. Qed.

(** What a search of [index] guarantees. *)
Definition searched (index : nat) (marks : list Z) (out : option bool * list Z) : Prop :=
  match out with
  | (None, _) => False
  | (Some true, _) => exists i, tc edge i i
  | (Some false, marks') =>
      done_ok marks' /\ black marks' index /\ (forall i, grey marks' i <-> grey marks i) /\
      (forall i, black marks i -> black marks' i) /\ (whites marks' <= whites marks)%nat
  end.

(** A node is finished: its targets are done. *)
Lemma finish_node index marks : done_ok marks -> grey marks index -> (forall j, edge index j -> black marks j) ->
  done_ok (<[index := 2]> marks) /\ black (<[index := 2]> marks) index /\
  (forall i, grey (<[index := 2]> marks) i <-> grey marks i /\ i <> index) /\
  (forall i, black (<[index := 2]> marks) i <-> black marks i \/ i = index).
Proof.
  intros Hd Hg Ht. pose proof Hd as (Hl & Hc & Ha). assert (index < length marks)%nat as Hi by (by eapply lookup_lt_Some).
  assert (forall i, black (<[index := 2]> marks) i <-> black marks i \/ i = index) as Hb.
  { intros i. unfold black. destruct (decide (i = index)) as [->|Hne].
    - rewrite list_lookup_insert_eq by done. naive_solver.
    - rewrite list_lookup_insert_ne by done. naive_solver. }
  assert (~ tc edge index index) as Hacyc.
  { intros Htc. assert (black marks index) as Hbl; [|unfold black, grey in *; congruence].
    inversion Htc as [? ? He|? j ? He Hr]; subst; [by apply Ht|]. by eapply (black_closed marks j); [done|apply Ht|]. }
  split; [|split; [by apply Hb; right|split; [|done]]].
  - split; [by rewrite length_insert|]. split.
    + intros i j [Hbi| ->]%Hb He; apply Hb; left; [by eapply Hc|by apply Ht].
    + intros i [Hbi| ->]%Hb; [by apply Ha|done].
  - intros i. unfold grey. destruct (decide (i = index)) as [->|Hne].
    + rewrite list_lookup_insert_eq by done. naive_solver.
    + rewrite list_lookup_insert_ne by done. naive_solver.
Qed.

Definition reached (marks : list Z) (index : nat) : Prop := forall g, grey marks g -> tc edge g index.

Lemma visit_each_ok v index fuel targets marks :
  (forall j marks, edge index j -> done_ok marks -> reached marks j -> (whites marks < fuel)%nat -> searched j marks (v j marks)) ->
  (forall j, j ∈ targets -> edge index j) -> done_ok marks -> (forall g, grey marks g -> g = index \/ tc edge g index) ->
  (whites marks < fuel)%nat ->
  match visit_each v targets marks with
  | (None, _) => False
  | (Some true, _) => exists i, tc edge i i
  | (Some false, marks') =>
      done_ok marks' /\ (forall j, j ∈ targets -> black marks' j) /\ (forall i, grey marks' i <-> grey marks i) /\
      (forall i, black marks i -> black marks' i) /\ (whites marks' <= whites marks)%nat
  end.
Proof.
  intros Hv. revert marks. induction targets as [|j targets IH]; intros marks Ht Hd Hg Hw; cbn [visit_each].
  - split; [done|]. split; [by intros j ?%not_elem_of_nil|done].
  - assert (edge index j) as He by (apply Ht; by left).
    assert (reached marks j) as Hr.
    { intros g [->|Hgi]%Hg; [by apply tc_once|]. etrans; [exact Hgi|by apply tc_once]. }
    specialize (Hv j marks He Hd Hr Hw). unfold searched in Hv. destruct (v j marks) as [[[]|] marks1]; [done| |done].
    destruct Hv as (Hd1 & Hj & Hg1 & Hb1 & Hw1).
    ospecialize (IH marks1 _ Hd1 _ _); [intros i Hi; apply Ht; by right|intros g Hgg%Hg1; by apply Hg|lia|].
    destruct (visit_each v targets marks1) as [[[]|] marks2]; [done| |done]. destruct IH as (Hd2 & Ht2 & Hg2 & Hb2 & Hw2).
    split; [done|]. split; [|split; [intros i; by rewrite Hg2|split; [intros i Hi; by apply Hb2, Hb1|lia]]].
    intros i [->|Hi]%elem_of_cons; [by apply Hb2|by apply Ht2].
Qed.

Lemma visit_ok fuel index marks : edges_wf -> (index < n)%nat -> done_ok marks -> reached marks index -> (whites marks < fuel)%nat ->
  searched index marks (visit fuel edges index marks).
Proof.
  intros Hwf. revert index marks. induction fuel as [|fuel IH]; intros index marks Hi Hd Hr Hw; [lia|]. cbn [visit].
  pose proof Hd as (Hl & _). destruct (lookup_lt_is_Some_2 marks index) as [mark Em]; [lia|].
  destruct (lookup_lt_is_Some_2 edges index Hi) as [targets Et]. rewrite Em, Et.
  destruct (Z.eqb_spec mark 1) as [->|H1]; [exists index; by apply Hr|].
  destruct (Z.eqb_spec mark 2) as [->|H2]; [split; [done|split; [done|done]]|].
  set (marks1 := <[index := 1]> marks). assert (whites marks = S (whites marks1)) as Hw1 by (eapply whites_insert; eauto).
  assert (forall i, grey marks1 i <-> grey marks i \/ i = index) as Hg1.
  { intros i. unfold grey, marks1. destruct (decide (i = index)) as [->|Hne].
    - rewrite list_lookup_insert_eq by lia. naive_solver.
    - rewrite list_lookup_insert_ne by done. naive_solver. }
  assert (forall i, black marks1 i <-> black marks i) as Hb1.
  { intros i. unfold black, marks1. destruct (decide (i = index)) as [->|Hne].
    - rewrite list_lookup_insert_eq by lia. rewrite Em. naive_solver.
    - by rewrite list_lookup_insert_ne by done. }
  assert (done_ok marks1) as Hd1.
  { destruct Hd as (_ & Hc & Ha). split; [unfold marks1; by rewrite length_insert|]. split.
    - intros i j Hbi%Hb1 He. apply Hb1. by eapply Hc.
    - intros i Hbi%Hb1. by apply Ha. }
  pose proof (visit_each_ok (visit fuel edges) index fuel targets marks1) as Hv.
  ospecialize (Hv _ _ Hd1 _ _).
  { intros j marks2 He Hd2 Hr2 Hw2. apply IH; try done. by apply (Hwf index). }
  { intros j Hj. by exists targets. }
  { intros g [Hg| ->]%Hg1; [right; by apply Hr|by left]. }
  { lia. }
  destruct (visit_each (visit fuel edges) targets marks1) as [[[]|] marks2]; [done| |done].
  destruct Hv as (Hd2 & Ht2 & Hg2 & Hb2 & Hw2).
  assert (grey marks2 index) as Hgi by (apply Hg2, Hg1; by right).
  destruct (finish_node index marks2 Hd2 Hgi) as (Hd3 & Hb3 & Hg3 & Hbb).
  { intros j (ts & E & Hj). rewrite Et in E. injection E as <-. by apply Ht2. }
  split; [done|]. split; [done|]. split; [|split].
  - intros i. rewrite Hg3, Hg2, Hg1. split; [naive_solver|]. intros Hg. split; [by left|]. intros ->. unfold grey in Hg. congruence.
  - intros i Hbi. apply Hbb. left. apply Hb2, Hb1, Hbi.
  - rewrite whites_recolour by (done || by right). lia.
Qed.

Lemma whites_le marks : (whites marks <= length marks)%nat.
Proof. apply length_filter. Qed.

Lemma search_ok indices marks : edges_wf -> done_ok marks -> (forall i, ~ grey marks i) -> Forall (fun i => (i < n)%nat) indices ->
  match search indices edges marks with
  | None => False
  | Some true => exists i, tc edge i i
  | Some false => forall i, i ∈ indices \/ black marks i -> ~ tc edge i i
  end.
Proof.
  intros Hwf. revert marks. induction indices as [|index indices IH]; intros marks Hd Hg Hi; cbn [search].
  - intros i [?%not_elem_of_nil|Hb]; [done|]. by apply Hd.
  - apply Forall_cons in Hi as [Hi His].
    pose proof (visit_ok (S n) index marks Hwf Hi Hd) as Hv. ospecialize (Hv _ _).
    { intros g Hgg. by destruct (Hg g). }
    { pose proof (whites_le marks). destruct Hd. lia. }
    unfold searched in Hv. destruct (visit (S n) edges index marks) as [[[]|] marks1]; [done| |done].
    destruct Hv as (Hd1 & Hb1 & Hg1 & Hbb & _). ospecialize (IH marks1 Hd1 _ His); [intros i Hgi%Hg1; by apply (Hg i)|].
    destruct (search indices edges marks1) as [[]|]; [done| |done]. intros i [[->|Hin]%elem_of_cons|Hb]; apply IH.
    + by right.
    + by left.
    + right. by apply Hbb.
Qed.

Lemma edge_source i j : edge i j -> (i < n)%nat.
Proof. intros (ts & E & _). by eapply lookup_lt_Some. Qed.

(** The search decides whether there is a cycle. *)
Lemma cyclic_spec : edges_wf ->
  match cyclic edges with
  | None => False
  | Some true => exists i, tc edge i i
  | Some false => forall i, ~ tc edge i i
  end.
Proof.
  intros Hwf. unfold cyclic. set (marks := replicate n 0). assert (forall i m, marks !! i = Some m -> m = 0) as Hm.
  { intros i m [-> _]%lookup_replicate. done. }
  pose proof (search_ok (seq 0 n) marks Hwf) as Hs. ospecialize (Hs _ _ _).
  - split; [apply length_replicate|]. split; intros i; [intros j|]; intros Hb%Hm; discriminate Hb.
  - intros i Hb%Hm. discriminate Hb.
  - apply Forall_forall. intros i Hi%elem_of_seq. lia.
  - destruct (search _ edges marks) as [[]|]; [done| |done]. intros i Htc. apply (Hs i); [|done]. left.
    apply elem_of_seq. assert (i < n)%nat; [|lia]. inversion Htc; subst; by eapply edge_source.
Qed.

End Search.

(** ** Lemmas: the graph of a profile *)

(** Candidate [i] allows falling back to candidate [j]. *)
Definition falls_back (candidates : list (string * list string)) (i j : nat) : Prop :=
  i <> j /\ exists a allowed b others, candidates !! i = Some (a, allowed) /\ candidates !! j = Some (b, others) /\ b ∈ allowed.

(** Every name of a fallback list is an adapter of the profile, and a list that
    is not empty names another candidate. *)
Definition resolves_at (candidates : list (string * list string)) (i : nat) (allowed : list string) : Prop :=
  allowed = [] \/ ((forall name, name ∈ allowed -> name ∈ map fst candidates) /\
                   exists j b others, j <> i /\ candidates !! j = Some (b, others) /\ b ∈ allowed).

Definition fallbacks_resolve (candidates : list (string * list string)) : Prop :=
  forall i a allowed, candidates !! i = Some (a, allowed) -> resolves_at candidates i allowed.

Lemma require_ok ok msg : require ok msg = inr () <-> ok = true.
Proof. unfold require. by destruct ok. Qed.

Lemma require_cases ok msg : (ok = true /\ require ok msg = inr ()) \/ (ok = false /\ require ok msg = inl (Invalid msg)).
Proof. destruct ok; [by left|by right]. Qed.

Lemma one_of_elem names name : one_of names name = true <-> name ∈ names.
Proof. apply bool_decide_eq_true. Qed.

Lemma for_each_ok {A} (f : A -> snap unit) l : for_each f l = inr () <-> Forall (fun x => f x = inr ()) l.
Proof.
  induction l as [|x l IH]; [done|]. cbn [for_each]. by rewrite try_bind_ok, IH, Forall_cons.
Qed.

(** The errors of a check are all [Invalid]. *)
Definition invalid_only {A} (m : snap A) : Prop := match m with inl (Invalid _) => True | inl _ => False | inr _ => True end.

Lemma invalid_bind {A B} (m : snap A) (k : A -> snap B) : invalid_only m -> (forall x, invalid_only (k x)) -> invalid_only (try_bind m k).
Proof. by destruct m as [[]|x]; cbn. Qed.

Lemma invalid_require ok msg : invalid_only (require ok msg).
Proof. by destruct ok. Qed.

Lemma invalid_for_each {A} (f : A -> snap unit) l : (forall x, invalid_only (f x)) -> invalid_only (for_each f l).
Proof. intros Hf. induction l as [|x l IH]; [done|]. cbn [for_each]. by apply invalid_bind. Qed.

Lemma matches_elem cs i allowed j : j ∈ fallback_matches cs i allowed <->
  j <> i /\ exists b others, cs !! j = Some (b, others) /\ b ∈ allowed.
Proof.
  unfold fallback_matches. rewrite list_elem_of_In, filter_In, <- list_elem_of_In, elem_of_seq, andb_true_iff, negb_true_iff, Nat.eqb_neq.
  destruct (cs !! j) as [[b others]|] eqn:E.
  - apply lookup_lt_Some in E as Hl. rewrite one_of_elem. split; [naive_solver|]. intros [? (? & ? & [= <- <-] & ?)]. split; [lia|done].
  - split; [naive_solver|]. naive_solver.
Qed.

Lemma matches_nil cs i : fallback_matches cs i [] = [].
Proof.
  destruct (fallback_matches cs i []) as [|j l] eqn:E; [done|]. assert (j ∈ fallback_matches cs i []) as Hj by (rewrite E; by left).
  apply matches_elem in Hj as [_ (? & ? & _ & ?%not_elem_of_nil)]. done.
Qed.

Lemma fallback_edges_of_ok cs i allowed :
  (resolves_at cs i allowed /\ fallback_edges_of cs i allowed = inr (fallback_matches cs i allowed)) \/
  (~ resolves_at cs i allowed /\ exists msg, fallback_edges_of cs i allowed = inl (Invalid msg)).
Proof.
  unfold fallback_edges_of. destruct (decide (allowed = [])) as [->|Hne].
  { rewrite (bool_decide_eq_true_2 _ eq_refl), matches_nil. left. split; [by left|done]. }
  rewrite (bool_decide_eq_false_2 _ Hne).
  destruct (validate_graph_names (map fst cs) allowed) as [e|[]] eqn:Ev; cbn [try_bind].
  { right. split.
    - intros [?|[Hn _]]; [done|]. assert (validate_graph_names (map fst cs) allowed = inr ()) as E; [|congruence].
      apply for_each_ok, Forall_forall. intros name Hname. apply require_ok, one_of_elem. by apply Hn.
    - assert (invalid_only (validate_graph_names (map fst cs) allowed)) as Hi by (apply invalid_for_each; intros; apply invalid_require).
      rewrite Ev in Hi. destruct e; try done. by eexists. }
  apply for_each_ok in Ev. rewrite Forall_forall in Ev.
  assert (forall name, name ∈ allowed -> name ∈ map fst cs) as Hn.
  { intros name Hname%Ev. by apply require_ok, one_of_elem in Hname. }
  case_bool_decide as Em.
  - right. split; [|by eexists]. intros [?|[_ (j & b & others & Hj & E & Hb)]]; [done|].
    assert (j ∈ fallback_matches cs i allowed) as Hin by (apply matches_elem; eauto). rewrite Em in Hin. by apply not_elem_of_nil in Hin.
  - left. split; [|done]. right. split; [done|]. destruct (fallback_matches cs i allowed) as [|j l] eqn:E; [done|].
    assert (j ∈ fallback_matches cs i allowed) as Hin by (rewrite E; by left). apply matches_elem in Hin. naive_solver.
Qed.

Lemma fallback_edges_ok cs rest k :
  (exists edges, fallback_edges cs rest k = inr edges /\ length edges = length rest /\
     forall i a allowed, rest !! i = Some (a, allowed) ->
       resolves_at cs (k + i) allowed /\ edges !! i = Some (fallback_matches cs (k + i) allowed)) \/
  (exists msg i a allowed, fallback_edges cs rest k = inl (Invalid msg) /\ rest !! i = Some (a, allowed) /\ ~ resolves_at cs (k + i) allowed).
Proof.
  revert k. induction rest as [|[a allowed] rest IH]; intros k; cbn [fallback_edges]; [left; by eexists|].
  destruct (fallback_edges_of_ok cs k allowed) as [[Hr ->]|[Hr [msg ->]]]; cbn [try_bind].
  - destruct (IH (S k)) as [(edges & -> & Hl & He)|(msg & i & a' & allowed' & -> & Hi & Hn)]; cbn [try_bind].
    + left. eexists. split; [done|]. split; [cbn; lia|]. intros [|i] a' allowed' Hi; cbn in *.
      * injection Hi as <- <-. by rewrite Nat.add_0_r.
      * replace (k + S i)%nat with (S k + i)%nat by lia. by eapply He.
    + right. exists msg, (S i), a', allowed'. split; [done|]. split; [done|]. by replace (k + S i)%nat with (S k + i)%nat by lia.
  - right. exists msg, 0%nat, a, allowed. by rewrite Nat.add_0_r.
Qed.

(** ** Lemmas: what validation guarantees *)

Section Validated.

Lemma direct_transport_known a t : direct_transport a = Some t -> a ∈ KNOWN_ADAPTERS.
Proof.
  unfold direct_transport, one_of. case_bool_decide as E1; [intros _; subst; by_compute|]. case_bool_decide as E2; [|done]. intros _.
  unfold KNOWN_ADAPTERS. repeat (apply elem_of_cons in E2 as [->|E2]; [by_compute|]). by apply not_elem_of_nil in E2.
Qed.

Lemma validated_weight p w : validate_priority_weight p w = inr () -> p <= 1000 /\ 1 <= w <= 1000.
Proof.
  unfold validate_priority_weight. rewrite try_bind_ok, !require_ok. unfold in_range. rewrite andb_true_iff, !Z.leb_le. lia.
Qed.

Lemma validated_port field v : validate_port field v = inr () -> v <> 0.
Proof. unfold validate_port. rewrite require_ok, negb_true_iff. apply Z.eqb_neq. Qed.

Lemma validated_endpoint e : endpoint_validate e = inr () ->
  is_ip (ep_ip e) = true /\ ep_port e <> 0 /\ ep_adapter e ∈ KNOWN_ADAPTERS /\ direct_transport (ep_adapter e) = Some (ep_transport e) /\
  ep_tls_enabled e = false /\ ep_priority e <= 1000 /\ 1 <= ep_weight e <= 1000.
Proof.
  unfold endpoint_validate. rewrite !try_bind_ok. intros (Hip & Hport & _ & H).
  destruct (direct_transport (ep_adapter e)) as [t|] eqn:Et; [|done]. rewrite !try_bind_ok in H. destruct H as (Ht & Htls & Hw & _).
  apply require_ok in Hip, Ht, Htls. apply bool_decide_eq_true in Ht. apply negb_true_iff, orb_false_iff in Htls as [Htls _].
  apply orb_false_iff in Htls as [Htls _]. apply validated_port in Hport. apply validated_weight in Hw.
  apply direct_transport_known in Et as Hk. by rewrite Ht.
Qed.

(** A bridge that passed: its address, its adapter, and, for the adapters that
    need TLS, its edge and server name. *)
Definition bridge_ok (edges : list (string * EdgeProfile)) (b : Bridge) : Prop :=
  is_ip (br_ip b) = true /\ br_port b <> 0 /\ br_adapter b ∈ KNOWN_ADAPTERS /\ br_adapter b <> "direct-tcp" /\
  br_priority b <= 1000 /\ 1 <= br_weight b <= 1000 /\
  (forall l, br_edge_label b = Some l -> is_Some (get_edge l edges)) /\
  (requires_tls (br_adapter b) = true ->
   br_tls_enabled b = true /\ is_Some (br_edge_label b) /\ exists sni, br_sni b = Some sni /\ sni <> "").

Lemma validated_tls edges b : bridge_tls edges b = inr () ->
  (forall l, br_edge_label b = Some l -> is_Some (get_edge l edges)) /\
  (requires_tls (br_adapter b) = true ->
   br_tls_enabled b = true /\ is_Some (br_edge_label b) /\ exists sni, br_sni b = Some sni /\ sni <> "").
Proof.
  unfold bridge_tls. rewrite !try_bind_ok. intros (_ & Htls & Hedge). apply require_ok, negb_true_iff in Htls. split.
  - intros l El. rewrite El in Hedge. by apply require_ok, bool_decide_eq_true in Hedge.
  - intros Hr. rewrite Hr in Htls. cbn [andb] in Htls. apply orb_false_iff in Htls as [Hon Hs]. split; [by apply negb_false_iff|].
    split; [|destruct (br_sni b) as [sni|]; [|done]; exists sni; split; [done|by apply bool_decide_eq_false in Hs]].
    destruct (br_edge_label b) as [l|]; [by eexists|]. rewrite Hr in Hedge. done.
Qed.

Lemma validated_bridge edges labels b labels' : bridge_validate edges labels b = inr labels' ->
  bridge_ok edges b /\ label b ∉ labels /\ labels' = label b :: labels.
Proof.
  unfold bridge_validate. rewrite !try_bind_ok. intros (_ & Hl & Ha & Ht & _ & [= <-]).
  apply require_ok, negb_true_iff, bool_decide_eq_false in Hl. split; [|done]. apply validated_tls in Ht as [He Ht].
  unfold bridge_address in Ha. rewrite !try_bind_ok in Ha. destruct Ha as (Hip & Hport & _ & Hk & Hd & _ & Hw & _).
  apply require_ok in Hip, Hk, Hd. apply one_of_elem in Hk. apply negb_true_iff, bool_decide_eq_false in Hd.
  apply validated_port in Hport. apply validated_weight in Hw as [? ?]. done.
Qed.

Lemma validated_bridges edges labels l : bridges_validate edges labels l = inr () ->
  Forall (bridge_ok edges) l /\ NoDup (map label l) /\ forall b, b ∈ l -> label b ∉ labels.
Proof.
  revert labels. induction l as [|b l IH]; intros labels; cbn [bridges_validate].
  - intros _. split; [done|]. split; [constructor|]. by intros b ?%not_elem_of_nil.
  - destruct (bridge_validate edges labels b) as [e|labels'] eqn:E; cbn [try_bind]; [done|].
    apply validated_bridge in E as (Hb & Hnot & ->). intros (Hf & Hd & Hall)%IH. split; [by constructor|]. split.
    + cbn. constructor; [|done]. intros (b' & Eb & Hin)%list_elem_of_fmap. apply (Hall b' Hin). rewrite Eb. by left.
    + intros b' [->|Hin]%elem_of_cons; [done|]. specialize (Hall b' Hin). intros ?. apply Hall. by right.
Qed.

(** What [profile_fields] guarantees of a profile. *)
Record profile_ok (p : SnapProfile) : Prop := {
  ok_rounds : 1 <= rounds (retry_policy p) <= MAX_RETRY_ROUNDS;
  ok_attempts : max_total_attempts (retry_policy p) <= MAX_RETRY_ATTEMPTS;
  ok_backoff : SFleb f64_zero (backoff_max_sec (retry_policy p)) = true;
  ok_mode : match mode p with Auto => True | DirectOnly => direct_endpoints p <> [] | BridgesOnly | OnionOnly => bridges p <> [] end;
  ok_counts : zlen (direct_endpoints p) <= MAX_DIRECT_ENDPOINTS /\ zlen (bridges p) <= MAX_BRIDGES;
  ok_bridges : Forall (bridge_ok (edge_profiles p)) (bridges p) /\ NoDup (map label (bridges p));
  ok_endpoints : Forall (fun e => endpoint_validate e = inr ()) (direct_endpoints p);
  ok_edges : Forall (fun e => edge_port e.2 <> 0) (edge_profiles p)
}.

Lemma validated_retry p : retry_validate p = inr () ->
  1 <= rounds p <= MAX_RETRY_ROUNDS /\ max_total_attempts p <= MAX_RETRY_ATTEMPTS /\ SFleb f64_zero (backoff_max_sec p) = true.
Proof.
  unfold retry_validate. rewrite !try_bind_ok. intros (Hr & _ & Hb & _ & _ & Ha & _). apply require_ok in Hr, Hb, Ha.
  unfold in_range in Hr. apply andb_true_iff in Hr as [?%Z.leb_le ?%Z.leb_le]. apply andb_true_iff in Hb as [_ Hb].
  apply andb_true_iff in Hb as [Hb _]. apply Z.leb_le in Ha. done.
Qed.

Lemma profile_fields_ok p : profile_fields p = inr () -> profile_ok p.
Proof.
  unfold profile_fields. rewrite !try_bind_ok. intros (_ & _ & _ & _ & Hr & Hm & Hd & Hb & _ & Hbr & He & Hed).
  apply validated_retry in Hr as (? & ? & ?). apply require_ok, Z.leb_le in Hd, Hb. apply validated_bridges in Hbr as (? & ? & _).
  apply for_each_ok in He, Hed. split; try done.
  - unfold mode_entries in Hm. destruct (mode p); [done|..]; apply require_ok, negb_true_iff, bool_decide_eq_false in Hm; intros E; by rewrite E in Hm.
  - eapply Forall_impl; [exact Hed|]. intros [l e] Hv. unfold edge_validate in Hv. rewrite !try_bind_ok in Hv.
    destruct Hv as (_ & _ & Hp & _). by apply validated_port in Hp.
Qed.

Lemma get_edge_elem l edges e : get_edge l edges = Some e -> (l, e) ∈ edges.
Proof.
  induction edges as [|[l' e'] edges IH]; cbn [get_edge]; [done|]. case_bool_decide as E; [intros [= ->]; subst; by left|].
  intros Hg. right. by apply IH.
Qed.

(** *** Every error is [Invalid] *)

Lemma invalid_text field v m : invalid_only (validate_text field v m).
Proof. apply invalid_require. Qed.
Lemma invalid_host field v : invalid_only (validate_host field v).
Proof. apply invalid_bind; intros; apply invalid_require. Qed.
Lemma invalid_timeout field v : invalid_only (validate_optional_timeout field v).
Proof. destruct v; [apply invalid_require|done]. Qed.
Lemma invalid_names l : invalid_only (validate_fallback_names l).
Proof. apply invalid_for_each. intros. apply invalid_require. Qed.
Lemma invalid_weight p w : invalid_only (validate_priority_weight p w).
Proof. apply invalid_bind; intros; apply invalid_require. Qed.
Lemma invalid_contract c : invalid_only (contract_validate c).
Proof. repeat (apply invalid_bind; [apply invalid_text|intros _]). apply invalid_text. Qed.
End Validated.

Create HintDb snap.
#[export] Hint Resolve invalid_require invalid_text invalid_host invalid_timeout invalid_names invalid_weight invalid_contract : snap.

(** Steps through the checks of a validator. *)
Ltac all_invalid :=
  repeat match goal with
    | |- invalid_only (try_bind _ _) => apply invalid_bind; [|intros ?]
    | |- invalid_only (match ?x with _ => _ end) => destruct x
    | |- invalid_only (if ?x then _ else _) => destruct x
    | |- invalid_only _ => first [exact I|solve [eauto with snap]|apply invalid_for_each; intros ?]
    end.

Lemma profile_fields_invalid p : invalid_only (profile_fields p).
Proof.
  assert (forall b, invalid_only (bridge_address b)) as H1 by (intros b; unfold bridge_address, validate_ip, validate_port, validate_adapter; all_invalid).
  assert (forall edges b, invalid_only (bridge_tls edges b)) as H2 by (intros edges b; unfold bridge_tls; all_invalid).
  assert (forall b, invalid_only (bridge_options b)) as H3 by (intros b; unfold bridge_options, validate_ws_path; all_invalid).
  assert (forall edges labels l, invalid_only (bridges_validate edges labels l)) as H4.
  { intros edges labels l. revert labels. induction l as [|b l IH]; intros labels; cbn [bridges_validate]; [done|].
    apply invalid_bind; [|done]. unfold bridge_validate. repeat (apply invalid_bind; [auto with snap|intros _]). done. }
  assert (forall e, invalid_only (endpoint_validate e)) as H5.
  { intros e. unfold endpoint_validate, validate_ip, validate_port, validate_adapter. all_invalid. }
  assert (forall e, invalid_only (edge_validate e)) as H6 by (intros [l e]; unfold edge_validate, validate_port; all_invalid).
  unfold profile_fields, mode_entries, retry_validate, validate_range, validate_adapter_order, validate_adapter.
  repeat (apply invalid_bind; [|intros _]); all_invalid; auto.
Qed.

(** ** Lemmas: the whole validation *)

Lemma graph_exact p :
  let candidates := graph_candidates p in
  exists out, validate_fallback_graph p = Some out /\ invalid_only out /\
    (out = inr () <-> fallbacks_resolve candidates /\ forall i, ~ tc (falls_back candidates) i i).
Proof.
  intros cs. unfold validate_fallback_graph. fold cs.
  destruct (fallback_edges_ok cs cs 0) as [(edges & -> & Hl & He)|(msg & i & a & allowed & -> & Hi & Hn)].
  - assert (forall i j, edge edges i j <-> falls_back cs i j) as Hedge.
    { intros i j. split.
      - intros (ts & Ei & Hj). destruct (lookup_lt_is_Some_2 cs i) as [[a allowed] Ea]; [rewrite <- Hl; by eapply lookup_lt_Some|].
        destruct (He _ _ _ Ea) as [_ E]. cbn in E. rewrite Ei in E. injection E as ->. apply matches_elem in Hj as [? (b & others & ? & ?)].
        split; [done|]. by exists a, allowed, b, others.
      - intros (Hij & a & allowed & b & others & Ea & Eb & Hb). destruct (He _ _ _ Ea) as [_ E]. exists (fallback_matches cs i allowed).
        split; [done|]. apply matches_elem. split; [done|]. by eexists _, _. }
    assert (forall i j, tc (edge edges) i j <-> tc (falls_back cs) i j) as Htc.
    { intros i j. split; intros Ht; induction Ht as [? ? Hs|? ? ? Hs _ IH]; first [by apply tc_once, Hedge|eapply tc_l; [by apply Hedge|done]]. }
    pose proof (cyclic_spec edges) as Hc. ospecialize (Hc _).
    { intros i j (_ & a & allowed & b & others & _ & Eb & _)%Hedge. rewrite Hl. by eapply lookup_lt_Some. }
    assert (fallbacks_resolve cs) as Hres by (intros i a allowed Ea; by apply (He i a)).
    destruct (cyclic edges) as [[]|]; [|exists (inr ())|done].
    + eexists. split; [done|]. split; [done|]. split; [done|]. intros [_ Ha]. destruct Hc as [i Hi%Htc]. by destruct (Ha i).
    + split; [done|]. split; [done|]. split; [|done]. intros _. split; [done|]. intros i Hi%Htc. by apply (Hc i).
  - eexists. split; [done|]. split; [done|]. split; [done|]. intros [Hr _]. destruct Hn. by eapply Hr.
Qed.

Lemma snap_validate_total p : exists out, profile_validate p = Some out /\ invalid_only out.
Proof.
  unfold profile_validate. pose proof (profile_fields_invalid p) as Hi. destruct (profile_fields p) as [e|[]]; [by eexists|].
  destruct (graph_exact p) as (out & -> & Ho & _). by eexists.
Qed.

Lemma validate_fields p : profile_validate p = Some (inr ()) ->
  profile_ok p /\ validate_fallback_graph p = Some (inr ()).
Proof.
  unfold profile_validate. destruct (profile_fields p) as [e|[]] eqn:E; [done|]. intros Hg. split; [by apply profile_fields_ok|done].
Qed.

(** ** Properties of the graph *)

(** C30: the fallback graph of a profile is checked exactly.  The check never
    panics (its depth-first search, with one mark per candidate, always ends),
    its only errors are [Invalid], and it accepts exactly the profiles whose
    fallback lists name adapters of the profile and resolve to another
    candidate, and in which no candidate can fall back to itself over any
    number of steps. *)
Theorem fallback_graph_exact p :
  let candidates := graph_candidates p in
  exists out, validate_fallback_graph p = Some out /\ invalid_only out /\
    (out = inr () <-> fallbacks_resolve candidates /\ forall i, ~ tc (falls_back candidates) i i).
Proof. apply graph_exact. Qed.
