(* ===== verification/SnapPlan.v ===== *)
(** SNAP plans (shph-snap/src/lib.rs): the deterministic candidate plan of a
    profile, the order of the candidates in every retry round, timeouts,
    back-off and audit records.  serde_json is a parameter. *)
From Stdlib Require Import SpecFloat Sorted.
From S2P Require Import Net.
From S2P Require Import Prelude Ordering Error Text Primitives Binary64.
From S2P Require Import Mt19937 SnapProfile.

(** ** Timeouts and rounds *)

Definition adapter_default_timeout_sec (adapter : string) : option f64 :=
  if one_of ["bridge-ws"; "shroud-tcp"] (to_ascii_lowercase (trim adapter)) then Some (f64_of_u64 12) else None.

Definition attempt_limit (p : RetryPolicy) (candidate_count : Z) : Z :=
  let computed := Z.min usize_max (candidate_count * rounds p) in
  if max_total_attempts p =? 0 then computed else Z.min computed (max_total_attempts p).

(** [ordered_round]; [drawn]: the seed the thread's generator gives when the
    policy has none.  [None]: the shuffle ran out of fuel. *)
Definition ordered_round {A} (p : RetryPolicy) (drawn : Z) (candidates : list A) (round_index : Z) : option (result (list A)) :=
  if zlen candidates <=? 1 then Some (Ok candidates)
  else
    match round_order p with
    | Stable => Some (Ok candidates)
    | Rotate =>
        let offset := saturating_sub round_index 1 mod zlen candidates in
        Some (let? back := slice_from candidates offset in
              let? front := slice candidates 0 offset in
              Ok (back ++ front))
    | Shuffle =>
        let seed := match shuffle_seed p with Some seed => seed | None => drawn end in
        python_seeded_shuffle candidates (cast 64 (seed + round_index))
    end.

Definition backoff_after_round (p : RetryPolicy) (completed_round : Z) (random_unit : f64) : result f64 :=
  if (completed_round =? 0) || (rounds p <=? completed_round) then Ok f64_zero
  else
    let exponent := Z.min (saturating_sub completed_round 1) 31 in
    let base := f64_min (f64_mul (backoff_base_sec p) (f64_of_u64 (2 ^ exponent))) (backoff_max_sec p) in
    if SFeqb (jitter_ratio p) f64_zero then Ok base
    else
      let? unit := f64_clamp random_unit f64_zero f64_one in
      let spread := f64_mul (f64_mul (f64_sub (f64_mul unit (f64_of_u64 2)) f64_one) base) (jitter_ratio p) in
      f64_clamp (f64_add base spread) f64_zero (backoff_max_sec p).

(** ** Candidates *)

Inductive CandidateKind := Direct | Relayed.

Record SnapCandidate := mkCandidate {
  kind : CandidateKind;
  adapter : string;
  transport : string;
  target_host : string;
  target_port : Z;
  source : string;
  priority : Z;
  weight : Z;
  timeout_sec : option f64;
  allowed_fallback : list string;
  edge_label : option string;
  c_route_file : option string;
  tls_enabled : option bool;
  sni : option string;
  c_tls_ca_file : option string;
  c_tls_cert_sha256 : option string;
  c_ws_path : option string;
  c_shroud_profile : option string;
  relay_ip : option string;
  relay_port : option Z;
  c_key_file : option string;
  c_contract : option OperatorServiceContract;
  candidate_id : string;
  insertion_index : Z
}.

Record SnapPlan := mkPlan {
  plan_profile_name : string;
  profile_hash : string;
  plan_peer_alias : string;
  plan_connect_timeout_sec : f64;
  plan_retry_policy : RetryPolicy;
  plan_attempt_limit : Z;
  candidates : list SnapCandidate
}.

(** The candidate of a profile without direct endpoints: the peer itself. *)
Definition default_candidate (peer_host : string) (peer_port : Z) : SnapCandidate :=
  mkCandidate Direct "direct-tcp" "tcp" peer_host peer_port "profile_direct_endpoint" 100 100 None [] None None None None
    None None None None None None None None "" 0.

Definition endpoint_candidate (insertion : Z) (e : DirectEndpoint) : SnapCandidate :=
  mkCandidate Direct (ep_adapter e) (ep_transport e) (ep_ip e) (ep_port e) "profile_direct_endpoint" (ep_priority e) (ep_weight e)
    (ep_timeout_sec e) (ep_allowed_fallback e) None None (if ep_tls_enabled e then Some true else None) (ep_sni e)
    None None None None None None None None "" insertion.

(** Where a bridge leads: an onion bridge to the peer, another one to its edge. *)
Definition bridge_target (edges : list (string * EdgeProfile)) (peer_host : string) (peer_port : Z) (b : Bridge) : string * Z :=
  if bool_decide (br_adapter b = "bridge-onion-tcp") then (peer_host, peer_port)
  else
    match br_edge_label b ≫= (fun label => get_edge label edges) with
    | Some edge => (host edge, edge_port edge)
    | None => (peer_host, peer_port)
    end.

Definition bridge_candidate (edges : list (string * EdgeProfile)) (peer_host : string) (peer_port insertion : Z) (b : Bridge) : SnapCandidate :=
  let '(target_host, target_port) := bridge_target edges peer_host peer_port b in
  mkCandidate Relayed (br_adapter b) (br_transport b) target_host target_port ("bridge:" +:+ label b) (br_priority b) (br_weight b)
    (br_timeout_sec b) (br_allowed_fallback b) (br_edge_label b) (route_file b) (Some (br_tls_enabled b)) (br_sni b)
    (tls_ca_file b) (tls_cert_sha256 b) (ws_path b) (shroud_profile b)
    (Some (br_ip b)) (Some (br_port b)) (key_file b) (operator_service_contract b) "" insertion.

(** [insertion += 1] before every push. *)
Fixpoint number_from {A B} (f : Z -> A -> B) (n : Z) (l : list A) : list B :=
  match l with [] => [] | x :: l => f n x :: number_from f (n + 1) l end.

Definition include_direct (m : SnapMode) : bool := match m with Auto | DirectOnly => true | _ => false end.
Definition include_bridges (m : SnapMode) : bool := match m with Auto | BridgesOnly | OnionOnly => true | _ => false end.

(** The candidates in insertion order. *)
Definition gathered (p : SnapProfile) (peer_host : string) (peer_port : Z) : list SnapCandidate :=
  let direct :=
    if include_direct (mode p) then
      match direct_endpoints p with
      | [] => [default_candidate peer_host peer_port]
      | endpoints => number_from endpoint_candidate 1 endpoints
      end
    else [] in
  let insertion := if include_direct (mode p) then zlen (direct_endpoints p) else 0 in
  direct ++
  (if include_bridges (mode p) then number_from (bridge_candidate (edge_profiles p) peer_host peer_port) (insertion + 1) (bridges p) else []).

(** The map from adapter to rank: the last entry of a repeated name counts. *)
Fixpoint adapter_rank (order : list string) (n : Z) (adapter : string) : option Z :=
  match order with
  | [] => None
  | name :: order =>
      match adapter_rank order (n + 1) adapter with
      | Some rank => Some rank
      | None => if bool_decide (name = adapter) then Some n else None
      end
  end.

Definition rank_of (order : list string) (c : SnapCandidate) : Z :=
  match adapter_rank order 0 (adapter c) with Some rank => rank | None => usize_max end.

(** The sort key: priority, rank, weight from the heaviest, insertion. *)
Definition cmp_candidates (order : list string) : SnapCandidate -> SnapCandidate -> comparison :=
  cmp_then (cmp_by priority Z.compare)
    (cmp_then (cmp_by (rank_of order) Z.compare)
      (cmp_then (cmp_by (fun c => - weight c) Z.compare)
        (cmp_by insertion_index Z.compare))).

(** ** Candidate ids *)

(** The first character of a UTF-8 string: its bytes, its code point, the rest. *)
Definition next_char (l : bytes) : option (bytes * Z * bytes) :=
  match l with
  | [] => None
  | a :: l =>
      if a <? 128 then Some ([a], a, l)
      else if a <? 224 then
        match l with
        | b :: l => Some ([a; b], (a - 192) * 64 + (b - 128), l)
        | [] => None
        end
      else if a <? 240 then
        match l with
        | b :: c :: l => Some ([a; b; c], (a - 224) * 4096 + (b - 128) * 64 + (c - 128), l)
        | _ => None
        end
      else
        match l with
        | b :: c :: d :: l => Some ([a; b; c; d], (a - 240) * 262144 + (b - 128) * 4096 + (c - 128) * 64 + (d - 128), l)
        | _ => None
        end
  end.

(** [format!("\\u{n:04x}")] *)
Definition unicode_escape (n : Z) : bytes :=
  [92; 117; hex_digit (n / 4096 mod 16); hex_digit (n / 256 mod 16); hex_digit (n / 16 mod 16); hex_digit (n mod 16)].

Definition escape_char (char : bytes) (codepoint : Z) : bytes :=
  if codepoint <? 128 then char
  else if codepoint <=? 0xffff then unicode_escape codepoint
  else
    let adjusted := codepoint - 0x10000 in
    unicode_escape (0xd800 + Z.shiftr adjusted 10) ++ unicode_escape (0xdc00 + Z.land adjusted 0x3ff).

(** Every round consumes a byte, so the length is enough fuel. *)
Fixpoint escape_loop (fuel : nat) (l : bytes) (in_string escaped : bool) : bytes :=
  match fuel with
  | O => []
  | S fuel =>
      match next_char l with
      | None => []
      | Some (char, ch, l) =>
          if negb in_string then char ++ escape_loop fuel l (ch =? 34) escaped
          else if escaped then char ++ escape_loop fuel l in_string false
          else if ch =? 92 then char ++ escape_loop fuel l in_string true
          else if ch =? 34 then char ++ escape_loop fuel l false escaped
          else escape_char char ch ++ escape_loop fuel l in_string escaped
      end
  end.

Definition escape_non_ascii_json (input : bytes) : bytes := escape_loop (length input) input false false.

Definition with_id (id : string) (c : SnapCandidate) : SnapCandidate :=
  mkCandidate (kind c) (adapter c) (transport c) (target_host c) (target_port c) (source c) (priority c) (weight c)
    (timeout_sec c) (allowed_fallback c) (edge_label c) (c_route_file c) (tls_enabled c) (sni c) (c_tls_ca_file c)
    (c_tls_cert_sha256 c) (c_ws_path c) (c_shroud_profile c) (relay_ip c) (relay_port c) (c_key_file c) (c_contract c)
    id (insertion_index c).

(** The fields of the JSON object that is hashed. *)
Record IdPayload := mkIdPayload {
  id_kind : string;
  id_adapter : string;
  id_target : string * Z;
  id_tls_enabled : bool;
  id_sni : option string;
  id_tls_ca_file : option string;
  id_tls_cert_sha256 : option string;
  id_ws_path : option string;
  id_route_file : option string;
  id_source : string;
  id_priority : Z;
  id_weight : Z;
  id_timeout_sec : option f64;
  id_allowed_fallback : list string;
  id_edge_label : option string;
  id_shroud_profile : option string
}.

Definition id_payload (c : SnapCandidate) : IdPayload :=
  mkIdPayload (match kind c with Direct => "direct" | Relayed => "bridge" end) (adapter c) (target_host c, target_port c)
    (match tls_enabled c with Some b => b | None => false end) (sni c) (c_tls_ca_file c) (c_tls_cert_sha256 c) (c_ws_path c)
    (c_route_file c) (source c) (priority c) (weight c) (timeout_sec c) (allowed_fallback c) (edge_label c) (c_shroud_profile c).

Section Plan.
Context `{HashOps}.
(** serde_json's text of the three values that are hashed. *)
Context (payload_json : IdPayload -> bytes) (profile_json : SnapProfile -> bytes)
  (material_json : string * string * list string -> bytes).

Definition short_sha256 (l : bytes) : string := bytes_str (take 16 (str_bytes (hex_encode (sha256 l)))).

Definition compute_id (c : SnapCandidate) : string := short_sha256 (escape_non_ascii_json (payload_json (id_payload c))).

Definition hash_profile (p : SnapProfile) : string := hex_encode (sha256 (profile_json p)).

(** [SnapProfile::plan]; [None]: a panic. *)
Definition plan (p : SnapProfile) (peer_host : string) (peer_port : Z) : option (snap SnapPlan) :=
  match profile_validate p with
  | None => None
  | Some checked => Some (
      do# checked ;
      do# validate_host "peer endpoint host" peer_host ;
      do# validate_port "peer endpoint port" peer_port ;
      let order := adapter_order (transport_preferences p) in
      let sorted := sort_by (cmp_candidates order) (gathered p peer_host peer_port) in
      inr (mkPlan (profile_name p) (hash_profile p) (peer_alias p) (connect_timeout_sec p) (retry_policy p)
             (attempt_limit (retry_policy p) (zlen sorted)) (map (fun c => with_id (compute_id c) c) sorted)))
  end.

(** ** Plans in use *)

Definition effective_candidate_timeout_sec (s : SnapPlan) (c : SnapCandidate) : f64 :=
  match timeout_sec c with
  | Some t => t
  | None => match adapter_default_timeout_sec (adapter c) with Some t => t | None => plan_connect_timeout_sec s end
  end.

Definition effective_candidate_timeout_source (c : SnapCandidate) : string :=
  match timeout_sec c, adapter_default_timeout_sec (adapter c) with
  | Some _, _ => "candidate_timeout"
  | None, Some _ => "adapter_default"
  | None, None => "profile_default"
  end.

Definition candidate_allows_fallback (from to : SnapCandidate) : bool :=
  bool_decide (allowed_fallback from = []) || one_of (allowed_fallback from) (adapter to).

Definition candidates_for_round (s : SnapPlan) (drawn round_index : Z) : option (result (list SnapCandidate)) :=
  ordered_round (plan_retry_policy s) drawn (candidates s) round_index.

(** ** Audit records *)

Inductive AttemptOutcome := Connected | RetryableFailure | TerminalFailure | FallbackDenied | BudgetExceeded.

Record SnapAuditContext := mkAuditContext {
  ctx_profile_name : string;
  ctx_profile_hash : string;
  peer_ref : string;
  plan_id : string;
  correlation_id : string
}.

(** [correlation]: sixteen bytes of the thread's generator. *)
Definition audit_context (s : SnapPlan) (pinned_peer_fingerprint : string) (correlation : bytes) : SnapAuditContext :=
  let peer_source :=
    if bool_decide (trim pinned_peer_fingerprint = "") then to_ascii_lowercase (trim (plan_peer_alias s))
    else to_ascii_lowercase (trim pinned_peer_fingerprint) in
  let peer_ref := short_sha256 (str_bytes peer_source) in
  mkAuditContext (plan_profile_name s) (profile_hash s) peer_ref
    (short_sha256 (material_json (profile_hash s, peer_ref, map candidate_id (candidates s)))) (hex_encode correlation).

Record SnapAuditEvent := mkAuditEvent {
  event_name : string;
  ev_context : SnapAuditContext;
  ev_candidate_id : string;
  candidate_source : string;
  ev_adapter : string;
  ev_edge_label : string;
  ev_shroud_profile : option string;
  round_index : Z;
  attempt_index : Z;
  effective_timeout_ms : option Z;
  elapsed_ms : Z;
  outcome : AttemptOutcome;
  ev_result : string;
  normalized_failure_reason : string;
  detail_code : string;
  selected_path_type : CandidateKind
}.

Definition audit_names (o : AttemptOutcome) : string * string * string * string :=
  match o with
  | Connected => ("snap_connect_established", "success", "", "session_established")
  | RetryableFailure => ("snap_candidate_failed", "failure", "retryable_failure", "adapter_or_connection_failure")
  | TerminalFailure => ("snap_candidate_failed", "failure", "terminal_failure", "identity_authentication_or_protocol_failure")
  | FallbackDenied => ("snap_fallback_triggered", "skipped", "fallback_policy_denied", "blocked_by_allowed_fallback")
  | BudgetExceeded => ("snap_candidate_failed", "failure", "connect_budget_exceeded", "connect_budget_exceeded")
  end.

Definition audit_event (context : SnapAuditContext) (c : SnapCandidate) (round attempt : Z) (o : AttemptOutcome)
    (elapsed_ms : Z) : SnapAuditEvent :=
  let '(event_name, result, reason, detail_code) := audit_names o in
  mkAuditEvent event_name context (candidate_id c) (source c) (adapter c) (default "" (edge_label c)) (c_shroud_profile c)
    round attempt None elapsed_ms o result reason detail_code (kind c).
End Plan.

(** ** Lemmas: the rounds *)

(** A shuffle is a permutation; used by the rounds. *)
Lemma ordered_round_ok {A} (p : RetryPolicy) drawn (l : list A) r : zlen l < 2 ^ 32 ->
  exists l', ordered_round p drawn l r = Some (Ok l') /\ Permutation l' l.
Proof.
  intros Hl. unfold ordered_round. destruct (Z.leb_spec (zlen l) 1); [by eexists|]. destruct (round_order p); [by eexists|..].
  - assert (0 <= saturating_sub r 1 mod zlen l < zlen l) as Ho by (apply Z.mod_pos_bound; lia).
    rewrite slice_from_ok, slice_ok by lia. cbn [rbind]. eexists. split; [done|]. rewrite zdrop_0, Z.sub_0_r.
    rewrite Permutation_app_comm. by rewrite ztake_zdrop.
  - by apply shuffle_ok.
Qed.

(** Rotation starts round [r] at the [r]-th candidate. *)
Lemma rotate_round {A} (p : RetryPolicy) drawn (l : list A) r : round_order p = Rotate -> 1 <= r <= zlen l ->
  ordered_round p drawn l r = Some (Ok (zdrop (r - 1) l ++ ztake (r - 1) l)).
Proof.
  intros Hr Hl. unfold ordered_round. rewrite Hr. destruct (Z.leb_spec (zlen l) 1) as [H1|H1].
  - replace (r - 1) with 0 by lia. by rewrite zdrop_0, ztake_0, app_nil_r.
  - assert (saturating_sub r 1 mod zlen l = r - 1) as -> by (unfold saturating_sub; rewrite Z.max_r by lia; apply Z.mod_small; lia).
    rewrite slice_from_ok, slice_ok by lia. cbn [rbind]. by rewrite zdrop_0, Z.sub_0_r.
Qed.

(** The delay after a round is never above the maximum. *)
Lemma backoff_ok p r unit : SFleb f64_zero (backoff_max_sec p) = true ->
  exists d, backoff_after_round p r unit = Ok d /\ (d = f64_zero \/ SFltb (backoff_max_sec p) d = false) /\
    (r = 0 \/ rounds p <= r -> d = f64_zero).
Proof.
  intros Hmax. unfold backoff_after_round. destruct ((r =? 0) || (rounds p <=? r)) eqn:Er.
  { exists f64_zero. split; [done|]. split; [by left|done]. }
  assert (~ (r = 0 \/ rounds p <= r)) as Hlast.
  { apply orb_false_iff in Er as [?%Z.eqb_neq ?%Z.leb_gt]. lia. }
  set (base := f64_min _ _). destruct (SFeqb _ _).
  { exists base. split; [done|]. split; [right; apply f64_min_le|tauto]. }
  destruct (f64_clamp_ok unit f64_zero f64_one) as (u & -> & _); [by vm_compute|]. cbn [rbind].
  destruct (f64_clamp_ok (f64_add base (f64_mul (f64_mul (f64_sub (f64_mul u (f64_of_u64 2)) f64_one) base) (jitter_ratio p)))
    f64_zero (backoff_max_sec p) Hmax) as (d & -> & _ & Hd).
  exists d. split; [done|]. split; [by right|tauto].
Qed.

(** ** Lemmas: the candidates *)

Lemma number_from_length {A B} (f : Z -> A -> B) n l : length (number_from f n l) = length l.
Proof. revert n. induction l as [|x l IH]; intros n; [done|]. cbn. by rewrite IH. Qed.

Lemma number_from_elem {A B} (f : Z -> A -> B) n l y : y ∈ number_from f n l ->
  exists i x, x ∈ l /\ n <= i < n + zlen l /\ y = f i x.
Proof.
  revert n. induction l as [|x l IH]; intros n; cbn [number_from]; [by intros ?%not_elem_of_nil|]. rewrite zlen_cons.
  pose proof (zlen_nonneg l). intros [->|(i & x' & Hin & Hi & ->)%IH]%elem_of_cons.
  - exists n, x. split; [by left|]. split; [lia|done].
  - exists i, x'. split; [by right|]. split; [lia|done].
Qed.

Section Insertion.
Context {A : Type} (f : Z -> A -> SnapCandidate) (Hf : forall n x, insertion_index (f n x) = n).

Lemma number_from_sorted n l : StronglySorted Z.lt (map insertion_index (number_from f n l)).
Proof.
  revert n. induction l as [|x l IH]; intros n; cbn; [constructor|]. rewrite Hf. constructor; [apply IH|].
  apply Forall_forall. intros i (c & -> & (j & y & _ & Hj & ->)%number_from_elem)%list_elem_of_fmap. rewrite Hf. lia.
Qed.
End Insertion.

Lemma endpoint_insertion n e : insertion_index (endpoint_candidate n e) = n.
Proof. done. Qed.

Lemma bridge_insertion edges host port n b : insertion_index (bridge_candidate edges host port n b) = n.
Proof. unfold bridge_candidate. by destruct (bridge_target _ _ _ _). Qed.

(** What is known of a candidate. *)
Definition candidate_ok (p : SnapProfile) (peer_host : string) (peer_port : Z) (c : SnapCandidate) : Prop :=
  adapter c ∈ KNOWN_ADAPTERS /\ target_port c <> 0 /\ 1 <= weight c <= 1000 /\ priority c <= 1000 /\
  match kind c with
  | Direct => include_direct (mode p) = true /\ relay_ip c = None
  | Relayed => include_bridges (mode p) = true /\ adapter c <> "direct-tcp" /\
      (adapter c = "bridge-onion-tcp" -> (target_host c, target_port c) = (peer_host, peer_port)) /\
      (requires_tls (adapter c) = true -> tls_enabled c = Some true /\
        exists l e, edge_label c = Some l /\ get_edge l (edge_profiles p) = Some e /\ (target_host c, target_port c) = (host e, edge_port e)) /\
      relay_port c <> Some 0
  end.

Section Candidates.
Context (p : SnapProfile) (peer_host : string) (peer_port : Z).
Context (Hp : profile_ok p) (Hport : peer_port <> 0).

Lemma default_ok : include_direct (mode p) = true -> candidate_ok p peer_host peer_port (default_candidate peer_host peer_port).
Proof. intros Hd. split; [by_compute|]. split; [done|]. split; [cbn; lia|]. split; [cbn; lia|done]. Qed.

Lemma endpoint_ok n e : include_direct (mode p) = true -> e ∈ direct_endpoints p ->
  candidate_ok p peer_host peer_port (endpoint_candidate n e).
Proof.
  intros Hd Hin. pose proof (ok_endpoints _ Hp) as He. rewrite Forall_forall in He. specialize (He e Hin).
  apply validated_endpoint in He as (_ & ? & ? & _ & _ & ? & ?). done.
Qed.

Lemma requires_tls_not_onion a : requires_tls a = true -> a <> "bridge-onion-tcp".
Proof. intros Hr ->. vm_compute in Hr. done. Qed.

Lemma bridge_candidate_ok n b : include_bridges (mode p) = true -> b ∈ bridges p ->
  candidate_ok p peer_host peer_port (bridge_candidate (edge_profiles p) peer_host peer_port n b).
Proof.
  intros Hb Hin. destruct (ok_bridges _ Hp) as [Hf _]. rewrite Forall_forall in Hf.
  destruct (Hf b Hin) as (_ & Hpt & Hk & Hnd & ? & ? & Hedge & Htls). pose proof (ok_edges _ Hp) as He. rewrite Forall_forall in He.
  unfold bridge_candidate, bridge_target. destruct (bool_decide (br_adapter b = "bridge-onion-tcp")) eqn:Eon.
  - apply bool_decide_eq_true in Eon. split; [done|]. split; [done|]. split; [done|]. split; [done|].
    split; [done|]. split; [done|]. split; [done|]. split; [|cbn; congruence]. intros Ht%requires_tls_not_onion. done.
  - apply bool_decide_eq_false in Eon. destruct (br_edge_label b) as [l|] eqn:El; cbn [mbind option_bind].
    + destruct (Hedge l eq_refl) as [e Ee]. rewrite Ee. specialize (He _ (get_edge_elem _ _ _ Ee)).
      split; [done|]. split; [done|]. split; [done|]. split; [done|]. split; [done|]. split; [done|]. split; [done|].
      split; [|cbn; congruence]. intros Ht. destruct (Htls Ht) as (Hon & _ & _). cbn. split; [by rewrite Hon|]. by exists l, e.
    + split; [done|]. split; [done|]. split; [done|]. split; [done|]. split; [done|]. split; [done|]. split; [done|].
      split; [|cbn; congruence]. intros Ht. destruct (Htls Ht) as (_ & [l ?] & _). done.
Qed.

Lemma gathered_ok : Forall (candidate_ok p peer_host peer_port) (gathered p peer_host peer_port).
Proof.
  apply Forall_forall. intros c Hc. unfold gathered in Hc. apply elem_of_app in Hc as [Hc|Hc].
  - destruct (include_direct (mode p)) eqn:Hd; [|by apply not_elem_of_nil in Hc].
    destruct (direct_endpoints p) as [|e l] eqn:El.
    + apply list_elem_of_singleton in Hc as ->. by apply default_ok.
    + rewrite <- El in Hc. apply number_from_elem in Hc as (i & e' & Hin & _ & ->). by apply endpoint_ok.
  - destruct (include_bridges (mode p)) eqn:Hb; [|by apply not_elem_of_nil in Hc].
    apply number_from_elem in Hc as (i & b & Hin & _ & ->). by apply bridge_candidate_ok.
Qed.

Lemma gathered_nonempty : gathered p peer_host peer_port <> [].
Proof.
  pose proof (ok_mode _ Hp) as Hm. unfold gathered. destruct (mode p); cbn [include_direct include_bridges].
  - by destruct (direct_endpoints p).
  - by destruct (direct_endpoints p).
  - by destruct (bridges p).
  - by destruct (bridges p).
Qed.

Lemma gathered_count : zlen (gathered p peer_host peer_port) <= MAX_DIRECT_ENDPOINTS + MAX_BRIDGES.
Proof.
  destruct (ok_counts _ Hp) as [Hd Hb]. unfold gathered. rewrite zlen_app. unfold MAX_DIRECT_ENDPOINTS, MAX_BRIDGES in *.
  assert (forall {A B} (f : Z -> A -> B) n l, zlen (number_from f n l) = zlen l) as Hn by (intros; unfold zlen; by rewrite number_from_length).
  destruct (include_direct (mode p)), (include_bridges (mode p)), (direct_endpoints p); rewrite ?Hn, ?zlen_nil in *; unfold zlen in *; cbn in *; lia.
Qed.

(** No two candidates compare equal. *)
Lemma gathered_distinct : StronglySorted Z.lt (map insertion_index (gathered p peer_host peer_port)).
Proof.
  unfold gathered. rewrite map_app.
  assert (forall l1 l2 k, StronglySorted Z.lt l1 -> StronglySorted Z.lt l2 -> Forall (fun i => i <= k) l1 -> Forall (fun i => k < i) l2 ->
    StronglySorted Z.lt (l1 ++ l2)) as Happ.
  { induction l1 as [|x l1 IH]; intros l2 k H1 H2 Hk1 Hk2; [done|]. inversion H1; subst. apply Forall_cons in Hk1 as [? ?].
    cbn. constructor; [by eapply IH|]. apply Forall_app. split; [done|]. eapply Forall_impl; [exact Hk2|]. intros i Hi. cbn in *. lia. }
  apply (Happ _ _ (if include_direct (mode p) then zlen (direct_endpoints p) else 0)).
  - destruct (include_direct (mode p)); [|constructor]. destruct (direct_endpoints p); [repeat constructor|]. by apply number_from_sorted.
  - destruct (include_bridges (mode p)); [|constructor]. apply number_from_sorted. apply bridge_insertion.
  - apply Forall_forall. intros i (c & -> & Hc)%list_elem_of_fmap. destruct (include_direct (mode p)); [|by apply not_elem_of_nil in Hc].
    destruct (direct_endpoints p) as [|e l] eqn:El; [apply list_elem_of_singleton in Hc as ->; done|].
    apply number_from_elem in Hc as (j & x & _ & Hj & ->). cbn. lia.
  - apply Forall_forall. intros i (c & -> & Hc)%list_elem_of_fmap. destruct (include_bridges (mode p)); [|by apply not_elem_of_nil in Hc].
    apply number_from_elem in Hc as (j & x & _ & Hj & ->). rewrite bridge_insertion. lia.
Qed.
End Candidates.

(** ** Lemmas: the plan *)

Lemma cmp_candidates_eq order a b : cmp_candidates order a b = Eq -> insertion_index a = insertion_index b.
Proof.
  unfold cmp_candidates, cmp_then, cmp_by, then_with. destruct (priority a ?= priority b); [|discriminate..].
  destruct (rank_of order a ?= rank_of order b); [|discriminate..]. destruct (- weight a ?= - weight b); [|discriminate..].
  apply Z.compare_eq_iff.
Qed.

(** Sorting candidates with distinct insertion indices is strict. *)
Lemma sorted_strictly order l : StronglySorted (fun a b => cmp_candidates order a b <> Gt) l -> NoDup (map insertion_index l) ->
  StronglySorted (fun a b => cmp_candidates order a b = Lt) l.
Proof.
  induction 1 as [|c l _ IH Hc]; cbn; [constructor|]. intros [Hn Hd]%NoDup_cons. constructor; [by apply IH|].
  rewrite Forall_forall in Hc. apply Forall_forall. intros d Hin. specialize (Hc d Hin). destruct (cmp_candidates order c d) eqn:E; [|done..].
  apply cmp_candidates_eq in E. destruct Hn. rewrite E. by apply list_elem_of_fmap_2.
Qed.

Lemma lt_sorted_NoDup (l : list Z) : StronglySorted Z.lt l -> NoDup l.
Proof.
  induction 1 as [|x l _ IH Hx]; constructor; [|done]. intros Hin. rewrite Forall_forall in Hx. specialize (Hx x Hin). lia.
Qed.

Lemma attempt_limit_ok p n : 1 <= rounds p <= MAX_RETRY_ROUNDS -> 0 <= max_total_attempts p -> 1 <= n <= 48 ->
  1 <= attempt_limit p n <= n * rounds p /\ (max_total_attempts p <> 0 -> attempt_limit p n <= max_total_attempts p).
Proof.
  intros Hr Ha Hn. unfold attempt_limit, MAX_RETRY_ROUNDS in *. assert (1 <= n * rounds p <= 48 * 12) as Hm by nia.
  assert (Z.min usize_max (n * rounds p) = n * rounds p) as -> by (apply Z.min_r; unfold usize_max, u64_max; lia).
  destruct (Z.eqb_spec (max_total_attempts p) 0); lia.
Qed.

(** ** Properties *)

(** C31: planning is total and exact.  For every profile and peer endpoint
    [plan] ends without a panic, either with an [Invalid] error or with a plan,
    and it succeeds exactly when the profile is valid (its fallback graph
    included), the peer's host name is valid and its port is not zero.  The plan
    holds the candidates of the profile's mode, at least one and at most 48,
    each once with its id, strictly ordered by priority, adapter rank, weight
    and insertion; every candidate has a known adapter, a non-zero port and a
    weight from 1 to 1000, an onion bridge leads to the peer itself, an adapter
    that needs TLS has it enabled and leads to its edge; and the attempts are
    between one and one per candidate and round, within the policy's total. *)
Theorem snap_plan_exact `{HashOps} payload_json profile_json p peer_host peer_port :
  0 <= max_total_attempts (retry_policy p) ->
  exists out, plan payload_json profile_json p peer_host peer_port = Some out /\ invalid_only out /\
    ((exists s, out = inr s) <-> profile_validate p = Some (inr ()) /\
       validate_host "peer endpoint host" peer_host = inr () /\ peer_port <> 0) /\
    forall s, out = inr s ->
      (exists sorted, candidates s = map (fun c => with_id (compute_id payload_json c) c) sorted /\
         Permutation sorted (gathered p peer_host peer_port) /\
         StronglySorted (fun a b => cmp_candidates (adapter_order (transport_preferences p)) a b = Lt) sorted) /\
      Forall (candidate_ok p peer_host peer_port) (candidates s) /\
      1 <= zlen (candidates s) <= 48 /\
      1 <= plan_attempt_limit s <= zlen (candidates s) * rounds (retry_policy p) /\
      (max_total_attempts (retry_policy p) <> 0 -> plan_attempt_limit s <= max_total_attempts (retry_policy p)).
Proof.
  intros Ha. unfold plan. destruct (snap_validate_total p) as (checked & Ev & Hinv). rewrite Ev.
  set (sorted := sort_by _ _). eexists. split; [done|].
  assert (invalid_only (validate_host "peer endpoint host" peer_host)) as Hih by apply invalid_host.
  split; [|split].
  - apply invalid_bind; [done|]. intros []. apply invalid_bind; [done|]. intros []. by apply invalid_bind; [apply invalid_require|].
  - split.
    + intros [s Hs]. rewrite !try_bind_ok in Hs. destruct Hs as (-> & -> & Hport & _). by apply validated_port in Hport.
    + intros ([= ->] & -> & Hport). unfold validate_port. rewrite (proj2 (Z.eqb_neq _ _) Hport). cbn. by eexists.
  - intros s Hs. rewrite !try_bind_ok in Hs. destruct Hs as (-> & _ & Hport & [= <-]). apply validated_port in Hport.
    destruct (validate_fields p Ev) as [Hp _]. cbn [candidates plan_attempt_limit].
    assert (Permutation sorted (gathered p peer_host peer_port)) as Hperm by (apply sort_by_perm; apply _).
    pose proof (gathered_ok p peer_host peer_port Hp Hport) as Hok.
    assert (1 <= zlen sorted <= 48) as Hlen.
    { pose proof (gathered_count p peer_host peer_port Hp). pose proof (gathered_nonempty p peer_host peer_port Hp).
      unfold zlen in *. rewrite Hperm. destruct (gathered p peer_host peer_port); [done|]. cbn in *. unfold MAX_DIRECT_ENDPOINTS, MAX_BRIDGES in *. lia. }
    assert (zlen (map (fun c => with_id (compute_id payload_json c) c) sorted) = zlen sorted) as -> by (unfold zlen; by rewrite length_map).
    split; [|split; [|split; [done|apply attempt_limit_ok; [apply Hp|done|done]]]].
    + exists sorted. split; [done|]. split; [done|]. apply sorted_strictly; [apply sort_by_sorted; apply _|].
      apply (NoDup_Permutation_proper (map insertion_index sorted) (map insertion_index (gathered p peer_host peer_port))).
      * by apply Permutation_map.
      * apply lt_sorted_NoDup, gathered_distinct.
    + apply Forall_map. rewrite Hperm. exact Hok.
Qed.

(** the retry rounds.  In every round of a policy every candidate is tried
    once: the order of the round is a permutation of the candidates, whatever
    the policy, the round and the seed drawn for an unseeded shuffle, and the
    seeded shuffle, which reproduces Python's, always ends; with a rotating
    order the [r]-th of the first rounds starts with the [r]-th candidate; a
    policy with a seed does not depend on what is drawn.  The back-off of a
    validated policy never panics, is zero after the last round and never above
    the maximum, whatever the random unit is. *)
Theorem snap_rounds_fair {A} p (l : list A) drawn r :
  zlen l < 2 ^ 32 ->
  (exists l', ordered_round p drawn l r = Some (Ok l') /\ Permutation l' l /\
     (round_order p = Rotate -> 1 <= r <= zlen l -> head l' = l !! Z.to_nat (r - 1)) /\
     (is_Some (shuffle_seed p) -> forall other, ordered_round p other l r = Some (Ok l'))) /\
  (retry_validate p = inr () -> forall unit, exists d, backoff_after_round p r unit = Ok d /\
     (d = f64_zero \/ SFltb (backoff_max_sec p) d = false) /\ (r = 0 \/ rounds p <= r -> d = f64_zero)).
Proof.
  intros Hl. split; [|intros (_ & _ & Hm)%validated_retry unit; by apply backoff_ok].
  destruct (ordered_round_ok p drawn l r Hl) as (l' & E & Hperm). exists l'. split; [done|]. split; [done|]. split.
  - intros Hrot Hr. rewrite rotate_round in E by done. injection E as <-. rewrite head_lookup, lookup_app_l.
    + unfold zdrop. rewrite lookup_drop. f_equal. lia.
    + unfold zdrop, zlen in *. rewrite length_drop. lia.
  - intros [seed Hs] other. rewrite <- E. unfold ordered_round. by rewrite Hs.
Qed.

(** ** Witnesses *)

Module Witnesses.
Import Toy.

Definition payload_json (i : IdPayload) : bytes := str_bytes (id_source i +:+ id_adapter i).
Definition profile_json (p : SnapProfile) : bytes := str_bytes (profile_name p).

Definition home : DirectEndpoint :=
  mkEndpoint "192.0.2.1" 4433 "tcp" "direct-tcp" false None None 100 100 None ["bridge-tls"; "bridge-onion-tcp"].
Definition onion : Bridge :=
  mkBridge "onion" "192.0.2.2" 9000 (Some "relay.key") None "onion-tcp" "bridge-onion-tcp" false None None 100 200 None ["bridge-tls"]
    None None None None (Some (mkContract "ops" "relay-1" "ticket-7")).
Definition front : Bridge :=
  mkBridge "front" "2001:db8::1" 443 (Some "front.key") None "onion-tcp" "bridge-tls" true (Some "edge.example") (Some "eu") 50 100
    (Some (f64_of_u64 5)) [] None None None None None.
Definition profile : SnapProfile :=
  mkProfile 1 "default" Auto "peer" (f64_of_u64 8) [home] [onion; front]
    (mkRetryPolicy 3 (f64_lit 6 10) (f64_of_u64 8) (f64_lit 15 100) Rotate (Some 7) 5 f64_zero)
    [("eu", mkEdge "edge.example" 443 true "")] (mkPreferences DEFAULT_ADAPTER_ORDER).

Notation planned := (plan payload_json profile_json profile "peer.example" 7000).

Definition sources (out : option (snap SnapPlan)) : list (string * string * Z) :=
  match out with Some (inr s) => map (fun c => (source c, target_host c, target_port c)) (candidates s) | _ => [] end.

Lemma snap_plan_exact_witness :
  sources planned = [("bridge:front", "edge.example", 443); ("profile_direct_endpoint", "192.0.2.1", 4433); ("bridge:onion", "peer.example", 7000)] /\
  exists s, planned = Some (inr s) /\ Forall (candidate_ok profile "peer.example" 7000) (candidates s) /\ plan_attempt_limit s <= 5.
Proof.
  split; [vm_compute; reflexivity|].
  destruct (snap_plan_exact payload_json profile_json profile "peer.example" 7000) as (out & E & _ & Hiff & Hs); [vm_compute; discriminate|].
  destruct (proj2 Hiff) as [s ->].
  - split; [vm_compute; reflexivity|]. split; [vm_compute; reflexivity|discriminate].
  - exists s. split; [exact E|]. destruct (Hs s eq_refl) as (_ & Hok & _ & _ & Hmax). split; [exact Hok|]. apply Hmax. discriminate.
Defined.

Lemma snap_rounds_fair_witness :
  let policy := retry_policy profile in
  ordered_round policy 0 [10; 20; 30] 3 = Some (Ok [30; 10; 20]) /\
  (exists l', ordered_round policy 0 [10; 20; 30] 3 = Some (Ok l') /\ Permutation l' [10; 20; 30] /\ head l' = Some 30) /\
  exists d, backoff_after_round policy 2 f64_one = Ok d /\ (d = f64_zero \/ SFltb (f64_of_u64 8) d = false).
Proof.
  split; [vm_compute; reflexivity|].
  destruct (snap_rounds_fair (retry_policy profile) [10; 20; 30] 0 3) as [(l' & E & Hp & Hrot & _) _]; [vm_compute; reflexivity|].
  destruct (snap_rounds_fair (retry_policy profile) [10; 20; 30] 0 2) as [_ Hb]; [vm_compute; reflexivity|].
  split.
  - exists l'. split; [exact E|]. split; [exact Hp|]. apply Hrot; [reflexivity|split; vm_compute; discriminate].
  - destruct (Hb ltac:(vm_compute; reflexivity) f64_one) as (d & Ed & Hd & _). exists d. split; [exact Ed|exact Hd].
Defined.
End Witnesses.
