(* ===== verification/Capability.v ===== *)
(** Edge capabilities (shph-edge/src/capability.rs): signed tokens that admit a
    client to an edge for a short time, and the cache that makes every token
    usable once.  Ed25519 and URL-safe base64 are interfaces. *)
From Stdlib Require Import Sorted.
From stdpp Require Import gmap.
From S2P Require Import Prelude Ordering Error Text Primitives.

Definition CAPABILITY_VERSION : bytes := str_bytes "phantom-one.1".
Definition SIGNING_DOMAIN : bytes := str_bytes "SHPH-EDGE-CAPABILITY/PHANTOM-ONE/1" ++ [0].
Definition NONCE_LEN : Z := 16.
Definition MAX_TOKEN_LEN : Z := 4096.
Definition MAX_AUDIENCE_LEN : Z := 64.

(** Base64 with the URL-safe alphabet and no padding (crate base64), on the
    bytes of the text. *)
Class UrlBase64 := { url64_encode : bytes -> bytes; url64_decode : bytes -> option bytes }.

Class UrlBase64Laws `{UrlBase64} := {
  url64_round_trip l : bytes_ok l -> url64_decode (url64_encode l) = Some l;
  url64_no_dot l : bytes_ok l -> 46 ∉ url64_encode l;
  url64_size l : zlen (url64_encode l) <= 2 * zlen l;
  url64_decode_bytes t l : url64_decode t = Some l -> bytes_ok l
}.

Record CapabilityClaims := mkClaims { audience : bytes; issued_at : Z; expires_at : Z; nonce : bytes }.

Inductive CapabilityError :=
  | Malformed | InvalidSignature | InvalidAudience | InvalidLifetime | LifetimeTooLong
  | NotYetValid | Expired | AudienceMismatch | Replay | InvalidSigningKey.

Abbreviation cap A := (CapabilityError + A)%type.

(** ** Claims *)

(** Durations are whole seconds here: only [as_secs] is used. *)
Definition validate_shape (c : CapabilityClaims) (now max_lifetime : Z) : cap unit :=
  do# check_or (negb ((zlen (audience c) =? 0) || (MAX_AUDIENCE_LEN <? zlen (audience c)))) InvalidAudience ;
  do# check_or (forallb (fun b => b <? 128) (audience c) &&
                negb (existsb (fun b => (b <=? 32) || (b =? 47) || (b =? 92)) (audience c))) InvalidAudience ;
  do# check_or (negb (expires_at c <=? issued_at c)) InvalidLifetime ;
  do# check_or (negb (max_lifetime <? expires_at c - issued_at c)) LifetimeTooLong ;
  do# check_or (negb (now <? issued_at c)) NotYetValid ;
  check_or (negb (expires_at c <=? now)) Expired.

Definition encode_claims (c : CapabilityClaims) : cap bytes :=
  do# check_or (negb (u8_max <? zlen (audience c))) InvalidAudience ;
  inr ([cast 8 (zlen (audience c))] ++ audience c ++ be_bytes 8 (issued_at c) ++ be_bytes 8 (expires_at c) ++ nonce c).

(** The slices are within the payload once its length is [expected]. *)
Definition decode_claims (payload : bytes) : cap CapabilityClaims :=
  do# check_or (negb (zlen payload <? 1 + 8 + 8 + NONCE_LEN)) Malformed ;
  match payload with
  | [] => inl Malformed
  | audience_len :: rest =>
      let expected := 1 + audience_len + 8 + 8 + NONCE_LEN in
      do# check_or (negb ((audience_len =? 0) || (MAX_AUDIENCE_LEN <? audience_len) || negb (expected =? zlen payload))) Malformed ;
      let audience := ztake audience_len rest in
      do# check_or (utf8_valid audience) Malformed ;
      let rest := zdrop audience_len rest in
      let issued_at := be_val (ztake 8 rest) in
      let rest := zdrop 8 rest in
      let expires_at := be_val (ztake 8 rest) in
      inr (mkClaims audience issued_at expires_at (zdrop 8 rest))
  end.

Definition signing_input (payload : bytes) : bytes := SIGNING_DOMAIN ++ payload.

(** ** Tokens *)

(** [s.split_once('.')] *)
Fixpoint split_dot (l : bytes) : option (bytes * bytes) :=
  match l with
  | [] => None
  | b :: l => if b =? 46 then Some ([], l) else match split_dot l with Some (x, y) => Some (b :: x, y) | None => None end
  end.

(** The issuer holds the seed of its key pair. *)
Record CapabilityIssuer := mkIssuer { key_pair : bytes; issuer_max_lifetime : Z }.
Record CapabilityVerifier := mkVerifier { public_key : bytes; verifier_audience : bytes; verifier_max_lifetime : Z; clock_skew : Z }.
Record VerifiedCapability := mkVerified { claims : CapabilityClaims; valid_from : Z; replay_expires_at : Z }.

Section Tokens.
Context `{KexOps, UrlBase64}.

Definition issue (i : CapabilityIssuer) (c : CapabilityClaims) : cap bytes :=
  do# validate_shape c (issued_at c) (issuer_max_lifetime i) ;
  let# payload := encode_claims c in
  let signature := ed25519_sign (key_pair i) (signing_input payload) in
  inr (CAPABILITY_VERSION ++ [46] ++ url64_encode payload ++ [46] ++ url64_encode signature).

Definition CapabilityVerifier_new (public_key audience : bytes) (max_lifetime clock_skew : Z) : cap CapabilityVerifier :=
  match validate_shape (mkClaims audience 1 2 (zreplicate NONCE_LEN 0)) 1 max_lifetime with
  | inl _ => inl InvalidAudience
  | inr _ => inr (mkVerifier public_key audience max_lifetime clock_skew)
  end.

Definition replay_retention_secs (v : CapabilityVerifier) : Z :=
  saturating_add u64_max (saturating_add u64_max (verifier_max_lifetime v) (Z.min u64_max (clock_skew v * 2))) 1.

(** The part of [verify_for_replay] up to the signature. *)
Definition open_token (v : CapabilityVerifier) (token : bytes) : cap bytes :=
  do# check_or (negb (MAX_TOKEN_LEN <? zlen token)) Malformed ;
  let# encoded := some_or (strip_prefix (CAPABILITY_VERSION ++ [46]) token) Malformed in
  let# parts := some_or (split_dot encoded) Malformed in
  let# payload := some_or (url64_decode parts.1) Malformed in
  let# signature := some_or (url64_decode parts.2) Malformed in
  do# check_or (zlen signature =? 64) Malformed ;
  do# check_or (ed25519_verify (public_key v) (signing_input payload) signature) InvalidSignature ;
  inr payload.

(** The checks of the claims. *)
Definition check_claims (v : CapabilityVerifier) (now : Z) (c : CapabilityClaims) : cap unit :=
  do# check_or (bool_decide (audience c = verifier_audience v)) AudienceMismatch ;
  let lower := saturating_sub now (clock_skew v) in
  let upper := saturating_add u64_max now (clock_skew v) in
  do# check_or (negb (upper <? issued_at c)) NotYetValid ;
  do# check_or (negb (expires_at c <=? lower)) Expired ;
  let# lifetime := some_or (checked_sub (expires_at c) (issued_at c)) InvalidLifetime in
  do# check_or (negb (lifetime =? 0)) InvalidLifetime ;
  check_or (negb (verifier_max_lifetime v <? lifetime)) LifetimeTooLong.

Definition verify_for_replay (v : CapabilityVerifier) (token : bytes) (now : Z) : cap VerifiedCapability :=
  let# payload := open_token v token in
  let# c := decode_claims payload in
  do# check_claims v now c ;
  inr (mkVerified c (saturating_sub (issued_at c) (clock_skew v)) (saturating_add u64_max (expires_at c) (clock_skew v))).
End Tokens.

(** ** The replay cache *)

(** [expirations] is a [BinaryHeap] of [Reverse]: its elements, least first. *)
Record ReplayCache := mkCache { capacity : Z; entries : gmap bytes Z; expirations : list (Z * bytes) }.

Definition ReplayCache_new (capacity : Z) : cap ReplayCache :=
  if (capacity =? 0) || (1000000 <? capacity) then inl Malformed else inr (mkCache capacity ∅ []).

Definition heap_le (a b : Z * bytes) : bool :=
  match then_with (a.1 ?= b.1) (cmp_bytes a.2 b.2) with Gt => false | _ => true end.

Fixpoint heap_push (x : Z * bytes) (h : list (Z * bytes)) : list (Z * bytes) :=
  match h with
  | [] => [x]
  | y :: h' => if heap_le x y then x :: h else y :: heap_push x h'
  end.

Fixpoint prune_loop (now : Z) (entries : gmap bytes Z) (expirations : list (Z * bytes)) : gmap bytes Z * list (Z * bytes) :=
  match expirations with
  | [] => (entries, [])
  | (expires_at, nonce) :: rest =>
      if now <? expires_at then (entries, expirations)
      else prune_loop now (if bool_decide (entries !! nonce = Some expires_at) then delete nonce entries else entries) rest
  end.

Definition prune (now : Z) (c : ReplayCache) : ReplayCache :=
  let '(entries, expirations) := prune_loop now (entries c) (expirations c) in mkCache (capacity c) entries expirations.

Definition live_entry (now : Z) (e : option Z) : bool := match e with Some expiry => now <? expiry | None => false end.

Definition cache_insert (nonce : bytes) (expires_at now : Z) (c : ReplayCache) : bool * ReplayCache :=
  if live_entry now (entries c !! nonce) then (false, c)
  else
    let c := prune now c in
    if (expires_at <=? now) || bool_decide (is_Some (entries c !! nonce)) then (false, c)
    else if capacity c <=? Z.of_nat (size (entries c)) then (false, c)
    else (true, mkCache (capacity c) (<[nonce := expires_at]> (entries c)) (heap_push (expires_at, nonce) (expirations c))).

Definition consume (v : VerifiedCapability) (now : Z) (c : ReplayCache) : cap CapabilityClaims * ReplayCache :=
  if now <? valid_from v then (inl NotYetValid, c)
  else if replay_expires_at v <=? now then (inl Expired, c)
  else
    let '(inserted, c) := cache_insert (nonce (claims v)) (replay_expires_at v) now c in
    (if inserted then inr (claims v) else inl Replay, c).

Definition verify `{KexOps, UrlBase64} (v : CapabilityVerifier) (token : bytes) (now : Z) (c : ReplayCache)
    : cap CapabilityClaims * ReplayCache :=
  match verify_for_replay v token now with
  | inl e => (inl e, c)
  | inr verified => consume verified now c
  end.

(** * Replay cache *)

(** What the cache promises: the history of the accepted nonces with their
    expiries, of which the live ones bar their nonce and fill the capacity. *)
Definition live (now : Z) (log : list (bytes * Z)) : list (bytes * Z) := filter (fun p => now < p.2) log.

Definition history_insert (capacity : Z) (nonce : bytes) (expires_at now : Z) (log : list (bytes * Z)) : bool * list (bytes * Z) :=
  if (now <? expires_at) && bool_decide (nonce ∉ (live now log).*1) && (zlen (live now log) <? capacity)
  then (true, log ++ [(nonce, expires_at)]) else (false, log).

(** A call: nonce, expiry and the clock. *)
Notation insertion := (bytes * Z * Z)%type.

Fixpoint cache_run (l : list insertion) (c : ReplayCache) : list bool * ReplayCache :=
  match l with
  | [] => ([], c)
  | (nonce, expires_at, now) :: l => let '(r, c) := cache_insert nonce expires_at now c in let '(rs, c) := cache_run l c in (r :: rs, c)
  end.

Fixpoint history_run (capacity : Z) (l : list insertion) (log : list (bytes * Z)) : list bool * list (bytes * Z) :=
  match l with
  | [] => ([], log)
  | (nonce, expires_at, now) :: l =>
      let '(r, log) := history_insert capacity nonce expires_at now log in
      let '(rs, log) := history_run capacity l log in (r :: rs, log)
  end.

(** The clock never goes back. *)
Fixpoint clocks_from (T : Z) (l : list insertion) : Prop :=
  match l with [] => True | (_, _, now) :: l => T <= now /\ clocks_from now l end.

Notation sooner := (fun a b : Z * bytes => a.1 <= b.1).
Notation items m := (prod_swap <$> map_to_list (m : gmap bytes Z)).

Record cache_ok (T : Z) (c : ReplayCache) (log : list (bytes * Z)) : Prop := {
  ok_sorted : StronglySorted sooner (expirations c);
  ok_items : expirations c ≡ₚ items (entries c);
  ok_full : Z.of_nat (size (entries c)) <= capacity c;
  ok_distinct : NoDup (live T log).*1;
  ok_live n e : T < e -> entries c !! n = Some e <-> (n, e) ∈ log
}.

(** ** The heap *)

Lemma heap_push_perm x h : heap_push x h ≡ₚ x :: h.
Proof.
  induction h as [|y h IH]; [done|]. cbn [heap_push]. destruct (heap_le x y); [done|].
  rewrite IH. apply Permutation_swap.
Qed.

Lemma heap_le_fst x y : if heap_le x y then x.1 <= y.1 else y.1 <= x.1.
Proof. unfold heap_le, then_with. destruct (Z.compare_spec x.1 y.1), (cmp_bytes x.2 y.2); lia. Qed.

Lemma heap_push_sorted x h : StronglySorted sooner h -> StronglySorted sooner (heap_push x h).
Proof.
  induction 1 as [|y h Hh IH Hy]; [repeat constructor|]. cbn [heap_push].
  pose proof (heap_le_fst x y) as Hxy. destruct (heap_le x y).
  - constructor; [by constructor|]. constructor; [done|]. eapply Forall_impl; [exact Hy|]. cbn. lia.
  - constructor; [done|]. rewrite heap_push_perm. by constructor.
Qed.

Lemma items_lookup (m : gmap bytes Z) h n e : h ≡ₚ items m -> (e, n) ∈ h <-> m !! n = Some e.
Proof.
  intros ->. rewrite list_elem_of_fmap. split.
  - intros ([n' e'] & [= -> ->] & Hin). by apply elem_of_map_to_list.
  - intros Hl. exists (n, e). by rewrite elem_of_map_to_list.
Qed.

(** Pruning drops exactly what has expired, from the map and from the heap. *)
Lemma prune_loop_spec now h m :
  StronglySorted sooner h -> h ≡ₚ items m ->
  let '(m', h') := prune_loop now m h in
  m' = filter (fun p => now < p.2) m /\ StronglySorted sooner h' /\ h' ≡ₚ items m'.
Proof.
  intros Hs. revert m. induction Hs as [|[e n] h Hs IH Hall]; intros m Hp; cbn [prune_loop].
  - apply Permutation_nil in Hp. apply fmap_nil_inv, map_to_list_empty_iff in Hp as ->.
    rewrite map_filter_empty, map_to_list_empty. split; [done|]. split; [constructor|done].
  - assert (m !! n = Some e) as Hm by (apply (items_lookup m _ _ _ Hp); constructor).
    destruct (Z.ltb_spec now e) as [Hlt|Hge].
    + split; [|split; [by constructor|done]]. symmetry. apply map_filter_id. intros n' e' Hm'. cbn.
      apply (items_lookup m _ _ _ Hp) in Hm'. apply elem_of_cons in Hm' as [[= -> ->]|Hin]; [done|].
      rewrite Forall_forall in Hall. specialize (Hall _ Hin). cbn in Hall. lia.
    + rewrite bool_decide_eq_true_2 by done. ospecialize (IH (delete n m) _).
      * rewrite <- (insert_delete_id m n e Hm), map_to_list_insert in Hp by apply lookup_delete_eq.
        by apply Permutation_cons_inv in Hp.
      * destruct (prune_loop now (delete n m) h) as [m' h']. destruct IH as (-> & HS & HP).
        rewrite map_filter_delete_not in HP |- *; try done; intros y; rewrite Hm; intros [= <-]; cbn; lia.
Qed.

Lemma prune_ok T now c log : T <= now -> cache_ok T c log ->
  cache_ok now (prune now c) log /\ entries (prune now c) = filter (fun p => now < p.2) (entries c) /\ capacity (prune now c) = capacity c.
Proof.
  intros Hle [Hs Hp Hf Hd Hl]. unfold prune.
  pose proof (prune_loop_spec now _ _ Hs Hp) as E. destruct (prune_loop _ _ _) as [m h].
  destruct E as (-> & HS & HP). split; [|done]. split; cbn.
  - done.
  - done.
  - etransitivity; [|exact Hf]. apply inj_le. apply map_size_filter.
  - unfold live in *. rewrite <- (list_filter_filter_l _ (fun p => T < p.2)) by (intros [? ?]; cbn; lia).
    eapply sublist_NoDup; [exact Hd|]. apply fmap_sublist, sublist_filter.
  - intros n e He. rewrite map_lookup_filter_Some. rewrite Hl by lia. cbn. tauto.
Qed.

Lemma live_elem now log n e : (n, e) ∈ live now log <-> now < e /\ (n, e) ∈ log.
Proof. unfold live. by rewrite list_elem_of_filter. Qed.

Lemma live_nonce now log n : n ∈ (live now log).*1 <-> exists e, now < e /\ (n, e) ∈ log.
Proof.
  rewrite list_elem_of_fmap. split.
  - intros ([n' e] & -> & Hin%live_elem). by exists e.
  - intros (e & Hin%live_elem). by exists (n, e).
Qed.

(** Once pruned, the map is the live part of the history. *)
Lemma pruned_size now c log : cache_ok now c log -> entries c = filter (fun p => now < p.2) (entries c) ->
  Z.of_nat (size (entries c)) = zlen (live now log).
Proof.
  intros [_ _ _ Hd Hl] Hpr. unfold zlen. rewrite <- length_map_to_list. f_equal. apply Permutation_length.
  apply NoDup_Permutation; [apply NoDup_map_to_list|by eapply NoDup_fmap_1|].
  intros [n e]. rewrite elem_of_map_to_list, live_elem. split.
  - intros Hin. assert (now < e) as He by (rewrite Hpr, map_lookup_filter_Some in Hin; apply Hin).
    split; [done|]. by apply Hl.
  - intros [He Hin]. by apply Hl.
Qed.

Lemma live_entry_spec T now c log nonce : T <= now -> cache_ok T c log ->
  live_entry now (entries c !! nonce) = true <-> nonce ∈ (live now log).*1.
Proof.
  intros Hle [_ _ _ _ Hl]. rewrite live_nonce. destruct (entries c !! nonce) as [e|] eqn:En; cbn.
  - rewrite Z.ltb_lt. split.
    + intros He. exists e. split; [done|]. apply Hl; [lia|done].
    + intros (e' & He' & Hin%Hl); [|lia]. by simplify_eq.
  - split; [done|]. intros (e' & He' & Hin%Hl); [|lia]. by simplify_eq.
Qed.

Lemma insert_refines T nonce expires_at now c log : T <= now -> cache_ok T c log ->
  let '(r, c') := cache_insert nonce expires_at now c in
  let '(r', log') := history_insert (capacity c) nonce expires_at now log in
  r = r' /\ cache_ok now c' log' /\ capacity c' = capacity c.
Proof.
  intros Hle Hok. unfold cache_insert, history_insert.
  pose proof (live_entry_spec T now c log nonce Hle Hok) as Hlive.
  destruct (prune_ok T now c log Hle Hok) as (Hok' & Epr & Ecap).
  assert (cache_ok now c log) as Hnow.
  { destruct Hok as [Hs Hp Hf Hd Hl], Hok' as [_ _ _ Hd' _]. split; try done. intros n e He. apply Hl. lia. }
  destruct (live_entry now (entries c !! nonce)) eqn:Ee.
  - rewrite (bool_decide_eq_false_2 (nonce ∉ _)) by tauto. by rewrite andb_false_r.
  - assert (nonce ∉ (live now log).*1) as Hfresh by (intros Hin; apply Hlive in Hin; congruence).
    rewrite (bool_decide_eq_true_2 (nonce ∉ _)) by done.
    assert (entries (prune now c) = filter (fun p => now < p.2) (entries (prune now c))) as Efix.
    { rewrite Epr. symmetry. by apply map_filter_filter_r. }
    assert (entries (prune now c) !! nonce = None) as Enone.
    { destruct (entries (prune now c) !! nonce) as [e|] eqn:En; [|done]. exfalso. apply Hfresh, live_nonce. exists e.
      assert (now < e) as He by (rewrite Efix, map_lookup_filter_Some in En; apply En).
      split; [done|]. by apply Hok'. }
    rewrite Enone, (bool_decide_eq_false_2 (is_Some _)) by (by intros [? ?]).
    rewrite orb_false_r, andb_true_r, Ecap, (pruned_size now _ log) by done.
    destruct (Z.leb_spec expires_at now), (Z.ltb_spec now expires_at); try lia; cbn [andb]; [done|].
    destruct (Z.leb_spec (capacity c) (zlen (live now log))), (Z.ltb_spec (zlen (live now log)) (capacity c)); try lia; [done|].
    split; [done|]. split; [|done].
    destruct Hok' as [Hs Hp Hf Hd Hl]. split; cbn.
    + by apply heap_push_sorted.
    + rewrite heap_push_perm, map_to_list_insert by done. cbn. by apply perm_skip.
    + rewrite map_size_insert_None by done. pose proof (pruned_size now _ log (Build_cache_ok _ _ _ Hs Hp Hf Hd Hl) Efix). lia.
    + unfold live in *. rewrite filter_app, filter_cons_True, filter_nil, fmap_app by done. cbn.
      rewrite NoDup_app. split; [done|]. split; [|apply NoDup_singleton]. intros x Hx ->%list_elem_of_singleton. done.
    + intros n e He. rewrite elem_of_app, list_elem_of_singleton. destruct (decide (n = nonce)) as [->|Hne].
      * rewrite lookup_insert_eq. split; [intros [= <-]; by right|]. intros [Hin|[= ->]]; [|done].
        exfalso. apply Hfresh, live_nonce. eauto.
      * rewrite lookup_insert_ne, Hl by done. split; [by left|]. intros [Hin|[= -> ->]]; done.
Qed.

Lemma run_ok T l c log : clocks_from T l -> cache_ok T c log ->
  let '(rs, c') := cache_run l c in
  let '(rs', log') := history_run (capacity c) l log in
  rs = rs' /\ (exists T', cache_ok T' c' log') /\ capacity c' = capacity c.
Proof.
  revert T c log. induction l as [|[[nonce expires_at] now] l IH]; intros T c log Hcl Hok; cbn [cache_run history_run]; [by eauto|].
  destruct Hcl as [Hle Hcl]. pose proof (insert_refines T nonce expires_at now c log Hle Hok) as Hstep.
  destruct (cache_insert _ _ _ _) as [r c1], (history_insert _ _ _ _ _) as [r' log1].
  destruct Hstep as (-> & Hok1 & <-). specialize (IH now c1 log1 Hcl Hok1).
  destruct (cache_run l c1), (history_run _ _ _) as [rs' log']. destruct IH as (-> & IH & Ec). done.
Qed.

(** A nonce in the history is refused while it lives. *)
Lemma history_bars capacity l T nonce e log j e' now' :
  clocks_from T l -> (nonce, e) ∈ log ->
  l !! j = Some (nonce, e', now') -> (history_run capacity l log).1 !! j = Some true -> e <= now'.
Proof.
  revert T log j. induction l as [|[[n1 e1] now1] l IH]; intros T log j Hcl Hin Hj Hr; [done|].
  cbn [history_run] in Hr. destruct Hcl as [Hle Hcl]. destruct (history_insert _ _ _ _ _) as [r log1] eqn:Ei.
  destruct (history_run capacity l log1) as [rs log'] eqn:Er. cbn [fst] in Hr.
  assert ((nonce, e) ∈ log1) as Hin1.
  { unfold history_insert in Ei. case_if; simplify_eq; [|done]. apply elem_of_app. by left. }
  destruct j as [|j]; cbn in Hj, Hr.
  - simplify_eq. unfold history_insert in Ei. destruct (decide (e <= now')) as [|Hgt]; [done|]. exfalso.
    rewrite (bool_decide_eq_false_2 (nonce ∉ _)), andb_false_r in Ei; [by simplify_eq|].
    intros Hn. apply Hn, live_nonce. exists e. split; [lia|done].
  - apply (IH now1 log1 j); try done. by rewrite Er.
Qed.

Lemma history_once capacity l T log i j nonce e now e' now' :
  clocks_from T l -> (i < j)%nat ->
  l !! i = Some (nonce, e, now) -> (history_run capacity l log).1 !! i = Some true ->
  l !! j = Some (nonce, e', now') -> (history_run capacity l log).1 !! j = Some true -> e <= now'.
Proof.
  revert T log i j. induction l as [|[[n1 e1] now1] l IH]; intros T log i j Hcl Hij Hi Hri Hj Hrj; [done|].
  cbn [history_run] in Hri, Hrj. destruct Hcl as [Hle Hcl]. destruct (history_insert _ _ _ _ _) as [r log1] eqn:Ei.
  destruct (history_run capacity l log1) as [rs log'] eqn:Er. cbn [fst] in Hri, Hrj.
  destruct j as [|j]; [lia|]. cbn in Hj, Hrj. destruct i as [|i]; cbn in Hi, Hri.
  - simplify_eq. eapply (history_bars capacity l now nonce e log1 j e' now'); try done; [|by rewrite Er].
    unfold history_insert in Ei. case_if; simplify_eq. apply elem_of_app. right. constructor.
  - eapply (IH now1 log1 i j); try done; [lia|by rewrite Er..].
Qed.

(** the replay cache refines the full history of its insertions.  Over any
    sequence of insertions whose clocks do not go back, every answer of the
    cache, with its pruning by a heap of expiries, is the answer of the
    specification that remembers everything: accepted exactly when the expiry
    is in the future, no accepted nonce that is still live is equal, and fewer
    than [capacity] accepted nonces are live.  The map never exceeds the
    capacity, the heap holds one item for each of its entries, and a nonce is
    not accepted a second time before its first expiry. *)
Theorem replay_cache_refines capacity0 c l :
  0 <= capacity0 -> ReplayCache_new capacity0 = inr c -> clocks_from 0 l ->
  let '(rs, c') := cache_run l c in
  rs = (history_run capacity0 l []).1 /\
  Z.of_nat (size (entries c')) <= capacity0 /\ expirations c' ≡ₚ items (entries c') /\
  forall i j nonce e now e' now', (i < j)%nat ->
    l !! i = Some (nonce, e, now) -> rs !! i = Some true ->
    l !! j = Some (nonce, e', now') -> rs !! j = Some true -> e <= now'.
Proof.
  unfold ReplayCache_new. intros Hcap Hnew Hcl. destruct ((capacity0 =? 0) || _) eqn:Hc; [done|]. injection Hnew as <-.
  assert (cache_ok 0 (mkCache capacity0 ∅ []) []) as Hok.
  { split; cbn.
    - constructor.
    - by rewrite map_to_list_empty.
    - by rewrite map_size_empty.
    - constructor.
    - intros n e He. rewrite lookup_empty. split; [done|]. by intros ?%not_elem_of_nil. }
  pose proof (run_ok 0 l _ _ Hcl Hok) as Hrun. cbn [capacity] in Hrun.
  destruct (cache_run _ _) as [rs c'], (history_run _ _ _) as [rs' log'] eqn:Eh. destruct Hrun as (-> & (T & [_ Hp Hf _ _]) & Ec).
  cbn in Ec. rewrite Ec in Hf. split; [done|]. split; [done|]. split; [done|].
  intros. eapply (history_once capacity0 l 0 [] i j); try done; by rewrite Eh.
Qed.

(** * Tokens *)

(** What the type of the claims guarantees, and the bounds of the codec. *)
Record claims_wf (c : CapabilityClaims) : Prop := {
  wf_audience : bytes_ok (audience c) /\ utf8_valid (audience c) = true;
  wf_audience_len : 0 < zlen (audience c) <= MAX_AUDIENCE_LEN;
  wf_issued : 0 <= issued_at c <= u64_max;
  wf_expires : 0 <= expires_at c <= u64_max;
  wf_nonce : bytes_ok (nonce c) /\ zlen (nonce c) = NONCE_LEN
}.

Definition claims_payload (c : CapabilityClaims) : bytes :=
  [zlen (audience c)] ++ audience c ++ be_bytes 8 (issued_at c) ++ be_bytes 8 (expires_at c) ++ nonce c.

Lemma encode_claims_wf c : claims_wf c -> encode_claims c = inr (claims_payload c).
Proof.
  intros [_ Hl _ _ _]. unfold encode_claims, u8_max, MAX_AUDIENCE_LEN in *.
  rewrite (proj2 (Z.ltb_ge _ _)) by lia. cbn [negb check_or try_bind]. unfold cast. by rewrite Z.mod_small by lia.
Qed.

Lemma claims_payload_ok c : claims_wf c -> bytes_ok (claims_payload c) /\ zlen (claims_payload c) = 33 + zlen (audience c).
Proof.
  intros [[Ha _] Hl _ _ [Hn Hnl]]. unfold MAX_AUDIENCE_LEN, NONCE_LEN, claims_payload in *. split; [|zl].
  rewrite !bytes_ok_app. repeat split; auto with bytes. apply Forall_singleton. red. lia.
Qed.

Lemma decode_claims_payload c : claims_wf c -> decode_claims (claims_payload c) = inr c.
Proof.
  intros Hc. destruct (claims_payload_ok c Hc) as [_ Hlen]. destruct Hc as [[Ha Hu] Hl Hi He [Hn Hnl]].
  unfold decode_claims. rewrite Hlen. unfold claims_payload, MAX_AUDIENCE_LEN, NONCE_LEN, u64_max in *. cbn [app].
  rewrite (proj2 (Z.ltb_ge _ _)), (proj2 (Z.eqb_neq (zlen (audience c)) 0)), (proj2 (Z.ltb_ge 64 _)), (proj2 (Z.eqb_eq (1 + _ + 8 + 8 + 16) _)) by lia.
  cbn [negb orb check_or try_bind]. rewrite (ztake_app (zlen (audience c))), (zdrop_app (zlen (audience c))) by done.
  rewrite Hu. cbn [check_or try_bind].
  rewrite (ztake_app 8), (zdrop_app 8), (ztake_app 8), (zdrop_app 8) by apply zlen_be_bytes.
  rewrite !be_val_be_bytes by (change (256 ^ Z.of_nat 8) with (u64_max + 1); unfold u64_max; lia). by destruct c.
Qed.

Lemma decode_claims_exact p c : bytes_ok p -> decode_claims p = inr c -> claims_wf c /\ p = claims_payload c.
Proof.
  intros Hp. unfold decode_claims. rewrite try_bind_ok, check_or_ok. intros [H33 Hd]. bool_prop.
  destruct p as [|n p]; [done|]. apply bytes_ok_cons in Hp as [Hn Hp].
  rewrite !try_bind_ok, !check_or_ok in Hd. destruct Hd as (Hshape & Hu & [= <-]). bool_prop.
  rewrite zlen_cons in *. unfold is_byte, NONCE_LEN in *.
  assert (zlen (ztake n p) = n) as Ea by zl.
  assert (length (ztake 8 (zdrop n p)) = 8%nat /\ length (ztake 8 (zdrop 8 (zdrop n p))) = 8%nat) as [E1 E2].
  { assert (zlen (ztake 8 (zdrop n p)) = 8 /\ zlen (ztake 8 (zdrop 8 (zdrop n p))) = 8) as [? ?] by zl. unfold zlen in *. lia. }
  assert (bytes_ok (ztake 8 (zdrop n p)) /\ bytes_ok (ztake 8 (zdrop 8 (zdrop n p)))) as [B1 B2] by auto with bytes.
  pose proof (be_val_bound _ B1) as V1. pose proof (be_val_bound _ B2) as V2. unfold zlen in V1, V2. rewrite E1 in V1. rewrite E2 in V2.
  split; [split; cbn; unfold MAX_AUDIENCE_LEN in *|unfold claims_payload; cbn].
  - auto with bytes.
  - lia.
  - change (256 ^ Z.of_nat 8) with (u64_max + 1) in V1. lia.
  - change (256 ^ Z.of_nat 8) with (u64_max + 1) in V2. lia.
  - split; [auto with bytes|]. unfold NONCE_LEN. zl.
  - rewrite Ea. pose proof (be_bytes_be_val _ B1) as R1. pose proof (be_bytes_be_val _ B2) as R2. rewrite E1 in R1. rewrite E2 in R2.
    by rewrite R1, R2, !ztake_zdrop.
Qed.

Lemma strip_prefix_spec p l r : strip_prefix p l = Some r <-> l = p ++ r.
Proof.
  revert l. induction p as [|a p IH]; intros l; cbn; [naive_solver|].
  destruct l as [|b l]; [done|]. destruct (Z.eqb_spec a b) as [->|Hne]; [|naive_solver]. rewrite IH. naive_solver.
Qed.

Lemma split_dot_app x y : 46 ∉ x -> split_dot (x ++ [46] ++ y) = Some (x, y).
Proof.
  induction x as [|b x IH]; intros Hx; [done|]. cbn [app split_dot].
  apply not_elem_of_cons in Hx as [Hb Hx]. rewrite (proj2 (Z.eqb_neq b 46)) by done. cbn [app] in IH. by rewrite IH.
Qed.

Lemma split_dot_inv l x y : split_dot l = Some (x, y) -> l = x ++ [46] ++ y.
Proof.
  revert x. induction l as [|b l IH]; intros x; [done|]. cbn [split_dot].
  destruct (Z.eqb_spec b 46) as [->|]; [by intros [= <- <-]|].
  destruct (split_dot l) as [[x' y']|]; [|done]. intros [= <- <-]. cbn. by rewrite (IH x').
Qed.

(** The calls of a verifier on one cache: token and clock. *)
Fixpoint verify_run `{KexOps, UrlBase64} (v : CapabilityVerifier) (l : list (bytes * Z)) (c : ReplayCache) : ReplayCache :=
  match l with [] => c | (token, now) :: l => verify_run v l (verify v token now c).2 end.

(** A live nonce stays until it expires, whatever is inserted. *)
Lemma prune_loop_keeps now h m n e : m !! n = Some e -> now < e -> (prune_loop now m h).1 !! n = Some e.
Proof.
  intros Hm He. revert m Hm. induction h as [|[e' n'] h IH]; intros m Hm; cbn [prune_loop]; [done|].
  destruct (Z.ltb_spec now e'); [done|]. apply IH. destruct (bool_decide_reflect (m !! n' = Some e')) as [Hn'|]; [|done].
  rewrite lookup_delete_ne; [done|]. intros ->. rewrite Hm in Hn'. injection Hn' as ->. lia.
Qed.

Lemma insert_keeps nonce expires_at now c n e :
  entries c !! n = Some e -> now < e -> entries (cache_insert nonce expires_at now c).2 !! n = Some e.
Proof.
  intros Hn He. unfold cache_insert. destruct (live_entry now (entries c !! nonce)) eqn:El; [done|].
  assert (entries (prune now c) !! n = Some e) as Hp.
  { unfold prune. pose proof (prune_loop_keeps now (expirations c) _ _ _ Hn He). by destruct (prune_loop _ _ _). }
  destruct (_ || _); [done|]. destruct (_ <=? _); [done|]. cbn.
  rewrite lookup_insert_ne; [done|]. intros ->. rewrite Hn in El. cbn in El. bool_prop. lia.
Qed.

Lemma insert_accepted nonce expires_at now c :
  (cache_insert nonce expires_at now c).1 = true ->
  entries (cache_insert nonce expires_at now c).2 !! nonce = Some expires_at /\ now < expires_at.
Proof.
  unfold cache_insert. destruct (live_entry _ _); [done|]. destruct (Z.leb_spec expires_at now); [done|].
  cbn [orb]. destruct (bool_decide _); [done|]. destruct (_ <=? _); [done|]. cbn. by rewrite lookup_insert_eq.
Qed.

Section TokenTheorems.
Context `{KexLaws} `{UrlBase64Laws}.

Lemma verify_keeps v token now c n e :
  entries c !! n = Some e -> now < e -> entries (verify v token now c).2 !! n = Some e.
Proof.
  intros Hn He. unfold verify. destruct (verify_for_replay v token now) as [|vc]; [done|]. unfold consume.
  destruct (_ <? _); [done|]. destruct (_ <=? _); [done|].
  pose proof (insert_keeps (nonce (claims vc)) (replay_expires_at vc) now c n e Hn He). by destruct (cache_insert _ _ _ _).
Qed.

Lemma verify_run_keeps v l c n e :
  entries c !! n = Some e -> Forall (fun call => call.2 < e) l -> entries (verify_run v l c) !! n = Some e.
Proof.
  intros Hn Hl. revert c Hn. induction Hl as [|[token now] l Hnow Hl IH]; intros c Hn; cbn [verify_run]; [done|].
  apply IH. by apply verify_keeps.
Qed.

Lemma verify_for_replay_sound v token now vc :
  verify_for_replay v token now = inr vc ->
  exists payload signature,
    token = CAPABILITY_VERSION ++ [46] ++ payload ++ [46] ++ signature /\
    claims_wf (claims vc) /\
    url64_decode payload = Some (claims_payload (claims vc)) /\
    (exists s, url64_decode signature = Some s /\ zlen s = 64 /\
       ed25519_verify (public_key v) (SIGNING_DOMAIN ++ claims_payload (claims vc)) s = true) /\
    check_claims v now (claims vc) = inr () /\
    valid_from vc = saturating_sub (issued_at (claims vc)) (clock_skew v) /\
    replay_expires_at vc = saturating_add u64_max (expires_at (claims vc)) (clock_skew v).
Proof.
  unfold verify_for_replay, open_token, signing_input.
  rewrite try_bind_some. intros (p & Hopen & Hd). rewrite try_bind_some in Hd. destruct Hd as (cl & Hdec & Hd).
  rewrite try_bind_ok in Hd. destruct Hd as (Hchk & [= <-]). cbn [claims valid_from replay_expires_at].
  rewrite try_bind_ok in Hopen. destruct Hopen as (_ & Hopen).
  rewrite try_bind_some in Hopen. destruct Hopen as (enc & Hpre%some_or_ok%strip_prefix_spec & Hopen).
  rewrite try_bind_some in Hopen. destruct Hopen as ([x y] & Hdot%some_or_ok%split_dot_inv & Hopen). cbn [fst snd] in Hopen.
  rewrite try_bind_some in Hopen. destruct Hopen as (p' & Hx%some_or_ok & Hopen).
  rewrite try_bind_some in Hopen. destruct Hopen as (s & Hy%some_or_ok & Hopen).
  rewrite !try_bind_ok, !check_or_ok in Hopen. destruct Hopen as (Hs & Hv & [= ->]). apply Z.eqb_eq in Hs.
  destruct (decode_claims_exact p cl (url64_decode_bytes _ _ Hx) Hdec) as [Hwf ->].
  exists x, y. split; [by rewrite Hpre, Hdot, <- app_assoc|]. eauto 10.
Qed.

(** The claims depend on the token alone. *)
Lemma verify_same_claims v token now now' vc vc' :
  verify_for_replay v token now = inr vc -> verify_for_replay v token now' = inr vc' -> claims vc' = claims vc.
Proof.
  unfold verify_for_replay. rewrite !try_bind_some. intros (p & Ho & Hd) (p' & Ho' & Hd').
  assert (p' = p) as -> by congruence. rewrite try_bind_some in Hd, Hd'. destruct Hd as (k & Hk & Hd), Hd' as (k' & Hk' & Hd').
  assert (k' = k) as -> by congruence. rewrite try_bind_ok in Hd, Hd'. by destruct Hd as [_ [= <-]], Hd' as [_ [= <-]].
Qed.

(** C32: an admitted capability was signed for this edge and is admitted once.
    When [verify] hands out claims, the token is the version and two base64
    texts, the second holding a 64-byte Ed25519 signature, under the verifier's
    key, of the domain and the encoding of exactly those claims; the audience is
    the verifier's, the lifetime is positive and within its bound, and the clock
    is in the window widened by the skew.  Whatever tokens are verified on the
    same cache before the widened expiry, presenting the token again fails, at
    any clock. *)
Theorem capability_single_use v token now c cl c1 :
  verify v token now c = (inr cl, c1) ->
  (exists payload signature s,
     token = CAPABILITY_VERSION ++ [46] ++ payload ++ [46] ++ signature /\
     url64_decode payload = Some (claims_payload cl) /\ url64_decode signature = Some s /\ zlen s = 64 /\
     ed25519_verify (public_key v) (SIGNING_DOMAIN ++ claims_payload cl) s = true) /\
  claims_wf cl /\ audience cl = verifier_audience v /\
  0 < expires_at cl - issued_at cl <= verifier_max_lifetime v /\
  issued_at cl - clock_skew v <= now < expires_at cl + clock_skew v /\
  forall calls now', Forall (fun call => call.2 < saturating_add u64_max (expires_at cl) (clock_skew v)) calls ->
    exists e, (verify v token now' (verify_run v calls c1)).1 = inl e.
Proof.
  unfold verify at 1. destruct (verify_for_replay v token now) as [|vc] eqn:Ev; [done|]. intros Hcons.
  destruct (verify_for_replay_sound _ _ _ _ Ev) as (payload & signature & Et & Hwf & Hp & (s & Hs & Hsl & Hsig) & Hchk & Evf & Ere).
  unfold consume in Hcons. destruct (Z.ltb_spec now (valid_from vc)) as [|Hfrom]; [done|].
  destruct (Z.leb_spec (replay_expires_at vc) now) as [|Hto]; [done|].
  pose proof (insert_accepted (nonce (claims vc)) (replay_expires_at vc) now c) as Hacc.
  destruct (cache_insert _ _ _ _) as [[] c2]; [|done]. injection Hcons as <- <-. destruct (Hacc eq_refl) as [Hent _]. cbn [fst snd] in Hent.
  unfold check_claims in Hchk. rewrite !try_bind_ok, !check_or_ok, !try_bind_some in Hchk.
  destruct Hchk as (Haud & Hup & Hlow & life & Hlife%some_or_ok & Hchk).
  rewrite try_bind_ok, !check_or_ok in Hchk. destruct Hchk as [Hpos Hmax]. bool_prop.
  unfold checked_sub in Hlife. case_if. injection Hlife as <-. bool_prop.
  split; [by exists payload, signature, s|]. split; [done|]. split; [done|]. split; [lia|].
  split; [unfold saturating_sub, saturating_add in *; lia|]. intros calls now' Hcalls. rewrite <- Ere in Hcalls.
  pose proof (verify_run_keeps v calls c2 _ _ Hent Hcalls) as Hent'. unfold verify.
  destruct (verify_for_replay v token now') as [e|vc'] eqn:Ev'; [by exists e|].
  destruct (verify_for_replay_sound _ _ _ _ Ev') as (x' & y' & Et' & Hwf' & Hp' & _ & _ & _ & Ere').
  pose proof (verify_same_claims _ _ _ _ _ _ Ev Ev') as Ecl.
  unfold consume. destruct (_ <? _); [by eexists|]. destruct (Z.leb_spec (replay_expires_at vc') now'); [by eexists|].
  unfold cache_insert. rewrite Ecl, Hent'. cbn [live_entry]. rewrite (proj2 (Z.ltb_lt now' _)) by (rewrite Ere, <- Ecl, <- Ere'; lia).
  by eexists.
Qed.

Lemma issue_token i c : claims_wf c -> validate_shape c (issued_at c) (issuer_max_lifetime i) = inr () ->
  exists token, issue i c = inr token /\ zlen token <= MAX_TOKEN_LEN /\
    forall v, public_key v = ed25519_public (key_pair i) -> open_token v token = inr (claims_payload c).
Proof.
  intros Hwf Hshape. destruct (claims_payload_ok c Hwf) as [Hpb Hpl]. set (p := claims_payload c) in *.
  set (s := ed25519_sign (key_pair i) (signing_input p)).
  destruct (ed25519_sign_bytes (key_pair i) (signing_input p)) as [Hsb Hsl]. fold s in Hsb, Hsl.
  exists (CAPABILITY_VERSION ++ [46] ++ url64_encode p ++ [46] ++ url64_encode s).
  split; [unfold issue; rewrite Hshape; cbn [try_bind]; by rewrite (encode_claims_wf c Hwf)|].
  assert (zlen (CAPABILITY_VERSION ++ [46] ++ url64_encode p ++ [46] ++ url64_encode s) <= MAX_TOKEN_LEN) as Hlen.
  { pose proof (url64_size p). pose proof (url64_size s). destruct Hwf as [_ Hal _ _ _]. unfold MAX_AUDIENCE_LEN in Hal.
    rewrite !zlen_app. change (zlen CAPABILITY_VERSION) with 13. change (zlen [46]) with 1. unfold MAX_TOKEN_LEN. lia. }
  split; [done|]. intros v Hpk. unfold open_token. rewrite (proj2 (Z.ltb_ge _ _)) by done. cbn [negb check_or try_bind].
  rewrite (proj2 (strip_prefix_spec (CAPABILITY_VERSION ++ [46]) _ (url64_encode p ++ [46] ++ url64_encode s))) by (by rewrite <- app_assoc).
  cbn [some_or try_bind]. rewrite split_dot_app by (by apply url64_no_dot). cbn [some_or try_bind fst snd].
  rewrite !url64_round_trip by done. cbn [some_or try_bind]. rewrite Hsl, Hpk. cbn [Z.eqb check_or try_bind].
  unfold s. by rewrite ed25519_sign_verify.
Qed.

(** What an issuer signs, a verifier with its public key understands.  For
    claims within the issuer's rules the token exists and is short enough; a
    verifier for the same audience that allows the lifetime reads back exactly
    those claims in the window widened by its clock skew, refuses before and
    after it with the error of that side, and with a new cache the whole
    [verify] admits them. *)
Theorem capability_round_trip i v c :
  claims_wf c -> validate_shape c (issued_at c) (issuer_max_lifetime i) = inr () ->
  public_key v = ed25519_public (key_pair i) -> audience c = verifier_audience v ->
  expires_at c - issued_at c <= verifier_max_lifetime v -> 0 <= clock_skew v ->
  exists token, issue i c = inr token /\ forall now, 0 <= now < u64_max ->
    let upper := issued_at c - clock_skew v in
    let lower := expires_at c + clock_skew v in
    (now < upper -> verify_for_replay v token now = inl NotYetValid) /\
    (lower <= now -> verify_for_replay v token now = inl Expired) /\
    forall capacity0 c0, 0 <= capacity0 -> ReplayCache_new capacity0 = inr c0 -> upper <= now < lower ->
      (verify v token now c0).1 = inr c.
Proof.
  intros Hwf Hshape Hpk Haud Hlife Hskew. destruct (issue_token i c Hwf Hshape) as (token & Hissue & _ & Hopen).
  exists token. split; [done|]. specialize (Hopen v Hpk). intros now Hnow upper lower.
  assert (issued_at c < expires_at c) as Hpos.
  { unfold validate_shape in Hshape. rewrite !try_bind_ok, !check_or_ok in Hshape. destruct Hshape as (_ & _ & H' & _). bool_prop. lia. }
  assert (verify_for_replay v token now =
    let# _ := check_claims v now c in
    inr (mkVerified c (saturating_sub (issued_at c) (clock_skew v)) (saturating_add u64_max (expires_at c) (clock_skew v)))) as E.
  { unfold verify_for_replay. rewrite Hopen. cbn [try_bind]. by rewrite (decode_claims_payload c Hwf). }
  destruct Hwf as [_ _ Hi He _]. unfold verify. rewrite E. unfold check_claims, checked_sub. rewrite Haud, bool_decide_eq_true_2 by done.
  rewrite (proj2 (Z.leb_le (issued_at c) (expires_at c))) by lia. cbn [some_or try_bind].
  rewrite (proj2 (Z.eqb_neq (_ - _) 0)), (proj2 (Z.ltb_ge (verifier_max_lifetime v) _)) by lia.
  cbn [check_or try_bind some_or negb]. unfold saturating_sub, saturating_add in *.
  split; [|split].
  - intros Hb. by rewrite (proj2 (Z.ltb_lt _ (issued_at c))) by lia.
  - intros Ha. rewrite (proj2 (Z.ltb_ge _ (issued_at c))), (proj2 (Z.leb_le (expires_at c) _)) by lia. done.
  - intros capacity0 c0 Hcap Hnew Hin. rewrite (proj2 (Z.ltb_ge _ (issued_at c))), (proj2 (Z.leb_gt (expires_at c) _)) by lia.
    cbn [check_or try_bind negb]. unfold consume. cbn [claims valid_from replay_expires_at].
    rewrite (proj2 (Z.ltb_ge now _)), (proj2 (Z.leb_gt _ now)) by lia.
    unfold ReplayCache_new in Hnew. destruct (_ || _) eqn:Hc; [done|]. injection Hnew as <-. bool_prop.
    unfold cache_insert, prune. cbn [entries expirations capacity prune_loop]. rewrite lookup_empty. cbn [live_entry].
    rewrite (proj2 (Z.leb_gt _ now)) by lia. rewrite bool_decide_eq_false_2 by (by intros [? ?]). cbn [orb].
    rewrite map_size_empty. by rewrite (proj2 (Z.leb_gt capacity0 _)) by lia.
Qed.
End TokenTheorems.

(** * Witnesses *)

Module Witnesses.
Import Toy.

(** Two hexadecimal digits for each byte: as good as base64 for the laws. *)
#[export] Instance hex_base64 : UrlBase64 := { url64_encode := flat_map hex_pair; url64_decode := unhex }.

Lemma hex_value_range d v : hex_value d = Some v -> 0 <= v < 16.
Proof. unfold hex_value, in_range. repeat case_if; intros [= <-]; bool_prop; lia. Qed.

Lemma unhex_bytes n t l : (length t <= n)%nat -> unhex t = Some l -> bytes_ok l.
Proof.
  revert t l. induction n as [|n IH]; intros [|a [|b t]] l Hn; cbn [unhex length] in *; try lia; try done; try (intros [= <-]; constructor).
  destruct (hex_value a) as [x|] eqn:Ea, (hex_value b) as [y|] eqn:Eb, (unhex t) as [r|] eqn:Et; try done.
  intros [= <-]. apply hex_value_range in Ea, Eb. constructor; [red; lia|]. apply (IH t); [lia|done].
Qed.

#[export] Instance hex_base64_laws : UrlBase64Laws.
Proof.
  split; cbn.
  - intros l Hl. by apply unhex_pairs.
  - intros l Hl Hin. pose proof (hex_pairs_ascii l Hl) as Ha. rewrite Forall_forall in Ha. specialize (Ha 46 Hin). lia.
  - intros l. rewrite zlen_hex_pairs. lia.
  - intros t l. by apply (unhex_bytes (length t)).
Qed.

(** An edge, its issuer, and claims that live for a minute. *)
Definition seed : bytes := Eval vm_compute in zreplicate 32 7.
Definition edge_claims : CapabilityClaims := Eval vm_compute in mkClaims (str_bytes "edge-1") 1000 1060 (zreplicate 16 9).
Definition issuer : CapabilityIssuer := mkIssuer seed 300.
Definition verifier : CapabilityVerifier := Eval vm_compute in mkVerifier (ed25519_public seed) (str_bytes "edge-1") 300 5.
Definition token : bytes := Eval vm_compute in match issue issuer edge_claims with inr t => t | inl _ => [] end.
Definition empty_cache : ReplayCache := mkCache 2 ∅ [].
Definition used_cache : ReplayCache := mkCache 2 {[ nonce edge_claims := 1065 ]} [(1065, nonce edge_claims)].

Lemma edge_claims_wf : claims_wf edge_claims.
Proof. split; try by_compute; vm_compute; split; by_compute. Qed.

Lemma capability_round_trip_witness :
  exists t, issue issuer edge_claims = inr t /\ (verify verifier t 1030 empty_cache).1 = inr edge_claims.
Proof.
  destruct (capability_round_trip issuer verifier edge_claims edge_claims_wf) as (t & Ht & Hv);
    [vm_compute; reflexivity|vm_compute; reflexivity|reflexivity|by_compute|by_compute|].
  exists t. split; [exact Ht|]. destruct (Hv 1030) as (_ & _ & Hin); [by_compute|].
  apply (Hin 2 empty_cache); [by_compute|reflexivity|by_compute].
Defined.

Lemma capability_single_use_witness :
  audience edge_claims = verifier_audience verifier /\
  exists e, (verify verifier token 1050 (verify_run verifier [(token, 1040)] used_cache)).1 = inl e.
Proof.
  destruct (capability_single_use verifier token 1030 empty_cache edge_claims used_cache) as (_ & _ & Ha & _ & _ & Hagain);
    [by vm_compute|].
  split; [exact Ha|]. apply Hagain. constructor; [by vm_compute|constructor].
Defined.

(** The second use of a nonce, and a third nonce in a cache of two. *)
Lemma replay_cache_refines_witness :
  (cache_run [([1], 10, 1); ([1], 12, 2); ([2], 8, 3); ([3], 9, 4); ([3], 20, 9)] (mkCache 2 ∅ [])).1
    = [true; false; true; false; true].
Proof.
  pose proof (replay_cache_refines 2 (mkCache 2 ∅ []) [([1], 10, 1); ([1], 12, 2); ([2], 8, 3); ([3], 9, 4); ([3], 20, 9)]
    ltac:(lia) eq_refl ltac:(cbn; lia)) as E.
  destruct (cache_run _ _) as [rs c]. destruct E as [-> _]. by vm_compute.
Defined.
End Witnesses.
