(* ===== verification/EdgeConfig.v ===== *)
(** The configuration of an edge (shph-edge/src/config.rs) and the public key it
    is started with (shph-edge/src/main.rs [read_public_key], [hex_decode]).
    TOML and URI parsing are parameters. *)
From S2P Require Import Net.
From S2P Require Import Prelude Error Text.

Definition MAX_CONFIG_BYTES : Z := 64 * 1024.
Definition DEFAULT_RELAY_PATH : string := "/phantom-one/v1".
Definition MAX_RELAY_PATH_BYTES : Z := 128.
Definition DEFAULT_REPLAY_CAPACITY : Z := 128 * 1024.
Definition DEFAULT_HTTP2_IDLE_TIMEOUT_MS : Z := 30000.

Inductive EdgeConfigError :=
  | TooLarge | ConfigMalformed | InvalidBackend | EdgeInvalidAudience | IncompleteTls
  | InvalidServerName | InvalidRelayPath | InvalidLimits.

Record TlsConfig := mkTlsConfig {
  cert : option string;
  tls_key : option string;
  ca : option string;
  server_name : string
}.

Record Limits := mkLimits {
  max_token_bytes : Z;
  max_stream_bytes : Z;
  max_connections : Z;
  replay_capacity : Z;
  max_capability_verifications_per_second : Z;
  max_capability_lifetime_secs : Z;
  clock_skew_secs : Z;
  backend_connect_timeout_ms : Z;
  backend_idle_timeout_ms : Z;
  tls_handshake_timeout_ms : Z;
  http2_idle_timeout_ms : Z;
  max_streams_per_connection : Z;
  max_http2_connections : Z
}.

Definition Limits_default : Limits :=
  mkLimits 4096 (64 * 1024 * 1024) 1024 DEFAULT_REPLAY_CAPACITY 256 300 5 5000 30000 5000
    DEFAULT_HTTP2_IDLE_TIMEOUT_MS 128 4.

(** The seconds a used capability has to be remembered. *)
Definition retention (l : Limits) : Z :=
  saturating_add u64_max (saturating_add u64_max (max_capability_lifetime_secs l) (Z.min u64_max (clock_skew_secs l * 2))) 1.

Definition limits_validate (l : Limits) : EdgeConfigError + unit :=
  let minimum_replay_capacity := Z.min u64_max (max_capability_verifications_per_second l * retention l) in
  check_or
    (negb (negb (in_range 64 4096 (max_token_bytes l))
     || (max_stream_bytes l =? 0)
     || (1024 * 1024 * 1024 <? max_stream_bytes l)
     || negb (in_range 1 100000 (max_connections l))
     || negb (in_range 1 1000000 (replay_capacity l))
     || negb (in_range 1 100000 (max_capability_verifications_per_second l))
     || negb (in_range 1 3600 (max_capability_lifetime_secs l))
     || (300 <? clock_skew_secs l)
     || (replay_capacity l <? minimum_replay_capacity)
     || negb (in_range 100 60000 (backend_connect_timeout_ms l))
     || negb (in_range 100 600000 (backend_idle_timeout_ms l))
     || negb (in_range 100 60000 (tls_handshake_timeout_ms l))
     || negb (in_range 100 600000 (http2_idle_timeout_ms l))
     || negb (in_range 1 1024 (max_streams_per_connection l))
     || negb (in_range 1 64 (max_http2_connections l)))) InvalidLimits.

Record SocksConfig := mkSocksConfig { socks_listen : SocketAddr; socks_max_connections : Z }.

Definition SocksConfig_default : SocksConfig := mkSocksConfig (mkSocketAddr (IpV4 [127; 0; 0; 1]) 10808) 128.

Record EdgeConfig := mkEdgeConfig {
  listen : SocketAddr;
  backend : string;
  edge_audience : string;
  edge_public_key : string;
  relay_path : string;
  tls : TlsConfig;
  limits : Limits;
  socks : SocksConfig
}.

Definition is_unspecified (a : IpAddr) : bool :=
  match a with IpV4 octets | IpV6 octets => forallb (Z.eqb 0) octets end.

Definition is_ascii (l : bytes) : bool := forallb (fun b => b <? 128) l.
Definition is_ascii_control (b : Z) : bool := (b <? 32) || (b =? 127).
Definition is_ascii_whitespace (b : Z) : bool := bool_decide (b ∈ [9; 10; 12; 13; 32]).

(** A parsed URI, as far as the edge looks at it. *)
Record Uri := mkUri { uri_path : string; uri_query : option string }.

Section Config.
(** [str::parse::<http::Uri>] and [toml::from_str]. *)
Context (parse_uri : string -> option Uri) (parse_toml : string -> option EdgeConfig).

Definition validate_relay_path (path : string) : EdgeConfigError + unit :=
  let p := str_bytes path in
  do# check_or (negb (bool_decide (p = []) || (MAX_RELAY_PATH_BYTES <? zlen p) || negb (is_ascii p)
        || negb (match p with b :: _ => b =? 47 | [] => false end)
        || existsb (fun b => (b <=? 32) || (b =? 127) || (b =? 63) || (b =? 35) || (b =? 92)) p)) InvalidRelayPath ;
  let# uri := some_or (parse_uri path) InvalidRelayPath in
  check_or (negb (negb (bool_decide (uri_path uri = path)) || bool_decide (is_Some (uri_query uri)))) InvalidRelayPath.

Definition edge_validate (c : EdgeConfig) : EdgeConfigError + unit :=
  let# backend := some_or (parse_socket_addr (backend c)) InvalidBackend in
  do# check_or (negb ((port backend =? 0) || is_unspecified (ip backend))) InvalidBackend ;
  let audience := str_bytes (edge_audience c) in
  do# check_or (negb (bool_decide (audience = []) || (64 <? zlen audience) || negb (is_ascii audience)
        || existsb (fun b => is_ascii_control b || is_ascii_whitespace b) audience)) EdgeInvalidAudience ;
  do# validate_relay_path (relay_path c) ;
  let has_cert := bool_decide (is_Some (cert (tls c))) in
  let has_key := bool_decide (is_Some (tls_key (tls c))) in
  do# check_or (Bool.eqb has_cert has_key) IncompleteTls ;
  let name := str_bytes (server_name (tls c)) in
  do# check_or (negb (((has_cert || has_key) && bool_decide (name = [])) || (253 <? zlen name) || negb (is_ascii name)
        || existsb (fun b => (b <=? 32) || (b =? 127) || (b =? 47) || (b =? 64)) name)) InvalidServerName ;
  do# check_or (negb (negb (is_loopback (ip (socks_listen (socks c)))) || (socks_max_connections (socks c) =? 0)
        || (10000 <? socks_max_connections (socks c)))) InvalidLimits ;
  limits_validate (limits c).

Definition from_toml_bytes (source : bytes) : EdgeConfigError + EdgeConfig :=
  do# check_or (negb (MAX_CONFIG_BYTES <? zlen source)) TooLarge ;
  do# check_or (utf8_valid source) ConfigMalformed ;
  let# config := some_or (parse_toml (bytes_str source)) ConfigMalformed in
  do# edge_validate config ;
  inr config.
End Config.

(** ** The public key *)

(** [&value[index..index + 2]] panics inside a character. *)
Definition char_boundary (l : bytes) (i : Z) : bool :=
  match zdrop i l with b :: _ => negb (utf8_cont b) | [] => true end.

(** The pairs from [index] on of a text of 64 bytes; [fuel] pairs. *)
Fixpoint hex_pairs (fuel : nat) (value : bytes) (index : Z) : result bytes :=
  match fuel with
  | O => Ok []
  | S fuel =>
      if char_boundary value index && char_boundary value (index + 2) then
        let? b := match parse_int 16 u8_max (ztake 2 (zdrop index value)) with
                  | inr b => Ok b
                  | inl error => Err (Config error)
                  end in
        let? rest := hex_pairs fuel value (index + 2) in
        Ok (b :: rest)
      else Panic
  end.

Definition hex_decode (value : string) : result bytes :=
  let value := str_bytes value in
  if negb (zlen value =? 64) then Err (Config "hex public key must contain 64 characters")
  else hex_pairs 32 value 0.

(** [read_public_key] on the bytes of the file. *)
Definition read_public_key (content : bytes) : result bytes :=
  if zlen content =? 32 then Ok content
  else if negb (utf8_valid content) then Err (Config "public key must be raw 32 bytes or hex")
  else
    match hex_decode (trim (bytes_str content)) with
    | Ok decoded => if zlen decoded =? 32 then Ok decoded else Err (Config "public key must be exactly 32 bytes")
    | Err _ => Err (Config "public key must be raw 32 bytes or hex")
    | Panic => Panic
    end.

(** ** Theorems *)

Lemma hex_pairs_app pre l : bytes_ok pre -> bytes_ok l ->
  hex_pairs (length l) (flat_map hex_pair (pre ++ l)) (2 * zlen pre) = Ok l.
Proof.
  intros Hp. revert pre Hp. induction l as [|b l IH]; intros pre Hp Hl; [done|]. cbn [length hex_pairs].
  apply bytes_ok_cons in Hl as [Hb Hl].
  assert (bytes_ok (pre ++ b :: l)) as Hall by (apply bytes_ok_app; split; [done|by apply bytes_ok_cons]).
  pose proof (hex_pairs_ascii _ Hall) as Ha.
  assert (forall i, char_boundary (flat_map hex_pair (pre ++ b :: l)) i = true) as Hc.
  { intros i. unfold char_boundary. destruct (zdrop i _) as [|c r] eqn:E; [done|].
    rewrite Forall_forall in Ha. assert (c ∈ flat_map hex_pair (pre ++ b :: l)) as Hin.
    { rewrite <- (ztake_zdrop i (flat_map _ _)), E. apply elem_of_app. right. constructor. }
    apply Ha in Hin. unfold utf8_cont, in_range. by rewrite (proj2 (Z.leb_gt 128 c)) by lia. }
  rewrite !Hc. cbn [andb]. specialize (IH (pre ++ [b])).
  rewrite <- app_assoc in IH. cbn [app] in IH. rewrite flat_map_app in IH |- *. cbn [flat_map] in IH |- *.
  rewrite (zdrop_app (2 * zlen pre)) by apply zlen_hex_pairs. cbn [hex_pair app].
  change (ztake 2 (?x :: ?y :: ?r)) with [x; y].
  destruct (hex_digits b Hb) as (Hq & Hr & Eb). destruct (hex_digit_value _ Hq) as (E1 & Hne & _), (hex_digit_value _ Hr) as (E2 & _).
  assert (parse_int 16 u8_max [hex_digit (b / 16); hex_digit (b mod 16)] = inr b) as ->.
  { unfold parse_int. red in Hb. assert (48 <= hex_digit (b / 16)) as Hge by (unfold hex_digit; case_if; bool_prop; lia).
    destruct (hex_digit (b / 16)) as [|p|p] eqn:Ed; try lia.
    assert (forall k, (match [Z.pos p; k] with [] => inl "cannot parse integer from empty string" | [43] | [45] => inl invalid_digit
      | 43 :: digits => parse_digits 16 u8_max digits 0 | _ => parse_digits 16 u8_max [Z.pos p; k] 0 end) = parse_digits 16 u8_max [Z.pos p; k] 0) as ->
      by (intros k; repeat (destruct p as [p|p|]; try done)).
    cbn [parse_digits]. unfold to_digit. rewrite E1, E2. unfold checked_mul, checked_add, u8_max.
    rewrite !(proj2 (Z.ltb_lt _ 16)) by lia. cbn [Z.mul].
    repeat (rewrite (proj2 (Z.leb_le _ _)) by lia). f_equal. lia. }
  cbn [rbind]. replace (2 * zlen pre + 2) with (2 * zlen (pre ++ [b])) by zl.
  cbn [hex_pair app] in IH. rewrite IH; [done| |done].
  apply bytes_ok_app. split; [done|]. by apply Forall_singleton.
Qed.

(** A printed key is read back. *)
Theorem public_key_round_trip k : bytes_ok k -> zlen k = 32 -> hex_decode (hex_encode k) = Ok k.
Proof.
  intros Hk Hl. unfold hex_decode. rewrite hex_encode_bytes by done. rewrite zlen_hex_pairs, Hl.
  change (negb (2 * 32 =? 64)) with false. cbv iota. assert (length k = 32%nat) as <- by (unfold zlen in Hl; lia).
  apply (hex_pairs_app [] k); [constructor|done].
Qed.

(** A key file of 64 bytes of UTF-8 with a character of two bytes at an odd
    offset makes the reader panic instead of reporting an error. *)
Theorem public_key_can_panic :
  let content := [48] ++ mjoin (replicate 31 [195; 169]) ++ [48] in
  zlen content = 64 /\ utf8_valid content = true /\ read_public_key content = Panic.
Proof. vm_compute. done. Qed.

(** What the bounds guarantee to the front door: room for every capability that
    can be used while it has to be remembered. *)
Theorem limits_leave_room l : limits_validate l = inr () -> 0 <= clock_skew_secs l ->
  max_capability_verifications_per_second l * (max_capability_lifetime_secs l + 2 * clock_skew_secs l + 1) <= replay_capacity l.
Proof.
  unfold limits_validate, in_range, retention, saturating_add, u64_max. rewrite check_or_ok. intros Hc Hs. bool_prop. nia.
Qed.
