(* ===== verification/FrontDoor.v ===== *)
(** The front door of an edge (shph-edge/src/frontdoor.rs, and the requests of
    shph-edge/src/carrier.rs up to the relay): who may open a relay stream.  The
    capabilities are those of [Capability]; header text and URI parsing are
    parameters. *)
From stdpp Require Import gmap.
From S2P Require Import Net.
From S2P Require Import Prelude Error Text Primitives Capability EdgeConfig.

Definition CAPABILITY_HEADER : string := "x-phantom-one-capability".
Definition DEFAULT_MAX_VERIFICATIONS_PER_SECOND : Z := 256.
Definition MAX_VERIFICATION_RATE : Z := 100000.
Definition RATE_COUNT_BITS : Z := 20.
Definition RATE_COUNT_MASK : Z := Z.shiftl 1 RATE_COUNT_BITS - 1.

(** ** The verification rate limiter

    One atomic word: the window above 20 bits of count. *)

Record VerificationRateLimiter := mkRateLimiter { limit : Z; rate_state : Z }.

Definition VerificationRateLimiter_new (limit : Z) : option VerificationRateLimiter :=
  if in_range 1 MAX_VERIFICATION_RATE limit then Some (mkRateLimiter limit 0) else None.

(** The word that replaces [observed], unless the window is full or past.  The
    increment cannot overflow: the count is below the limit. *)
Definition next_state (limit window observed : Z) : option Z :=
  let previous_window := Z.shiftr observed RATE_COUNT_BITS in
  let previous_count := Z.land observed RATE_COUNT_MASK in
  if previous_window <? window then Some (Z.lor (u64_shl window RATE_COUNT_BITS) 1)
  else if (window <? previous_window) || (limit <=? previous_count) then None
  else Some (observed + 1).

(** [try_acquire_in_window] of one thread, an atomic operation at a time. *)
Inductive Acquire :=
  | Loading (window : Z)
  | Exchanging (window observed : Z)
  | Acquired (window : Z)
  | Refused (window : Z).

#[export] Instance Acquire_eq_dec : EqDecision Acquire.
Proof. solve_decision. Defined.

(** [spurious]: the weak exchange fails although the word has not changed. *)
Definition acquire_step (limit : Z) (spurious : bool) (word : Z) (t : Acquire) : Z * Acquire :=
  match t with
  | Loading w => (word, Exchanging w word)
  | Exchanging w observed =>
      match next_state limit w observed with
      | None => (word, Refused w)
      | Some next =>
          if (word =? observed) && negb spurious then (next, Acquired w) else (word, Exchanging w word)
      end
  | Acquired _ | Refused _ => (word, t)
  end.

(** Threads that share the word; an action is a thread and whether its exchange
    fails spuriously. *)
Fixpoint acquire_run (limit : Z) (schedule : list (nat * bool)) (word : Z) (ts : list Acquire) : Z * list Acquire :=
  match schedule with
  | [] => (word, ts)
  | (i, spurious) :: schedule =>
      match ts !! i with
      | Some t =>
          let '(word, t) := acquire_step limit spurious word t in acquire_run limit schedule word (<[i := t]> ts)
      | None => acquire_run limit schedule word ts
      end
  end.

(** A thread that is alone. *)
Definition try_acquire_in_window (window : Z) (l : VerificationRateLimiter) : bool * VerificationRateLimiter :=
  match next_state (limit l) window (rate_state l) with
  | Some next => (true, mkRateLimiter (limit l) next)
  | None => (false, l)
  end.

(** ** Requests and responses *)

(** [headers]: lower-case names with their values, in order. *)
Record Request := mkRequest { method : string; uri : Uri; headers : list (string * bytes) }.

Definition get_all (name : string) (h : list (string * bytes)) : list bytes := map snd (filter (fun x => x.1 = name) h).

Record FrontDoorResponse := mkResponse { status : Z; content_type : string; body : string }.

Definition plain (status : Z) (body : string) : FrontDoorResponse := mkResponse status "text/plain; charset=utf-8" body.
Definition newline : string := bytes_str [10].
Definition not_found : FrontDoorResponse := plain 404 ("not found" +:+ newline).
Definition method_not_allowed : FrontDoorResponse := plain 405 ("method not allowed" +:+ newline).
Definition unauthorized : FrontDoorResponse := plain 401 ("unauthorized" +:+ newline).
Definition service_unavailable : FrontDoorResponse := plain 503 ("temporarily unavailable" +:+ newline).
Definition too_many_requests : FrontDoorResponse := plain 429 ("too many requests" +:+ newline).

Inductive FrontDoorDecision := Relay | Fallback (r : FrontDoorResponse).
Inductive FrontDoorPreparation := Verified (v : VerifiedCapability) | FallbackPrepared (d : FrontDoorDecision).

(** ** The front door *)

Record FrontDoor := mkFrontDoor {
  door_verifier : CapabilityVerifier;
  door_max_token_bytes : Z;
  door_relay_path : string;
  uniform_fallback : bool;
  verification_rate_limiter : VerificationRateLimiter;
  door_replay_capacity : Z;
  replay_cache : ReplayCache
}.

Section Door.
(** [HeaderValue::to_str] and [str::parse::<Uri>]. *)
Context `{KexOps, UrlBase64} (to_str : bytes -> option bytes) (parse_uri : string -> option Uri).

Definition new_cache (capacity : Z) : EdgeConfigError + ReplayCache :=
  match ReplayCache_new capacity with inr c => inr c | inl _ => inl InvalidLimits end.

Definition with_path (verifier : CapabilityVerifier) (max_token_bytes : Z) (path : string) : EdgeConfigError + FrontDoor :=
  do# validate_relay_path parse_uri path ;
  let# cache := new_cache DEFAULT_REPLAY_CAPACITY in
  inr (mkFrontDoor verifier max_token_bytes path false
         (mkRateLimiter DEFAULT_MAX_VERIFICATIONS_PER_SECOND 0) DEFAULT_REPLAY_CAPACITY cache).

Definition with_replay_capacity (capacity : Z) (f : FrontDoor) : EdgeConfigError + FrontDoor :=
  do# check_or (negb (capacity <? Z.min u64_max (limit (verification_rate_limiter f) * replay_retention_secs (door_verifier f)))) InvalidLimits ;
  let# cache := new_cache capacity in
  inr (mkFrontDoor (door_verifier f) (door_max_token_bytes f) (door_relay_path f) (uniform_fallback f)
         (verification_rate_limiter f) capacity cache).

Definition with_max_verifications_per_second (rate : Z) (f : FrontDoor) : EdgeConfigError + FrontDoor :=
  do# check_or (negb (door_replay_capacity f <? Z.min u64_max (rate * replay_retention_secs (door_verifier f)))) InvalidLimits ;
  let# l := some_or (VerificationRateLimiter_new rate) InvalidLimits in
  inr (mkFrontDoor (door_verifier f) (door_max_token_bytes f) (door_relay_path f) (uniform_fallback f)
         l (door_replay_capacity f) (replay_cache f)).

Definition with_uniform_fallback (enabled : bool) (f : FrontDoor) : FrontDoor :=
  mkFrontDoor (door_verifier f) (door_max_token_bytes f) (door_relay_path f) enabled
    (verification_rate_limiter f) (door_replay_capacity f) (replay_cache f).

(** As the [serve] command builds it (shph-edge/src/main.rs). *)
Definition build_front_door (v : CapabilityVerifier) (c : EdgeConfig) (uniform : bool) : EdgeConfigError + FrontDoor :=
  let# f := with_path v (max_token_bytes (limits c)) (relay_path c) in
  let# f := with_replay_capacity (replay_capacity (limits c)) f in
  let# f := with_max_verifications_per_second (max_capability_verifications_per_second (limits c)) f in
  inr (with_uniform_fallback uniform f).

Definition normalize (f : FrontDoor) (d : FrontDoorDecision) : FrontDoorDecision :=
  match d with
  | Fallback _ => if uniform_fallback f then Fallback not_found else d
  | Relay => d
  end.

Definition fallback (f : FrontDoor) (r : FrontDoorResponse) : FrontDoorPreparation :=
  FallbackPrepared (normalize f (Fallback r)).

Definition with_limiter (l : VerificationRateLimiter) (f : FrontDoor) : FrontDoor :=
  mkFrontDoor (door_verifier f) (door_max_token_bytes f) (door_relay_path f) (uniform_fallback f)
    l (door_replay_capacity f) (replay_cache f).

(** The capability a request presents, before the rate limit. *)
Definition presented (f : FrontDoor) (r : Request) : FrontDoorResponse + bytes :=
  if negb (bool_decide (uri_path (uri r) = door_relay_path f)) || bool_decide (is_Some (uri_query (uri r)))
  then inl not_found
  else if negb (bool_decide (method r = "POST")) then inl method_not_allowed
  else
    match get_all CAPABILITY_HEADER (headers r) with
    | [capability] =>
        match to_str capability with
        | Some raw => if door_max_token_bytes f <? zlen raw then inl unauthorized else inr raw
        | None => inl unauthorized
        end
    | _ => inl unauthorized
    end.

(** [elapsed]: the seconds since the limiter started; [clock]: the seconds since
    the Unix epoch, [None] before it. *)
Definition prepare (f : FrontDoor) (elapsed : Z) (clock : option Z) (r : Request) : FrontDoorPreparation * FrontDoor :=
  match presented f r with
  | inl response => (fallback f response, f)
  | inr raw =>
      let '(acquired, l) := try_acquire_in_window elapsed (verification_rate_limiter f) in
      let f := with_limiter l f in
      if negb acquired then (fallback f too_many_requests, f)
      else
        match verify_for_replay (door_verifier f) raw (default 0 clock) with
        | inr verified => (Verified verified, f)
        | inl _ => (fallback f unauthorized, f)
        end
  end.

Definition commit_verified (f : FrontDoor) (v : VerifiedCapability) (clock : option Z) (replay : ReplayCache)
    : FrontDoorDecision * ReplayCache :=
  match clock with
  | Some now =>
      let '(r, replay) := consume v now replay in
      (normalize f (match r with inr _ => Relay | inl _ => Fallback unauthorized end), replay)
  | None => (normalize f (Fallback unauthorized), replay)
  end.

(** The two clocks of [decide] are read one after the other. *)
Definition decide_request (f : FrontDoor) (elapsed : Z) (clock clock' : option Z) (r : Request) (replay : ReplayCache)
    : FrontDoorDecision * (FrontDoor * ReplayCache) :=
  match prepare f elapsed clock r with
  | (Verified v, f) => let '(d, replay) := commit_verified f v clock' replay in (d, (f, replay))
  | (FallbackPrepared d, f) => (d, (f, replay))
  end.

(** [value.split(';').next()] *)
Fixpoint before_semicolon (l : bytes) : bytes :=
  match l with
  | b :: l => if b =? 59 then [] else b :: before_semicolon l
  | [] => []
  end.

Definition is_octet_stream (h : list (string * bytes)) : bool :=
  match get_all "content-type" h with
  | [value] =>
      match to_str value with
      | Some value => eq_ignore_ascii_case (bytes_str (trim_bytes (before_semicolon value))) "application/octet-stream"
      | None => false
      end
  | _ => false
  end.

(** ** Requests over HTTP/2 (carrier.rs), up to the relay *)

Fixpoint check_lengths (values : list bytes) (max_bytes : Z) (declared : option Z) : Z + unit :=
  match values with
  | [] => inr ()
  | value :: values =>
      let# parsed := some_or (match to_str value with
                              | Some value => match parse_int 10 u64_max value with inr n => Some n | inl _ => None end
                              | None => None
                              end) 400 in
      do# check_or (negb (max_bytes <? parsed)) 413 ;
      do# check_or (match declared with Some previous => previous =? parsed | None => true end) 400 ;
      check_lengths values max_bytes (Some parsed)
  end.

Definition validate_content_length (h : list (string * bytes)) (max_bytes : Z) : Z + unit :=
  check_lengths (get_all "content-length" h) max_bytes None.

(** What a request reads from its surroundings: the cancellation before the
    decision, while it waits for the cache, and while it connects; the clocks;
    the connection to the backend. *)
Record RequestEnv := mkRequestEnv {
  shut_down : bool * bool * bool;
  elapsed_secs : Z;
  prepare_clock : option Z;
  commit_clock : option Z;
  backend_connects : bool
}.

Definition decide_with_replay (f : FrontDoor) (env : RequestEnv) (r : Request) (replay : ReplayCache)
    : FrontDoorDecision * (FrontDoor * ReplayCache) :=
  let '(before, waiting, _) := shut_down env in
  if before then (Fallback service_unavailable, (f, replay))
  else
    match prepare f (elapsed_secs env) (prepare_clock env) r with
    | (FallbackPrepared d, f) => (d, (f, replay))
    | (Verified v, f) =>
        if waiting then (Fallback service_unavailable, (f, replay))
        else let '(d, replay) := commit_verified f v (commit_clock env) replay in (d, (f, replay))
    end.

(** [None]: the relay starts. *)
Definition handle_http2_request (c : EdgeConfig) (f : FrontDoor) (env : RequestEnv) (r : Request) (replay : ReplayCache)
    : option FrontDoorResponse * (FrontDoor * ReplayCache) :=
  let '(d, s) := decide_with_replay f env r replay in
  match d with
  | Fallback response => (Some response, s)
  | Relay =>
      if negb (is_octet_stream (headers r)) then (Some unauthorized, s)
      else
        match validate_content_length (headers r) (max_stream_bytes (limits c)) with
        | inl status =>
            (Some (if status =? 413 then plain status ("payload too large" +:+ newline)
                   else plain status ("bad request" +:+ newline)), s)
        | inr _ =>
            if (shut_down env).2 then (Some service_unavailable, s)
            else if negb (backend_connects env) then (Some (plain 502 ("bad gateway" +:+ newline)), s)
            else (None, s)
        end
  end.
End Door.

(** ** Lemmas: the word of the rate limiter *)

Definition word_of (window count : Z) : Z := window * 2 ^ RATE_COUNT_BITS + count.

Lemma word_parts w n : 0 <= n < 2 ^ RATE_COUNT_BITS -> 
  Z.shiftr (word_of w n) RATE_COUNT_BITS = w /\ Z.land (word_of w n) RATE_COUNT_MASK = n.
Proof.
  intros Hn. unfold word_of, RATE_COUNT_MASK. rewrite Z.shiftl_1_l. split.
  - rewrite Z.shiftr_div_pow2 by done. rewrite Z.div_add_l by done. rewrite Z.div_small by done. lia.
  - change (2 ^ RATE_COUNT_BITS - 1) with (Z.ones RATE_COUNT_BITS). rewrite Z.land_ones by done.
    rewrite Z.add_comm, Z.mod_add by done. by apply Z.mod_small.
Qed.

Lemma word_fresh w : 0 <= w < 2 ^ 44 -> Z.lor (u64_shl w RATE_COUNT_BITS) 1 = word_of w 1.
Proof.
  intros Hw. unfold u64_shl, word_of. rewrite Z.shiftl_mul_pow2 by done.
  change u64_max with (Z.ones 64). rewrite Z.land_ones by done.
  assert (2 ^ 64 = 2 ^ 44 * 2 ^ RATE_COUNT_BITS) as E by done.
  rewrite Z.mod_small by (rewrite E; split; [|apply Zmult_lt_compat_r]; lia).
  pose proof (Z.add_lor_land 1 (w * 2 ^ RATE_COUNT_BITS)) as Ea. rewrite Z.lor_comm.
  assert (Z.land 1 (w * 2 ^ RATE_COUNT_BITS) = 0) as E0; [|lia].
  rewrite <- Z.shiftl_mul_pow2 by done. apply Z.bits_inj'. intros i Hi. rewrite Z.land_spec, Z.bits_0.
  destruct (decide (i = 0)) as [->|]; [by rewrite Z.shiftl_spec_low|].
  change 1 with (2 ^ 0) at 1. by rewrite Z.pow2_bits_false.
Qed.

(** The word holds the latest window and its count, [count w] being the
    admissions of the window [w]. *)
Definition window_inv (limit word : Z) (count : Z -> Z) : Prop :=
  exists w, word = word_of w (count w) /\ 0 <= w < 2 ^ 44 /\
    (forall x, w < x -> count x = 0) /\ forall x, 0 <= count x <= limit.

Lemma window_inv_next limit word count w word' count' :
  1 <= limit <= MAX_VERIFICATION_RATE -> 0 <= w < 2 ^ 44 -> window_inv limit word count ->
  next_state limit w word = Some word' -> (forall x, count' x = count x + if bool_decide (x = w) then 1 else 0) ->
  window_inv limit word' count'.
Proof.
  unfold MAX_VERIFICATION_RATE. intros Hl Hw (w0 & -> & Hw0 & Hlater & Hc) Hn Hc'. unfold next_state in Hn.
  rewrite (proj1 (word_parts w0 (count w0) ltac:(specialize (Hc w0); unfold RATE_COUNT_BITS; lia))) in Hn.
  rewrite (proj2 (word_parts w0 (count w0) ltac:(specialize (Hc w0); unfold RATE_COUNT_BITS; lia))) in Hn.
  destruct (Z.ltb_spec w0 w).
  - injection Hn as <-. exists w. rewrite word_fresh by done. pose proof (Hc' w) as Ew. rewrite (Hlater w), bool_decide_eq_true_2 in Ew by done.
    split; [by rewrite Ew|]. split; [done|]. split.
    + intros x Hx. rewrite Hc', bool_decide_eq_false_2, (Hlater x) by lia. done.
    + intros x. rewrite Hc'. specialize (Hc x). case_bool_decide as E; [|lia]. subst x. rewrite (Hlater w) by done. lia.
  - destruct (Z.ltb_spec w w0); [done|]. destruct (Z.leb_spec limit (count w0)); [done|]. injection Hn as <-.
    assert (w = w0) as -> by lia. exists w0. pose proof (Hc' w0) as Ew. rewrite bool_decide_eq_true_2 in Ew by done.
    split; [rewrite Ew; unfold word_of; lia|]. split; [done|]. split.
    + intros x Hx. rewrite Hc', bool_decide_eq_false_2, (Hlater x) by lia. done.
    + intros x. rewrite Hc'. specialize (Hc x). case_bool_decide as E; [|lia]. subst x. lia.
Qed.

(** ** Lemmas: threads *)

Definition admissions (ts : list Acquire) (w : Z) : Z :=
  zlen (filter (fun t => t = Acquired w) ts).

Definition thread_window (t : Acquire) : Z :=
  match t with Loading w | Exchanging w _ | Acquired w | Refused w => w end.

Lemma admissions_insert ts i t t' w : ts !! i = Some t -> t <> Acquired w ->
  admissions (<[i := t']> ts) w = admissions ts w + if bool_decide (t' = Acquired w) then 1 else 0.
Proof.
  intros Hi Ht. unfold admissions, zlen. revert i Hi. induction ts as [|x ts IH]; intros i Hi; [done|].
  destruct i as [|i]; cbn in Hi.
  - injection Hi as ->. change (<[0%nat := t']> (t :: ts)) with (t' :: ts). rewrite !filter_cons, (decide_False (P := t = _)) by done.
    case_bool_decide as E; case_decide; try done; cbn [length]; lia.
  - change (<[S i := t']> (x :: ts)) with (x :: <[i := t']> ts). rewrite !filter_cons. specialize (IH i Hi). destruct (decide (x = Acquired w)); cbn [length] in *; lia.
Qed.

Lemma admissions_same ts i t t' : ts !! i = Some t -> (forall w, t = Acquired w <-> t' = Acquired w) ->
  forall w, admissions (<[i := t']> ts) w = admissions ts w.
Proof.
  intros Hi Ht w. destruct (decide (t = Acquired w)) as [->|Hne].
  - specialize (proj1 (Ht w) eq_refl) as ->. by rewrite list_insert_id.
  - rewrite (admissions_insert ts i t t' w Hi Hne), bool_decide_eq_false_2; [lia|]. by rewrite <- Ht.
Qed.

Lemma acquire_run_inv lim schedule word ts : 1 <= lim <= MAX_VERIFICATION_RATE ->
  Forall (fun t => 0 <= thread_window t < 2 ^ 44) ts -> window_inv lim word (admissions ts) ->
  let '(word', ts') := acquire_run lim schedule word ts in
  Forall (fun t => 0 <= thread_window t < 2 ^ 44) ts' /\ window_inv lim word' (admissions ts').
Proof.
  intros Hl. revert word ts. induction schedule as [|[i spurious] schedule IH]; intros word ts Hts Hinv; cbn [acquire_run]; [done|].
  destruct (ts !! i) as [t|] eqn:Ei; [|by apply IH].
  pose proof Hts as Hw. rewrite Forall_lookup in Hw. specialize (Hw i t Ei).
  destruct (acquire_step lim spurious word t) as [word' t'] eqn:Es.
  assert (thread_window t' = thread_window t /\ window_inv lim word' (admissions (<[i := t']> ts))) as [Et Hinv'].
  { assert (forall t', thread_window t' = thread_window t -> (forall w, t = Acquired w <-> t' = Acquired w) ->
      thread_window t' = thread_window t /\ window_inv lim word (admissions (<[i := t']> ts))) as Hsame.
    { intros t2 E2 H2. split; [done|]. destruct Hinv as (w & E & Hw2 & Hx & Hc). exists w.
      pose proof (admissions_same ts i t t2 Ei H2) as Ha. rewrite Ha.
      split; [done|]. split; [done|]. split; [intros x ?|intros x]; rewrite Ha; auto. }
    destruct t as [w|w observed|w|w]; cbn [acquire_step] in Es.
    - injection Es as <- <-. apply Hsame; [done|]. intros x; split; discriminate.
    - destruct (next_state lim w observed) as [next|] eqn:En; [destruct ((word =? observed) && negb spurious) eqn:Eb|].
      + injection Es as <- <-. split; [done|]. bool_prop. subst observed.
        eapply window_inv_next; [done|exact Hw|exact Hinv|exact En|]. intros x.
        rewrite (admissions_insert ts i _ (Acquired w) x Ei) by done.
        cbn [thread_window]. do 2 case_bool_decide; congruence.
      + injection Es as <- <-. apply Hsame; [done|]. intros x; split; discriminate.
      + injection Es as <- <-. apply Hsame; [done|]. intros x; split; discriminate.
    - injection Es as <- <-. by apply Hsame.
    - injection Es as <- <-. by apply Hsame. }
  apply IH; [|done]. apply Forall_insert; [done|]. by rewrite Et.
Qed.

(** C35: whatever the interleaving of the threads' atomic operations, and
    whichever weak exchanges fail, the verification limiter admits at most
    [limit] requests in any window, and a lone thread's two operations are
    [try_acquire_in_window]. *)
Theorem verification_rate_kept rate l schedule windows :
  VerificationRateLimiter_new rate = Some l -> Forall (fun w => 0 <= w < 2 ^ 44) windows ->
  let '(word, ts) := acquire_run rate schedule (rate_state l) (map Loading windows) in
  (forall w, admissions ts w <= rate) /\
  forall w word' t, acquire_run rate [(0%nat, false); (0%nat, false)] word [Loading w] = (word', [t]) ->
    try_acquire_in_window w (mkRateLimiter rate word) = (bool_decide (t = Acquired w), mkRateLimiter rate word').
Proof.
  unfold VerificationRateLimiter_new, in_range. case_if; [|done]. intros [= <-] Hw. bool_prop. cbn [rate_state].
  pose proof (acquire_run_inv rate schedule 0 (map Loading windows)) as Hrun.
  destruct (acquire_run _ _ _ _) as [word ts]. destruct Hrun as [_ (w0 & _ & _ & _ & Hc)].
  - done.
  - by apply Forall_map.
  - assert (forall x, admissions (map Loading windows) x = 0) as Hno.
    { intros x. unfold admissions. induction windows as [|w ws IH]; [done|]. apply Forall_cons in Hw as [_ Hw].
      cbn [map]. rewrite filter_cons_False by done. by apply IH. }
    exists 0. rewrite Hno. split; [done|]. split; [done|]. split; [done|]. intros x. rewrite Hno. lia.
  - split; [intros w; apply Hc|]. intros w word' t. cbn. unfold try_acquire_in_window. cbn [limit rate_state].
    destruct (next_state rate w word) as [next|]; [rewrite Z.eqb_refl; cbn|]; intros [= <- <-].
    + by rewrite bool_decide_eq_true_2.
    + by rewrite bool_decide_eq_false_2.
Qed.

(** ** The door over time *)

(** Instants are nanoseconds; the limiter counts seconds since it started, the
    system clock seconds since the epoch. *)
Record Clocks := mkClocks { started : Z; epoch : Z }.
Definition SECOND : Z := 1000000000.
Definition elapsed_at (c : Clocks) (t : Z) : Z := (t - started c) / SECOND.
Definition unix_at (c : Clocks) (t : Z) : Z := (t - epoch c) / SECOND.

(** A request is prepared; a prepared capability gets the lock of the cache. *)
Inductive DoorEvent := Prepare (t : Z) (r : Request) | Commit (t : Z) (k : nat).
Definition event_time (e : DoorEvent) : Z := match e with Prepare t _ | Commit t _ => t end.

(** [waiting]: the capabilities that wait for the lock; [admitted]: the nonces
    that opened a relay, with their expiries, oldest first. *)
Record DoorState := mkDoorState {
  door : FrontDoor;
  cache : ReplayCache;
  waiting : list VerifiedCapability;
  admitted : list (bytes * Z)
}.

Section Run.
Context `{KexOps, UrlBase64} (to_str : bytes -> option bytes) (c : Clocks).

Definition door_step (e : DoorEvent) (s : DoorState) : DoorState :=
  match e with
  | Prepare t r =>
      match prepare to_str (door s) (elapsed_at c t) (Some (unix_at c t)) r with
      | (Verified v, f) => mkDoorState f (cache s) (waiting s ++ [v]) (admitted s)
      | (FallbackPrepared _, f) => mkDoorState f (cache s) (waiting s) (admitted s)
      end
  | Commit t k =>
      match waiting s !! k with
      | Some v =>
          let '(d, cache) := commit_verified (door s) v (Some (unix_at c t)) (cache s) in
          mkDoorState (door s) cache (delete k (waiting s))
            (match d with Relay => admitted s ++ [(nonce (claims v), replay_expires_at v)] | Fallback _ => admitted s end)
      | None => s
      end
  end.

Definition door_run (es : list DoorEvent) (s : DoorState) : DoorState := fold_left (fun s e => door_step e s) es s.

Fixpoint ordered (T : Z) (es : list DoorEvent) : Prop :=
  match es with [] => True | e :: es => T <= event_time e < started c + 2 ^ 44 * SECOND /\ ordered (event_time e) es end.
End Run.

(** ** Lemmas: counting admissions *)

Definition in_seconds (g : Z -> Z) (a n : Z) (ts : list Z) : Z := zlen (filter (fun t => a <= g t < a + n) ts).
Definition in_second (g : Z -> Z) (w : Z) (ts : list Z) : Z := zlen (filter (fun t => g t = w) ts).

Lemma in_seconds_bound g lim ts n a : (forall w, in_second g w ts <= lim) -> in_seconds g a (Z.of_nat n) ts <= lim * Z.of_nat n.
Proof.
  intros Hc. induction n as [|n IH].
  - unfold in_seconds. assert (filter (fun t => a <= g t < a + Z.of_nat 0) ts = []) as ->; [|zl].
    clear Hc. induction ts as [|t ts IH]; [done|]. rewrite filter_cons_False by lia. exact IH.
  - specialize (Hc (a + Z.of_nat n)).
    assert (in_seconds g a (Z.of_nat (S n)) ts = in_seconds g a (Z.of_nat n) ts + in_second g (a + Z.of_nat n) ts) as ->; [|lia].
    unfold in_seconds, in_second. clear. induction ts as [|t ts IH]; [done|]. rewrite !filter_cons.
    repeat case_decide; try lia; rewrite ?zlen_cons; lia.
Qed.

Lemma in_seconds_perm g a n l k : l ≡ₚ k -> in_seconds g a n l = in_seconds g a n k.
Proof. intros E. unfold in_seconds, zlen. by rewrite E. Qed.

Lemma in_seconds_app g a n l k : in_seconds g a n (l ++ k) = in_seconds g a n l + in_seconds g a n k.
Proof. unfold in_seconds. rewrite filter_app. zl. Qed.

Lemma in_seconds_nonneg g a n l : 0 <= in_seconds g a n l.
Proof. apply zlen_nonneg. Qed.

Lemma in_seconds_elem g a n l t : t ∈ l -> a <= g t < a + n -> 1 <= in_seconds g a n l.
Proof.
  intros Hin Hg. unfold in_seconds. assert (t ∈ filter (fun t => a <= g t < a + n) l) as Hf by (apply list_elem_of_filter; done).
  destruct (filter _ l); [by apply not_elem_of_nil in Hf|zl].
Qed.

(** The seconds of one clock that meet [n] seconds of the other number at most
    [n + 1]. *)
Lemma clocks_overlap c t now n : now - n < unix_at c t <= now ->
  let a := (epoch c + (now - n + 1) * SECOND - started c) / SECOND in a <= elapsed_at c t < a + (n + 1).
Proof.
  intros Ht a. unfold unix_at, elapsed_at in *. assert (0 < SECOND) as HS by done.
  pose proof (Z.div_mod (t - epoch c) SECOND ltac:(lia)) as E1. pose proof (Z.mod_pos_bound (t - epoch c) SECOND HS) as B1.
  split.
  - apply Z.div_le_mono; [done|]. nia.
  - assert ((t - started c) / SECOND <= a + n); [|lia]. unfold a.
    rewrite <- Z.div_add by lia. apply Z.div_le_mono; [done|]. nia.
Qed.

(** ** Lemmas: the door's invariant *)

(** A list of verification times for capabilities that are remembered until at
    most [keep] seconds later. *)
Definition kept_for (c : Clocks) (keep : Z) (expiry t : Z) : Prop := expiry <= unix_at c t + keep.

Record door_inv (c : Clocks) (keep T : Z) (s : DoorState) (granted tp ta rest : list Z) : Prop := {
  di_word : window_inv (limit (verification_rate_limiter (door s))) (rate_state (verification_rate_limiter (door s)))
              (fun w => in_second (elapsed_at c) w granted);
  di_limit : 1 <= limit (verification_rate_limiter (door s)) <= MAX_VERIFICATION_RATE;
  di_granted : granted ≡ₚ tp ++ ta ++ rest;
  di_past : Forall (fun t => t <= T) granted;
  di_waiting : Forall2 (fun v t => kept_for c keep (replay_expires_at v) t) (waiting s) tp;
  di_admitted : Forall2 (fun e t => kept_for c keep e.2 t) (admitted s) ta;
  di_cache : cache_ok (unix_at c T) (cache s) (admitted s);
  di_room : limit (verification_rate_limiter (door s)) * (keep + 1) <= capacity (cache s);
  di_keep : keep = verifier_max_lifetime (door_verifier (door s)) + clock_skew (door_verifier (door s)) * 2 /\ 0 <= keep
}.

Lemma unix_mono c t t' : t <= t' -> unix_at c t <= unix_at c t'.
Proof. intros Ht. unfold unix_at. apply Z.div_le_mono; [done|lia]. Qed.

(** The live admissions fit beside one more capability. *)
Lemma live_fit c keep T s granted tp ta rest t k v : door_inv c keep T s granted tp ta rest -> T <= t ->
  waiting s !! k = Some v -> unix_at c t < replay_expires_at v ->
  zlen (live (unix_at c t) (admitted s)) < capacity (cache s).
Proof.
  intros [Hw Hl Hg Hp Hwait Hadm _ Hroom [_ Hkeep]] Ht Hk Hv. set (now := unix_at c t) in *.
  set (a := (epoch c + (now - keep + 1) * SECOND - started c) / SECOND).
  assert (forall x e, x <= T -> kept_for c keep e x -> now < e -> a <= elapsed_at c x < a + (keep + 1)) as Hin.
  { intros x e Hx He Hn. apply (clocks_overlap c x now keep). unfold kept_for in He.
    pose proof (unix_mono c x t ltac:(lia)). unfold now in *. lia. }
  assert (Forall (fun t => t <= T) tp /\ Forall (fun t => t <= T) ta) as [Hpp Hpa].
  { rewrite Hg in Hp. apply Forall_app in Hp as [? Hp]. apply Forall_app in Hp as [? _]. done. }
  assert (zlen (live now (admitted s)) <= in_seconds (elapsed_at c) a (keep + 1) ta) as Hlive.
  { clear -Hadm Hpa Hin. unfold live, in_seconds. induction Hadm as [|[n e] x adm ta He Hadm IH]; [done|].
    apply Forall_cons in Hpa as [Hx Hpa]. specialize (IH Hpa). rewrite !filter_cons. cbn [snd] in *.
    case_decide as E1; case_decide as E2; rewrite ?zlen_cons; try lia. exfalso. by apply E2, (Hin x e). }
  destruct (Forall2_lookup_l _ _ _ _ _ Hwait Hk) as (tv & Htv & Hkv).
  assert (1 <= in_seconds (elapsed_at c) a (keep + 1) tp) as Hone.
  { eapply (in_seconds_elem _ _ _ _ tv); [by eapply list_elem_of_lookup_2|]. apply (Hin tv (replay_expires_at v)); try done.
    rewrite Forall_lookup in Hpp. by eapply Hpp. }
  destruct Hw as (w0 & _ & _ & _ & Hc).
  pose proof (in_seconds_bound (elapsed_at c) (limit (verification_rate_limiter (door s))) granted (Z.to_nat (keep + 1)) a
    ltac:(intros w; apply Hc)) as Hb.
  rewrite Z2Nat.id in Hb by lia. rewrite (in_seconds_perm _ _ _ _ _ Hg), !in_seconds_app in Hb.
  pose proof (in_seconds_nonneg (elapsed_at c) a (keep + 1) rest). lia.
Qed.

Lemma cache_ok_later T now c log : T <= now -> cache_ok T c log -> cache_ok now c log.
Proof.
  intros Hle Hok. destruct (prune_ok T now c log Hle Hok) as ([_ _ _ Hd' _] & _). destruct Hok as [Hs Hp Hf Hd Hl].
  split; try done. intros n e He. apply Hl. lia.
Qed.

Lemma cache_ok_new T capacity c : 0 <= capacity -> ReplayCache_new capacity = inr c -> cache_ok T c [] /\ Capability.capacity c = capacity.
Proof.
  unfold ReplayCache_new. intros Hcap Hnew. destruct (_ || _); [done|]. injection Hnew as <-. split; [|done]. split; cbn.
  - constructor.
  - by rewrite map_to_list_empty.
  - by rewrite map_size_empty.
  - constructor.
  - intros n e He. rewrite lookup_empty. split; [done|]. by intros ?%not_elem_of_nil.
Qed.

(** A commit opens the relay exactly for an unused capability within its window. *)
Lemma commit_cases f v now T cache log : T <= now -> cache_ok T cache log ->
  let '(d, cache') := commit_verified f v (Some now) cache in
  let fresh := bool_decide (valid_from v <= now /\ now < replay_expires_at v /\
                 nonce (claims v) ∉ (live now log).*1 /\ zlen (live now log) < capacity cache) in
  d = normalize f (if fresh then Relay else Fallback unauthorized) /\
  cache_ok now cache' (if fresh then log ++ [(nonce (claims v), replay_expires_at v)] else log) /\ capacity cache' = capacity cache.
Proof.
  intros Hle Hok. unfold commit_verified, consume. pose proof (cache_ok_later _ _ _ _ Hle Hok) as Hnow.
  destruct (Z.ltb_spec now (valid_from v)); [rewrite bool_decide_eq_false_2 by lia; done|].
  destruct (Z.leb_spec (replay_expires_at v) now); [rewrite bool_decide_eq_false_2 by lia; done|].
  pose proof (insert_refines T (nonce (claims v)) (replay_expires_at v) now cache log Hle Hok) as Hi.
  destruct (cache_insert _ _ _ _) as [r cache']. unfold history_insert in Hi.
  rewrite (proj2 (Z.ltb_lt now _)) in Hi by lia. cbn [andb] in Hi.
  destruct (bool_decide_reflect (nonce (claims v) ∉ (live now log).*1)) as [Hn|Hn]; cbn [andb] in Hi.
  - destruct (Z.ltb_spec (zlen (live now log)) (capacity cache)).
    + destruct Hi as (-> & Hc & Ec). rewrite bool_decide_eq_true_2 by done. done.
    + destruct Hi as (-> & Hc & Ec). rewrite bool_decide_eq_false_2 by lia. done.
  - destruct Hi as (-> & Hc & Ec). rewrite bool_decide_eq_false_2 by tauto. done.
Qed.

Section Steps.
Context `{KexLaws} `{UrlBase64Laws} (to_str : bytes -> option bytes) (c : Clocks) (keep : Z).

Lemma verified_kept f t raw v :
  keep = verifier_max_lifetime (door_verifier f) + clock_skew (door_verifier f) * 2 ->
  verify_for_replay (door_verifier f) raw (unix_at c t) = inr v -> kept_for c keep (replay_expires_at v) t.
Proof.
  intros -> Hv. destruct (verify_for_replay_sound _ _ _ _ Hv) as (_ & _ & _ & _ & _ & _ & Hchk & _ & Ere).
  unfold check_claims in Hchk. rewrite !try_bind_ok, !check_or_ok, !try_bind_some in Hchk.
  destruct Hchk as (_ & Hup & _ & life & Hlife%some_or_ok & Hchk). rewrite try_bind_ok, !check_or_ok in Hchk.
  destruct Hchk as [_ Hmax]. bool_prop. unfold checked_sub in Hlife. case_if. injection Hlife as <-. bool_prop.
  unfold kept_for. unfold saturating_add in *. lia.
Qed.

Lemma in_second_snoc w granted t : in_second (elapsed_at c) w (granted ++ [t]) =
  in_second (elapsed_at c) w granted + if bool_decide (w = elapsed_at c t) then 1 else 0.
Proof.
  unfold in_second. rewrite filter_app, filter_cons, filter_nil. case_bool_decide; case_decide; try congruence; zl.
Qed.

Lemma door_step_inv T s granted tp ta rest e :
  door_inv c keep T s granted tp ta rest -> started c <= T -> T <= event_time e < started c + 2 ^ 44 * SECOND ->
  exists granted tp ta rest, door_inv c keep (event_time e) (door_step to_str c e s) granted tp ta rest.
Proof.
  intros Hinv HT [Hle Hlt]. pose proof Hinv as [Hw Hl Hg Hp Hwait Hadm Hcache Hroom [Hkeep Hk0]].
  assert (forall t, T <= t -> Forall (fun x => x <= t) granted) as Hpast by (intros t Ht; eapply Forall_impl; [exact Hp|]; cbn; lia).
  destruct e as [t r|t k]; cbn [event_time door_step] in *.
  - unfold prepare. destruct (presented to_str (door s) r) as [resp|raw].
    { exists granted, tp, ta, rest. destruct s; cbn in *. split; cbn; auto. eapply cache_ok_later; [|exact Hcache]. by apply unix_mono. }
    unfold try_acquire_in_window. destruct (next_state _ _ _) as [word'|] eqn:En; cbn [negb].
    2: { exists granted, tp, ta, rest. destruct s as [[? ? ? ? [? ?] ? ?] ? ? ?]; cbn in *. split; cbn; auto.
         eapply cache_ok_later; [|exact Hcache]. by apply unix_mono. }
    assert (window_inv (limit (verification_rate_limiter (door s))) word' (fun w => in_second (elapsed_at c) w (granted ++ [t]))) as Hw'.
    { assert (0 <= elapsed_at c t < 2 ^ 44) as Ht.
      { unfold elapsed_at, SECOND in *. split; [apply Z.div_pos; lia|apply Z.div_lt_upper_bound; lia]. }
      exact (window_inv_next _ _ _ _ _ _ Hl Ht Hw En (fun w => in_second_snoc w granted t)). }
    assert (Forall (fun x => x <= t) (granted ++ [t])) as Hp' by (apply Forall_app; split; [by apply Hpast|by apply Forall_singleton]).
    assert (cache_ok (unix_at c t) (cache s) (admitted s)) as Hc' by (eapply cache_ok_later; [|exact Hcache]; by apply unix_mono).
    destruct (verify_for_replay _ raw _) as [er|v] eqn:Ev.
    + exists (granted ++ [t]), tp, ta, (rest ++ [t]). split; cbn; auto. rewrite Hg. by rewrite !app_assoc.
    + exists (granted ++ [t]), (tp ++ [t]), ta, rest. split; cbn; auto.
      * rewrite Hg. rewrite <- !app_assoc. apply Permutation_app_head. rewrite app_assoc. apply Permutation_app_comm.
      * apply Forall2_app; [done|]. repeat constructor. by eapply verified_kept.
  - destruct (waiting s !! k) as [v|] eqn:Ek.
    2: { exists granted, tp, ta, rest. split; auto. eapply cache_ok_later; [|exact Hcache]. by apply unix_mono. }
    pose proof (commit_cases (door s) v (unix_at c t) (unix_at c T) (cache s) (admitted s) ltac:(by apply unix_mono) Hcache) as Hc.
    destruct (commit_verified _ _ _ _) as [d cache']. destruct Hc as (Ed & Hok & Ecap).
    destruct (Forall2_lookup_l _ _ _ _ _ Hwait Ek) as (tv & Htv & Hkv).
    assert (Forall2 (fun v t => kept_for c keep (replay_expires_at v) t) (delete k (waiting s)) (delete k tp)) as Hwait' by by apply Forall2_delete.
    pose proof (delete_Permutation _ _ _ Htv) as Etp. set (tp' := delete k tp) in *. clearbody tp'.
    set (fresh := bool_decide _) in *. destruct fresh.
    + exists granted, tp', (ta ++ [tv]), rest. destruct d; [|done]. split; cbn; auto.
      * rewrite Hg, Etp, <- app_assoc. cbn [app]. rewrite !(app_assoc tp' ta). apply (Permutation_middle (tp' ++ ta) rest tv).
      * apply Forall2_app; [done|]. by repeat constructor.
      * by rewrite Ecap.
    + exists granted, tp', ta, (tv :: rest).
      assert (exists r, d = Fallback r) as [r ->] by (subst d; unfold normalize; case_if; by eexists).
      split; cbn; auto.
      * rewrite Hg, Etp. cbn [app]. rewrite !(app_assoc tp' ta). apply (Permutation_middle (tp' ++ ta) rest tv).
      * by rewrite Ecap.
Qed.

Lemma door_run_inv es T s granted tp ta rest :
  door_inv c keep T s granted tp ta rest -> started c <= T -> ordered c T es ->
  exists T' granted tp ta rest, door_inv c keep T' (door_run to_str c es s) granted tp ta rest /\ T <= T' /\
    forall t k, ordered c T (es ++ [Commit t k]) -> T' <= t.
Proof.
  revert T s granted tp ta rest. induction es as [|e es IH]; intros T s granted tp ta rest Hinv HT Ho.
  - exists T, granted, tp, ta, rest. split; [done|]. split; [done|]. intros t k [[? _] _]. done.
  - destruct Ho as [He Ho]. destruct (door_step_inv T s granted tp ta rest e Hinv HT He) as (g1 & p1 & a1 & r1 & Hnext).
    destruct (IH _ _ _ _ _ _ Hnext ltac:(lia) Ho) as (T' & g & p & a & r & Hend & HT' & Hlast).
    exists T', g, p, a, r. split; [done|]. split; [lia|]. intros t k [_ Ht]. by eapply Hlast.
Qed.
End Steps.

(** The rate a front door is built with leaves room for the retention of its
    verifier. *)
Lemma build_front_door_room parse_uri v cfg uniform f : build_front_door parse_uri v cfg uniform = inr f ->
  door_verifier f = v /\ uniform_fallback f = uniform /\ door_relay_path f = relay_path cfg /\
  rate_state (verification_rate_limiter f) = 0 /\ 1 <= limit (verification_rate_limiter f) <= MAX_VERIFICATION_RATE /\
  ReplayCache_new (door_replay_capacity f) = inr (replay_cache f) /\
  Z.min u64_max (limit (verification_rate_limiter f) * replay_retention_secs v) <= door_replay_capacity f <= 1000000.
Proof.
  unfold build_front_door. intros E. apply try_bind_some in E as (f1 & E1 & E). apply try_bind_some in E as (f2 & E2 & E).
  apply try_bind_some in E as (f3 & E3 & [= <-]).
  unfold with_path in E1. apply try_bind_ok in E1 as [_ E1]. apply try_bind_some in E1 as (c1 & _ & [= <-]).
  unfold with_replay_capacity in E2. cbn in E2. apply try_bind_ok in E2 as [_ E2]. apply try_bind_some in E2 as (c2 & Ec & [= <-]).
  unfold with_max_verifications_per_second in E3. cbn in E3. apply try_bind_ok in E3 as [Eroom%check_or_ok E3].
  apply try_bind_some in E3 as (l & El%some_or_ok & [= <-]). cbn. bool_prop.
  unfold VerificationRateLimiter_new, in_range in El. case_if. injection El as <-. bool_prop. cbn.
  unfold new_cache in Ec. destruct (ReplayCache_new _) as [|c3] eqn:En; [done|]. injection Ec as <-.
  split_and!; try done; try lia. unfold ReplayCache_new in En. destruct (_ || _) eqn:Eb; [done|]. bool_prop. lia.
Qed.

(** C36: the door never refuses a capability for lack of memory.  A door that
    could be built has, at any moment and whatever requests came in whatever
    order and waited however long for the cache, room for the nonce of every
    capability it has verified: when one that waits gets the lock, the relay
    opens exactly if the clock is in the widened window of the capability and no
    relay was opened with its nonce before that is still remembered; otherwise
    the answer is 401, or 404 under the uniform fallback.  (The limiter and the
    system clock cut seconds at different instants: the retention of one extra
    second covers it.) *)
Theorem front_door_never_full `{KexLaws} `{UrlBase64Laws} parse_uri to_str v cfg uniform f c T es t k w :
  build_front_door parse_uri v cfg uniform = inr f ->
  0 <= verifier_max_lifetime v -> 0 <= clock_skew v -> started c <= T -> ordered c T (es ++ [Commit t k]) ->
  let s := door_run to_str c es (mkDoorState f (replay_cache f) [] []) in
  waiting s !! k = Some w ->
  let now := unix_at c t in
  let d := (commit_verified (door s) w (Some now) (cache s)).1 in
  (d = Relay <-> valid_from w <= now < replay_expires_at w /\ nonce (claims w) ∉ (live now (admitted s)).*1) /\
  (d <> Relay -> d = Fallback (if uniform then not_found else unauthorized)).
Proof.
  intros Hf Hlife Hskew HT Ho s Hk now d.
  destruct (build_front_door_room _ _ _ _ _ Hf) as (Ev & Eu & _ & Ew & Hl & Hcache & Hroom).
  assert (ordered c T es) as Hes.
  { clear -Ho. revert T Ho. induction es as [|e es IH]; intros T Ho; [done|]. destruct Ho as [? Ho]. split; [done|]. by apply IH. }
  set (keep := verifier_max_lifetime v + clock_skew v * 2).
  assert (limit (verification_rate_limiter f) * (keep + 1) <= door_replay_capacity f) as Hfit.
  { assert (0 <= replay_retention_secs v /\ (replay_retention_secs v <= 1000000 -> replay_retention_secs v = keep + 1)) as [HR0 HR]
      by (unfold replay_retention_secs, saturating_add, u64_max, keep; lia).
    set (R := replay_retention_secs v) in *. clearbody R. unfold u64_max in Hroom.
    assert (limit (verification_rate_limiter f) * R <= door_replay_capacity f) as Hprod by lia. rewrite <- HR; [done|]. nia. }
  destruct (cache_ok_new (unix_at c T) (door_replay_capacity f) (replay_cache f)) as [Hok Ecap]; [nia|done|].
  assert (door_inv c keep T (mkDoorState f (replay_cache f) [] []) [] [] [] []) as Hinit.
  { split; cbn; auto.
    - exists 0. rewrite Ew. split; [done|]. split; [done|]. split; [done|]. intros x. change (in_second _ x []) with 0. lia.
    - by rewrite Ecap.
    - rewrite Ev. unfold keep. lia. }
  destruct (door_run_inv to_str c keep es T _ _ _ _ _ Hinit HT Hes) as (T' & g & tp & ta & r & Hinv & HT' & Hlast).
  specialize (Hlast t k Ho). fold s in Hinv. pose proof Hinv as [_ _ _ _ _ _ Hc _ _].
  assert (uniform_fallback (door s) = uniform) as Eus.
  { unfold s. clear -Eu. set (s0 := mkDoorState f _ _ _). assert (uniform_fallback (door s0) = uniform) as E by done.
    clearbody s0. revert s0 E. induction es as [|e es IH]; intros s0 E; [done|]. cbn [door_run fold_left]. apply IH.
    destruct e as [t r|t k]; cbn [door_step].
    - unfold prepare. destruct (presented _ _ _); [done|]. destruct (try_acquire_in_window _ _) as [ok lim]. cbn.
      destruct ok; [|done]. cbn. by destruct (verify_for_replay _ _ _).
    - destruct (waiting s0 !! k); [|done]. by destruct (commit_verified _ _ _ _) as [[] ?]. }
  pose proof (commit_cases (door s) w now (unix_at c T') (cache s) (admitted s) ltac:(by apply unix_mono) Hc) as Hcase.
  unfold d. destruct (commit_verified _ _ _ _) as [d' cache']. cbn [fst]. destruct Hcase as (-> & _).
  assert (now < replay_expires_at w -> zlen (live now (admitted s)) < capacity (cache s)) as Hspace by (intros; by eapply live_fit).
  unfold normalize. case_bool_decide as E.
  - split; [|done]. split; [intros _; tauto|done].
  - rewrite Eus. split.
    + split; [by destruct uniform|]. intros [[? ?] ?]. exfalso. apply E. auto.
    + intros _. by destruct uniform.
Qed.

Lemma fallback_answers f r d : fallback f r = FallbackPrepared d -> exists resp, d = Fallback resp.
Proof. unfold fallback, normalize. intros [= <-]. case_if; by eexists. Qed.

Lemma prepare_fallback `{KexOps, UrlBase64} to_str f elapsed clock r d f' :
  prepare to_str f elapsed clock r = (FallbackPrepared d, f') -> exists resp, d = Fallback resp.
Proof.
  unfold prepare. destruct (presented to_str f r); [intros E%(f_equal fst); exact (fallback_answers _ _ _ E)|].
  destruct (try_acquire_in_window _ _) as [ok lim]. destruct ok; cbn [negb]; [|intros E%(f_equal fst); exact (fallback_answers _ _ _ E)].
  destruct (verify_for_replay _ _ _); [intros E%(f_equal fst); exact (fallback_answers _ _ _ E)|done].
Qed.

(** A relay starts only for a request to the relay path by POST with one
    capability, which verifies under the door's verifier at the time it is
    prepared and is then consumed, with an octet-stream body whose declared
    lengths agree within the limit. *)
Theorem relay_opens_for_capability `{KexLaws} `{UrlBase64Laws} to_str cfg f env r replay s :
  handle_http2_request to_str cfg f env r replay = (None, s) ->
  uri_path (uri r) = door_relay_path f /\ uri_query (uri r) = None /\ method r = "POST" /\
  (exists value raw v now, get_all CAPABILITY_HEADER (headers r) = [value] /\ to_str value = Some raw /\
     zlen raw <= door_max_token_bytes f /\
     verify_for_replay (door_verifier f) raw (default 0 (prepare_clock env)) = inr v /\
     commit_clock env = Some now /\ valid_from v <= now < replay_expires_at v /\
     entries s.2 !! nonce (claims v) = Some (replay_expires_at v)) /\
  is_octet_stream to_str (headers r) = true /\
  validate_content_length to_str (headers r) (max_stream_bytes (limits cfg)) = inr () /\
  backend_connects env = true.
Proof.
  unfold handle_http2_request, decide_with_replay. destruct (shut_down env) as [[before waits] connecting].
  destruct before; [done|]. destruct (prepare _ _ _ _ _) as [[v|d] f'] eqn:Ep.
  2: { by apply prepare_fallback in Ep as [resp ->]. }
  destruct waits; [done|]. destruct (commit_verified _ _ _ _) as [d replay'] eqn:Ec.
  destruct d as [|resp]; [|done]. destruct (is_octet_stream _ _) eqn:Eo; cbn [negb]; [|done].
  destruct (validate_content_length _ _ _) as [st|[]] eqn:Ev; [done|].
  cbn [snd]. destruct connecting; [done|]. destruct (backend_connects env) eqn:Eb; cbn [negb]; [|done]. intros [= <-].
  unfold prepare in Ep. destruct (presented to_str f r) as [resp|raw] eqn:Epr; [done|].
  destruct (try_acquire_in_window _ _) as [ok lim]. destruct ok; cbn [negb] in Ep; [|done]. cbn [door_verifier with_limiter] in Ep.
  destruct (verify_for_replay _ _ _) as [er|v'] eqn:Evr; [done|]. injection Ep as -> <-.
  unfold presented in Epr. destruct (bool_decide_reflect (uri_path (uri r) = door_relay_path f)) as [Hpath|]; cbn [negb orb] in Epr; [|done].
  destruct (bool_decide_reflect (is_Some (uri_query (uri r)))) as [|Hq]; [done|].
  destruct (bool_decide_reflect (method r = "POST")) as [Hm|]; cbn [negb] in Epr; [|done].
  destruct (get_all _ _) as [|value [|? ?]] eqn:Eg; [done| |done]. destruct (to_str value) as [t|] eqn:Et; [|done].
  destruct (Z.ltb_spec (door_max_token_bytes f) (zlen t)); [done|]. injection Epr as ->.
  split; [done|]. split; [by apply eq_None_not_Some|]. split; [done|]. split; [|done].
  unfold commit_verified in Ec. destruct (commit_clock env) as [now|]; [|unfold normalize in Ec; case_if; discriminate Ec].
  exists value, raw, v, now. unfold consume in Ec.
  destruct (Z.ltb_spec now (valid_from v)); [unfold normalize in Ec; case_if; discriminate Ec|].
  destruct (Z.leb_spec (replay_expires_at v) now); [unfold normalize in Ec; case_if; discriminate Ec|].
  pose proof (insert_accepted (nonce (claims v)) (replay_expires_at v) now replay) as Hi.
  destruct (cache_insert _ _ _ _) as [ins replay2]. destruct ins; [|unfold normalize in Ec; case_if; discriminate Ec].
  injection Ec as <-. destruct (Hi eq_refl) as [He _]. done.
Qed.

(** ** Witnesses *)

Module Witnesses.
Import Toy Capability.Witnesses.

Lemma verification_rate_kept_witness :
  let '(word, ts) := acquire_run 2 [(0, false); (1, false); (2, false); (0, false); (1, false); (1, true); (1, false); (2, false); (2, false); (2, false)]%nat 0 (map Loading [7; 7; 7]) in
  forall w, admissions ts w <= 2.
Proof.
  pose proof (verification_rate_kept 2 (mkRateLimiter 2 0)
    [(0, false); (1, false); (2, false); (0, false); (1, false); (1, true); (1, false); (2, false); (2, false); (2, false)]%nat
    [7; 7; 7] eq_refl ltac:(by_compute)) as Hrate.
  destruct (acquire_run _ _ _ _) as [word ts]. exact (proj1 Hrate).
Defined.

Definition plain_uri (s : string) : option Uri := Some (mkUri s None).
Definition edge_config : EdgeConfig :=
  mkEdgeConfig (mkSocketAddr (IpV4 [127; 0; 0; 1]) 8443) "127.0.0.1:9000" "edge-1" "" DEFAULT_RELAY_PATH
    (mkTlsConfig None None None "edge.invalid") Limits_default SocksConfig_default.
Definition open_request : Request := mkRequest "POST" (mkUri DEFAULT_RELAY_PATH None) [(CAPABILITY_HEADER, token)].
Definition front_door : FrontDoor :=
  mkFrontDoor verifier 4096 DEFAULT_RELAY_PATH true (mkRateLimiter 256 0) DEFAULT_REPLAY_CAPACITY (mkCache DEFAULT_REPLAY_CAPACITY ∅ []).
Definition clocks : Clocks := mkClocks (1000 * SECOND) 500.
(** Two requests with the same capability wait for the cache. *)
Definition requests : list DoorEvent :=
  [Prepare (1020 * SECOND) open_request; Prepare (1021 * SECOND) open_request; Commit (1022 * SECOND) 1].
Definition capability : VerifiedCapability := mkVerified edge_claims 995 1065.

Lemma front_door_never_full_witness :
  (commit_verified front_door capability (Some (unix_at clocks (1023 * SECOND)))
     (cache (door_run Some clocks requests (mkDoorState front_door (replay_cache front_door) [] [])))).1 = Fallback not_found.
Proof.
  destruct (front_door_never_full plain_uri Some verifier edge_config true front_door clocks (1000 * SECOND) requests (1023 * SECOND) 0 capability)
    as [Hiff Hno]; [vm_compute; reflexivity|by_compute|by_compute|by_compute|vm_compute; repeat split; discriminate|vm_compute; reflexivity|].
  apply Hno. vm_compute. discriminate.
Defined.
End Witnesses.
