(* ===== verification/EdgeSocks.v ===== *)
(** The local side of an edge client (shph-edge/src/carrier.rs): the SOCKS5
    server that the transport's SOCKS5 client ([Socks]) talks to, the bundle of
    capability tokens, and the pool of HTTP/2 connections with its stream
    leases.  TLS and HTTP/2 are inputs. *)
From S2P Require Import Net.
From S2P Require Import Prelude Error Text Primitives TcpTransport TcpIo Dialogue Socks.

(** ** The SOCKS5 server *)

(** The errors of [handle_socks5] beside those of the local socket: a SOCKS5
    violation, an acquisition that failed, a shutdown, a request that failed or
    took too long, and one that the edge refused. *)
Inductive SocksRejection :=
  | SocksRejected | PoolRefused | ShuttingDown | RequestFailed | RequestTimedOut | StreamRejected (status : Z).

Abbreviation socks A := (SocksRejection + A)%type.

(** A computation that may be rejected. *)
Definition io_try {S A B} (m : IO S (socks A)) (k : A -> IO S (socks B)) : IO S (socks B) :=
  let* r := m in
  match r with inl e => io_ret (Ok (inl e)) | inr a => k a end.

Definition reject_with {S A} (e : SocksRejection) : IO S (socks A) := io_ret (Ok (inl e)).
Definition reject {S A} : IO S (socks A) := reject_with SocksRejected.

(** [let _ = …]: the outcome of the write does not matter. *)
Definition io_discard {S} (m : IO S unit) : IO S unit := fun s =>
  match m s with
  | (Some (Err _), s) => (Some (Ok ()), s)
  | other => other
  end.

Definition socks5_methods : IO Conn (socks unit) :=
  let* header := io_read (read_exact 2) in
  let* version := io_ret (index header 0) in
  let* count := io_ret (index header 1) in
  if negb (version =? 5) || (16 <? count) then reject
  else
    let* methods := io_read (read_exact count) in
    if negb (bool_decide (0 ∈ methods)) then
      let* _ok := io_write [5; 255] in reject
    else
      let* _ok := io_write [5; 0] in io_ret (Ok (inr ())).

(** The length of the target of a request. *)
Definition target_length (atyp : Z) : IO Conn (socks Z) :=
  if atyp =? 1 then io_ret (Ok (inr 4))
  else if atyp =? 3 then
    let* len := io_read (read_exact 1) in
    let* len := io_ret (index len 0) in
    if len =? 0 then reject else io_ret (Ok (inr len))
  else if atyp =? 4 then io_ret (Ok (inr 16))
  else reject.

Definition socks5_target : IO Conn (socks unit) :=
  let* request := io_read (read_exact 4) in
  let* version := io_ret (index request 0) in
  let* command := io_ret (index request 1) in
  let* reserved := io_ret (index request 2) in
  let* atyp := io_ret (index request 3) in
  if negb (version =? 5) || negb (command =? 1) || negb (reserved =? 0) || negb (bool_decide (atyp ∈ [1; 3; 4])) then reject
  else
    io_try (target_length atyp) (fun target_len =>
      let* target := io_read (read_exact (target_len + 2)) in
      if (atyp =? 3) && existsb (fun b => (b <=? 32) || (b =? 127)) (ztake target_len target) then reject
      else io_ret (Ok (inr ()))).

Definition socks5_handshake : IO Conn (socks unit) := io_try socks5_methods (fun _ => socks5_target).

Definition write_socks5_reply (reply : Z) : IO Conn unit :=
  let* _ok := io_write [5; reply; 0; 1; 0; 0; 0; 0; 0; 0] in
  io_flush.

(** What comes of the HTTP/2 stream while the local side waits: the pool fails to
    lease one ([Http2Pool::acquire]), the edge client shuts down, the request
    fails or exceeds its timeout, or the edge answers with a status. *)
Inductive StreamOutcome := PoolFails | Shutdown | RequestFails | RequestTimesOut | Answered (status : Z).

(** [handle_socks5] until the relay.  The timeout of the SOCKS5 handshake and that
    of the final reply, and a shutdown meanwhile, are failed reads and writes of
    the local socket's schedule; the producer that is aborted on a failure has
    touched the local socket only by reading what comes after the handshake. *)
Definition serve_socks5 (stream : StreamOutcome) : IO Conn (socks unit) :=
  io_try socks5_handshake (fun _ =>
    match stream with
    | PoolFails => reject_with PoolRefused
    | Shutdown => reject_with ShuttingDown
    | RequestFails => let* _ok := io_discard (write_socks5_reply 1) in reject_with RequestFailed
    | RequestTimesOut => let* _ok := io_discard (write_socks5_reply 1) in reject_with RequestTimedOut
    | Answered status =>
        if negb (status =? 200) then let* _ok := io_discard (write_socks5_reply 5) in reject_with (StreamRejected status)
        else let* _ok := write_socks5_reply 0 in io_ret (Ok (inr ()))
    end).

(** ** The token bundle *)

Definition MAX_CAPABILITY_TOKEN_FILE_BYTES : Z := 64 * 1024.
Definition MAX_CAPABILITY_TOKENS : Z := 1024.

(** [str::lines]: the pieces before each newline and what is left, each without
    one trailing carriage return when a newline follows it. *)
Definition strip_cr (rev_line : bytes) : bytes := rev (match rev_line with 13 :: l => l | l => l end).

Fixpoint lines_from (l rev_line : bytes) : list bytes :=
  match l with
  | [] => if bool_decide (rev_line = []) then [] else [rev rev_line]
  | b :: l => if b =? 10 then strip_cr rev_line :: lines_from l [] else lines_from l (b :: rev_line)
  end.

Definition lines (l : bytes) : list bytes := lines_from l [].

Section Tokens.
(** [HeaderValue::try_from] succeeds. *)
Context (header_value : bytes -> bool).

Inductive UriError := InvalidUri.

Fixpoint collect_tokens (ls : list bytes) (max_token_bytes : Z) (tokens : list bytes) : UriError + list bytes :=
  match ls with
  | [] => inr tokens
  | line :: ls =>
      let token := trim_bytes line in
      if bool_decide (token = []) then collect_tokens ls max_token_bytes tokens
      else
        do# check_or (negb ((max_token_bytes <? zlen token) || existsb (fun b => (b <=? 32) || (b =? 127)) token)) InvalidUri ;
        do# check_or (negb (MAX_CAPABILITY_TOKENS <=? zlen tokens)) InvalidUri ;
        do# check_or (header_value token) InvalidUri ;
        collect_tokens ls max_token_bytes (tokens ++ [token])
  end.

Definition parse_capability_tokens (raw : bytes) (max_token_bytes : Z) : UriError + list bytes :=
  do# check_or (negb (MAX_CAPABILITY_TOKEN_FILE_BYTES <? zlen raw)) InvalidUri ;
  let# tokens := collect_tokens (lines raw) max_token_bytes [] in
  do# check_or (negb (bool_decide (tokens = []))) InvalidUri ;
  inr tokens.
End Tokens.

(** ** The connection pool *)

(** A connection: its leased stream slots, whether it is usable, and whether the
    pool still lists it. *)
Record PoolConnection := mkPoolConnection { leased : Z; usable : bool; listed : bool }.

Record Http2Pool := mkHttp2Pool { tokens : list bytes; connections : list PoolConnection }.

Inductive Acquisition :=
  | Leased (connection : nat) (token : bytes)
  | Exhausted                       (* no token is left *)
  | MustWait                        (* every connection is full *)
  | ConnectFailed.                  (* connecting failed, or the connection closed at once *)

(** [connections.retain(is_usable)] *)
Definition retain_usable (cs : list PoolConnection) : list PoolConnection :=
  map (fun c => mkPoolConnection (leased c) (usable c) (listed c && usable c)) cs.

Definition can_lease (max_streams : Z) (c : PoolConnection) : bool := listed c && usable c && (leased c <? max_streams).

Fixpoint find_lease (max_streams : Z) (cs : list PoolConnection) (i : nat) : option nat :=
  match cs with
  | [] => None
  | c :: cs => if can_lease max_streams c then Some i else find_lease max_streams cs (S i)
  end.

Definition lease (c : PoolConnection) : PoolConnection := mkPoolConnection (leased c + 1) (usable c) (listed c).

(** One round of [acquire] under its lock.  [connected]: whether a connection to
    the edge can be opened and is usable at once. *)
Definition acquire (max_streams max_connections : Z) (connected : bool) (p : Http2Pool) : Acquisition * Http2Pool :=
  match tokens p with
  | [] => (Exhausted, p)
  | token :: rest =>
      let cs := retain_usable (connections p) in
      match find_lease max_streams cs 0 with
      | Some i => (Leased i token, mkHttp2Pool rest (alter lease i cs))
      | None =>
          if max_connections <=? zlen (filter (fun c => listed c = true) cs) then (MustWait, mkHttp2Pool (tokens p) cs)
          else if connected then (Leased (length cs) token, mkHttp2Pool rest (cs ++ [mkPoolConnection 1 true true]))
          else (ConnectFailed, mkHttp2Pool (tokens p) cs)
      end
  end.

(** What happens to a pool: an acquisition, the end of a leased stream (the
    permit is dropped), the end of a connection. *)
Inductive PoolEvent := Acquire (connected : bool) | Release (stream : nat) | Close (connection : nat).

(** A pool in use: the connections of the streams it has leased and that have not
    ended, and the tokens it has handed out. *)
Record PoolRun := mkPoolRun { pool : Http2Pool; held : list nat; handed : list bytes }.

Definition return_lease (c : PoolConnection) : PoolConnection := mkPoolConnection (leased c - 1) (usable c) (listed c).
Definition close_connection (c : PoolConnection) : PoolConnection := mkPoolConnection (leased c) false (listed c).

Definition pool_step (max_streams max_connections : Z) (r : PoolRun) (e : PoolEvent) : PoolRun :=
  let p := pool r in
  match e with
  | Acquire connected =>
      let '(a, p') := acquire max_streams max_connections connected p in
      match a with
      | Leased i token => mkPoolRun p' (i :: held r) (handed r ++ [token])
      | _ => mkPoolRun p' (held r) (handed r)
      end
  | Release k =>
      match held r !! k with
      | Some i => mkPoolRun (mkHttp2Pool (tokens p) (alter return_lease i (connections p))) (delete k (held r)) (handed r)
      | None => r
      end
  | Close i => mkPoolRun (mkHttp2Pool (tokens p) (alter close_connection i (connections p))) (held r) (handed r)
  end.

(** A pool when the edge client starts, with its token bundle. *)
Definition fresh_pool (bundle : list bytes) : PoolRun := mkPoolRun (mkHttp2Pool bundle []) [] [].

Definition pool_run (max_streams max_connections : Z) (r : PoolRun) (es : list PoolEvent) : PoolRun :=
  fold_left (pool_step max_streams max_connections) es r.

(** ** Lemmas: the server and the client of [Socks] *)

(** What the client sends: an address the server accepts. *)
Definition address_field (a : bytes) : Prop :=
  exists atyp body, a = atyp :: body /\
    ((atyp = 1 /\ zlen body = 4) \/ (atyp = 4 /\ zlen body = 16) \/
     (atyp = 3 /\ exists name, body = zlen name :: name /\ 0 < zlen name /\ Forall (fun b => 32 < b /\ b <> 127) name)).

Lemma printable l : has_control l = false -> has_white_space l = false -> Forall (fun b => 32 < b /\ b <> 127) l.
Proof.
  induction l as [|b l IH]; [constructor|]. cbn [has_control has_white_space]. intros Hc Hw.
  apply orb_false_iff in Hc as [Hc Hc']. apply orb_false_iff in Hc as [Hc _]. bool_prop.
  destruct (strip_any white_space (b :: l)) eqn:Es; [done|]. constructor; [|by apply IH].
  assert (b <> 32) by (intros ->; by vm_compute in Es). lia.
Qed.

Lemma request_form peer request : socks5_request peer = Ok request ->
  exists address prt, request = [5; 1; 0] ++ address ++ prt /\ zlen prt = 2 /\ address_field address.
Proof.
  unfold socks5_request. destruct (Endpoint_parse peer) as [er|e]; cbn [rbind]; [done|].
  destruct (has_control _ || has_white_space _) eqn:Ec; [done|]. apply orb_false_iff in Ec as [Hc Hw].
  pose proof (printable _ Hc Hw) as Hp. intros E. apply rbind_ok in E as (address & Ea & [= <-]).
  exists address, (be_bytes 2 (endpoint_port e)). split; [done|]. split; [apply zlen_be_bytes|].
  destruct (parse_ip (host e)) as [[o|o]|] eqn:Ei.
  - injection Ea as <-. apply parse_ip_len in Ei. exists 1, o. split; [done|by left].
  - injection Ea as <-. apply parse_ip_len in Ei. exists 4, o. split; [done|by right; left].
  - set (name := str_bytes (host e)) in *. destruct (bool_decide_reflect (name = [])) as [|Hne]; [done|]. cbn [orb] in Ea.
    destruct (Z.ltb_spec u8_max (zlen name)); [done|]. injection Ea as <-. unfold u8_max in *.
    assert (0 < zlen name) by (destruct name; [done|zl]).
    exists 3, (zlen name :: name). split; [f_equal; f_equal; apply Z.mod_small; zl|]. right; right. split; [done|]. by exists name.
Qed.

Notation id_conn := (fun c : Conn => c).

(** Reading [data] and going on. *)
Lemma steps_read_exact {A} len data (k : bytes -> IO Conn A) i o v : len = zlen data ->
  steps (k data) id_conn id_conn i o v -> steps (io_bind (io_read (read_exact len)) k) id_conn id_conn (data ++ i) o v.
Proof. intros -> Hk. apply (steps_bind _ k _ id_conn _ data i [] o data); [apply steps_exact|done]. Qed.

Lemma waits_read_exact {A} len data (k : bytes -> IO Conn A) i o : len = zlen data ->
  waits (k data) id_conn i o -> waits (io_bind (io_read (read_exact len)) k) id_conn (data ++ i) o.
Proof. intros -> Hk. apply (waits_bind _ k _ id_conn data i [] o data); [apply steps_exact|done]. Qed.

Lemma steps_try {A B} (m : IO Conn (socks A)) (k : A -> IO Conn (socks B)) i1 i2 o1 o2 v w :
  steps m id_conn id_conn i1 o1 (inr v) -> steps (k v) id_conn id_conn i2 o2 w ->
  steps (io_try m k) id_conn id_conn (i1 ++ i2) (o1 ++ o2) w.
Proof. intros Hm Hk. by eapply steps_bind; [exact Hm|]. Qed.

Lemma steps_methods methods : zlen methods <= 16 -> 0 ∈ methods ->
  steps socks5_methods id_conn id_conn ([5; zlen methods] ++ methods) [5; 0] (inr ()).
Proof.
  intros Hl Hm. unfold socks5_methods. apply steps_read_exact; [done|].
  do 2 (eapply steps_then; [by apply steps_ok|]). rewrite (proj2 (Z.ltb_ge 16 _)) by lia. cbn [Z.eqb Pos.eqb negb orb].
  rewrite <- (app_nil_r methods) at 2. apply steps_read_exact; [done|]. rewrite bool_decide_eq_true_2 by done. cbn [negb].
  rewrite <- (app_nil_r [5; 0]). apply (steps_bind _ _ _ id_conn _ [] [] _ [] ()); [by apply steps_write|apply steps_ret].
Qed.

Lemma steps_target address prt : address_field address -> zlen prt = 2 ->
  steps socks5_target id_conn id_conn ([5; 1; 0] ++ address ++ prt) [] (inr ()).
Proof.
  intros (atyp & body & -> & Hb) Hp. unfold socks5_target.
  change ([5; 1; 0] ++ (atyp :: body) ++ prt) with ([5; 1; 0; atyp] ++ body ++ prt). apply steps_read_exact; [done|].
  do 4 (eapply steps_then; [by apply steps_ok|]).
  destruct Hb as [[-> Hb]|[[-> Hb]|[-> (name & -> & Hn & Hok)]]]; cbn [Z.eqb Pos.eqb negb orb].
  - rewrite bool_decide_eq_true_2 by set_solver. cbn [negb].
    apply (steps_try _ _ [] (body ++ prt) [] [] 4); [by apply steps_ok|]. rewrite <- (app_nil_r (body ++ prt)).
    apply steps_read_exact; [zl|]. apply steps_ret.
  - rewrite bool_decide_eq_true_2 by set_solver. cbn [negb].
    apply (steps_try _ _ [] (body ++ prt) [] [] 16); [by apply steps_ok|]. rewrite <- (app_nil_r (body ++ prt)).
    apply steps_read_exact; [zl|]. apply steps_ret.
  - rewrite bool_decide_eq_true_2 by set_solver. cbn [negb].
    change ((zlen name :: name) ++ prt) with ([zlen name] ++ (name ++ prt)).
    apply (steps_try _ _ [zlen name] (name ++ prt) [] [] (zlen name)).
    + unfold target_length. cbn [Z.eqb Pos.eqb]. rewrite <- (app_nil_r [zlen name]). apply steps_read_exact; [done|].
      eapply steps_then; [by apply steps_ok|]. rewrite (proj2 (Z.eqb_neq _ _)) by lia. apply steps_ret.
    + rewrite <- (app_nil_r (name ++ prt)). apply steps_read_exact; [zl|]. rewrite ztake_app by done.
      assert (existsb (fun b => (b <=? 32) || (b =? 127)) name = false) as ->; [|apply steps_ret].
      clear -Hok. induction Hok as [|b l [H1 H2] _ IH]; [done|]. cbn [existsb]. rewrite IH, orb_false_r.
      by rewrite (proj2 (Z.leb_gt _ _)), (proj2 (Z.eqb_neq _ _)).
Qed.

Definition success_reply : bytes := [5; 0; 0; 1; 0; 0; 0; 0; 0; 0].

Lemma server_runs request address prt : request = [5; 1; 0] ++ address ++ prt -> zlen prt = 2 -> address_field address ->
  steps (serve_socks5 (Answered 200)) id_conn id_conn (greeting None ++ request) ([5; 0] ++ success_reply) (inr ()) /\
  waits (serve_socks5 (Answered 200)) id_conn (greeting None) [5; 0] /\
  waits (serve_socks5 (Answered 200)) id_conn [] [].
Proof.
  intros -> Hp Ha. unfold serve_socks5, socks5_handshake.
  assert (steps socks5_methods id_conn id_conn (greeting None) [5; 0] (inr ())) as Hm.
  { change (greeting None) with ([5; zlen [0]] ++ [0]). apply steps_methods; [done|constructor]. }
  split; [|split].
  - set (req := [5; 1; 0] ++ address ++ prt).
    assert (steps (io_try socks5_methods (fun _ => socks5_target)) id_conn id_conn (greeting None ++ req) [5; 0] (inr ())) as Hh.
    { rewrite <- (app_nil_r [5; 0]). apply (steps_try _ _ _ _ _ _ () _ Hm). by apply steps_target. }
    rewrite <- (app_nil_r (greeting None ++ req)). apply (steps_try _ _ _ _ _ _ () _ Hh).
    + rewrite <- (app_nil_r success_reply). apply (steps_bind _ _ _ id_conn _ [] [] _ [] ()); [|apply steps_ret].
      rewrite <- (app_nil_r success_reply). apply (steps_bind _ _ _ id_conn _ [] [] _ [] ()); [by apply steps_write|apply steps_flush].
  - apply waits_here. rewrite <- (app_nil_r (greeting None)), <- (app_nil_r [5; 0]).
    apply (waits_bind _ _ _ _ _ _ _ _ (inr ()) Hm). by apply waits_here, waits_exact.
  - by do 3 apply waits_here; apply waits_exact.
Qed.

(** ** Lemmas: the pool *)

(** How many of the held streams are on connection [i]. *)
Definition on_connection (i : nat) (held : list nat) : Z := zlen (filter (fun j => j = i) held).

Definition listed_count (cs : list PoolConnection) : Z := zlen (filter (fun c => listed c = true) cs).

Section Pool.
Context (max_streams max_connections : Z) (Hstreams : 0 < max_streams) (Hconnections : 0 < max_connections).

Record pool_ok (bundle : list bytes) (r : PoolRun) : Prop := {
  ok_leases : forall i c, connections (pool r) !! i = Some c -> leased c = on_connection i (held r) /\ leased c <= max_streams;
  ok_held : Forall (fun i => (i < length (connections (pool r)))%nat) (held r);
  ok_listed : listed_count (connections (pool r)) <= max_connections;
  ok_tokens : bundle = handed r ++ tokens (pool r);
  ok_spent : zlen (handed r) >= zlen (held r) }.

Lemma on_connection_cons i j l : on_connection i (j :: l) = (if decide (j = i) then 1 else 0) + on_connection i l.
Proof. unfold on_connection. rewrite filter_cons. case_decide; rewrite ?zlen_cons; lia. Qed.

Lemma on_connection_delete i k j l : l !! k = Some j ->
  on_connection i l = (if decide (j = i) then 1 else 0) + on_connection i (delete k l).
Proof.
  revert k. induction l as [|x l IH]; intros [|k] Hk; [done..| |].
  - injection Hk as ->. apply on_connection_cons.
  - specialize (IH k Hk). change (delete (S k) (x :: l)) with (x :: delete k l). rewrite !on_connection_cons. lia.
Qed.

Lemma on_connection_nonneg i l : 0 <= on_connection i l.
Proof. unfold on_connection. zl. Qed.

Lemma on_connection_fresh n l : Forall (fun i => (i < n)%nat) l -> on_connection n l = 0.
Proof. induction 1 as [|i l Hi _ IH]; [done|]. rewrite on_connection_cons, decide_False by lia. lia. Qed.

Lemma listed_map f cs : (forall c, listed (f c) = true -> listed c = true) -> listed_count (map f cs) <= listed_count cs.
Proof.
  intros Hf. induction cs as [|c cs IH]; [reflexivity|]. unfold listed_count in *. cbn [map].
  specialize (Hf c). rewrite !filter_cons. repeat case_decide; rewrite ?zlen_cons; try lia. naive_solver.
Qed.

Lemma listed_alter f i cs : (forall c, listed (f c) = listed c) -> listed_count (alter f i cs) = listed_count cs.
Proof.
  intros Hf. revert i. induction cs as [|c cs IH]; intros i; [done|]. unfold listed_count in *. destruct i as [|i].
  - change (alter f 0%nat (c :: cs)) with (f c :: cs). rewrite !filter_cons, (Hf c). by case_decide; rewrite ?zlen_cons.
  - change (alter f (S i) (c :: cs)) with (c :: alter f i cs). rewrite !filter_cons. specialize (IH i).
    case_decide; rewrite ?zlen_cons; lia.
Qed.

Lemma find_lease_some cs n i : find_lease max_streams cs n = Some i ->
  exists c, (n <= i)%nat /\ cs !! (i - n)%nat = Some c /\ can_lease max_streams c = true.
Proof.
  revert n. induction cs as [|c cs IH]; [done|]. intros n. cbn [find_lease]. destruct (can_lease max_streams c) eqn:E.
  - intros [= <-]. exists c. by rewrite Nat.sub_diag.
  - intros (c' & Hle & Hc & He)%IH. exists c'. split; [lia|]. split; [|done].
    by replace (i - n)%nat with (S (i - S n)) by lia.
Qed.

(** A change of the connections that keeps their leases keeps the invariant. *)
Lemma pool_ok_connections bundle r cs : pool_ok bundle r ->
  (forall i c, cs !! i = Some c -> exists c', connections (pool r) !! i = Some c' /\ leased c = leased c') ->
  length cs = length (connections (pool r)) -> listed_count cs <= listed_count (connections (pool r)) ->
  pool_ok bundle (mkPoolRun (mkHttp2Pool (tokens (pool r)) cs) (held r) (handed r)).
Proof.
  intros [H1 H2 H3 H4 H5] Hc Hl Hn. constructor; cbn [pool connections tokens held handed]; [|by rewrite Hl|lia|done..].
  intros i c (c' & Hi & ->)%Hc. by apply H1.
Qed.

Lemma pool_ok_retain bundle r : pool_ok bundle r ->
  pool_ok bundle (mkPoolRun (mkHttp2Pool (tokens (pool r)) (retain_usable (connections (pool r)))) (held r) (handed r)).
Proof.
  intros Hok. apply pool_ok_connections; [done| |apply length_map|].
  - intros i c. unfold retain_usable. rewrite list_lookup_fmap, fmap_Some. intros (c' & Hc & ->). by exists c'.
  - apply listed_map. cbn [listed]. by intros c [? _]%andb_prop.
Qed.

Lemma pool_step_ok bundle r e : pool_ok bundle r -> pool_ok bundle (pool_step max_streams max_connections r e).
Proof.
  intros Hok. destruct e as [connected|k|i]; cbn [pool_step].
  - unfold acquire. destruct (tokens (pool r)) as [|token rest] eqn:Et; [by destruct r|].
    pose proof (pool_ok_retain _ _ Hok) as Hr. set (cs := retain_usable _) in *. rewrite Et in Hr.
    destruct Hr as [H1 H2 H3 H4 H5]. cbn [pool connections tokens held handed] in *.
    destruct (find_lease max_streams cs 0) as [i|] eqn:Ef.
    + apply find_lease_some in Ef as (c & _ & Hc & Hl). rewrite Nat.sub_0_r in Hc. unfold can_lease in Hl. bool_prop.
      constructor; cbn [pool connections tokens held handed].
      * intros j d. destruct (decide (j = i)) as [->|Hn].
        -- rewrite list_lookup_alter_eq, Hc. intros [= <-]. cbn [leased lease]. destruct (H1 _ _ Hc). rewrite on_connection_cons, decide_True by done. lia.
        -- rewrite list_lookup_alter_ne by done. intros Hd. rewrite on_connection_cons, decide_False by done. by apply H1.
      * rewrite length_alter. constructor; [by apply lookup_lt_Some in Hc|done].
      * by rewrite listed_alter.
      * rewrite H4, <- app_assoc. done.
      * zl.
    + case_if; [by constructor|]. destruct connected; [|by constructor].
      constructor; cbn [pool connections tokens held handed].
      * intros j d Hj. apply lookup_app_Some in Hj as [Hj|[Hl Hj]].
        -- pose proof (lookup_lt_Some _ _ _ Hj). rewrite on_connection_cons, decide_False by lia. by apply H1.
        -- apply list_lookup_singleton_Some in Hj as [Hz <-]. assert (j = length cs) as -> by lia.
           cbn [leased]. rewrite on_connection_cons, decide_True, on_connection_fresh by done. lia.
      * rewrite length_app. constructor; [cbn; lia|]. eapply Forall_impl; [exact H2|]. intros; cbn in *; lia.
      * unfold listed_count in *. bool_prop. rewrite filter_app, zlen_app, filter_cons, decide_True by done. change (zlen (_ :: filter _ [])) with 1. lia.
      * rewrite H4, <- app_assoc. done.
      * zl.
  - destruct (held r !! k) as [i|] eqn:Ek; [|done]. destruct Hok as [H1 H2 H3 H4 H5].
    constructor; cbn [pool connections tokens held handed]; [|..].
    + intros j d. pose proof (on_connection_delete j _ _ _ Ek) as Hd. destruct (decide (j = i)) as [->|Hn].
      * rewrite list_lookup_alter_eq. destruct (connections (pool r) !! i) as [c|] eqn:Hc; [|done]. intros [= <-].
        destruct (H1 _ _ Hc). rewrite decide_True in Hd by done. cbn [leased return_lease]. lia.
      * rewrite list_lookup_alter_ne by done. rewrite decide_False in Hd by done. intros Hj. destruct (H1 _ _ Hj). lia.
    + rewrite length_alter. by apply Forall_delete.
    + by rewrite listed_alter.
    + done.
    + pose proof (length_delete (held r) k ltac:(by exists i)). unfold zlen in *. lia.
  - apply pool_ok_connections; [done| |apply length_alter|by rewrite listed_alter].
    intros j d. destruct (decide (j = i)) as [->|Hn].
    + rewrite list_lookup_alter_eq. destruct (connections (pool r) !! i) as [c|]; [|done]. intros [= <-]. by exists c.
    + rewrite list_lookup_alter_ne by done. intros Hd. by exists d.
Qed.

Lemma pool_run_ok bundle es r : pool_ok bundle r -> pool_ok bundle (pool_run max_streams max_connections r es).
Proof. revert r. induction es as [|e es IH]; [done|]. intros r Hr. by apply IH, pool_step_ok. Qed.

Lemma fresh_pool_ok bundle : pool_ok bundle (fresh_pool bundle).
Proof. constructor; cbn; [done|by apply Forall_nil|change (listed_count []) with 0; lia|done|done]. Qed.
End Pool.

(** ** Theorems *)

(** C37: the transport's SOCKS5 client and the edge's SOCKS5 server complete their
    exchange, whatever the segmentation of the messages: for every peer the
    client can name, the server reads the greeting and the request to their last
    byte and accepts them, its replies are the ones the client waits for, and
    both return success; after each prefix of the exchange the side that has
    nothing more to read is waiting for the other. *)
Theorem socks_through_edge cancellation peer request : socks5_request peer = Ok request ->
  let client := socks5_connect_authenticated_with_cancel cancellation peer None in
  let server := on_fst (serve_socks5 (Answered 200)) : IO (Conn * unit) (socks unit) in
  let replies1 := dialogue_round client quiet server () [] in
  let replies2 := dialogue_round client quiet server () replies1 in
  replies1 = [5; 0] /\ replies2 = [5; 0] ++ success_reply /\
  dialogue_round client quiet server () replies2 = replies2 /\
  outcome_on client quiet replies2 = (Some (Ok ()), greeting None ++ request) /\
  outcome_on server () (greeting None ++ request) = (Some (Ok (inr ())), replies2) /\
  steps client (beside quiet) (beside quiet) replies2 (greeting None ++ request) () /\
  steps server (beside ()) (beside ()) (greeting None ++ request) replies2 (inr ()).
Proof.
  intros Hr client server replies1 replies2.
  destruct (request_form _ _ Hr) as (address & prt & Ereq & Hp & Ha).
  destruct (server_runs request address prt Ereq Hp Ha) as (Ss & Sw & _).
  destruct (socks_client_runs cancellation peer None request [1; 0; 0; 0; 0] [0; 0]) as (Cs & Cw1 & Cw2 & _); [done|done|by exists 1, [0; 0; 0; 0]; auto|done|].
  pose proof (outcome_steps _ _ _ _ _ _ Cs) as Oc. pose proof (outcome_steps _ _ _ _ _ _ (steps_fst _ () _ _ _ Ss)) as Os.
  pose proof (outcome_waits _ _ _ _ Cw1) as Oc1. pose proof (outcome_waits _ _ _ _ Cw2) as Oc2.
  pose proof (outcome_waits _ _ _ _ (waits_fst _ () _ _ Sw)) as Os1.
  change (greeting None ++ auth_request None ++ request) with (greeting None ++ request) in *.
  assert (replies1 = [5; 0]) as E1.
  { unfold replies1, dialogue_round, client, server. rewrite Oc1. cbn [snd]. by rewrite Os1. }
  assert (replies2 = [5; 0] ++ success_reply) as E2.
  { unfold replies2, dialogue_round. rewrite E1. unfold client. change [5; 0] with ([5; method_of None] ++ auth_reply None) at 1.
    rewrite Oc2. cbn [snd]. unfold server. by rewrite Os. }
  rewrite E2. split_and!; [done|done| |exact Oc|exact Os|exact Cs|exact (steps_fst _ () _ _ _ Ss)].
  unfold dialogue_round, client. change ([5; 0] ++ success_reply) with (accepting None [1; 0; 0; 0; 0] [0; 0]) at 1.
  rewrite Oc. cbn [snd]. unfold server. by rewrite Os.
Qed.

(** C38: whatever the sequence of acquisitions, ends of streams and ends of
    connections, a pool of HTTP/2 connections never leases more streams of a
    connection than its limit, accounts exactly for the streams that are open,
    never lists more connections than its limit, and hands out each capability
    token of its bundle at most once and in order: what it handed out and what
    it still holds are the bundle. *)
Theorem pool_keeps_limits max_streams max_connections bundle es :
  0 < max_streams -> 0 < max_connections ->
  let r := pool_run max_streams max_connections (fresh_pool bundle) es in
  (forall i c, connections (pool r) !! i = Some c -> leased c = on_connection i (held r) /\ 0 <= leased c <= max_streams) /\
  listed_count (connections (pool r)) <= max_connections /\
  bundle = handed r ++ tokens (pool r) /\ zlen (held r) <= zlen (handed r) <= zlen bundle.
Proof.
  intros Hs Hc r. assert (pool_ok max_streams max_connections bundle r) as [H1 H2 H3 H4 H5].
  { apply pool_run_ok; [lia|by apply fresh_pool_ok]. }
  split; [|split_and!; [done|done|lia|rewrite H4; zl]].
  intros i c Hi. destruct (H1 _ _ Hi). pose proof (on_connection_nonneg i (held r)). split; [done|lia].
Qed.

(** What an acquisition returns: a lease, on a usable connection that the pool
    lists, with the next token; a failure for lack of a token only when the
    bundle is spent; and otherwise, with the tokens untouched, only when no
    listed connection has a free slot. *)
Theorem acquire_outcome max_streams max_connections connected p :
  let '(a, p') := acquire max_streams max_connections connected p in
  match a with
  | Leased i token => tokens p = token :: tokens p' /\
      exists c, connections p' !! i = Some c /\ usable c = true /\ listed c = true
  | Exhausted => tokens p = []
  | MustWait => tokens p' = tokens p /\ find_lease max_streams (connections p') 0 = None /\
      max_connections <= listed_count (connections p')
  | ConnectFailed => tokens p' = tokens p /\ find_lease max_streams (connections p') 0 = None /\ connected = false
  end.
Proof.
  unfold acquire. destruct (tokens p) as [|token rest] eqn:Et; [done|].
  set (cs := retain_usable _). destruct (find_lease max_streams cs 0) as [i|] eqn:Ef.
  - split; [done|]. apply find_lease_some in Ef as (c & _ & Hc & Hl). rewrite Nat.sub_0_r in Hc. unfold can_lease in Hl. bool_prop.
    exists (lease c). cbn [connections]. by rewrite list_lookup_alter_eq, Hc.
  - change (zlen (filter _ cs)) with (listed_count cs). destruct (Z.leb_spec max_connections (listed_count cs)); [by split_and!|].
    destruct connected; [|by split_and!].
    split; [done|]. exists (mkPoolConnection 1 true true). split_and!; [|done|done].
    cbn [connections]. rewrite lookup_app_r, Nat.sub_diag by done. done.
Qed.

(** ** Witnesses *)

Module Witnesses.

Definition request : bytes := Eval vm_compute in match socks5_request "peer.example:443" with Ok r => r | _ => [] end.

Lemma socks_through_edge_witness :
  socks5_request "peer.example:443" = Ok request /\
  dialogue_round (socks5_connect_authenticated_with_cancel true "peer.example:443" None) quiet
    (on_fst (serve_socks5 (Answered 200)) : IO (Conn * unit) (socks unit)) () [] = [5; 0].
Proof.
  split; [vm_compute; reflexivity|].
  exact (proj1 (socks_through_edge true "peer.example:443" request ltac:(vm_compute; reflexivity))).
Defined.

(** Two streams on a connection that then fails, and the wait they cause. *)
Definition events : list PoolEvent :=
  [Acquire true; Acquire false; Close 0; Acquire true; Release 2; Acquire false; Acquire true; Release 0; Acquire true].
Definition bundle : list bytes := [[65]; [66]; [67]; [68]; [69]].

Lemma pool_keeps_limits_witness :
  let r := pool_run 2 1 (fresh_pool bundle) events in
  ((forall i c, connections (pool r) !! i = Some c -> leased c = on_connection i (held r) /\ 0 <= leased c <= 2) /\
   listed_count (connections (pool r)) <= 1 /\
   bundle = handed r ++ tokens (pool r) /\ zlen (held r) <= zlen (handed r) <= zlen bundle) /\
  handed r = [[65]; [66]; [67]; [68]; [69]] /\ held r = [1; 1; 0]%nat.
Proof. split; [apply (pool_keeps_limits 2 1 bundle events); lia|vm_compute; auto]. Defined.
End Witnesses.
