(* ===== verification/Relay.v ===== *)
(** What an edge does once a stream is admitted: bytes are copied between the
    local socket, the HTTP/2 stream and the backend (shph-edge/src/relay.rs and
    the tasks of shph-edge/src/carrier.rs).  A copying loop is a state machine
    whose steps are the wake-ups of its future; a relay is several of them
    interleaved with the clock and the cancellation token.  Sockets, the channel
    and HTTP/2 are the inputs of those steps. *)
From S2P Require Import Prelude Error.

Inductive RelayError :=
  | BackendTimeout | Backend (e : string) | IdleTimeout | Cancelled | LimitExceeded | RelayIo (e : string) | InvalidTimeout.

Definition COPY_BUFFER_BYTES : Z := 16 * 1024.

(** What connecting to the backend meets. *)
Inductive ConnectOutcome := ConnectTimesOut | ConnectFails (e : string) | Connects.

Definition connect_backend (timeout_duration : Z) (outcome : ConnectOutcome) : RelayError + unit :=
  if timeout_duration =? 0 then inl BackendTimeout
  else match outcome with ConnectTimesOut => inl BackendTimeout | ConnectFails e => inl (Backend e) | Connects => inr tt end.

(** ** A copying loop *)

(** What a loop copies from and to: how much it may copy, how much one read
    gives at most ([None] for the frames of a body), whether its sink is a
    channel of whole frames, and whether it shuts the sink down at the end. *)
Record Copying := mkCopying { c_limit : option Z; c_chunk : option Z; c_channel : bool; c_shutdown : bool }.

Inductive Phase := Reading | Writing (rest : bytes) | ShuttingDown | Done (r : RelayError + Z).

(** The future of the loop, with what it has read and written.  [started] is
    when the operation it waits for began. *)
Record Copy := mkCopy {
  phase : Phase; total : Z; started : Z;
  read_log : bytes; write_log : bytes; at_end : bool; closed : bool }.

Definition copy_new (now : Z) : Copy := mkCopy Reading 0 now [] [] false false.

(** What the future finds when it is woken. *)
Inductive Poll :=
  | TokenSeen | TimerFired
  | ReadReady (data : bytes) | ReadEnd | ReadFails (e : string)
  | WriteTakes (n : Z) | WriteFails (e : string)
  | ShutDown | ShutDownFails (e : string).

Definition finish (r : RelayError + Z) (c : Copy) : Copy :=
  mkCopy (Done r) (total c) (started c) (read_log c) (write_log c) (at_end c) (closed c).

Definition go (p : Phase) (now : Z) (c : Copy) : Copy :=
  mkCopy p (total c) now (read_log c) (write_log c) (at_end c) (closed c).

Definition add_bounded_stream_bytes (total bytes limit : Z) : RelayError + Z :=
  match checked_add u64_max total bytes with
  | None => inl LimitExceeded
  | Some updated => if limit <? updated then inl LimitExceeded else inr updated
  end.

(** The bytes of a read are counted before they are written. *)
Definition count (k : Copying) (data : bytes) (now : Z) (c : Copy) : Copy :=
  let c := mkCopy (phase c) (total c) (started c) (read_log c ++ data) (write_log c) (at_end c) (closed c) in
  match (match c_limit k with None => inr (total c) | Some limit => add_bounded_stream_bytes (total c) (zlen data) limit end) with
  | inl e => finish (inl e) c
  | inr total =>
      mkCopy (if bool_decide (data = []) then Reading else Writing data) total now
        (read_log c) (write_log c) (at_end c) (closed c)
  end.

Definition read_fits (k : Copying) (data : bytes) : bool :=
  match c_chunk k with None => true | Some m => in_range 1 m (zlen data) end.

(** The read has ended: the sink is shut down, or the loop is left. *)
Definition end_read (k : Copying) (now : Z) (c : Copy) : Copy :=
  let c := mkCopy (phase c) (total c) (started c) (read_log c) (write_log c) true (closed c) in
  if c_shutdown k then go ShuttingDown now c else finish (inr (total c)) c.

(** A write takes some bytes; one that takes none is an error of [write_all]. *)
Definition take_bytes (n : Z) (rest : bytes) (now : Z) (c : Copy) : Copy :=
  if n =? 0 then finish (inl (RelayIo "write zero")) c
  else
    let c := mkCopy (phase c) (total c) (started c) (read_log c) (write_log c ++ ztake n rest) (at_end c) (closed c) in
    if n =? zlen rest then go Reading now c else go (Writing (zdrop n rest)) (started c) c.

Definition write_fits (k : Copying) (n : Z) (rest : bytes) : bool :=
  if c_channel k then n =? zlen rest else in_range 0 (zlen rest) n.

Definition copy_poll (k : Copying) (idle now : Z) (cancelled : bool) (p : Poll) (c : Copy) : option Copy :=
  match phase c, p with
  | Done _, _ => None
  | _, TokenSeen => if cancelled then Some (finish (inl Cancelled) c) else None
  | _, TimerFired => if started c + idle <=? now then Some (finish (inl IdleTimeout) c) else None
  | Reading, ReadReady data => if read_fits k data then Some (count k data now c) else None
  | Reading, ReadEnd => Some (end_read k now c)
  | Reading, ReadFails e => Some (finish (inl (RelayIo e)) c)
  | Writing rest, WriteTakes n => if write_fits k n rest then Some (take_bytes n rest now c) else None
  | Writing _, WriteFails e => Some (finish (inl (if c_channel k then Cancelled else RelayIo e)) c)
  | ShuttingDown, ShutDown =>
      Some (mkCopy (Done (inr (total c))) (total c) (started c) (read_log c) (write_log c) (at_end c) true)
  | ShuttingDown, ShutDownFails e => Some (finish (inl (RelayIo e)) c)
  | _, _ => None
  end.

Definition finished (c : Copy) : bool := match phase c with Done _ => true | _ => false end.

(** ** A pipe between two sockets *)

(** [forward_with_cancel] *)
Definition forward (max_bytes : Z) : Copying := mkCopying (Some max_bytes) (Some COPY_BUFFER_BYTES) false true.

Inductive Direction := LeftToRight | RightToLeft.
#[export] Instance direction_dec : EqDecision Direction.
Proof. solve_decision. Defined.

(** [p_first] is the direction that finished first, [p_outcome] what the pipe
    returned. *)
Record Pipe := mkPipe {
  p_max : Z; p_idle : Z; p_clock : Z; p_cancelled : bool;
  left_to_right : Copy; right_to_left : Copy;
  p_first : option Direction; p_outcome : option (RelayError + Z * Z) }.

Definition pipe_opaque_with_cancel (max_bytes idle_timeout now : Z) (cancelled : bool) : Pipe :=
  mkPipe max_bytes idle_timeout now cancelled (copy_new now) (copy_new now) None
    (if idle_timeout =? 0 then Some (inl InvalidTimeout) else None).

Inductive PipeEvent := On (d : Direction) (p : Poll) | Tick (elapsed : Z) | Cancel.

Definition copy_of (d : Direction) (s : Pipe) : Copy :=
  match d with LeftToRight => left_to_right s | RightToLeft => right_to_left s end.
Definition other (d : Direction) : Direction := match d with LeftToRight => RightToLeft | RightToLeft => LeftToRight end.

Definition set_copy (d : Direction) (c : Copy) (s : Pipe) : Pipe :=
  match d with
  | LeftToRight => mkPipe (p_max s) (p_idle s) (p_clock s) (p_cancelled s) c (right_to_left s) (p_first s) (p_outcome s)
  | RightToLeft => mkPipe (p_max s) (p_idle s) (p_clock s) (p_cancelled s) (left_to_right s) c (p_first s) (p_outcome s)
  end.

Definition result_of (c : Copy) : option (RelayError + Z) := match phase c with Done r => Some r | _ => None end.

Definition settle (cancelled : bool) (first : option Direction) (outcome : option (RelayError + Z * Z)) (s : Pipe) : Pipe :=
  mkPipe (p_max s) (p_idle s) (p_clock s) cancelled (left_to_right s) (right_to_left s) first outcome.

(** [finish_first_direction]: the first direction that ends well lets the other
    one go on; the first that fails cancels it. *)
Definition finish_first_direction (d : Direction) (s : Pipe) : Pipe :=
  match result_of (copy_of d s) with
  | None => s
  | Some second =>
      match p_first s with
      | None => settle (match second with inr _ => p_cancelled s | inl _ => true end) (Some d) None s
      | Some first =>
          settle (p_cancelled s) (Some first)
            (match result_of (copy_of first s), second with
             | Some (inl e), _ => Some (inl e)
             | Some (inr _), inl e => Some (inl e)
             | Some (inr first_total), inr second_total =>
                 Some (inr (match first with LeftToRight => (first_total, second_total) | RightToLeft => (second_total, first_total) end))
             | None, _ => None
             end) s
      end
  end.

Definition pipe_step (e : PipeEvent) (s : Pipe) : option Pipe :=
  match p_outcome s with
  | Some _ => None
  | None =>
      match e with
      | Tick elapsed =>
          if 0 <=? elapsed
          then Some (mkPipe (p_max s) (p_idle s) (p_clock s + elapsed) (p_cancelled s) (left_to_right s) (right_to_left s) (p_first s) None)
          else None
      | Cancel => Some (mkPipe (p_max s) (p_idle s) (p_clock s) true (left_to_right s) (right_to_left s) (p_first s) None)
      | On d p =>
          c ← copy_poll (forward (p_max s)) (p_idle s) (p_clock s) (p_cancelled s) p (copy_of d s);
          Some (finish_first_direction d (set_copy d c s))
      end
  end.

Fixpoint pipe_run (es : list PipeEvent) (s : Pipe) : option Pipe :=
  match es with [] => Some s | e :: es => s ← pipe_step e s; pipe_run es s end.

(** ** Lemmas: a copying loop *)

(** What a loop has read is what it has written and what it still holds. *)
Record copy_ok (k : Copying) (idle now : Z) (c : Copy) : Prop := {
  ck_held : exists held, read_log c = write_log c ++ held /\ (forall m, c_chunk k = Some m -> zlen held <= m) /\
    match phase c with Writing rest => held = rest /\ rest <> [] | Done (inl _) => True | _ => held = [] end;
  ck_limit : forall m, c_limit k = Some m -> zlen (write_log c) <= m /\
    match phase c with Done (inl _) => True | _ => total c = zlen (read_log c) /\ total c <= m end;
  ck_end : match phase c with ShuttingDown => at_end c = true /\ c_shutdown k = true | Done (inr _) => at_end c = true | Done (inl _) => True | _ => at_end c = false end;
  ck_closed : closed c = match phase c with Done (inr _) => c_shutdown k | _ => false end;
  ck_total : forall t, phase c = Done (inr t) -> t = total c;
  ck_started : started c <= now;
  ck_cause : forall e, phase c = Done (inl e) ->
    (e = LimitExceeded -> exists m, c_limit k = Some m /\ (m <= u64_max -> m < zlen (read_log c))) /\
    (e = IdleTimeout -> started c + idle <= now) }.

Lemma copy_new_ok k idle now : (forall m, c_limit k = Some m -> 0 <= m) -> (forall m, c_chunk k = Some m -> 0 <= m) ->
  copy_ok k idle now (copy_new now).
Proof.
  intros Hl Hc. constructor; cbn; try done.
  - exists []. split_and!; [done| |done]. intros m Hm. rewrite zlen_nil. by apply Hc.
  - intros m Hm. apply Hl in Hm. rewrite zlen_nil. lia.
Qed.

Lemma copy_ok_later k idle now now' c : now <= now' -> copy_ok k idle now c -> copy_ok k idle now' c.
Proof.
  intros Hn [H1 H2 H3 H4 H5 H6 H7]. constructor; try done; [lia|]. intros e He. destruct (H7 e He) as [Ha Hb]. split; [done|]. intros Ee. specialize (Hb Ee). lia.
Qed.

(** An error ends the loop with whatever it still holds. *)
Lemma finish_error_ok k idle now c e : copy_ok k idle now c -> finished c = false ->
  (e = LimitExceeded -> exists m, c_limit k = Some m /\ (m <= u64_max -> m < zlen (read_log c))) ->
  (e = IdleTimeout -> started c + idle <= now) -> copy_ok k idle now (finish (inl e) c).
Proof.
  intros [(held & Hh & Hc & Hp) H2 H3 H4 H5 H6 H7] Hf He Ht. constructor; cbn; try done.
  - exists held. split_and!; done.
  - intros m Hm. split; [|done]. by apply H2.
  - rewrite H4. unfold finished in Hf. by destruct (phase c).
  - intros e' [= <-]. done.
Qed.

(** After a read that is counted the loop writes it, unless it is empty. *)
Lemma counted_ok k idle now c data total' : copy_ok k idle now c -> phase c = Reading -> read_fits k data = true ->
  (forall m, c_limit k = Some m -> total' = total c + zlen data /\ total' <= m) ->
  copy_ok k idle now (mkCopy (if bool_decide (data = []) then Reading else Writing data) total' now
    (read_log c ++ data) (write_log c) (at_end c) (closed c)).
Proof.
  intros [(held & Hh & Hc & Hp) H2 H3 H4 H5 H6 H7] Hr Hf Ht. rewrite Hr in *. subst held. rewrite app_nil_r in Hh.
  assert (forall m, c_chunk k = Some m -> zlen data <= m) as Hd.
  { intros m Hm. unfold read_fits in Hf. rewrite Hm in Hf. unfold in_range in Hf. bool_prop. lia. }
  assert (forall m, c_limit k = Some m -> total' = zlen (read_log c ++ data) /\ total' <= m) as Hz.
  { intros m Hm. destruct (Ht m Hm). destruct (H2 m Hm) as [_ [E _]]. split; [zl|done]. }
  set (q := if bool_decide (data = []) then Reading else Writing data).
  assert (q = Reading /\ data = [] \/ q = Writing data /\ data <> []) as [[-> Hq]|[-> Hq]] by (unfold q; case_bool_decide; auto);
    (constructor; cbn; [| |done|done|done|lia|done]).
  - exists data. by rewrite Hh.
  - intros m Hm. split; [by apply H2|by apply Hz].
  - exists data. by rewrite Hh.
  - intros m Hm. split; [by apply H2|by apply Hz].
Qed.

Lemma limit_reached_ok k idle now c data m : copy_ok k idle now c -> phase c = Reading -> read_fits k data = true -> c_limit k = Some m ->
  (m <= u64_max -> m < total c + zlen data) ->
  copy_ok k idle now (finish (inl LimitExceeded) (mkCopy (phase c) (total c) (started c) (read_log c ++ data) (write_log c) (at_end c) (closed c))).
Proof.
  intros [(held & Hh & Hc & Hp) H2 H3 H4 H5 H6 H7] Hr Hf Hm Ht. rewrite Hr in *. subst held. rewrite app_nil_r in Hh.
  constructor; cbn; try done.
  - exists data. rewrite Hh. split_and!; [done| |done]. intros m' Hm'. unfold read_fits in Hf. rewrite Hm' in Hf. unfold in_range in Hf. bool_prop. lia.
  - intros m' Hm'. split; [by apply H2|done].
  - intros e [= <-]. split; [|done]. intros _. exists m. split; [done|]. destruct (H2 m Hm) as [_ [E _]]. rewrite zlen_app, <- E. done.
Qed.

Lemma count_ok k idle now c data : copy_ok k idle now c -> phase c = Reading -> read_fits k data = true ->
  copy_ok k idle now (count k data now c).
Proof.
  intros Hc Hr Hf. unfold count. cbn [phase total started read_log write_log at_end closed]. destruct (c_limit k) as [limit|] eqn:Ek.
  - unfold add_bounded_stream_bytes, checked_add. destruct (Z.leb_spec (total c + zlen data) u64_max).
    + destruct (Z.ltb_spec limit (total c + zlen data)).
      * apply (limit_reached_ok k idle now c data limit); try done.
      * apply counted_ok; try done. rewrite Ek. intros m [= <-]. done.
    + apply (limit_reached_ok k idle now c data limit); try done. lia.
  - apply counted_ok; try done. by rewrite Ek.
Qed.

Lemma take_bytes_ok k idle now c n rest : copy_ok k idle now c -> phase c = Writing rest -> write_fits k n rest = true ->
  copy_ok k idle now (take_bytes n rest now c).
Proof.
  intros Hc Hp Hf. pose proof Hc as [(held & Hh & Hm & Hx) H2 H3 H4 H5 H6 H7]. rewrite Hp in *. destruct Hx as [-> Hne].
  assert (0 <= n <= zlen rest) as Hn. { unfold write_fits, in_range in Hf. pose proof (zlen_nonneg rest). destruct (c_channel k); bool_prop; lia. }
  unfold take_bytes. case_if.
  - apply finish_error_ok; try done. unfold finished. by rewrite Hp.
  - bool_prop. assert (write_log c ++ rest = (write_log c ++ ztake n rest) ++ zdrop n rest) as Es.
    { by rewrite <- app_assoc, ztake_zdrop. }
    assert (zlen (read_log c) = zlen (write_log c) + zlen rest) as Ez by (rewrite Hh; zl).
    assert (zlen (ztake n rest) = n) as Et by (rewrite zlen_ztake; lia).
    assert (zlen (zdrop n rest) = zlen rest - n) as Ed by (rewrite zlen_zdrop; lia).
    case_if; bool_prop; constructor; cbn; try done.
    + exists []. rewrite app_nil_r. split_and!; [|intros m Hk; specialize (Hm m Hk); rewrite zlen_nil; pose proof (zlen_nonneg rest); lia|done].
      rewrite Hh. f_equal. symmetry. apply ztake_all. lia.
    + intros m Hk. destruct (H2 m Hk) as [Hw [Ht Hl]]. rewrite zlen_app, Et. split; [lia|done].
    + exists (zdrop n rest). rewrite <- Es. split_and!; [done|intros m Hk; specialize (Hm m Hk); lia|done|]. intros Hd. rewrite Hd, zlen_nil in Ed. lia.
    + intros m Hk. destruct (H2 m Hk) as [Hw [Ht Hl]]. rewrite zlen_app, Et. split; [lia|done].
Qed.

Lemma end_read_ok k idle now c : copy_ok k idle now c -> phase c = Reading -> copy_ok k idle now (end_read k now c).
Proof.
  intros [(held & Hh & Hc & Hp) H2 H3 H4 H5 H6 H7] Hr. rewrite Hr in *. subst held. unfold end_read.
  destruct (c_shutdown k) eqn:Es; constructor; cbn; try done; try (by exists []); try lia; try (by rewrite H4).
  all: by intros t [= <-].
Qed.

Lemma copy_poll_ok k idle now cancelled p c c' : copy_ok k idle now c -> copy_poll k idle now cancelled p c = Some c' -> copy_ok k idle now c'.
Proof.
  intros Hc. unfold copy_poll. destruct (phase c) as [|rest| |r] eqn:Ep; [| | |done];
    assert (finished c = false) as Hf by (unfold finished; by rewrite Ep);
    destruct p as [| |data| |e|n|e| |e]; try done; try case_if; try done; intros E; injection E as <-.
  all: try (apply finish_error_ok; [done|done|try done; by destruct (c_channel k)|try done; try (by destruct (c_channel k)); bool_prop; intros _; lia]).
  - by apply count_ok.
  - by apply end_read_ok.
  - by apply take_bytes_ok.
  - destruct Hc as [(held & Hh & Hc & Hp) H2 H3 H4 H5 H6 H7]. rewrite Ep in *. constructor; cbn; try done.
    + by exists held.
    + by destruct H3.
    + by destruct H3.
    + by intros t [= <-].
Qed.

(** ** Lemmas: a pipe *)

Lemma finished_result c : finished c = true <-> exists r, result_of c = Some r.
Proof. unfold finished, result_of. destruct (phase c); split; try done; try (by intros [r ?]); intros _; eauto. Qed.

Lemma finished_not c : finished c = false <-> result_of c = None.
Proof. unfold finished, result_of. by destruct (phase c). Qed.

Lemma copy_of_same d c s : copy_of d (set_copy d c s) = c.
Proof. by destruct d. Qed.

Lemma copy_of_other d c s : copy_of (other d) (set_copy d c s) = copy_of (other d) s.
Proof. by destruct d. Qed.

Lemma copy_of_settle d x f o s : copy_of d (settle x f o s) = copy_of d s.
Proof. by destruct d. Qed.

Lemma copy_of_set_any d d' c s : copy_of d' (set_copy d c s) = c \/ copy_of d' (set_copy d c s) = copy_of d' s.
Proof. destruct d, d'; auto. Qed.

Lemma set_copy_rest d c s : p_clock (set_copy d c s) = p_clock s /\ p_first (set_copy d c s) = p_first s /\
  p_cancelled (set_copy d c s) = p_cancelled s /\ p_max (set_copy d c s) = p_max s /\ p_idle (set_copy d c s) = p_idle s /\
  p_outcome (set_copy d c s) = p_outcome s.
Proof. by destruct d. Qed.

Lemma direction_cases d d' : d' = d \/ d' = other d.
Proof. destruct d, d'; auto. Qed.

(** What a pipe knows while it runs and when it has returned. *)
Record pipe_ok (m idle : Z) (s : Pipe) : Prop := {
  pk_params : p_max s = m /\ p_idle s = idle;
  pk_copies : forall d, copy_ok (forward m) idle (p_clock s) (copy_of d s);
  pk_first : forall d, p_first s = Some d -> finished (copy_of d s) = true;
  pk_second : p_outcome s = None -> forall d, p_first s <> Some d -> finished (copy_of d s) = false;
  pk_token : forall d e, p_first s = Some d -> result_of (copy_of d s) = Some (inl e) -> p_cancelled s = true;
  pk_outcome : match p_outcome s with
    | None => True
    | Some (inr (a, b)) => result_of (left_to_right s) = Some (inr a) /\ result_of (right_to_left s) = Some (inr b)
    | Some (inl e) => exists d d', result_of (copy_of d s) = Some (inl e) /\ result_of (copy_of (other d) s) = Some d'
    end }.

Lemma pipe_start_ok m idle now cancelled : 0 <= m -> 0 < idle -> pipe_ok m idle (pipe_opaque_with_cancel m idle now cancelled).
Proof.
  intros Hm Hi. unfold pipe_opaque_with_cancel. destruct (Z.eqb_spec idle 0); [lia|]. constructor; cbn; try done.
  - intros d. assert (copy_ok (forward m) idle now (copy_new now)) by (apply copy_new_ok; [by intros m' [= <-]|by intros m' [= <-]]). by destruct d.
  - intros _ d _. by destruct d.
Qed.

Lemma copy_poll_unfinished k idle now x p c c' : copy_poll k idle now x p c = Some c' -> finished c = false.
Proof. unfold copy_poll, finished. by destruct (phase c). Qed.

(** The step of a future that stays unfinished, and of one that finishes. *)
Lemma settle_ok m idle s d c p : pipe_ok m idle s -> p_outcome s = None ->
  copy_poll (forward m) idle (p_clock s) (p_cancelled s) p (copy_of d s) = Some c ->
  pipe_ok m idle (finish_first_direction d (set_copy d c s)).
Proof.
  intros [[Em Ei] Hc Hf Hs Ht Ho] En Ep. pose proof (copy_poll_ok _ _ _ _ _ _ _ (Hc d) Ep) as Hc'.
  apply copy_poll_unfinished in Ep as Hu. assert (p_first s <> Some d) as Hd by (intros E; by rewrite (Hf d E) in Hu).
  destruct (set_copy_rest d c s) as (E1 & E2 & E3 & E4 & E5 & E6).
  assert (forall d', copy_ok (forward m) idle (p_clock s) (copy_of d' (set_copy d c s))) as Hall.
  { intros d'. destruct (copy_of_set_any d d' c s) as [->| ->]; [done|apply Hc]. }
  assert (forall d', Some d' <> Some d -> finished (copy_of d' (set_copy d c s)) = finished (copy_of d' s)) as Hoth.
  { intros d' Hd'. destruct (direction_cases d d') as [->| ->]; [done|]. by rewrite copy_of_other. }
  unfold finish_first_direction. rewrite E2, E3, copy_of_same. destruct (result_of c) as [r|] eqn:Er.
  - destruct (p_first s) as [first|] eqn:Efirst.
    + destruct (direction_cases d first) as [->| ->]; [done|]. rewrite copy_of_other. pose proof (Hf _ eq_refl) as Hfin.
      apply finished_result in Hfin as [r1 Hr1]. rewrite Hr1.
      constructor; intros; rewrite ?copy_of_settle in *; cbn [settle p_max p_idle p_clock p_first p_outcome p_cancelled] in *; rewrite ?E1, ?E4, ?E5; try done.
      * injection H as <-. rewrite copy_of_other. by apply Hf.
      * destruct r1 as [e1|t1]; [done|]. by destruct r.
      * injection H as <-. rewrite copy_of_other in *. by apply (Ht (other d) e).
      * cbn [left_to_right right_to_left].
        destruct r1 as [e1|t1]; [exists (other d), r; rewrite !copy_of_settle, copy_of_other; by destruct d|].
        destruct r as [e2|t2]; [exists d, (inr t1); by rewrite !copy_of_settle, copy_of_same, copy_of_other|].
        by destruct d.
    + constructor; intros; rewrite ?copy_of_settle in *; cbn [settle p_max p_idle p_clock p_first p_outcome p_cancelled] in *; rewrite ?E1, ?E4, ?E5; try done.
      * injection H as <-. rewrite copy_of_same. apply finished_result. eauto.
      * assert (Some d0 <> Some d) as Hne by congruence. rewrite (Hoth d0 Hne). by apply Hs.
      * injection H as <-. rewrite copy_of_same, Er in H0. by injection H0 as ->.
  - constructor; intros; rewrite ?E1, ?E2, ?E3, ?E4, ?E5, ?E6 in *; try done.
    + destruct (decide (d0 = d)) as [->|Hne]; [congruence|]. rewrite (Hoth d0) by congruence. by apply Hf.
    + destruct (decide (d0 = d)) as [->|Hne]; [by rewrite copy_of_same, finished_not|]. rewrite (Hoth d0) by congruence. by apply Hs.
    + destruct (direction_cases d d0) as [->| ->]; [congruence|]. rewrite copy_of_other in H0. by apply (Ht (other d) e).
    + by rewrite En.
Qed.

Lemma pipe_step_ok m idle e s s' : pipe_ok m idle s -> pipe_step e s = Some s' -> pipe_ok m idle s'.
Proof.
  intros Hs. unfold pipe_step. destruct (p_outcome s) eqn:En; [done|]. destruct e as [d p|elapsed|].
  - destruct (copy_poll _ _ _ _ p _) as [c|] eqn:Ep; cbn; [|done]. intros [= <-].
    destruct (pk_params _ _ _ Hs) as [Em Ei]. rewrite Em, Ei in Ep. by eapply settle_ok.
  - case_if; [|done]. bool_prop. intros [= <-]. destruct Hs as [Hp Hc Hf Hu Ht Ho]. constructor; try done.
    + intros d. eapply copy_ok_later; [|exact (Hc d)]. cbn. lia.
    + intros _. by apply Hu.
  - intros [= <-]. destruct Hs as [Hp Hc Hf Hu Ht Ho]. constructor; try done. intros _. by apply Hu.
Qed.

Lemma pipe_run_ok m idle es s s' : pipe_ok m idle s -> pipe_run es s = Some s' -> pipe_ok m idle s'.
Proof.
  revert s. induction es as [|e es IH]; intros s Hs; cbn [pipe_run]; [by intros [= <-]|].
  destruct (pipe_step e s) as [s1|] eqn:E; cbn; [|done]. apply IH. by eapply pipe_step_ok.
Qed.

(** ** Theorems: pipes *)

(** What a loop guarantees of its two ends at any moment. *)
Definition faithful (max_bytes : Z) (c : Copy) : Prop :=
  (exists held, read_log c = write_log c ++ held /\ zlen held <= COPY_BUFFER_BYTES) /\
  zlen (write_log c) <= max_bytes /\
  (closed c = true -> at_end c = true /\ write_log c = read_log c).

Lemma copy_faithful m idle now c : copy_ok (forward m) idle now c -> faithful m c.
Proof.
  intros [(held & Hh & Hc & Hp) H2 H3 H4 H5 H6 H7]. split_and!.
  - exists held. split; [done|]. by apply Hc.
  - by apply (H2 m).
  - rewrite H4. destruct (phase c) as [| | |[|]]; try done. intros _. subst held. by rewrite Hh, app_nil_r.
Qed.

(** A pipe is transparent.  Whatever the two sockets do, whenever the token
    is cancelled and however the two directions are interleaved, at any moment
    each side has been given a prefix of what the other one sent, within the
    limit and with at most one buffer held back, and its end is closed only
    after the other one's end was read and everything before it was written.
    A pipe that returns totals has carried everything both sides sent; one that
    returns an error has ended both directions, for a limit that was passed, an
    operation that waited for the whole idle timeout, or a cancelled token. *)
Theorem pipe_transparent max_bytes idle_timeout now cancelled es s :
  0 <= max_bytes <= u64_max -> 0 < idle_timeout ->
  pipe_run es (pipe_opaque_with_cancel max_bytes idle_timeout now cancelled) = Some s ->
  (forall d, faithful max_bytes (copy_of d s)) /\
  match p_outcome s with
  | None => exists d, finished (copy_of d s) = false
  | Some (inr (a, b)) =>
      (forall d, closed (copy_of d s) = true) /\ a = zlen (read_log (left_to_right s)) /\ b = zlen (read_log (right_to_left s))
  | Some (inl e) =>
      (forall d, finished (copy_of d s) = true) /\
      exists d, result_of (copy_of d s) = Some (inl e) /\
        (e = LimitExceeded -> max_bytes < zlen (read_log (copy_of d s))) /\
        (e = IdleTimeout -> started (copy_of d s) + idle_timeout <= p_clock s)
  end.
Proof.
  intros Hm Hi Hr. assert (pipe_ok max_bytes idle_timeout s) as [Hp Hc Hf Hs Ht Ho].
  { eapply pipe_run_ok; [|exact Hr]. apply pipe_start_ok; lia. }
  split; [intros d; by eapply copy_faithful|]. destruct (p_outcome s) as [[e|[a b]]|] eqn:En.
  - destruct Ho as (d & r & H1 & H2). split.
    + intros d'. apply finished_result. destruct (direction_cases d d') as [->| ->]; eauto.
    + exists d. unfold result_of in H1 |- *. destruct (phase (copy_of d s)) as [| | |r'] eqn:Ep; try done. injection H1 as ->.
      destruct (ck_cause _ _ _ _ (Hc d) e Ep) as [Ha Hb]. split_and!; [done| |done]. intros Ee. destruct (Ha Ee) as (m & [= <-] & Hx). apply Hx. lia.
  - destruct Ho as [H1 H2].
    assert (forall d t, result_of (copy_of d s) = Some (inr t) -> closed (copy_of d s) = true /\ t = zlen (read_log (copy_of d s))) as Hd.
    { intros d t. unfold result_of. destruct (phase (copy_of d s)) as [| | |r'] eqn:Ep; try done. intros [= ->]. pose proof (Hc d) as [K1 K2 K3 K4 K5 K6 K7].
      rewrite Ep in *. split; [by rewrite K4|]. destruct (K2 max_bytes eq_refl) as (_ & <- & _). by apply K5. }
    destruct (Hd LeftToRight a H1), (Hd RightToLeft b H2). split_and!; [by intros [|]|done|done].
  - destruct (p_first s) as [[|]|] eqn:Ef; [exists RightToLeft|exists LeftToRight|exists LeftToRight]; by apply Hs.
Qed.

(** A poll that moves a direction on. *)
Definition progress (p : Poll) : bool :=
  match p with ReadReady _ | ReadEnd | ShutDown => true | WriteTakes n => 0 <? n | _ => false end.

Definition failed (c : Copy) : bool := match phase c with Done (inl _) => true | _ => false end.

Lemma progress_never_fails k idle now x p c c' : copy_ok k idle now c -> progress p = true -> copy_poll k idle now x p c = Some c' ->
  (forall m, c_limit k = Some m -> m <= u64_max /\ zlen (read_log c') <= m) -> failed c' = false.
Proof.
  intros Hc. unfold copy_poll. destruct (phase c) as [|rest| |r] eqn:Ep; [| | |done]; destruct p as [| |data| |e|n|e| |e]; try done; intros Hp.
  - case_if; [|done]. intros [= <-]. unfold count. cbn [phase total started read_log write_log at_end closed].
    destruct (c_limit k) as [m|] eqn:Ek; [|by case_bool_decide]. unfold add_bounded_stream_bytes, checked_add.
    destruct (ck_limit _ _ _ _ Hc m Ek) as [_ Ht]. rewrite Ep in Ht. destruct Ht as [Ht _].
    destruct (Z.leb_spec (total c + zlen data) u64_max); [destruct (Z.ltb_spec m (total c + zlen data))|]; cbn [read_log finish phase]; intros Hm;
      [|unfold failed; cbn; by case_bool_decide|]; destruct (Hm m eq_refl) as [H1 H2]; rewrite zlen_app in H2; lia.
  - intros [= <-] _. unfold end_read, failed. by case_if.
  - case_if; [|done]. intros [= <-] _. cbn in Hp. bool_prop. unfold take_bytes. destruct (Z.eqb_spec n 0); [lia|]. unfold failed. case_if; done.
  - intros [= <-] _. done.
Qed.

Lemma copy_poll_reads_on k idle now x p c c' : copy_poll k idle now x p c = Some c' -> zlen (read_log c) <= zlen (read_log c').
Proof.
  unfold copy_poll. destruct (phase c) as [|rest| |r]; [| | |done]; destruct p as [| |data| |e|n|e| |e]; try done;
    try case_if; try done; intros [= <-]; try done.
  - unfold count. cbn. pose proof (zlen_nonneg data). destruct (match c_limit k with Some _ => _ | None => _ end); cbn; zl.
  - unfold end_read. case_if; done.
  - unfold take_bytes. case_if; [done|]. case_if; done.
Qed.

Lemma copy_of_finish d d' s : copy_of d' (finish_first_direction d s) = copy_of d' s.
Proof. unfold finish_first_direction. destruct (result_of (copy_of d s)); [|done]. by destruct (p_first s), d'. Qed.

(** A step changes one of the copies, or none. *)
Lemma pipe_step_copies e s s' : pipe_step e s = Some s' ->
  forall d, copy_of d s' = copy_of d s \/
    exists p, e = On d p /\ copy_poll (forward (p_max s)) (p_idle s) (p_clock s) (p_cancelled s) p (copy_of d s) = Some (copy_of d s').
Proof.
  unfold pipe_step. destruct (p_outcome s); [done|]. destruct e as [d p|elapsed|].
  - destruct (copy_poll _ _ _ _ p _) as [c|] eqn:Ep; cbn; [|done]. intros [= <-] d'. rewrite copy_of_finish.
    destruct (direction_cases d d') as [->| ->]; [right; exists p; by rewrite copy_of_same|left; apply copy_of_other].
  - case_if; [|done]. intros [= <-] d. left. by destruct d.
  - intros [= <-] d. left. by destruct d.
Qed.

Lemma pipe_run_reads_on es s s' d : pipe_run es s = Some s' -> zlen (read_log (copy_of d s)) <= zlen (read_log (copy_of d s')).
Proof.
  revert s. induction es as [|e es IH]; intros s; cbn [pipe_run]; [by intros [= <-]|].
  destruct (pipe_step e s) as [s1|] eqn:E; cbn; [|done]. intros Hr%IH. etrans; [|exact Hr].
  destruct (pipe_step_copies _ _ _ E d) as [->|(p & _ & Hp)]; [done|]. by eapply copy_poll_reads_on.
Qed.

(** *** Sockets that move in time

    What the sockets do is judged by the events alone: the bytes of a read that
    were not written yet, the time of the last operation that was completed (a
    read, the write of all that was read, the shutdown), and whether the direction
    is over. *)
Record Watch := mkWatch { w_pending : Z; w_since : Z; w_over : bool }.

Definition watch_new (now : Z) : Watch := mkWatch 0 now false.

Definition watch (now : Z) (p : Poll) (w : Watch) : Watch :=
  match p with
  | ReadReady data => mkWatch (zlen data) now (w_over w)
  | ReadEnd => mkWatch 0 now (w_over w)
  | WriteTakes n => if n =? w_pending w then mkWatch 0 now (w_over w) else mkWatch (w_pending w - n) (w_since w) (w_over w)
  | ShutDown => mkWatch 0 now true
  | _ => w
  end.

(** Less than the idle timeout has passed since, unless the direction is over. *)
Definition in_time (idle clock : Z) (w : Watch) : Prop := w_over w = true \/ clock < w_since w + idle.

(** No read, write or shutdown fails. *)
Definition healthy (p : Poll) : bool :=
  match p with ReadFails _ | WriteFails _ | ShutDownFails _ => false | WriteTakes n => 0 <? n | _ => true end.

(** The sockets are healthy and each completes its operations in time, and the
    owner of the token does not cancel.  Nothing is said of what the pipe makes of
    its own token and timers: it may find them at any step. *)
Fixpoint timely (idle clock : Z) (l r : Watch) (es : list PipeEvent) : Prop :=
  match es with
  | [] => True
  | Tick elapsed :: es => in_time idle (clock + elapsed) l /\ in_time idle (clock + elapsed) r /\ timely idle (clock + elapsed) l r es
  | On LeftToRight p :: es => healthy p = true /\ timely idle clock (watch clock p l) r es
  | On RightToLeft p :: es => healthy p = true /\ timely idle clock l (watch clock p r) es
  | Cancel :: _ => False
  end.

#[export] Instance in_time_dec idle clock w : Decision (in_time idle clock w).
Proof. unfold in_time. apply _. Defined.
#[export] Instance timely_dec idle clock l r es : Decision (timely idle clock l r es).
Proof. revert clock l r. induction es as [|[[|] p|elapsed|] es IH]; intros clock l r; cbn [timely]; apply _. Defined.

(** A loop whose sockets are watched has not failed, and its timer runs from the
    last operation that was completed. *)
Record watched (idle now : Z) (c : Copy) (w : Watch) : Prop := {
  wt_failed : failed c = false;
  wt_over : w_over w = finished c;
  wt_since : finished c = false -> started c = w_since w;
  wt_pending : forall rest, phase c = Writing rest -> w_pending w = zlen rest;
  wt_time : in_time idle now w }.

(** The token is not cancelled and the timer cannot fire, so every poll moves on. *)
Lemma watched_progress m idle now p c c' w : watched idle now c w -> healthy p = true ->
  copy_poll (forward m) idle now false p c = Some c' -> progress p = true.
Proof.
  intros [Hf Ho Hs _ Ht] Hh Hp. pose proof (copy_poll_unfinished _ _ _ _ _ _ _ Hp) as Hu. rewrite Hu in Ho. specialize (Hs Hu).
  destruct Ht as [Ht|Ht]; [congruence|].
  destruct p; try done; revert Hp; unfold copy_poll; destruct (phase c); try done; by rewrite (proj2 (Z.leb_gt _ _)) by lia.
Qed.

Lemma watched_poll m idle now p c c' w : 0 < idle -> m <= u64_max -> copy_ok (forward m) idle now c -> watched idle now c w -> healthy p = true ->
  copy_poll (forward m) idle now false p c = Some c' -> zlen (read_log c') <= m -> watched idle now c' (watch now p w).
Proof.
  intros Hi Hm Hc Hw Hh Hp Hr. pose proof (watched_progress m idle now p c c' w Hw Hh Hp) as Hpr.
  assert (failed c' = false) as Hf by (eapply progress_never_fails; [exact Hc|exact Hpr|exact Hp|by intros m' [= <-]]).
  destruct Hw as [Hf0 Ho Hs Hpe Ht]. revert Hp Hf Hr. unfold copy_poll.
  destruct (phase c) as [|rest| |r] eqn:Ep; [| | |done]; destruct p as [| |data| |e|n|e| |e]; try done.
  - case_if; [|done]. intros [= <-]. unfold count. cbn [c_limit forward phase total started read_log write_log at_end closed].
    destruct (add_bounded_stream_bytes _ _ _); [done|]. intros _ _. unfold finished in *. rewrite Ep in *.
    assert (data <> []) as Hne by (intros ->; done). rewrite bool_decide_eq_false_2 by done.
    constructor; cbn; try done; [by intros rest [= <-]|right; cbn; lia].
  - intros [= <-] _ _. unfold finished in *. rewrite Ep in *. constructor; cbn; try done. right; cbn; lia.
  - case_if; [|done]. intros [= <-]. cbn in Hpr. bool_prop. unfold take_bytes. destruct (Z.eqb_spec n 0); [lia|]. unfold finished in *. rewrite Ep in *.
    cbn [watch]. rewrite (Hpe rest eq_refl). destruct (Z.eqb_spec n (zlen rest)); intros _ _; (constructor; cbn; try done).
    + right; cbn; lia.
    + intros rest' [= <-]. unfold write_fits, in_range in *. cbn [forward c_channel] in *. bool_prop. rewrite zlen_zdrop. lia.
  - intros [= <-] _ _. constructor; cbn; try done. by left.
Qed.

Definition watch_of (d : Direction) (l r : Watch) : Watch := match d with LeftToRight => l | RightToLeft => r end.

(** A pipe whose sockets move in time: nobody has cancelled its token. *)
Record in_order (m idle : Z) (l r : Watch) (s : Pipe) : Prop := {
  io_pipe : pipe_ok m idle s;
  io_token : p_cancelled s = false;
  io_watched : forall d, watched idle (p_clock s) (copy_of d s) (watch_of d l r) }.

Lemma finish_token d s : failed (copy_of d s) = false -> p_cancelled (finish_first_direction d s) = p_cancelled s.
Proof.
  unfold failed, finish_first_direction, result_of. destruct (phase (copy_of d s)) as [| | |[|]]; try done. by destruct (p_first s).
Qed.

Lemma finish_clock d s : p_clock (finish_first_direction d s) = p_clock s.
Proof. unfold finish_first_direction. destruct (result_of (copy_of d s)); [|done]. by destruct (p_first s). Qed.

Lemma on_in_order m idle l r s s' d p : 0 < idle -> m <= u64_max -> in_order m idle l r s -> healthy p = true -> pipe_step (On d p) s = Some s' ->
  zlen (read_log (copy_of d s')) <= m ->
  in_order m idle (match d with LeftToRight => watch (p_clock s) p l | RightToLeft => l end)
    (match d with LeftToRight => r | RightToLeft => watch (p_clock s) p r end) s' /\ p_clock s' = p_clock s.
Proof.
  intros Hi Hm [Hp Hk Hw] Hh E Hr. pose proof (pipe_step_ok _ _ _ _ _ Hp E) as Hp'. destruct (pk_params _ _ _ Hp) as [Em Ei].
  revert E. unfold pipe_step. destruct (p_outcome s); [done|]. rewrite Em, Ei, Hk. destruct (copy_poll _ _ _ _ p _) as [c|] eqn:Ec; cbn; [|done]. intros [= <-].
  rewrite copy_of_finish, copy_of_same in Hr. destruct (set_copy_rest d c s) as (E1 & _ & E3 & _).
  assert (watched idle (p_clock s) c (watch (p_clock s) p (watch_of d l r))) as Hwc by (eapply watched_poll; try done; apply Hp).
  split; [|by rewrite finish_clock]. constructor; [done| |].
  - rewrite finish_token; [congruence|]. rewrite copy_of_same. apply Hwc.
  - intros d'. rewrite finish_clock, copy_of_finish, E1. specialize (Hw d'). destruct d, d'; cbn in *; done.
Qed.

Lemma run_in_order m idle es l r s s' : 0 < idle -> m <= u64_max -> in_order m idle l r s -> timely idle (p_clock s) l r es ->
  pipe_run es s = Some s' -> (forall d, zlen (read_log (copy_of d s')) <= m) -> exists l' r', in_order m idle l' r' s'.
Proof.
  intros Hi Hm. revert l r s. induction es as [|e es IH]; intros l r s Ho; cbn [pipe_run timely]; [intros _ [= <-] _; eauto|].
  destruct (pipe_step e s) as [s1|] eqn:E; cbn; [|done]. intros Ht Hr Hreads.
  assert (forall d, zlen (read_log (copy_of d s1)) <= m) as Hr1.
  { intros d. etrans; [|apply (Hreads d)]. by eapply pipe_run_reads_on. }
  destruct e as [d p|elapsed|]; [| |done].
  - assert (healthy p = true) as Hh by (destruct d; apply Ht).
    destruct (on_in_order m idle l r s s1 d p Hi Hm Ho Hh E (Hr1 d)) as [Ho1 Ec].
    eapply IH; [exact Ho1| |exact Hr|exact Hreads]. rewrite Ec. destruct d; apply Ht.
  - destruct Ht as (Hl & Hrr & Ht). destruct Ho as [Hp Hk Hw]. pose proof (pipe_step_ok _ _ _ _ _ Hp E) as Hp1.
    revert E. unfold pipe_step. destruct (p_outcome s); [done|]. case_if; [|done]. intros [= <-].
    refine (IH l r _ _ _ Hr Hreads); [|exact Ht]. constructor; [done|done|]. intros d. specialize (Hw d).
    destruct d; cbn in *; destruct Hw as [W1 W2 W3 W4 W5]; by constructor.
Qed.

(** An unfinished loop can always move on: it reads, writes or shuts down. *)
Lemma copy_can_move k idle now x c : copy_ok k idle now c -> finished c = false -> exists p c', progress p = true /\ copy_poll k idle now x p c = Some c'.
Proof.
  intros [(held & Hh & Hc & Hp) H2 H3 H4 H5 H6 H7]. unfold finished, copy_poll. destruct (phase c) as [|rest| |r]; [| | |done]; intros _.
  - exists ReadEnd. eauto.
  - destruct Hp as [_ Hne]. exists (WriteTakes (zlen rest)). assert (0 < zlen rest) as Hpos.
    { destruct rest; [done|]. rewrite zlen_cons. pose proof (zlen_nonneg rest). lia. }
    cbn. eexists. split; [by apply Z.ltb_lt|]. unfold write_fits, in_range. rewrite Z.eqb_refl, Z.leb_refl, (proj2 (Z.leb_le 0 (zlen rest))) by lia.
    by destruct (c_channel k).
  - exists ShutDown. eauto.
Qed.

(** Without a failed direction an unfinished one can move, and two finished
    ones give the totals. *)
Lemma result_without_failure m idle s d : pipe_ok m idle s -> failed (copy_of d s) = false -> finished (copy_of d s) = true ->
  result_of (copy_of d s) = Some (inr (zlen (read_log (copy_of d s)))).
Proof.
  intros Hs. unfold failed, finished, result_of. destruct (phase (copy_of d s)) as [| | |[|t]] eqn:Ep; try done. intros _ _.
  destruct (pk_copies _ _ _ Hs d) as [K1 K2 K3 K4 K5 K6 K7]. rewrite Ep in *. destruct (K2 m eq_refl) as (_ & <- & _). by rewrite (K5 t).
Qed.

Lemma unfinished_moves m idle s d : pipe_ok m idle s -> (forall d, failed (copy_of d s) = false) -> finished (copy_of d s) = false ->
  exists p s', progress p = true /\ pipe_step (On d p) s = Some s'.
Proof.
  intros Hs Hnf Hd. destruct (copy_can_move (forward (p_max s)) (p_idle s) (p_clock s) (p_cancelled s) (copy_of d s)) as (p & c & Hp & Hc); [|done|].
  { destruct (pk_params _ _ _ Hs) as [-> ->]. by apply Hs. }
  assert (p_outcome s = None) as En.
  { pose proof (pk_outcome _ _ _ Hs) as Ho. destruct (p_outcome s) as [[e|[a b]]|]; [| |done].
    - destruct Ho as (d' & r & H1 & _). specialize (Hnf d'). unfold failed, result_of in *. destruct (phase (copy_of d' s)); try done. injection H1 as ->. done.
    - destruct Ho as [H1 H2]. assert (finished (copy_of d s) = true) by (apply finished_result; destruct d; eauto). congruence. }
  exists p. unfold pipe_step. rewrite En, Hc. cbn. eauto.
Qed.

Lemma both_finished m idle s : pipe_ok m idle s -> (forall d, failed (copy_of d s) = false) -> (forall d, finished (copy_of d s) = true) ->
  p_outcome s = Some (inr (zlen (read_log (left_to_right s)), zlen (read_log (right_to_left s)))).
Proof.
  intros Hs Hnf Hall. pose proof (pk_outcome _ _ _ Hs) as Ho.
  pose proof (result_without_failure m idle s LeftToRight Hs (Hnf _) (Hall _)) as Hl. pose proof (result_without_failure m idle s RightToLeft Hs (Hnf _) (Hall _)) as Hrl.
  cbn in Hl, Hrl. destruct (p_outcome s) as [[e|[a b]]|] eqn:En.
  - destruct Ho as (d & r & H1 & _). destruct d; cbn in H1; congruence.
  - destruct Ho as [H1 H2]. congruence.
  - exfalso. assert (exists d, p_first s <> Some d) as [d Hd] by (destruct (p_first s) as [[|]|]; [by exists RightToLeft|by exists LeftToRight..]).
    pose proof (pk_second _ _ _ Hs En d Hd) as Hu. by rewrite Hall in Hu.
Qed.

(** C40: a pipe completes.  Let the sockets be healthy, keep the limits and
    complete every operation before the idle timeout has passed since the last
    one of the same direction, and let nobody cancel the pipe.  Then, whatever
    the interleaving, and although the pipe may look at its token and timers at
    any step, no direction fails and the token is never cancelled, a direction
    that is not finished can always move on, and once both sides have closed
    their ends the pipe returns the totals of both directions: a half-closed
    connection stays open for the other direction. *)
Theorem pipe_completes max_bytes idle_timeout now es s :
  0 <= max_bytes <= u64_max -> 0 < idle_timeout -> timely idle_timeout now (watch_new now) (watch_new now) es ->
  pipe_run es (pipe_opaque_with_cancel max_bytes idle_timeout now false) = Some s ->
  (forall d, zlen (read_log (copy_of d s)) <= max_bytes) ->
  (forall d, failed (copy_of d s) = false) /\ p_cancelled s = false /\
  (forall d, finished (copy_of d s) = false -> exists p s', progress p = true /\ pipe_step (On d p) s = Some s') /\
  ((forall d, finished (copy_of d s) = true) ->
     p_outcome s = Some (inr (zlen (read_log (left_to_right s)), zlen (read_log (right_to_left s))))).
Proof.
  intros Hm Hi He Hr Hreads. assert (in_order max_bytes idle_timeout (watch_new now) (watch_new now) (pipe_opaque_with_cancel max_bytes idle_timeout now false)) as H0.
  { constructor; [apply pipe_start_ok; lia|done|]. intros d. constructor; try (by destruct d). right. destruct d; cbn; lia. }
  destruct (run_in_order max_bytes idle_timeout es _ _ _ s Hi ltac:(lia) H0 He Hr Hreads) as (l & r & [Hs Hk Hw]).
  split_and!; [intros d; apply (Hw d)|done| |].
  - intros d. by apply (unfinished_moves max_bytes idle_timeout); [|intros d'; apply (Hw d')].
  - by apply (both_finished max_bytes idle_timeout); [|intros d; apply (Hw d)].
Qed.

(** ** Witnesses *)

Module Witnesses.

Definition both_ways : list PipeEvent :=
  [On LeftToRight (ReadReady [1; 2]); On RightToLeft (ReadReady [9]); On LeftToRight (WriteTakes 1); Tick 5; On LeftToRight (WriteTakes 1);
   On LeftToRight ReadEnd; On LeftToRight ShutDown; On RightToLeft (WriteTakes 1); On RightToLeft (ReadReady [8]); On RightToLeft (WriteTakes 1);
   On RightToLeft ReadEnd; On RightToLeft ShutDown].

Lemma pipe_transparent_witness :
  exists s, pipe_run both_ways (pipe_opaque_with_cancel 10 30 0 false) = Some s /\ p_outcome s = Some (inr (2, 2)) /\
    forall d, closed (copy_of d s) = true.
Proof.
  destruct (pipe_run both_ways (pipe_opaque_with_cancel 10 30 0 false)) as [s|] eqn:E; [|vm_compute in E; discriminate E]. exists s.
  pose proof (pipe_transparent 10 30 0 false both_ways s ltac:(unfold u64_max; lia) ltac:(lia) E) as [_ H].
  vm_compute in E. injection E as <-. split_and!; [done|done|]. apply H.
Defined.

(** A slow exchange: 109 time units with an idle timeout of 30, each side moving
    in time, the left side closed long before the right one. *)
Definition slow : list PipeEvent :=
  [On LeftToRight (ReadReady [1; 2]); On RightToLeft (ReadReady [9]); Tick 20; On LeftToRight (WriteTakes 2); On RightToLeft (WriteTakes 1);
   Tick 20; On LeftToRight ReadEnd; On LeftToRight ShutDown; On RightToLeft (ReadReady [8; 7]); On RightToLeft (WriteTakes 1);
   Tick 29; On RightToLeft (WriteTakes 1); Tick 20; On RightToLeft ReadEnd; Tick 20; On RightToLeft ShutDown].

Lemma pipe_completes_witness :
  exists s, pipe_run slow (pipe_opaque_with_cancel 10 30 0 false) = Some s /\ p_clock s = 109 /\ p_outcome s = Some (inr (2, 3)).
Proof.
  destruct (pipe_run slow (pipe_opaque_with_cancel 10 30 0 false)) as [s|] eqn:E; [|vm_compute in E; discriminate E]. exists s.
  assert (forall d, zlen (read_log (copy_of d s)) <= 10) as Hr by (vm_compute in E; injection E as <-; intros []; done).
  assert (timely 30 0 (watch_new 0) (watch_new 0) slow) as Ht by by_compute.
  pose proof (pipe_completes 10 30 0 slow s ltac:(unfold u64_max; lia) ltac:(lia) Ht E Hr) as (_ & _ & _ & H).
  vm_compute in E. injection E as <-. split_and!; [done|done|]. apply H. by intros [].
Defined.

(** A direction that is idle ends the pipe although the other one moved bytes
    within the timeout. *)
Theorem active_pipe_times_out :
  exists es s, pipe_run es (pipe_opaque_with_cancel 100 30 0 false) = Some s /\
    p_outcome s = Some (inl IdleTimeout) /\ p_clock s = 40 /\ started (right_to_left s) = 20 /\ write_log (right_to_left s) = [1].
Proof.
  exists [Tick 20; On RightToLeft (ReadReady [1]); On RightToLeft (WriteTakes 1); Tick 20; On LeftToRight TimerFired; On RightToLeft TokenSeen].
  eexists. split; [vm_compute; reflexivity|]. done.
Qed.
End Witnesses.
