(* ===== verification/Tunnel.v ===== *)
(** A stream of the edge from end to end (shph-edge/src/carrier.rs): the task
    that copies between the request, the backend and the response on the server
    ([handle_http2_request] after admission), the producer and the copying back on
    the client ([handle_socks5] after the SOCKS5 reply), joined by the two bodies
    of an HTTP/2 stream, which are ordered byte streams; and the activity clock
    that closes idle connections. *)
From Stdlib Require Import Sorting.Sorted.
From S2P Require Import Prelude Error Relay.

(** ** The activity of a connection *)

Record Http2Activity := mkActivity { last_activity : Z; active_streams : Z }.

Definition activity_new (now : Z) : Http2Activity := mkActivity now 0.
Definition touch (now : Z) (a : Http2Activity) : Http2Activity := mkActivity now (active_streams a).
Definition begin_stream (now : Z) (a : Http2Activity) : Http2Activity := mkActivity now (active_streams a + 1).
(** Dropping a stream guard. *)
Definition end_stream (now : Z) (a : Http2Activity) : Http2Activity := mkActivity now (saturating_sub (active_streams a) 1).
(** The check under the lock after which [wait_until_idle] returns. *)
Definition is_idle (idle_timeout now : Z) (a : Http2Activity) : bool :=
  (active_streams a =? 0) && (idle_timeout <=? saturating_sub now (last_activity a)).

(** ** The server's task *)

Definition RESPONSE_QUEUE : Z := 32.
Definition DUPLEX_BYTES : Z := 16 * 1024.

(** [request_task], [body_to_backend], [backend_to_response] *)
Definition request_kind (max_bytes : Z) : Copying := mkCopying (Some max_bytes) None false true.
Definition response_kind (max_bytes : Z) : Copying := mkCopying (Some max_bytes) (Some COPY_BUFFER_BYTES) true false.

(** [duplex] is the pipe between the first two loops, [queue] the channel of
    response frames and [delivered] what HTTP/2 has taken from it.  The idle timeout
    of a valid configuration is at least 100 ms ([EdgeConfig.limits_validate]), so
    the refusal of a zero timeout is not modelled here. *)
Record Stream := mkStream {
  s_max : Z; s_idle : Z; s_clock : Z;
  request_task : Copy; body_to_backend : Copy; backend_to_response : Copy;
  duplex : bytes; queue : list bytes; delivered : bytes;
  s_outcome : option (RelayError + Z * Z) }.

Definition stream_new (max_bytes idle_timeout now : Z) : Stream :=
  mkStream max_bytes idle_timeout now (copy_new now) (copy_new now) (copy_new now) [] [] [] None.

Inductive StreamEvent :=
  | OnRequest (p : Poll) | OnBody (p : Poll) | OnResponse (p : Poll)
  | Deliver | StreamTick (elapsed : Z) | ConnectionShutdown.

(** [try_join!]: the first error ends it, else all three have to end. *)
Definition join (s : Stream) : Stream :=
  let outcome :=
    match result_of (request_task s), result_of (body_to_backend s), result_of (backend_to_response s) with
    | Some (inl e), _, _ | _, Some (inl e), _ | _, _, Some (inl e) => Some (inl e)
    | Some (inr bytes_in), Some (inr _), Some (inr bytes_out) => Some (inr (bytes_in, bytes_out))
    | _, _, _ => None
    end in
  mkStream (s_max s) (s_idle s) (s_clock s) (request_task s) (body_to_backend s) (backend_to_response s)
    (duplex s) (queue s) (delivered s) outcome.

(** What the duplex pipe allows its two ends, and the channel its sender. *)
Definition duplex_write (p : Poll) (buffer : bytes) : bool :=
  match p with
  | WriteTakes n => (1 <=? n) && (zlen buffer + n <=? DUPLEX_BYTES)
  | WriteFails _ | ShutDownFails _ => false
  | _ => true
  end.
Definition duplex_read (p : Poll) (buffer : bytes) (writer_closed : bool) : bool :=
  match p with
  | ReadReady data => bool_decide (ztake (zlen data) buffer = data)
  | ReadEnd => bool_decide (buffer = []) && writer_closed
  | ReadFails _ => false
  | _ => true
  end.
Definition channel_write (p : Poll) (q : list bytes) : bool :=
  match p with WriteTakes _ => zlen q <? RESPONSE_QUEUE | _ => true end.

Definition taken (p : Poll) (c : Copy) : bytes :=
  match p, phase c with WriteTakes n, Writing rest => ztake n rest | _, _ => [] end.
Definition given (p : Poll) : bytes := match p with ReadReady data => data | _ => [] end.

Definition stream_step (e : StreamEvent) (s : Stream) : option Stream :=
  match e with
  | Deliver =>
      match queue s with
      | [] => None
      | frame :: q => Some (mkStream (s_max s) (s_idle s) (s_clock s) (request_task s) (body_to_backend s) (backend_to_response s)
          (duplex s) q (delivered s ++ frame) (s_outcome s))
      end
  | _ =>
      match s_outcome s with
      | Some _ => None
      | None =>
          match e with
          | OnRequest p =>
              if duplex_write p (duplex s) then
                c ← copy_poll (request_kind (s_max s)) (s_idle s) (s_clock s) false p (request_task s);
                Some (join (mkStream (s_max s) (s_idle s) (s_clock s) c (body_to_backend s) (backend_to_response s)
                  (duplex s ++ taken p (request_task s)) (queue s) (delivered s) None))
              else None
          | OnBody p =>
              if duplex_read p (duplex s) (closed (request_task s)) then
                c ← copy_poll (forward (s_max s)) (s_idle s) (s_clock s) false p (body_to_backend s);
                Some (join (mkStream (s_max s) (s_idle s) (s_clock s) (request_task s) c (backend_to_response s)
                  (zdrop (zlen (given p)) (duplex s)) (queue s) (delivered s) None))
              else None
          | OnResponse p =>
              if channel_write p (queue s) then
                c ← copy_poll (response_kind (s_max s)) (s_idle s) (s_clock s) false p (backend_to_response s);
                Some (join (mkStream (s_max s) (s_idle s) (s_clock s) (request_task s) (body_to_backend s) c
                  (duplex s) (match p with WriteTakes _ => queue s ++ [taken p (backend_to_response s)] | _ => queue s end) (delivered s) None))
              else None
          | StreamTick elapsed =>
              if 0 <=? elapsed then
                Some (mkStream (s_max s) (s_idle s) (s_clock s + elapsed) (request_task s) (body_to_backend s) (backend_to_response s)
                  (duplex s) (queue s) (delivered s) None)
              else None
          | ConnectionShutdown =>
              Some (mkStream (s_max s) (s_idle s) (s_clock s) (request_task s) (body_to_backend s) (backend_to_response s)
                (duplex s) (queue s) (delivered s) (Some (inl Cancelled)))
          | Deliver => None
          end
      end
  end.

(** The response body ends when the task has dropped its sender and the channel
    is drained. *)
Definition response_ended (s : Stream) : bool := bool_decide (s_outcome s <> None) && bool_decide (queue s = []).

(** ** The client's task *)

Definition producer_kind : Copying := mkCopying None (Some COPY_BUFFER_BYTES) true false.
Definition copy_back_kind (max_bytes : Z) : Copying := mkCopying (Some max_bytes) None false true.

(** How the task fails: in a copying loop, or before the relay because the request
    failed or the edge refused it. *)
Inductive ClientError := Relayed (e : RelayError) | NotServed.

(** [k_cancelled] is the shutdown token, whose child the two loops watch.  The
    producer runs from the start; the copying back is created when the edge has
    accepted the stream and the SOCKS5 reply is written ([k_answered]); [k_joined]
    says that the producer has ended well and only the copying back is waited for.
    The idle timeout of a valid configuration is not zero. *)
Record Client := mkClient {
  k_max : Z; k_idle : Z; k_clock : Z; k_cancelled : bool; k_answered : bool;
  producer : Copy; copy_back : Copy; k_joined : bool; k_outcome : option (ClientError + unit) }.

Definition client_new (max_bytes idle_timeout now : Z) : Client :=
  mkClient max_bytes idle_timeout now false false (copy_new now) (copy_new now) false None.

Inductive ClientEvent :=
  | OnProducer (p : Poll) | Accepted | NotAccepted | OnCopyBack (p : Poll)
  | ProducerJoined | ShutdownSeen | ClientTick (elapsed : Z) | Shutdown.

Definition client_with (producer copy_back : Copy) (joined : bool) (outcome : option (ClientError + unit)) (k : Client) : Client :=
  mkClient (k_max k) (k_idle k) (k_clock k) (k_cancelled k) (k_answered k) producer copy_back joined outcome.

(** Copying back ends the task, and aborts a producer that still runs. *)
Definition copied_back (c : Copy) : option (ClientError + unit) :=
  match result_of c with None => None | Some (inl e) => Some (inl (Relayed e)) | Some (inr _) => Some (inr tt) end.

Definition client_step (e : ClientEvent) (k : Client) : option Client :=
  match k_outcome k with
  | Some _ => None
  | None =>
      match e with
      | OnProducer p =>
          c ← copy_poll producer_kind (k_idle k) (k_clock k) (k_cancelled k) p (producer k);
          Some (client_with c (copy_back k) (k_joined k) None k)
      | Accepted =>
          if k_answered k then None
          else Some (mkClient (k_max k) (k_idle k) (k_clock k) (k_cancelled k) true (producer k) (copy_new (k_clock k)) false None)
      | NotAccepted => if k_answered k then None else Some (client_with (producer k) (copy_back k) false (Some (inl NotServed)) k)
      | OnCopyBack p =>
          if k_answered k then
            c ← copy_poll (copy_back_kind (k_max k)) (k_idle k) (k_clock k) (k_cancelled k) p (copy_back k);
            Some (client_with (producer k) c (k_joined k) (copied_back c) k)
          else None
      | ProducerJoined =>
          if negb (k_answered k) || k_joined k then None
          else
            match result_of (producer k) with
            | None => None
            | Some (inl e) => Some (client_with (producer k) (copy_back k) false (Some (inl (Relayed e))) k)
            | Some (inr _) => Some (client_with (producer k) (copy_back k) true None k)
            end
      | ShutdownSeen =>
          if k_cancelled k && negb (k_joined k)
          then Some (client_with (producer k) (copy_back k) false (Some (inl (Relayed Cancelled))) k) else None
      | ClientTick elapsed =>
          if 0 <=? elapsed
          then Some (mkClient (k_max k) (k_idle k) (k_clock k + elapsed) (k_cancelled k) (k_answered k) (producer k) (copy_back k) (k_joined k) None)
          else None
      | Shutdown => Some (mkClient (k_max k) (k_idle k) (k_clock k) true (k_answered k) (producer k) (copy_back k) (k_joined k) None)
      end
  end.

(** ** Both tasks and the HTTP/2 stream between them *)

(** [up] and [down] are the bytes of the two bodies that are under way.  A body
    ends for its reader once its writer is gone and its bytes are read; the
    network may break it earlier. *)
Record Tunnel := mkTunnel { client : Client; server : Stream; up : bytes; down : bytes }.

Inductive TunnelEvent := AtClient (e : ClientEvent) | AtServer (e : StreamEvent).

Definition body_read (p : Poll) (buffer : bytes) (writer_gone : bool) : bool :=
  match p with
  | ReadReady data => bool_decide (ztake (zlen data) buffer = data)
  | ReadEnd => bool_decide (buffer = []) && writer_gone
  | _ => true
  end.

Definition upload_over (k : Client) : bool := finished (producer k) || bool_decide (k_outcome k <> None).

Definition tunnel_step (e : TunnelEvent) (t : Tunnel) : option Tunnel :=
  match e with
  | AtClient e =>
      if (match e with OnCopyBack p => body_read p (down t) (response_ended (server t)) | _ => true end) then
        k ← client_step e (client t);
        Some (mkTunnel k (server t)
          (match e with OnProducer p => up t ++ taken p (producer (client t)) | _ => up t end)
          (match e with OnCopyBack p => zdrop (zlen (given p)) (down t) | _ => down t end))
      else None
  | AtServer e =>
      if (match e with OnRequest p => body_read p (up t) (upload_over (client t)) | _ => true end) then
        s ← stream_step e (server t);
        Some (mkTunnel (client t) s
          (match e with OnRequest p => zdrop (zlen (given p)) (up t) | _ => up t end)
          (match e with Deliver => down t ++ default [] (head (queue (server t))) | _ => down t end))
      else None
  end.

Fixpoint tunnel_run (es : list TunnelEvent) (t : Tunnel) : option Tunnel :=
  match es with [] => Some t | e :: es => t ← tunnel_step e t; tunnel_run es t end.

Definition tunnel_new (client_max client_idle server_max server_idle now : Z) : Tunnel :=
  mkTunnel (client_new client_max client_idle now) (stream_new server_max server_idle now) [] [].

(** ** Lemmas: what a step of a loop does to its logs *)

Lemma copy_poll_logs k idle now x p c c' : copy_poll k idle now x p c = Some c' ->
  read_log c' = read_log c ++ given p /\ write_log c' = write_log c ++ taken p c /\ (at_end c' = true -> at_end c = true \/ p = ReadEnd).
Proof.
  unfold copy_poll, taken, given. destruct (phase c) as [|rest| |r]; [| | |done]; destruct p as [| |data| |e|n|e| |e]; try done;
    try case_if; try done; intros [= <-]; cbn [finish read_log write_log at_end]; rewrite ?app_nil_r; try (split_and!; by auto).
  - unfold count. cbn. destruct (match c_limit k with Some _ => _ | None => _ end); cbn; auto.
  - unfold end_read. case_if; cbn; auto.
  - unfold take_bytes. destruct (Z.eqb_spec n 0) as [->|]; [cbn; rewrite ztake_0, app_nil_r; auto|]. case_if; cbn; auto.
Qed.

Lemma done_well k idle now c t : copy_ok k idle now c -> result_of c = Some (inr t) ->
  at_end c = true /\ write_log c = read_log c /\ closed c = c_shutdown k /\ t = total c /\ finished c = true.
Proof.
  intros [(held & Hh & Hc & Hp) H2 H3 H4 H5 H6 H7]. unfold result_of, finished. destruct (phase c) as [| | |r]; try done. intros [= ->]. subst held.
  rewrite app_nil_r in Hh. split_and!; try done. by apply H5.
Qed.

Lemma closed_well k idle now c : copy_ok k idle now c -> closed c = true -> exists t, result_of c = Some (inr t).
Proof. intros H Hc. rewrite (ck_closed _ _ _ _ H) in Hc. unfold result_of. destruct (phase c) as [| | |[|t]]; try done. by exists t. Qed.

Lemma split_read (a b data : bytes) : ztake (zlen data) b = data -> a ++ b = (a ++ data) ++ zdrop (zlen data) b.
Proof. intros H. rewrite <- app_assoc. f_equal. rewrite <- H at 1. by rewrite ztake_zdrop. Qed.

(** ** Lemmas: the server's task *)

Record stream_ok (m idle : Z) (s : Stream) : Prop := {
  so_params : s_max s = m /\ s_idle s = idle;
  so_request : copy_ok (request_kind m) idle (s_clock s) (request_task s);
  so_body : copy_ok (forward m) idle (s_clock s) (body_to_backend s);
  so_response : copy_ok (response_kind m) idle (s_clock s) (backend_to_response s);
  so_duplex : write_log (request_task s) = read_log (body_to_backend s) ++ duplex s;
  so_room : zlen (duplex s) <= DUPLEX_BYTES /\ zlen (queue s) <= RESPONSE_QUEUE;
  so_end : at_end (body_to_backend s) = true -> duplex s = [] /\ closed (request_task s) = true;
  so_queue : write_log (backend_to_response s) = delivered s ++ concat (queue s);
  so_outcome : match s_outcome s with
    | Some (inr (a, b)) => result_of (request_task s) = Some (inr a) /\ (exists n, result_of (body_to_backend s) = Some (inr n)) /\
        result_of (backend_to_response s) = Some (inr b)
    | _ => True
    end }.

Lemma stream_new_ok m idle now : 0 <= m -> stream_ok m idle (stream_new m idle now).
Proof.
  intros Hm. constructor; cbn; try done.
  1-3: apply copy_new_ok; by intros ? [= <-].
Qed.

Lemma join_ok m idle s : stream_ok m idle s -> stream_ok m idle (join s).
Proof.
  intros [H1 H2 H3 H4 H5 H6 H7 H8 H9]. constructor; try done. cbn.
  destruct (result_of (request_task s)) as [[|]|], (result_of (body_to_backend s)) as [[|]|], (result_of (backend_to_response s)) as [[|]|]; try done. eauto.
Qed.

Lemma closed_stays k idle now x p c c' : copy_poll k idle now x p c = Some c' -> copy_ok k idle now c -> closed c = false.
Proof. intros Hp%copy_poll_unfinished Hc. rewrite (ck_closed _ _ _ _ Hc). unfold finished in Hp. by destruct (phase c). Qed.

Lemma stream_step_ok m idle e s s' : stream_ok m idle s -> stream_step e s = Some s' -> stream_ok m idle s'.
Proof.
  intros Hs. pose proof Hs as [[E1 E2] H2 H3 H4 H5 H6 H7 H8 H9]. unfold stream_step. destruct e as [p|p|p| |elapsed|].
  - destruct (s_outcome s) eqn:En; [done|]. case_if; [|done]. rewrite E1, E2. destruct (copy_poll _ _ _ _ p _) as [c|] eqn:Ep; cbn; [|done]. intros [= <-].
    apply join_ok. destruct (copy_poll_logs _ _ _ _ _ _ _ Ep) as (_ & Hw & _). constructor; cbn; try done.
    + by eapply copy_poll_ok.
    + by rewrite Hw, H5, app_assoc.
    + split; [|by destruct H6]. unfold duplex_write in *. destruct p; cbn; rewrite ?app_nil_r; try by destruct H6.
      destruct (phase (request_task s)); cbn; rewrite ?app_nil_r; try by destruct H6. bool_prop. rewrite zlen_app, zlen_ztake. pose proof (zlen_nonneg rest). lia.
    + intros [_ Hcl]%H7. by rewrite (closed_stays _ _ _ _ _ _ _ Ep) in Hcl.
  - destruct (s_outcome s) eqn:En; [done|]. case_if; [|done]. rewrite E1, E2. destruct (copy_poll _ _ _ _ p _) as [c|] eqn:Ep; cbn; [|done]. intros [= <-].
    apply join_ok. destruct (copy_poll_logs _ _ _ _ _ _ _ Ep) as (Hr & _ & He). constructor; cbn; try done.
    + by eapply copy_poll_ok.
    + rewrite Hr, H5. unfold duplex_read, given in *. destruct p; bool_prop; try by rewrite app_nil_r. by apply split_read.
    + split; [|by destruct H6]. rewrite zlen_zdrop. destruct H6. lia.
    + intros Hend. destruct (He Hend) as [[Hd Hcl]%H7| ->]; [rewrite Hd; unfold zdrop; by rewrite drop_nil|]. cbn [duplex_read] in *. apply andb_true_iff in Heqb as [Hd%bool_decide_eq_true Hcl]. by rewrite Hd.
  - destruct (s_outcome s) eqn:En; [done|]. case_if; [|done]. rewrite E1, E2. destruct (copy_poll _ _ _ _ p _) as [c|] eqn:Ep; cbn; [|done]. intros [= <-].
    apply join_ok. destruct (copy_poll_logs _ _ _ _ _ _ _ Ep) as (_ & Hw & _). constructor; cbn; try done.
    + by eapply copy_poll_ok.
    + split; [by destruct H6|]. unfold channel_write in *. destruct p; try by destruct H6. bool_prop. rewrite zlen_app. unfold zlen in *. cbn. lia.
    + rewrite Hw, H8. destruct p; cbn; rewrite ?app_nil_r; try done. by rewrite concat_app, app_assoc; cbn; rewrite app_nil_r.
  - destruct (queue s) as [|frame q] eqn:Eq; [done|]. intros [= <-]. constructor; cbn; try done.
    + split; [by destruct H6|]. destruct H6 as [_ H6]. rewrite zlen_cons in H6. lia.
    + by rewrite H8; cbn; rewrite app_assoc.
  - destruct (s_outcome s) eqn:En; [done|]. case_if; [|done]. bool_prop. intros [= <-]. constructor; cbn; try done; (eapply copy_ok_later; [|done]; lia).
  - destruct (s_outcome s) eqn:En; [done|]. intros [= <-]. by constructor.
Qed.

(** ** Lemmas: the client's task *)

Record client_ok (m idle : Z) (k : Client) : Prop := {
  co_params : k_max k = m /\ k_idle k = idle;
  co_producer : copy_ok producer_kind idle (k_clock k) (producer k);
  co_copy_back : copy_ok (copy_back_kind m) idle (k_clock k) (copy_back k);
  co_unanswered : k_answered k = false -> read_log (copy_back k) = [] /\ at_end (copy_back k) = false;
  co_outcome : k_outcome k = Some (inr tt) -> closed (copy_back k) = true }.

Lemma client_new_ok m idle now : 0 <= m -> client_ok m idle (client_new m idle now).
Proof. intros Hm. constructor; cbn; try done; by apply copy_new_ok; intros ? [= <-]. Qed.

Lemma client_step_ok m idle e k k' : 0 <= m -> client_ok m idle k -> client_step e k = Some k' -> client_ok m idle k'.
Proof.
  intros Hm [[E1 E2] H1 H2 Hun H3]. unfold client_step. destruct (k_outcome k) eqn:En; [done|]. rewrite E1, E2. destruct e as [p| | |p| | |elapsed|].
  - destruct (copy_poll _ _ _ _ p _) as [c|] eqn:Ep; cbn; [|done]. intros [= <-]. constructor; cbn; try done. by eapply copy_poll_ok.
  - case_if; [done|]. intros [= <-]. constructor; cbn; try done. apply copy_new_ok; by intros ? [= <-].
  - case_if; [done|]. intros [= <-]. constructor; cbn; try done. intros _. by apply Hun.
  - destruct (k_answered k) eqn:Ea; [|done]. destruct (copy_poll _ _ _ _ p _) as [c|] eqn:Ep; cbn; [|done]. intros [= <-].
    apply copy_poll_ok in Ep; [|done]. constructor; cbn; try done; [by rewrite Ea|].
    unfold copied_back. destruct (result_of c) as [[|]|] eqn:Er; try done. intros _. by apply (done_well _ _ _ _ _ Ep) in Er as (_ & _ & -> & _).
  - case_if; [done|]. destruct (result_of (producer k)) as [[|]|]; [| |done]; intros [= <-]; by constructor.
  - case_if; [|done]. intros [= <-]. by constructor.
  - case_if; [|done]. bool_prop. intros [= <-]. constructor; cbn; try done; (eapply copy_ok_later; [|done]; lia).
  - intros [= <-]. by constructor.
Qed.

Lemma upload_over_stays e k k' : client_step e k = Some k' -> upload_over k = true -> upload_over k' = true.
Proof.
  unfold client_step, upload_over. destruct (k_outcome k) eqn:En; [done|]. rewrite orb_false_r. destruct e as [p| | |p| | |elapsed|].
  - destruct (copy_poll _ _ _ _ p _) as [c|] eqn:Ep; cbn; [|done]. apply copy_poll_unfinished in Ep. by rewrite Ep.
  - case_if; [done|]. intros [= <-] H. cbn. by rewrite H.
  - case_if; [done|]. intros [= <-] H. cbn. by rewrite H.
  - case_if; [|done]. destruct (copy_poll _ _ _ _ p _) as [c|] eqn:Ep; cbn; [|done]. intros [= <-] H. cbn. by rewrite H.
  - case_if; [done|]. destruct (result_of (producer k)) as [[|]|]; [| |done]; intros [= <-] H; cbn; by rewrite H.
  - case_if; [|done]. intros [= <-] H. cbn. by rewrite H.
  - case_if; [|done]. intros [= <-] H. cbn. by rewrite H.
  - intros [= <-] H. cbn. by rewrite H.
Qed.

(** What a client step does to the logs that the tunnel joins. *)
Lemma client_step_logs m idle e k k' : client_ok m idle k -> client_step e k = Some k' ->
  write_log (producer k') = write_log (producer k) ++ match e with OnProducer p => taken p (producer k) | _ => [] end /\
  read_log (copy_back k') = read_log (copy_back k) ++ match e with OnCopyBack p => given p | _ => [] end /\
  (at_end (copy_back k') = true -> at_end (copy_back k) = true \/ e = OnCopyBack ReadEnd) /\
  match e with OnProducer _ => upload_over k = false | _ => True end.
Proof.
  intros Hk. pose proof (co_unanswered _ _ _ Hk) as Hun. clear Hk. unfold client_step, upload_over.
  destruct (k_outcome k) eqn:En; [done|]. destruct e as [p| | |p| | |elapsed|].
  - destruct (copy_poll _ _ _ _ p _) as [c|] eqn:Ep; cbn; [|done]. intros [= <-]. apply copy_poll_unfinished in Ep as Hu.
    apply copy_poll_logs in Ep as (_ & Hw & _). cbn. rewrite app_nil_r, Hu. auto.
  - destruct (k_answered k); [done|]. destruct (Hun eq_refl) as [-> ->]. intros [= <-]; cbn; rewrite !app_nil_r; auto.
  - case_if; [done|]. intros [= <-]; cbn; rewrite !app_nil_r; auto.
  - case_if; [|done]. destruct (copy_poll _ _ _ _ p _) as [c|] eqn:Ep; cbn; [|done]. intros [= <-].
    apply copy_poll_logs in Ep as (Hr & _ & He). cbn. rewrite app_nil_r. split_and!; [done|done| |done]. intros [| ->]%He; auto.
  - case_if; [done|]. destruct (result_of (producer k)) as [[|]|]; [| |done]; intros [= <-]; cbn; rewrite !app_nil_r; auto.
  - case_if; [|done]. intros [= <-]; cbn; rewrite !app_nil_r; auto.
  - case_if; [|done]. intros [= <-]; cbn; rewrite !app_nil_r; auto.
  - intros [= <-]; cbn; rewrite !app_nil_r; auto.
Qed.

(** The same of a server step. *)
Lemma stream_step_logs e s s' : stream_step e s = Some s' ->
  read_log (request_task s') = read_log (request_task s) ++ match e with OnRequest p => given p | _ => [] end /\
  delivered s' = delivered s ++ match e with Deliver => default [] (head (queue s)) | _ => [] end /\
  (at_end (request_task s') = true -> at_end (request_task s) = true \/ e = OnRequest ReadEnd) /\
  (response_ended s = true -> response_ended s' = true /\ e <> Deliver).
Proof.
  unfold stream_step, response_ended. destruct e as [p|p|p| |elapsed|].
  - destruct (s_outcome s) eqn:En; [done|]. case_if; [|done]. destruct (copy_poll _ _ _ _ p _) as [c|] eqn:Ep; cbn; [|done]. intros [= <-].
    apply copy_poll_logs in Ep as (Hr & _ & He). cbn. rewrite app_nil_r. split_and!; [done|done| |done]. intros [| ->]%He; auto.
  - destruct (s_outcome s) eqn:En; [done|]. case_if; [|done]. destruct (copy_poll _ _ _ _ p _) as [c|] eqn:Ep; cbn; [|done]. intros [= <-]. cbn. rewrite !app_nil_r. split_and!; by auto.
  - destruct (s_outcome s) eqn:En; [done|]. case_if; [|done]. destruct (copy_poll _ _ _ _ p _) as [c|] eqn:Ep; cbn; [|done]. intros [= <-]. cbn. rewrite !app_nil_r. split_and!; by auto.
  - destruct (queue s) as [|frame q] eqn:Eq; [done|]. intros [= <-]. cbn. rewrite app_nil_r. split_and!; auto. by rewrite andb_false_r.
  - destruct (s_outcome s) eqn:En; [done|]. case_if; [|done]. intros [= <-]. cbn. rewrite !app_nil_r. split_and!; by auto.
  - destruct (s_outcome s) eqn:En; [done|]. intros [= <-]. cbn. rewrite !app_nil_r. split_and!; by auto.
Qed.

(** ** Lemmas: the tunnel *)

Record tunnel_ok (cm ci sm si : Z) (t : Tunnel) : Prop := {
  to_client : client_ok cm ci (client t);
  to_server : stream_ok sm si (server t);
  to_up : write_log (producer (client t)) = read_log (request_task (server t)) ++ up t;
  to_down : delivered (server t) = read_log (copy_back (client t)) ++ down t;
  to_up_end : at_end (request_task (server t)) = true -> up t = [] /\ upload_over (client t) = true;
  to_down_end : at_end (copy_back (client t)) = true -> down t = [] /\ response_ended (server t) = true }.

Lemma tunnel_new_ok cm ci sm si now : 0 <= cm -> 0 <= sm -> tunnel_ok cm ci sm si (tunnel_new cm ci sm si now).
Proof. intros. constructor; cbn; try done; [by apply client_new_ok|by apply stream_new_ok]. Qed.

(** Reading from a body keeps what is read in front of what is under way. *)
Lemma body_read_ok p a b gone : body_read p b gone = true -> a ++ b = (a ++ given p) ++ zdrop (zlen (given p)) b.
Proof.
  unfold body_read, given. destruct p; try (intros _; by rewrite app_nil_r).
  intros H%bool_decide_eq_true. by apply split_read.
Qed.

Lemma body_read_empty p (b : bytes) : b = [] -> zdrop (zlen (given p)) b = [].
Proof. intros ->. unfold zdrop. by rewrite drop_nil. Qed.

Lemma tunnel_step_ok cm ci sm si e t t' : 0 <= cm -> tunnel_ok cm ci sm si t -> tunnel_step e t = Some t' -> tunnel_ok cm ci sm si t'.
Proof.
  intros Hcm [Hc Hs Hu Hd Hue Hde]. unfold tunnel_step. destruct e as [e|e]; case_if; try done.
  - destruct (client_step e (client t)) as [k|] eqn:Ek; cbn; [|done]. intros [= <-].
    destruct (client_step_logs _ _ _ _ _ Hc Ek) as (Hw & Hr & He & Hlate). constructor; cbn; try done.
    + by eapply client_step_ok.
    + rewrite Hw, Hu. destruct e; rewrite ?app_nil_r, <- ?app_assoc; done.
    + rewrite Hr, Hd. destruct e; rewrite ?app_nil_r; try done. by eapply body_read_ok.
    + intros [Hup Hov]%Hue. split; [|by eapply upload_over_stays]. destruct e; try done. by rewrite Hov in Hlate.
    + intros [[Hdn Hov]%Hde| ->]%He.
      * split; [|done]. destruct e; try done. by apply body_read_empty.
      * cbn in Heqb |- *. apply andb_true_iff in Heqb as [Hdn%bool_decide_eq_true Hov]. by rewrite Hdn.
  - destruct (stream_step e (server t)) as [s|] eqn:Es; cbn; [|done]. intros [= <-].
    destruct (stream_step_logs _ _ _ Es) as (Hr & Hdl & He & Hlate). constructor; cbn; try done.
    + by eapply stream_step_ok.
    + rewrite Hr, Hu. destruct e; rewrite ?app_nil_r; try done. by eapply body_read_ok.
    + rewrite Hdl, Hd. destruct e; rewrite ?app_nil_r, <- ?app_assoc; done.
    + intros [[Hup Hov]%Hue| ->]%He.
      * split; [|done]. destruct e; try done. by apply body_read_empty.
      * cbn in Heqb |- *. apply andb_true_iff in Heqb as [Hup%bool_decide_eq_true Hov]. by rewrite Hup.
    + intros [Hdn Hov]%Hde. destruct (Hlate Hov) as [Hre Hne]. split; [|done]. by destruct e.
Qed.

Lemma tunnel_run_ok cm ci sm si es t t' : 0 <= cm -> tunnel_ok cm ci sm si t -> tunnel_run es t = Some t' -> tunnel_ok cm ci sm si t'.
Proof.
  intros Hcm. revert t. induction es as [|e es IH]; intros t Ht; cbn [tunnel_run]; [by intros [= <-]|].
  destruct (tunnel_step e t) as [t1|] eqn:E; cbn; [|done]. apply IH. by eapply tunnel_step_ok.
Qed.

(** ** Theorems *)

(** C39: a stream through the edge is transparent.  Whatever the local socket, the
    backend and the network do and however the five copying loops and the
    clocks are interleaved, the backend has been given a prefix of what the
    local side sent, and the local side a prefix of what the backend sent, each
    within the limits of both ends, with at most one buffer in the duplex pipe
    and 32 frames in the response channel.  When the server's task returns its
    totals and the producer ended well, the backend has everything the local
    side sent and its write half is closed; and once the local side is closed as
    well, it has everything the backend sent. *)
Theorem tunnel_transparent client_max client_idle server_max server_idle now es t :
  0 <= client_max -> 0 <= server_max ->
  tunnel_run es (tunnel_new client_max client_idle server_max server_idle now) = Some t ->
  let c := client t in
  let s := server t in
  (exists rest, read_log (producer c) = write_log (body_to_backend s) ++ rest) /\
  (exists rest, read_log (backend_to_response s) = write_log (copy_back c) ++ rest) /\
  zlen (write_log (body_to_backend s)) <= server_max /\
  zlen (write_log (copy_back c)) <= Z.min client_max server_max /\
  zlen (duplex s) <= DUPLEX_BYTES /\ zlen (queue s) <= RESPONSE_QUEUE /\
  (forall bytes_in bytes_out, s_outcome s = Some (inr (bytes_in, bytes_out)) ->
     (failed (producer c) = false -> finished (producer c) = true ->
        at_end (producer c) = true /\ write_log (body_to_backend s) = read_log (producer c) /\
        closed (body_to_backend s) = true /\ bytes_in = zlen (read_log (producer c))) /\
     at_end (backend_to_response s) = true /\ bytes_out = zlen (read_log (backend_to_response s)) /\
     (closed (copy_back c) = true -> write_log (copy_back c) = read_log (backend_to_response s))).
Proof.
  intros Hcm Hsm Hr c s. assert (tunnel_ok client_max client_idle server_max server_idle t) as [Hc Hs Hu Hd Hue Hde].
  { eapply tunnel_run_ok; [done| |exact Hr]. by apply tunnel_new_ok. }
  fold c in Hc, Hu, Hd, Hue, Hde. fold s in Hs, Hu, Hd, Hue, Hde. clearbody c s. destruct Hc as [_ Cp Cb _ _]. destruct Hs as [_ Sq Sb Sr Sd [Sx Sy] Se Sw So].
  destruct (ck_held _ _ _ _ Cp) as (h1 & P1 & _), (ck_held _ _ _ _ Sq) as (h2 & P2 & _), (ck_held _ _ _ _ Sb) as (h3 & P3 & _),
    (ck_held _ _ _ _ Sr) as (h4 & P4 & _), (ck_held _ _ _ _ Cb) as (h5 & P5 & _).
  assert (read_log (backend_to_response s) = write_log (copy_back c) ++ h5 ++ down t ++ concat (queue s) ++ h4) as Pd.
  { by rewrite P4, Sw, Hd, P5, <- !app_assoc. }
  split_and!; try done.
  - exists (h3 ++ duplex s ++ h2 ++ up t ++ h1). by rewrite P1, Hu, P2, Sd, P3, <- !app_assoc.
  - eauto.
  - by apply (ck_limit _ _ _ _ Sb server_max).
  - apply Z.min_glb; [by apply (ck_limit _ _ _ _ Cb client_max)|].
    destruct (ck_limit _ _ _ _ Sr server_max eq_refl) as [Hl _]. revert Hl. rewrite Sw, Hd, P5. repeat rewrite zlen_app.
    pose proof (zlen_nonneg h5). pose proof (zlen_nonneg (down t)). pose proof (zlen_nonneg (concat (queue s))). lia.
  - intros a b Ho. rewrite Ho in So. destruct So as (R1 & (n & R2) & R3).
    destruct (done_well _ _ _ _ _ Sq R1) as (E1 & W1 & K1 & T1 & _), (done_well _ _ _ _ _ Sb R2) as (E2 & W2 & K2 & _ & _),
      (done_well _ _ _ _ _ Sr R3) as (E3 & W3 & K3 & T3 & _).
    destruct (Hue E1) as [Hup _]. destruct (Se E2) as [Hdu _].
    assert (forall k idle now m c t, copy_ok k idle now c -> c_limit k = Some m -> result_of c = Some (inr t) -> total c = zlen (read_log c)) as Htot.
    { intros k i n' m c' t' Hk Hm Hrr. destruct (ck_limit _ _ _ _ Hk m Hm) as [_ Hx]. unfold result_of in Hrr. destruct (phase c') as [| | |[|]]; try done. by destruct Hx. }
    split_and!; [|done| |].
    + intros Hnf Hfin. assert (exists x, result_of (producer c) = Some (inr x)) as [x Hx].
      { unfold failed, finished, result_of in *. destruct (phase (producer c)) as [| | |[|]]; try done. eauto. }
      destruct (done_well _ _ _ _ _ Cp Hx) as (E5 & W5 & _). rewrite Hup, app_nil_r in Hu. rewrite Hdu, app_nil_r in Sd.
      split_and!; [done|congruence|done|]. rewrite T1, (Htot _ _ _ _ _ _ Sq eq_refl R1). congruence.
    + by rewrite T3, (Htot _ _ _ _ _ _ Sr eq_refl R3).
    + intros Hcl. destruct (closed_well _ _ _ _ Cb Hcl) as [x Hx]. destruct (done_well _ _ _ _ _ Cb Hx) as (E5 & W5 & _).
      destruct (Hde E5) as [Hdn Hre]. unfold response_ended in Hre. apply andb_true_iff in Hre as [_ Hq%bool_decide_eq_true].
      rewrite Hq in Sw. cbn in Sw. rewrite app_nil_r in Sw. rewrite Hdn, app_nil_r in Hd. congruence.
Qed.

(** Events of a connection's activity, each with its time. *)
Inductive ActivityEvent := Touched | Begun | Ended.

Definition activity_step (e : Z * ActivityEvent) (a : Http2Activity) : Http2Activity :=
  match e.2 with Touched => touch e.1 a | Begun => begin_stream e.1 a | Ended => end_stream e.1 a end.
Definition activity_run (es : list (Z * ActivityEvent)) (a : Http2Activity) : Http2Activity := fold_left (fun a e => activity_step e a) es a.

(** The streams that are open after some events, if every end has its beginning. *)
Fixpoint open_streams (n : Z) (es : list (Z * ActivityEvent)) : option Z :=
  match es with
  | [] => Some n
  | (_, Touched) :: es => open_streams n es
  | (_, Begun) :: es => open_streams (n + 1) es
  | (_, Ended) :: es => if 1 <=? n then open_streams (n - 1) es else None
  end.

(** A connection is only closed for idleness when it has no open stream and
    nothing has happened on it for the whole timeout. *)
Theorem idle_means_idle es start now idle_timeout n : 0 < idle_timeout ->
  StronglySorted Z.le (start :: map fst es) -> open_streams 0 es = Some n ->
  is_idle idle_timeout now (activity_run es (activity_new start)) = true ->
  n = 0 /\ Forall (fun t => t + idle_timeout <= now) (start :: map fst es).
Proof.
  intros Hi Hs Hn. unfold activity_new, is_idle, saturating_sub. intros Hidle. apply andb_true_iff in Hidle as [Ha Hl]. bool_prop.
  assert (forall a, 0 <= active_streams a -> StronglySorted Z.le (last_activity a :: map fst es) -> open_streams (active_streams a) es = Some n ->
    active_streams (activity_run es a) = n /\ Forall (fun t => t <= last_activity (activity_run es a)) (last_activity a :: map fst es)) as Hrun.
  { clear. induction es as [|[t e] es IH]; intros a H0 Hs; cbn [open_streams activity_run fold_left map fst]; [intros [= <-]; split; [done|by constructor]|].
    apply StronglySorted_inv in Hs as [Hs Hle]. apply Forall_cons in Hle as [Hta _]. cbn in Hta.
    assert (last_activity (activity_step (t, e) a) = t) as Et by (by destruct e).
    specialize (IH (activity_step (t, e) a)). rewrite Et in IH. intros Ho.
    assert (active_streams (activity_run es (activity_step (t, e) a)) = n /\ Forall (fun x => x <= last_activity (activity_run es (activity_step (t, e) a))) (t :: map fst es)) as [H1 H2].
    { apply IH; [destruct e; cbn; unfold saturating_sub; lia|done|]. destruct e; cbn; try done. unfold saturating_sub. case_if; bool_prop.
      by rewrite Z.max_r by lia. }
    split; [done|]. constructor; [|done]. apply Forall_cons in H2 as [H2 _]. unfold activity_run in H2. lia. }
  destruct (Hrun (mkActivity start 0)) as [H1 H2]; [done|done|done|]. split; [cbn in *; congruence|].
  eapply Forall_impl; [exact H2|]. cbn in *. intros t Ht. lia.
Qed.

(** ** Witnesses *)

Module Witnesses.

Definition exchange : list TunnelEvent :=
  [AtClient (OnProducer (ReadReady [1; 2; 3])); AtClient (OnProducer (WriteTakes 3));
   AtServer (OnRequest (ReadReady [1; 2])); AtServer (OnRequest (WriteTakes 2));
   AtServer (OnResponse (ReadReady [9; 8])); AtServer (OnBody (ReadReady [1; 2])); AtServer (OnBody (WriteTakes 1));
   AtServer (OnRequest (ReadReady [3])); AtServer (OnRequest (WriteTakes 1)); AtServer (OnBody (WriteTakes 1));
   AtServer (OnResponse (WriteTakes 2)); AtServer Deliver; AtClient Accepted; AtClient (OnCopyBack (ReadReady [9; 8])); AtClient (OnCopyBack (WriteTakes 2));
   AtClient (OnProducer ReadEnd); AtClient ProducerJoined; AtServer (OnRequest ReadEnd); AtServer (OnRequest ShutDown);
   AtServer (OnBody (ReadReady [3])); AtServer (OnBody (WriteTakes 1)); AtServer (OnBody ReadEnd); AtServer (OnBody ShutDown);
   AtServer (OnResponse ReadEnd); AtClient (OnCopyBack ReadEnd); AtClient (OnCopyBack ShutDown)].

Lemma tunnel_transparent_witness :
  exists t, tunnel_run exchange (tunnel_new 100 30 100 30 0) = Some t /\ s_outcome (server t) = Some (inr (3, 2)) /\ k_outcome (client t) = Some (inr tt) /\
    write_log (body_to_backend (server t)) = read_log (producer (client t)) /\ write_log (copy_back (client t)) = read_log (backend_to_response (server t)).
Proof.
  destruct (tunnel_run exchange (tunnel_new 100 30 100 30 0)) as [t|] eqn:E; [|vm_compute in E; discriminate E]. exists t.
  pose proof (tunnel_transparent 100 30 100 30 0 exchange t ltac:(lia) ltac:(lia) E) as (_ & _ & _ & _ & _ & _ & H).
  vm_compute in E. injection E as <-. split_and!; [done|done|done| |].
  - apply (H 3 2 eq_refl); done.
  - apply (H 3 2 eq_refl). done.
Defined.

(** A response that breaks off ends like one that is complete: the server's task
    fails, since nothing was read from the request for the idle timeout, while the
    backend still sends; the client's task ends without an error. *)
Theorem broken_response_looks_complete :
  exists es t, tunnel_run es (tunnel_new 100 30 100 30 0) = Some t /\
    s_outcome (server t) = Some (inl IdleTimeout) /\ k_outcome (client t) = Some (inr tt) /\
    at_end (backend_to_response (server t)) = false /\ read_log (backend_to_response (server t)) = [9; 8; 7] /\ write_log (copy_back (client t)) = [9; 8].
Proof.
  exists [AtClient Accepted; AtServer (OnResponse (ReadReady [9; 8])); AtServer (OnResponse (WriteTakes 2)); AtServer (StreamTick 30); AtServer (OnResponse (ReadReady [7]));
    AtServer (OnRequest TimerFired); AtServer Deliver; AtClient (OnCopyBack (ReadReady [9; 8])); AtClient (OnCopyBack (WriteTakes 2));
    AtClient (OnCopyBack ReadEnd); AtClient (OnCopyBack ShutDown)].
  eexists. split; [vm_compute; reflexivity|]. done.
Qed.
End Witnesses.
