(* ===== verification/EnvelopePolicy.v ===== *)
(** Envelope policy agreement (shph-transport/src/envelope_policy.rs): the offer
    each peer makes inside the authenticated session, its 127-byte encoding, the
    negotiation of a common policy and the acknowledgement both peers compare. *)
From S2P Require Import Net.
From S2P Require Import Prelude Error Text Primitives Stealth Obfuscation PhantomOne Cover.

Definition POLICY_MAGIC : bytes := str_bytes "SHPH-POL" ++ [2].
Definition OFFER_BYTES : Z := 127.
Definition MAX_EXCHANGE_BYTES : Z := 512.
Definition PROFILE_MASK : Z := 63.
Definition MAX_FRAME_BUDGET : Z := Z.shiftl 1 48.
Definition MAX_PAYLOAD_BUDGET : Z := Z.shiftl 1 60.

(** ** Directional frame budgets *)

Record FrameBudget := mkFrameBudget { max_frames : Z; max_payload_bytes : Z }.

Definition budget_validate (b : FrameBudget) : result unit :=
  if (max_frames b =? 0) || (MAX_FRAME_BUDGET <? max_frames b)
     || (max_payload_bytes b =? 0) || (MAX_PAYLOAD_BUDGET <? max_payload_bytes b)
  then Err (protocol "invalid directional frame budget") else Ok ().

Definition intersect (b peer : FrameBudget) : FrameBudget :=
  mkFrameBudget (Z.min (max_frames b) (max_frames peer))
    (Z.min (max_payload_bytes b) (max_payload_bytes peer)).

Definition FrameBudget_default : FrameBudget := mkFrameBudget (Z.shiftl 1 32) (Z.shiftl 1 40).

(** ** Policies and offers *)

Record NegotiatedPolicy := mkNegotiatedPolicy {
  n_config : PhantomOneConfig;
  n_outbound_frame_limit : Z;
  n_inbound_frame_limit : Z;
  n_outbound_budget : FrameBudget;
  n_inbound_budget : FrameBudget
}.

Record EnvelopeOffer := mkEnvelopeOffer {
  binding : bytes;
  supported_profiles : Z;
  o_config : PhantomOneConfig;
  outbound_frame_limit : Z;
  inbound_frame_limit : Z;
  outbound_budget : FrameBudget;
  inbound_budget : FrameBudget;
  cover : option CoverPolicy
}.

(** [PhantomOneEncoder::from_seed_with_config(0, 0, config)?]: the encoder is
    dropped, so a unit stands for its generator. *)
Definition construction_check (config : PhantomOneConfig) : result unit :=
  let? _encoder := encoder_with_config 0 tt config in Ok ().

Definition same_policy_settings (left right : PhantomOneConfig) : bool :=
  (min_padding left =? min_padding right)
  && (max_padding left =? max_padding right)
  && match selection left, selection right with
     | FirstFit, FirstFit => true
     | Weighted l, Weighted r => bytes_eqb l r
     | _, _ => false
     end
  && bool_decide (padding_budget left = padding_budget right)
  && Bool.eqb (profile_bound left) (profile_bound right).

Definition profile_config (config : PhantomOneConfig) (p : ProfileTier) : result PhantomOneConfig :=
  let? candidate :=
    (if profile_bound config then Ok (config_with_profile p config)
     else if bool_decide (profile config = p) then Ok config
     else Err (protocol "unbound envelope policy supports only its configured profile")) in
  do? construction_check candidate;
  Ok candidate.

(** ** Parsing the transcript hash *)

Fixpoint radix_digits (max : Z) (digits : bytes) (acc : Z) : option Z :=
  match digits with
  | [] => Some acc
  | c :: digits =>
      match checked_mul max acc 16, hex_value c with
      | Some acc, Some d =>
          match checked_add max acc d with Some acc => radix_digits max digits acc | None => None end
      | _, _ => None
      end
  end.

(** [from_str_radix(src, 16)] of a type up to [max]: a leading plus sign is skipped. *)
Definition from_str_radix (max : Z) (src : bytes) : option Z :=
  match src with
  | [] | [43] | [45] => None
  | 43 :: digits => radix_digits max digits 0
  | _ => radix_digits max src 0
  end.

Definition is_ascii (s : string) : bool := forallb (fun b => b <? 128) (str_bytes s).

(** The loop of [parse_binding] over the [n] remaining bytes of the binding. *)
Fixpoint parse_pairs (hex : bytes) (index : Z) (n : nat) : result bytes :=
  match n with
  | O => Ok []
  | S n' =>
      let? pair := slice hex (index * 2) (index * 2 + 2) in
      let? value := ok_or (from_str_radix u8_max pair) (protocol "invalid transcript hash") in
      let? rest := parse_pairs hex (index + 1) n' in
      Ok (value :: rest)
  end.

Definition parse_binding (transcript_hex : string) : result bytes :=
  if negb (zlen (str_bytes transcript_hex) =? 64) || negb (is_ascii transcript_hex)
  then Err (protocol "policy requires a 32-byte transcript hash")
  else parse_pairs (str_bytes transcript_hex) 0 32.

(** ** Building an offer *)

Definition profile_bit (p : ProfileTier) : Z := Z.shiftl 1 (tier_id p).

(** [mask & (1 << profile.id()) != 0] *)
Definition supports (mask : Z) (p : ProfileTier) : bool :=
  negb (Z.land mask (profile_bit p) =? 0).

Definition EnvelopeOffer_new (transcript_hex : string) (config : PhantomOneConfig) (frame_limit : Z)
  : result EnvelopeOffer :=
  if negb (zlen (str_bytes transcript_hex) =? 64) || negb (is_ascii transcript_hex)
  then Err (protocol "policy requires a 32-byte transcript hash")
  else
    let? binding := parse_binding transcript_hex in
    do? validate_path_mtu frame_limit;
    do? construction_check config;
    Ok (mkEnvelopeOffer binding (profile_bit (profile config)) config
          (cast 16 frame_limit) (cast 16 frame_limit) FrameBudget_default FrameBudget_default None).

(** The loop of [with_supported_profiles]. *)
Fixpoint profile_mask (config : PhantomOneConfig) (profiles : list ProfileTier) (mask : Z) : result Z :=
  match profiles with
  | [] => Ok mask
  | p :: profiles =>
      if supports mask p then Err (protocol "duplicate supported policy profile")
      else
        let? _candidate := profile_config config p in
        profile_mask config profiles (Z.lor mask (profile_bit p))
  end.

Definition with_supported_profiles (profiles : list ProfileTier) (o : EnvelopeOffer)
  : result EnvelopeOffer :=
  if (zlen profiles =? 0) || (6 <? zlen profiles)
  then Err (protocol "policy must advertise 1..6 supported profiles")
  else
    let? mask := profile_mask (o_config o) profiles 0 in
    if negb (supports mask (profile (o_config o)))
    then Err (protocol "supported profiles omit the preferred profile")
    else if negb (profile_bound (o_config o)) && negb (mask =? profile_bit (profile (o_config o)))
    then Err (protocol "multiple profiles require a profile-bound envelope configuration")
    else Ok (mkEnvelopeOffer (binding o) mask (o_config o) (outbound_frame_limit o)
               (inbound_frame_limit o) (outbound_budget o) (inbound_budget o) (cover o)).

Definition with_directional_limits (outbound inbound : Z) (o : EnvelopeOffer) : result EnvelopeOffer :=
  do? validate_path_mtu outbound;
  do? validate_path_mtu inbound;
  let? outbound := ok_or (try_from u16_max outbound) (protocol "outbound frame limit is too large") in
  let? inbound := ok_or (try_from u16_max inbound) (protocol "inbound frame limit is too large") in
  Ok (mkEnvelopeOffer (binding o) (supported_profiles o) (o_config o) outbound inbound
        (outbound_budget o) (inbound_budget o) (cover o)).

Definition with_directional_budgets (outbound inbound : FrameBudget) (o : EnvelopeOffer)
  : result EnvelopeOffer :=
  do? budget_validate outbound;
  do? budget_validate inbound;
  Ok (mkEnvelopeOffer (binding o) (supported_profiles o) (o_config o) (outbound_frame_limit o)
        (inbound_frame_limit o) outbound inbound (cover o)).

Definition with_cover (c : option CoverPolicy) (o : EnvelopeOffer) : result EnvelopeOffer :=
  do? (match c with Some policy => cover_validate policy | None => Ok () end);
  Ok (mkEnvelopeOffer (binding o) (supported_profiles o) (o_config o) (outbound_frame_limit o)
        (inbound_frame_limit o) (outbound_budget o) (inbound_budget o) c).

(** ** Encoding *)

Definition encode_budget (b : FrameBudget) : bytes :=
  be_bytes 8 (max_frames b) ++ be_bytes 8 (max_payload_bytes b).

Definition encode_cover (c : option CoverPolicy) : bytes :=
  match c with
  | Some c => [1] ++ be_bytes 4 (interval_ms c) ++ be_bytes 4 (idle_timeout_ms c)
              ++ be_bytes 8 (maximum_bytes c) ++ be_bytes 2 (overhead_percent c)
  | None => zreplicate 19 0
  end.

Definition selection_fields (s : SizeSelection) : Z * list Z :=
  match s with FirstFit => (0, zreplicate 7 0) | Weighted weights => (1, weights) end.

Definition encode_offer (o : EnvelopeOffer) : bytes :=
  let c := o_config o in
  let '(tag, weights) := selection_fields (selection c) in
  POLICY_MAGIC ++ binding o
  ++ [tier_id (profile c); supported_profiles o; if profile_bound c then 1 else 0]
  ++ be_bytes 2 (cast 16 (min_padding c)) ++ be_bytes 2 (cast 16 (max_padding c))
  ++ [tag] ++ flat_map (be_bytes 2) weights
  ++ [if bool_decide (is_Some (padding_budget c)) then 1 else 0]
  ++ be_bytes 8 (default 0 (padding_budget c))
  ++ be_bytes 2 (outbound_frame_limit o) ++ be_bytes 2 (inbound_frame_limit o)
  ++ encode_budget (outbound_budget o) ++ encode_budget (inbound_budget o)
  ++ encode_cover (cover o).

(** ** Decoding *)

(** [uN::from_be_bytes(bytes[a..b].try_into().unwrap())] *)
Definition be_range (d : bytes) (a b : Z) : result Z := let? s := slice d a b in Ok (be_val s).

(** The weights from offset [o]. *)
Fixpoint read_weights (d : bytes) (o : Z) (n : nat) : result (list Z) :=
  match n with
  | O => Ok []
  | S n' => let? w := be_at d o 2 in let? ws := read_weights d (o + 2) n' in Ok (w :: ws)
  end.

Definition decode_profiles (d : bytes) : result (ProfileTier * Z) :=
  let? id := index d 41 in
  let? prof := ok_or (tier_from_id id) (protocol "unknown policy profile") in
  let? supported := index d 42 in
  if (supported =? 0) || negb (Z.land supported (Z.lxor PROFILE_MASK u8_max) =? 0)
     || negb (supports supported prof)
  then Err (protocol "invalid supported-profile set")
  else Ok (prof, supported).

Definition decode_config (d : bytes) (prof : ProfileTier) : result PhantomOneConfig :=
  let? minimum := be_at d 44 2 in
  let? maximum := be_at d 46 2 in
  let? config := PhantomOneConfig_new minimum maximum in
  let? bound := index d 43 in
  let? config :=
    (if (bound =? 0) && bool_decide (prof = Medium) then Ok config
     else if bound =? 1 then Ok (config_with_profile prof config)
     else Err (protocol "noncanonical profile binding")) in
  let? weights := read_weights d 49 7 in
  let? tag := index d 48 in
  let? sel :=
    (if (tag =? 0) && bytes_eqb weights (zreplicate 7 0) then Ok FirstFit
     else if tag =? 1 then Ok (Weighted weights)
     else Err (protocol "invalid policy selection")) in
  let? config := with_selection sel config in
  let? budget := be_range d 64 72 in
  let? flag := index d 63 in
  if (flag =? 0) && (budget =? 0) then Ok config
  else if flag =? 1 then Ok (with_padding_budget budget config)
  else Err (protocol "invalid padding budget encoding").

Definition decode_budget (d : bytes) (o : Z) : result FrameBudget :=
  let? frames := be_range d o (o + 8) in
  let? payload := be_range d (o + 8) (o + 16) in
  Ok (mkFrameBudget frames payload).

(** [for id in 0..6] over the supported profiles. *)
Fixpoint check_supported (config : PhantomOneConfig) (supported : Z) (ids : list Z) : result unit :=
  match ids with
  | [] => Ok ()
  | id :: ids =>
      do? (if negb (Z.land supported (Z.shiftl 1 id) =? 0) then
             let? p := ok_or (tier_from_id id) (protocol "unknown policy profile") in
             let? _candidate := profile_config config p in Ok ()
           else Ok ());
      check_supported config supported ids
  end.

Definition decode_cover (d : bytes) : result (option CoverPolicy) :=
  let? flag := index d 108 in
  let? tail := slice_from d 109 in
  if (flag =? 0) && forallb (fun byte => byte =? 0) tail then Ok None
  else if flag =? 1 then
    let? interval := be_range d 109 113 in
    let? idle := be_range d 113 117 in
    let? maximum := be_range d 117 125 in
    let? overhead := be_range d 125 127 in
    let policy := mkCoverPolicy interval idle maximum overhead in
    do? cover_validate policy;
    Ok (Some policy)
  else Err (protocol "invalid cover policy encoding").

Definition PROFILE_IDS : list Z := [0; 1; 2; 3; 4; 5].

Definition decode_offer (d : bytes) : result EnvelopeOffer :=
  if negb (zlen d =? OFFER_BYTES)
  then Err (protocol "unsupported or malformed envelope policy")
  else
    let? magic := slice d 0 9 in
    if negb (bytes_eqb magic POLICY_MAGIC)
    then Err (protocol "unsupported or malformed envelope policy")
    else
      let? ' (prof, supported) := decode_profiles d in
      let? config := decode_config d prof in
      let? outbound := be_at d 72 2 in
      let? inbound := be_at d 74 2 in
      do? validate_path_mtu outbound;
      do? validate_path_mtu inbound;
      let? outbound_budget := decode_budget d 76 in
      let? inbound_budget := decode_budget d 92 in
      do? budget_validate outbound_budget;
      do? budget_validate inbound_budget;
      do? check_supported config supported PROFILE_IDS;
      let? cover := decode_cover d in
      let? binding := slice d 9 41 in
      Ok (mkEnvelopeOffer binding supported config outbound inbound outbound_budget inbound_budget cover).

(** ** Negotiation *)

(** The key of [min_by_key]: the peers that do not prefer the profile, then its
    identifier. *)
Definition profile_key (mine theirs p : ProfileTier) : Z * Z :=
  ((if bool_decide (p = mine) then 0 else 1) + (if bool_decide (p = theirs) then 0 else 1), tier_id p).

Definition key_leb (a b : Z * Z) : bool := (a.1 <? b.1) || ((a.1 =? b.1) && (a.2 <=? b.2)).

(** [Iterator::min_by_key]: the first of the least elements. *)
Definition min_by_key {A} (key : A -> Z * Z) (l : list A) : option A :=
  match l with
  | [] => None
  | x :: l => Some (fold_left (fun best y => if key_leb (key best) (key y) then best else y) l x)
  end.

Definition common_profile (mine theirs : ProfileTier) (common : Z) : option ProfileTier :=
  min_by_key (profile_key mine theirs)
    (omap tier_from_id (List.filter (fun id => negb (Z.land common (Z.shiftl 1 id) =? 0)) PROFILE_IDS)).

Definition negotiate (o peer : EnvelopeOffer) : result NegotiatedPolicy :=
  if negb (bytes_eqb (binding o) (binding peer))
     || negb (same_policy_settings (o_config o) (o_config peer))
     || negb (bool_decide (cover o = cover peer))
  then Err (protocol "envelope policies or authenticated sessions do not match")
  else
    let common := Z.land (supported_profiles o) (supported_profiles peer) in
    let? p := ok_or (common_profile (profile (o_config o)) (profile (o_config peer)) common)
                (protocol "peers have no common envelope profile") in
    let? config := profile_config (o_config o) p in
    let? _theirs := profile_config (o_config peer) p in
    Ok (mkNegotiatedPolicy config
          (Z.min (outbound_frame_limit o) (inbound_frame_limit peer))
          (Z.min (inbound_frame_limit o) (outbound_frame_limit peer))
          (intersect (outbound_budget o) (inbound_budget peer))
          (intersect (inbound_budget o) (outbound_budget peer))).

Definition agree (o peer : EnvelopeOffer) : result Z :=
  let? agreement := negotiate o peer in
  Ok (Z.min (n_outbound_frame_limit agreement) (n_inbound_frame_limit agreement)).

(** The bytes [acknowledgement] hashes. *)
Definition ack_message (o peer : EnvelopeOffer) (agreement : NegotiatedPolicy) : bytes :=
  let local := encode_offer o in
  let remote := encode_offer peer in
  let local_first := bytes_leb local remote in
  let offers := if local_first then local ++ remote else remote ++ local in
  let '(first_limit, second_limit, first_budget, second_budget) :=
    if local_first
    then (n_outbound_frame_limit agreement, n_inbound_frame_limit agreement,
          n_outbound_budget agreement, n_inbound_budget agreement)
    else (n_inbound_frame_limit agreement, n_outbound_frame_limit agreement,
          n_inbound_budget agreement, n_outbound_budget agreement) in
  str_bytes "SHPH-policy-ack-v2" ++ [0] ++ offers ++ [tier_id (profile (n_config agreement))]
  ++ be_bytes 2 (cast 16 first_limit) ++ be_bytes 2 (cast 16 second_limit)
  ++ encode_budget first_budget ++ encode_budget second_budget.

Definition acknowledgement `{HashOps} (o peer : EnvelopeOffer) : result bytes :=
  let? agreement := negotiate o peer in
  Ok (sha256 (ack_message o peer agreement)).

(** ** Lemmas: reading a concatenation of chunks *)

Definition sum_list (l : list Z) : Z := fold_right Z.add 0 l.

Lemma sum_list_app l k : sum_list (l ++ k) = sum_list l + sum_list k.
Proof. unfold sum_list. induction l as [|x l IH]; cbn; lia. Qed.

Lemma zlen_concat (cs : list bytes) : zlen (concat cs) = sum_list (map zlen cs).
Proof. induction cs as [|c cs IH]; [done|]. cbn. rewrite zlen_app, IH. done. Qed.

Lemma slice_chunk (cs : list bytes) i a b c :
  cs !! i = Some c -> sum_list (map zlen (take i cs)) = a -> a + zlen c = b ->
  slice (concat cs) a b = Ok c.
Proof.
  intros Hi Ha Hb. rewrite <- (take_drop_middle cs i c Hi) at 1.
  rewrite concat_app. cbn [concat]. apply slice_app; [by rewrite zlen_concat|lia].
Qed.

Lemma slice_chunk_from (cs : list bytes) i a :
  sum_list (map zlen (take i cs)) = a ->
  slice_from (concat cs) a = Ok (concat (drop i cs)).
Proof.
  rewrite <- zlen_concat. intros <-. rewrite <- (take_drop i cs) at 1.
  rewrite concat_app, slice_from_ok by zl. by rewrite zdrop_app.
Qed.

Lemma slice_inv {A} (l : list A) a b c :
  slice l a b = Ok c -> exists pre post, l = pre ++ c ++ post /\ zlen pre = a /\ zlen c = b - a.
Proof.
  unfold slice. intros E. case_if. injection E as <-. bool_prop.
  exists (ztake a l), (zdrop (b - a) (zdrop a l)). rewrite ztake_zdrop, ztake_zdrop.
  split; [done|]. zl.
Qed.

Lemma index_of_slice (l : bytes) a x : slice l a (a + 1) = Ok [x] -> index l a = Ok x.
Proof.
  intros Hs. apply slice_inv in Hs as (pre & post & -> & <- & _).
  rewrite index_app_r by lia. by rewrite Z.sub_diag.
Qed.

Lemma index_bytes_of_slice (l : bytes) a c :
  slice l a (a + zlen c) = Ok c -> index_bytes l a (length c) = Ok c.
Proof.
  revert a. induction c as [|x c IH]; intros a Hs; [done|].
  apply slice_inv in Hs as (pre & post & -> & <- & _). cbn [length index_bytes].
  rewrite index_app_r, Z.sub_diag by lia. rewrite <- app_comm_cons, index_cons_0. cbn [rbind].
  rewrite <- app_comm_cons in IH.
  rewrite (IH (zlen pre + 1)); [done|].
  replace (pre ++ x :: c ++ post) with ((pre ++ [x]) ++ c ++ post) by by rewrite <- app_assoc.
  apply slice_app; [by rewrite zlen_app|lia].
Qed.

Lemma be_at_of_slice (l : bytes) a n x :
  slice l a (a + Z.of_nat n) = Ok (be_bytes n x) -> 0 <= x < 256 ^ Z.of_nat n -> be_at l a n = Ok x.
Proof.
  intros Hs Hx. unfold be_at. pose proof (index_bytes_of_slice l a (be_bytes n x)) as E.
  rewrite zlen_be_bytes, length_be_bytes in E. rewrite (E Hs). cbn [rbind].
  by rewrite be_val_be_bytes.
Qed.

Lemma be_range_of_slice (l : bytes) a b n x :
  slice l a b = Ok (be_bytes n x) -> 0 <= x < 256 ^ Z.of_nat n -> be_range l a b = Ok x.
Proof. intros Hs Hx. unfold be_range. rewrite Hs. cbn [rbind]. by rewrite be_val_be_bytes. Qed.

Lemma forallb_zeros_be n x :
  0 <= x < 256 ^ Z.of_nat n -> forallb (fun byte => byte =? 0) (be_bytes n x) = (x =? 0).
Proof.
  intros Hx. apply eq_iff_eq_true. rewrite Z.eqb_eq. split; intros E.
  - assert (be_bytes n x = replicate n 0) as Eb.
    { rewrite <- (length_be_bytes n x) at 2. induction (be_bytes n x) as [|b l IH]; [done|].
      cbn in *. apply andb_true_iff in E as [->%Z.eqb_eq E]. f_equal. by apply IH. }
    rewrite <- (be_val_be_bytes n x Hx), Eb. clear. unfold be_val.
    induction n as [|n IH]; [done|exact IH].
  - subst x. clear Hx. induction n as [|n IH]; [done|].
    change (be_bytes (S n) 0) with ((0 / 256 ^ Z.of_nat n) mod 256 :: be_bytes n 0).
    cbn [forallb]. rewrite IH, andb_true_r. by rewrite Zdiv_0_l.
Qed.

(** ** Lemmas: the fields of an encoded offer *)

Record OfferFields := mkOfferFields {
  f_magic : bytes; f_binding : bytes; f_id : Z; f_mask : Z; f_bound : Z;
  f_min : Z; f_max : Z; f_tag : Z; f_weights : list Z; f_flag : Z; f_pad : Z;
  f_out : Z; f_in : Z; f_of : Z; f_op : Z; f_if : Z; f_ip : Z;
  f_cflag : Z; f_interval : Z; f_idle : Z; f_maximum : Z; f_percent : Z
}.

Definition chunks (f : OfferFields) : list bytes :=
  [f_magic f; f_binding f; [f_id f]; [f_mask f]; [f_bound f]; be_bytes 2 (f_min f); be_bytes 2 (f_max f);
   [f_tag f]] ++ map (be_bytes 2) (f_weights f) ++
  [[f_flag f]; be_bytes 8 (f_pad f); be_bytes 2 (f_out f); be_bytes 2 (f_in f);
   be_bytes 8 (f_of f); be_bytes 8 (f_op f); be_bytes 8 (f_if f); be_bytes 8 (f_ip f);
   [f_cflag f]; be_bytes 4 (f_interval f); be_bytes 4 (f_idle f); be_bytes 8 (f_maximum f);
   be_bytes 2 (f_percent f)].

Definition u64_ok (x : Z) : Prop := 0 <= x < 256 ^ Z.of_nat 8.
Definition u32_ok (x : Z) : Prop := 0 <= x < 256 ^ Z.of_nat 4.
Definition u16_ok (x : Z) : Prop := 0 <= x < 256 ^ Z.of_nat 2.

Definition fields_ok (f : OfferFields) : Prop :=
  zlen (f_magic f) = 9 /\ zlen (f_binding f) = 32 /\ bytes_ok (f_binding f) /\
  (exists a b c d e g h, f_weights f = [a; b; c; d; e; g; h] /\
     Forall u16_ok [a; b; c; d; e; g; h]) /\
  Forall is_byte [f_id f; f_mask f; f_bound f; f_tag f; f_flag f; f_cflag f] /\
  Forall u16_ok [f_min f; f_max f; f_out f; f_in f; f_percent f] /\
  Forall u32_ok [f_interval f; f_idle f] /\
  Forall u64_ok [f_pad f; f_of f; f_op f; f_if f; f_ip f; f_maximum f].

(** Cutting a chunk off the front of [len] bytes. *)
Lemma cut n len (l : bytes) : bytes_ok l -> zlen l = len -> 0 <= n <= len ->
  exists c r, l = c ++ r /\ (zlen c = n /\ bytes_ok c) /\ bytes_ok r /\ zlen r = len - n.
Proof.
  intros Hl <- Hn. exists (ztake n l), (zdrop n l). rewrite ztake_zdrop.
  split; [done|]. split; [split; [zl|auto with bytes]|]. split; [auto with bytes|zl].
Qed.

Lemma cut_be n len (l : bytes) : bytes_ok l -> zlen l = len -> Z.of_nat n <= len ->
  exists x r, l = be_bytes n x ++ r /\ 0 <= x < 256 ^ Z.of_nat n /\ bytes_ok r /\ zlen r = len - Z.of_nat n.
Proof.
  intros Hl Hlen Hn. destruct (cut (Z.of_nat n) len l) as (c & r & -> & [Hc Hcb] & Hr & Hz); [done|done|lia|].
  exists (be_val c), r. pose proof (be_val_bound c Hcb) as Hv. rewrite Hc in Hv. split_and!; try done; try lia.
  rewrite <- (be_bytes_be_val c Hcb) at 1. do 2 f_equal. unfold zlen in Hc. lia.
Qed.

Lemma cut_byte len (l : bytes) : bytes_ok l -> zlen l = len -> 1 <= len ->
  exists x r, l = [x] ++ r /\ is_byte x /\ bytes_ok r /\ zlen r = len - 1.
Proof.
  intros Hl <- Hn. destruct l as [|x r]; [by rewrite zlen_nil in Hn|].
  inversion Hl; subst. exists x, r. split_and!; try done. rewrite zlen_cons. lia.
Qed.

(** [eat lem x]: cut the next field [x] off the rest of the input. *)
Tactic Notation "eat" constr(lem) ident(x) :=
  match goal with
  | B : bytes_ok ?d, L : zlen ?d = ?n |- _ =>
      let r := fresh "rest" in
      destruct (lem n d B L) as (x & r & -> & ? & ? & ?); [lia|]; clear B L
  end.

Lemma fields_of d :
  zlen d = OFFER_BYTES -> bytes_ok d -> exists f, fields_ok f /\ d = concat (chunks f).
Proof.
  intros Hd Hb. unfold OFFER_BYTES in Hd.
  eat (cut 9) magic. eat (cut 32) bind.
  eat cut_byte pid. eat cut_byte mask. eat cut_byte bound. eat (cut_be 2) mn. eat (cut_be 2) mx. eat cut_byte tag.
  eat (cut_be 2) w0. eat (cut_be 2) w1. eat (cut_be 2) w2. eat (cut_be 2) w3. eat (cut_be 2) w4.
  eat (cut_be 2) w5. eat (cut_be 2) w6. eat cut_byte flag. eat (cut_be 8) pad. eat (cut_be 2) ol. eat (cut_be 2) il.
  eat (cut_be 8) f1. eat (cut_be 8) f2. eat (cut_be 8) f3. eat (cut_be 8) f4. eat cut_byte cflag.
  eat (cut_be 4) iv. eat (cut_be 4) idle. eat (cut_be 8) maxb. eat (cut_be 2) pct.
  match goal with L : zlen ?r = _ |- _ => apply zlen_0_inv in L as -> end.
  exists (mkOfferFields magic bind pid mask bound mn mx tag [w0; w1; w2; w3; w4; w5; w6] flag pad ol il
    f1 f2 f3 f4 cflag iv idle maxb pct).
  split; [|reflexivity]. unfold fields_ok. cbn [f_magic f_binding f_weights f_id f_mask f_bound f_tag f_flag
    f_cflag f_min f_max f_out f_in f_percent f_interval f_idle f_pad f_of f_op f_if f_ip f_maximum].
  split_and!; try easy; try (by repeat (constructor; [assumption|])).
  exists w0, w1, w2, w3, w4, w5, w6. split; [done|]. by repeat (constructor; [assumption|]).
Qed.

(** The widths of the chunks. *)
Definition WIDTHS : list Z :=
  [9; 32; 1; 1; 1; 2; 2; 1; 2; 2; 2; 2; 2; 2; 2; 1; 8; 2; 2; 8; 8; 8; 8; 1; 4; 4; 8; 2].

Lemma chunk_widths f : fields_ok f -> map zlen (chunks f) = WIDTHS.
Proof.
  intros (Hm & Hb & _ & (a & b & c & d & e & g & h & Ew & _) & _).
  unfold chunks. rewrite Ew. cbn [map app]. rewrite !zlen_be_bytes, Hm, Hb. reflexivity.
Qed.

Section Fields.
Context (f : OfferFields) (f_ok : fields_ok f).

Lemma chunk_at i a b c :
  chunks f !! i = Some c -> sum_list (take i WIDTHS) = a -> sum_list (take (S i) WIDTHS) = b ->
  slice (concat (chunks f)) a b = Ok c.
Proof.
  intros Hi Ha Hb. apply (slice_chunk _ i).
  - done.
  - by rewrite <- firstn_map, chunk_widths.
  - rewrite <- Ha, <- Hb, <- (chunk_widths f f_ok), !firstn_map.
    rewrite (take_S_r _ _ _ Hi), map_app, sum_list_app.
    cbn. lia.
Qed.

Lemma byte_at i a x :
  chunks f !! i = Some [x] -> sum_list (take i WIDTHS) = a -> sum_list (take (S i) WIDTHS) = a + 1 ->
  index (concat (chunks f)) a = Ok x.
Proof. intros Hi Ha Hb. by apply index_of_slice, (chunk_at i). Qed.

Lemma int_at i a n x :
  chunks f !! i = Some (be_bytes n x) -> 0 <= x < 256 ^ Z.of_nat n ->
  sum_list (take i WIDTHS) = a -> sum_list (take (S i) WIDTHS) = a + Z.of_nat n ->
  be_at (concat (chunks f)) a n = Ok x.
Proof. intros Hi Hx Ha Hb. apply be_at_of_slice; [by apply (chunk_at i)|done]. Qed.

Lemma range_at i a b n x :
  chunks f !! i = Some (be_bytes n x) -> 0 <= x < 256 ^ Z.of_nat n ->
  sum_list (take i WIDTHS) = a -> sum_list (take (S i) WIDTHS) = b ->
  be_range (concat (chunks f)) a b = Ok x.
Proof. intros Hi Hx Ha Hb. apply (be_range_of_slice _ _ _ n); [by apply (chunk_at i)|done]. Qed.

(** The chunks after the weights sit at fixed positions. *)
Lemma chunks_tail i c :
  chunks f !! (15 + i)%nat = Some c <->
  [[f_flag f]; be_bytes 8 (f_pad f); be_bytes 2 (f_out f); be_bytes 2 (f_in f);
   be_bytes 8 (f_of f); be_bytes 8 (f_op f); be_bytes 8 (f_if f); be_bytes 8 (f_ip f);
   [f_cflag f]; be_bytes 4 (f_interval f); be_bytes 4 (f_idle f); be_bytes 8 (f_maximum f);
   be_bytes 2 (f_percent f)] !! i = Some c.
Proof.
  destruct f_ok as (_ & _ & _ & (a & b & c' & d & e & g & h & Ew & _) & _).
  unfold chunks. rewrite Ew. reflexivity.
Qed.

Lemma bounds_ok : 
  (u16_ok (f_min f) /\ u16_ok (f_max f) /\ u16_ok (f_out f) /\ u16_ok (f_in f) /\ u16_ok (f_percent f)) /\
  (u32_ok (f_interval f) /\ u32_ok (f_idle f)) /\
  u64_ok (f_pad f) /\ u64_ok (f_of f) /\ u64_ok (f_op f) /\ u64_ok (f_if f) /\ u64_ok (f_ip f) /\ u64_ok (f_maximum f).
Proof.
  destruct f_ok as (_ & _ & _ & _ & _ & H2 & H4 & H8). rewrite !Forall_cons in *. tauto.
Qed.

Lemma read_weights_ok : read_weights (concat (chunks f)) 49 7 = Ok (f_weights f).
Proof.
  destruct f_ok as (_ & _ & _ & (a & b & c & d & e & g & h & Ew & Hw) & _).
  rewrite !Forall_cons in Hw. destruct Hw as (W0 & W1 & W2 & W3 & W4 & W5 & W6 & _).
  cbn [read_weights].
  rewrite (int_at 8 _ _ a); [|unfold chunks; by rewrite Ew|done..]. cbn [rbind].
  rewrite (int_at 9 _ _ b); [|unfold chunks; by rewrite Ew|done..]. cbn [rbind].
  rewrite (int_at 10 _ _ c); [|unfold chunks; by rewrite Ew|done..]. cbn [rbind].
  rewrite (int_at 11 _ _ d); [|unfold chunks; by rewrite Ew|done..]. cbn [rbind].
  rewrite (int_at 12 _ _ e); [|unfold chunks; by rewrite Ew|done..]. cbn [rbind].
  rewrite (int_at 13 _ _ g); [|unfold chunks; by rewrite Ew|done..]. cbn [rbind].
  rewrite (int_at 14 _ _ h); [|unfold chunks; by rewrite Ew|done..]. cbn [rbind].
  by rewrite Ew.
Qed.
End Fields.

(** ** Well-formed offers *)

Definition config_built (c : PhantomOneConfig) : Prop :=
  config_wf c /\ validate c = Ok () /\ (profile_bound c = false -> profile c = Medium).

Definition budget_ok (b : FrameBudget) : Prop :=
  1 <= max_frames b <= MAX_FRAME_BUDGET /\ 1 <= max_payload_bytes b <= MAX_PAYLOAD_BUDGET.

Definition limit_ok (n : Z) : Prop := PHANTOM_ONE_HEADER_BYTES <= n <= PHANTOM_ONE_MAX_ENVELOPE_BYTES.

Definition mask_ok (c : PhantomOneConfig) (mask : Z) : Prop :=
  0 < mask <= PROFILE_MASK /\ supports mask (profile c) = true /\
  forall p, supports mask p = true -> is_ok (profile_config c p) = true.

Definition offer_wf (o : EnvelopeOffer) : Prop :=
  (zlen (binding o) = 32 /\ bytes_ok (binding o)) /\
  config_built (o_config o) /\ mask_ok (o_config o) (supported_profiles o) /\
  (limit_ok (outbound_frame_limit o) /\ limit_ok (inbound_frame_limit o)) /\
  (budget_ok (outbound_budget o) /\ budget_ok (inbound_budget o)) /\
  match cover o with Some c => policy_ok c | None => True end.

Definition cover_fields (c : option CoverPolicy) : Z * Z * Z * Z * Z :=
  match c with
  | Some c => (1, interval_ms c, idle_timeout_ms c, maximum_bytes c, overhead_percent c)
  | None => (0, 0, 0, 0, 0)
  end.

Definition offer_fields (o : EnvelopeOffer) : OfferFields :=
  let c := o_config o in
  let '(tag, ws) := selection_fields (selection c) in
  let '(cflag, interval, idle, maximum, percent) := cover_fields (cover o) in
  mkOfferFields POLICY_MAGIC (binding o) (tier_id (profile c)) (supported_profiles o)
    (if profile_bound c then 1 else 0) (min_padding c) (max_padding c) tag ws
    (if bool_decide (is_Some (padding_budget c)) then 1 else 0) (default 0 (padding_budget c))
    (outbound_frame_limit o) (inbound_frame_limit o)
    (max_frames (outbound_budget o)) (max_payload_bytes (outbound_budget o))
    (max_frames (inbound_budget o)) (max_payload_bytes (inbound_budget o))
    cflag interval idle maximum percent.

Lemma validate_ok c :
  validate c = Ok () <->
  validate_selection c = Ok () /\ min_padding c <= max_padding c <= PHANTOM_ONE_MAX_PADDING_BYTES.
Proof.
  unfold validate. destruct (validate_selection c) as [[]|e|]; cbn [rbind]; [|naive_solver..].
  destruct (Z.ltb_spec (max_padding c) (min_padding c)); [split; [done|lia]|].
  destruct (Z.ltb_spec PHANTOM_ONE_MAX_PADDING_BYTES (max_padding c)); [split; [done|lia]|].
  split; [|done]. by intros _.
Qed.

Lemma construction_check_ok c : construction_check c = Ok () <-> validate c = Ok ().
Proof. unfold construction_check, encoder_with_config. by destruct (validate c) as [[]|e|]. Qed.

Lemma concat_be ws : flat_map (be_bytes 2) ws = concat (map (be_bytes 2) ws).
Proof. induction ws as [|w ws IH]; [done|]. cbn. by rewrite IH. Qed.

Lemma config_built_padding c : config_built c ->
  0 <= min_padding c <= PHANTOM_ONE_MAX_PADDING_BYTES /\ 0 <= max_padding c <= PHANTOM_ONE_MAX_PADDING_BYTES.
Proof. intros ((? & _) & Hv & _). apply validate_ok in Hv. lia. Qed.

Lemma cast_small w x : 0 <= x < 2 ^ w -> cast w x = x.
Proof. intros. unfold cast. by apply Z.mod_small. Qed.

Lemma encode_offer_chunks o : offer_wf o -> encode_offer o = concat (chunks (offer_fields o)).
Proof.
  intros (_ & Hc & _). destruct (config_built_padding _ Hc) as [Hmin Hmax].
  unfold PHANTOM_ONE_MAX_PADDING_BYTES in *.
  unfold encode_offer, offer_fields, chunks.
  rewrite !cast_small by lia.
  destruct (selection_fields _) as [tag ws]. unfold encode_budget.
  destruct (cover o) as [c|]; cbn [cover_fields encode_cover f_magic f_binding f_id f_mask f_bound f_min f_max
    f_tag f_weights f_flag f_pad f_out f_in f_of f_op f_if f_ip f_cflag f_interval f_idle f_maximum f_percent];
    rewrite concat_app, concat_app; cbn [concat]; rewrite concat_be, ?app_nil_r, <- ?app_assoc; reflexivity.
Qed.

Lemma byte_bit (b : bool) : is_byte (if b then 1 else 0).
Proof. by destruct b. Qed.

Lemma tier_id_byte p : is_byte (tier_id p).
Proof. by destruct p. Qed.

Lemma selection_fields_ok c :
  match selection c with
  | Weighted ws => zlen ws = 7 /\ Forall (fun w => 0 <= w <= u16_max) ws
  | FirstFit => True
  end ->
  exists tag a b c' d e g h, selection_fields (selection c) = (tag, [a; b; c'; d; e; g; h]) /\
    is_byte tag /\ Forall u16_ok [a; b; c'; d; e; g; h].
Proof.
  intros Hsel. destruct (selection c) as [|ws]; cbn [selection_fields].
  - exists 0, 0, 0, 0, 0, 0, 0, 0. split; [done|]. split; [done|]. by_compute.
  - destruct Hsel as [Hlen Hws]. do 7 (destruct ws as [|? ws]; [done|]).
    destruct ws; [|unfold zlen in Hlen; cbn in Hlen; lia].
    do 8 eexists. split; [done|]. split; [done|]. eapply Forall_impl; [exact Hws|].
    unfold u16_ok. cbn. unfold u16_max. lia.
Qed.

Lemma cover_fields_ok c :
  match c with Some c => policy_ok c | None => True end ->
  exists cf iv id mx pc, cover_fields c = (cf, iv, id, mx, pc) /\ is_byte cf /\
    u32_ok iv /\ u32_ok id /\ u64_ok mx /\ u16_ok pc.
Proof.
  intros Hc. destruct c as [p|]; cbn [cover_fields]; do 5 eexists; (split; [done|]).
  - destruct Hc as (? & ? & ? & ?). unfold u32_ok, u64_ok, u16_ok. cbn. split_and!; (done || lia).
  - split_and!; done.
Qed.

Lemma offer_fields_ok o : offer_wf o -> fields_ok (offer_fields o).
Proof.
  intros ([Hbl Hbb] & Hc & (Hmask & _) & [Ho Hi] & [[Hof Hop] [Hif Hip]] & Hcov).
  destruct (config_built_padding _ Hc) as [Hmin Hmax]. destruct Hc as ((_ & Hsel & Hpad) & _).
  unfold PROFILE_MASK, PHANTOM_ONE_MAX_PADDING_BYTES, limit_ok, PHANTOM_ONE_HEADER_BYTES, PHANTOM_ONE_MAX_ENVELOPE_BYTES,
    u16_max, MAX_FRAME_BUDGET, MAX_PAYLOAD_BUDGET in *.
  change (Z.shiftl 1 48) with (2 ^ 48) in *. change (Z.shiftl 1 60) with (2 ^ 60) in *.
  destruct (selection_fields_ok (o_config o)) as (tag & a & b & c & d & e & g & h & Esel & Htag & Hws); [done|].
  destruct (cover_fields_ok (cover o)) as (cf & iv & id & mx & pc & Ecov & Hcf & Hiv & Hid & Hmx & Hpc); [done|].
  assert (u64_ok (default 0 (padding_budget (o_config o)))) as Hpadb.
  { unfold u64_ok. cbn. destruct (padding_budget (o_config o)); cbn; unfold u64_max in *; lia. }
  unfold offer_fields. rewrite Esel, Ecov. unfold fields_ok, u16_ok, u64_ok in *. cbn in *.
  pose proof (byte_bit (profile_bound (o_config o))). pose proof (tier_id_byte (profile (o_config o))).
  pose proof (byte_bit (bool_decide (is_Some (padding_budget (o_config o))))).
  split_and!; try done.
  - exists a, b, c, d, e, g, h. done.
  - rewrite !Forall_cons. unfold is_byte in *. split_and!; try done; lia.
  - rewrite !Forall_cons. split_and!; try done; lia.
  - rewrite !Forall_cons. split_and!; done.
  - rewrite !Forall_cons. split_and!; try done; lia.
Qed.

(** ** Lemmas: the stages of the decoder *)

Lemma mask_bits : forall m, In m (map Z.of_nat (seq 0 256)) ->
  (Z.land m (Z.lxor PROFILE_MASK u8_max) =? 0) = (m <=? PROFILE_MASK).
Proof.
  assert (forallb (fun m => Bool.eqb (Z.land m (Z.lxor PROFILE_MASK u8_max) =? 0) (m <=? PROFILE_MASK))
    (map Z.of_nat (seq 0 256)) = true) as E by (vm_compute; reflexivity).
  intros m Hm. by apply eqb_prop, (proj1 (forallb_forall _ _) E).
Qed.

Lemma byte_listed m : is_byte m -> In m (map Z.of_nat (seq 0 256)).
Proof.
  intros [H0 H1]. apply in_map_iff. exists (Z.to_nat m). split; [lia|]. apply in_seq. lia.
Qed.

Lemma budget_validate_ok b :
  0 <= max_frames b -> 0 <= max_payload_bytes b -> budget_validate b = Ok () <-> budget_ok b.
Proof.
  intros H0 H1. unfold budget_validate, budget_ok. destruct (_ || _) eqn:E; split; try done.
  - intros Hp. exfalso. revert E. rewrite !orb_true_iff, !Z.ltb_lt, !Z.eqb_eq. lia.
  - intros _. bool_prop. lia.
Qed.

Lemma budget_validate_of b : budget_ok b -> budget_validate b = Ok ().
Proof. intros Hb. apply budget_validate_ok; [..|done]; unfold budget_ok in Hb; lia. Qed.

Lemma check_supported_ok c m : 
  check_supported c m PROFILE_IDS = Ok () <->
  forall p, supports m p = true -> is_ok (profile_config c p) = true.
Proof.
  assert (forall p ids, check_supported c m (tier_id p :: ids) = Ok () <->
    (supports m p = true -> is_ok (profile_config c p) = true) /\ check_supported c m ids = Ok ()) as Hstep.
  { intros p ids. cbn [check_supported]. fold (profile_bit p). fold (supports m p). rewrite tier_from_id_id.
    destruct (supports m p); cbn [ok_or rbind]; [|naive_solver].
    destruct (profile_config c p); cbn [rbind is_ok]; naive_solver. }
  unfold PROFILE_IDS.
  rewrite (Hstep Low), (Hstep Medium), (Hstep High), (Hstep TunedLow), (Hstep TunedMedium), (Hstep TunedHigh).
  split; [intros H p; destruct p; tauto|]. intros H. split_and!; try apply H. done.
Qed.

Lemma profile_config_no_panic c p : config_wf c -> no_panic (profile_config c p).
Proof.
  intros Hc. unfold profile_config, construction_check, encoder_with_config.
  apply rbind_no_panic; [by repeat case_if|]. intros c' Hc'.
  apply rbind_no_panic; [|done]. apply rbind_no_panic; [|done].
  apply rbind_no_panic; [|done]. apply validate_total.
  destruct (profile_bound c); [by injection Hc' as <-|]. case_if. by injection Hc' as <-.
Qed.

Lemma check_supported_no_panic c m ids : config_wf c -> no_panic (check_supported c m ids).
Proof.
  intros Hc. induction ids as [|id ids IH]; [done|]. cbn [check_supported].
  apply rbind_no_panic; [|done]. case_if; [|done].
  apply rbind_no_panic; [apply ok_or_no_panic|]. intros p _.
  apply rbind_no_panic; [by apply profile_config_no_panic|done].
Qed.

Section Stages.
Context (f : OfferFields) (f_ok : fields_ok f).

Lemma decode_profiles_eq :
  decode_profiles (concat (chunks f)) =
  let? prof := ok_or (tier_from_id (f_id f)) (protocol "unknown policy profile") in
  if (f_mask f =? 0) || negb (f_mask f <=? PROFILE_MASK) || negb (supports (f_mask f) prof)
  then Err (protocol "invalid supported-profile set")
  else Ok (prof, f_mask f).
Proof.
  unfold decode_profiles. rewrite (byte_at f f_ok 2 _ (f_id f)) by done. cbn [rbind].
  destruct (tier_from_id (f_id f)) as [p|]; [|done]. cbn [ok_or rbind].
  rewrite (byte_at f f_ok 3 _ (f_mask f)) by done. cbn [rbind].
  destruct f_ok as (_ & _ & _ & _ & Hb & _). rewrite !Forall_cons in Hb.
  by rewrite mask_bits by (apply byte_listed; tauto).
Qed.

Lemma decode_profiles_ok p m :
  decode_profiles (concat (chunks f)) = Ok (p, m) <->
  f_id f = tier_id p /\ f_mask f = m /\ 0 < m <= PROFILE_MASK /\ supports m p = true.
Proof.
  rewrite decode_profiles_eq. destruct f_ok as (_ & _ & _ & _ & Hb & _). rewrite !Forall_cons in Hb.
  destruct Hb as (_ & Hm & _). unfold is_byte in Hm. split.
  - intros Hd. guards Hd. injection Hd as <- <-. apply tier_from_id_inv in Heqo.
    split_and!; (done || lia).
  - intros (-> & <- & Hr & Hs). rewrite tier_from_id_id. cbn [ok_or rbind].
    rewrite Hs, (proj2 (Z.eqb_neq _ _)), (proj2 (Z.leb_le _ _)) by lia. done.
Qed.

(** What the decoder checks of the configuration fields. *)
Definition config_of (p : ProfileTier) : result PhantomOneConfig :=
  let? config := PhantomOneConfig_new (f_min f) (f_max f) in
  let? config :=
    (if (f_bound f =? 0) && bool_decide (p = Medium) then Ok config
     else if f_bound f =? 1 then Ok (config_with_profile p config)
     else Err (protocol "noncanonical profile binding")) in
  let? sel :=
    (if (f_tag f =? 0) && bytes_eqb (f_weights f) (zreplicate 7 0) then Ok FirstFit
     else if f_tag f =? 1 then Ok (Weighted (f_weights f))
     else Err (protocol "invalid policy selection")) in
  let? config := with_selection sel config in
  if (f_flag f =? 0) && (f_pad f =? 0) then Ok config
  else if f_flag f =? 1 then Ok (with_padding_budget (f_pad f) config)
  else Err (protocol "invalid padding budget encoding").

Lemma decode_config_eq p : decode_config (concat (chunks f)) p = config_of p.
Proof.
  destruct (bounds_ok f f_ok) as ((? & ? & _) & _ & ? & _). unfold decode_config, config_of.
  rewrite (int_at f f_ok 5 _ _ (f_min f)), (int_at f f_ok 6 _ _ (f_max f)) by done. cbn [rbind].
  destruct (PhantomOneConfig_new _ _) as [c|e|]; cbn [rbind]; [|done..].
  rewrite (byte_at f f_ok 4 _ (f_bound f)) by done. cbn [rbind].
  destruct (if (f_bound f =? 0) && _ then _ else _) as [c1|e|]; cbn [rbind]; [|done..].
  rewrite read_weights_ok by done. cbn [rbind].
  rewrite (byte_at f f_ok 7 _ (f_tag f)) by done. cbn [rbind].
  destruct (if (f_tag f =? 0) && _ then _ else _) as [sel|e|]; cbn [rbind]; [|done..].
  destruct (with_selection sel c1) as [c2|e|]; cbn [rbind]; [|done..].
  rewrite (range_at f f_ok 16 _ _ 8 (f_pad f)) by (done || by apply (chunks_tail f f_ok 1)). cbn [rbind].
  by rewrite (byte_at f f_ok 15 _ (f_flag f)) by (done || by apply (chunks_tail f f_ok 0)).
Qed.

Definition config_fields (c : PhantomOneConfig) : Prop :=
  f_bound f = (if profile_bound c then 1 else 0) /\ f_min f = min_padding c /\ f_max f = max_padding c /\
  (f_tag f, f_weights f) = selection_fields (selection c) /\
  f_flag f = (if bool_decide (is_Some (padding_budget c)) then 1 else 0) /\
  f_pad f = default 0 (padding_budget c).

Lemma validate_padding_budget c b : validate (with_padding_budget b c) = validate c.
Proof. done. Qed.

Lemma config_of_fields p c : config_of p = Ok c -> profile c = p /\ config_fields c /\ config_built c.
Proof.
  destruct f_ok as (_ & _ & _ & (w0 & w1 & w2 & w3 & w4 & w5 & w6 & Ew & Hw) & _).
  destruct (bounds_ok f f_ok) as ((Hmn & Hmx & _) & _ & Hpad & _).
  unfold config_of. intros Hd. unfold PhantomOneConfig_new in Hd. apply rbind_ok in Hd as (c0 & Hc0 & Hd).
  apply rbind_ok in Hc0 as ([] & _ & [= <-]).
  apply rbind_ok in Hd as (c1 & Hc1 & Hd). apply rbind_ok in Hd as (sel & Hsel & Hd).
  apply rbind_ok in Hd as (c2 & Hc2 & Hd). apply rbind_ok in Hc2 as ([] & Hv & [= <-]).
  assert (profile c1 = p /\ f_bound f = (if profile_bound c1 then 1 else 0) /\ min_padding c1 = f_min f /\
    max_padding c1 = f_max f /\ (profile_bound c1 = false -> p = Medium) /\ padding_budget c1 = None) as (Ep & Eb & Emn & Emx & Emed & Epb).
  { clear Hd Hsel. case_if; [|case_if]; injection Hc1 as <-; bool_prop; cbn; by subst. }
  assert ((f_tag f, f_weights f) = selection_fields sel /\
    match sel with Weighted ws => zlen ws = 7 /\ Forall (fun w => 0 <= w <= u16_max) ws | FirstFit => True end) as [Es Hsw].
  { clear -Hsel Hw Ew. case_if; [injection Hsel as <-; bool_prop; split; [cbn; congruence|done]|].
    case_if. injection Hsel as <-. bool_prop. split; [cbn; congruence|]. rewrite Ew. split; [done|].
    eapply Forall_impl; [exact Hw|]. unfold u16_ok, u16_max. cbn. lia. }
  unfold u16_ok in Hmn. unfold u64_ok in Hpad. cbn in Hpad.
  destruct (_ && _) eqn:Efl in Hd; [|destruct (f_flag f =? 1) eqn:Ef1 in Hd; [|done]]; injection Hd as <-; bool_prop.
  - split; [done|]. split; [unfold config_fields; cbn; rewrite Epb; by split_and!|].
    split; [split; [cbn; lia|split; [done|by cbn; rewrite Epb]]|]. split; [done|]. cbn. intros E%Emed. congruence.
  - split; [done|]. split; [unfold config_fields; cbn; by split_and!|].
    split; [split; [cbn; lia|split; [done|cbn; unfold u64_max; lia]]|]. split; [done|]. cbn. intros E%Emed. congruence.
Qed.

Lemma config_of_build c : config_fields c -> config_built c -> config_of (profile c) = Ok c.
Proof.
  intros (Eb & Emn & Emx & Es & Ef & Epd) (Hwf & Hv & Hmed).
  apply validate_ok in Hv as Hv'. destruct Hv' as [Hvs Hr].
  unfold config_of, PhantomOneConfig_new. rewrite Emn, Emx.
  match goal with |- context [validate ?c0] => assert (validate c0 = Ok ()) as -> by by apply validate_ok end.
  cbn [rbind]. set (c0 := mkPhantomOneConfig Medium _ _ _ _ _).
  set (c1 := mkPhantomOneConfig (profile c) (min_padding c) (max_padding c) (profile_bound c) FirstFit None).
  assert ((if (f_bound f =? 0) && bool_decide (profile c = Medium) then Ok c0
     else if f_bound f =? 1 then Ok (config_with_profile (profile c) c0)
     else Err (protocol "noncanonical profile binding")) = Ok c1) as ->.
  { rewrite Eb. unfold c1. destruct (profile_bound c); cbn; [done|]. by rewrite bool_decide_eq_true_2, Hmed by auto. }
  cbn [rbind].
  assert ((if (f_tag f =? 0) && bytes_eqb (f_weights f) (zreplicate 7 0) then Ok FirstFit
     else if f_tag f =? 1 then Ok (Weighted (f_weights f))
     else Err (protocol "invalid policy selection")) = Ok (selection c)) as ->.
  { destruct (selection c) as [|ws]; apply pair_equal_spec in Es as [-> ->]; [|done].
    by rewrite bytes_eqb_refl. }
  cbn [rbind]. unfold with_selection, c1. cbn [profile min_padding max_padding profile_bound padding_budget].
  match goal with |- context [validate ?c2] => assert (validate c2 = Ok ()) as -> end.
  { rewrite <- Hv. by destruct c. }
  cbn [rbind]. rewrite Ef, Epd. destruct c as [? ? ? ? ? [b|]]; reflexivity.
Qed.

Lemma decode_config_ok p c :
  decode_config (concat (chunks f)) p = Ok c <-> profile c = p /\ config_fields c /\ config_built c.
Proof.
  rewrite decode_config_eq. split; [apply config_of_fields|].
  intros (<- & Hf & Hb). by apply config_of_build.
Qed.
Lemma decode_budget_at i a b x y :
  chunks f !! i = Some (be_bytes 8 x) -> chunks f !! S i = Some (be_bytes 8 y) -> u64_ok x -> u64_ok y ->
  sum_list (take i WIDTHS) = a -> sum_list (take (S i) WIDTHS) = a + 8 -> sum_list (take (S (S i)) WIDTHS) = b ->
  b = a + 16 -> decode_budget (concat (chunks f)) a = Ok (mkFrameBudget x y).
Proof.
  intros Hx Hy Ux Uy Ha Ha8 Hb ->. unfold decode_budget.
  by rewrite (range_at f f_ok i _ _ 8 x), (range_at f f_ok (S i) _ _ 8 y).
Qed.

(** What the decoder checks of the cover fields. *)
Definition cover_of : result (option CoverPolicy) :=
  if (f_cflag f =? 0) && ((f_interval f =? 0) && (f_idle f =? 0) && (f_maximum f =? 0) && (f_percent f =? 0))
  then Ok None
  else if f_cflag f =? 1 then
    let policy := mkCoverPolicy (f_interval f) (f_idle f) (f_maximum f) (f_percent f) in
    do? cover_validate policy; Ok (Some policy)
  else Err (protocol "invalid cover policy encoding").

Lemma decode_cover_eq : decode_cover (concat (chunks f)) = cover_of.
Proof.
  destruct (bounds_ok f f_ok) as ((_ & _ & _ & _ & Hpc) & [Hiv Hid] & _ & _ & _ & _ & _ & Hmx).
  unfold decode_cover, cover_of.
  rewrite (byte_at f f_ok 23 _ (f_cflag f)) by (done || by apply (chunks_tail f f_ok 8)). cbn [rbind].
  rewrite (slice_chunk_from _ 24) by (by rewrite <- firstn_map, chunk_widths). cbn [rbind].
  assert (drop 24 (chunks f) = [be_bytes 4 (f_interval f); be_bytes 4 (f_idle f); be_bytes 8 (f_maximum f);
    be_bytes 2 (f_percent f)]) as ->.
  { destruct f_ok as (_ & _ & _ & (? & ? & ? & ? & ? & ? & ? & Ew & _) & _). unfold chunks. by rewrite Ew. }
  cbn [concat]. rewrite !forallb_app, !forallb_zeros_be, !andb_assoc, andb_true_r by done.
  case_if; [done|]. case_if; [|done].
  rewrite (range_at f f_ok 24 _ _ 4 (f_interval f)) by (done || by apply (chunks_tail f f_ok 9)). cbn [rbind].
  rewrite (range_at f f_ok 25 _ _ 4 (f_idle f)) by (done || by apply (chunks_tail f f_ok 10)). cbn [rbind].
  rewrite (range_at f f_ok 26 _ _ 8 (f_maximum f)) by (done || by apply (chunks_tail f f_ok 11)). cbn [rbind].
  by rewrite (range_at f f_ok 27 _ _ 2 (f_percent f)) by (done || by apply (chunks_tail f f_ok 12)).
Qed.

Lemma decode_cover_ok c :
  decode_cover (concat (chunks f)) = Ok c <->
  (f_cflag f, f_interval f, f_idle f, f_maximum f, f_percent f) = cover_fields c /\
  match c with Some c => policy_ok c | None => True end.
Proof.
  destruct (bounds_ok f f_ok) as (_ & _ & _ & _ & _ & _ & _ & Hmx). unfold u64_ok in Hmx.
  rewrite decode_cover_eq. unfold cover_of. split.
  - destruct (_ && _) eqn:E0; [intros [= <-]; bool_prop; cbn; split; [congruence|done]|].
    destruct (f_cflag f =? 1) eqn:E1; [|done]. intros Hd. apply rbind_ok in Hd as ([] & Hv & [= <-]). bool_prop.
    split; [cbn; congruence|]. by refine (proj1 (cover_validate_ok _ _) Hv); cbn; lia.
  - intros [E Hc]. destruct c as [c|]; cbn [cover_fields] in E; injection E as -> -> -> -> ->; [|done].
    cbn [andb Z.eqb Pos.eqb]. destruct c as [iv id mx pc]. cbn [interval_ms idle_timeout_ms maximum_bytes overhead_percent].
    rewrite (proj2 (cover_validate_ok _ (Z.lt_le_incl _ _ (proj1 (proj2 (proj2 (proj2 Hc)))))) Hc). done.
Qed.

(** The checks of the whole decoder on the fields. *)
Lemma decode_offer_eq :
  decode_offer (concat (chunks f)) =
  if negb (bytes_eqb (f_magic f) POLICY_MAGIC)
  then Err (protocol "unsupported or malformed envelope policy")
  else
    let? ' (prof, supported) := decode_profiles (concat (chunks f)) in
    let? config := decode_config (concat (chunks f)) prof in
    do? validate_path_mtu (f_out f);
    do? validate_path_mtu (f_in f);
    do? budget_validate (mkFrameBudget (f_of f) (f_op f));
    do? budget_validate (mkFrameBudget (f_if f) (f_ip f));
    do? check_supported config supported PROFILE_IDS;
    let? cover := decode_cover (concat (chunks f)) in
    Ok (mkEnvelopeOffer (f_binding f) supported config (f_out f) (f_in f)
          (mkFrameBudget (f_of f) (f_op f)) (mkFrameBudget (f_if f) (f_ip f)) cover).
Proof.
  destruct (bounds_ok f f_ok) as ((_ & _ & Hout & Hin & _) & _ & _ & Hof & Hop & Hif & Hip & _).
  unfold decode_offer. rewrite zlen_concat, (chunk_widths f f_ok). cbn [negb]. cbv iota.
  change (negb (sum_list WIDTHS =? OFFER_BYTES)) with false. cbv iota.
  rewrite (chunk_at f f_ok 0 _ _ (f_magic f)) by done. cbn [rbind]. case_if; [done|].
  destruct (decode_profiles _) as [[p m]|e|]; cbn [rbind]; [|done..].
  destruct (decode_config _ _) as [c|e|]; cbn [rbind]; [|done..].
  rewrite (int_at f f_ok 17 _ _ (f_out f)) by (done || by apply (chunks_tail f f_ok 2)). cbn [rbind].
  rewrite (int_at f f_ok 18 _ _ (f_in f)) by (done || by apply (chunks_tail f f_ok 3)). cbn [rbind].
  destruct (validate_path_mtu (f_out f)) as [[]|e|]; cbn [rbind]; [|done..].
  destruct (validate_path_mtu (f_in f)) as [[]|e|]; cbn [rbind]; [|done..].
  rewrite (decode_budget_at 19 76 92 (f_of f) (f_op f)) by
    (done || by apply (chunks_tail f f_ok 4) || by apply (chunks_tail f f_ok 5)). cbn [rbind].
  rewrite (decode_budget_at 21 92 108 (f_if f) (f_ip f)) by
    (done || by apply (chunks_tail f f_ok 6) || by apply (chunks_tail f f_ok 7)). cbn [rbind].
  destruct (budget_validate (mkFrameBudget (f_of f) _)) as [[]|e|]; cbn [rbind]; [|done..].
  destruct (budget_validate _) as [[]|e|]; cbn [rbind]; [|done..].
  destruct (check_supported _ _ _) as [[]|e|]; cbn [rbind]; [|done..].
  destruct (decode_cover _) as [cov|e|]; cbn [rbind]; [|done..].
  by rewrite (chunk_at f f_ok 1 _ _ (f_binding f)) by done.
Qed.

Lemma decode_config_no_panic p : no_panic (decode_config (concat (chunks f)) p).
Proof.
  rewrite decode_config_eq. unfold config_of, PhantomOneConfig_new, with_selection.
  destruct f_ok as (_ & _ & _ & (w0 & w1 & w2 & w3 & w4 & w5 & w6 & Ew & Hw) & _).
  destruct (bounds_ok f f_ok) as ((Hmn & _) & _). unfold u16_ok in Hmn.
  apply rbind_no_panic.
  { apply rbind_no_panic; [|done]. apply validate_total. split; [cbn; lia|done]. }
  intros c0 Hc0. apply rbind_ok in Hc0 as ([] & _ & [= <-]).
  apply rbind_no_panic; [by repeat case_if|]. intros c1 Hc1.
  apply rbind_no_panic; [by repeat case_if|]. intros sel Hsel.
  apply rbind_no_panic; [|intros; by repeat case_if].
  apply rbind_no_panic; [|done]. apply validate_total.
  assert (min_padding c1 = f_min f /\ padding_budget c1 = None) as [Emn Epb].
  { clear -Hc1. case_if; [|case_if]; by injection Hc1 as <-. }
  split; [cbn; lia|]. split; [|by cbn; rewrite Epb]. cbn.
  clear -Hsel Ew Hw. case_if; [by injection Hsel as <-|]. case_if. injection Hsel as <-.
  rewrite Ew. split; [done|]. eapply Forall_impl; [exact Hw|]. unfold u16_ok, u16_max. cbn. lia.
Qed.

Lemma decode_offer_ok o :
  decode_offer (concat (chunks f)) = Ok o <-> offer_wf o /\ f = offer_fields o.
Proof.
  destruct (bounds_ok f f_ok) as (_ & _ & _ & Hof & Hop & Hif & Hip & _). unfold u64_ok in *.
  rewrite decode_offer_eq. split.
  - intros Hd. pass_guard Hd. bool_prop.
    apply rbind_ok in Hd as ([p m] & Hp & Hd). apply decode_profiles_ok in Hp as (Hid & Hm & Hmr & Hsup).
    apply rbind_ok in Hd as (c & Hc & Hd). apply decode_config_ok in Hc as (<- & Hf & Hb).
    apply rbind_ok in Hd as ([] & Ho%validate_path_mtu_ok & Hd).
    apply rbind_ok in Hd as ([] & Hi%validate_path_mtu_ok & Hd).
    apply rbind_ok in Hd as ([] & Hbo & Hd). apply budget_validate_ok in Hbo; [|cbn; lia..].
    apply rbind_ok in Hd as ([] & Hbi & Hd). apply budget_validate_ok in Hbi; [|cbn; lia..].
    apply rbind_ok in Hd as ([] & Hs & Hd). rewrite check_supported_ok in Hs.
    apply rbind_ok in Hd as (cov & Hcov & [= <-]). apply decode_cover_ok in Hcov as [Ecov Hcov].
    destruct Hf as (Eb & Emn & Emx & Es & Efl & Epd). destruct f_ok as (_ & Hbl & Hbb & _).
    split; [by split_and!|]. unfold offer_fields. cbn. rewrite <- Es, <- Ecov. destruct f. cbn in *. by subst.
  - intros [(Hbind & Hc & (Hmr & Hsup & Hall) & [Ho Hi] & [Hbo Hbi] & Hcov) Ef].
    assert (f_magic f = POLICY_MAGIC /\ f_binding f = binding o /\ f_id f = tier_id (profile (o_config o)) /\
      f_mask f = supported_profiles o /\ config_fields (o_config o) /\ f_out f = outbound_frame_limit o /\
      f_in f = inbound_frame_limit o /\ mkFrameBudget (f_of f) (f_op f) = outbound_budget o /\
      mkFrameBudget (f_if f) (f_ip f) = inbound_budget o /\
      (f_cflag f, f_interval f, f_idle f, f_maximum f, f_percent f) = cover_fields (cover o))
      as (-> & -> & Hid & Hm & Hf & -> & -> & -> & -> & Ecov).
    { unfold config_fields. rewrite Ef. unfold offer_fields. clear.
      destruct (selection_fields _), (cover_fields _) as [[[[? ?] ?] ?] ?].
      destruct o as [? ? ? ? ? [? ?] [? ?] ?]. by split_and!. }
    rewrite bytes_eqb_refl. cbn [negb]. cbv iota.
    rewrite (proj2 (decode_profiles_ok _ _)) by (split_and!; (eassumption || lia)). cbn [rbind].
    rewrite (proj2 (decode_config_ok _ _) (conj eq_refl (conj Hf Hc))). cbn [rbind].
    rewrite (proj2 (validate_path_mtu_ok _) Ho), (proj2 (validate_path_mtu_ok _) Hi). cbn [rbind].
    rewrite (budget_validate_of _ Hbo), (budget_validate_of _ Hbi). cbn [rbind].
    rewrite (proj2 (check_supported_ok _ _) Hall). cbn [rbind].
    rewrite (proj2 (decode_cover_ok _) (conj Ecov Hcov)). cbn [rbind]. by destruct o.
Qed.

Lemma decode_offer_no_panic : no_panic (decode_offer (concat (chunks f))).
Proof.
  rewrite decode_offer_eq. case_if; [done|]. rewrite decode_profiles_eq.
  apply rbind_no_panic; [apply rbind_no_panic; [apply ok_or_no_panic|intros; by case_if]|].
  intros [p m] _. apply rbind_no_panic; [apply decode_config_no_panic|]. intros c Hc.
  apply decode_config_ok in Hc as (_ & _ & Hwf & _).
  apply rbind_no_panic; [unfold validate_path_mtu; by case_if|]. intros _ _.
  apply rbind_no_panic; [unfold validate_path_mtu; by case_if|]. intros _ _.
  apply rbind_no_panic; [unfold budget_validate; by case_if|]. intros _ _.
  apply rbind_no_panic; [unfold budget_validate; by case_if|]. intros _ _.
  apply rbind_no_panic; [by apply check_supported_no_panic|]. intros _ _.
  apply rbind_no_panic; [|done]. rewrite decode_cover_eq. unfold cover_of. repeat case_if; try done.
  cbv zeta. apply rbind_no_panic; [unfold cover_validate; by case_if|done].
Qed.
End Stages.

Lemma decode_offer_exact d o :
  bytes_ok d -> decode_offer d = Ok o <-> offer_wf o /\ d = encode_offer o.
Proof.
  intros Hb. destruct (decide (zlen d = OFFER_BYTES)) as [Hd|Hd].
  - destruct (fields_of d Hd Hb) as (f & Hf & ->). rewrite (decode_offer_ok f Hf). split.
    + intros [Ho ->]. by rewrite encode_offer_chunks.
    + intros [Ho E]. split; [done|]. rewrite encode_offer_chunks in E by done.
      apply (f_equal decode_offer) in E. rewrite (proj2 (decode_offer_ok _ (offer_fields_ok o Ho) o)) in E by done.
      by apply (decode_offer_ok f Hf) in E as [_ ?].
  - unfold decode_offer at 1. rewrite (proj2 (Z.eqb_neq _ _)) by done. cbn [negb]. split; [done|].
    intros [Ho ->]. exfalso. apply Hd. rewrite encode_offer_chunks by done.
    by rewrite zlen_concat, chunk_widths by by apply offer_fields_ok.
Qed.

Lemma decode_encode_offer o : offer_wf o -> decode_offer (encode_offer o) = Ok o.
Proof.
  intros Ho. rewrite encode_offer_chunks by done. by apply decode_offer_ok; [apply offer_fields_ok|].
Qed.

Lemma zlen_encode_offer o : offer_wf o -> zlen (encode_offer o) = OFFER_BYTES.
Proof.
  intros Ho. rewrite encode_offer_chunks by done.
  by rewrite zlen_concat, chunk_widths by by apply offer_fields_ok.
Qed.

Lemma encode_offer_bytes o : offer_wf o -> bytes_ok (encode_offer o).
Proof.
  intros Ho. rewrite encode_offer_chunks by done.
  destruct (offer_fields_ok o Ho) as (_ & _ & Hb & (a & b & c & d & e & g & h & Ew & _) & Hs & _).
  rewrite !Forall_cons in Hs. destruct Hs as (? & ? & ? & ? & ? & ? & _). unfold chunks. rewrite Ew. cbn [map app].
  assert (f_magic (offer_fields o) = POLICY_MAGIC) as ->.
  { unfold offer_fields. destruct (selection_fields _) as [tag ws], (cover_fields _) as [[[[? ?] ?] ?] ?]. done. }
  assert (bytes_ok POLICY_MAGIC) as Hm by by_compute.
  apply Forall_concat. apply Forall_cons_2; [done|]. rewrite !Forall_cons.
  split_and!; first [assumption | apply be_bytes_ok | apply Forall_nil_2].
Qed.

Lemma encode_offer_inj a b : offer_wf a -> offer_wf b -> encode_offer a = encode_offer b -> a = b.
Proof.
  intros Ha Hb E%(f_equal decode_offer). rewrite !decode_encode_offer in E by done. by injection E.
Qed.

(** ** Lemmas: sets of profiles *)

Lemma supports_testbit m p : supports m p = Z.testbit m (tier_id p).
Proof.
  assert (0 <= tier_id p) as Hp by by destruct p.
  unfold supports, profile_bit. rewrite Z.shiftl_1_l.
  destruct (Z.testbit m (tier_id p)) eqn:E.
  - apply negb_true_iff, Z.eqb_neq. intros E0%(f_equal (fun x => Z.testbit x (tier_id p))).
    rewrite Z.land_spec, E, Z.pow2_bits_true, Z.bits_0 in E0 by done. done.
  - apply negb_false_iff, Z.eqb_eq, Z.bits_inj_0. intros i.
    rewrite Z.land_spec, Z.pow2_bits_eqb by done. destruct (Z.eqb_spec (tier_id p) i) as [<-|]; [by rewrite E|].
    by rewrite andb_false_r.
Qed.

Lemma supports_bit p q : supports (profile_bit p) q = bool_decide (p = q).
Proof. by destruct p, q. Qed.

Lemma supports_lor m k p : supports (Z.lor m k) p = supports m p || supports k p.
Proof. rewrite !supports_testbit. apply Z.lor_spec. Qed.

Lemma supports_land m k p : supports (Z.land m k) p = supports m p && supports k p.
Proof. rewrite !supports_testbit. apply Z.land_spec. Qed.

Definition masks : list Z := Eval vm_compute in map Z.of_nat (seq 0 64).

Lemma mask_listed m : 0 <= m <= PROFILE_MASK <-> In m masks.
Proof.
  change masks with (map Z.of_nat (seq 0 64)). unfold PROFILE_MASK. rewrite in_map_iff. split.
  - intros Hm. exists (Z.to_nat m). split; [lia|]. apply in_seq. lia.
  - intros (n & <- & Hn%in_seq). lia.
Qed.

(** A property of masks is checked on all of them. *)
Lemma mask_by_compute (P : Z -> bool) m : forallb P masks = true -> 0 <= m <= PROFILE_MASK -> P m = true.
Proof. intros HP Hm%mask_listed. by apply (proj1 (forallb_forall _ _) HP). Qed.

Lemma lor_bit_mask m p : 0 <= m <= PROFILE_MASK -> 0 <= Z.lor m (profile_bit p) <= PROFILE_MASK.
Proof.
  intros Hm. pose proof (mask_by_compute (fun m => in_range 0 PROFILE_MASK (Z.lor m (profile_bit p))) m) as E.
  unfold in_range in E. rewrite andb_true_iff, !Z.leb_le in E. apply E; [|done]. by destruct p; vm_compute.
Qed.

Lemma land_mask m k : 0 <= m <= PROFILE_MASK -> 0 <= k <= PROFILE_MASK -> 0 <= Z.land m k <= PROFILE_MASK.
Proof.
  intros Hm Hk%mask_listed.
  assert (forallb (fun k => in_range 0 PROFILE_MASK (Z.land m k)) masks = true) as E.
  { apply (mask_by_compute (fun m => forallb (fun k => in_range 0 PROFILE_MASK (Z.land m k)) masks)); [|done].
    vm_compute. reflexivity. }
  rewrite forallb_forall in E. specialize (E k Hk). unfold in_range in E.
  by rewrite andb_true_iff, !Z.leb_le in E.
Qed.

Definition TIERS : list ProfileTier := [Low; Medium; High; TunedLow; TunedMedium; TunedHigh].

(** The chosen profile is the least common one, whoever computes it. *)
Definition choice_ok (mine theirs : ProfileTier) (common : Z) : bool :=
  bool_decide (common_profile mine theirs common = common_profile theirs mine common) &&
  match common_profile mine theirs common with
  | Some p => supports common p && forallb (fun q => negb (supports common q)
                || key_leb (profile_key mine theirs p) (profile_key mine theirs q)) TIERS
  | None => common =? 0
  end.

Lemma common_profile_ok mine theirs common : 0 <= common <= PROFILE_MASK -> choice_ok mine theirs common = true.
Proof. intros Hc. apply (mask_by_compute (choice_ok mine theirs)); [|done]. by destruct mine, theirs; vm_compute. Qed.

Lemma tier_listed p : In p TIERS.
Proof. destruct p; cbn; tauto. Qed.

Lemma common_profile_least mine theirs common p :
  0 <= common <= PROFILE_MASK -> common_profile mine theirs common = Some p ->
  supports common p = true /\
  forall q, supports common q = true -> key_leb (profile_key mine theirs p) (profile_key mine theirs q) = true.
Proof.
  intros Hc Hp. pose proof (common_profile_ok mine theirs common Hc) as E. unfold choice_ok in E. rewrite Hp in E.
  bool_prop. split; [done|]. intros q Hq.
  match goal with H : forallb _ _ = true |- _ => rewrite forallb_forall in H; specialize (H q (tier_listed q)) end.
  by rewrite Hq in *.
Qed.

Lemma common_profile_comm mine theirs common : 0 <= common <= PROFILE_MASK ->
  common_profile mine theirs common = common_profile theirs mine common.
Proof.
  intros Hc. pose proof (common_profile_ok mine theirs common Hc) as E. unfold choice_ok in E. by bool_prop.
Qed.

Lemma common_profile_some mine theirs common :
  0 <= common <= PROFILE_MASK -> common <> 0 -> is_Some (common_profile mine theirs common).
Proof.
  intros Hc H0. pose proof (common_profile_ok mine theirs common Hc) as E. unfold choice_ok in E.
  destruct (common_profile mine theirs common); [done|]. bool_prop. done.
Qed.

(** ** Lemmas: building an offer *)

Lemma radix_digits_bound max digits acc x :
  0 <= acc -> radix_digits max digits acc = Some x -> 0 <= x /\ (acc <= max -> x <= max).
Proof.
  revert acc. induction digits as [|c digits IH]; intros acc Hacc; cbn [radix_digits].
  { intros [= <-]. done. }
  unfold checked_mul, hex_value, in_range. repeat case_if; try done.
  all: unfold checked_add; case_if; [|done]; bool_prop; intros E; apply IH in E; [|lia];
    split; [lia|]; intros _; apply E; lia.
Qed.

Lemma from_str_radix_range max src x : 0 <= max -> from_str_radix max src = Some x -> 0 <= x <= max.
Proof.
  intros Hm. assert (forall ds, radix_digits max ds 0 = Some x -> 0 <= x <= max) as Hr.
  { intros ds E%radix_digits_bound; lia. }
  unfold from_str_radix. intros E. repeat case_match; try done; by apply Hr in E.
Qed.

Lemma from_str_radix_byte src x : from_str_radix u8_max src = Some x -> is_byte x.
Proof. intros Hx%from_str_radix_range; [|done]. unfold is_byte, u8_max in *. lia. Qed.

Lemma parse_pairs_ok hex i n l : parse_pairs hex i n = Ok l -> zlen l = Z.of_nat n /\ bytes_ok l.
Proof.
  revert i l. induction n as [|n IH]; intros i l; cbn [parse_pairs].
  { intros [= <-]. split; [done|constructor]. }
  intros Hd. apply rbind_ok in Hd as (pair & _ & Hd). apply rbind_ok in Hd as (v & Hv%ok_or_ok & Hd).
  apply rbind_ok in Hd as (rest & [Hl Hb]%IH & [= <-]).
  rewrite zlen_cons. split; [lia|]. constructor; [by apply from_str_radix_byte in Hv|done].
Qed.

Lemma parse_binding_ok s l : parse_binding s = Ok l -> zlen l = 32 /\ bytes_ok l.
Proof. unfold parse_binding. case_if; [done|]. apply parse_pairs_ok. Qed.

Lemma parse_pairs_no_panic hex i n :
  0 <= i -> 2 * (i + Z.of_nat n) <= zlen hex -> no_panic (parse_pairs hex i n).
Proof.
  revert i. induction n as [|n IH]; intros i Hi Hl; cbn [parse_pairs]; [done|].
  rewrite slice_ok by lia. cbn [rbind].
  apply rbind_no_panic; [apply ok_or_no_panic|]. intros v _.
  apply rbind_no_panic; [apply IH; lia|done].
Qed.

Lemma parse_binding_no_panic s : no_panic (parse_binding s).
Proof.
  unfold parse_binding. case_if; [done|]. bool_prop. apply parse_pairs_no_panic; lia.
Qed.

Lemma from_str_radix_pair b : is_byte b -> from_str_radix u8_max (hex_pair b) = Some b.
Proof.
  intros Hb. destruct (hex_digits b Hb) as (Hq & Hr & Eb). destruct Hb as [H0 H1].
  destruct (hex_digit_value _ Hq) as (V1 & N1 & _). destruct (hex_digit_value _ Hr) as (V2 & N2 & _).
  unfold hex_pair. set (d1 := hex_digit (b / 16)) in *. set (d2 := hex_digit (b mod 16)) in *. clearbody d1 d2.
  assert (from_str_radix u8_max [d1; d2] = radix_digits u8_max [d1; d2] 0) as ->.
  { unfold from_str_radix. repeat case_match; congruence. }
  cbn [radix_digits]. rewrite V1. unfold checked_mul, checked_add, u8_max.
  change (0 * 16 <=? 255) with true. cbv iota. rewrite Z.mul_0_l, Z.add_0_l, (proj2 (Z.leb_le _ _)) by lia.
  cbv iota. rewrite (proj2 (Z.leb_le _ _)) by lia. cbv iota.
  rewrite V2, (proj2 (Z.leb_le _ _)) by lia. f_equal. lia.
Qed.

Lemma parse_pairs_hex l pre :
  bytes_ok l -> parse_pairs (flat_map hex_pair pre ++ flat_map hex_pair l) (zlen pre) (length l) = Ok l.
Proof.
  intros Hl. revert pre. induction Hl as [|b l Hb Hl IH]; intros pre; [done|].
  cbn [length parse_pairs].
  rewrite (slice_app _ _ (flat_map hex_pair pre) (hex_pair b) (flat_map hex_pair l)); [|rewrite zlen_hex_pairs; lia|change (zlen (hex_pair b)) with 2; lia].
  cbn [rbind]. rewrite from_str_radix_pair by done. cbn [ok_or rbind].
  specialize (IH (pre ++ [b])). rewrite flat_map_app, zlen_app, <- app_assoc in IH. cbn [flat_map] in IH.
  rewrite app_nil_r in IH. change (zlen [b]) with 1 in IH. cbn [flat_map]. rewrite IH. done.
Qed.

(** The hash a handshake prints is the binding the policy parses. *)
Lemma parse_binding_hex h : zlen h = 32 -> bytes_ok h -> parse_binding (hex_encode h) = Ok h.
Proof.
  intros Hl Hb. unfold parse_binding, is_ascii. rewrite hex_encode_bytes, zlen_hex_pairs, Hl by done.
  assert (forallb (fun b => b <? 128) (flat_map hex_pair h) = true) as ->.
  { apply forallb_forall. intros x Hx%list_elem_of_In. pose proof (hex_pairs_ascii h Hb) as Ha.
    rewrite Forall_forall in Ha. apply Z.ltb_lt. specialize (Ha x Hx). lia. }
  cbn [negb Z.mul Z.eqb Pos.eqb orb Pos.mul].
  pose proof (parse_pairs_hex h [] Hb) as E. cbn [flat_map app] in E. rewrite zlen_nil in E.
  replace (length h) with 32%nat in E by (unfold zlen in Hl; lia). exact E.
Qed.

(** The profile settled on the configuration. *)
Definition settle (c : PhantomOneConfig) (p : ProfileTier) : PhantomOneConfig :=
  if profile_bound c then config_with_profile p c else c.

Lemma profile_config_inv c p c' :
  profile_config c p = Ok c' -> c' = settle c p /\ validate c' = Ok () /\ (profile_bound c = false -> profile c = p).
Proof.
  unfold profile_config, settle. intros Hd. apply rbind_ok in Hd as (c1 & Hc1 & Hd).
  apply rbind_ok in Hd as ([] & Hv%construction_check_ok & [= <-]).
  destruct (profile_bound c); [by injection Hc1 as <-|].
  case_if. injection Hc1 as <-. bool_prop. done.
Qed.

Lemma config_with_own_profile c : profile_bound c = true -> config_with_profile (profile c) c = c.
Proof. destruct c. cbn. by intros ->. Qed.

Lemma profile_config_own c : validate c = Ok () -> profile_config c (profile c) = Ok c.
Proof.
  intros Hv. unfold profile_config. destruct (profile_bound c) eqn:E.
  - rewrite config_with_own_profile by done. cbn [rbind].
    by rewrite (proj2 (construction_check_ok c) Hv).
  - rewrite bool_decide_eq_true_2 by done. cbn [rbind]. by rewrite (proj2 (construction_check_ok c) Hv).
Qed.

Lemma offer_new_wf t c n o :
  config_wf c -> (profile_bound c = false -> profile c = Medium) ->
  EnvelopeOffer_new t c n = Ok o -> offer_wf o /\ parse_binding t = Ok (binding o) /\ o_config o = c.
Proof.
  intros Hc Hm. unfold EnvelopeOffer_new. case_if; [done|]. intros Hd.
  apply rbind_ok in Hd as (b & Hb & Hd). apply rbind_ok in Hd as ([] & Hn%validate_path_mtu_ok & Hd).
  apply rbind_ok in Hd as ([] & Hv%construction_check_ok & [= <-]).
  unfold PHANTOM_ONE_HEADER_BYTES, PHANTOM_ONE_MAX_ENVELOPE_BYTES, u16_max in Hn.
  rewrite cast_small by lia. split; [|done].
  assert (supports (profile_bit (profile c)) (profile c) = true) as Hown by by rewrite supports_bit, bool_decide_eq_true.
  split; [by apply parse_binding_ok in Hb|]. split; [by split_and!|]. split; [|split; [|split; [|done]]].
  - split; [by cbn; destruct (profile c)|]. cbn. split; [done|]. intros p. rewrite supports_bit, bool_decide_eq_true.
    intros <-. by rewrite profile_config_own.
  - cbn. unfold limit_ok, PHANTOM_ONE_HEADER_BYTES, PHANTOM_ONE_MAX_ENVELOPE_BYTES, u16_max. lia.
  - by split; split; vm_compute.
Qed.

Lemma profile_mask_ok c ps m m' :
  profile_mask c ps m = Ok m' -> 0 <= m <= PROFILE_MASK ->
  0 <= m' <= PROFILE_MASK /\
  forall p, supports m' p = true <-> supports m p = true \/ p ∈ ps /\ is_ok (profile_config c p) = true.
Proof.
  revert m. induction ps as [|q ps IH]; intros m; cbn [profile_mask].
  { intros [= <-] Hm. split; [done|]. intros p. split; [by left|]. intros [|[?%not_elem_of_nil _]]; done. }
  case_if; [done|]. intros Hd Hm. apply rbind_ok in Hd as (c' & Hc' & Hd).
  destruct (IH _ Hd (lor_bit_mask m q Hm)) as [Hr Hs]. split; [done|]. intros p.
  rewrite Hs, supports_lor, supports_bit, orb_true_iff, bool_decide_eq_true, elem_of_cons.
  assert (is_ok (profile_config c q) = true) as Hq by by rewrite Hc'. naive_solver.
Qed.

Lemma with_supported_profiles_wf ps o o' :
  offer_wf o -> with_supported_profiles ps o = Ok o' -> offer_wf o'.
Proof.
  intros (Hb & Hc & Hm & Hrest) Hd. unfold with_supported_profiles in Hd. pass_guard Hd.
  apply rbind_ok in Hd as (m & Hmask & Hd). guards Hd. injection Hd as <-.
  destruct (profile_mask_ok _ _ _ _ Hmask) as [Hr Hs]; [by vm_compute|].
  split; [done|]. split; [done|]. split; [|done]. cbn. split; [|split; [done|]].
  - assert (m <> 0) by (intros ->; by destruct (profile (o_config o))). lia.
  - intros p Hp. apply Hs in Hp as [Hp|[_ Hp]]; [|done]. by destruct p.
Qed.

Lemma with_directional_limits_wf out inb o o' :
  offer_wf o -> with_directional_limits out inb o = Ok o' -> offer_wf o'.
Proof.
  intros (Hb & Hc & Hm & _ & Hrest) Hd. unfold with_directional_limits in Hd.
  apply rbind_ok in Hd as ([] & Ho%validate_path_mtu_ok & Hd).
  apply rbind_ok in Hd as ([] & Hi%validate_path_mtu_ok & Hd). guards Hd. injection Hd as <-.
  unfold try_from in *. repeat case_if; simplify_eq.
  unfold offer_wf. cbn. unfold limit_ok. tauto.
Qed.

Lemma with_directional_budgets_wf out inb o o' :
  0 <= max_frames out -> 0 <= max_payload_bytes out -> 0 <= max_frames inb -> 0 <= max_payload_bytes inb ->
  offer_wf o -> with_directional_budgets out inb o = Ok o' -> offer_wf o'.
Proof.
  intros H0 H1 H2 H3 (Hb & Hc & Hm & Hl & _ & Hrest) Hd. unfold with_directional_budgets in Hd.
  apply rbind_ok in Hd as ([] & Ho & Hd). apply rbind_ok in Hd as ([] & Hi & [= <-]).
  apply budget_validate_ok in Ho; [|done..]. apply budget_validate_ok in Hi; [|done..].
  unfold offer_wf. cbn. tauto.
Qed.

Lemma with_cover_wf c o o' :
  (forall p, c = Some p -> 0 <= maximum_bytes p) -> offer_wf o -> with_cover c o = Ok o' -> offer_wf o'.
Proof.
  intros H0 (Hb & Hcf & Hm & Hl & Hbud & _) Hd. unfold with_cover in Hd.
  apply rbind_ok in Hd as ([] & Hv & [= <-]). unfold offer_wf. cbn.
  assert (match c with Some p => policy_ok p | None => True end); [|tauto].
  destruct c as [p|]; [|done]. exact (proj1 (cover_validate_ok p (H0 p eq_refl)) Hv).
Qed.

(** ** Lemmas: negotiation *)

Definition same_settings (a b : PhantomOneConfig) : Prop :=
  min_padding a = min_padding b /\ max_padding a = max_padding b /\ selection a = selection b /\
  padding_budget a = padding_budget b /\ profile_bound a = profile_bound b.

Lemma same_policy_settings_ok a b : same_policy_settings a b = true <-> same_settings a b.
Proof.
  unfold same_policy_settings, same_settings.
  rewrite !andb_true_iff, !Z.eqb_eq, bool_decide_eq_true, Bool.eqb_true_iff.
  assert (match selection a, selection b with
     | FirstFit, FirstFit => true
     | Weighted l, Weighted r => bytes_eqb l r
     | _, _ => false
     end = true <-> selection a = selection b) as ->; [|tauto].
  destruct (selection a), (selection b); rewrite ?bytes_eqb_eq; naive_solver.
Qed.

Lemma settle_same a b p :
  same_settings a b -> (profile_bound a = false -> profile a = p) -> (profile_bound b = false -> profile b = p) ->
  settle a p = settle b p.
Proof.
  intros (E1 & E2 & E3 & E4 & E5) Ha Hb. unfold settle, config_with_profile. rewrite E5 in *.
  destruct (profile_bound b) eqn:Eb; [congruence|]. specialize (Ha eq_refl). specialize (Hb eq_refl).
  destruct a, b. cbn in *. congruence.
Qed.

Definition compatible (a b : EnvelopeOffer) : Prop :=
  binding a = binding b /\ same_settings (o_config a) (o_config b) /\ cover a = cover b /\
  Z.land (supported_profiles a) (supported_profiles b) <> 0.

Definition agreement (a b : EnvelopeOffer) (c : PhantomOneConfig) : NegotiatedPolicy :=
  mkNegotiatedPolicy c
    (Z.min (outbound_frame_limit a) (inbound_frame_limit b))
    (Z.min (inbound_frame_limit a) (outbound_frame_limit b))
    (intersect (outbound_budget a) (inbound_budget b))
    (intersect (inbound_budget a) (outbound_budget b)).

Definition least_common (a b : EnvelopeOffer) (p : ProfileTier) : Prop :=
  supports (supported_profiles a) p = true /\ supports (supported_profiles b) p = true /\
  forall q, supports (supported_profiles a) q = true -> supports (supported_profiles b) q = true ->
    key_leb (profile_key (profile (o_config a)) (profile (o_config b)) p)
            (profile_key (profile (o_config a)) (profile (o_config b)) q) = true.

Lemma compatible_sym a b : compatible a b -> compatible b a.
Proof. intros (? & (? & ? & ? & ? & ?) & ? & ?). unfold compatible, same_settings. rewrite Z.land_comm. by split_and!. Qed.

Lemma negotiate_cases a b :
  offer_wf a -> offer_wf b ->
  (~ compatible a b /\ exists e, negotiate a b = Err e) \/
  (compatible a b /\ exists p,
     common_profile (profile (o_config a)) (profile (o_config b))
       (Z.land (supported_profiles a) (supported_profiles b)) = Some p /\
     least_common a b p /\ (profile_bound (o_config a) = false -> profile (o_config a) = p) /\
     validate (settle (o_config a) p) = Ok () /\
     negotiate a b = Ok (agreement a b (settle (o_config a) p))).
Proof.
  intros (_ & Ha & (Hma & _ & Hsa) & _) (_ & Hb & (Hmb & _ & Hsb) & _). unfold negotiate.
  pose proof (land_mask (supported_profiles a) (supported_profiles b) ltac:(lia) ltac:(lia)) as Hl.
  set (m := Z.land (supported_profiles a) (supported_profiles b)) in *.
  destruct (negb _ || _ || _) eqn:E.
  { left. split; [|eauto]. intros (E1 & E2%same_policy_settings_ok & E3 & _).
    rewrite E1, E2, E3, bytes_eqb_refl, bool_decide_eq_true_2 in E by done. done. }
  bool_prop. match goal with H : same_policy_settings _ _ = true |- _ => apply same_policy_settings_ok in H end.
  destruct (decide (m = 0)) as [E0|E0].
  { left. split; [by intros (_ & _ & _ & ?)|]. rewrite E0.
    by replace (common_profile _ _ 0) with (@None ProfileTier) by done; eexists. }
  right. split; [by split_and!|]. destruct (common_profile_some (profile (o_config a)) (profile (o_config b)) m Hl E0) as [p Hp].
  exists p. destruct (common_profile_least _ _ _ _ Hl Hp) as [Hin Hleast]. unfold m in Hin.
  rewrite supports_land in Hin. bool_prop. rewrite Hp. cbn [ok_or rbind].
  match goal with H : supports (supported_profiles a) p = true |- _ => pose proof (Hsa p H) as Oka end.
  match goal with H : supports (supported_profiles b) p = true |- _ => pose proof (Hsb p H) as Okb end.
  destruct (profile_config (o_config a) p) as [ca|e|] eqn:Eca; [|done..]. cbn [rbind].
  destruct (profile_config (o_config b) p) as [cb|e|] eqn:Ecb; [|done..]. cbn [rbind].
  apply profile_config_inv in Eca as (-> & Hv & Hown).
  split; [done|]. split; [|by split_and!]. split; [done|]. split; [done|].
  intros q Hqa Hqb. apply Hleast. unfold m. by rewrite supports_land, Hqa, Hqb.
Qed.

Definition mirror (p : NegotiatedPolicy) : NegotiatedPolicy :=
  mkNegotiatedPolicy (n_config p) (n_inbound_frame_limit p) (n_outbound_frame_limit p)
    (n_inbound_budget p) (n_outbound_budget p).

Lemma intersect_comm a b : intersect a b = intersect b a.
Proof. unfold intersect. f_equal; apply Z.min_comm. Qed.

Lemma negotiate_mirror a b p :
  offer_wf a -> offer_wf b -> negotiate a b = Ok p -> negotiate b a = Ok (mirror p).
Proof.
  intros Ha Hb Hn. destruct (negotiate_cases a b Ha Hb) as [[_ [e E]]|(Hc & q & Hq & Hl & Hown & _ & E)]; [congruence|].
  rewrite E in Hn. injection Hn as <-.
  destruct (negotiate_cases b a Hb Ha) as [[Hn _]|(Hc' & q' & Hq' & Hl' & Hown' & _ & E')];
    [by destruct Hn; apply compatible_sym|].
  rewrite Z.land_comm, common_profile_comm, Hq in Hq'; last first.
  { destruct Ha as (_ & _ & (? & _) & _), Hb as (_ & _ & (? & _) & _). apply land_mask; lia. }
  injection Hq' as <-. rewrite E'. f_equal. unfold mirror, agreement. cbn.
  rewrite (settle_same (o_config b) (o_config a) q); [|apply Hc'|done..].
  by rewrite (Z.min_comm (outbound_frame_limit a)), (Z.min_comm (inbound_frame_limit a)),
    (intersect_comm (outbound_budget a)), (intersect_comm (inbound_budget a)).
Qed.

(** ** Lemmas: the acknowledgement *)

(** Both sides hash the same bytes. *)
Lemma ack_message_mirror a b p :
  offer_wf a -> offer_wf b -> negotiate a b = Ok p ->
  ack_message a b p = ack_message b a (mirror p).
Proof.
  intros Ha Hb Hn. unfold ack_message.
  destruct (bytes_leb (encode_offer a) (encode_offer b)) eqn:E1, (bytes_leb (encode_offer b) (encode_offer a)) eqn:E2;
    try reflexivity.
  - assert (a = b) as -> by (by apply encode_offer_inj, bytes_leb_antisym).
    pose proof (negotiate_mirror b b p Hb Hb Hn) as Hm. rewrite Hn in Hm. by injection Hm as <-.
  - apply bytes_leb_total in E1. congruence.
Qed.

Lemma ack_message_offers a b p : exists rest,
  ack_message a b p = (str_bytes "SHPH-policy-ack-v2" ++ [0]) ++
    (if bytes_leb (encode_offer a) (encode_offer b) then encode_offer a ++ encode_offer b
     else encode_offer b ++ encode_offer a) ++ rest.
Proof.
  unfold ack_message.
  destruct (bytes_leb (encode_offer a) (encode_offer b)); eexists; by rewrite <- !app_assoc.
Qed.

Lemma pair_of_app (a b a' b' r r' : bytes) :
  zlen a = zlen a' -> zlen b = zlen b' -> (a ++ b) ++ r = (a' ++ b') ++ r' -> a = a' /\ b = b'.
Proof.
  unfold zlen. intros Ha Hb E. rewrite <- !app_assoc in E.
  apply app_inj_1 in E as [-> E]; [|lia]. apply app_inj_1 in E as [-> _]; [done|lia].
Qed.

(** ** Properties *)

(** the offer codec is exact.  Every offer the builders return is well
    formed, and binds the hash the handshake printed; on any bytes the decoder
    never panics and accepts exactly the encodings of well-formed offers, which
    it returns, so there is one encoding per offer. *)
Theorem offer_codec_exact h c n o d x :
  zlen h = 32 -> bytes_ok h -> config_wf c -> (profile_bound c = false -> profile c = Medium) ->
  EnvelopeOffer_new (hex_encode h) c n = Ok o -> bytes_ok d ->
  (offer_wf o /\ binding o = h /\ decode_offer (encode_offer o) = Ok o) /\
  no_panic (decode_offer d) /\
  (decode_offer d = Ok x <-> offer_wf x /\ d = encode_offer x).
Proof.
  intros Hl Hh Hc Hm Ho Hd. destruct (offer_new_wf _ _ _ _ Hc Hm Ho) as (Hwf & Hb & _).
  rewrite parse_binding_hex in Hb by done. injection Hb as <-.
  split; [split; [done|split; [done|by apply decode_encode_offer]]|]. split; [|by apply decode_offer_exact].
  destruct (decide (zlen d = OFFER_BYTES)) as [Hz|Hz].
  - destruct (fields_of d Hz Hd) as (f & Hf & ->). by apply decode_offer_no_panic.
  - unfold decode_offer. by rewrite (proj2 (Z.eqb_neq _ _)).
Qed.

(** The builders keep offers well formed: advertising profiles, limits,
    budgets and cover traffic never yields an offer that the peer's decoder
    rejects. *)
Theorem offer_builders_sound o o' ps out inb bo bi c :
  offer_wf o -> 0 <= max_frames bo -> 0 <= max_payload_bytes bo -> 0 <= max_frames bi -> 0 <= max_payload_bytes bi ->
  (forall p, c = Some p -> 0 <= maximum_bytes p) ->
  with_supported_profiles ps o = Ok o' \/ with_directional_limits out inb o = Ok o' \/
  with_directional_budgets bo bi o = Ok o' \/ with_cover c o = Ok o' ->
  offer_wf o' /\ decode_offer (encode_offer o') = Ok o'.
Proof.
  intros Ho H0 H1 H2 H3 Hc Hd. assert (offer_wf o') as Hwf; [|split; [done|by apply decode_encode_offer]].
  destruct Hd as [Hd|[Hd|[Hd|Hd]]].
  - by eapply with_supported_profiles_wf.
  - by eapply with_directional_limits_wf.
  - eapply with_directional_budgets_wf; [..|exact Ho|exact Hd]; done.
  - by eapply with_cover_wf.
Qed.

(** C17: both peers settle on mirrored policies.  Negotiation never panics and
    succeeds exactly for offers of the same session with the same settings and
    cover policy and a common profile; the peer then computes the same policy
    with the directions exchanged.  The policy uses the common profile that both
    sides rank first, and its limits and budgets never exceed what either side
    offered for that direction. *)
Theorem policy_negotiation a b :
  offer_wf a -> offer_wf b ->
  no_panic (negotiate a b) /\
  (is_ok (negotiate a b) = true <-> compatible a b) /\
  forall p, negotiate a b = Ok p ->
    negotiate b a = Ok (mirror p) /\ agree a b = agree b a /\
    validate (n_config p) = Ok () /\
    (exists q, least_common a b q /\ n_config p = settle (o_config a) q /\ n_config p = settle (o_config b) q) /\
    (n_outbound_frame_limit p <= outbound_frame_limit a /\ n_outbound_frame_limit p <= inbound_frame_limit b) /\
    (n_inbound_frame_limit p <= inbound_frame_limit a /\ n_inbound_frame_limit p <= outbound_frame_limit b) /\
    n_outbound_budget p = intersect (outbound_budget a) (inbound_budget b) /\
    n_inbound_budget p = intersect (inbound_budget a) (outbound_budget b).
Proof.
  intros Ha Hb. destruct (negotiate_cases a b Ha Hb) as [[Hc [e E]]|(Hc & q & Hq & Hl & Hown & Hv & E)].
  { rewrite E. split; [done|]. split; [split; [done|by intros ?%Hc]|done]. }
  split; [by rewrite E|]. split; [by rewrite E|]. intros p Hp.
  pose proof (negotiate_mirror a b p Ha Hb Hp) as Hm. rewrite E in Hp. injection Hp as <-.
  split; [done|]. split.
  { unfold agree. rewrite E, Hm. cbn. by rewrite Z.min_comm. }
  split; [done|]. split; [exists q; split; [done|split; [done|]]|cbn; split_and!; (done || lia)].
  destruct (negotiate_cases b a Hb Ha) as [[_ [e Ee]]|(Hc' & q' & _ & _ & _ & _ & E')]; [congruence|].
  rewrite E' in Hm. injection Hm as Hcfg _ _ _ _. cbn.
  destruct Hb as (_ & _ & (_ & _ & Hs) & _). apply settle_same; [by apply Hc|done|].
  specialize (Hs q (proj1 (proj2 Hl))). destruct (profile_config (o_config b) q) eqn:Eq; [|done..].
  by apply profile_config_inv in Eq as (_ & _ & ?).
Qed.

(** the acknowledgements agree and bind the offers.  Both peers of a
    successful negotiation compute the same 32-byte acknowledgement, and the
    hashed bytes determine the two offers: any other pair of offers hashes
    different bytes. *)
Theorem acknowledgement_binds `{HashLaws} a b p :
  offer_wf a -> offer_wf b -> negotiate a b = Ok p ->
  (exists ack, acknowledgement a b = Ok ack /\ acknowledgement b a = Ok ack /\ zlen ack = 32) /\
  forall a' b' p', offer_wf a' -> offer_wf b' -> negotiate a' b' = Ok p' ->
    ack_message a' b' p' = ack_message a b p -> (a', b') = (a, b) \/ (a', b') = (b, a).
Proof.
  intros Ha Hb Hn. split.
  { exists (sha256 (ack_message a b p)). unfold acknowledgement.
    rewrite Hn, (negotiate_mirror a b p Ha Hb Hn). cbn [rbind].
    rewrite <- ack_message_mirror by done. by rewrite sha256_len. }
  intros a' b' p' Ha' Hb' _ E.
  destruct (ack_message_offers a b p) as [r Er], (ack_message_offers a' b' p') as [r' Er'].
  rewrite Er, Er' in E. apply app_inv_head in E.
  pose proof (zlen_encode_offer a Ha). pose proof (zlen_encode_offer b Hb).
  pose proof (zlen_encode_offer a' Ha'). pose proof (zlen_encode_offer b' Hb').
  destruct (bytes_leb (encode_offer a) (encode_offer b)), (bytes_leb (encode_offer a') (encode_offer b'));
    apply pair_of_app in E as [E1 E2]; (congruence || apply encode_offer_inj in E1; apply encode_offer_inj in E2; try done);
    subst; auto.
Qed.

(** ** Witnesses *)

Module Witnesses.
Import Toy.

Definition session_hash : bytes := Eval vm_compute in map Z.of_nat (seq 100 32).
Definition transcript : string := Eval vm_compute in hex_encode session_hash.

(** One side prefers the low profile and sends cover traffic, the other
    prefers medium with other limits. *)
Definition low_config : PhantomOneConfig := mkPhantomOneConfig Low 0 512 true FirstFit (Some 100000).
Definition medium_config : PhantomOneConfig := mkPhantomOneConfig Medium 0 512 true FirstFit (Some 100000).
Definition pacing : option CoverPolicy := Some (mkCoverPolicy 100 5000 10000 50).

Definition unwrap (r : result EnvelopeOffer) : EnvelopeOffer :=
  match r with Ok o => o | _ => mkEnvelopeOffer [] 0 low_config 0 0 FrameBudget_default FrameBudget_default None end.

Definition alice_built : result EnvelopeOffer :=
  let? o := EnvelopeOffer_new transcript low_config 1400 in
  let? o := with_supported_profiles [Low; Medium; TunedHigh] o in
  let? o := with_directional_budgets (mkFrameBudget 10 5000) (mkFrameBudget 20 9000) o in
  with_cover pacing o.
Definition bob_built : result EnvelopeOffer :=
  let? o := EnvelopeOffer_new transcript medium_config 1200 in
  let? o := with_supported_profiles [Medium; TunedHigh] o in
  let? o := with_directional_limits 800 900 o in
  with_cover pacing o.
Definition alice : EnvelopeOffer := Eval vm_compute in unwrap alice_built.
Definition bob : EnvelopeOffer := Eval vm_compute in unwrap bob_built.

Lemma alice_wf : offer_wf alice.
Proof. apply (proj1 (decode_offer_exact (encode_offer alice) alice ltac:(by_compute))). vm_compute. reflexivity. Qed.

Lemma bob_wf : offer_wf bob.
Proof. apply (proj1 (decode_offer_exact (encode_offer bob) bob ltac:(by_compute))). vm_compute. reflexivity. Qed.

Definition settled : NegotiatedPolicy := Eval vm_compute in
  match negotiate alice bob with Ok p => p | _ => mkNegotiatedPolicy low_config 0 0 FrameBudget_default FrameBudget_default end.

Lemma offer_codec_exact_witness :
  exists o, EnvelopeOffer_new transcript low_config 1400 = Ok o /\ offer_wf o /\
    decode_offer (encode_offer o) = Ok o /\ no_panic (decode_offer (encode_offer alice ++ [0])).
Proof.
  destruct (EnvelopeOffer_new transcript low_config 1400) as [o|e|] eqn:E; [|vm_compute in E; discriminate..].
  exists o. split; [reflexivity|].
  refine ((fun H => conj (proj1 (proj1 H)) (conj (proj2 (proj2 (proj1 H))) (proj1 (proj2 H))))
    (offer_codec_exact session_hash low_config 1400 o (encode_offer alice ++ [0]) o _ _ _ _ E _));
    [reflexivity|by_compute|by_compute|discriminate|by_compute].
Defined.

Lemma offer_builders_sound_witness :
  exists o, with_directional_limits 800 900 alice = Ok o /\ offer_wf o.
Proof.
  destruct (with_directional_limits 800 900 alice) as [o|e|] eqn:E; [|vm_compute in E; discriminate..].
  exists o. split; [reflexivity|].
  refine (proj1 (offer_builders_sound alice o [] 800 900 FrameBudget_default FrameBudget_default None alice_wf
    _ _ _ _ _ (or_intror (or_introl E)))); [by_compute|by_compute|by_compute|by_compute|discriminate].
Defined.

Lemma policy_negotiation_witness :
  negotiate alice bob = Ok settled /\ negotiate bob alice = Ok (mirror settled) /\
  n_config settled = medium_config.
Proof.
  split; [vm_compute; reflexivity|]. split; [|reflexivity].
  refine (proj1 (proj2 (proj2 (policy_negotiation alice bob alice_wf bob_wf)) settled _)).
  vm_compute. reflexivity.
Defined.

Lemma acknowledgement_binds_witness :
  exists ack, acknowledgement alice bob = Ok ack /\ acknowledgement bob alice = Ok ack /\ zlen ack = 32.
Proof.
  refine (proj1 (acknowledgement_binds alice bob settled alice_wf bob_wf _)). vm_compute. reflexivity.
Defined.
End Witnesses.
