(* ===== verification/NegotiatedTcp.v ===== *)
(** Negotiated sessions over TCP (shph-transport/src/envelope_policy.rs,
    [NegotiatedTcp]): Phantom One envelopes and cover traffic inside an encrypted
    session, under the budgets of the agreed policy.  The session below is any
    implementation of the [FrameLink] interface; the policy exchange that opens a
    negotiated session is in [PolicyExchange]. *)
From S2P Require Import Prelude Error Text Primitives Replay Stealth Obfuscation.
From S2P Require Import SessionCrypto PhantomOne TcpTransport FrameLink Cover EnvelopePolicy.

(** ** Usage counters *)

Record FrameUsage := mkFrameUsage { u_frames : Z; u_payload_bytes : Z }.
Definition FrameUsage_default : FrameUsage := mkFrameUsage 0 0.

(** [FrameUsage::reserve] *)
Definition usage_reserve (budget : FrameBudget) (payload_bytes : Z) (u : FrameUsage)
  : result unit * FrameUsage :=
  let! frames, u := (ok_or (checked_add u64_max (u_frames u) 1)
                       (ResourceExhausted "frame budget exhausted"), u) in
  let! payload_bytes, u := (ok_or (checked_add u64_max (u_payload_bytes u) payload_bytes)
                              (ResourceExhausted "payload budget exhausted"), u) in
  if (max_frames budget <? frames) || (max_payload_bytes budget <? payload_bytes)
  then (Err (ResourceExhausted "negotiated directional frame budget exhausted"), u)
  else (Ok (), mkFrameUsage frames payload_bytes).

(** The products are [u128]. *)
Definition cover_budget_allows (policy : CoverPolicy) (payload_bytes cover_bytes : Z) : bool :=
  let relative_allowance := payload_bytes * overhead_percent policy / 100 in
  cover_bytes <=? Z.min relative_allowance (maximum_bytes policy).

(** ** The session *)

Section Session.
Context {R S T : Type} `{RngOps R, FrameTx S, FrameRx T}.

(** [session_tx] and [session_rx] are the two directions of [session]; the clock
    [origin.elapsed()] is an argument of the operations that read it. *)
Record NegotiatedTcp := mkNegotiatedTcp {
  session_tx : S;
  session_rx : T;
  encoder : PhantomOneEncoder R;
  decoder : PhantomOneDecoder;
  out_limit : Z;
  in_limit : Z;
  out_budget : FrameBudget;
  in_budget : FrameBudget;
  sent_usage : FrameUsage;
  received_usage : FrameUsage;
  scheduler : CoverScheduler;
  agreed_cover : option CoverPolicy;
  received_cover_bytes : Z
}.

Definition with_tx (x : S) (n : NegotiatedTcp) : NegotiatedTcp :=
  mkNegotiatedTcp x (session_rx n) (encoder n) (decoder n) (out_limit n) (in_limit n) (out_budget n)
    (in_budget n) (sent_usage n) (received_usage n) (scheduler n) (agreed_cover n) (received_cover_bytes n).
Definition with_rx (x : T) (n : NegotiatedTcp) : NegotiatedTcp :=
  mkNegotiatedTcp (session_tx n) x (encoder n) (decoder n) (out_limit n) (in_limit n) (out_budget n)
    (in_budget n) (sent_usage n) (received_usage n) (scheduler n) (agreed_cover n) (received_cover_bytes n).
Definition with_encoder (x : PhantomOneEncoder R) (n : NegotiatedTcp) : NegotiatedTcp :=
  mkNegotiatedTcp (session_tx n) (session_rx n) x (decoder n) (out_limit n) (in_limit n) (out_budget n)
    (in_budget n) (sent_usage n) (received_usage n) (scheduler n) (agreed_cover n) (received_cover_bytes n).
Definition with_decoder (x : PhantomOneDecoder) (n : NegotiatedTcp) : NegotiatedTcp :=
  mkNegotiatedTcp (session_tx n) (session_rx n) (encoder n) x (out_limit n) (in_limit n) (out_budget n)
    (in_budget n) (sent_usage n) (received_usage n) (scheduler n) (agreed_cover n) (received_cover_bytes n).
Definition with_sent_usage (x : FrameUsage) (n : NegotiatedTcp) : NegotiatedTcp :=
  mkNegotiatedTcp (session_tx n) (session_rx n) (encoder n) (decoder n) (out_limit n) (in_limit n) (out_budget n)
    (in_budget n) x (received_usage n) (scheduler n) (agreed_cover n) (received_cover_bytes n).
Definition with_received_usage (x : FrameUsage) (n : NegotiatedTcp) : NegotiatedTcp :=
  mkNegotiatedTcp (session_tx n) (session_rx n) (encoder n) (decoder n) (out_limit n) (in_limit n) (out_budget n)
    (in_budget n) (sent_usage n) x (scheduler n) (agreed_cover n) (received_cover_bytes n).
Definition with_scheduler (x : CoverScheduler) (n : NegotiatedTcp) : NegotiatedTcp :=
  mkNegotiatedTcp (session_tx n) (session_rx n) (encoder n) (decoder n) (out_limit n) (in_limit n) (out_budget n)
    (in_budget n) (sent_usage n) (received_usage n) x (agreed_cover n) (received_cover_bytes n).
Definition with_received_cover (x : Z) (n : NegotiatedTcp) : NegotiatedTcp :=
  mkNegotiatedTcp (session_tx n) (session_rx n) (encoder n) (decoder n) (out_limit n) (in_limit n) (out_budget n)
    (in_budget n) (sent_usage n) (received_usage n) (scheduler n) (agreed_cover n) x.

(** A call on a field of the session. *)
Definition on {A F} (call : F -> result A * F) (get : NegotiatedTcp -> F) (set : F -> NegotiatedTcp -> NegotiatedTcp)
    (n : NegotiatedTcp) : result A * NegotiatedTcp :=
  let '(res, x) := call (get n) in (res, set x n).

(** The struct [establish_with_offer] builds once the policy is agreed; the
    encoder's generator is [r]. *)
Definition negotiated (tx : S) (rx : T) (generation : Z) (r : R) (agreement : NegotiatedPolicy)
    (cover_policy : option CoverPolicy) : result NegotiatedTcp :=
  let? enc := encoder_with_config generation r (n_config agreement) in
  let? dec := with_config_and_window generation (n_config agreement) PHANTOM_ONE_DEFAULT_REPLAY_WINDOW in
  let? cov := CoverScheduler_new cover_policy in
  Ok (mkNegotiatedTcp tx rx enc dec (n_outbound_frame_limit agreement) (n_inbound_frame_limit agreement)
        (n_outbound_budget agreement) (n_inbound_budget agreement) FrameUsage_default FrameUsage_default
        cov cover_policy 0).

(** [NegotiatedTcp::send] *)
Definition negotiated_send (payload : bytes) (now : Z) (n : NegotiatedTcp) : result unit * NegotiatedTcp :=
  if (max_frames (out_budget n) <=? u_frames (sent_usage n))
     || match checked_add u64_max (u_payload_bytes (sent_usage n)) (zlen payload) with
        | Some b => max_payload_bytes (out_budget n) <? b
        | None => true
        end
  then (Err (ResourceExhausted "negotiated outbound frame budget exhausted"), n)
  else
    let! envelope, n := on (encode Data payload (out_limit n)) encoder with_encoder n in
    let! _ok, n := on (usage_reserve (out_budget n) (zlen payload)) sent_usage with_sent_usage n in
    let! _ok, n := on (link_send envelope) session_tx with_tx n in
    on (record_payload now (zlen payload)) scheduler with_scheduler n.

(** [NegotiatedTcp::send_cover_if_due] *)
Definition send_cover_if_due (now : Z) (payload_pending congested cancelled : bool) (n : NegotiatedTcp)
  : result bool * NegotiatedTcp :=
  if max_frames (out_budget n) <=? u_frames (sent_usage n)
  then (Err (ResourceExhausted "negotiated outbound frame budget exhausted"), n)
  else
    let! target, n := on (target_size 1 (out_limit n)) encoder with_encoder n in
    let! due, n := on (reserve now (target + 32) payload_pending congested cancelled) scheduler with_scheduler n in
    if negb due then (Ok false, n)
    else
      let! _ok, n := on (usage_reserve (out_budget n) 0) sent_usage with_sent_usage n in
      let! envelope, n := on (encode_with_target Keepalive [0] target (out_limit n)) encoder with_encoder n in
      let! _ok, n := on (link_send envelope) session_tx with_tx n in
      (Ok true, n).

(** The handling of one received frame: [None] continues the loop. *)
Definition admit_frame (envelope : bytes) (frame : PhantomOneFrame) (n : NegotiatedTcp)
  : result (option bytes) * NegotiatedTcp :=
  match fr_frame_type frame with
  | Keepalive =>
      let! policy, n := (ok_or (agreed_cover n) (protocol "cover traffic was not negotiated"), n) in
      let! _ok, n := on (usage_reserve (in_budget n) 0) received_usage with_received_usage n in
      let n := with_received_cover
                 (saturating_add u64_max (received_cover_bytes n) (zlen envelope + 32)) n in
      if negb (bytes_eqb (fr_payload frame) [0])
         || negb (cover_budget_allows policy (u_payload_bytes (received_usage n)) (received_cover_bytes n))
      then (Err (protocol "cover traffic exceeds policy"), n)
      else (Ok None, n)
  | Data =>
      let! _ok, n := on (usage_reserve (in_budget n) (zlen (fr_payload frame))) received_usage
                       with_received_usage n in
      (Ok (Some (fr_payload frame)), n)
  | Control => (Err (protocol "unexpected policy frame type"), n)
  end.

(** The body of the receive loop after [session.recv_frame()] returned. *)
Definition accept_envelope (envelope : bytes) (n : NegotiatedTcp) : result (option bytes) * NegotiatedTcp :=
  let! frame, n := on (decode envelope (in_limit n)) decoder with_decoder n in
  admit_frame envelope frame n.

(** [for _ in 0..32]; the first argument counts the rounds left. *)
Fixpoint recv_loop (rounds : nat) (n : NegotiatedTcp) : option (result bytes) * NegotiatedTcp :=
  match rounds with
  | O => (Some (Err (ResourceExhausted "too many consecutive cover frames")), n)
  | Datatypes.S rounds =>
      match link_recv (session_rx n) with
      | (None, t) => (None, with_rx t n)
      | (Some (Err e), t) => (Some (Err e), with_rx t n)
      | (Some Panic, t) => (Some Panic, with_rx t n)
      | (Some (Ok envelope), t) =>
          match accept_envelope envelope (with_rx t n) with
          | (Ok (Some payload), n) => (Some (Ok payload), n)
          | (Ok None, n) => recv_loop rounds n
          | (Err e, n) => (Some (Err e), n)
          | (Panic, n) => (Some Panic, n)
          end
      end
  end.

Definition CONSECUTIVE_COVER_FRAMES : nat := 32.

(** [NegotiatedTcp::recv] *)
Definition negotiated_recv (n : NegotiatedTcp) : option (result bytes) * NegotiatedTcp :=
  recv_loop CONSECUTIVE_COVER_FRAMES n.

(** A sequence of receive calls, up to one that is still blocked. *)
Fixpoint negotiated_recv_calls (k : nat) (n : NegotiatedTcp) : list (result bytes) * NegotiatedTcp :=
  match k with
  | O => ([], n)
  | Datatypes.S k =>
      match negotiated_recv n with
      | (Some res, n) => let '(rs, n) := negotiated_recv_calls k n in (res :: rs, n)
      | (None, n) => ([], n)
      end
  end.

(** The sending calls of a session. *)
Inductive SendOp :=
  | OpSend (payload : bytes) (now : Z)
  | OpCover (now : Z) (payload_pending congested cancelled : bool).

Definition send_op (op : SendOp) (n : NegotiatedTcp) : result bool * NegotiatedTcp :=
  match op with
  | OpSend payload now => let! _ok, n := negotiated_send payload now n in (Ok true, n)
  | OpCover now p c x => send_cover_if_due now p c x n
  end.
End Session.

Arguments NegotiatedTcp : clear implicits.

(** ** Lemmas: counters *)

Lemma usage_reserve_cases b n u :
  (exists e, usage_reserve b n u = (Err e, u)) \/
  (usage_reserve b n u = (Ok (), mkFrameUsage (u_frames u + 1) (u_payload_bytes u + n)) /\
   u_frames u + 1 <= max_frames b /\ u_payload_bytes u + n <= max_payload_bytes b).
Proof.
  unfold usage_reserve, checked_add.
  destruct (u_frames u + 1 <=? u64_max); cbn [ok_or sbind]; [|eauto].
  destruct (u_payload_bytes u + n <=? u64_max); cbn [ok_or sbind]; [|eauto].
  destruct (_ || _) eqn:E; [eauto|]. bool_prop. right. split; [done|]. lia.
Qed.

Lemma usage_reserve_ok b n u :
  budget_ok b -> u_frames u + 1 <= max_frames b -> u_payload_bytes u + n <= max_payload_bytes b ->
  usage_reserve b n u = (Ok (), mkFrameUsage (u_frames u + 1) (u_payload_bytes u + n)).
Proof.
  intros [[_ H1] [_ H2]] Hf Hp. unfold usage_reserve, checked_add.
  assert (max_frames b <= u64_max /\ max_payload_bytes b <= u64_max) as [? ?].
  { unfold MAX_FRAME_BUDGET, MAX_PAYLOAD_BUDGET, u64_max in *.
    change (Z.shiftl 1 48) with (2 ^ 48) in *. change (Z.shiftl 1 60) with (2 ^ 60) in *. lia. }
  rewrite (proj2 (Z.leb_le (u_frames u + 1) _)) by lia. cbn [ok_or sbind].
  rewrite (proj2 (Z.leb_le _ _)) by lia. cbn [ok_or sbind].
  by rewrite !(proj2 (Z.ltb_ge _ _)) by done.
Qed.

Lemma cover_budget_allows_ok p payload n :
  cover_budget_allows p payload n = true <-> n <= allowance p payload.
Proof. unfold cover_budget_allows, allowance. apply Z.leb_le. Qed.

(** ** Lemmas: one sending call against the receiver's state *)

Section Sync.
Context {R S T : Type} `{RngLaws R, FrameTx S, FrameRx T}.

(** What holds between a sender and the state its receiver will have after the
    frames sent so far: envelopes in step, equal limits, usage and cover traffic
    counted by the receiver within what the sender reserved. *)
Definition sync (n m : NegotiatedTcp R S T) : Prop :=
  in_step (encoder n) (decoder m) /\
  (in_limit m = out_limit n /\ in_budget m = out_budget n /\ budget_ok (out_budget n)) /\
  0 <= u_frames (received_usage m) <= u_frames (sent_usage n) /\
  0 <= u_payload_bytes (received_usage m) <= u_payload_bytes (sent_usage n) /\
  (scheduler_wf (scheduler n) /\ cover_policy (scheduler n) = agreed_cover m /\
   cover_payload_bytes (scheduler n) <= u_payload_bytes (received_usage m)) /\
  0 <= received_cover_bytes m <= cover_bytes (scheduler n) /\
  padding_bytes_used (decoder m) <= u_frames (received_usage m) * PHANTOM_ONE_MAX_PADDING_BYTES.

Definition clock (n : NegotiatedTcp R S T) : Z := last_observed (scheduler n).

(** The outcome of a sending call at [now]: nothing goes out, or one envelope is
    handed to the session, which the receiver admits as [content] if it arrives. *)
Definition send_outcome (content : option bytes) (now : Z) (n m : NegotiatedTcp R S T)
    (out : result bool * NegotiatedTcp R S T) : Prop :=
  (exists r n', out = (r, n') /\ (r = Ok false \/ exists e, r = Err e) /\
     session_tx n' = session_tx n /\ sync n' m /\ clock n' <= now) \/
  (exists env m', bytes_ok env /\ accept_envelope env m = (Ok content, m') /\
     match link_send env (session_tx n) with
     | (Ok _, s') => exists n', out = (Ok true, n') /\ session_tx n' = s' /\ sync n' m' /\ clock n' <= now
     | (Err e, s') => exists n', out = (Err e, n') /\ session_tx n' = s' /\ sync n' m /\ clock n' <= now
     | (Panic, _) => True
     end).

Lemma padding_room (n m : NegotiatedTcp R S T) :
  sync n m -> u_frames (sent_usage n) < max_frames (out_budget n) ->
  padding_bytes_used (decoder m) + PHANTOM_ONE_MAX_PADDING_BYTES <= u64_max.
Proof.
  intros (_ & (_ & _ & [[_ Hb] _]) & Hf & _ & _ & _ & Hpad) Hlt.
  unfold MAX_FRAME_BUDGET, PHANTOM_ONE_MAX_PADDING_BYTES, u64_max in *.
  change (Z.shiftl 1 48) with (2 ^ 48) in *. lia.
Qed.

Lemma received_decode (n m : NegotiatedTcp R S T) ft s payload padding (e' : PhantomOneEncoder R) d' :
  in_limit m = out_limit n ->
  frame_received (out_limit n) ft s payload padding e' (decoder m) d' ->
  accept_envelope (layout_of (decoder m) ft s payload padding) m
  = admit_frame (layout_of (decoder m) ft s payload padding)
      (frame_of (decoder m) ft s payload padding) (with_decoder d' m).
Proof.
  intros Hl (Hadm & _). unfold accept_envelope, on. rewrite Hl.
  by rewrite (proj1 (decode_admitted _ _ _ _ _ _ _ Hadm)).
Qed.

Lemma send_cases payload now (n m : NegotiatedTcp R S T) :
  sync n m -> bytes_ok payload -> clock n <= now ->
  send_outcome (Some payload) now n m (send_op (OpSend payload now) n).
Proof.
  intros HS Hb Hnow. pose proof HS as (Hstep & (Hlim & Hbud & Hbok) & Hf & Hp & (Hwf & Hpol & Hpay) & Hcov & Hpad).
  assert (forall e, send_outcome (Some payload) now n m (Err e, n)) as Herr
    by (intros e; left; eexists _, n; split; [done|]; split; [by right; exists e|done]).
  unfold send_op, negotiated_send. destruct (_ || _) eqn:E; [apply Herr|]. bool_prop.
  pose proof (padding_room n m HS ltac:(lia)) as Hroom. pose proof (zlen_nonneg payload).
  unfold on at 1. destruct (session_step (out_limit n) Data payload (encoder n) (decoder m) Hstep Hb Hroom)
    as [(e & enc' & -> & Hstep' & _)|(s & padding & enc' & d' & -> & _ & Hrec)]; cbn [sbind].
  { left. eexists _, _. split; [done|]. split; [by right; exists e|]. by split_and!. }
  pose proof Hrec as (_ & Henv & _ & Hin & Hin' & _ & Hused).
  unfold on at 1. cbn [with_encoder sent_usage out_budget].
  destruct (usage_reserve_cases (out_budget n) (zlen payload) (sent_usage n)) as [[e ->]|(-> & Hfr & Hpy)]; cbn [sbind].
  { left. eexists _, _. split; [done|]. split; [by right; exists e|]. by split_and!. }
  right. exists (layout_of (decoder m) Data s payload padding).
  rewrite (received_decode n m _ _ _ _ _ _ Hlim Hrec). unfold admit_frame. cbn [fr_frame_type frame_of fr_payload].
  unfold on at 1. cbn [with_decoder in_budget received_usage].
  rewrite Hbud, usage_reserve_ok by (done || lia). cbn [sbind].
  eexists. split; [done|]. split; [done|]. unfold on. cbn [with_sent_usage with_encoder session_tx].
  destruct (link_send _ (session_tx n)) as [[[]|e|] s']; cbn [sbind]; [| |done].
  - cbn [with_tx scheduler with_sent_usage with_encoder].
    assert (0 <= now) as Hnow0 by (destruct Hwf as (? & _); unfold clock in *; lia).
    destruct (record_payload_cases now (zlen payload) (scheduler n) Hwf Hnow0 ltac:(lia))
      as [[Hlt _]|(_ & sch & -> & Hwf' & Hobs & _ & _ & Hpol' & Hcb & _ & Hpb)]; [unfold clock in *; lia|].
    cbn [sbind]. eexists. split; [done|]. split; [done|]. split; [|unfold clock; cbn; lia].
    unfold saturating_add in Hpb. unfold sync. cbn. split_and!; try done; try lia; congruence.
  - eexists. split; [done|]. split; [done|]. split; [|done]. unfold sync. cbn. split_and!; try done; lia.
Qed.

Lemma cover_cases now pending congested cancelled (n m : NegotiatedTcp R S T) :
  sync n m -> clock n <= now ->
  send_outcome None now n m (send_op (OpCover now pending congested cancelled) n).
Proof.
  intros HS Hnow. pose proof HS as (Hstep & (Hlim & Hbud & Hbok) & Hf & Hp & (Hwf & Hpol & Hpay) & Hcov & Hpad).
  unfold send_op, send_cover_if_due.
  destruct (Z.leb_spec (max_frames (out_budget n)) (u_frames (sent_usage n))) as [|Hlt].
  { left. eexists _, n. split; [done|]. split; [by right; eexists|done]. }
  pose proof (padding_room n m HS Hlt) as Hroom.
  assert (0 <= now) as Hnow0 by (destruct Hwf as (? & _); unfold clock in *; lia).
  unfold on at 1. destruct (target_size_cases (encoder n) 1 (out_limit n) (proj1 Hstep) ltac:(lia))
    as [[e ->]|(target & r1 & -> & Ht)]; cbn [sbind].
  { left. eexists _, _. split; [done|]. split; [by right; exists e|]. by split_and!. }
  destruct Ht as ((Ht & _) & _). pose proof (proj1 (proj1 Hstep)). unfold PHANTOM_ONE_HEADER_BYTES in Ht.
  unfold on at 1. cbn [with_encoder scheduler].
  destruct (reserve_cases now (target + 32) pending congested cancelled (scheduler n) Hwf Hnow0 ltac:(lia))
    as [[? _]|(_ & due & sch & -> & Hwf' & Hobs & _ & Hpol' & Hpb & _ & Hdue)]; [unfold clock in *; lia|].
  cbn [sbind]. destruct due; cbn [negb]; cbv iota; last first.
  { left. eexists _, _. split; [done|]. split; [by left|]. destruct Hdue as [Hcb _].
    unfold sync, clock. cbn. split_and!; try done; try congruence; lia. }
  destruct Hdue as (_ & _ & _ & pol & data & Epol & _ & _ & _ & _ & _ & Hcb & Hall & _).
  unfold on at 1. cbn [with_scheduler with_encoder sent_usage out_budget].
  destruct (usage_reserve_cases (out_budget n) 0 (sent_usage n)) as [[e ->]|(-> & Hfr & Hpy)]; cbn [sbind].
  { left. eexists _, _. split; [done|]. split; [by right; exists e|].
    unfold sync, clock. cbn. split_and!; try done; try congruence; lia. }
  unfold on at 1. cbn [with_sent_usage with_scheduler with_encoder encoder out_limit].
  destruct (target_step (out_limit n) Keepalive [0] target (set_rng (encoder n) r1) (decoder m)
    (in_step_rng _ _ _ Hstep) ltac:(by_compute) Hroom)
    as [(e & r2 & ->)|(s & padding & enc' & d' & -> & _ & Hlen & Hrec)]; cbn [sbind].
  { left. eexists _, _. split; [done|]. split; [by right; exists e|].
    unfold sync, clock. cbn. split_and!; try done; try congruence; lia. }
  pose proof Hrec as (_ & Henv & _ & Hin & Hin' & _ & Hused).
  right. exists (layout_of (decoder m) Keepalive s [0] padding).
  rewrite (received_decode n m _ _ _ _ _ _ Hlim Hrec). unfold admit_frame. cbn [fr_frame_type frame_of fr_payload].
  cbn [with_decoder agreed_cover]. rewrite <- Hpol, Epol. cbn [ok_or sbind].
  unfold on at 1. cbn [with_decoder in_budget received_usage].
  rewrite Hbud, usage_reserve_ok by (done || lia). cbn [sbind].
  cbn [with_received_usage with_received_cover with_decoder received_usage received_cover_bytes u_payload_bytes].
  rewrite Hlen, bytes_eqb_refl, Z.add_0_r. cbn [negb orb].
  pose proof (allowance_mono pol (cover_payload_bytes (scheduler n)) (u_payload_bytes (received_usage m))) as Hmono.
  destruct Hwf as (W0 & W1 & W2 & W3 & W4 & W5). rewrite Epol in W5. destruct W5 as [Hpolok Hearned].
  specialize (Hmono Hpolok ltac:(lia)). pose proof Hpolok as (_ & _ & _ & Hmx).
  assert (saturating_add u64_max (received_cover_bytes m) (target + 32) = received_cover_bytes m + (target + 32)) as ->.
  { unfold saturating_add, u64_max, allowance in *. lia. }
  rewrite (proj2 (cover_budget_allows_ok pol _ _)) by lia. cbn [negb]; cbv iota.
  eexists. split; [done|]. split; [done|]. unfold on. cbn [with_encoder with_sent_usage with_scheduler session_tx].
  destruct (link_send _ (session_tx n)) as [[[]|e|] s']; cbn [sbind]; [| |done].
  all: eexists; split; [done|]; split; [done|]; split; [|unfold clock; cbn; lia].
  all: unfold sync; cbn; split_and!; try done; try congruence; lia.
Qed.
End Sync.

(** ** Lemmas: a sequence of sending calls *)

Definition op_now (op : SendOp) : Z := match op with OpSend _ now | OpCover now _ _ _ => now end.
Definition op_bytes (op : SendOp) : Prop := match op with OpSend p _ => bytes_ok p | _ => True end.

#[export] Instance op_bytes_dec op : Decision (op_bytes op).
Proof. destruct op; apply _. Defined.

(** [Instant] is monotonic: the readings never decrease. *)
Fixpoint clocks (t : Z) (ops : list SendOp) : Prop :=
  match ops with [] => True | op :: ops => t <= op_now op /\ clocks (op_now op) ops end.

#[export] Instance clocks_dec t ops : Decision (clocks t ops).
Proof. revert t. induction ops; intros t; cbn; apply _. Defined.

(** The frames that went out, as the receiver sees them: data or cover. *)
Definition wire_frames (ops : list SendOp) (rs : list (result bool)) : list (option bytes) :=
  flat_map (fun '(op, r) => match r, op with
    | Ok true, OpSend p _ => [Some p]
    | Ok true, OpCover _ _ _ _ => [None]
    | _, _ => []
    end) (zip ops rs).

Definition op_content (op : SendOp) : option bytes :=
  match op with OpSend p _ => Some p | OpCover _ _ _ _ => None end.

Section Runs.
Context {R S T : Type} `{RngLaws R, FrameTx S, FrameRx T}.

Lemma send_op_cases op (n m : NegotiatedTcp R S T) :
  sync n m -> op_bytes op -> clock n <= op_now op ->
  send_outcome (op_content op) (op_now op) n m (send_op op n).
Proof. destruct op; intros; [by apply send_cases|by apply cover_cases]. Qed.

Lemma send_ops_run `{!FrameTxLaws S} ops (n m : NegotiatedTcp R S T) es t :
  sync n m -> Forall op_bytes ops -> clocks t ops -> clock n <= t -> tx_state es (session_tx n) ->
  let out := run send_op ops n in
  Forall no_panic out.1 /\
  exists new, tx_state (es ++ new) (session_tx out.2) /\
    (run accept_envelope new m).1 = map Ok (wire_frames ops out.1) /\ sync out.2 (run accept_envelope new m).2.
Proof.
  intros HS Hb. revert n m es t HS. induction Hb as [|op ops Hop Hb IH]; intros n m es t HS Hc Ht Hx; cbv zeta.
  { split; [constructor|]. exists []. by rewrite app_nil_r. }
  destruct Hc as [Hnow Hc]. rewrite run_cons. cbn [fst snd].
  destruct (send_op_cases op n m HS Hop ltac:(lia)) as
    [(r & n' & -> & Hr & Htx & HS' & Hck)|(env & m' & Henv & Hacc & Hlink)]; cbn [fst snd].
  - rewrite <- Htx in Hx. destruct (IH n' m es _ HS' Hc Hck Hx) as (Hn & new & H1' & H2' & H3').
    split; [constructor; [by destruct Hr as [->|[e ->]]|done]|]. exists new.
    replace (wire_frames (op :: ops) (r :: _)) with (wire_frames ops (run send_op ops n').1); [done|].
    by destruct Hr as [->|[e ->]].
  - pose proof (tx_send es (session_tx n) env Hx Henv) as Hsend.
    destruct (link_send env (session_tx n)) as [[[]|e|] s']; [| |done].
    + destruct Hlink as (n' & -> & <- & HS' & Hck). cbn [fst snd].
      destruct (IH n' m' _ _ HS' Hc Hck Hsend) as (Hn & new & H1' & H2' & H3').
      split; [by constructor|]. exists (env :: new). rewrite run_cons, Hacc. cbn [fst snd].
      rewrite H2', <- app_assoc in *. split; [done|]. split; [|done]. by destruct op.
    + destruct Hlink as (n' & -> & <- & HS' & Hck). cbn [fst snd].
      destruct (IH n' m _ _ HS' Hc Hck Hsend) as (Hn & new & Hrest).
      split; [by constructor|]. exists new. exact Hrest.
Qed.

(** ** Lemmas: receiving *)

Lemma accept_with_rx env t (m : NegotiatedTcp R S T) :
  accept_envelope env (with_rx t m) = ((accept_envelope env m).1, with_rx t (accept_envelope env m).2).
Proof.
  unfold accept_envelope, on. cbn [with_rx decoder in_limit].
  destruct (decode env (in_limit m) (decoder m)) as [[frame|e|] d]; cbn [sbind]; [|done..].
  unfold admit_frame, on. destruct (fr_frame_type frame); cbn [with_rx with_decoder with_received_usage agreed_cover in_budget received_usage].
  - destruct (usage_reserve _ _ _) as [[[]|e|] u]; done.
  - done.
  - destruct (agreed_cover m) as [pol|]; cbn [ok_or sbind]; [|done].
    destruct (usage_reserve _ _ _) as [[[]|e|] u]; cbn [sbind]; [|done..].
    cbn [with_received_usage with_rx with_decoder with_received_cover received_usage received_cover_bytes].
    by case_if.
Qed.

Lemma run_accept_with_rx es t (m : NegotiatedTcp R S T) :
  (run accept_envelope es (with_rx t m)).1 = (run accept_envelope es m).1.
Proof.
  revert m. induction es as [|env es IH]; intros m; [done|].
  rewrite !run_cons, accept_with_rx. cbn [fst snd]. by rewrite IH.
Qed.

(** What one receive call does with the frames to come. *)
Fixpoint spec_recv (rounds : nat) (frames : list (option bytes)) : option (result bytes * list (option bytes)) :=
  match rounds, frames with
  | O, _ => Some (Err (ResourceExhausted "too many consecutive cover frames"), frames)
  | Datatypes.S _, Some p :: frames => Some (Ok p, frames)
  | Datatypes.S rounds, None :: frames => spec_recv rounds frames
  | Datatypes.S _, [] => None
  end.

Fixpoint spec_calls (k : nat) (frames : list (option bytes)) : option (list (result bytes)) :=
  match k with
  | O => Some []
  | Datatypes.S k =>
      match spec_recv CONSECUTIVE_COVER_FRAMES frames with
      | Some (r, frames) => option_map (cons r) (spec_calls k frames)
      | None => None
      end
  end.

Context `{!FrameRxLaws T}.

(** A receiver with the frames [frames] to come. *)
Definition awaits (m : NegotiatedTcp R S T) (frames : list (option bytes)) : Prop :=
  exists es, rx_state es (session_rx m) /\ (run accept_envelope es m).1 = map Ok frames.

Definition exhausted : ShphError := ResourceExhausted "too many consecutive cover frames".

Lemma awaits_frame m frames es env t :
  rx_state es t -> (run accept_envelope (env :: es) m).1 = map Ok frames ->
  exists x rest m', frames = x :: rest /\ accept_envelope env (with_rx t m) = (Ok x, m') /\
    session_rx m' = t /\ awaits m' rest.
Proof.
  intros Ht Hrun. rewrite run_cons in Hrun. destruct frames as [|x rest]; [done|]. injection Hrun as Hx Hrest.
  exists x, rest, (with_rx t (accept_envelope env m).2). split; [done|].
  rewrite accept_with_rx, Hx. split; [done|]. split; [done|]. exists es. split; [done|]. by rewrite run_accept_with_rx.
Qed.

Lemma recv_loop_spec rounds m frames :
  awaits m frames ->
  match recv_loop rounds m with
  | (Some (Ok p), m') => exists c rest, frames = replicate c None ++ Some p :: rest /\ awaits m' rest /\
      (forall e, rx_error (session_rx m') e -> rx_error (session_rx m) e)
  | (Some (Err e), m') => exists c rest, frames = replicate c None ++ rest /\ awaits m' rest /\
      (rx_error (session_rx m) e \/ e = exhausted) /\
      (forall e, rx_error (session_rx m') e -> rx_error (session_rx m) e)
  | (Some Panic, _) => False
  | (None, _) => True
  end.
Proof.
  revert m frames. induction rounds as [|rounds IH]; intros m frames Hm; cbn [recv_loop].
  { exists 0%nat, frames. split; [done|]. split; [done|]. split; [by right|done]. }
  destruct Hm as (es & Hrx & Hrun). pose proof (rx_recv es (session_rx m) Hrx) as Hr.
  destruct (link_recv (session_rx m)) as [[[env|e|]|] t]; [..|done|done].
  - destruct Hr as (es' & -> & Ht & Herr).
    destruct (awaits_frame m frames es' env t Ht Hrun) as (x & rest & m' & -> & -> & <- & Haw).
    destruct x as [p|]; [exists 0%nat, rest; done|].
    specialize (IH m' rest Haw). destruct (recv_loop rounds m') as [[[p|e|]|] m2]; try done.
    + destruct IH as (c & rest' & -> & Haw' & He). exists (Datatypes.S c), rest'. split; [done|]. split; [done|]. auto.
    + destruct IH as (c & rest' & -> & Haw' & Hc & He). exists (Datatypes.S c), rest'. split; [done|]. split; [done|].
      split; [destruct Hc; auto|auto].
  - destruct Hr as (Ht & He & Herr). exists 0%nat, frames. split; [done|]. split; [|by split; [left|]].
    exists es. split; [done|]. by rewrite run_accept_with_rx.
Qed.

Definition contents (frames : list (option bytes)) : list bytes := omap (fun x => x) frames.

Lemma contents_covers c rest : contents (replicate c None ++ rest) = contents rest.
Proof. unfold contents. induction c; [done|]. by cbn. Qed.

Lemma negotiated_recv_calls_spec k m frames :
  awaits m frames ->
  let outs := (negotiated_recv_calls k m).1 in
  Forall no_panic outs /\ (exists j, oks outs = take j (contents frames)) /\
  forall e, Err e ∈ outs -> rx_error (session_rx m) e \/ e = exhausted.
Proof.
  revert m frames. induction k as [|k IH]; intros m frames Hm; cbn [negotiated_recv_calls].
  { split; [constructor|]. split; [by exists 0%nat|]. cbn. set_solver. }
  pose proof (recv_loop_spec CONSECUTIVE_COVER_FRAMES m frames Hm) as HS. fold (negotiated_recv m) in HS.
  destruct (negotiated_recv m) as [[[p|e|]|] m']; [..|done|].
  - destruct HS as (c & rest & -> & Haw & He). destruct (IH m' rest Haw) as (Hn & (j & Hj) & Herr).
    destruct (negotiated_recv_calls k m') as [rs m2]. cbn [fst] in *. rewrite oks_cons_ok, contents_covers.
    split; [by constructor|]. split; [exists (Datatypes.S j); cbn; by rewrite Hj|].
    intros e [?|Hin]%elem_of_cons; [done|]. destruct (Herr e Hin); auto.
  - destruct HS as (c & rest & -> & Haw & Hc & He). destruct (IH m' rest Haw) as (Hn & (j & Hj) & Herr).
    destruct (negotiated_recv_calls k m') as [rs m2]. cbn [fst] in *. rewrite oks_cons_err, contents_covers.
    split; [by constructor|]. split; [by exists j|].
    intros x [[= ->]|Hin]%elem_of_cons; [done|]. destruct (Herr x Hin); auto.
  - split; [constructor|]. split; [by exists 0%nat|]. cbn. set_solver.
Qed.

(** When the medium is ready the calls do what the specification says. *)
Lemma recv_loop_live rounds m frames r rest :
  awaits m frames -> rx_ready (session_rx m) -> spec_recv rounds frames = Some (r, rest) ->
  exists m', recv_loop rounds m = (Some r, m') /\ awaits m' rest /\ rx_ready (session_rx m').
Proof.
  revert m frames. induction rounds as [|rounds IH]; intros m frames Hm Hready Hs; cbn [spec_recv recv_loop] in *.
  { injection Hs as <- <-. by exists m. }
  destruct Hm as (es & Hrx & Hrun). destruct frames as [|x frames]; [done|].
  destruct es as [|env es]; [done|].
  destruct (rx_live env es (session_rx m) Hrx Hready) as (t & -> & Ht & Hready').
  destruct (awaits_frame m _ es env t Ht Hrun) as (x' & rest' & m' & [= <- <-] & -> & <- & Haw).
  destruct x as [p|]; [injection Hs as <- <-; by exists m'|]. by apply (IH m' frames).
Qed.

Lemma negotiated_recv_calls_live k m frames outs :
  awaits m frames -> rx_ready (session_rx m) -> spec_calls k frames = Some outs ->
  (negotiated_recv_calls k m).1 = outs.
Proof.
  revert m frames outs. induction k as [|k IH]; intros m frames outs Hm Hready Hs; cbn [negotiated_recv_calls spec_calls] in *.
  { by injection Hs. }
  destruct (spec_recv CONSECUTIVE_COVER_FRAMES frames) as [[r rest]|] eqn:Er; [|done].
  destruct (recv_loop_live _ _ _ _ _ Hm Hready Er) as (m' & E & Haw & Hready').
  unfold negotiated_recv. rewrite E. destruct (spec_calls k rest) as [outs'|] eqn:Es; [|done].
  injection Hs as <-. specialize (IH m' rest outs' Haw Hready' Es).
  destruct (negotiated_recv_calls k m') as [rs m2]. cbn [fst] in *. by rewrite IH.
Qed.
End Runs.

(** ** Lemmas: a fresh session *)

Section Fresh.
Context {R S T : Type} `{RngLaws R, FrameTx S, FrameRx T}.

Definition agreement_ok (p : NegotiatedPolicy) : Prop :=
  config_wf (n_config p) /\ budget_ok (n_outbound_budget p) /\ budget_ok (n_inbound_budget p).

Lemma intersect_ok a b : budget_ok a -> budget_ok b -> budget_ok (intersect a b).
Proof. unfold budget_ok, intersect. cbn. lia. Qed.

Lemma negotiate_agreement_ok a b p :
  offer_wf a -> offer_wf b -> negotiate a b = Ok p -> agreement_ok p /\ cover a = cover b.
Proof.
  intros Ha Hb Hn. destruct (negotiate_cases a b Ha Hb) as [[_ [e E]]|((_ & _ & Hcov & _) & q & _ & _ & _ & _ & E)]; [congruence|].
  rewrite E in Hn. injection Hn as <-. split; [|done].
  destruct Ha as (_ & (Hwf & _) & _ & _ & [? ?] & _), Hb as (_ & _ & _ & _ & [? ?] & _).
  split; [cbn; unfold settle; by destruct (profile_bound (o_config a))|]. split; by apply intersect_ok.
Qed.

Lemma scheduler_new_wf c sch :
  match c with Some c => policy_ok c | None => True end -> CoverScheduler_new c = Ok sch ->
  sch = mkCoverScheduler c 0 None None 0 0 false /\ scheduler_wf sch.
Proof.
  intros Hc Hs. assert (sch = mkCoverScheduler c 0 None None 0 0 false) as ->.
  { unfold CoverScheduler_new in Hs. destruct c as [c|]; [apply rbind_ok in Hs as ([] & _ & Hs)|]; by injection Hs as <-. }
  split; [done|]. unfold scheduler_wf. cbn. split_and!; try done. destruct c as [c|]; [|done].
  split; [done|]. unfold allowance. rewrite Z.mul_0_l, Z.div_0_l by done. destruct Hc as (_ & _ & _ & ?). lia.
Qed.

Lemma negotiated_inv tx rx g (r : R) p c (n : NegotiatedTcp R S T) :
  match c with Some c => policy_ok c | None => True end -> negotiated tx rx g r p c = Ok n ->
  n = mkNegotiatedTcp tx rx (from_validated_config g r (n_config p))
        (mkPhantomOneDecoder g PHANTOM_ONE_DEFAULT_REPLAY_WINDOW (n_config p) None 0 0)
        (n_outbound_frame_limit p) (n_inbound_frame_limit p) (n_outbound_budget p) (n_inbound_budget p)
        FrameUsage_default FrameUsage_default (mkCoverScheduler c 0 None None 0 0 false) c 0.
Proof.
  intros Hc Hn. unfold negotiated, encoder_with_config, with_config_and_window in Hn.
  apply rbind_ok in Hn as (enc & He & Hn). apply rbind_ok in He as ([] & Hv & [= <-]).
  apply rbind_ok in Hn as (dec & Hd & Hn). rewrite Hv in Hd. cbn in Hd. injection Hd as <-.
  apply rbind_ok in Hn as (sch & Hs & [= <-]). by apply scheduler_new_wf in Hs as [-> _].
Qed.

Lemma negotiated_sync tx rx g (r : R) p c (n m : NegotiatedTcp R S T) tx' rx' (r' : R) :
  agreement_ok p -> match c with Some c => policy_ok c | None => True end -> 0 <= g <= u32_max ->
  negotiated tx rx g r p c = Ok n -> negotiated tx' rx' g r' (mirror p) c = Ok m -> sync n m.
Proof.
  intros (Hcfg & Hob & Hib) Hc Hg Hn Hm.
  apply negotiated_inv in Hn as ->; [|done]. apply negotiated_inv in Hm as ->; [|done].
  unfold sync. cbn [encoder decoder in_limit out_limit in_budget out_budget received_usage sent_usage
    scheduler agreed_cover received_cover_bytes mirror n_config n_outbound_frame_limit n_inbound_frame_limit
    n_outbound_budget n_inbound_budget].
  split.
  { unfold in_step. cbn. split_and!; try done; try lia.
    - unfold within_budget. cbn. destruct Hcfg as (_ & _ & Hp). destruct (padding_budget (n_config p)); [lia|done].
    - intros s [= <-]. split; [unfold u64_max; lia|done]. }
  split; [done|]. split; [done|]. split; [done|]. split; [|split; done].
  split; [|done]. assert (exists sch, CoverScheduler_new c = Ok sch) as [sch Hs].
  { unfold CoverScheduler_new. destruct c as [c|]; [|eauto]. pose proof Hc as (_ & _ & _ & Hmx).
    rewrite (proj2 (cover_validate_ok c (Z.lt_le_incl _ _ (proj1 Hmx))) Hc). eauto. }
  by destruct (scheduler_new_wf c sch Hc Hs) as [<- Hwf].
Qed.
End Fresh.

(** ** Lemmas: a receiver against any peer *)

Section Adversary.
Context {R S T : Type} `{RngOps R, FrameTx S, FrameRx T}.

(** The bytes of cover traffic admitted. *)
Definition cover_cost (es : list bytes) (rs : list (result (option bytes))) : Z :=
  sum_list (map (fun '(env, r) => match r with Ok None => zlen env + 32 | _ => 0 end) (zip es rs)).

Definition payload_total (frames : list (option bytes)) : Z := sum_list (map zlen (contents frames)).

Definition cover_allowed (m : NegotiatedTcp R S T) (n : Z) : Prop :=
  match agreed_cover m with Some p => policy_ok p /\ n <= allowance p (u_payload_bytes (received_usage m)) | None => n = 0 end.

(** A receiver that has admitted [frames] frames, [payload] payload bytes and
    [cost] cover bytes. *)
Definition admitted (m : NegotiatedTcp R S T) (frames payload cost : Z) : Prop :=
  decoder_wf (decoder m) /\ frames <= u_frames (received_usage m) <= max_frames (in_budget m) /\
  0 <= frames /\ payload = u_payload_bytes (received_usage m) /\ 0 <= payload <= max_payload_bytes (in_budget m) /\
  0 <= cost <= received_cover_bytes m /\ cover_allowed m cost.

Lemma accept_envelope_cases env (m : NegotiatedTcp R S T) frames payload cost :
  bytes_ok env -> admitted m frames payload cost ->
  let '(r, m') := accept_envelope env m in
  in_budget m' = in_budget m /\ agreed_cover m' = agreed_cover m /\
  match r with
  | Ok (Some p) => admitted m' (frames + 1) (payload + zlen p) cost
  | Ok None => admitted m' (frames + 1) payload (cost + (zlen env + 32))
  | Err _ => admitted m' frames payload cost
  | Panic => False
  end.
Proof.
  intros Henv (Hd & Hf & Hf0 & Hp & Hpm & Hc & Hall). unfold accept_envelope, on at 1.
  destruct (decode_cases env (in_limit m) (decoder m) Henv Hd)
    as [[e ->]|(ft & sq & pl & padding & -> & Hsq & Ha & Hmax & Hbud & ->)]; cbn [sbind]; [by split_and!|].
  pose proof (phantom_accept_keeps sq (decoder m)) as (K1 & K2 & K3 & K4). pose proof (zlen_nonneg padding).
  pose proof (zlen_nonneg pl). set (env := layout_of (decoder m) ft sq pl padding) in *.
  pose proof (zlen_nonneg env). clearbody env. set (d' := set_padding_used _ _).
  assert (decoder_wf d') as Hd'.
  { destruct Hd as (D1 & D2 & D3). unfold decoder_wf, d'. cbn. rewrite K1, K2. split_and!; try done; lia. }
  assert (admitted (with_decoder d' m) frames payload cost) as Hrej
    by exact (conj Hd' (conj Hf (conj Hf0 (conj Hp (conj Hpm (conj Hc Hall)))))).
  unfold admit_frame. cbn [fr_frame_type fr_payload frame_of]. destruct ft.
  - unfold on. cbn [with_decoder in_budget received_usage].
    destruct (usage_reserve_cases (in_budget m) (zlen pl) (received_usage m)) as [[e ->]|(-> & Hfr & Hpy)]; cbn [sbind].
    + split; [done|]. split; [done|exact Hrej].
    + clear Hrej. unfold admitted, cover_allowed in *. cbn. split_and!; try done; try lia.
      destruct (agreed_cover m) as [pol|]; [|done]. destruct Hall as [Hpol Hle]. split; [done|].
      etransitivity; [exact Hle|]. apply allowance_mono; [done|lia].
  - done.
  - cbn [with_decoder agreed_cover]. destruct (agreed_cover m) as [pol|] eqn:Epol; cbn [ok_or sbind].
    2: { split; [done|]. split; [done|exact Hrej]. }
    unfold on. cbn [with_decoder in_budget received_usage].
    destruct (usage_reserve_cases (in_budget m) 0 (received_usage m)) as [[e ->]|(-> & Hfr & Hpy)]; cbn [sbind].
    + split; [done|]. split; [done|exact Hrej].
    + clear Hrej. cbn [with_received_usage with_received_cover with_decoder received_usage received_cover_bytes u_payload_bytes].
      rewrite Z.add_0_r. unfold cover_allowed in Hall. rewrite Epol in Hall. destruct Hall as [Hpol Hle].
      pose proof Hpol as (_ & _ & _ & Hmx).
      assert (0 <= cost <= saturating_add u64_max (received_cover_bytes m) (zlen env + 32)) as Hcc.
      { unfold saturating_add, allowance, u64_max in *. lia. }
      destruct (negb _ || negb _) eqn:E.
      * unfold admitted, cover_allowed. cbn. rewrite Epol. split_and!; try done; lia.
      * bool_prop. match goal with X : cover_budget_allows _ _ _ = true |- _ => apply cover_budget_allows_ok in X as Hcb end.
        unfold admitted, cover_allowed. cbn. rewrite Epol. unfold saturating_add, allowance, u64_max in *.
        split_and!; try done; lia.
Qed.

Lemma contents_cons x frames : contents (x :: frames) = match x with Some p => [p] | None => [] end ++ contents frames.
Proof. by destruct x. Qed.

Lemma accept_run es (m : NegotiatedTcp R S T) frames payload cost :
  Forall bytes_ok es -> admitted m frames payload cost ->
  let out := run accept_envelope es m in
  Forall no_panic out.1 /\
  admitted out.2 (frames + zlen (oks out.1)) (payload + payload_total (oks out.1)) (cost + cover_cost es out.1) /\
  in_budget out.2 = in_budget m /\ agreed_cover out.2 = agreed_cover m.
Proof.
  intros Hes. revert m frames payload cost. induction Hes as [|env es Henv Hes IH]; intros m frames payload cost Hm; cbv zeta.
  { cbn. rewrite !Z.add_0_r. split; [constructor|done]. }
  pose proof (accept_envelope_cases env m frames payload cost Henv Hm) as Hstep.
  rewrite run_cons. destruct (accept_envelope env m) as [r m']. cbn [fst snd]. destruct Hstep as (Eb & Ec & Hr).
  set (rs := (run accept_envelope es m').1).
  assert (cover_cost (env :: es) (r :: rs) = match r with Ok None => zlen env + 32 | _ => 0 end + cover_cost es rs) as -> by done.
  destruct r as [[p|]|e|]; [..|done].
  - destruct (IH m' _ _ _ Hr) as (I1 & I2 & I3 & I4). fold rs in I1, I2. rewrite oks_cons_ok.
    unfold payload_total in *. rewrite contents_cons, zlen_cons. cbn [app map].
    change (sum_list (zlen p :: ?l)) with (zlen p + sum_list l).
    split; [by constructor|]. split; [|split; congruence].
    by rewrite Z.add_assoc, Z.add_assoc, Z.add_0_l.
  - destruct (IH m' _ _ _ Hr) as (I1 & I2 & I3 & I4). fold rs in I1, I2. rewrite oks_cons_ok.
    unfold payload_total in *. rewrite contents_cons, zlen_cons. cbn [app].
    split; [by constructor|]. split; [|split; congruence]. by rewrite !Z.add_assoc in *.
  - destruct (IH m' _ _ _ Hr) as (I1 & I2 & I3 & I4). fold rs in I1, I2. rewrite oks_cons_err, Z.add_0_l.
    split; [by constructor|]. split; [done|]. split; congruence.
Qed.
End Adversary.

(** ** Properties *)

(** C18: a negotiated session delivers.  Two peers that agreed on a policy open
    negotiated sessions over linked encrypted TCP sessions; one side is asked to
    send any payloads and cover frames under any clock readings that do not
    decrease; the other makes any number of receive calls under any schedule of
    reads.  No call panics; what the receiver returns is a prefix of the payloads
    whose send succeeded, in order and unchanged; it never rejects a frame of its
    peer, neither data nor cover traffic, so that every error is one of the
    medium, or the limit on consecutive cover frames; and when the medium
    delivers, the calls return exactly what [spec_calls] says: each call skips up
    to 31 cover frames and returns the next payload. *)
Theorem negotiated_session_delivers {R} `{RngLaws R, AeadOps, !AeadLaws}
    a b p g (r r' : R) start (s tx1 : SecureTcpSender R) (rx0 : SecureTcpReceiver) ops
    (n m : NegotiatedTcp R (SecureTcpSender R) SecureTcpReceiver) evs k :
  offer_wf a -> offer_wf b -> negotiate a b = Ok p -> 0 <= g <= u32_max ->
  linked s None start -> s_phantom_one_encoder s = None -> tx (s_stream s) = [] ->
  Forall op_bytes ops -> clocks 0 ops -> Forall event_ok evs ->
  negotiated s rx0 g r p (cover a) = Ok n ->
  let out := run send_op ops n in
  let wired := tx (s_stream (session_tx out.2)) in
  negotiated tx1 (mkSecureTcpReceiver (mkRxStream wired evs) start.1 None start.2 TcpFrameReader_default)
    g r' (mirror p) (cover b) = Ok m ->
  let frames := wire_frames ops out.1 in
  let outs := (negotiated_recv_calls k m).1 in
  Forall no_panic out.1 /\ Forall no_panic outs /\
  (exists j, oks outs = take j (contents frames)) /\
  (forall e, Err e ∈ outs -> e ∈ failures evs \/ e = ConnectionClosed \/ e = exhausted) /\
  (failures evs = [] -> zlen wired <= delivers evs ->
   forall expected, spec_calls k frames = Some expected -> outs = expected).
Proof.
  intros Ha Hb Hneg Hg Hl Hraw Htx Hops Hck Hev Hn out wired Hm frames outs.
  destruct (negotiate_agreement_ok a b p Ha Hb Hneg) as [Hp Hcov].
  pose proof Ha as (_ & _ & _ & _ & _ & Hca). rewrite <- Hcov in Hm.
  pose proof (negotiated_sync _ _ _ _ _ _ _ _ _ _ _ Hp Hca Hg Hn Hm) as HS.
  apply negotiated_inv in Hn as En; [|done]. apply negotiated_inv in Hm as Em; [|done].
  destruct (send_ops_run (FrameTxLaws0:=tcp_tx_laws start) ops n m [] 0 HS Hops Hck) as (Hnp & es & Hes & Hrun & _);
    [by rewrite En|rewrite En; by apply tcp_tx_start|].
  assert (awaits m frames) as Haw.
  { exists es. split; [|exact Hrun]. rewrite Em. by apply tcp_network. }
  destruct (negotiated_recv_calls_spec k m frames Haw) as (Hnr & Hpre & Herr).
  split; [done|]. split; [done|]. split; [done|]. split.
  - intros e [[He|He]|He]%Herr; [|by right; left|by right; right]. rewrite Em in He. by left.
  - intros Hf Hd expected. apply negotiated_recv_calls_live; [done|]. by rewrite Em.
Qed.

(** C19: a negotiated receiver is bounded against any peer.  Whatever envelopes
    the session hands over, handling them never panics; the frames admitted and
    their payload bytes stay within the budget this side offered, and the cover
    traffic admitted within the percentage of the payload and the absolute
    maximum of the agreed cover policy (none without a policy). *)
Theorem negotiated_receiver_bounded {R S T} `{RngOps R, FrameTx S, FrameRx T}
    a b p g (r : R) (tx : S) (rx : T) (n : NegotiatedTcp R S T) es :
  offer_wf a -> offer_wf b -> negotiate a b = Ok p -> 0 <= g <= u32_max ->
  negotiated tx rx g r p (cover a) = Ok n -> Forall bytes_ok es ->
  let out := run accept_envelope es n in
  Forall no_panic out.1 /\
  zlen (oks out.1) <= max_frames (inbound_budget a) /\
  payload_total (oks out.1) <= max_payload_bytes (inbound_budget a) /\
  match cover a with
  | Some c => cover_cost es out.1 <= allowance c (payload_total (oks out.1))
  | None => cover_cost es out.1 = 0
  end.
Proof.
  intros Ha Hb Hneg Hg Hn Hes out.
  destruct (negotiate_agreement_ok a b p Ha Hb Hneg) as [(Hcfg & _ & [Hib0 Hib1]) _].
  pose proof Ha as (_ & _ & _ & _ & _ & Hca). apply negotiated_inv in Hn as En; [|done].
  assert (n_inbound_budget p = intersect (inbound_budget a) (outbound_budget b)) as Eb.
  { destruct (negotiate_cases a b Ha Hb) as [[_ [e E]]|(_ & q & _ & _ & _ & _ & E)]; [congruence|].
    rewrite E in Hneg. by injection Hneg as <-. }
  destruct (accept_run es n 0 0 0 Hes) as (H1' & (_ & Hf & _ & Hp & Hpm & _ & Hc) & Hb' & Hcov).
  { rewrite En. unfold admitted, cover_allowed. cbn. split_and!; try done; try lia.
    destruct (cover a) as [c|]; [|done]. split; [done|]. unfold allowance. rewrite Z.mul_0_l, Z.div_0_l by done.
    destruct Hca as (_ & _ & _ & ?). lia. }
  fold out in H1', Hf, Hp, Hpm, Hc, Hb', Hcov. rewrite Hb' in *. rewrite En in Hf, Hpm. cbn in Hf, Hpm. rewrite Eb in Hf, Hpm.
  unfold cover_allowed in Hc. rewrite Hcov, En, <- Hp in Hc. cbn [agreed_cover] in Hc.
  unfold intersect in *. cbn [max_frames max_payload_bytes] in *.
  split; [done|]. split; [lia|]. split; [lia|]. destruct (cover a) as [c|]; [by destruct Hc|done].
Qed.

(** ** Witnesses *)

Module Witnesses.
Import Toy EnvelopePolicy.Witnesses.

Definition key : bytes := zreplicate 32 5.
Definition peer : SecureTcpSender Z * SecureTcpReceiver :=
  tcp_session (mkTxStream [] []) (mkRxStream [] []) key key 3.
Definition start : ReceiveCipher * option PhantomOneDecoder := (ReceiveCipher_new key, None).

Lemma start_linked : linked peer.1 None start.
Proof.
  exact (proj2 (open_session_linked RawFrames 0 (mkTxStream [] []) (mkRxStream [] []) key key 3 peer.1 peer.2
    I eq_refl eq_refl eq_refl)).
Qed.

Definition unwrapped (res : result (NegotiatedTcp Z (SecureTcpSender Z) SecureTcpReceiver)) :=
  match res with
  | Ok n => n
  | _ => mkNegotiatedTcp peer.1 peer.2 (from_validated_config 0 0 low_config) (decoder_new 0) 0 0
           FrameBudget_default FrameBudget_default FrameUsage_default FrameUsage_default
           (mkCoverScheduler None 0 None None 0 0 false) None 0
  end.

(** A payload, one that does not fit the agreed limit, cover traffic that is too
    early, granted, and another payload. *)
Definition opened : NegotiatedTcp Z (SecureTcpSender Z) SecureTcpReceiver := Eval vm_compute in
  unwrapped (negotiated peer.1 peer.2 7 1 settled (cover alice)).
Definition calls : list SendOp :=
  [OpSend (zreplicate 400 9) 1000; OpSend (zreplicate 3000 1) 2000; OpCover 3000 false false false;
   OpCover 200000000 false false false; OpSend [4; 5; 6] 200000001].
Definition sent_wire : bytes := Eval vm_compute in tx (s_stream (session_tx (run send_op calls opened).2)).
Definition reads : list ReadEvent := zreplicate (zlen sent_wire) (Deliver 1000).
Definition listening : NegotiatedTcp Z (SecureTcpSender Z) SecureTcpReceiver := Eval vm_compute in
  unwrapped (negotiated peer.1 (mkSecureTcpReceiver (mkRxStream sent_wire reads) start.1 None start.2 TcpFrameReader_default)
    7 2 (mirror settled) (cover bob)).

Lemma negotiated_session_delivers_witness :
  wire_frames calls (run send_op calls opened).1 = [Some (zreplicate 400 9); None; Some [4; 5; 6]] /\
  (negotiated_recv_calls 2 listening).1 = [Ok (zreplicate 400 9); Ok [4; 5; 6]].
Proof.
  split; [vm_compute; reflexivity|].
  refine (proj2 (proj2 (proj2 (proj2 (negotiated_session_delivers alice bob settled 7 1 2 start peer.1 peer.1 peer.2
    calls opened listening reads 2 alice_wf bob_wf _ _ start_linked _ _ _ _ _ _ _)))) _ _ _ _);
    [vm_compute; reflexivity|by_compute|reflexivity|reflexivity|by_compute|by_compute|apply Forall_replicate; by_compute
    |vm_compute; reflexivity|vm_compute; reflexivity|vm_compute; reflexivity|by_compute|vm_compute; reflexivity].
Defined.

(** A replayed frame and a foreign one are refused. *)
Definition envelopes : list bytes := Eval vm_compute in
  match encode Data (zreplicate 400 9) 900 (from_validated_config 7 0 medium_config) with
  | (Ok e, _) => [e; e; [1; 2; 3]]
  | _ => []
  end.

Lemma negotiated_receiver_bounded_witness :
  map is_ok (run accept_envelope envelopes opened).1 = [true; false; false] /\
  payload_total (oks (run accept_envelope envelopes opened).1) <= 9000.
Proof.
  split; [vm_compute; reflexivity|].
  refine (proj1 (proj2 (proj2 (negotiated_receiver_bounded alice bob settled 7 1 peer.1 peer.2 opened envelopes
    alice_wf bob_wf _ _ _ _))));
    [vm_compute; reflexivity|by_compute|vm_compute; reflexivity|by_compute].
Defined.
End Witnesses.
