(* ===== verification/PolicyExchange.v ===== *)
(** The agreement on an envelope policy inside an encrypted TCP session
    (shph-transport/src/envelope_policy.rs [establish], [establish_with_cover],
    [establish_with_offer]): both peers send an offer, settle on a policy and
    confirm it, before any payload is exchanged. *)
From S2P Require Import Net.
From S2P Require Import Prelude Error Text Primitives Replay SessionCrypto PhantomOne TcpTransport.
From S2P Require Import TcpIo Dialogue Cover EnvelopePolicy FrameLink NegotiatedTcp.

(** [phantom_one_generation_from_transcript]: the first eight bytes are a
    [str] only when the ninth does not continue a character. *)
Definition str_prefix (n : Z) (s : bytes) : option bytes :=
  if (n <=? zlen s) && negb (match zdrop n s with b :: _ => utf8_cont b | [] => false end)
  then Some (ztake n s) else None.

Definition phantom_one_generation_from_transcript (transcript_hash_hex : string) : result Z :=
  let? prefix := ok_or (str_prefix 8 (str_bytes transcript_hash_hex))
                   (Protocol "transcript hash is too short for Phantom One") in
  ok_or (from_str_radix u32_max prefix) (Protocol "transcript hash is not valid hexadecimal").

(** ** The messages *)

Section Exchange.
Context `{AeadOps, HashOps}.

(** The connection of a session and its two ciphers. *)
Abbreviation Channel := (Conn * (SendCipher * ReceiveCipher))%type.

Definition channel_encrypt (msg : bytes) : IO Channel bytes := on_snd (fun '(tx, rx) =>
  let '(res, tx) := encrypt msg tx in (res, (tx, rx))).
Definition channel_decrypt (encrypted : bytes) : IO Channel bytes := on_snd (fun '(tx, rx) =>
  let '(res, rx) := decrypt encrypted rx in (res, (tx, rx))).

(** The local functions [send] and [recv] of [establish_with_offer]. *)
Definition policy_send (msg : bytes) : IO Channel unit :=
  let* encrypted := channel_encrypt msg in
  let* _ok := on_fst (io_write (be_bytes 4 (cast 32 (zlen encrypted)))) in
  on_fst (io_write encrypted).

Definition policy_recv : IO Channel bytes :=
  let* length := on_fst (io_read (read_exact 4)) in
  let length := be_val length in
  if negb (in_range 28 MAX_EXCHANGE_BYTES length) then io_ret (Err (protocol "oversized policy exchange"))
  else
    let* encrypted := on_fst (io_read (read_exact length)) in
    channel_decrypt encrypted.

(** Its last part: both sides prove that they settled on the same policy. *)
Definition policy_confirm (agreement : NegotiatedPolicy) (ack : bytes) : IO Channel NegotiatedPolicy :=
  let* _ok := policy_send ack in
  let* answer := policy_recv in
  if bytes_eqb answer ack then io_ret (Ok agreement)
  else io_ret (Err (protocol "policy acknowledgement mismatch")).

Definition policy_exchange (offer : EnvelopeOffer) : IO Channel NegotiatedPolicy :=
  let* _ok := policy_send (encode_offer offer) in
  let* received := policy_recv in
  let* peer := io_ret (decode_offer received) in
  let* agreement := io_ret (negotiate offer peer) in
  let* ack := io_ret (acknowledgement offer peer) in
  policy_confirm agreement ack.
End Exchange.

(** ** Establishing *)

Inductive SecureSessionInner (R : Type) :=
  | InnerTcp (s : SecureTcpSender R) (r : SecureTcpReceiver)
  | InnerOther. (* QUIC, the offline mesh, the data mule *)
Arguments InnerTcp {R} s r.
Arguments InnerOther {R}.

Record SecureSession (R : Type) := mkSecureSession { inner : SecureSessionInner R; session_transcript : string }.
Arguments mkSecureSession {R} inner session_transcript.
Arguments inner {R} _.
Arguments session_transcript {R} _.

(** Reading and restoring the socket's timeouts. *)
Record SocketOptions := mkSocketOptions { get_timeouts : result unit; set_timeouts : result unit }.

(** The halves of a session once the policy holds: the padding and the Phantom
    One layers of the session itself are taken away. *)
Definition bare_halves {R} (c : Conn) (sc : SendCipher) (rc : ReceiveCipher) (s : SecureTcpSender R) (r : SecureTcpReceiver)
  : SecureTcpSender R * SecureTcpReceiver :=
  (mkSecureTcpSender (c_tx c) sc None None (s_padding_buffer s) None (os_rng s),
   mkSecureTcpReceiver (c_rx c) rc None None (r_frame_reader r)).

Definition MAX_NEGOTIATION_NANOS : Z := 60 * 1000000000.

Section Establish.
Context {R : Type} `{RngOps R, AeadOps, HashOps}.

Abbreviation Established := (NegotiatedTcp R (SecureTcpSender R) SecureTcpReceiver).

(** [None]: still blocked in a read when the schedule ends.  [seeded] is the
    encoder's generator. *)
Definition establish_with_offer (session : SecureSession R) (transcript : string) (offer : EnvelopeOffer)
    (timeout : Z) (socket : SocketOptions) (seeded : R) : option (result Established) :=
  if (timeout =? 0) || (MAX_NEGOTIATION_NANOS <? timeout) then Some (Err (protocol "policy timeout must be 1ns..60s"))
  else
    let checked :=
      let? authenticated_binding := parse_binding (session_transcript session) in
      if negb (bytes_eqb (binding offer) authenticated_binding)
      then Err (protocol "policy offer is not bound to this authenticated session")
      else
        let? claimed := parse_binding transcript in
        if negb (bytes_eqb (binding offer) claimed)
        then Err (protocol "policy offer is not bound to this authenticated session")
        else
          match inner session with
          | InnerOther => Err (protocol "TCP policy exchange requires TCP")
          | InnerTcp s r => let? _ok := get_timeouts socket in Ok (s, r)
          end in
    match checked with
    | Err e => Some (Err e)
    | Panic => Some Panic
    | Ok (s, r) =>
        match policy_exchange offer (mkConn (r_stream r) (s_stream s), (s_cipher s, r_cipher r)) with
        | (None, _) => None
        | (Some res, (c, (sc, rc))) =>
            Some (let? agreement := res in
                  let? _ok := set_timeouts socket in
                  let '(s, r) := bare_halves c sc rc s r in
                  let? generation := phantom_one_generation_from_transcript (session_transcript session) in
                  negotiated s r generation seeded agreement (cover offer))
        end
    end.

Definition establish_with_cover (session : SecureSession R) (transcript : string) (config : PhantomOneConfig)
    (frame_limit timeout : Z) (cover_policy : option CoverPolicy) (socket : SocketOptions) (seeded : R)
    : option (result Established) :=
  match (let? offer := EnvelopeOffer_new transcript config (Z.min frame_limit MAX_TCP_PAYLOAD_BYTES) in
         with_cover cover_policy offer) with
  | Ok offer => establish_with_offer session transcript offer timeout socket seeded
  | Err e => Some (Err e)
  | Panic => Some Panic
  end.

Definition establish (session : SecureSession R) (transcript : string) (config : PhantomOneConfig)
    (frame_limit timeout : Z) (socket : SocketOptions) (seeded : R) : option (result Established) :=
  establish_with_cover session transcript config frame_limit timeout None socket seeded.
End Establish.

(** ** Lemmas: one message *)

(** The sender can still encrypt two messages. *)
Definition fresh_cipher (sc : SendCipher) : Prop := sc_nonce sc + 2 <= AEAD_NONCE_LIMIT.

Section Messages.
Context `{AeadOps, !AeadLaws}.

Lemma encrypt_message sc rc p :
  ciphers_linked sc rc -> sc_nonce sc < AEAD_NONCE_LIMIT -> bytes_ok p -> zlen p <= MAX_EXCHANGE_BYTES - 28 ->
  exists enc sc' rc', encrypt p sc = (Ok enc, sc') /\ decrypt enc rc = (Ok p, rc') /\
    ciphers_linked sc' rc' /\ zlen enc = 28 + zlen p /\ sc_nonce sc' = sc_nonce sc + 1.
Proof.
  intros Hl Hn Hb Hp. unfold MAX_EXCHANGE_BYTES in Hp.
  destruct (encrypt_ok p sc (proj1 Hl) Hn ltac:(lia)) as (ct & Hct & E).
  destruct (encrypt_linked sc rc p Hl Hb) as [[e Ee]|(enc & sc' & rc' & Ee & Hd & Hl' & _)];
    [unfold MAX_TCP_PAYLOAD_BYTES, MAX_FRAME_BYTES, SHROUD_AEAD_OVERHEAD; lia|congruence|].
  rewrite E in Ee. injection Ee as <- <-. eexists _, _, rc'. split; [exact E|]. split; [done|]. split; [done|].
  pose proof (aead_seal_len _ _ _ _ Hct). unfold AEAD_TAG_BYTES in *. rewrite zlen_app, zlen_nonce12. split; [lia|done].
Qed.

(** Decryption by an in-order receiver never panics, and returns bytes. *)
Lemma decrypt_strict frame key last :
  zlen key = 32 -> bytes_ok frame ->
  let '(res, rc) := decrypt frame (mkReceiveCipher key (Strict last)) in
  no_panic res /\ forall p, res = Ok p -> bytes_ok p /\ exists n, rc = mkReceiveCipher key (Strict n).
Proof.
  intros Hk Hb. destruct (decrypt_strict_cases key last frame Hk Hb) as [(e & ->)|(n & p & _ & [_ Ho] & ->)]; [done|].
  split; [done|]. intros ? [= <-]. split; [|by eexists]. eapply aead_open_bytes; [|exact Ho]. by apply bytes_ok_zdrop.
Qed.

Lemma steps_policy_send msg sc sc' rc enc : encrypt msg sc = (Ok enc, sc') -> 0 < zlen enc <= u32_max ->
  steps (policy_send msg) (beside (sc, rc)) (beside (sc', rc)) [] (wire_frame enc) ().
Proof.
  intros E Hl. unfold policy_send, u32_max in *. eapply steps_then.
  { apply (steps_snd _ (sc, rc) (sc', rc) enc). cbv beta iota. by rewrite E. }
  unfold wire_frame, cast. rewrite Z.mod_small by lia.
  apply (steps_bind _ _ _ (beside (sc', rc)) _ [] [] _ _ ()); apply steps_fst, steps_write.
  - by intros ?%(f_equal zlen).
  - intros ->. unfold zlen in Hl. cbn in Hl. lia.
Qed.

Lemma steps_policy_recv msg sc rc rc' enc : decrypt enc rc = (Ok msg, rc') -> 28 <= zlen enc <= MAX_EXCHANGE_BYTES ->
  steps policy_recv (beside (sc, rc)) (beside (sc, rc')) (wire_frame enc) [] msg.
Proof.
  intros E Hl. unfold policy_recv, wire_frame, MAX_EXCHANGE_BYTES in *.
  apply (steps_bind _ _ _ (beside (sc, rc)) _ _ _ [] [] (be_bytes 4 (zlen enc))); [apply steps_fst, (steps_exact (be_bytes 4 _))|].
  rewrite be_val_be_bytes by (change (256 ^ Z.of_nat 4) with 4294967296; lia).
  unfold in_range. rewrite (proj2 (Z.leb_le 28 _)), (proj2 (Z.leb_le _ 512)) by lia. cbn [andb negb]; cbv iota.
  rewrite <- (app_nil_r enc) at 2.
  apply (steps_bind _ _ _ (beside (sc, rc)) _ _ _ [] [] enc); [apply steps_fst, steps_exact|].
  apply (steps_snd _ (sc, rc) (sc, rc')). cbv beta iota. by rewrite E.
Qed.

Lemma waits_policy_recv t : waits policy_recv (beside t) [] [].
Proof. apply waits_here, waits_fst, waits_exact. done. Qed.
End Messages.

(** ** Lemmas: any peer *)

(** An in-order receiver under [key]. *)
Definition strict_with (key : bytes) (rc : ReceiveCipher) : Prop := zlen key = 32 /\ exists last, rc = mkReceiveCipher key (Strict last).

Section Adversary.
Context `{AeadOps, HashOps, !AeadLaws, !HashLaws}.

Abbreviation channel := (Conn * (SendCipher * ReceiveCipher))%type.

Lemma keeps_policy_send msg (s : channel) : zlen (sc_key s.2.1) = 32 ->
  keeps (policy_send msg) s (32 + zlen msg) (fun _ s' =>
    received_by s' = received_by s /\ s'.2.2 = s.2.2 /\ zlen (sc_key s'.2.1) = 32).
Proof.
  destruct s as [c [sc rc]]. cbn [fst snd]. intros Hk. unfold policy_send, channel_encrypt.
  apply (keeps_then _ _ _ _ (fun e s' => s'.1 = c /\ zlen e = 28 + zlen msg /\ s'.2.2 = rc /\ zlen (sc_key s'.2.1) = 32)); [zl| |].
  { apply (keeps_snd _ c (sc, rc) (fun e t => zlen e = 28 + zlen msg /\ t.2 = rc /\ zlen (sc_key t.1) = 32));
      destruct (encrypt_cases msg sc Hk) as [(e & ->)|(ct & _ & Hct & ->)]; try done.
    intros e t [= <- <-]. pose proof (aead_seal_len _ _ _ _ Hct). unfold AEAD_TAG_BYTES in *.
    split; [rewrite zlen_app, zlen_nonce12; lia|done]. }
  intros e [c1 [sc1 rc1]] (Ec & He & Er & Hk1). cbn [fst snd] in *. subst c1 rc1. replace (32 + zlen msg) with (4 + zlen e) by lia.
  eapply (keeps_bind (on_fst (io_write _)) _ _ 4); [zl|eapply keeps_weaken; [apply keeps_fst, keeps_write|by rewrite zlen_be_bytes|intros v s h; exact h]|].
  intros [] [c2 t2] [Hr2 E2]. cbn [fst snd] in Hr2, E2. subst t2. eapply keeps_weaken; [apply keeps_fst, keeps_write|done|].
  intros [] [c3 t3] [Hr3 E3]. cbn [fst snd] in *. subst t3. unfold received_by, conn_of, conn_itself, conn_beside in *. cbn [fst snd] in *.
  split; [congruence|done].
Qed.

Lemma keeps_policy_recv key (s : channel) : strict_with key s.2.2 -> bytes_ok (received_by s) ->
  keeps policy_recv s 0 (fun m s' => exists e,
    received_by s = wire_frame e ++ received_by s' /\ decrypt e s.2.2 = (Ok m, s'.2.2) /\ bytes_ok m /\
    s'.2.1 = s.2.1 /\ strict_with key s'.2.2).
Proof.
  destruct s as [c [sc rc]]. cbn [fst snd]. intros [Hk [last ->]] Hb. unfold policy_recv.
  eapply keeps_then; [done|by apply keeps_fst, keeps_exact|]. intros len [c1 t1] [(Hl1 & Hr1 & _) E1]. cbn [fst snd] in *. subst t1.
  unfold received_by, conn_of, conn_itself, conn_beside in Hb, Hr1 |- *. cbn [fst snd] in *. rewrite Hr1 in Hb. apply bytes_ok_app in Hb as [Hb1 Hb].
  pose proof (be_val_bound len Hb1) as Hv. destruct (in_range 28 MAX_EXCHANGE_BYTES (be_val len)) eqn:Hin; [cbn [negb]; cbv iota|by apply keeps_ret].
  eapply keeps_then; [done|apply keeps_fst, keeps_exact; lia|]. intros e [c2 t2] [(Hl2 & Hr2 & _) E2]. cbn [fst snd] in *. subst t2.
  unfold received_by, conn_of, conn_itself, conn_beside in Hr2. cbn [fst snd] in Hr2. rewrite Hr2 in Hb. apply bytes_ok_app in Hb as [Hb2 _].
  pose proof (decrypt_strict e key last Hk Hb2) as Hd. unfold channel_decrypt.
  eapply keeps_weaken; [apply (keeps_snd _ c2 _ (fun m t => t.1 = sc /\ decrypt e (mkReceiveCipher key (Strict last)) = (Ok m, t.2) /\
    bytes_ok m /\ strict_with key t.2))|done|].
  - destruct (decrypt _ _) as [res rc']. apply Hd.
  - intros m t. destruct (decrypt _ _) as [res rc']. intros [= -> <-]. destruct Hd as [_ Hd]. destruct (Hd m eq_refl) as [? ?]. done.
  - intros m [c3 t3] (E3 & Et & Ed & Hm & Hst). cbn [fst snd] in *. subst c3. exists e. split; [|done].
    rewrite Hr1, Hr2, app_assoc. f_equal. unfold wire_frame. f_equal.
    assert (length len = 4%nat) as El by (unfold zlen in Hl1; lia). rewrite <- El, Hl2. by rewrite be_bytes_be_val.
Qed.
End Adversary.

(** ** Lemmas: the exchange *)

Section Runs.
Context `{AeadOps, HashOps, !AeadLaws, !HashLaws}.

(** The two messages of a side: what it encrypts, and what its peer makes of
    them. *)
Record messages (sc sc' : SendCipher) (rc rc' : ReceiveCipher) (m1 m2 e1 e2 : bytes) : Prop := {
  first_sent : exists sc1, encrypt m1 sc = (Ok e1, sc1) /\ encrypt m2 sc1 = (Ok e2, sc');
  first_read : exists rc1, decrypt e1 rc = (Ok m1, rc1) /\ decrypt e2 rc1 = (Ok m2, rc');
  message_sizes : zlen e1 = 28 + zlen m1 /\ zlen e2 = 28 + zlen m2;
  still_linked : ciphers_linked sc' rc'
}.

Lemma messages_exist sc rc m1 m2 : ciphers_linked sc rc -> fresh_cipher sc ->
  bytes_ok m1 -> bytes_ok m2 -> zlen m1 <= MAX_EXCHANGE_BYTES - 28 -> zlen m2 <= MAX_EXCHANGE_BYTES - 28 ->
  exists sc' rc' e1 e2, messages sc sc' rc rc' m1 m2 e1 e2.
Proof.
  intros Hl Hf Hb1 Hb2 Hz1 Hz2. unfold fresh_cipher in Hf.
  destruct (encrypt_message sc rc m1 Hl ltac:(lia) Hb1 Hz1) as (e1 & sc1 & rc1 & E1 & D1 & L1 & Z1 & N1).
  destruct (encrypt_message sc1 rc1 m2 L1 ltac:(lia) Hb2 Hz2) as (e2 & sc2 & rc2 & E2 & D2 & L2 & Z2 & _).
  exists sc2, rc2, e1, e2. split; [by exists sc1|by exists rc1|done|done].
Qed.

Lemma message_frame (e msg : bytes) : zlen e = 28 + zlen msg -> zlen msg <= MAX_EXCHANGE_BYTES - 28 ->
  0 < zlen e <= u32_max /\ 28 <= zlen e <= MAX_EXCHANGE_BYTES.
Proof. unfold MAX_EXCHANGE_BYTES, u32_max. zl. Qed.

(** A side that sends [e1] and [e2] and hears [f1] and [f2]. *)
Lemma exchange_runs o peer p ack sc sc' rc rc' sc2 sc2' rc2 rc2' e1 e2 f1 f2 :
  offer_wf o -> offer_wf peer -> negotiate o peer = Ok p -> acknowledgement o peer = Ok ack -> zlen ack = 32 ->
  messages sc sc' rc2 rc2' (encode_offer o) ack e1 e2 -> messages sc2 sc2' rc rc' (encode_offer peer) ack f1 f2 ->
  steps (policy_exchange o) (beside (sc, rc)) (beside (sc', rc')) (wire_frame f1 ++ wire_frame f2) (wire_frame e1 ++ wire_frame e2) p /\
  waits (policy_exchange o) (beside (sc, rc)) [] (wire_frame e1) /\
  waits (policy_exchange o) (beside (sc, rc)) (wire_frame f1) (wire_frame e1 ++ wire_frame e2).
Proof.
  intros Ho Hp Hn Hack Hla [(sc1 & E1 & E2) _ [Ze1 Ze2] _] [_ (rc1 & D1 & D2) [Zf1 Zf2] _].
  pose proof (zlen_encode_offer o Ho) as Zo. pose proof (zlen_encode_offer peer Hp) as Zp. unfold OFFER_BYTES in Zo, Zp.
  destruct (message_frame e1 (encode_offer o) Ze1) as [Se1 _]; [by rewrite Zo|].
  destruct (message_frame e2 ack Ze2) as [Se2 _]; [by rewrite Hla|].
  destruct (message_frame f1 (encode_offer peer) Zf1) as [_ Sf1]; [by rewrite Zp|].
  destruct (message_frame f2 ack Zf2) as [_ Sf2]; [by rewrite Hla|].
  pose proof (steps_policy_send _ sc sc1 rc e1 E1 Se1) as S1. pose proof (steps_policy_recv _ sc1 rc rc1 f1 D1 Sf1) as R1.
  pose proof (steps_policy_send _ sc1 sc' rc1 e2 E2 Se2) as S2. pose proof (steps_policy_recv _ sc' rc1 rc' f2 D2 Sf2) as R2.
  assert (steps (policy_confirm p ack) (beside (sc1, rc1)) (beside (sc', rc')) (wire_frame f2) (wire_frame e2) p) as Hc.
  { rewrite <- (app_nil_r (wire_frame e2)). apply (steps_bind _ _ _ _ _ [] (wire_frame f2) _ [] () _ S2).
    rewrite <- (app_nil_r (wire_frame f2)). apply (steps_bind _ _ _ _ _ (wire_frame f2) [] [] [] ack _ R2).
    rewrite bytes_eqb_refl. apply steps_ret. }
  assert (waits (policy_confirm p ack) (beside (sc1, rc1)) [] (wire_frame e2)) as Wc.
  { rewrite <- (app_nil_r (wire_frame e2)). apply (waits_bind _ _ _ _ [] [] _ [] () S2), waits_here, waits_policy_recv. }
  unfold policy_exchange. split; [|split].
  - apply (steps_bind _ _ _ _ _ [] (wire_frame f1 ++ wire_frame f2) _ _ () _ S1),
      (steps_bind _ _ _ _ _ (wire_frame f1) (wire_frame f2) [] _ _ _ R1).
    eapply steps_then; [by apply steps_ok, decode_encode_offer|]. eapply steps_then; [by apply steps_ok|].
    eapply steps_then; [by apply steps_ok|exact Hc].
  - rewrite <- (app_nil_r (wire_frame e1)). apply (waits_bind _ _ _ _ [] [] _ [] () S1), waits_here, waits_policy_recv.
  - apply (waits_bind _ _ _ _ [] (wire_frame f1) _ _ () S1). rewrite <- (app_nil_r (wire_frame f1)).
    apply (waits_bind _ _ _ _ (wire_frame f1) [] [] _ _ R1).
    eapply waits_then; [by apply steps_ok, decode_encode_offer|]. eapply waits_then; [by apply steps_ok|].
    eapply waits_then; [by apply steps_ok|exact Wc].
Qed.
End Runs.

(** ** Lemmas: what the exchange opens *)

Lemma radix_pairs max l rest acc : bytes_ok l -> 0 <= acc -> acc * 256 ^ zlen l + be_val l <= max ->
  radix_digits max (flat_map hex_pair l ++ rest) acc = radix_digits max rest (acc * 256 ^ zlen l + be_val l).
Proof.
  intros Hl. revert acc. induction Hl as [|b l Hb Hl IH]; intros acc Ha Hm; [rewrite be_val_nil, zlen_nil in *; f_equal; lia|].
  rewrite be_val_cons, zlen_cons, Z.pow_add_r in * by zl. change (256 ^ 1) with 256 in *.
  destruct (hex_digits b Hb) as (Hq & Hr & Eb). pose proof (be_val_bound l Hl) as Hv.
  assert (acc * 256 + b <= max) as Hm' by nia.
  cbn [flat_map hex_pair app radix_digits].
  rewrite (proj1 (hex_digit_value _ Hq)). unfold checked_mul, checked_add.
  rewrite (proj2 (Z.leb_le (acc * 16) _)), (proj2 (Z.leb_le (acc * 16 + _) _)) by lia.
  rewrite (proj1 (hex_digit_value _ Hr)).
  rewrite (proj2 (Z.leb_le (_ * 16) _)), (proj2 (Z.leb_le (_ * 16 + _) _)) by lia.
  replace ((acc * 16 + b / 16) * 16 + b mod 16) with (acc * 256 + b) by lia.
  rewrite IH by (try done; lia). f_equal. lia.
Qed.

Lemma from_str_radix_pairs max l : bytes_ok l -> l <> [] -> be_val l <= max ->
  from_str_radix max (flat_map hex_pair l) = Some (be_val l).
Proof.
  intros Hl Hne Hm. pose proof (radix_pairs max l [] 0 Hl ltac:(lia) ltac:(lia)) as E.
  rewrite app_nil_r, Z.mul_0_l, Z.add_0_l in E. cbn [radix_digits] in E. rewrite <- E. destruct Hl as [|b l Hb Hl]; [done|].
  destruct (hex_digits b Hb) as (Hq & _ & _). destruct (hex_digit_value _ Hq) as (V & N & _). apply hex_digit_nonneg in V.
  cbn [flat_map hex_pair app]. set (d := hex_digit (b / 16)) in *. clearbody d.
  unfold from_str_radix. repeat case_match; (congruence || lia).
Qed.

Lemma generation_hex h : 4 <= zlen h -> bytes_ok h ->
  phantom_one_generation_from_transcript (hex_encode h) = Ok (be_val (ztake 4 h)) /\ 0 <= be_val (ztake 4 h) <= u32_max.
Proof.
  intros H4 Hb. assert (bytes_ok (ztake 4 h)) as Hb4 by auto with bytes.
  pose proof (be_val_bound _ Hb4) as Hv. assert (zlen (ztake 4 h) = 4) as Hz by zl. rewrite Hz in Hv. change (256 ^ 4) with (u32_max + 1) in Hv.
  split; [|lia]. unfold phantom_one_generation_from_transcript, str_prefix. rewrite hex_encode_bytes by done.
  rewrite <- (ztake_zdrop 4 h), flat_map_app. rewrite (ztake_zdrop 4 h).
  pose proof (zlen_hex_pairs (ztake 4 h)) as Hp. rewrite Hz in Hp.
  rewrite (zdrop_app 8), (ztake_app 8), zlen_app, Hp by done. rewrite (proj2 (Z.leb_le _ _)) by zl.
  assert (match flat_map hex_pair (zdrop 4 h) with b :: _ => utf8_cont b | [] => false end = false) as ->.
  { pose proof (hex_pairs_ascii (zdrop 4 h) ltac:(auto with bytes)) as Ha. destruct (flat_map hex_pair (zdrop 4 h)) as [|c l]; [done|].
    apply Forall_cons in Ha as [Ha _]. unfold utf8_cont, in_range. by rewrite (proj2 (Z.leb_gt 128 _)) by lia. }
  cbn [andb negb ok_or rbind]. rewrite from_str_radix_pairs; [done|done|by intros E; rewrite E in Hz|lia].
Qed.

(** A receiving half that will read [wire] under a schedule. *)
Definition hears (wire : bytes) (evs : list ReadEvent) (r : SecureTcpReceiver) : SecureTcpReceiver :=
  mkSecureTcpReceiver (mkRxStream wire evs) (r_cipher r) (r_padding_profile r) (r_phantom_one_decoder r) (r_frame_reader r).

Section Peers.
Context {R : Type} `{RngOps R, AeadOps, HashOps, !AeadLaws, !HashLaws}.

Lemma negotiated_total {S T} tx rx g (r : R) a b p : offer_wf a -> offer_wf b -> negotiate a b = Ok p ->
  exists n : NegotiatedTcp R S T, negotiated tx rx g r p (cover a) = Ok n.
Proof.
  intros Ha Hb Hn. destruct (negotiate_cases a b Ha Hb) as [[_ [e E]]|(_ & q & _ & _ & _ & Hv & E)]; [congruence|].
  rewrite E in Hn. injection Hn as <-. unfold negotiated, encoder_with_config, with_config_and_window.
  cbn [n_config agreement]. rewrite Hv. cbn [rbind]. change (negb (in_range 1 _ _)) with false. cbn [rbind].
  unfold CoverScheduler_new. destruct (cover a) as [c|] eqn:Ec; [|by eexists].
  pose proof Ha as (_ & _ & _ & _ & _ & Hc). rewrite Ec in Hc.
  rewrite (proj2 (cover_validate_ok c ltac:(destruct Hc as (_ & _ & _ & ?); lia)) Hc). by eexists.
Qed.

Lemma negotiated_halves {S T} tx rx g (r : R) p c (n : NegotiatedTcp R S T) :
  negotiated tx rx g r p c = Ok n -> session_tx n = tx /\ session_rx n = rx.
Proof.
  unfold negotiated. intros Hn. apply rbind_ok in Hn as (enc & _ & Hn). apply rbind_ok in Hn as (dec & _ & Hn).
  by apply rbind_ok in Hn as (sch & _ & [= <-]).
Qed.

(** Both sides compute the same acknowledgement. *)
Lemma ack_both a b p : offer_wf a -> offer_wf b -> negotiate a b = Ok p ->
  exists ack, acknowledgement a b = Ok ack /\ acknowledgement b a = Ok ack /\ zlen ack = 32 /\ bytes_ok ack.
Proof.
  intros Ha Hb Hn. exists (sha256 (ack_message a b p)). unfold acknowledgement. rewrite Hn, (negotiate_mirror a b p Ha Hb Hn). cbn [rbind].
  rewrite <- ack_message_mirror by done. split_and!; [done|done|apply sha256_len|apply sha256_bytes].
Qed.

(** A side that runs the exchange over a stream that delivers. *)
Lemma establish_runs o h (s : SecureTcpSender R) r evs inp out p sc' rc' timeout socket seeded :
  binding o = h -> zlen h = 32 -> bytes_ok h -> 0 < timeout <= MAX_NEGOTIATION_NANOS ->
  get_timeouts socket = Ok () -> set_timeouts socket = Ok () -> s_stream s = mkTxStream [] [] -> feeds false inp evs ->
  steps (policy_exchange o) (beside (s_cipher s, r_cipher r)) (beside (sc', rc')) inp out p ->
  exists evs', establish_with_offer (mkSecureSession (InnerTcp s (hears inp evs r)) (hex_encode h)) (hex_encode h) o timeout socket seeded
    = Some (negotiated (mkSecureTcpSender (mkTxStream out []) sc' None None (s_padding_buffer s) None (os_rng s))
              (mkSecureTcpReceiver (mkRxStream [] evs') rc' None None (r_frame_reader r))
              (be_val (ztake 4 h)) seeded p (cover o)).
Proof.
  intros Hb Hz Hh Ht Hg Hs Hst Hf Hrun. unfold establish_with_offer. cbn [session_transcript inner].
  rewrite (proj2 (Z.eqb_neq _ _)), (proj2 (Z.ltb_ge _ _)) by lia. cbn [orb]. rewrite parse_binding_hex by done.
  cbn [rbind]. rewrite Hb, bytes_eqb_refl. cbn [negb]. rewrite Hg. cbn [rbind].
  rewrite <- (app_nil_r inp) in Hf |- *. destruct (Hrun false [] evs [] Hf) as (evs' & E & _). exists evs'.
  unfold hears at 1 2. cbn [r_stream r_cipher]. rewrite Hst. unfold beside, conn_at in E. rewrite E. cbn [rbind]. rewrite Hs. cbn [rbind].
  by rewrite (proj1 (generation_hex h ltac:(lia) Hh)).
Qed.

(** C33: two peers that can agree do agree, over TCP.  For offers of one session
    that negotiate, linked ciphers with two messages left, and sockets that take
    their timeouts: there are two byte strings such that each side, reading the
    other's in any segmentation, writes exactly its own and opens a negotiated
    session; the two sessions hold the same policy with mirrored directions and
    the same generation, and their channels are linked in both directions and
    empty, as the delivery of payloads requires.  The exchange cannot deadlock:
    one round of answering what has arrived produces all of it. *)
Theorem policy_exchange_completes a b p h (sa sb : SecureTcpSender R) ra rb ta tb socka sockb seeda seedb :
  offer_wf a -> offer_wf b -> negotiate a b = Ok p -> binding a = h ->
  0 < ta <= MAX_NEGOTIATION_NANOS -> 0 < tb <= MAX_NEGOTIATION_NANOS ->
  get_timeouts socka = Ok () -> set_timeouts socka = Ok () -> get_timeouts sockb = Ok () -> set_timeouts sockb = Ok () ->
  s_stream sa = mkTxStream [] [] -> s_stream sb = mkTxStream [] [] ->
  ciphers_linked (s_cipher sa) (r_cipher rb) -> ciphers_linked (s_cipher sb) (r_cipher ra) ->
  fresh_cipher (s_cipher sa) -> fresh_cipher (s_cipher sb) ->
  exists wa wb,
    dialogue_round (policy_exchange a) (s_cipher sa, r_cipher ra) (policy_exchange b) (s_cipher sb, r_cipher rb) [] = wb /\
    outcome_on (policy_exchange a) (s_cipher sa, r_cipher ra) wb = (Some (Ok p), wa) /\
    forall evs_a evs_b, feeds false wb evs_a -> feeds false wa evs_b -> exists na nb,
      establish_with_offer (mkSecureSession (InnerTcp sa (hears wb evs_a ra)) (hex_encode h)) (hex_encode h) a ta socka seeda = Some (Ok na) /\
      establish_with_offer (mkSecureSession (InnerTcp sb (hears wa evs_b rb)) (hex_encode h)) (hex_encode h) b tb sockb seedb = Some (Ok nb) /\
      (let g := be_val (ztake 4 h) in
       negotiated (session_tx na) (session_rx na) g seeda p (cover a) = Ok na /\
       negotiated (session_tx nb) (session_rx nb) g seedb (mirror p) (cover b) = Ok nb) /\
      tx (s_stream (session_tx na)) = wa /\ tx (s_stream (session_tx nb)) = wb /\
      rx (r_stream (session_rx na)) = [] /\ rx (r_stream (session_rx nb)) = [] /\
      linked (session_tx na) None (r_cipher (session_rx nb), None) /\ linked (session_tx nb) None (r_cipher (session_rx na), None).
Proof.
  intros Ha Hb Hn Hh Hta Htb Ga Sa Gb Sb Ta Tb Lab Lba Fa Fb.
  pose proof (negotiate_mirror a b p Ha Hb Hn) as Hm.
  destruct (ack_both a b p Ha Hb Hn) as (ack & Ka & Kb & Zk & Bk).
  assert (binding b = h /\ zlen h = 32 /\ bytes_ok h) as (Hhb & Zh & Bh).
  { destruct (negotiate_cases a b Ha Hb) as [[_ [e E]]|((Eb & _) & _)]; [congruence|]. destruct Ha as ([? ?] & _). subst h. by rewrite <- Eb. }
  assert (zlen (encode_offer a) <= MAX_EXCHANGE_BYTES - 28 /\ zlen (encode_offer b) <= MAX_EXCHANGE_BYTES - 28) as [Za Zb]
    by (rewrite !zlen_encode_offer by done; done).
  destruct (messages_exist _ _ (encode_offer a) ack Lab Fa) as (sa' & rb' & e1 & e2 & Ma);
    [by apply encode_offer_bytes|done|done|rewrite Zk; done|].
  destruct (messages_exist _ _ (encode_offer b) ack Lba Fb) as (sb' & ra' & f1 & f2 & Mb);
    [by apply encode_offer_bytes|done|done|rewrite Zk; done|].
  destruct (exchange_runs a b p ack _ _ _ _ _ _ _ _ _ _ _ _ Ha Hb Hn Ka Zk Ma Mb) as (RA & WA & _).
  destruct (exchange_runs b a (mirror p) ack _ _ _ _ _ _ _ _ _ _ _ _ Hb Ha Hm Kb Zk Mb Ma) as (RB & _ & WB).
  set (wa := wire_frame e1 ++ wire_frame e2) in *. set (wb := wire_frame f1 ++ wire_frame f2) in *.
  exists wa, wb. split; [|split; [by eapply outcome_steps|]].
  { unfold dialogue_round. rewrite (outcome_waits _ _ _ _ WA). cbn [snd]. by rewrite (outcome_waits _ _ _ _ WB). }
  intros evs_a evs_b Hfa Hfb.
  destruct (establish_runs a h sa ra evs_a _ _ _ _ _ ta socka seeda Hh Zh Bh Hta Ga Sa Ta Hfa RA) as (evs_a' & EA).
  destruct (establish_runs b h sb rb evs_b _ _ _ _ _ tb sockb seedb Hhb Zh Bh Htb Gb Sb Tb Hfb RB) as (evs_b' & EB).
  destruct (negotiated_total (mkSecureTcpSender (mkTxStream wa []) sa' None None (s_padding_buffer sa) None (os_rng sa))
    (mkSecureTcpReceiver (mkRxStream [] evs_a') ra' None None (r_frame_reader ra)) (be_val (ztake 4 h)) seeda a b p Ha Hb Hn) as [na Na].
  destruct (negotiated_total (mkSecureTcpSender (mkTxStream wb []) sb' None None (s_padding_buffer sb) None (os_rng sb))
    (mkSecureTcpReceiver (mkRxStream [] evs_b') rb' None None (r_frame_reader rb)) (be_val (ztake 4 h)) seedb b a (mirror p) Hb Ha Hm) as [nb Nb].
  rewrite Na in EA. rewrite Nb in EB. exists na, nb. split; [done|]. split; [done|].
  destruct (negotiated_halves _ _ _ _ _ _ _ Na) as [-> ->], (negotiated_halves _ _ _ _ _ _ _ Nb) as [-> ->].
  split; [done|]. cbn. split_and!; try done; unfold linked, layers_linked; cbn; split_and!; try done.
  - apply Ma.
  - apply Mb.
Qed.

(** What a completed exchange proves about the other side. *)
Definition exchanged (o : EnvelopeOffer) (received unread : bytes) (rc rc' : ReceiveCipher) (p : NegotiatedPolicy) : Prop :=
  exists peer ack e1 e2 rc1,
    received = wire_frame e1 ++ wire_frame e2 ++ unread /\
    decrypt e1 rc = (Ok (encode_offer peer), rc1) /\ decrypt e2 rc1 = (Ok ack, rc') /\
    offer_wf peer /\ negotiate o peer = Ok p /\ negotiate peer o = Ok (mirror p) /\
    acknowledgement o peer = Ok ack /\ acknowledgement peer o = Ok ack.

Lemma keeps_exchange o key (s : Conn * (SendCipher * ReceiveCipher)) :
  offer_wf o -> zlen (sc_key s.2.1) = 32 -> strict_with key s.2.2 -> bytes_ok (received_by s) ->
  keeps (policy_exchange o) s 223 (fun p s' => exchanged o (received_by s) (received_by s') s.2.2 s'.2.2 p).
Proof.
  intros Ho Hk Hs Hb. unfold policy_exchange. change 223 with (159 + 64).
  eapply keeps_bind; [done|eapply keeps_weaken; [by apply keeps_policy_send|rewrite zlen_encode_offer; done|intros v s' h; exact h]|].
  intros [] s1 (R1 & C1 & K1). rewrite <- R1 in *. rewrite <- C1 in *.
  eapply keeps_then; [done|by eapply keeps_policy_recv|]. intros m s2 (e1 & R2 & D1 & Bm & K2 & S2). rewrite <- K2 in K1.
  rewrite R2 in Hb. apply bytes_ok_app in Hb as [_ Hb].
  assert (no_panic (decode_offer m)) as Hdp.
  { destruct (decide (zlen m = OFFER_BYTES)) as [Hz|Hz].
    - destruct (fields_of m Hz Bm) as (f & Hf & ->). by apply decode_offer_no_panic.
    - unfold decode_offer. by rewrite (proj2 (Z.eqb_neq _ _)). }
  eapply (keeps_then _ _ _ _ (fun peer s' => s' = s2 /\ offer_wf peer /\ m = encode_offer peer)); [done| |].
  { apply keeps_ret; [done|done|]. intros v [Hv ->]%decode_offer_exact; done. }
  intros peer s' (-> & Hp & ->).
  eapply (keeps_then _ _ _ _ (fun p s' => s' = s2 /\ negotiate o peer = Ok p)); [done| |].
  { apply keeps_ret; [done| |done]. by destruct (negotiate_cases o peer Ho Hp) as [[_ [e ->]]|(_ & q & _ & _ & _ & _ & ->)]. }
  intros p s' [-> Hn]. destruct (ack_both o peer p Ho Hp Hn) as (ack & Ka & Kb & Zk & _). rewrite Ka.
  eapply (keeps_then _ _ _ _ (fun v s' => s' = s2 /\ v = ack)); [done|apply keeps_ret; [done|done|by intros v [= <-]]|]. intros v s' [-> ->].
  unfold policy_confirm. change 64 with (64 + 0).
  eapply keeps_bind; [done|eapply keeps_weaken; [by apply keeps_policy_send|by rewrite Zk|intros v s' h; exact h]|].
  intros [] s3 (R3 & C3 & K3). rewrite <- R3 in Hb. rewrite <- C3 in S2.
  eapply keeps_then; [done|by eapply keeps_policy_recv|]. intros m2 s4 (e2 & R4 & D2 & _ & _ & _).
  destruct (bytes_eqb m2 ack) eqn:Em; [|by apply keeps_ret]. apply bytes_eqb_eq in Em as ->.
  apply keeps_ret; [done|done|]. intros ? [= <-]. exists peer, ack, e1, e2, s2.2.2.
  rewrite R2, <- R3, R4. rewrite C3 in D2. split_and!; try done. by apply negotiate_mirror.
Qed.

(** C34: an established policy was agreed by the holder of the keys.  Against
    any peer, network, schedule and socket, establishing never panics.  When it
    opens a session, the transcripts given and authenticated are the offer's
    binding; the bytes read are exactly two frames, which decrypt in order under
    the session's key to the encoding of a well-formed offer and to the
    acknowledgement; that offer and ours negotiate to mirrored policies and the
    same acknowledgement; and the session opened is the one for the policy, after
    at most 223 bytes written. *)
Theorem policy_exchange_sound o (s : SecureTcpSender R) r authenticated transcript timeout socket seeded key :
  offer_wf o -> zlen (sc_key (s_cipher s)) = 32 -> strict_with key (r_cipher r) -> bytes_ok (rx (r_stream r)) ->
  no_panic (get_timeouts socket) -> no_panic (set_timeouts socket) ->
  let out := establish_with_offer (mkSecureSession (InnerTcp s r) authenticated) transcript o timeout socket seeded in
  out <> Some Panic /\
  forall n, out = Some (Ok n) ->
    parse_binding authenticated = Ok (binding o) /\ parse_binding transcript = Ok (binding o) /\
    (exists w, tx (s_stream (session_tx n)) = tx (s_stream s) ++ w /\ zlen w <= 223) /\
    exists p g, exchanged o (rx (r_stream r)) (rx (r_stream (session_rx n))) (r_cipher r) (r_cipher (session_rx n)) p /\
      phantom_one_generation_from_transcript authenticated = Ok g /\
      negotiated (session_tx n) (session_rx n) g seeded p (cover o) = Ok n.
Proof.
  intros Ho Hk Hs Hb Hg Hst out. unfold out, establish_with_offer. cbn [session_transcript inner].
  destruct (_ || _); [done|]. pose proof (parse_binding_no_panic authenticated) as P1. pose proof (parse_binding_no_panic transcript) as P2.
  destruct (parse_binding authenticated) as [b1|e|]; cbn [rbind]; [|done|done].
  destruct (bytes_eqb (binding o) b1) eqn:E1; [cbn [negb]|done]. apply bytes_eqb_eq in E1 as <-.
  destruct (parse_binding transcript) as [b2|e|]; cbn [rbind]; [|done|done].
  destruct (bytes_eqb (binding o) b2) eqn:E2; [cbn [negb]|done]. apply bytes_eqb_eq in E2 as <-.
  destruct (get_timeouts socket) as [[]|e|]; cbn [rbind]; [|done|done].
  pose proof (keeps_exchange o key (mkConn (r_stream r) (s_stream s), (s_cipher s, r_cipher r)) Ho Hk Hs Hb) as (Hp & Hw & HP).
  destruct (policy_exchange o _) as [[[p|e|]|] [c [sc rc]]]; cbn [fst snd] in *; try done.
  specialize (HP p eq_refl). cbn [rbind]. destruct (set_timeouts socket) as [[]|e|]; cbn [rbind]; [|done|done].
  destruct HP as (peer & HP). destruct (phantom_one_generation_from_transcript authenticated) as [g|e|] eqn:Eg; cbn [rbind bare_halves]; [|done|].
  2: { unfold phantom_one_generation_from_transcript in Eg. destruct (str_prefix _ _); cbn in Eg; [|done]. by destruct (from_str_radix _ _). }
  destruct (negotiated_total (mkSecureTcpSender (c_tx c) sc None None (s_padding_buffer s) None (os_rng s))
    (mkSecureTcpReceiver (c_rx c) rc None None (r_frame_reader r)) g seeded o peer p) as [n En]; [done|by destruct HP as (ack & e1 & e2 & rc1 & HP); apply HP..|].
  rewrite En. split; [done|]. intros ? [= <-]. destruct (negotiated_halves _ _ _ _ _ _ _ En) as [-> ->].
  split; [done|]. split; [done|]. split; [exact Hw|]. exists p, g. split; [by exists peer|done].
Qed.
End Peers.

(** ** Witnesses *)

Module Witnesses.
Import Toy EnvelopePolicy.Witnesses.

Definition key_a : bytes := zreplicate 32 5.
Definition key_b : bytes := zreplicate 32 6.
Definition side_a : SecureTcpSender Z * SecureTcpReceiver := tcp_session (mkTxStream [] []) (mkRxStream [] []) key_a key_b 3.
Definition side_b : SecureTcpSender Z * SecureTcpReceiver := tcp_session (mkTxStream [] []) (mkRxStream [] []) key_b key_a 4.
Definition willing : SocketOptions := mkSocketOptions (Ok ()) (Ok ()).

Lemma linked_new key : zlen key = 32 -> ciphers_linked (SendCipher_new key) (ReceiveCipher_new key).
Proof. intros Hk. split; [done|]. split; [done|]. by exists None. Qed.

(** What bob writes, and alice's session on it. *)
Definition bob_wire : bytes := Eval vm_compute in
  dialogue_round (policy_exchange alice) (s_cipher side_a.1, r_cipher side_a.2) (policy_exchange bob) (s_cipher side_b.1, r_cipher side_b.2) [].

Definition opened_a := establish_with_offer
  (mkSecureSession (InnerTcp side_a.1 (hears bob_wire (byte_events bob_wire) side_a.2)) transcript) transcript alice 1000000 willing 1.

Lemma policy_exchange_completes_witness :
  (outcome_on (policy_exchange alice) (s_cipher side_a.1, r_cipher side_a.2) bob_wire).1 = Some (Ok settled).
Proof.
  destruct (policy_exchange_completes alice bob settled session_hash side_a.1 side_b.1 side_a.2 side_b.2
    1000000 2000000 willing willing 1 2 alice_wf bob_wf) as (wa & wb & Hr & Ho & _);
    [vm_compute; reflexivity|reflexivity|done|done|reflexivity|reflexivity|reflexivity|reflexivity|reflexivity|reflexivity
    |by apply (linked_new key_a)|by apply (linked_new key_b)|by_compute|by_compute|].
  assert (wb = bob_wire) as Hb by (rewrite <- Hr; vm_compute; reflexivity). rewrite Hb in Ho. by rewrite Ho.
Defined.

Lemma opened_a_ok : match opened_a with Some res => is_ok res | None => false end = true.
Proof. vm_compute. reflexivity. Qed.

Lemma policy_exchange_sound_witness :
  exists n, opened_a = Some (Ok n) /\
    exists p g, exchanged alice bob_wire (rx (r_stream (session_rx n))) (ReceiveCipher_new key_b) (r_cipher (session_rx n)) p /\
      phantom_one_generation_from_transcript transcript = Ok g.
Proof.
  destruct (policy_exchange_sound alice side_a.1 (hears bob_wire (byte_events bob_wire) side_a.2) transcript transcript
    1000000 willing 1 key_b alice_wf) as [_ H];
    [reflexivity|split; [reflexivity|by exists None]|by_compute|done|done|].
  pose proof opened_a_ok as Hok.
  destruct opened_a as [[n|e|]|] eqn:E; try discriminate Hok.
  exists n. split; [reflexivity|]. destruct (H n E) as (_ & _ & _ & p & g & He & Hg & _).
  exists p, g. split; [exact He|exact Hg].
Defined.
End Witnesses.
